(* ===== verification/_CoqProject ===== *)
-Q . S2P
Prelude.v
ByteMem.v
FrameAlloc.v
Pmm.v
Heap.v
HeapThms.v
Vmm.v
VmmThms.v
Kbd.v
Rtc.v
Thread.v
ThreadThms.v
Port.v
PortThms.v
CStr.v
Printf.v
UserLib.v
Tar.v
Vfs.v
VfsThms.v
Fbcon.v
FbconThms.v
Files.v
FilesThms.v
UserCopy.v
SysMem.v
SysMemThms.v
UserMalloc.v
UserMallocThms.v
ElfLoader.v
ElfThms.v
UserPath.v
Shell.v
Proc.v
ProcThms.v
ProcDemo.v
Spawn.v
ImageThms.v
SpawnThms.v
CreateThms.v
CreateDemo.v
CleanupThms.v
CleanupDemo.v
Hw.v
Irq.v
IrqThms.v
IrqDemo.v
Syscalls.v
Programs.v
ProgThms.v
ProgDemo.v
Boot.v
BootDemo.v
BootThms.v
