(* ===== verification/Prelude.v ===== *)
(** * Cobj OS: a verification development

    Cobj OS is a small x86-64 operating system in C.  Its kernel (src/) boots
    through Limine, manages physical and virtual memory, schedules threads, loads
    ELF programs from a tar ramdisk and serves them system calls, a virtual file
    system and message ports; a small C library and a few programs (user/) run on
    top of it.  This library models the kernel, the library and the programs as
    executable definitions and proves the properties that make them correct.

    ** How the program is modelled

    - A C unsigned integer of width w is a [Z] in [0, 2^w); every operator of the
      source that can wrap is followed by the reduction written out below ([u64],
      [u32], [+64], ...).  A signed overflow is undefined behaviour ([Fault]).
    - Memory reached through pointers is one map from addresses to bytes
      ([ByteMem.mem]); what the code keeps in raw memory (heap headers and free
      lists, page tables, thread stacks, strings, the tar archive, programs, pixels)
      is kept there.  Structs that are only used through typed pointers (threads,
      processes, ports, message nodes, files, nodes of the file system) are records
      in a map from address to record; their blocks are allocated and released on
      the modelled heap.
    - A function of the source is a definition in the state monad [M] over the
      record of the variables it can change, or a pure function returning an
      [outcome] where it changes nothing.  The outcomes besides a result are
      [Panic] (the kernel's panic()), [Fault] (undefined behaviour the model can
      see: an index out of range, a NULL dereference, a missing table entry) and
      [Diverge] (the fuel of a loop ran out).
    - The states are nested as the components are: [mm_state] (frames, memory,
      heap) in [vm_state] (page tables) in [kernel] (threads), [sys_state] (file
      systems, console, keyboard, descriptors), [os_state] (all of these, ports and
      the process list), [machine] (memory regions and the next process number),
      [irq_state] (device registers, clock, interrupt table), [boot_state].  A
      component's operation runs in the larger state through [zoom].
    - Ports, device registers and model-specific registers are a trace of accesses;
      what a device answers is a function of the trace so far, a parameter.
    - The programs of user/ are interaction trees over the calls of the user library
      (ITree); the environment that answers them is an interface.
    - A loop whose bound is not a structural argument has fuel computed from the
      state: the number of bitmap words, of threads, of processes, of regions of a
      process, of components of a path, of blocks of the user heap, of pages of a
      segment, the number of bytes ever written (a C string always ends within
      them), a header per 512 bytes of the archive, the length of the format.  The
      theorems show that [Diverge] is never the result, so the fuel is enough.  Only
      the polling of a device (serial line, timer chip, CMOS) has its fuel as an
      argument, and the theorems bound it by how long the device takes.
    - Code outside the model is an argument: the time stamp counter, the entry
      points in assembly, the register garbage a new stack holds, the value of one
      unsequenced expression (thread.c:50).

    ** The files

    Kernel, from the bottom up:
    - Prelude: words, the monad, counted loops, shared tactics and lemmas.
    - ByteMem: byte memory, and src/misc/mem.c.
    - FrameAlloc: the interfaces as type classes.  [FrameAllocator] is what the
      frame allocator promises to its clients, [ObjHeap] what the kernel heap
      promises to the code that keeps structs on it, [Boot] the offset of the
      direct map.
    - Pmm: src/mm/pmm.c, an instance of [FrameAllocator].
    - Heap, HeapThms: src/mm/heap.c over any [FrameAllocator]; an instance of
      [ObjHeap].
    - Vmm, VmmThms: src/mm/vmm.c, the page tables, over the heap and the frames.
    - CStr: src/misc/util.c.  Printf: src/misc/printf.c.
    - Kbd: src/devices/kb.c.  Rtc: src/arch/rtc.c.
    - Tar: src/fs/tar.c.  Vfs, VfsThms: src/fs/vfs.c, tar_vfs.c and dev_vfs.c over
      any [ObjHeap].
    - Fbcon, FbconThms: src/fb/, drawing text on the pixels of the frame buffer.
    - Thread, ThreadThms: src/multi/thread.c.  Port, PortThms:
      src/userspace/port.c over any [ObjHeap] and the threads.
    - Files, FilesThms: src/fs/dev/ and the file calls of src/userspace/syscall.c.
    - UserCopy: copy_to_user and copy_from_user.  SysMem, SysMemThms: sys_mmap and
      sys_munmap.
    - ElfLoader, ElfThms: src/loader/elf.c.
    - Proc, ProcThms, ProcDemo: the process list and the calls on processes and
      ports (exit, kill, wait, sleep, listprocs, the port calls).
    - Spawn: proc_create, proc_cleanup and sys_spawn.  ImageThms, SpawnThms,
      CreateThms, CreateDemo: a new process; CleanupThms, CleanupDemo: its removal.
    - Hw: serial.c, gdt.c, tss.c and cpu.c.  Irq, IrqThms, IrqDemo: arch/idt.c with
      both interrupt handlers.
    - Syscalls: the dispatcher and, on the other side, the stubs of user/lib;
      [Handlers] is the interface between them.
    - Boot: main.c.  BootDemo: a boot of a concrete machine up to init, by
      evaluation.  BootThms: what kmain does on any machine.

    User space:
    - UserLib: user/lib/mem.c, util.c and printf.c.
    - UserMalloc, UserMallocThms: user/lib/malloc.c; [MmapService] is what it relies
      on of sys_mmap.
    - UserPath: the paths of user/lib/fs.c and proc.c and their copies in cat and ls.
    - Shell: user/init/shell.c.
    - Programs, ProgThms, ProgDemo: the main functions of user/bin, init.c and
      test.c; [Env] and [FileEnv] are the environment they run in.

    Definitions carry the names of the source; the helpers of a function (its
    loops, a branch used twice) stand before it.  The files with Thms in their
    name hold the properties of the component, most of them with their witnesses;
    the files with Demo in their name hold concrete machines and the witnesses of
    theorems whose hypotheses span several components.

    ** What is proved

    - Frames: pmm_init leaves free exactly the whole frames of usable memory that
      nothing else touches; allocation takes an element of the abstract free set,
      and no sequence of client calls makes two clients share a frame.
    - Heap: an invariant on headers, free lists and counters that every operation
      preserves; blocks never overlap, under any client that stays inside its
      blocks; a small request fails only when its class has no free block and no frame
      is free, or the allocator hands out frame 0 ([kmalloc_frame_zero_panics]).
    - Page tables: mapping and unmapping refine an update of the abstract
      translation at one page; mmap and munmap map and release exactly the pages of
      their range; copies to and from user space succeed exactly on what the
      program may read or write.
    - Loader and processes: elf_load maps the segments as the file says; proc_create
      gives a process with its image, its arguments on the stack, its descriptors
      and a ready thread and leaves everything else as it is; exit and kill close
      what the process has and nothing of others; proc_cleanup removes exactly the
      dead and releases their blocks and stacks.
    - Scheduler: the run queue is a ring; insertion, removal, choice of the next
      thread, waking and switching meet their contracts, and a thread that stays
      ready is chosen within one round.
    - Interrupts: the timer counts, reaps and schedules; a fault in user mode ends
      the thread and nothing else; the keyboard interrupt feeds the event queue; the
      tables the processor reads are as the manual wants them ([segments_correct],
      [idt_init_correct], [idt_enable_correct]).
    - Ports: each port is a first-in first-out queue of messages; foreign tokens are
      refused.  Keyboard: the ring buffer refines a bounded queue of events.
    - File systems: vfs_resolve refines a walk over immutable nodes, with every
      reference released; types are preserved by every call; reading gives the bytes
      at the offset; opening and closing restores the state; writing to the frame
      buffer stays inside it.
    - Console: fbcon_write draws the text screen its characters make.
    - System calls: which handler each function of the user library runs, on which
      arguments, and what it returns of the result, the functions that lose an
      argument or a result included ([library_calls_correct]).
    - User space: malloc, realloc and free keep the blocks apart and their contents;
      join normalises paths as the kernel takes them apart; from keys to arguments
      in the shell; cat, ls, ps, drives, pkill, echo and init end and do what they
      are for, in every environment that keeps its promises.
    - C routines: the word-wise memory routines equal the byte-wise ones; calendar
      conversions are inverse to each other; the output of snprintf stays in its
      buffer and is the prefix of the unlimited output; search and listing on an
      arbitrary archive.
    - Boot: kmain refuses an incomplete answer of the boot loader with the message
      of the first thing missing ([kmain_checks]); with complete answers, on
      every machine as promised, it leaves the tables, the allocator, the page
      tables, the heap, the clock and the first thread as they are meant to be, or
      panics for want of memory ([kmain_correct]).  An evaluation of kmain, kidle and
      the first timer interrupt on a concrete machine ends in init at its entry point
      ([boot_reaches_init]).

    Some theorems show where the code does not do what it means to: an unchecked
    table index ([port_create_past_table]), sizes that wrap ([kmalloc_size_wraps],
    [calloc_product_wraps], [tarfs_read_len_wraps]), a double free that goes
    unnoticed ([kfree_double_free_unnoticed]), the no-execute bit in a physical
    address ([vmm_get_mapping_keeps_nx]), a precision that overflows a local array
    ([precision_overflows_tmp]), zeros before a sign ([zero_pad_before_sign]), an
    unknown length modifier ([test_format]), a listing by string prefix
    ([tar_listdir_prefix_match]), a long component taken as two
    ([long_component_split]), leaked nodes ([device_path_leaks_node],
    [device_close_leaks]), calls through missing functions
    ([missing_function_faults]), a cursor below the screen
    ([fbcon_writes_past_frame_buffer]), a bss that is not cleared
    ([elf_bss_not_cleared]), user mappings in the kernel's half
    ([sys_mmap_maps_kernel_half]), waiters that are not woken
    ([sys_kill_leaves_waiters]), names without a terminator
    ([listprocs_unterminated_name]), silent truncation ([join_cuts_silently]), an
    array written past its end ([parse_args_past_args]), and a faulting process
    that keeps its ports and files ([isr_user_fault]).

    ** What is not modelled

    The assembly that saves and restores registers and switches stacks
    (idt_stubs.s, gdt_flush.s, the thread switch, the stack part of syscall_entry):
    an operation that ends in a switch is modelled up to it.  limine.h is the boot
    loader's vendored header; its answers are data.  Interrupts between two
    instructions of an operation: every handler, system call, kmain and kidle
    runs as a whole.  Caches, the translation buffer and memory ordering.  rdrand64 of port.c,
    which nothing calls.  Programs see buffers as values: a program that reads past
    one is outside the model ([Programs.Undefined]). *)

From stdpp Require Export base list gmap numbers strings list_numbers.
From stdpp Require Import options.
From Stdlib Require Export ZArith Lia.

#[global] Open Scope Z_scope.
#[export] Set Warnings "-clear-no-such-hyp".

(** ** Fixed-width unsigned arithmetic

    A C unsigned integer of width [w] is a [Z] in [0, 2^w); the operators of
    the source are the operators of [Z] followed by the reduction below. *)

Abbreviation W8 := 256 (only parsing).
Abbreviation W16 := 65536 (only parsing).
Abbreviation W32 := 4294967296 (only parsing).
Abbreviation W64 := 18446744073709551616 (only parsing).

Definition u8 (z : Z) : Z := z mod W8.
Definition u16 (z : Z) : Z := z mod W16.
Definition u32 (z : Z) : Z := z mod W32.
Definition u64 (z : Z) : Z := z mod W64.

(** The value of a 32-bit pattern read as a C [int]. *)
Definition s32 (z : Z) : Z := (z + 2147483648) mod W32 - 2147483648.

(** The value of a 64-bit pattern read as a C [int64_t]. *)
Definition s64 (z : Z) : Z := (z + 9223372036854775808) mod W64 - 9223372036854775808.

(** [~x] on [uint64_t]. *)
Definition not64 (z : Z) : Z := u64 (Z.lnot z).

Declare Scope c_scope.
Delimit Scope c_scope with c.
Notation "a +64 b" := (u64 (a + b)) (at level 50, left associativity) : c_scope.
Notation "a -64 b" := (u64 (a - b)) (at level 50, left associativity) : c_scope.
Notation "a *64 b" := (u64 (a * b)) (at level 40, left associativity) : c_scope.
#[global] Open Scope c_scope.

(** ** Outcomes and the state monad

    [panic] prints its message and halts, so it is an outcome of its own.
    [Fault] is C undefined behaviour the model can see: an array index out of
    range, a NULL dereference, a call through a NULL function pointer.
    [Diverge] is an exhausted fuel: the theorems show where it cannot occur. *)

Inductive outcome (A : Type) : Type :=
| Ret (a : A)
| Panic (msg : string)
| Fault
| Diverge.
Arguments Ret {A} a.
Arguments Panic {A} msg.
Arguments Fault {A}.
Arguments Diverge {A}.

(** Sequencing without state. *)
Definition obind {A B} (m : outcome A) (k : A → outcome B) : outcome B :=
  match m with
  | Ret a => k a
  | Panic msg => Panic msg
  | Fault => Fault
  | Diverge => Diverge
  end.

Definition M (S A : Type) : Type := S → outcome (A * S).

Definition ret {S A} (a : A) : M S A := λ s, Ret (a, s).

Definition bind {S A B} (m : M S A) (k : A → M S B) : M S B := λ s,
  match m s with
  | Ret (a, s') => k a s'
  | Panic msg => Panic msg
  | Fault => Fault
  | Diverge => Diverge
  end.

Definition panic {S A} (msg : string) : M S A := λ _, Panic msg.
Definition fault {S A} : M S A := λ _, Fault.
Definition diverge {S A} : M S A := λ _, Diverge.
Definition gets {S A} (f : S → A) : M S A := λ s, Ret (f s, s).
Definition modify {S} (f : S → S) : M S unit := λ s, Ret (tt, f s).

(** An option read: [None] is an access outside its object. *)
Definition of_opt {S A} (o : option A) : M S A :=
  match o with Some a => ret a | None => fault end.

(** A computation that does not touch the state. *)
Definition lift {S A} (r : outcome A) : M S A := λ s,
  match r with
  | Ret a => Ret (a, s)
  | Panic msg => Panic msg
  | Fault => Fault
  | Diverge => Diverge
  end.

(** The characters of a C string literal, without the terminator. *)
Fixpoint chars (s : string) : list Z :=
  match s with
  | EmptyString => []
  | String c s' => Z.of_nat (Ascii.nat_of_ascii c) :: chars s'
  end.

Notation "x <- m ;; k" := (bind m (λ x, k))
  (at level 100, m at next level, right associativity) : c_scope.
Notation "x <~ m ;; k" := (obind m (λ x, k))
  (at level 100, m at next level, right associativity) : c_scope.
Notation "m1 ;;; m2" := (bind m1 (λ _, m2))
  (at level 100, right associativity) : c_scope.

(** Running an operation of a component inside a larger state. *)
Definition zoom {S T A} (get : S → T) (put : T → S → S) (m : M T A) : M S A := λ s,
  match m (get s) with
  | Ret (a, t) => Ret (a, put t s)
  | Panic msg => Panic msg
  | Fault => Fault
  | Diverge => Diverge
  end.

(** [for (i = start; i < stop; i += step) body(i)] on an unsigned 64-bit [i].
    The fuel is the number of iterations allowed. *)
Fixpoint for_up {S} (fuel : nat) (i stop step : Z) (body : Z → M S unit) : M S unit :=
  if i <? stop then
    match fuel with
    | O => diverge
    | Datatypes.S f => body i ;;; for_up f (i +64 step) stop step body
    end
  else ret tt.

(** Enough fuel for a loop of step [step]. *)
Definition for_fuel (i stop step : Z) : nat := Z.to_nat ((stop - i + step - 1) / step).

(** [for (i = 0; i < n; i++)]. *)
Definition for_n {S} (n : Z) (body : Z → M S unit) : M S unit :=
  for_up (Z.to_nat n) 0 n 1 body.

(** ** Automation

    [word] decides linear goals about the reductions once they are unfolded;
    [run] symbolically executes the monad in the goal; [inv_run H] inverts a
    successful run in a hypothesis. *)

Create HintDb cobj.

Ltac word :=
  unfold u8, u16, u32, u64, s32, s64 in *;
  repeat match goal with
  | |- context [?x mod ?n] => rewrite (Z.mod_small x n) by lia
  | H : context [?x mod ?n] |- _ => rewrite (Z.mod_small x n) in H by lia
  end; lia.

(** Lookups in an updated list, at and off the updated index. *)
Ltac ins_eq H := rewrite list_lookup_insert_eq in H by done; injection H as H; subst.
Ltac ins_ne H := rewrite list_lookup_insert_ne in H by done.

(** *** Words *)

Lemma u64_range z : 0 ≤ u64 z < W64.
Proof. apply Z.mod_pos_bound. lia. Qed.

Lemma u64_small z : 0 ≤ z < W64 → u64 z = z.
Proof. apply Z.mod_small. Qed.

Lemma u32_range z : 0 ≤ u32 z < W32.
Proof. apply Z.mod_pos_bound. lia. Qed.

Lemma u32_small z : 0 ≤ z < W32 → u32 z = z.
Proof. apply Z.mod_small. Qed.

Lemma u8_range z : 0 ≤ u8 z < W8.
Proof. apply Z.mod_pos_bound. lia. Qed.

Lemma u8_small z : 0 ≤ z < W8 → u8 z = z.
Proof. apply Z.mod_small. Qed.

Lemma u64_idemp z : u64 (u64 z) = u64 z.
Proof. apply u64_small, u64_range. Qed.

Lemma u64_add_l a b : u64 (u64 a + b) = u64 (a + b).
Proof. apply Z.add_mod_idemp_l. lia. Qed.

Lemma u64_add_r a b : u64 (a + u64 b) = u64 (a + b).
Proof. apply Z.add_mod_idemp_r. lia. Qed.

Lemma u64_sub_l a b : u64 (u64 a - b) = u64 (a - b).
Proof. rewrite <- !Z.add_opp_r. apply u64_add_l. Qed.

Lemma u64_sub_r a b : u64 (a - u64 b) = u64 (a - b).
Proof. apply Zminus_mod_idemp_r. Qed.

Lemma u64_testbit z i : Z.testbit (u64 z) i = (i <? 64) && Z.testbit z i.
Proof.
  unfold u64. change W64 with (2 ^ 64).
  destruct (Z.ltb_spec i 64).
  - destruct (Z.ltb_spec i 0); [by rewrite !Z.testbit_neg_r by lia|].
    by rewrite Z.mod_pow2_bits_low by lia.
  - by rewrite Z.mod_pow2_bits_high by lia.
Qed.

Lemma not64_testbit z i :
  0 ≤ i → Z.testbit (not64 z) i = (i <? 64) && negb (Z.testbit z i).
Proof. intros. unfold not64. by rewrite u64_testbit, Z.lnot_spec by lia. Qed.

Lemma testbit_high w i : 0 ≤ w < W64 → 64 ≤ i → Z.testbit w i = false.
Proof.
  intros Hw Hi. rewrite <- (u64_small w Hw), u64_testbit.
  by destruct (Z.ltb_spec i 64); [lia|].
Qed.

Lemma bounded_testbit w n :
  0 ≤ n → 0 ≤ w → (∀ i, n ≤ i → Z.testbit w i = false) → w < 2 ^ n.
Proof.
  intros Hn Hw Hb. destruct (Z.eq_dec w 0) as [->|]; [by apply Z.pow_pos_nonneg|].
  apply Z.log2_lt_pow2; [lia|]. destruct (Z.lt_ge_cases (Z.log2 w) n); [done|].
  specialize (Hb (Z.log2 w) H). rewrite Z.bit_log2 in Hb by lia. done.
Qed.

Lemma testbit_bounded w n i : 0 ≤ w < 2 ^ n → n ≤ i → Z.testbit w i = false.
Proof.
  intros [Hw Hlt] Hi. destruct (Z.eq_dec w 0) as [->|]; [apply Z.testbit_0_l|].
  apply Z.bits_above_log2; [lia|].
  assert (Z.log2 w < n) by (apply Z.log2_lt_pow2; lia). lia.
Qed.

Lemma land_range a b : 0 ≤ a < W64 → 0 ≤ b → 0 ≤ Z.land a b < W64.
Proof.
  intros Ha Hb. split; [by apply Z.land_nonneg; lia|].
  apply (bounded_testbit _ 64); [lia|apply Z.land_nonneg; lia|].
  intros i Hi. by rewrite Z.land_spec, testbit_high.
Qed.

Lemma lor_range a b : 0 ≤ a < W64 → 0 ≤ b < W64 → 0 ≤ Z.lor a b < W64.
Proof.
  intros Ha Hb. split; [by apply Z.lor_nonneg; lia|].
  apply (bounded_testbit _ 64); [lia|apply Z.lor_nonneg; lia|].
  intros i Hi. by rewrite Z.lor_spec, !testbit_high.
Qed.

(** Clearing the low [k] bits rounds down to a multiple of [2 ^ k]. *)
Lemma land_not_ones x k : 0 ≤ x < W64 → 0 ≤ k → Z.land x (not64 (Z.ones k)) = x / 2 ^ k * 2 ^ k.
Proof.
  intros Hx Hk. rewrite <- Z.shiftl_mul_pow2, <- Z.shiftr_div_pow2 by lia.
  apply Z.bits_inj'. intros i Hi. rewrite Z.land_spec, not64_testbit, Z.shiftl_spec by lia.
  destruct (Z.lt_ge_cases i k).
  - rewrite Z.ones_spec_low, (Z.testbit_neg_r _ (i - k)) by lia. rewrite andb_false_r. apply andb_false_r.
  - rewrite Z.ones_spec_high, Z.shiftr_spec by lia. replace (i - k + k) with i by lia.
    destruct (Z.ltb_spec i 64); [apply andb_true_r|]. by rewrite testbit_high by lia.
Qed.

#[export] Hint Resolve u64_range u32_range u8_range land_range lor_range : cobj.

(** *** The monad *)

Lemma bind_Ret_inv {S A B} (m : M S A) (k : A → M S B) s r :
  bind m k s = Ret r → ∃ a s1, m s = Ret (a, s1) ∧ k a s1 = Ret r.
Proof. unfold bind. destruct (m s) as [[a s1]| | |]; naive_solver. Qed.

Lemma bind_Ret {S A B} (m : M S A) (k : A → M S B) s a s1 :
  m s = Ret (a, s1) → bind m k s = k a s1.
Proof. unfold bind. by intros ->. Qed.

Lemma bind_gets {S A B} (f : S → A) (k : A → M S B) s : bind (gets f) k s = k (f s) s.
Proof. done. Qed.

Lemma bind_modify {S B} (f : S → S) (k : unit → M S B) s : bind (modify f) k s = k tt (f s).
Proof. done. Qed.

Lemma bind_assoc {S A B C} (m : M S A) (k : A → M S B) (k' : B → M S C) s :
  bind (bind m k) k' s = bind m (λ a, bind (k a) k') s.
Proof. unfold bind. by destruct (m s) as [[? ?]| | |]. Qed.

Lemma bind_ret {S A B} (a : A) (k : A → M S B) s : bind (ret a) k s = k a s.
Proof. done. Qed.

Lemma bind_lift {S A B} (r : outcome A) (k : A → M S B) s a : r = Ret a → bind (lift r) k s = k a s.
Proof. by intros ->. Qed.

Lemma bind_Panic {S A B} (m : M S A) (k : A → M S B) s msg :
  m s = Panic msg → bind m k s = Panic msg.
Proof. unfold bind. by intros ->. Qed.

Lemma zoom_Ret_inv {S T A} (get : S → T) (put : T → S → S) (m : M T A) s a s' :
  zoom get put m s = Ret (a, s') → ∃ t, m (get s) = Ret (a, t) ∧ s' = put t s.
Proof. unfold zoom. destruct (m (get s)) as [[b t]| | |]; naive_solver. Qed.

Lemma zoom_Ret {S T A} (get : S → T) (put : T → S → S) (m : M T A) s a t :
  m (get s) = Ret (a, t) → zoom get put m s = Ret (a, put t s).
Proof. unfold zoom. by intros ->. Qed.

(** No undefined behaviour and no exhausted fuel: a result or a panic. *)
Definition safe {A} (r : outcome A) : Prop :=
  match r with Ret _ | Panic _ => True | _ => False end.

Lemma safe_bind {S A B} (m : M S A) (k : A → M S B) s :
  safe (m s) → (∀ a s1, m s = Ret (a, s1) → safe (k a s1)) → safe (bind m k s).
Proof. unfold bind. destruct (m s) as [[a s1]| | |]; simpl; auto. Qed.

Lemma safe_zoom {S T A} (get : S → T) (put : T → S → S) (m : M T A) s :
  safe (m (get s)) → safe (zoom get put m s).
Proof. unfold zoom. by destruct (m (get s)) as [[a t]| | |]. Qed.

Lemma safe_Ret {A} (r : outcome A) a : r = Ret a → safe r.
Proof. by intros ->. Qed.

(** [wp r Q]: the run neither faults nor exhausts its fuel, and if it returns
    (rather than panics) then with a value and a state that satisfy [Q]. *)
Definition wp {S A} (r : outcome (A * S)) (Q : A → S → Prop) : Prop :=
  match r with
  | Ret (a, s) => Q a s
  | Panic _ => True
  | _ => False
  end.

Lemma wp_bind {S A B} (m : M S A) (k : A → M S B) s Q :
  wp (m s) (λ a s1, wp (k a s1) Q) → wp (bind m k s) Q.
Proof. unfold bind. by destruct (m s) as [[a s1]| | |]. Qed.

Lemma wp_mono {S A} (r : outcome (A * S)) (Q Q' : A → S → Prop) :
  wp r Q → (∀ a s, Q a s → Q' a s) → wp r Q'.
Proof. destruct r as [[a s]| | |]; simpl; auto. Qed.

Lemma wp_safe {S A} (r : outcome (A * S)) (Q : A → S → Prop) :
  safe r → (∀ a s, r = Ret (a, s) → Q a s) → wp r Q.
Proof. destruct r as [[a s]| | |]; simpl; auto. Qed.

Lemma wp_Ret {S A} (r : outcome (A * S)) a s (Q : A → S → Prop) : r = Ret (a, s) → Q a s → wp r Q.
Proof. by intros ->. Qed.

Lemma wp_zoom {S T A} (get : S → T) (put : T → S → S) (m : M T A) s (Q : A → S → Prop) :
  wp (m (get s)) (λ a t, Q a (put t s)) → wp (zoom get put m s) Q.
Proof. unfold zoom. by destruct (m (get s)) as [[a t]| | |]. Qed.

(** Every successful run of [m] keeps [P]. *)
Definition preserves {S A} (P : S → Prop) (m : M S A) : Prop :=
  ∀ s a s', P s → m s = Ret (a, s') → P s'.

Lemma pres_when {S A B} (P : S → Prop) (Q : A → Prop) (m : M S A) (k : A → M S B) :
  (∀ s a s', P s → m s = Ret (a, s') → P s' ∧ Q a) → (∀ a, Q a → preserves P (k a)) →
  preserves P (bind m k).
Proof.
  intros Hm Hk s b s' HP (a & s1 & H1 & H2)%bind_Ret_inv. destruct (Hm _ _ _ HP H1). by eapply Hk.
Qed.

Lemma pres_bind {S A B} (P : S → Prop) (m : M S A) (k : A → M S B) :
  preserves P m → (∀ a, preserves P (k a)) → preserves P (bind m k).
Proof. intros Hm Hk. apply (pres_when P (λ _, True)); [|by auto]. split; [by eapply Hm|done]. Qed.

Lemma pres_ret {S A} (P : S → Prop) (a : A) : preserves P (ret a).
Proof. intros s b s' HP E. by injection E as <- <-. Qed.

Lemma pres_gets {S A} (P : S → Prop) (f : S → A) : preserves P (gets f).
Proof. intros s b s' HP E. by injection E as <- <-. Qed.

Lemma pres_modify {S} (P : S → Prop) (f : S → S) : (∀ s, P s → P (f s)) → preserves P (modify f).
Proof. intros Hf s b s' HP E. injection E as <- <-. auto. Qed.

Lemma pres_lift {S A} (P : S → Prop) (r : outcome A) : preserves P (lift r).
Proof. intros s b s' HP E. unfold lift in E. destruct r; try done. by injection E as <- <-. Qed.

Lemma pres_opt {S A} (P : S → Prop) (o : option A) : preserves P (of_opt o).
Proof. destruct o; [apply pres_ret|done]. Qed.

Lemma pres_fault {S A} (P : S → Prop) : preserves P (fault (A := A)).
Proof. done. Qed.

Lemma pres_panic {S A} (P : S → Prop) msg : preserves P (panic (A := A) msg).
Proof. done. Qed.

Lemma pres_diverge {S A} (P : S → Prop) : preserves P (diverge (A := A)).
Proof. done. Qed.

Lemma pres_zoom {S T A} (P : S → Prop) (get : S → T) (put : T → S → S) (m : M T A) :
  (∀ s t, P s → P (put t s)) → preserves P (zoom get put m).
Proof. intros Hp s a s' HP (t & _ & ->)%zoom_Ret_inv. auto. Qed.

(** Preservation, one operation after the other. *)
Ltac pres_auto :=
  repeat match goal with
  | |- preserves _ (bind _ _) => apply pres_bind; [|intros ?]
  | |- preserves _ (if ?b then _ else _) => destruct b
  | |- preserves _ (modify _) => apply pres_modify; by intros ?
  | |- preserves _ (zoom _ _ _) => apply pres_zoom; by intros ?
  | _ => progress eauto with cobj
  end.

#[export] Hint Resolve pres_ret pres_gets pres_lift pres_opt pres_fault pres_panic pres_diverge : cobj.
#[export] Hint Resolve pres_bind pres_modify pres_zoom : cobj.

(** Reading the value and the state off a run: on concrete inputs the value is
    computed and the state is left unevaluated. *)
Definition value_of {S A} (r : outcome (A * S)) : option A :=
  match r with Ret (a, _) => Some a | _ => None end.
Definition state_of {S A} (s : S) (r : outcome (A * S)) : S :=
  match r with Ret (_, s') => s' | _ => s end.

Lemma run_value {S A} (s : S) (r : outcome (A * S)) a :
  value_of r = Some a → r = Ret (a, state_of s r).
Proof. destruct r as [[b t]| | |]; simpl; congruence. Qed.

Lemma run_det {S A} (r : outcome (A * S)) a s b t :
  r = Ret (a, s) → r = Ret (b, t) → a = b ∧ s = t.
Proof. intros -> [= -> ->]. done. Qed.

Ltac inv_run H :=
  match type of H with
  | bind _ _ _ = Ret _ =>
      let a := fresh "a" in let s1 := fresh "s" in let H1 := fresh "Hrun" in
      apply bind_Ret_inv in H as (a & s1 & H1 & H)
  | ret _ _ = Ret _ => injection H as H; subst
  | gets _ _ = Ret _ => injection H as H; subst
  | modify _ _ = Ret _ => injection H as H; subst
  | Ret _ = Ret _ => injection H as H; subst
  end.

(** *** Counted loops *)

(** Total correctness of [for_up] by an invariant indexed by the counter. *)
Lemma for_up_total {S} (I : Z → S → Prop) (body : Z → M S unit) stop step :
  0 < step → stop + step ≤ W64 →
  ∀ fuel i s,
    0 ≤ i → (for_fuel i stop step ≤ fuel)%nat →
    (∀ j s, i ≤ j < stop → (step | j - i) → I j s →
            ∃ s', body j s = Ret (tt, s') ∧ I (j + step) s') →
    I i s →
    ∃ j s', for_up fuel i stop step body s = Ret (tt, s') ∧ I j s' ∧ (step | j - i) ∧
            i ≤ j ∧ stop ≤ j ∧ (i < stop → j < stop + step) ∧ (stop ≤ i → j = i).
Proof.
  intros Hstep Hstop. induction fuel as [|fuel IH]; intros i s Hi Hf Hb HI.
  - assert (stop ≤ i).
    { unfold for_fuel in Hf. destruct (Z.le_gt_cases stop i); [done|].
      assert (1 ≤ (stop - i + step - 1) / step) by (apply Z.div_le_lower_bound; lia). lia. }
    exists i, s. simpl. destruct (Z.ltb_spec i stop); [lia|].
    rewrite Z.sub_diag. by repeat split; auto using Z.divide_0_r with lia.
  - simpl. destruct (Z.ltb_spec i stop) as [Hlt|Hge].
    + destruct (Hb i s) as (s' & Hrun & HI'); [lia|rewrite Z.sub_diag; apply Z.divide_0_r|done|].
      rewrite (bind_Ret _ _ _ _ _ Hrun), u64_small by lia.
      destruct (IH (i + step) s') as (j & s'' & H1 & H2 & H3 & H4 & H5 & H6 & H7);
        [lia| |intros j s0 Hj Hd; apply Hb; [lia|]|done|].
      { unfold for_fuel in *.
        replace (stop - i + step - 1) with (stop - (i + step) + step - 1 + 1 * step) in Hf by lia.
        rewrite Z.div_add in Hf by lia. lia. }
      { replace (j - i) with (j - (i + step) + 1 * step) by lia.
        apply Z.divide_add_r; [done|apply Z.divide_factor_r]. }
      exists j, s''. repeat split; try done; try lia.
      replace (j - i) with (j - (i + step) + 1 * step) by lia.
      apply Z.divide_add_r; [done|apply Z.divide_factor_r].
    + exists i, s. rewrite Z.sub_diag. by repeat split; auto using Z.divide_0_r with lia.
Qed.

(** Partial correctness: every successful run of the loop preserves [I]. *)
Lemma for_up_partial {S} (I : Z → S → Prop) (body : Z → M S unit) stop step :
  0 < step → stop + step ≤ W64 →
  ∀ fuel i s s',
    0 ≤ i → for_up fuel i stop step body s = Ret (tt, s') →
    (∀ j s s', i ≤ j < stop → (step | j - i) → I j s → body j s = Ret (tt, s') → I (j + step) s') →
    I i s →
    ∃ j, I j s' ∧ (step | j - i) ∧ i ≤ j ∧ stop ≤ j ∧
         (i < stop → j < stop + step) ∧ (stop ≤ i → j = i).
Proof.
  intros Hstep Hstop. induction fuel as [|fuel IH]; intros i s s' Hi Hrun Hb HI; simpl in Hrun.
  - destruct (Z.ltb_spec i stop); [done|]. injection Hrun as <-.
    exists i. rewrite Z.sub_diag. by repeat split; auto using Z.divide_0_r with lia.
  - destruct (Z.ltb_spec i stop) as [Hlt|Hge].
    + inv_run Hrun. destruct a. rewrite u64_small in Hrun by lia.
      destruct (IH (i + step) s0 s') as (j & H1 & H2 & H3 & H4 & H5 & H6); [lia|done| | |].
      { intros j s1 s2 Hj Hd. apply Hb; [lia|].
        replace (j - i) with (j - (i + step) + 1 * step) by lia.
        apply Z.divide_add_r; [done|apply Z.divide_factor_r]. }
      { apply (Hb i s); [lia|rewrite Z.sub_diag; apply Z.divide_0_r|done|done]. }
      exists j. repeat split; try done; try lia.
      replace (j - i) with (j - (i + step) + 1 * step) by lia.
      apply Z.divide_add_r; [done|apply Z.divide_factor_r].
    + injection Hrun as <-. exists i. rewrite Z.sub_diag.
      by repeat split; auto using Z.divide_0_r with lia.
Qed.

Lemma for_n_total {S} (I : Z → S → Prop) (body : Z → M S unit) n s :
  0 ≤ n < W64 →
  (∀ j s, 0 ≤ j < n → I j s → ∃ s', body j s = Ret (tt, s') ∧ I (j + 1) s') →
  I 0 s → ∃ s', for_n n body s = Ret (tt, s') ∧ I n s'.
Proof.
  intros Hn Hb HI.
  destruct (for_up_total I body n 1 ltac:(lia) ltac:(lia) (Z.to_nat n) 0 s)
    as (j & s' & H1 & H2 & _ & H4 & H5 & H6 & H7); [lia| |naive_solver|done|].
  { unfold for_fuel. rewrite Z.div_1_r. lia. }
  exists s'. split; [done|]. by replace n with j by lia.
Qed.

Lemma for_n_partial {S} (I : Z → S → Prop) (body : Z → M S unit) n s s' :
  0 ≤ n < W64 → for_n n body s = Ret (tt, s') →
  (∀ j s s', 0 ≤ j < n → I j s → body j s = Ret (tt, s') → I (j + 1) s') →
  I 0 s → I n s'.
Proof.
  intros Hn Hrun Hb HI.
  destruct (for_up_partial I body n 1 ltac:(lia) ltac:(lia) (Z.to_nat n) 0 s s')
    as (j & H1 & _ & H3 & H4 & H5 & H6); [lia|done|naive_solver|done|].
  by replace n with j by lia.
Qed.
