(* ===== verification/ByteMem.v ===== *)
(** * Byte memory and the routines of src/misc/mem.c

    The bytes the kernel reaches through pointers form one finite map from
    addresses to bytes; an address that was never written reads as 0.  The
    operations of mem.c (shared by the kernel and, as an identical copy, by
    user/lib/mem.c) take the memory and return it; a C pointer is the address
    it holds.  Loops that count [n] down to 0 recurse on [n]. *)

From S2P Require Import Prelude.

Abbreviation mem := (gmap Z Z).

Definition load8 (m : mem) (a : Z) : Z := u8 (default 0 (m !! a)).
Definition store8 (m : mem) (a v : Z) : mem := <[a := u8 v]> m.

(** Little-endian accesses of [n] bytes, as x86-64 performs them. *)
Fixpoint load_le (n : nat) (m : mem) (a : Z) : Z :=
  match n with
  | O => 0
  | S n' => load8 m a + 256 * load_le n' m (a + 1)
  end.

Fixpoint store_le (n : nat) (m : mem) (a v : Z) : mem :=
  match n with
  | O => m
  | S n' => store_le n' (store8 m a v) (a + 1) (v / 256)
  end.

Definition load32 := load_le 4.
Definition load64 := load_le 8.
Definition store32 := store_le 4.
Definition store64 := store_le 8.

(** [IS_ALIGNED(p)]. *)
Definition IS_ALIGNED (p : Z) : bool := Z.land p 3 =? 0.

(** ** memset, memcpy, memmove, memcmp *)

Fixpoint memset_loop (n : nat) (m : mem) (p c : Z) : mem :=
  match n with
  | O => m
  | S n' => memset_loop n' (store8 m p (u8 c)) (p + 1) c
  end.

Definition memset (m : mem) (dst c n : Z) : mem := memset_loop (Z.to_nat n) m dst c.

(** [while (n--) *d++ = *s++;] *)
Fixpoint copy_up (n : nat) (m : mem) (d s : Z) : mem :=
  match n with
  | O => m
  | S n' => copy_up n' (store8 m d (load8 m s)) (d + 1) (s + 1)
  end.

(** [while (n--) *--d = *--s;] *)
Fixpoint copy_down (n : nat) (m : mem) (d s : Z) : mem :=
  match n with
  | O => m
  | S n' => copy_down n' (store8 m (d - 1) (load8 m (s - 1))) (d - 1) (s - 1)
  end.

Definition memcpy (m : mem) (dst src n : Z) : mem := copy_up (Z.to_nat n) m dst src.

Definition memmove (m : mem) (dst src n : Z) : mem :=
  if dst <? src then copy_up (Z.to_nat n) m dst src
  else copy_down (Z.to_nat n) m (dst + n) (src + n).

Fixpoint memcmp_loop (n : nat) (m : mem) (p q : Z) : Z :=
  match n with
  | O => 0
  | S n' =>
      if negb (load8 m p =? load8 m q) then load8 m p - load8 m q
      else memcmp_loop n' m (p + 1) (q + 1)
  end.

Definition memcmp (m : mem) (a b n : Z) : Z := memcmp_loop (Z.to_nat n) m a b.

(** ** The 32-bit variants

    Each has a byte loop up to a 4-byte boundary, a word loop guarded by
    [n >= 4], and a byte loop for the tail; the loops return the pointers and
    the count they leave. *)

Fixpoint set_head (n : nat) (m : mem) (p8 c : Z) : mem * Z * nat :=
  match n with
  | O => (m, p8, O)
  | S n' =>
      if negb (IS_ALIGNED p8) then set_head n' (store8 m p8 (u8 c)) (p8 + 1) c
      else (m, p8, n)
  end.

Fixpoint set_words (n : nat) (m : mem) (p32 val : Z) : mem * Z * nat :=
  match n with
  | S (S (S (S n'))) => set_words n' (store32 m p32 val) (p32 + 4) val
  | _ => (m, p32, n)
  end.

Definition memset32 (m : mem) (dst c n : Z) : mem :=
  let '(m, p8, n) := set_head (Z.to_nat n) m dst c in
  let '(m, p8, n) :=
    if (4 <=? n)%nat then
      let val := u8 c in
      let val := Z.lor val (u32 (Z.shiftl val 8)) in
      let val := Z.lor val (u32 (Z.shiftl val 16)) in
      set_words n m p8 val
    else (m, p8, n) in
  memset_loop n m p8 c.

Fixpoint copy_head (n : nat) (m : mem) (d8 s8 : Z) : mem * Z * Z * nat :=
  match n with
  | O => (m, d8, s8, O)
  | S n' =>
      if negb (IS_ALIGNED d8) then copy_head n' (store8 m d8 (load8 m s8)) (d8 + 1) (s8 + 1)
      else (m, d8, s8, n)
  end.

Fixpoint copy_words (n : nat) (m : mem) (d32 s32 : Z) : mem * Z * Z * nat :=
  match n with
  | S (S (S (S n'))) => copy_words n' (store32 m d32 (load32 m s32)) (d32 + 4) (s32 + 4)
  | _ => (m, d32, s32, n)
  end.

(** The forward copy of memcpy32, also the [d8 < s8] branch of memmove32. *)
Definition copy32_up (m : mem) (d8 s8 : Z) (n : nat) : mem :=
  let '(m, d8, s8, n) := copy_head n m d8 s8 in
  let '(m, d8, s8, n) :=
    if (4 <=? n)%nat && IS_ALIGNED s8 then copy_words n m d8 s8 else (m, d8, s8, n) in
  copy_up n m d8 s8.

Definition memcpy32 (m : mem) (dst src n : Z) : mem := copy32_up m dst src (Z.to_nat n).

Fixpoint copy_head_down (n : nat) (m : mem) (d8 s8 : Z) : mem * Z * Z * nat :=
  match n with
  | O => (m, d8, s8, O)
  | S n' =>
      if negb (IS_ALIGNED d8)
      then copy_head_down n' (store8 m (d8 - 1) (load8 m (s8 - 1))) (d8 - 1) (s8 - 1)
      else (m, d8, s8, n)
  end.

Fixpoint copy_words_down (n : nat) (m : mem) (d32 s32 : Z) : mem * Z * Z * nat :=
  match n with
  | S (S (S (S n'))) =>
      copy_words_down n' (store32 m (d32 - 4) (load32 m (s32 - 4))) (d32 - 4) (s32 - 4)
  | _ => (m, d32, s32, n)
  end.

Definition copy32_down (m : mem) (d8 s8 : Z) (n : nat) : mem :=
  let '(m, d8, s8, n) := copy_head_down n m d8 s8 in
  let '(m, d8, s8, n) :=
    if (4 <=? n)%nat && IS_ALIGNED s8 then copy_words_down n m d8 s8 else (m, d8, s8, n) in
  copy_down n m d8 s8.

Definition memmove32 (m : mem) (dst src n : Z) : mem :=
  if (dst =? src) || (n =? 0) then m
  else if dst <? src then copy32_up m dst src (Z.to_nat n)
  else copy32_down m (dst + n) (src + n) (Z.to_nat n).

(** The byte loop of memcmp32 before the word loop: [inl r] is an early
    return of [r], [inr] the pointers and the count left. *)
Fixpoint cmp_head (n : nat) (m : mem) (p8 q8 : Z) : Z + Z * Z * nat :=
  match n with
  | O => inr (p8, q8, O)
  | S n' =>
      if negb (IS_ALIGNED p8) || negb (IS_ALIGNED q8) then
        if negb (load8 m p8 =? load8 m q8) then inl (load8 m p8 - load8 m q8)
        else cmp_head n' m (p8 + 1) (q8 + 1)
      else inr (p8, q8, n)
  end.

Fixpoint cmp_words (n : nat) (m : mem) (p32 q32 : Z) : Z + Z * Z * nat :=
  match n with
  | S (S (S (S n'))) =>
      if negb (load32 m p32 =? load32 m q32) then
        if negb (load8 m p32 =? load8 m q32) then inl (load8 m p32 - load8 m q32)
        else if negb (load8 m (p32 + 1) =? load8 m (q32 + 1))
        then inl (load8 m (p32 + 1) - load8 m (q32 + 1))
        else if negb (load8 m (p32 + 2) =? load8 m (q32 + 2))
        then inl (load8 m (p32 + 2) - load8 m (q32 + 2))
        else inl (load8 m (p32 + 3) - load8 m (q32 + 3))
      else cmp_words n' m (p32 + 4) (q32 + 4)
  | _ => inr (p32, q32, n)
  end.

Definition memcmp32 (m : mem) (a b n : Z) : Z :=
  match cmp_head (Z.to_nat n) m a b with
  | inl r => r
  | inr (p8, q8, n) =>
      match (if (4 <=? n)%nat then cmp_words n m p8 q8 else inr (p8, q8, n)) with
      | inl r => r
      | inr (p8, q8, n) => memcmp_loop n m p8 q8
      end
  end.

(** ** Observational equality of memories *)

Definition mem_eq (m1 m2 : mem) : Prop := ∀ a, load8 m1 a = load8 m2 a.
Infix "≡ₘ" := mem_eq (at level 70, no associativity) : c_scope.

#[export] Instance mem_eq_equiv : Equivalence mem_eq.
Proof.
  split; [done|by intros m1 m2 H a|]. intros m1 m2 m3 H1 H2 a. by rewrite H1, H2.
Qed.

(** ** Loads and stores *)

Lemma load8_range m a : 0 ≤ load8 m a < W8.
Proof. apply u8_range. Qed.
#[export] Hint Resolve load8_range : cobj.

Lemma load8_store8 m a v b :
  load8 (store8 m a v) b = if decide (a = b) then u8 v else load8 m b.
Proof.
  unfold load8, store8. rewrite lookup_insert. case_decide; [|done].
  simpl. apply u8_small, u8_range.
Qed.

Lemma u8_load8 m a : u8 (load8 m a) = load8 m a.
Proof. apply u8_small, load8_range. Qed.

(** Byte [k] of a word. *)
Definition byte_of (v k : Z) : Z := u8 (v / 256 ^ k).

Lemma load8_store_le n m a v b :
  load8 (store_le n m a v) b =
    if decide (a ≤ b < a + Z.of_nat n) then byte_of v (b - a) else load8 m b.
Proof.
  revert m a v. induction n as [|n IH]; intros m a v.
  - simpl. case_decide; [lia|done].
  - cbn [store_le]. rewrite IH, load8_store8. unfold byte_of.
    repeat case_decide; try lia; [|by subst; rewrite Z.sub_diag, Z.div_1_r].
    f_equal. replace (b - a) with (1 + (b - (a + 1))) by lia.
    rewrite Z.pow_add_r, Z.div_div by lia. done.
Qed.

Lemma load_le_ext n m1 m2 a :
  (∀ b, a ≤ b < a + Z.of_nat n → load8 m1 b = load8 m2 b) →
  load_le n m1 a = load_le n m2 a.
Proof.
  revert a. induction n as [|n IH]; intros a H; [done|].
  cbn [load_le]. rewrite H by lia. f_equal. f_equal. apply IH. intros; apply H; lia.
Qed.

#[export] Instance load8_proper : Proper (mem_eq ==> eq ==> eq) load8.
Proof. by intros m1 m2 H a ? <-. Qed.

#[export] Instance load_le_proper n : Proper (mem_eq ==> eq ==> eq) (load_le n).
Proof. intros m1 m2 H a ? <-. by apply load_le_ext. Qed.

#[export] Instance store8_proper : Proper (mem_eq ==> eq ==> eq ==> mem_eq) store8.
Proof. intros m1 m2 H a ? <- v ? <- b. by rewrite !load8_store8, H. Qed.

#[export] Instance store_le_proper n : Proper (mem_eq ==> eq ==> eq ==> mem_eq) (store_le n).
Proof. intros m1 m2 H a ? <- v ? <- b. by rewrite !load8_store_le, H. Qed.

Lemma load_le_range n m a : 0 ≤ load_le n m a < 256 ^ Z.of_nat n.
Proof.
  revert a. induction n as [|n IH]; intros a; [done|].
  cbn [load_le]. rewrite Nat2Z.inj_succ, Z.pow_succ_r by lia.
  specialize (IH (a + 1)). pose proof (load8_range m a). lia.
Qed.

Lemma load_le_zero n m a :
  (∀ b, a ≤ b < a + Z.of_nat n → load8 m b = 0) → load_le n m a = 0.
Proof.
  revert a. induction n as [|n IH]; intros a H; [done|]. cbn [load_le].
  rewrite H, IH; [done| |lia]. intros b Hb. apply H. lia.
Qed.

Lemma load_le_store_le_eq n m a v :
  load_le n (store_le n m a v) a = v mod 256 ^ Z.of_nat n.
Proof.
  revert m a v. induction n as [|n IH]; intros m a v; [by rewrite Z.mod_1_r|].
  cbn [load_le store_le].
  rewrite IH, load8_store_le, load8_store8.
  rewrite decide_False, decide_True by lia.
  rewrite Nat2Z.inj_succ, Z.pow_succ_r by lia.
  rewrite Z.rem_mul_r by (try apply Z.pow_nonzero; lia). done.
Qed.

Lemma load_le_store_le_ne n k m a b v :
  a + Z.of_nat n ≤ b ∨ b + Z.of_nat k ≤ a →
  load_le k (store_le n m a v) b = load_le k m b.
Proof. intros H. apply load_le_ext. intros i Hi. rewrite load8_store_le, decide_False by lia. done. Qed.

Lemma load64_range m a : 0 ≤ load64 m a < W64.
Proof. apply (load_le_range 8). Qed.

Lemma load64_store64_eq m a v : 0 ≤ v < W64 → load64 (store64 m a v) a = v.
Proof.
  intros. unfold load64, store64. rewrite load_le_store_le_eq.
  apply Z.mod_small. simpl. lia.
Qed.

Lemma load64_store64_ne m a b v : a + 8 ≤ b ∨ b + 8 ≤ a → load64 (store64 m a v) b = load64 m b.
Proof. intros. by apply load_le_store_le_ne. Qed.

#[export] Hint Resolve load64_range : cobj.

(** ** memset, memcpy, memmove, memcmp meet their contracts *)

Lemma load8_memset_loop n m p c b :
  load8 (memset_loop n m p c) b =
    if decide (p ≤ b < p + Z.of_nat n) then u8 c else load8 m b.
Proof.
  revert m p. induction n as [|n IH]; intros m p; cbn [memset_loop].
  - case_decide; [lia|done].
  - rewrite IH, load8_store8, (u8_small (u8 c)) by apply u8_range.
    repeat case_decide; done || lia.
Qed.

(** Every byte of the destination is set and no other byte changes. *)
Lemma load8_memset m p c n b :
  0 ≤ n → load8 (memset m p c n) b = if decide (p ≤ b < p + n) then u8 c else load8 m b.
Proof. intros. unfold memset. rewrite load8_memset_loop. repeat case_decide; done || lia. Qed.

(** The address a copied byte comes from. *)
Definition copy_spec (m : mem) (d s n b : Z) : Z :=
  if decide (d ≤ b < d + n) then load8 m (s + (b - d)) else load8 m b.

Lemma load8_copy_up n m d s b :
  d ≤ s ∨ s + Z.of_nat n ≤ d →
  load8 (copy_up n m d s) b = copy_spec m d s (Z.of_nat n) b.
Proof.
  revert m d s. induction n as [|n IH]; intros m d s Hds; cbn [copy_up]; unfold copy_spec in *.
  - case_decide; [lia|done].
  - rewrite IH by lia. rewrite !load8_store8, u8_load8.
    repeat case_decide; try lia; try done; f_equal; lia.
Qed.

Lemma load8_copy_down n m d s b :
  s ≤ d ∨ d ≤ s - Z.of_nat n →
  load8 (copy_down n m d s) b = copy_spec m (d - Z.of_nat n) (s - Z.of_nat n) (Z.of_nat n) b.
Proof.
  revert m d s. induction n as [|n IH]; intros m d s Hds; cbn [copy_down]; unfold copy_spec in *.
  - case_decide; [lia|done].
  - rewrite IH by lia. rewrite !load8_store8, u8_load8.
    repeat case_decide; try lia; try done; f_equal; lia.
Qed.

Lemma load8_memcpy m d s n b :
  0 ≤ n → d ≤ s ∨ s + n ≤ d → load8 (memcpy m d s n) b = copy_spec m d s n b.
Proof. intros. unfold memcpy. rewrite load8_copy_up by lia. by rewrite Z2Nat.id. Qed.

Lemma load8_memmove m d s n b :
  0 ≤ n → load8 (memmove m d s n) b = copy_spec m d s n b.
Proof.
  intros Hn. unfold memmove. destruct (Z.ltb_spec d s).
  - rewrite load8_copy_up, Z2Nat.id by lia. done.
  - rewrite load8_copy_down by lia. rewrite !Z2Nat.id by lia. f_equal; lia.
Qed.

(** The first mismatch of two ranges decides memcmp. *)
Lemma memcmp_loop_spec n m p q :
  (memcmp_loop n m p q = 0 ∧ ∀ k, 0 ≤ k < Z.of_nat n → load8 m (p + k) = load8 m (q + k)) ∨
  (∃ k, 0 ≤ k < Z.of_nat n ∧ (∀ j, 0 ≤ j < k → load8 m (p + j) = load8 m (q + j)) ∧
        load8 m (p + k) ≠ load8 m (q + k) ∧
        memcmp_loop n m p q = load8 m (p + k) - load8 m (q + k)).
Proof.
  revert p q. induction n as [|n IH]; intros p q; cbn [memcmp_loop]; [left; split; [done|lia]|].
  destruct (Z.eqb_spec (load8 m p) (load8 m q)) as [E|E]; simpl.
  - destruct (IH (p + 1) (q + 1)) as [[H0 Hk]|(k & Hk & Hj & Hne & Hr)].
    + left. split; [done|]. intros k Hk'. destruct (decide (k = 0)) as [->|].
      * by rewrite !Z.add_0_r.
      * replace (p + k) with (p + 1 + (k - 1)) by lia.
        replace (q + k) with (q + 1 + (k - 1)) by lia. apply Hk. lia.
    + right. exists (k + 1). replace (p + (k + 1)) with (p + 1 + k) by lia.
      replace (q + (k + 1)) with (q + 1 + k) by lia. repeat split; try done; try lia.
      intros j Hj'. destruct (decide (j = 0)) as [->|]; [by rewrite !Z.add_0_r|].
      replace (p + j) with (p + 1 + (j - 1)) by lia.
      replace (q + j) with (q + 1 + (j - 1)) by lia. apply Hj. lia.
  - right. exists 0. rewrite !Z.add_0_r. repeat split; try done; lia.
Qed.

(** ** The 32-bit variants agree with the byte routines *)

Lemma byte_of_load_le n m a k :
  0 ≤ k < Z.of_nat n → byte_of (load_le n m a) k = load8 m (a + k).
Proof.
  revert a k. induction n as [|n IH]; intros a k Hk; [lia|]. cbn [load_le].
  destruct (decide (k = 0)) as [->|].
  - unfold byte_of, u8. rewrite Z.pow_0_r, Z.div_1_r, Z.add_0_r, Z.mul_comm, Z.mod_add by lia.
    apply u8_load8.
  - replace (a + k) with (a + 1 + (k - 1)) by lia. rewrite <- IH by lia.
    unfold byte_of. f_equal. replace k with (1 + (k - 1)) at 1 by lia.
    rewrite Z.pow_add_r, <- Z.div_div by lia. change (256 ^ 1) with 256.
    rewrite (Z.mul_comm 256), Z.div_add by lia. pose proof (load8_range m a).
    rewrite (Z.div_small (load8 m a)) by lia. done.
Qed.

Lemma load_le_inj n m a b :
  load_le n m a = load_le n m b ↔ ∀ k, 0 ≤ k < Z.of_nat n → load8 m (a + k) = load8 m (b + k).
Proof.
  split.
  - intros E k Hk. by rewrite <- (byte_of_load_le n m a), <- (byte_of_load_le n m b), E.
  - revert a b. induction n as [|n IH]; intros a b H; [done|]. cbn [load_le].
    rewrite <- (Z.add_0_r a), <- (Z.add_0_r b) at 1. rewrite H by lia. do 2 f_equal.
    apply IH. intros k Hk. replace (a + 1 + k) with (a + (k + 1)) by lia.
    replace (b + 1 + k) with (b + (k + 1)) by lia. apply H. lia.
Qed.

Lemma load_le_shift n m1 m2 : ∀ a b,
  (∀ k, 0 ≤ k < Z.of_nat n → load8 m1 (a + k) = load8 m2 (b + k)) → load_le n m1 a = load_le n m2 b.
Proof.
  induction n as [|n IH]; intros a b H; [done|]. cbn [load_le].
  rewrite <- (Z.add_0_r a), <- (Z.add_0_r b) at 1. rewrite H by lia. do 2 f_equal.
  apply IH. intros k Hk. replace (a + 1 + k) with (a + (k + 1)) by lia.
  replace (b + 1 + k) with (b + (k + 1)) by lia. apply H. lia.
Qed.

Lemma store32_bytes m a v :
  store32 m a v =
    store8 (store8 (store8 (store8 m a (byte_of v 0)) (a + 1) (byte_of v 1)) (a + 2) (byte_of v 2))
      (a + 3) (byte_of v 3).
Proof.
  unfold store32. cbn [store_le]. unfold store8, byte_of.
  rewrite !(u8_small (u8 _)) by apply u8_range.
  rewrite !Z.div_div by lia. rewrite Z.pow_0_r, Z.div_1_r, <- !Z.add_assoc. done.
Qed.

Definition splat (c : Z) : Z :=
  let val := u8 c in
  let val := Z.lor val (u32 (Z.shiftl val 8)) in
  Z.lor val (u32 (Z.shiftl val 16)).

Lemma byte_of_splat c k : 0 ≤ k < 4 → byte_of (splat c) k = u8 c.
Proof.
  intros Hk. unfold splat. generalize (u8_range c). generalize (u8 c). intros v Hv.
  assert (Forall (λ v, Forall (λ k, byte_of (Z.lor (Z.lor v (u32 (Z.shiftl v 8)))
            (u32 (Z.shiftl (Z.lor v (u32 (Z.shiftl v 8))) 16))) k = v) (seqZ 0 4)) (seqZ 0 256)) as H.
  { apply (bool_decide_unpack _). vm_compute. done. }
  rewrite Forall_forall in H. specialize (H v). rewrite elem_of_seqZ in H.
  specialize (H ltac:(lia)). rewrite Forall_forall in H. apply H. apply elem_of_seqZ. lia.
Qed.

(** The loop functions step by four, so their facts go by induction on the
    length in steps of four. *)
Lemma nat_ind4 (P : nat → Prop) :
  P 0%nat → P 1%nat → P 2%nat → P 3%nat → (∀ n, P n → P (S (S (S (S n))))) → ∀ n, P n.
Proof.
  intros H0 H1 H2 H3 Hs n.
  assert (P n ∧ P (S n) ∧ P (S (S n)) ∧ P (S (S (S n)))) as [? _]; [|done].
  induction n as [|n (?&?&?&?)]; auto.
Qed.

Lemma set_head_spec n m p c :
  let '(m', p', n') := set_head n m p c in memset_loop n m p c = memset_loop n' m' p' c.
Proof.
  revert m p. induction n as [|n IH]; intros m p; cbn [set_head]; [done|].
  destruct (negb _); [apply IH|done].
Qed.

Lemma set_words_spec n m p c :
  let '(m', p', n') := set_words n m p (splat c) in memset_loop n m p c = memset_loop n' m' p' c.
Proof.
  revert m p. induction n as [| | | |n IH] using nat_ind4; intros m p; try done.
  cbn [set_words]. specialize (IH (store32 m p (splat c)) (p + 4)).
  destruct (set_words _ _ _ _) as [[m' p'] n']. rewrite <- IH. cbn [memset_loop].
  rewrite store32_bytes, !byte_of_splat by lia. f_equal; [|lia].
  by rewrite <- !Z.add_assoc.
Qed.

Lemma copy_head_spec n m d s :
  let '(m', d', s', n') := copy_head n m d s in
  copy_up n m d s = copy_up n' m' d' s' ∧
  d ≤ d' ∧ d' - s' = d - s ∧ s' + Z.of_nat n' = s + Z.of_nat n.
Proof.
  revert m d s. induction n as [|n IH]; intros m d s; cbn [copy_head]; [done|].
  destruct (negb _); [|done].
  specialize (IH (store8 m d (load8 m s)) (d + 1) (s + 1)).
  destruct (copy_head _ _ _ _) as [[[m' d'] s'] n']. cbn [copy_up]. destruct IH as (-> & ? & ? & ?).
  split; [done|lia].
Qed.

Lemma copy_words_spec n m d s :
  d ≤ s ∨ s + Z.of_nat n ≤ d →
  let '(m', d', s', n') := copy_words n m d s in copy_up n m d s = copy_up n' m' d' s'.
Proof.
  revert m d s. induction n as [| | | |n IH] using nat_ind4; intros m d s Hds; try done.
  cbn [copy_words]. specialize (IH (store32 m d (load32 m s)) (d + 4) (s + 4) ltac:(lia)).
  destruct (copy_words _ _ _ _) as [[[m' d'] s'] n']. rewrite <- IH. cbn [copy_up].
  rewrite store32_bytes. unfold load32. rewrite !byte_of_load_le by lia.
  rewrite <- !Z.add_assoc, !Z.add_0_r. rewrite !load8_store8.
  rewrite !decide_False by lia. done.
Qed.

Lemma copy32_up_eq m d s n :
  d ≤ s ∨ s + Z.of_nat n ≤ d → copy32_up m d s n = copy_up n m d s.
Proof.
  intros Hds. unfold copy32_up. pose proof (copy_head_spec n m d s) as Hh.
  destruct (copy_head _ _ _ _) as [[[m1 d1] s1] n1]. destruct Hh as (-> & ? & ? & ?).
  destruct (_ && _); [|done]. pose proof (copy_words_spec n1 m1 d1 s1 ltac:(lia)) as Hw.
  by destruct (copy_words _ _ _ _) as [[[m2 d2] s2] n2].
Qed.

Lemma copy_head_down_spec n m d s :
  let '(m', d', s', n') := copy_head_down n m d s in
  copy_down n m d s = copy_down n' m' d' s' ∧
  d' ≤ d ∧ d' - s' = d - s ∧ s' - Z.of_nat n' = s - Z.of_nat n.
Proof.
  revert m d s. induction n as [|n IH]; intros m d s; cbn [copy_head_down]; [done|].
  destruct (negb _); [|done].
  specialize (IH (store8 m (d - 1) (load8 m (s - 1))) (d - 1) (s - 1)).
  destruct (copy_head_down _ _ _ _) as [[[m' d'] s'] n']. cbn [copy_down].
  destruct IH as (-> & ? & ? & ?). split; [done|lia].
Qed.

Lemma copy_words_down_spec n m d s :
  s ≤ d ∨ d ≤ s - Z.of_nat n →
  let '(m', d', s', n') := copy_words_down n m d s in copy_down n m d s = copy_down n' m' d' s'.
Proof.
  revert m d s. induction n as [| | | |n IH] using nat_ind4; intros m d s Hds; try done.
  cbn [copy_words_down].
  specialize (IH (store32 m (d - 4) (load32 m (s - 4))) (d - 4) (s - 4) ltac:(lia)).
  destruct (copy_words_down _ _ _ _) as [[[m' d'] s'] n']. rewrite <- IH. cbn [copy_down].
  rewrite store32_bytes. unfold load32. rewrite !byte_of_load_le by lia.
  replace (d - 1 - 1 - 1 - 1) with (d - 4) by lia. replace (s - 1 - 1 - 1 - 1) with (s - 4) by lia.
  replace (d - 1 - 1 - 1) with (d - 3) by lia. replace (s - 1 - 1 - 1) with (s - 3) by lia.
  replace (d - 1 - 1) with (d - 2) by lia. replace (s - 1 - 1) with (s - 2) by lia.
  rewrite !load8_store8, !decide_False by lia. f_equal.
  replace (d - 4 + 1) with (d - 3) by lia. replace (s - 4 + 1) with (s - 3) by lia.
  replace (d - 4 + 2) with (d - 2) by lia. replace (s - 4 + 2) with (s - 2) by lia.
  replace (d - 4 + 3) with (d - 1) by lia. replace (s - 4 + 3) with (s - 1) by lia.
  rewrite Z.add_0_r. unfold store8. apply map_eq. intros i. rewrite !lookup_insert.
  repeat case_decide; done || lia.
Qed.

Lemma copy32_down_eq m d s n :
  s ≤ d ∨ d ≤ s - Z.of_nat n → copy32_down m d s n = copy_down n m d s.
Proof.
  intros Hds. unfold copy32_down. pose proof (copy_head_down_spec n m d s) as Hh.
  destruct (copy_head_down _ _ _ _) as [[[m1 d1] s1] n1]. destruct Hh as (-> & ? & ? & ?).
  destruct (_ && _); [|done]. pose proof (copy_words_down_spec n1 m1 d1 s1 ltac:(lia)) as Hw.
  by destruct (copy_words_down _ _ _ _) as [[[m2 d2] s2] n2].
Qed.

Lemma cmp_head_spec n m p q :
  memcmp_loop n m p q =
    match cmp_head n m p q with inl r => r | inr (p', q', n') => memcmp_loop n' m p' q' end.
Proof.
  revert p q. induction n as [|n IH]; intros p q; cbn [cmp_head memcmp_loop]; [done|].
  destruct (_ || _); [|done]. destruct (negb _); [done|apply IH].
Qed.

Lemma cmp_words_spec n m p q :
  memcmp_loop n m p q =
    match cmp_words n m p q with inl r => r | inr (p', q', n') => memcmp_loop n' m p' q' end.
Proof.
  revert p q. induction n as [| | | |n IH] using nat_ind4; intros p q; try done.
  cbn [cmp_words memcmp_loop]. rewrite <- !Z.add_assoc.
  change (1 + 1) with 2. change (1 + (1 + 1)) with 3. change (1 + (1 + (1 + 1))) with 4.
  change (1 + 2) with 3. change (1 + 3) with 4.
  destruct (Z.eqb_spec (load32 m p) (load32 m q)) as [E|E]; simpl.
  - pose proof (proj1 (load_le_inj 4 m p q) E) as Hk.
    rewrite (Hk 1), (Hk 2), (Hk 3) by lia. specialize (Hk 0 ltac:(lia)).
    rewrite !Z.add_0_r in Hk. rewrite Hk, !Z.eqb_refl. simpl. apply IH.
  - repeat (case_match; simpl in *; try done).
    exfalso. apply E. apply (load_le_inj 4). intros k Hk.
    repeat match goal with H : negb (_ =? _) = false |- _ =>
      apply negb_false_iff, Z.eqb_eq in H end.
    assert (k = 0 ∨ k = 1 ∨ k = 2 ∨ k = 3) as [->|[->|[->| ->]]] by lia;
      rewrite ?Z.add_0_r; done.
Qed.

(** ** Properties *)

(** memmove copies [n] bytes correctly however source and destination
    overlap: each destination byte holds the byte the source range held before
    the call and no other byte changes. *)
Theorem memmove_correct (m : mem) (dst src n b : Z) :
  0 ≤ n →
  load8 (memmove m dst src n) b =
    if decide (dst ≤ b < dst + n) then load8 m (src + (b - dst)) else load8 m b.
Proof. apply load8_memmove. Qed.

Lemma memmove_correct_witness :
  load8 (memmove (memset ∅ 100 7 4) 102 100 4) 105 = 7.
Proof. rewrite (memmove_correct _ 102 100 4 105) by lia. vm_compute. reflexivity. Defined.

(** C40. The word-wise routines are equivalent to the byte-wise ones: memset32
    to memset, memmove32 to memmove and memcmp32 to memcmp on all arguments,
    whatever the alignment of the pointers and whatever the overlap. *)
Theorem word_routines_equivalent (m : mem) (p q c n : Z) :
  0 ≤ n →
  memset32 m p c n = memset m p c n ∧
  memmove32 m p q n ≡ₘ memmove m p q n ∧
  memcmp32 m p q n = memcmp m p q n.
Proof.
  intros Hn. split_and!.
  - unfold memset32, memset. pose proof (set_head_spec (Z.to_nat n) m p c) as Hh.
    destruct (set_head _ _ _ _) as [[m1 p1] n1]. rewrite Hh. destruct (_ <=? _)%nat; [|done].
    pose proof (set_words_spec n1 m1 p1 c) as Hw. change (Z.lor _ _) with (splat c).
    by destruct (set_words _ _ _ _) as [[m2 p2] n2].
  - intros b. unfold memmove32. destruct (Z.eqb_spec p q) as [->|]; simpl.
    { rewrite load8_memmove by done. unfold copy_spec. case_decide; [|done]. f_equal; lia. }
    destruct (Z.eqb_spec n 0) as [->|].
    { rewrite load8_memmove by done. unfold copy_spec. rewrite decide_False by lia. done. }
    unfold memmove. destruct (Z.ltb_spec p q).
    + by rewrite copy32_up_eq by lia.
    + by rewrite copy32_down_eq by lia.
  - unfold memcmp32, memcmp. rewrite cmp_head_spec.
    destruct (cmp_head _ _ _ _) as [|[[p1 q1] n1]]; [done|].
    destruct (_ <=? _)%nat; [|done]. rewrite cmp_words_spec.
    by destruct (cmp_words _ _ _ _) as [|[[p2 q2] n2]].
Qed.

Lemma word_routines_equivalent_witness :
  load8 (memset32 ∅ 3 9 11) 13 = 9 ∧ load8 (memmove32 (memset ∅ 4 7 8) 6 4 8) 13 = 7 ∧
  memcmp32 (memset ∅ 4 7 8) 4 8 5 = 7.
Proof.
  destruct (word_routines_equivalent ∅ 3 0 9 11 ltac:(lia)) as (-> & _ & _).
  destruct (word_routines_equivalent (memset ∅ 4 7 8) 6 4 0 8 ltac:(lia)) as (_ & -> & _).
  destruct (word_routines_equivalent (memset ∅ 4 7 8) 4 8 0 5 ltac:(lia)) as (_ & _ & ->).
  vm_compute. auto.
Defined.

(** memcpy32 agrees with memcpy whenever memcpy itself is specified. *)
Lemma memcpy32_eq (m : mem) (d s n : Z) :
  0 ≤ n → d ≤ s ∨ s + n ≤ d → memcpy32 m d s n = memcpy m d s n.
Proof. intros. unfold memcpy32, memcpy. apply copy32_up_eq. lia. Qed.

(** memcmp returns 0 exactly when the two ranges hold the same bytes, and
    otherwise the difference of the first pair of bytes that differ. *)
Theorem memcmp_correct (m : mem) (p q n : Z) :
  0 ≤ n →
  (memcmp m p q n = 0 ∧ ∀ k, 0 ≤ k < n → load8 m (p + k) = load8 m (q + k)) ∨
  (∃ k, 0 ≤ k < n ∧ (∀ j, 0 ≤ j < k → load8 m (p + j) = load8 m (q + j)) ∧
        load8 m (p + k) ≠ load8 m (q + k) ∧ memcmp m p q n = load8 m (p + k) - load8 m (q + k)).
Proof.
  intros Hn. unfold memcmp. pose proof (memcmp_loop_spec (Z.to_nat n) m p q) as H.
  rewrite Z2Nat.id in H by lia. done.
Qed.

Lemma memcmp_correct_witness :
  memcmp (memset ∅ 4 7 8) 4 8 4 = 0.
Proof.
  destruct (memcmp_correct (memset ∅ 4 7 8) 4 8 4 ltac:(lia)) as [[-> _]|(k & Hk & _ & Hne & _)];
    [done|].
  exfalso. apply Hne. rewrite !load8_memset by lia. rewrite !decide_True by lia. done.
Defined.
