(* ===== verification/FrameAlloc.v ===== *)
(** * The interfaces of the memory managers

    heap.c, vmm.c and thread.c use physical memory only through pmm_alloc_page,
    pmm_alloc_pages, pmm_free_page and pmm_free_pages.  [FrameAllocator] states
    what those promise; Pmm.v proves that pmm.c keeps the promise, and the clients
    are verified against the class alone.  [ObjHeap] does the same for kmalloc
    and kfree towards the code that keeps its structs on the kernel heap;
    HeapThms.v discharges it. *)

From S2P Require Import Prelude.

Class FrameAllocator (P : Type) := {
  fa_alloc : M P Z;
  fa_alloc_n : Z → M P Z;
  fa_free_1 : Z → M P unit;
  fa_free_n : Z → Z → M P unit;
  fa_wf : P → Prop;
  fa_free : P → gset Z;
  fa_count : P → Z;
  fa_bound p : fa_wf p → 0 ≤ fa_count p ≤ 2 ^ 40;
  fa_free_bound p f : fa_wf p → f ∈ fa_free p → 0 ≤ f < fa_count p;
  fa_alloc_ok p a p' :
    fa_wf p → fa_alloc p = Ret (a, p') →
    ∃ f, a = f * 4096 ∧ f ∈ fa_free p ∧ fa_wf p' ∧ fa_count p' = fa_count p ∧
         fa_free p' = fa_free p ∖ {[f]};
  fa_alloc_total p :
    fa_wf p → fa_free p ≠ ∅ → ∃ a p', fa_alloc p = Ret (a, p');
  fa_alloc_safe p : fa_wf p → safe (fa_alloc p);
  fa_alloc_n_safe p n : fa_wf p → 1 ≤ n < W64 → safe (fa_alloc_n n p);
  fa_alloc_n_ok p n a p' :
    fa_wf p → 1 ≤ n < W64 → fa_alloc_n n p = Ret (a, p') →
    ∃ s, a = s * 4096 ∧ (∀ f, s ≤ f < s + n → f ∈ fa_free p) ∧ fa_wf p' ∧
         fa_count p' = fa_count p ∧
         ∀ f, f ∈ fa_free p' ↔ f ∈ fa_free p ∧ ¬ (s ≤ f < s + n);
  fa_free_1_ok p s :
    fa_wf p → 0 < s < fa_count p → s ∉ fa_free p →
    ∃ p', fa_free_1 (s * 4096) p = Ret (tt, p') ∧ fa_wf p' ∧ fa_count p' = fa_count p ∧
          fa_free p' = fa_free p ∪ {[s]};
  fa_free_n_ok p s n :
    fa_wf p → 0 < s → 0 ≤ n → s + n ≤ fa_count p → (∀ f, s ≤ f < s + n → f ∉ fa_free p) →
    ∃ p', fa_free_n (s * 4096) n p = Ret (tt, p') ∧ fa_wf p' ∧ fa_count p' = fa_count p ∧
          ∀ f, f ∈ fa_free p' ↔ f ∈ fa_free p ∨ s ≤ f < s + n;
}.

(** The offset of the direct map of physical memory, a boot-time constant
    ([hhdm_offset], set once by kmain). *)
Class Boot := { hhdm_offset : Z }.

(** kmalloc and kfree as their clients see them: a set [L] of addresses in use. *)
Class ObjHeap (H : Type) := {
  oh_malloc : Z → M H Z;
  oh_free : Z → M H unit;
  oh_rep : H → (Z → Prop) → Prop;
  oh_malloc_zero h : oh_malloc 0 h = Ret (0, h);
  oh_malloc_ok h L size p h' :
    oh_rep h L → 0 < size ≤ 2 ^ 40 → oh_malloc size h = Ret (p, h') →
    p ≠ 0 ∧ ¬ L p ∧ oh_rep h' (λ q, L q ∨ q = p);
  oh_malloc_safe h L size : oh_rep h L → 0 < size ≤ 2 ^ 40 → safe (oh_malloc size h);
  oh_free_null h : oh_free 0 h = Ret (tt, h);
  oh_free_ok h L p :
    oh_rep h L → L p → ∃ h', oh_free p h = Ret (tt, h') ∧ oh_rep h' (λ q, L q ∧ q ≠ p);
  oh_rep_ext h L L' : oh_rep h L → (∀ q, L q ↔ L' q) → oh_rep h L';
}.
