(* ===== verification/Pmm.v ===== *)
(** * The physical memory manager (src/mm/pmm.c)

    One bit per 4 KiB frame, 1 = in use, in an array of 64-bit words.  The
    array behind [page_bitmap] is the list of its words; the counters are the
    file's globals.  The abstract view is the finite set of free frames. *)

From S2P Require Import Prelude FrameAlloc.

Abbreviation PAGE_SIZE := 4096 (only parsing).

Definition ALIGN_UP (x align : Z) : Z :=
  Z.land ((x +64 align) -64 1) (not64 (align -64 1)).
Definition ALIGN_DOWN (x align : Z) : Z := Z.land x (not64 (align -64 1)).

Record pmm_state := mkPmm {
  phys_kstart : Z;
  phys_kend : Z;
  page_count : Z;
  page_bitmap_ptr : Z;
  page_bitmap : list Z;
  last_alloc_word : Z;
}.

(** The globals before pmm_init runs. *)
Definition pmm_boot : pmm_state := mkPmm 0 0 0 0 [] 0.

Definition set_bitmap (bm : list Z) (st : pmm_state) : pmm_state :=
  mkPmm (phys_kstart st) (phys_kend st) (page_count st) (page_bitmap_ptr st) bm
    (last_alloc_word st).
Definition set_last_alloc_word (w : Z) (st : pmm_state) : pmm_state :=
  mkPmm (phys_kstart st) (phys_kend st) (page_count st) (page_bitmap_ptr st) (page_bitmap st) w.

(** [page_bitmap[i]] read and written; an index outside the array is a fault. *)
Definition get_word (i : Z) : M pmm_state Z :=
  bm <- gets page_bitmap ;; of_opt (bm !! Z.to_nat i).
Definition set_word (i v : Z) : M pmm_state unit :=
  bm <- gets page_bitmap ;;
  if decide (Z.to_nat i < length bm)%nat
  then modify (set_bitmap (<[Z.to_nat i := v]> bm)) else fault.

Definition addr_to_bit (phys_addr : Z) : Z := phys_addr / PAGE_SIZE.
Definition bit_to_addr (bit : Z) : Z := bit *64 PAGE_SIZE.
Definition bit_to_word (bit : Z) : Z := bit / 64.
Definition bit_to_offset (bit : Z) : Z := bit mod 64.

(** [1ULL << off]. *)
Definition mask (off : Z) : Z := u64 (Z.shiftl 1 off).

(** [page_bitmap[w] |= mask] and [page_bitmap[w] &= ~mask]. *)
Definition or_word (w off : Z) : M pmm_state unit :=
  v <- get_word w ;; set_word w (Z.lor v (mask off)).
Definition andnot_word (w off : Z) : M pmm_state unit :=
  v <- get_word w ;; set_word w (Z.land v (not64 (mask off))).

Definition pmm_mark_used (phys_addr : Z) : M pmm_state unit :=
  let bit := addr_to_bit phys_addr in
  n <- gets page_count ;;
  if n <=? bit then panic "pmm.c: pmm_mark_used() -> addr %p out of range (bit %u >= %u)"
  else or_word (bit_to_word bit) (bit_to_offset bit).

Definition pmm_mark_free (phys_addr : Z) : M pmm_state unit :=
  let bit := addr_to_bit phys_addr in
  n <- gets page_count ;;
  if n <=? bit then panic "pmm.c: pmm_mark_free() -> addr %p out of range (bit %u >= %u)"
  else andnot_word (bit_to_word bit) (bit_to_offset bit).

Definition pmm_mark_range_used (base len : Z) : M pmm_state unit :=
  let e := base +64 len in
  let start := ALIGN_DOWN base PAGE_SIZE in
  let stop := ALIGN_UP e PAGE_SIZE in
  for_up (for_fuel start stop PAGE_SIZE) start stop PAGE_SIZE pmm_mark_used.

Definition pmm_mark_range_free (base len : Z) : M pmm_state unit :=
  let e := base +64 len in
  let start := ALIGN_UP base PAGE_SIZE in
  let stop := ALIGN_DOWN e PAGE_SIZE in
  for_up (for_fuel start stop PAGE_SIZE) start stop PAGE_SIZE pmm_mark_free.

(** [__builtin_ctzll]. *)
Fixpoint pos_ctz (p : positive) : Z :=
  match p with xO q => 1 + pos_ctz q | _ => 0 end.
Definition ctzll (z : Z) : Z := match z with Zpos p => pos_ctz p | _ => 0 end.

(** The loop of pmm_alloc_page from iteration [i] on. *)
Fixpoint alloc_page_loop (fuel : nat) (i words : Z) : M pmm_state Z :=
  if i <? words then
    match fuel with
    | O => diverge
    | S f =>
        last <- gets last_alloc_word ;;
        let word := (last +64 i) mod words in
        w <- get_word word ;;
        if w =? 0xffffffffffffffff then alloc_page_loop f (i +64 1) words
        else
          let bit := ctzll (not64 w) in
          let global_bit := (word *64 64) +64 bit in
          n <- gets page_count ;;
          if n <=? global_bit then alloc_page_loop f (i +64 1) words
          else
            or_word word bit ;;;
            modify (set_last_alloc_word word) ;;;
            ret (bit_to_addr global_bit)
    end
  else panic "pmm.c: pmm_alloc_page() -> out of physical memory".

Definition pmm_alloc_page : M pmm_state Z :=
  n <- gets page_count ;;
  let words := (n +64 63) / 64 in
  alloc_page_loop (Z.to_nat words) 0 words.

(** The scan of pmm_alloc_pages from [bit] on, with its run so far. *)
Fixpoint alloc_pages_loop (fuel : nat) (bit run run_start count : Z) : M pmm_state Z :=
  n <- gets page_count ;;
  if bit <? n then
    match fuel with
    | O => diverge
    | S f =>
        v <- get_word (bit_to_word bit) ;;
        if Z.land v (mask (bit_to_offset bit)) =? 0 then
          let run_start := if run =? 0 then bit else run_start in
          let run := run +64 1 in
          if run =? count then
            for_up (Z.to_nat count) run_start (run_start +64 count) 1
              (λ i, or_word (bit_to_word i) (bit_to_offset i)) ;;;
            ret (bit_to_addr run_start)
          else alloc_pages_loop f (bit +64 1) run run_start count
        else alloc_pages_loop f (bit +64 1) 0 run_start count
    end
  else panic "pmm.c: pmm_alloc_pages() -> failed to find %u contiguous pages".

Definition pmm_alloc_pages (count : Z) : M pmm_state Z :=
  if count =? 0 then ret 0
  else if count =? 1 then pmm_alloc_page
  else n <- gets page_count ;; alloc_pages_loop (Z.to_nat n) 0 0 0 count.

Definition pmm_free_page (phys_addr : Z) : M pmm_state unit :=
  if phys_addr =? 0 then panic "pmm.c: pmm_free_page() -> attempt to free NULL"
  else if negb (phys_addr mod PAGE_SIZE =? 0)
  then panic "pmm.c: pmm_free_page() -> addr %p is not page-aligned"
  else
    let bit := addr_to_bit phys_addr in
    let word := bit_to_word bit in
    let off := bit_to_offset bit in
    n <- gets page_count ;;
    if n <=? bit then panic "pmm.c: pmm_free_page() -> addr %p out of range"
    else
      v <- get_word word ;;
      if Z.land v (mask off) =? 0 then panic "pmm.c: pmm_free_page() -> double free at %p"
      else andnot_word word off.

Definition pmm_free_pages (phys_addr count : Z) : M pmm_state unit :=
  for_n count (λ i, pmm_free_page (phys_addr +64 (i *64 PAGE_SIZE))).

(** ** pmm_init *)

Record memmap_entry := mkEntry { e_base : Z; e_length : Z; e_type : Z }.

Definition LIMINE_MEMMAP_USABLE : Z := 0.
Definition usable (e : memmap_entry) : bool := e_type e =? LIMINE_MEMMAP_USABLE.

(** The loop that finds the end of the highest usable entry. *)
Definition higher (highest_addr : Z) (e : memmap_entry) : Z :=
  if negb (usable e) then highest_addr
  else
    let entry_end := e_base e +64 e_length e in
    if highest_addr <? entry_end then entry_end else highest_addr.
Definition highest_usable (mmap : list memmap_entry) : Z := foldl higher 0 mmap.

(** The loop that places the bitmap: the first usable entry large enough. *)
Fixpoint find_bitmap_home (mmap : list memmap_entry) (bitmap_size : Z) : option Z :=
  match mmap with
  | [] => None
  | e :: mmap' =>
      if usable e && (bitmap_size <=? e_length e) then Some (e_base e)
      else find_bitmap_home mmap' bitmap_size
  end.

(** The loop that releases every usable entry. *)
Fixpoint free_usable (mmap : list memmap_entry) : M pmm_state unit :=
  match mmap with
  | [] => ret tt
  | e :: mmap' =>
      (if usable e then pmm_mark_range_free (e_base e) (e_length e) else ret tt) ;;;
      free_usable mmap'
  end.

(** [memset(page_bitmap, 0xff, bitmap_size)] on the array of words. *)
Definition fill_bitmap (bitmap_size : Z) : list Z :=
  replicate (Z.to_nat (bitmap_size / 8)) 0xffffffffffffffff.

Definition pmm_init (kernel_start kernel_end hhdm_offset : Z) (mmap : list memmap_entry)
    (kernel_phys_base initrd_addr initrd_size : Z) : M pmm_state unit :=
  let kernel_size := kernel_end -64 kernel_start in
  let kstart := kernel_phys_base in
  let kend := ALIGN_UP (kernel_phys_base +64 kernel_size) PAGE_SIZE in
  let count := highest_usable mmap / PAGE_SIZE in
  let bitmap_size := ((count +64 63) / 64) *64 8 in
  match find_bitmap_home mmap bitmap_size with
  | None => panic "pmm.c: pmm() -> no room for bitmap"
  | Some bitmap_phys =>
      modify (λ st, mkPmm kstart kend count (bitmap_phys +64 hhdm_offset)
                      (fill_bitmap bitmap_size) (last_alloc_word st)) ;;;
      free_usable mmap ;;;
      pmm_mark_range_used kstart (kend -64 kstart) ;;;
      pmm_mark_range_used bitmap_phys bitmap_size ;;;
      pmm_mark_range_used initrd_addr initrd_size
  end.

(** ** The abstract view: the set of free frames *)

(** The bit of frame [f]; frames beyond the array count as in use. *)
Definition frame_bit (bm : list Z) (f : Z) : bool :=
  match bm !! Z.to_nat (f / 64) with Some w => Z.testbit w (f mod 64) | None => true end.

Definition free_frames (st : pmm_state) : gset Z :=
  list_to_set (filter (λ f, frame_bit (page_bitmap st) f = false) (seqZ 0 (page_count st))).

(** The array has a word for every frame, words hold 64 bits, and addresses
    of frames fit the 52 physical address bits of x86-64. *)
Record pmm_wf (st : pmm_state) : Prop := {
  wf_count : 0 ≤ page_count st ≤ 2 ^ 40;
  wf_length : Z.of_nat (length (page_bitmap st)) = (page_count st + 63) / 64;
  wf_words : Forall (λ w, 0 ≤ w < W64) (page_bitmap st);
  wf_last : 0 ≤ last_alloc_word st ≤ 2 ^ 40;
}.

(** The fields no operation but pmm_init touches. *)
Definition same_frame_count (st st' : pmm_state) : Prop :=
  page_count st' = page_count st.

Lemma elem_of_free_frames st f :
  f ∈ free_frames st ↔ 0 ≤ f < page_count st ∧ frame_bit (page_bitmap st) f = false.
Proof.
  unfold free_frames. rewrite elem_of_list_to_set, list_elem_of_filter, elem_of_seqZ.
  rewrite Z.add_0_l. tauto.
Qed.

(** ** Bits of a word *)

Lemma mask_testbit off i : 0 ≤ off < 64 → 0 ≤ i → Z.testbit (mask off) i = bool_decide (i = off).
Proof.
  intros Ho Hi. unfold mask. rewrite u64_testbit, Z.shiftl_1_l.
  case_bool_decide as E.
  - subst. rewrite Z.pow2_bits_true by lia. destruct (Z.ltb_spec off 64); [done|lia].
  - rewrite Z.pow2_bits_false by lia. apply andb_false_r.
Qed.

Lemma mask_range off : 0 ≤ mask off < W64.
Proof. apply u64_range. Qed.

Lemma lor_mask_testbit v off i :
  0 ≤ off < 64 → 0 ≤ i → Z.testbit (Z.lor v (mask off)) i = Z.testbit v i || bool_decide (i = off).
Proof. intros. by rewrite Z.lor_spec, mask_testbit. Qed.

Lemma andnot_mask_testbit v off i :
  0 ≤ off < 64 → 0 ≤ i < 64 →
  Z.testbit (Z.land v (not64 (mask off))) i = Z.testbit v i && negb (bool_decide (i = off)).
Proof.
  intros. rewrite Z.land_spec, not64_testbit, mask_testbit by lia.
  destruct (Z.ltb_spec i 64); [done|lia].
Qed.

Lemma land_mask_zero v off :
  0 ≤ off < 64 → (Z.land v (mask off) =? 0) = negb (Z.testbit v off).
Proof.
  intros Ho. destruct (Z.testbit v off) eqn:E; simpl.
  - apply Z.eqb_neq. intros H. apply (f_equal (λ x, Z.testbit x off)) in H.
    rewrite Z.land_spec, mask_testbit, E, Z.testbit_0_l, bool_decide_eq_true_2 in H by lia. done.
  - apply Z.eqb_eq. apply Z.bits_inj_0. intros i.
    destruct (Z.lt_ge_cases i 0); [by rewrite Z.testbit_neg_r|].
    rewrite Z.land_spec, mask_testbit by lia.
    case_bool_decide; [by subst; rewrite E|apply andb_false_r].
Qed.

Lemma pos_ctz_nonneg p : 0 ≤ pos_ctz p.
Proof. induction p; simpl; lia. Qed.

Lemma pos_ctz_spec p :
  Z.testbit (Zpos p) (pos_ctz p) = true ∧ ∀ i, 0 ≤ i < pos_ctz p → Z.testbit (Zpos p) i = false.
Proof.
  induction p as [p IH|p IH|]; simpl pos_ctz.
  - split; [done|lia].
  - destruct IH as [IH1 IH2]. pose proof (pos_ctz_nonneg p).
    rewrite Pos2Z.inj_xO. split.
    + replace (1 + pos_ctz p) with (Z.succ (pos_ctz p)) by lia. by rewrite Z.double_bits_succ.
    + intros i Hi. destruct (decide (i = 0)) as [->|]; [apply Z.testbit_even_0|].
      replace i with (Z.succ (i - 1)) by lia. rewrite Z.double_bits_succ. apply IH2. lia.
  - split; [done|lia].
Qed.

Lemma ctzll_spec z :
  0 < z → 0 ≤ ctzll z ∧ Z.testbit z (ctzll z) = true ∧
          ∀ i, 0 ≤ i < ctzll z → Z.testbit z i = false.
Proof. destruct z; [lia| |lia]. intros _. split; [apply pos_ctz_nonneg|apply pos_ctz_spec]. Qed.

(** The word holds no clear bit below [ctzll (~w)], and that bit is clear. *)
Lemma first_clear w :
  0 ≤ w < W64 → w ≠ 0xffffffffffffffff →
  0 ≤ ctzll (not64 w) < 64 ∧ Z.testbit w (ctzll (not64 w)) = false ∧
  ∀ i, 0 ≤ i < ctzll (not64 w) → Z.testbit w i = true.
Proof.
  intros Hw Hne.
  assert (0 < not64 w) as Hpos.
  { assert (not64 w = 0xffffffffffffffff - w) as ->; [|lia].
    unfold not64, u64. rewrite <- (Z.mod_add _ 1) by lia.
    pose proof (Z.add_lnot_diag w). rewrite Z.mod_small by lia. lia. }
  destruct (ctzll_spec _ Hpos) as (Hn & Ht & Hlow).
  assert (ctzll (not64 w) < 64).
  { destruct (Z.lt_ge_cases (ctzll (not64 w)) 64) as [|Hge]; [done|].
    rewrite (testbit_high (not64 w)) in Ht; [done|apply u64_range|done]. }
  split; [lia|]. rewrite not64_testbit in Ht by lia.
  destruct (Z.ltb_spec (ctzll (not64 w)) 64); [|lia]. apply negb_true_iff in Ht.
  split; [done|]. intros i Hi. specialize (Hlow i Hi). rewrite not64_testbit in Hlow by lia.
  destruct (Z.ltb_spec i 64); [|lia]. by apply negb_false_iff in Hlow.
Qed.

Lemma ones_testbit i : 0 ≤ i < 64 → Z.testbit 0xffffffffffffffff i = true.
Proof. intros. change 0xffffffffffffffff with (Z.ones 64). by apply Z.ones_spec_low. Qed.

Lemma align_down_spec x : 0 ≤ x < W64 → ALIGN_DOWN x PAGE_SIZE = x / PAGE_SIZE * PAGE_SIZE.
Proof.
  intros Hx. unfold ALIGN_DOWN. change (PAGE_SIZE -64 1) with (Z.ones 12). by rewrite land_not_ones by lia.
Qed.

Lemma align_up_spec x :
  0 ≤ x ≤ W64 - PAGE_SIZE → ALIGN_UP x PAGE_SIZE = (x + 4095) / PAGE_SIZE * PAGE_SIZE.
Proof.
  intros Hx. unfold ALIGN_UP. fold (ALIGN_DOWN ((x +64 PAGE_SIZE) -64 1) PAGE_SIZE).
  rewrite u64_sub_l, u64_small by lia.
  rewrite align_down_spec by lia. f_equal. f_equal. lia.
Qed.

(** ** Updating one bit of the array *)

Lemma frame_bit_lookup bm f :
  0 ≤ f → f < 64 * Z.of_nat (length bm) →
  ∃ w, bm !! Z.to_nat (f / 64) = Some w ∧ frame_bit bm f = Z.testbit w (f mod 64).
Proof.
  intros Hf Hlen. unfold frame_bit.
  destruct (lookup_lt_is_Some_2 bm (Z.to_nat (f / 64))) as [w Hw].
  { apply Nat2Z.inj_lt. rewrite Z2Nat.id by (apply Z.div_pos; lia).
    apply Z.div_lt_upper_bound; lia. }
  exists w. by rewrite Hw.
Qed.

Lemma same_word f g : 0 ≤ f → 0 ≤ g →
  Z.to_nat (f / 64) = Z.to_nat (g / 64) → f mod 64 = g mod 64 → f = g.
Proof.
  intros Hf Hg Hd Hm. apply Z2Nat.inj in Hd; try (apply Z.div_pos; lia).
  rewrite (Z.div_mod f 64), (Z.div_mod g 64) by lia. lia.
Qed.

Lemma frame_bit_insert bm f w g (b : bool) v :
  0 ≤ f → 0 ≤ g → bm !! Z.to_nat (f / 64) = Some w →
  (∀ i, 0 ≤ i < 64 → Z.testbit v i = if decide (i = f mod 64) then b else Z.testbit w i) →
  frame_bit (<[Z.to_nat (f / 64) := v]> bm) g = if decide (f = g) then b else frame_bit bm g.
Proof.
  intros Hf Hg Hw Hv. unfold frame_bit. pose proof (lookup_lt_Some _ _ _ Hw).
  destruct (decide (Z.to_nat (f / 64) = Z.to_nat (g / 64))) as [E|E].
  - rewrite <- E, list_lookup_insert_eq, Hw by done.
    rewrite Hv by (apply Z.mod_pos_bound; lia).
    repeat case_decide; try done; [|by subst].
    exfalso. eauto using same_word.
  - rewrite list_lookup_insert_ne by done. case_decide; [by subst|done].
Qed.

(** [st'] is [st] with the bit of each frame [g] set to [h g]. *)
Definition updates (st st' : pmm_state) (h : Z → bool) : Prop :=
  phys_kstart st' = phys_kstart st ∧ phys_kend st' = phys_kend st ∧
  page_count st' = page_count st ∧ page_bitmap_ptr st' = page_bitmap_ptr st ∧
  last_alloc_word st' = last_alloc_word st ∧
  ∀ g, 0 ≤ g → frame_bit (page_bitmap st') g = h g.

Lemma write_bit st f (b : bool) v w :
  pmm_wf st → 0 ≤ f → page_bitmap st !! Z.to_nat (f / 64) = Some w →
  0 ≤ v < W64 →
  (∀ i, 0 ≤ i < 64 → Z.testbit v i = if decide (i = f mod 64) then b else Z.testbit w i) →
  let st' := set_bitmap (<[Z.to_nat (f / 64) := v]> (page_bitmap st)) st in
  pmm_wf st' ∧ updates st st' (λ g, if decide (f = g) then b else frame_bit (page_bitmap st) g).
Proof.
  intros Hwf Hf Hw Hvr Hv st'. split.
  - split; simpl.
    + apply Hwf.
    + rewrite length_insert. apply Hwf.
    + apply Forall_insert; [apply Hwf|done].
    + apply Hwf.
  - do 5 (split; [done|]). intros g Hg. by apply (frame_bit_insert _ _ w).
Qed.

Lemma wf_covers st f : pmm_wf st → 0 ≤ f < page_count st → f < 64 * Z.of_nat (length (page_bitmap st)).
Proof.
  intros Hwf Hf. rewrite (wf_length _ Hwf).
  pose proof (Z.div_mod (page_count st + 63) 64 ltac:(lia)).
  pose proof (Z.mod_pos_bound (page_count st + 63) 64 ltac:(lia)). lia.
Qed.

Lemma word_lookup st f :
  pmm_wf st → 0 ≤ f < page_count st →
  ∃ w, page_bitmap st !! Z.to_nat (f / 64) = Some w ∧ 0 ≤ w < W64 ∧
       frame_bit (page_bitmap st) f = Z.testbit w (f mod 64).
Proof.
  intros Hwf Hf. destruct (frame_bit_lookup (page_bitmap st) f) as (w & Hw & Hb); [lia| |].
  { by apply wf_covers. }
  exists w. split; [done|]. split; [|done].
  pose proof (wf_words _ Hwf) as HF. rewrite Forall_lookup in HF. eauto.
Qed.

Lemma get_word_run st i w : page_bitmap st !! Z.to_nat i = Some w → get_word i st = Ret (w, st).
Proof. intros H. unfold get_word, bind, gets. by rewrite H. Qed.

Lemma set_word_run st i v w :
  page_bitmap st !! Z.to_nat i = Some w →
  set_word i v st = Ret (tt, set_bitmap (<[Z.to_nat i := v]> (page_bitmap st)) st).
Proof.
  intros H. unfold set_word, bind, gets. rewrite decide_True by (by eapply lookup_lt_Some). done.
Qed.

Lemma or_word_run st f :
  pmm_wf st → 0 ≤ f < page_count st →
  ∃ st', or_word (f / 64) (f mod 64) st = Ret (tt, st') ∧ pmm_wf st' ∧
    updates st st' (λ g, bool_decide (f = g) || frame_bit (page_bitmap st) g).
Proof.
  intros Hwf Hf. destruct (word_lookup st f Hwf Hf) as (w & Hw & Hr & _).
  pose proof (Z.mod_pos_bound f 64 ltac:(lia)).
  destruct (write_bit st f true (Z.lor w (mask (f mod 64))) w) as [Hwf' Hu]; try done; try lia.
  { apply lor_range; [done|apply mask_range]. }
  { intros i Hi. rewrite lor_mask_testbit by lia. case_bool_decide; case_decide; try done.
    - apply orb_true_r. - by rewrite orb_false_r. }
  eexists. split; [|split; [exact Hwf'|]].
  - unfold or_word. erewrite bind_Ret by (by apply get_word_run). by eapply set_word_run.
  - destruct Hu as (?&?&?&?&?&Hu). do 5 (split; [done|]). intros g Hg. rewrite Hu by done.
    case_decide; case_bool_decide; done.
Qed.

Lemma andnot_word_run st f :
  pmm_wf st → 0 ≤ f < page_count st →
  ∃ st', andnot_word (f / 64) (f mod 64) st = Ret (tt, st') ∧ pmm_wf st' ∧
    updates st st' (λ g, negb (bool_decide (f = g)) && frame_bit (page_bitmap st) g).
Proof.
  intros Hwf Hf. destruct (word_lookup st f Hwf Hf) as (w & Hw & Hr & _).
  pose proof (Z.mod_pos_bound f 64 ltac:(lia)).
  destruct (write_bit st f false (Z.land w (not64 (mask (f mod 64)))) w) as [Hwf' Hu]; try done; try lia.
  { apply land_range; [done|apply u64_range]. }
  { intros i Hi. rewrite andnot_mask_testbit by lia. case_bool_decide; case_decide; try done.
    - apply andb_false_r. - by rewrite andb_true_r. }
  eexists. split; [|split; [exact Hwf'|]].
  - unfold andnot_word. erewrite bind_Ret by (by apply get_word_run). by eapply set_word_run.
  - destruct Hu as (?&?&?&?&?&Hu). do 5 (split; [done|]). intros g Hg. rewrite Hu by done.
    case_decide; case_bool_decide; done.
Qed.

(** The effect of an update on the set of free frames. *)
Lemma updates_free st st' h f :
  updates st st' h → f ∈ free_frames st' ↔ 0 ≤ f < page_count st ∧ h f = false.
Proof.
  intros (_ & _ & Hc & _ & _ & Hb). rewrite elem_of_free_frames, Hc.
  split; intros [? H]; (split; [done|]); [rewrite <- Hb by lia|rewrite Hb by lia]; done.
Qed.

(** ** pmm_alloc_page *)

(** No frame of word [k] is free. *)
Definition word_full (st : pmm_state) (k : Z) : Prop :=
  ∀ f, f / 64 = k → f ∉ free_frames st.

(** One step of the search: a word without a free frame is skipped, and the
    first clear bit of any other word is the frame returned. *)
Lemma scan_word st k w :
  pmm_wf st → 0 ≤ k → page_bitmap st !! Z.to_nat k = Some w →
  let f := (k *64 64) +64 (ctzll (not64 w)) in
  if w =? 0xffffffffffffffff then word_full st k
  else if page_count st <=? f then word_full st k
  else f ∈ free_frames st ∧ f / 64 = k ∧ f mod 64 = ctzll (not64 w).
Proof.
  intros Hwf Hk Hw f. pose proof (wf_words _ Hwf) as HF. rewrite Forall_lookup in HF.
  specialize (HF _ _ Hw). pose proof (wf_length _ Hwf). pose proof (wf_count _ Hwf).
  pose proof (lookup_lt_Some _ _ _ Hw) as Hlt.
  assert (k < 2 ^ 40).
  { assert ((page_count st + 63) / 64 ≤ 2 ^ 40) by (apply Z.div_le_upper_bound; lia). lia. }
  assert (∀ g, 0 ≤ g → g / 64 = k → frame_bit (page_bitmap st) g = Z.testbit w (g mod 64)) as Hbit.
  { intros g Hg <-. unfold frame_bit. by rewrite Hw. }
  destruct (Z.eqb_spec w 0xffffffffffffffff) as [->|Hne].
  { intros g Hgk Hg. apply elem_of_free_frames in Hg as [? Hg]. rewrite Hbit in Hg by lia.
    rewrite ones_testbit in Hg; [done|]. apply Z.mod_pos_bound. lia. }
  destruct (first_clear w HF Hne) as (Hr & Hclear & Hlow).
  assert (f = k * 64 + ctzll (not64 w)) as Hf by (unfold f; word).
  assert (f / 64 = k ∧ f mod 64 = ctzll (not64 w)) as [Hd Hm].
  { rewrite Hf, (Z.add_comm (k * 64)), Z.div_add, Z.mod_add by lia.
    rewrite Z.div_small, Z.mod_small by lia. done. }
  destruct (Z.leb_spec (page_count st) f).
  - intros g Hgk Hg. apply elem_of_free_frames in Hg as [? Hg]. rewrite Hbit in Hg by lia.
    pose proof (Z.div_mod g 64 ltac:(lia)). pose proof (Z.mod_pos_bound g 64 ltac:(lia)).
    rewrite Hlow in Hg by lia. done.
  - split; [|done]. apply elem_of_free_frames. split; [lia|].
    rewrite Hbit by lia. by rewrite Hm.
Qed.

(** The visiting order covers every word. *)
Lemma rotation_covers last words k :
  0 ≤ last → 0 ≤ k < words → ∃ i, 0 ≤ i < words ∧ (last + i) mod words = k.
Proof.
  intros Hl Hk. exists ((k - last) mod words). split; [apply Z.mod_pos_bound; lia|].
  rewrite Z.add_mod_idemp_r by lia. replace (last + (k - last)) with k by lia.
  by apply Z.mod_small.
Qed.

Definition alloc_page_post (st : pmm_state) (r : outcome (Z * pmm_state)) : Prop :=
  match r with
  | Ret (a, st') =>
      ∃ f, f ∈ free_frames st ∧ a = f * PAGE_SIZE ∧ pmm_wf st' ∧
           page_count st' = page_count st ∧ free_frames st' = free_frames st ∖ {[f]}
  | Panic _ => free_frames st = ∅
  | _ => False
  end.

Lemma take_frame st f :
  pmm_wf st → f ∈ free_frames st →
  ∃ st', or_word (f / 64) (f mod 64) st = Ret (tt, st') ∧ pmm_wf st' ∧
         page_count st' = page_count st ∧ free_frames st' = free_frames st ∖ {[f]}.
Proof.
  intros Hwf Hf. pose proof (proj1 (elem_of_free_frames _ _) Hf) as [Hr _].
  destruct (or_word_run st f Hwf Hr) as (st' & Hrun & Hwf' & Hu).
  exists st'. split; [done|]. split; [done|]. split; [apply Hu|].
  apply set_eq. intros g. rewrite elem_of_difference, elem_of_singleton.
  rewrite (updates_free _ _ _ _ Hu), elem_of_free_frames, orb_false_iff, bool_decide_eq_false.
  intuition congruence.
Qed.

Lemma alloc_page_loop_spec st fuel : ∀ i,
  let words := (page_count st + 63) / 64 in
  pmm_wf st → 0 ≤ i ≤ words → (words - i ≤ Z.of_nat fuel) →
  (∀ j, 0 ≤ j < i → word_full st ((last_alloc_word st + j) mod words)) →
  alloc_page_post st (alloc_page_loop fuel i words st).
Proof.
  induction fuel as [|fuel IH]; intros i words Hwf Hi Hfuel Hfull;
    cbn [alloc_page_loop]; destruct (Z.ltb_spec i words) as [Hlt|Hge]; try lia.
  1,3: simpl; apply set_eq; intros f; split; [intros Hf|set_solver].
  1,2: pose proof (proj1 (elem_of_free_frames _ _) Hf) as [Hr _];
    destruct (rotation_covers (last_alloc_word st) words (f / 64)) as (j & Hj & Hk);
    [apply Hwf
    |pose proof (wf_covers _ _ Hwf Hr); rewrite (wf_length _ Hwf) in *;
     split; [apply Z.div_pos; lia|apply Z.div_lt_upper_bound; lia]
    |destruct (Hfull j ltac:(lia) f); congruence].
  pose proof (wf_last _ Hwf). pose proof (wf_count _ Hwf).
  assert (words ≤ 2 ^ 40) by (apply Z.div_le_upper_bound; lia).
  unfold bind at 1, gets at 1. rewrite (u64_small (_ + i)) by lia.
  set (k := (last_alloc_word st + i) mod words).
  assert (0 ≤ k < words) as Hk by (apply Z.mod_pos_bound; lia).
  destruct (lookup_lt_is_Some_2 (page_bitmap st) (Z.to_nat k)) as [w Hw].
  { apply Nat2Z.inj_lt. rewrite (wf_length _ Hwf), Z2Nat.id; unfold words in *; lia. }
  rewrite (bind_Ret _ _ _ _ _ (get_word_run _ _ _ Hw)).
  pose proof (scan_word st k w Hwf ltac:(lia) Hw) as Hscan. cbv zeta in Hscan |- *.
  rewrite (u64_small (i + 1)) by lia.
  assert (word_full st k → alloc_page_post st (alloc_page_loop fuel (i + 1) words st)) as Hnext.
  { intros Hfk. apply IH; [done|lia|lia|]. intros j Hj.
    destruct (decide (j = i)) as [->|]; [done|]. apply Hfull. lia. }
  destruct (w =? _); [auto|]. unfold bind at 1, gets at 1.
  destruct (page_count st <=? _); [auto|]. destruct Hscan as (Hf & Hd & Hm).
  set (f := (k *64 64) +64 ctzll (not64 w)) in *. rewrite <- Hd at 1. rewrite <- Hm.
  destruct (take_frame st f Hwf Hf) as (st' & Hrun & Hwf' & Hc & Hfree).
  rewrite (bind_Ret _ _ _ _ _ Hrun). simpl. exists f.
  pose proof (proj1 (elem_of_free_frames _ _) Hf) as [Hr _].
  split_and!; try done; [unfold bit_to_addr; apply u64_small; lia|].
  split; try apply Hwf'. simpl. lia.
Qed.

Lemma alloc_page_spec st : pmm_wf st → alloc_page_post st (pmm_alloc_page st).
Proof.
  intros Hwf. unfold pmm_alloc_page, bind, gets. pose proof (wf_count _ Hwf).
  rewrite (u64_small (page_count st + 63)) by lia.
  assert (0 ≤ (page_count st + 63) / 64) by (apply Z.div_pos; lia).
  apply alloc_page_loop_spec; [done|lia|lia|lia].
Qed.

(** ** pmm_alloc_pages *)

Definition run_set (s n : Z) : gset Z := list_to_set (seqZ s n).

Lemma elem_of_run_set s n f : f ∈ run_set s n ↔ s ≤ f < s + n.
Proof. unfold run_set. by rewrite elem_of_list_to_set, elem_of_seqZ. Qed.

Definition free_run (st : pmm_state) (s n : Z) : Prop := ∀ f, s ≤ f < s + n → f ∈ free_frames st.

(** The marking loop takes exactly the run. *)
Lemma mark_run st s n fuel :
  pmm_wf st → 0 ≤ s → 0 ≤ n → s + n ≤ page_count st → (Z.to_nat n ≤ fuel)%nat →
  ∃ st', for_up fuel s (s + n) 1 (λ i, or_word (bit_to_word i) (bit_to_offset i)) st = Ret (tt, st') ∧
         pmm_wf st' ∧ page_count st' = page_count st ∧ free_frames st' = free_frames st ∖ run_set s n.
Proof.
  intros Hwf Hs Hn Hle Hfuel. pose proof (wf_count _ Hwf).
  destruct (for_up_total (λ j st', pmm_wf st' ∧
      updates st st' (λ g, bool_decide (s ≤ g < j) || frame_bit (page_bitmap st) g))
      (λ i, or_word (bit_to_word i) (bit_to_offset i)) (s + n) 1 ltac:(lia) ltac:(lia) fuel s st)
    as (j & st' & Hrun & (Hwf' & Hu) & _ & H1 & H2 & H3 & H4); [lia| | | |].
  - unfold for_fuel. rewrite Z.div_1_r. lia.
  - intros i st1 Hi _ [Hwf1 Hu1]. pose proof Hu1 as (_&_&Hc&_&_&Hb1).
    destruct (or_word_run st1 i Hwf1 ltac:(lia)) as (st2 & Hrun2 & Hwf2 & Hu2).
    exists st2. split; [done|]. split; [done|].
    destruct Hu1 as (?&?&?&?&?&_), Hu2 as (?&?&?&?&?&Hb2).
    split_and!; try congruence. intros g Hg. rewrite Hb2, Hb1 by done.
    destruct (frame_bit (page_bitmap st) g); [by rewrite !orb_true_r|]. rewrite !orb_false_r.
    repeat case_bool_decide; done || lia.
  - split; [done|]. do 5 (split; [done|]). intros g Hg.
    rewrite bool_decide_eq_false_2 by lia. done.
  - replace j with (s + n) in Hu by lia. exists st'. split; [done|]. split; [done|].
    split; [apply Hu|]. apply set_eq. intros g.
    rewrite elem_of_difference, elem_of_run_set, (updates_free _ _ _ _ Hu), elem_of_free_frames.
    rewrite orb_false_iff, bool_decide_eq_false. tauto.
Qed.

Definition alloc_pages_post (st : pmm_state) (count : Z) (r : outcome (Z * pmm_state)) : Prop :=
  match r with
  | Ret (a, st') =>
      ∃ s, 0 ≤ s ∧ free_run st s count ∧ (∀ s', 0 ≤ s' → free_run st s' count → s ≤ s') ∧
           a = s * PAGE_SIZE ∧ pmm_wf st' ∧ page_count st' = page_count st ∧
           free_frames st' = free_frames st ∖ run_set s count
  | Panic _ => ∀ s, 0 ≤ s → ¬ free_run st s count
  | _ => False
  end.

(** The scan before frame [b]: [run] is the length of the maximal free run
    that ends just before [b], and no run of [count] frames ends before [b]. *)
Record scan_inv (st : pmm_state) (b run run_start count : Z) : Prop := {
  si_run : 0 ≤ run ≤ b ∧ run < count;
  si_start : 0 < run → run_start = b - run;
  si_free : ∀ f, b - run ≤ f < b → f ∈ free_frames st;
  si_max : b - run = 0 ∨ b - run - 1 ∉ free_frames st;
  si_none : ∀ s, 0 ≤ s → s + count ≤ b → ¬ free_run st s count;
}.

Lemma scan_used st b run rs count :
  0 ≤ b → 0 < count → scan_inv st b run rs count → b ∉ free_frames st →
  scan_inv st (b + 1) 0 rs count.
Proof.
  intros Hb Hc [[? ?] Hs Hf Hm Hn] Hu. split; [lia|lia|lia|right|].
  - by replace (b + 1 - 0 - 1) with b by lia.
  - intros s Hs0 Hsb Hrun. destruct (decide (s + count = b + 1)).
    + apply Hu, Hrun. lia.
    + apply (Hn s); [lia|lia|done].
Qed.

Lemma scan_free st b run rs count :
  0 ≤ b → run + 1 < count → scan_inv st b run rs count → b ∈ free_frames st →
  scan_inv st (b + 1) (run + 1) (if run =? 0 then b else rs) count.
Proof.
  intros Hb Hc [[? ?] Hs Hf Hm Hn] Hu. split.
  - lia.
  - intros _. destruct (Z.eqb_spec run 0); lia.
  - intros f Hfr. destruct (decide (f = b)) as [->|]; [done|]. apply Hf. lia.
  - replace (b + 1 - (run + 1)) with (b - run) by lia. done.
  - intros s Hs0 Hsb Hrun. destruct (decide (s + count = b + 1)) as [E|].
    + destruct Hm as [|Hm]; [lia|]. apply Hm, Hrun. lia.
    + apply (Hn s); [lia|lia|done].
Qed.

Lemma frame_test st b v :
  pmm_wf st → 0 ≤ b < page_count st → page_bitmap st !! Z.to_nat (b / 64) = Some v →
  (Z.land v (mask (b mod 64)) =? 0) = bool_decide (b ∈ free_frames st).
Proof.
  intros Hwf Hb Hv. rewrite land_mask_zero by (apply Z.mod_pos_bound; lia).
  assert (frame_bit (page_bitmap st) b = Z.testbit v (b mod 64)) as <-.
  { unfold frame_bit. by rewrite Hv. }
  case_bool_decide as E; rewrite elem_of_free_frames in E.
  - by destruct E as [_ ->].
  - destruct (frame_bit _ _); [done|]. by destruct E.
Qed.

Lemma alloc_pages_loop_spec st count fuel : ∀ b run rs,
  pmm_wf st → 2 ≤ count < W64 → 0 ≤ b ≤ page_count st → page_count st - b ≤ Z.of_nat fuel →
  scan_inv st b run rs count →
  alloc_pages_post st count (alloc_pages_loop fuel b run rs count st).
Proof.
  induction fuel as [|fuel IH]; intros b run rs Hwf Hc Hb Hfuel Hinv; pose proof (wf_count _ Hwf);
    cbn [alloc_pages_loop]; unfold bind at 1, gets at 1;
    destruct (Z.ltb_spec b (page_count st)) as [Hlt|Hge]; try lia.
  1,3: simpl; intros s Hs Hrun; apply (si_none _ _ _ _ _ Hinv s); [done| |done];
    specialize (Hrun (s + count - 1) ltac:(lia)); apply elem_of_free_frames in Hrun; lia.
  destruct (word_lookup st b Hwf ltac:(lia)) as (w & Hw & _ & _).
  rewrite (bind_Ret _ _ _ _ _ (get_word_run st (bit_to_word b) w Hw)).
  unfold bit_to_offset. rewrite (frame_test st b w) by (done || lia).
  pose proof (si_run _ _ _ _ _ Hinv) as [? ?].
  rewrite (u64_small (b + 1)), (u64_small (run + 1)) by lia.
  case_bool_decide as Hf; [|apply IH; try lia; try done; apply (scan_used st b run); lia || done].
  assert ((if run =? 0 then b else rs) = b - run) as Hrs.
  { destruct (Z.eqb_spec run 0); [lia|]. apply (si_start _ _ _ _ _ Hinv). lia. }
  destruct (Z.eqb_spec (run + 1) count) as [E|E].
  - rewrite Hrs, u64_small by lia.
    destruct (mark_run st (b - run) count (Z.to_nat count)) as (st' & Hrun & Hwf' & Hpc & Hfr);
      [done|lia|lia|lia|lia|].
    rewrite (bind_Ret _ _ _ _ _ Hrun). simpl. exists (b - run). split_and!; try done; try lia.
    + intros f Hfr'. destruct (decide (f = b)) as [->|]; [done|].
      apply (si_free _ _ _ _ _ Hinv). lia.
    + intros s' Hs' Hrun'. destruct (Z.le_gt_cases (b - run) s'); [done|].
      exfalso. apply (si_none _ _ _ _ _ Hinv s'); [done|lia|done].
    + unfold bit_to_addr. apply u64_small. lia.
  - apply IH; try lia; try done. apply scan_free; lia || done.
Qed.

Lemma alloc_pages_spec st count :
  pmm_wf st → 2 ≤ count < W64 → alloc_pages_post st count (pmm_alloc_pages count st).
Proof.
  intros Hwf Hc. unfold pmm_alloc_pages. pose proof (wf_count _ Hwf).
  destruct (Z.eqb_spec count 0); [lia|]. destruct (Z.eqb_spec count 1); [lia|].
  unfold bind, gets. apply alloc_pages_loop_spec; try done; try lia.
  split; [lia|lia|lia|by left|lia].
Qed.

(** ** pmm_free_page and pmm_free_pages *)

Definition free_page_post (st : pmm_state) (a : Z) (r : outcome (unit * pmm_state)) : Prop :=
  if decide (a = 0) then r = Panic "pmm.c: pmm_free_page() -> attempt to free NULL"
  else if decide (a mod PAGE_SIZE ≠ 0)
  then r = Panic "pmm.c: pmm_free_page() -> addr %p is not page-aligned"
  else if decide (page_count st ≤ a / PAGE_SIZE)
  then r = Panic "pmm.c: pmm_free_page() -> addr %p out of range"
  else if decide (a / PAGE_SIZE ∈ free_frames st)
  then r = Panic "pmm.c: pmm_free_page() -> double free at %p"
  else ∃ st', r = Ret (tt, st') ∧ pmm_wf st' ∧ page_count st' = page_count st ∧
              last_alloc_word st' = last_alloc_word st ∧
              free_frames st' = free_frames st ∪ {[a / PAGE_SIZE]}.

Lemma free_page_spec st a : pmm_wf st → 0 ≤ a → free_page_post st a (pmm_free_page a st).
Proof.
  intros Hwf Ha. unfold free_page_post, pmm_free_page, addr_to_bit, bit_to_word, bit_to_offset.
  destruct (Z.eqb_spec a 0); case_decide; try done.
  destruct (Z.eqb_spec (a mod 4096) 0); simpl; case_decide; try done.
  cbv zeta. rewrite !bind_gets.
  destruct (Z.leb_spec (page_count st) (a / 4096)); case_decide; try done; try lia.
  set (f := a / 4096) in *. assert (0 ≤ f) by (apply Z.div_pos; lia).
  destruct (word_lookup st f Hwf ltac:(lia)) as (w & Hw & _ & _).
  rewrite (bind_Ret _ _ _ _ _ (get_word_run st (f / 64) w Hw)), (frame_test st f w) by (done || lia).
  case_bool_decide; case_decide; try done.
  destruct (andnot_word_run st f Hwf ltac:(lia)) as (st' & Hrun & Hwf' & Hu).
  exists st'. split; [done|]. split; [done|]. split; [apply Hu|]. split; [apply Hu|].
  apply set_eq. intros g. rewrite elem_of_union, elem_of_singleton.
  rewrite (updates_free _ _ _ _ Hu), elem_of_free_frames, andb_false_iff, negb_false_iff.
  rewrite bool_decide_eq_true. intuition (subst; auto with lia).
Qed.

(** Freeing a whole run that is in use frees exactly its frames. *)
Lemma free_pages_run st s n :
  pmm_wf st → 0 < s → 0 ≤ n → s + n ≤ page_count st →
  (∀ f, s ≤ f < s + n → f ∉ free_frames st) →
  ∃ st', pmm_free_pages (s * PAGE_SIZE) n st = Ret (tt, st') ∧ pmm_wf st' ∧
         page_count st' = page_count st ∧ free_frames st' = free_frames st ∪ run_set s n.
Proof.
  intros Hwf Hs Hn Hle Hused. pose proof (wf_count _ Hwf).
  destruct (for_n_total (λ j st', pmm_wf st' ∧ page_count st' = page_count st ∧
      free_frames st' = free_frames st ∪ run_set s j)
      (λ i, pmm_free_page (s * PAGE_SIZE +64 (i *64 PAGE_SIZE))) n st)
    as (st' & Hrun & Hwf' & Hc & Hf); [lia| | |by eauto].
  - intros j st1 Hj (Hwf1 & Hc1 & Hf1).
    replace (s * PAGE_SIZE +64 (j *64 PAGE_SIZE)) with ((s + j) * PAGE_SIZE) by word.
    pose proof (free_page_spec st1 ((s + j) * PAGE_SIZE) Hwf1 ltac:(lia)) as Hp.
    unfold free_page_post in Hp. rewrite Z.div_mul, Z.mod_mul in Hp by lia.
    rewrite decide_False in Hp by lia. rewrite decide_False in Hp by tauto.
    rewrite decide_False in Hp by lia. rewrite decide_False in Hp.
    + destruct Hp as (st2 & -> & Hwf2 & Hc2 & _ & Hf2). exists st2. split_and!; try done; [lia|].
      rewrite Hf2, Hf1. apply set_eq. intros g.
      rewrite !elem_of_union, !elem_of_run_set, elem_of_singleton.
      destruct (decide (g ∈ free_frames st)); intuition lia.
    + rewrite Hf1, elem_of_union, elem_of_run_set. intros [Hin|]; [|lia].
      apply (Hused (s + j)); [lia|done].
  - split_and!; try done. apply set_eq. intros g. rewrite elem_of_union, elem_of_run_set.
    destruct (decide (g ∈ free_frames st)); intuition lia.
Qed.

(** ** Marking ranges *)

Lemma page_split x : x = x / PAGE_SIZE * PAGE_SIZE + x mod PAGE_SIZE ∧ 0 ≤ x mod PAGE_SIZE < PAGE_SIZE.
Proof.
  pose proof (Z.div_mod x 4096 ltac:(lia)). pose proof (Z.mod_pos_bound x 4096 ltac:(lia)). lia.
Qed.

(** A loop that sets the bit of each frame from [lo] to [hi] to [b]. *)
Lemma mark_loop_spec st (op : Z → M pmm_state unit) (b : bool) lo hi :
  pmm_wf st → 0 ≤ lo → hi ≤ page_count st →
  (∀ st1 f, pmm_wf st1 → 0 ≤ f < page_count st1 →
     ∃ st2, op (f * PAGE_SIZE) st1 = Ret (tt, st2) ∧ pmm_wf st2 ∧
       updates st1 st2 (λ g, if decide (f = g) then b else frame_bit (page_bitmap st1) g)) →
  ∃ st', for_up (for_fuel (lo * PAGE_SIZE) (hi * PAGE_SIZE) PAGE_SIZE)
           (lo * PAGE_SIZE) (hi * PAGE_SIZE) PAGE_SIZE op st = Ret (tt, st') ∧ pmm_wf st' ∧
         updates st st' (λ g, if decide (lo ≤ g < hi) then b else frame_bit (page_bitmap st) g).
Proof.
  intros Hwf Hlo Hhi Hop. pose proof (wf_count _ Hwf).
  destruct (for_up_total (λ j st', pmm_wf st' ∧ updates st st'
      (λ g, if decide (lo ≤ g < j / 4096) then b else frame_bit (page_bitmap st) g))
      op (hi * 4096) 4096 ltac:(lia) ltac:(lia)
      (for_fuel (lo * 4096) (hi * 4096) 4096) (lo * 4096) st)
    as (j & st' & Hrun & (Hwf' & Hu) & Hd & H1 & H2 & H3 & H4); [lia|lia| | |].
  - intros j st1 Hj [k Hk] [Hwf1 Hu1].
    replace j with ((lo + k) * 4096) in * by lia. rewrite Z.div_mul in Hu1 by lia.
    pose proof Hu1 as (E1&E2&E3&E4&E5&Hb1).
    destruct (Hop st1 (lo + k) Hwf1 ltac:(lia)) as (st2 & Hrun2 & Hwf2 & (F1&F2&F3&F4&F5&Hb2)).
    exists st2. split; [done|]. split; [done|].
    replace ((lo + k) * 4096 + 4096) with ((lo + k + 1) * 4096) by lia. rewrite Z.div_mul by lia.
    split_and!; try congruence. intros g Hg. rewrite Hb2, Hb1 by done.
    repeat case_decide; done || lia.
  - split; [done|]. do 5 (split; [done|]). intros g Hg. rewrite Z.div_mul by lia.
    rewrite decide_False by lia. done.
  - exists st'. split; [done|]. split; [done|]. destruct Hd as [k Hk].
    replace j with ((lo + k) * 4096) in * by lia. rewrite Z.div_mul in Hu by lia.
    destruct Hu as (?&?&?&?&?&Hb). do 5 (split; [done|]). intros g Hg. rewrite Hb by done.
    repeat case_decide; done || lia.
Qed.

Lemma mark_used_run st f :
  pmm_wf st → 0 ≤ f < page_count st →
  ∃ st', pmm_mark_used (f * PAGE_SIZE) st = Ret (tt, st') ∧ pmm_wf st' ∧
         updates st st' (λ g, if decide (f = g) then true else frame_bit (page_bitmap st) g).
Proof.
  intros Hwf Hf. unfold pmm_mark_used, addr_to_bit, bind at 1, gets. rewrite Z.div_mul by lia.
  destruct (Z.leb_spec (page_count st) f); [lia|].
  destruct (or_word_run st f Hwf Hf) as (st' & Hrun & Hwf' & (?&?&?&?&?&Hb)).
  exists st'. split; [done|]. split; [done|]. do 5 (split; [done|]). intros g Hg.
  rewrite Hb by done. case_decide; case_bool_decide; done.
Qed.

Lemma mark_free_run st f :
  pmm_wf st → 0 ≤ f < page_count st →
  ∃ st', pmm_mark_free (f * PAGE_SIZE) st = Ret (tt, st') ∧ pmm_wf st' ∧
         updates st st' (λ g, if decide (f = g) then false else frame_bit (page_bitmap st) g).
Proof.
  intros Hwf Hf. unfold pmm_mark_free, addr_to_bit, bind at 1, gets. rewrite Z.div_mul by lia.
  destruct (Z.leb_spec (page_count st) f); [lia|].
  destruct (andnot_word_run st f Hwf Hf) as (st' & Hrun & Hwf' & (?&?&?&?&?&Hb)).
  exists st'. split; [done|]. split; [done|]. do 5 (split; [done|]). intros g Hg.
  rewrite Hb by done. case_decide; case_bool_decide; done.
Qed.

(** The frames that a byte range touches, and those it fully contains. *)
Definition touches (base len f : Z) : Prop :=
  base / PAGE_SIZE ≤ f < (base + len + 4095) / PAGE_SIZE.
Definition contains (base len f : Z) : Prop :=
  (base + 4095) / PAGE_SIZE ≤ f < (base + len) / PAGE_SIZE.

#[export] Instance touches_dec base len f : Decision (touches base len f).
Proof. unfold touches. apply _. Defined.
#[export] Instance contains_dec base len f : Decision (contains base len f).
Proof. unfold contains. apply _. Defined.

Lemma mark_range_used_spec st base len :
  pmm_wf st → 0 ≤ base → 0 ≤ len → base + len ≤ 2 ^ 52 →
  (base + len + 4095) / PAGE_SIZE ≤ page_count st →
  ∃ st', pmm_mark_range_used base len st = Ret (tt, st') ∧ pmm_wf st' ∧
         updates st st' (λ g, if decide (touches base len g) then true
                              else frame_bit (page_bitmap st) g).
Proof.
  intros Hwf Hb Hl Hend Hc. unfold pmm_mark_range_used.
  rewrite (u64_small (base + len)), align_down_spec, align_up_spec by lia.
  apply mark_loop_spec; [done|apply Z.div_pos; lia|done|]. intros. by apply mark_used_run.
Qed.

Lemma mark_range_free_spec st base len :
  pmm_wf st → 0 ≤ base → 0 ≤ len → base + len ≤ 2 ^ 52 →
  (base + len) / PAGE_SIZE ≤ page_count st →
  ∃ st', pmm_mark_range_free base len st = Ret (tt, st') ∧ pmm_wf st' ∧
         updates st st' (λ g, if decide (contains base len g) then false
                              else frame_bit (page_bitmap st) g).
Proof.
  intros Hwf Hb Hl Hend Hc. unfold pmm_mark_range_free.
  rewrite (u64_small (base + len)), align_down_spec, align_up_spec by lia.
  apply mark_loop_spec; [done|apply Z.div_pos; lia|done|]. intros. by apply mark_free_run.
Qed.

(** ** pmm_init *)

(** Frame [f] lies entirely inside a usable entry. *)
Definition in_usable (l : list memmap_entry) (f : Z) : Prop :=
  Exists (λ e, usable e = true ∧ contains (e_base e) (e_length e) f) l.

#[export] Instance in_usable_dec l f : Decision (in_usable l f).
Proof. unfold in_usable. apply _. Defined.

Section Init.

(** What the boot protocol guarantees about the memory map: entries lie in the
    52-bit physical address space, and usable entries are page aligned. *)
Context (mmap : list memmap_entry) (kernel_start kernel_end hhdm_offset : Z).
Context (kernel_phys_base initrd_addr initrd_size : Z).
Hypothesis Hentries : Forall (λ e, 0 ≤ e_base e ∧ 0 ≤ e_length e ∧
  e_base e + e_length e ≤ 2 ^ 52 ∧
  (usable e = true → e_base e mod PAGE_SIZE = 0 ∧ e_length e mod PAGE_SIZE = 0)) mmap.

Lemma highest_foldl l h :
  0 ≤ h → Forall (λ e, 0 ≤ e_base e ∧ 0 ≤ e_length e ∧ e_base e + e_length e ≤ 2 ^ 52 ∧
    (usable e = true → e_base e mod PAGE_SIZE = 0 ∧ e_length e mod PAGE_SIZE = 0)) l →
  h ≤ foldl higher h l ∧ (h ≤ 2 ^ 52 → foldl higher h l ≤ 2 ^ 52) ∧
  Forall (λ e, usable e = true → e_base e + e_length e ≤ foldl higher h l) l.
Proof.
  revert h. induction l as [|e l IH]; intros h Hh HF; simpl; [split_and!; try lia; by constructor|].
  apply Forall_cons in HF as [(Hb & Hl & Hend & _) HF].
  unfold higher at 2 4 6. rewrite (u64_small (e_base e + e_length e)) by lia. cbv zeta.
  destruct (usable e) eqn:Eu; simpl.
  - destruct (Z.ltb_spec h (e_base e + e_length e)) as [Hlt|Hge].
    + destruct (IH (e_base e + e_length e)) as (H1 & H2 & H3); [lia|done|].
      split_and!; [lia|lia|]. constructor; [lia|done].
    + destruct (IH h) as (H1 & H2 & H3); [lia|done|]. split_and!; [lia|lia|].
      constructor; [lia|done].
  - destruct (IH h) as (H1 & H2 & H3); [lia|done|]. split_and!; try done. constructor; [by rewrite Eu|done].
Qed.

Lemma highest_bounds :
  0 ≤ highest_usable mmap ≤ 2 ^ 52 ∧
  Forall (λ e, usable e = true → e_base e + e_length e ≤ highest_usable mmap) mmap.
Proof.
  destruct (highest_foldl mmap 0 ltac:(lia) Hentries) as (H1 & H2 & H3).
  split; [|done]. split; [done|]. by apply H2.
Qed.

Lemma find_home l size b :
  find_bitmap_home l size = Some b →
  ∃ e, e ∈ l ∧ usable e = true ∧ size ≤ e_length e ∧ b = e_base e.
Proof.
  induction l as [|e l IH]; simpl; [done|].
  destruct (usable e && (size <=? e_length e)) eqn:E.
  - intros [= <-]. apply andb_true_iff in E as [? ?%Z.leb_le]. exists e.
    split; [left|done].
  - intros H. destruct (IH H) as (e' & ? & ?). exists e'. split; [by right|done].
Qed.

(** Releasing the usable entries clears exactly the frames they contain. *)
Lemma free_usable_spec l st :
  Forall (λ e, 0 ≤ e_base e ∧ 0 ≤ e_length e ∧ e_base e + e_length e ≤ 2 ^ 52 ∧
    (usable e = true → e_base e + e_length e ≤ page_count st * PAGE_SIZE + 4095)) l →
  pmm_wf st →
  ∃ st', free_usable l st = Ret (tt, st') ∧ pmm_wf st' ∧
    updates st st' (λ g, if decide (in_usable l g) then false else frame_bit (page_bitmap st) g).
Proof.
  revert st. induction l as [|e l IH]; intros st HF Hwf; cbn [free_usable].
  { exists st. split; [done|]. split; [done|]. by do 5 (split; [done|]). }
  apply Forall_cons in HF as [(Hb & Hl & Hend & Hu) HF].
  assert (∃ st1, (if usable e then pmm_mark_range_free (e_base e) (e_length e) else ret tt) st
     = Ret (tt, st1) ∧ pmm_wf st1 ∧
     updates st st1 (λ g, if decide (usable e = true ∧ contains (e_base e) (e_length e) g)
                          then false else frame_bit (page_bitmap st) g)) as (st1 & Hrun & Hwf1 & Hu1).
  { destruct (usable e) eqn:Eu.
    - destruct (mark_range_free_spec st (e_base e) (e_length e)) as (st1 & ? & ? & (?&?&?&?&?&Hbit));
        try done; [apply Z.lt_succ_r, Z.div_lt_upper_bound; lia|].
      exists st1. split; [done|]. split; [done|]. do 5 (split; [done|]). intros g Hg.
      rewrite Hbit by done. repeat case_decide; tauto.
    - exists st. split; [done|]. split; [done|]. do 5 (split; [done|]). intros g Hg.
      cbv beta. rewrite decide_False; [done|]. by intros [? _]. }
  rewrite (bind_Ret _ _ _ _ _ Hrun). destruct Hu1 as (E1&E2&E3&E4&E5&Hbit1).
  destruct (IH st1) as (st' & Hrun' & Hwf' & (F1&F2&F3&F4&F5&Hbit')); [by rewrite E3|done|].
  exists st'. split; [done|]. split; [done|]. split_and!; try congruence. intros g Hg.
  rewrite Hbit', Hbit1 by done. unfold in_usable in *.
  repeat case_decide; try done; rewrite Exists_cons in *; tauto.
Qed.

Lemma fill_bitmap_bit size f :
  0 ≤ f → frame_bit (fill_bitmap size) f = true.
Proof.
  intros Hf. unfold frame_bit, fill_bitmap. destruct (_ !! _) eqn:E; [|done].
  apply lookup_replicate in E as [-> _]. apply ones_testbit, Z.mod_pos_bound. lia.
Qed.

Let count := highest_usable mmap / PAGE_SIZE.
Let bitmap_size := (count + 63) / 64 * 8.
Let kernel_size := kernel_end - kernel_start.

Hypothesis Hkernel : 0 ≤ kernel_start ≤ kernel_end ∧ kernel_end < W64 ∧ 0 ≤ kernel_phys_base ∧
  kernel_phys_base mod PAGE_SIZE = 0 ∧
  (kernel_phys_base + kernel_size + 4095) / PAGE_SIZE ≤ count.
Hypothesis Hinitrd : 0 ≤ initrd_addr ∧ 0 ≤ initrd_size ∧
  (initrd_addr + initrd_size + 4095) / PAGE_SIZE ≤ count.

(** A range the marking accepts: it ends inside the managed frames. *)
Definition range_ok (st : pmm_state) (base len : Z) : Prop :=
  0 ≤ base ∧ 0 ≤ len ∧ base + len ≤ 2 ^ 52 ∧ (base + len + 4095) / PAGE_SIZE ≤ page_count st.

Lemma ceil_bound x : 0 ≤ count ≤ 2 ^ 40 → (x + 4095) / PAGE_SIZE ≤ count → x ≤ 2 ^ 52.
Proof. intros Hc Hx. pose proof (page_split (x + 4095)). lia. Qed.

Lemma reserve_spec st b1 l1 b2 l2 b3 l3 :
  pmm_wf st → range_ok st b1 l1 → range_ok st b2 l2 → range_ok st b3 l3 →
  ∃ st', (pmm_mark_range_used b1 l1 ;;; pmm_mark_range_used b2 l2 ;;; pmm_mark_range_used b3 l3) st
         = Ret (tt, st') ∧ pmm_wf st' ∧ page_count st' = page_count st ∧
    ∀ f, f ∈ free_frames st' ↔
      f ∈ free_frames st ∧ ¬ touches b1 l1 f ∧ ¬ touches b2 l2 f ∧ ¬ touches b3 l3 f.
Proof.
  unfold range_ok. intros Hwf R1 R2 R3.
  destruct (mark_range_used_spec st b1 l1) as (st1 & Hrun1 & Hwf1 & (_&_&Hc1&_&_&Hb1)); try tauto.
  destruct (mark_range_used_spec st1 b2 l2) as (st2 & Hrun2 & Hwf2 & (_&_&Hc2&_&_&Hb2));
    rewrite ?Hc1; try tauto.
  destruct (mark_range_used_spec st2 b3 l3) as (st3 & Hrun3 & Hwf3 & (_&_&Hc3&_&_&Hb3));
    rewrite ?Hc2, ?Hc1; try tauto.
  exists st3. rewrite (bind_Ret _ _ _ _ _ Hrun1), (bind_Ret _ _ _ _ _ Hrun2).
  split_and!; [done|done|congruence|]. intros f. rewrite !elem_of_free_frames, Hc3, Hc2, Hc1.
  destruct (decide (0 ≤ f)); [|intuition lia]. rewrite Hb3, Hb2, Hb1 by done.
  repeat case_decide; intuition congruence.
Qed.

Lemma count_bounds : 0 ≤ count ≤ 2 ^ 40 ∧ 0 ≤ (count + 63) / 64 ≤ 2 ^ 35.
Proof.
  destruct highest_bounds as [Hh _]. assert (0 ≤ count ≤ 2 ^ 40).
  { unfold count. split; [apply Z.div_pos; lia|apply Z.div_le_upper_bound; lia]. }
  split; [done|]. split; [apply Z.div_pos; lia|apply Z.div_le_upper_bound; lia].
Qed.

(** The state the memory map is released into, and the release. *)
Lemma release_spec kend ptr last :
  0 ≤ last ≤ 2 ^ 40 →
  ∃ st, free_usable mmap (mkPmm kernel_phys_base kend count ptr (fill_bitmap bitmap_size) last)
        = Ret (tt, st) ∧ pmm_wf st ∧ page_count st = count ∧
        ∀ f, f ∈ free_frames st ↔ in_usable mmap f.
Proof.
  intros Hlast. destruct count_bounds as [Hcount Hwords]. destruct highest_bounds as [Hh HF].
  set (st0 := mkPmm _ _ _ _ _ _). assert (pmm_wf st0) as Hwf0.
  { split; simpl; [done| | |done].
    - unfold fill_bitmap. rewrite length_replicate. unfold bitmap_size.
      rewrite Z.div_mul by lia. lia.
    - apply Forall_replicate. lia. }
  rewrite Forall_forall in Hentries, HF.
  destruct (free_usable_spec mmap st0) as (st & Hrun & Hwf & (_&_&Hc&_&_&Hb)); [|done|].
  { apply Forall_forall. intros e He. destruct (Hentries e He) as (?&?&?&?).
    split_and!; try done. intros Hu. specialize (HF e He Hu). simpl.
    pose proof (page_split (highest_usable mmap)). unfold count. lia. }
  exists st. split_and!; try done. intros f. rewrite elem_of_free_frames, Hc. simpl. split.
  - intros [Hf Hbit]. rewrite Hb in Hbit by lia. case_decide; [done|].
    simpl in Hbit. rewrite fill_bitmap_bit in Hbit by lia. done.
  - intros Hin. pose proof Hin as (e & He & Hu & Hct)%Exists_exists.
    destruct (Hentries e He) as (?&?&?&?). specialize (HF e He Hu). unfold contains in Hct.
    assert (0 ≤ (e_base e + 4095) / 4096) by (apply Z.div_pos; lia).
    assert ((e_base e + e_length e) / 4096 ≤ count) by (apply Z.div_le_mono; lia).
    split; [lia|]. rewrite Hb by lia. by rewrite decide_True.
Qed.

Lemma pmm_init_run bitmap_phys :
  find_bitmap_home mmap bitmap_size = Some bitmap_phys →
  ∃ st, pmm_init kernel_start kernel_end hhdm_offset mmap kernel_phys_base initrd_addr initrd_size
          pmm_boot = Ret (tt, st) ∧ pmm_wf st ∧ page_count st = count ∧
    ∀ f, f ∈ free_frames st ↔
      in_usable mmap f ∧ ¬ touches kernel_phys_base kernel_size f ∧
      ¬ touches bitmap_phys bitmap_size f ∧ ¬ touches initrd_addr initrd_size f.
Proof.
  intros Hhome. destruct count_bounds as [Hcount Hwords]. destruct highest_bounds as [Hh HF].
  destruct Hkernel as (Hk1 & Hk2 & Hk3 & Hk4 & Hk5), Hinitrd as (Hi1 & Hi2 & Hi3).
  pose proof (ceil_bound _ Hcount Hk5) as Hk6. pose proof (ceil_bound _ Hcount Hi3) as Hi4.
  pose proof (page_split (kernel_phys_base + kernel_size + 4095)) as Hsp.
  unfold pmm_init. fold count.
  rewrite (u64_small (count + 63)), (u64_small (_ * 8)) by lia. fold bitmap_size. rewrite Hhome.
  rewrite (u64_small (kernel_end - kernel_start)) by lia. fold kernel_size.
  rewrite (u64_small (kernel_phys_base + kernel_size)), align_up_spec by (unfold kernel_size in *; lia).
  set (kend := (kernel_phys_base + kernel_size + 4095) / 4096 * 4096) in *.
  assert (0 ≤ kend - kernel_phys_base ≤ 2 ^ 52) by (unfold kernel_size in *; lia).
  rewrite bind_modify, (u64_small (kend - _)) by lia.
  destruct (release_spec kend (bitmap_phys +64 hhdm_offset) 0 ltac:(lia)) as (st1 & Hrun1 & Hwf1 & Hc1 & Hf1).
  rewrite (bind_Ret _ _ _ _ _ Hrun1).
  apply find_home in Hhome as (e & He & Hue & Hsz & ->).
  rewrite Forall_forall in Hentries, HF. destruct (Hentries e He) as (Heb & Hel & Hee & Hal).
  specialize (HF e He Hue). destruct (Hal Hue) as [Ha1 Ha2].
  assert ((kernel_phys_base + (kend - kernel_phys_base) + 4095) / 4096 =
          (kernel_phys_base + kernel_size + 4095) / 4096) as Hceil.
  { replace (_ + 4095) with (4095 + (kernel_phys_base + kernel_size + 4095) / 4096 * 4096)
      by (unfold kend; lia). by rewrite Z.div_add, Z.div_small by lia. }
  destruct (reserve_spec st1 kernel_phys_base (kend - kernel_phys_base) (e_base e) bitmap_size
              initrd_addr initrd_size) as (st & Hrun & Hwf & Hc & Hf); [done| | | |].
  - unfold range_ok. rewrite Hceil, Hc1. lia.
  - unfold range_ok. rewrite Hc1. split_and!; [lia|unfold bitmap_size; lia|lia|].
    apply Z.lt_succ_r, Z.div_lt_upper_bound; [lia|]. unfold count.
    pose proof (page_split (e_base e)). pose proof (page_split (e_length e)).
    pose proof (page_split (highest_usable mmap)). lia.
  - unfold range_ok. rewrite Hc1. lia.
  - exists st. split_and!; [done|done|congruence|]. intros f. rewrite Hf, Hf1. unfold touches.
    by rewrite Hceil.
Qed.

End Init.

(** ** Clients of the allocator

    A client allocates frames, keeps what it got and frees it again, in any
    order.  [live] lists what it holds as (first frame, number of frames). *)

Definition frames_of (live : list (Z * Z)) : list Z :=
  flat_map (λ r, seqZ r.1 r.2) live.

Inductive client_step : pmm_state * list (Z * Z) → pmm_state * list (Z * Z) → Prop :=
| client_alloc st live a st' :
    pmm_alloc_page st = Ret (a, st') →
    client_step (st, live) (st', (a / PAGE_SIZE, 1) :: live)
| client_alloc_n st live n a st' :
    1 ≤ n < W64 → pmm_alloc_pages n st = Ret (a, st') →
    client_step (st, live) (st', (a / PAGE_SIZE, n) :: live)
| client_free st l1 s n l2 st' :
    0 < s → pmm_free_pages (s * PAGE_SIZE) n st = Ret (tt, st') →
    client_step (st, l1 ++ (s, n) :: l2) (st', l1 ++ l2).

(** No frame is held twice, and no held frame is free. *)
Record client_inv (c : pmm_state * list (Z * Z)) : Prop := {
  ci_wf : pmm_wf c.1;
  ci_nodup : NoDup (frames_of c.2);
  ci_held : ∀ f, f ∈ frames_of c.2 → 0 ≤ f < page_count c.1 ∧ f ∉ free_frames c.1;
  ci_pos : Forall (λ r, 0 < r.2) c.2;
}.

Lemma client_grow st live s n st' :
  client_inv (st, live) → 0 < n → pmm_wf st' → page_count st' = page_count st →
  free_run st s n → free_frames st' = free_frames st ∖ run_set s n →
  client_inv (st', (s, n) :: live).
Proof.
  intros [Hwf Hnd Hh Hp] Hn Hwf' Hc Hrun Hf. simpl in *.
  assert (∀ f, f ∈ seqZ s n → f ∈ free_frames st) as Hs.
  { intros f Hin%elem_of_seqZ. by apply Hrun. }
  split; simpl; [done| | |by constructor].
  - apply NoDup_app. split_and!; [apply NoDup_seqZ| |done].
    intros f Hin Hin'. by destruct (Hh f Hin') as [_ []]; auto.
  - intros f. rewrite elem_of_app, Hc, Hf, elem_of_difference, elem_of_run_set. intros [Hin|Hin].
    + pose proof (Hs f Hin) as Hfree. apply elem_of_free_frames in Hfree.
      apply elem_of_seqZ in Hin. split; [tauto|]. intros [_ []]. lia.
    + destruct (Hh f Hin). tauto.
Qed.

Lemma alloc_pages_any st n a st' :
  pmm_wf st → 1 ≤ n < W64 → pmm_alloc_pages n st = Ret (a, st') →
  ∃ s, a = s * PAGE_SIZE ∧ free_run st s n ∧ pmm_wf st' ∧ page_count st' = page_count st ∧
       free_frames st' = free_frames st ∖ run_set s n.
Proof.
  intros Hwf Hn Hrun. destruct (decide (n = 1)) as [->|].
  - change (pmm_alloc_pages 1) with pmm_alloc_page in Hrun.
    pose proof (alloc_page_spec st Hwf) as Hp. rewrite Hrun in Hp.
    destruct Hp as (f & Hf & -> & Hwf' & Hc & Hfr). exists f. split_and!; try done.
    + intros g Hg. by replace g with f by lia.
    + rewrite Hfr. f_equal. apply set_eq. intros g. rewrite elem_of_run_set, elem_of_singleton. lia.
  - pose proof (alloc_pages_spec st n Hwf ltac:(lia)) as Hp. rewrite Hrun in Hp.
    destruct Hp as (s & ? & ? & ? & ?). exists s. tauto.
Qed.

Lemma client_shrink st l1 s n l2 st' :
  client_inv (st, l1 ++ (s, n) :: l2) → 0 < s →
  pmm_free_pages (s * PAGE_SIZE) n st = Ret (tt, st') → client_inv (st', l1 ++ l2).
Proof.
  intros [Hwf Hnd Hh Hp] Hs Hrun. simpl in *.
  unfold frames_of in Hnd, Hh. rewrite flat_map_app in Hnd, Hh. simpl in Hnd, Hh.
  rewrite Forall_app, Forall_cons in Hp. destruct Hp as (Hp1 & Hn & Hp2). simpl in Hn.
  apply NoDup_app in Hnd as (Hnd1 & Hd1 & Hnd2). apply NoDup_app in Hnd2 as (_ & Hd2 & Hnd2).
  assert (∀ f, s ≤ f < s + n → 0 ≤ f < page_count st ∧ f ∉ free_frames st) as Hused.
  { intros f Hf. apply Hh. rewrite !elem_of_app, elem_of_seqZ. tauto. }
  destruct (free_pages_run st s n) as (st1 & Hrun1 & Hwf1 & Hc1 & Hf1); [done|done|lia| | |].
  { specialize (Hused (s + n - 1) ltac:(lia)). lia. }
  { intros f Hf. by apply Hused. }
  rewrite Hrun1 in Hrun. injection Hrun as <-. split; simpl; [done| | |].
  - unfold frames_of. rewrite flat_map_app. apply NoDup_app. split_and!; [done| |done].
    intros f Hin Hin'. apply (Hd1 f Hin). rewrite elem_of_app. tauto.
  - intros f. unfold frames_of. rewrite flat_map_app, elem_of_app, Hc1, Hf1.
    rewrite elem_of_union, elem_of_run_set. intros Hin.
    assert (0 ≤ f < page_count st ∧ f ∉ free_frames st) as [? Hnf].
    { apply Hh. rewrite !elem_of_app. tauto. }
    split; [done|]. intros [?|Hr]; [done|]. rewrite <- elem_of_seqZ in Hr.
    destruct Hin as [Hin|Hin]; [apply (Hd1 f Hin); rewrite elem_of_app; tauto|].
    by apply (Hd2 f).
  - rewrite Forall_app. tauto.
Qed.

Lemma client_step_inv c c' : client_step c c' → client_inv c → client_inv c'.
Proof.
  intros Hstep Hinv. pose proof (ci_wf _ Hinv) as Hwf. destruct Hstep as
    [st live a st' Hrun|st live n a st' Hn Hrun|st l1 s n l2 st' Hs Hrun]; simpl in Hwf.
  - destruct (alloc_pages_any st 1 a st') as (s & -> & ? & ? & ? & ?); [done|lia|done|].
    rewrite Z.div_mul by lia. eapply client_grow; done || lia.
  - destruct (alloc_pages_any st n a st') as (s & -> & ? & ? & ? & ?); [done|lia|done|].
    rewrite Z.div_mul by lia. eapply client_grow; done || lia.
  - by eapply client_shrink.
Qed.

(** ** pmm.c implements the interface its clients rely on *)

Lemma free_pages_once st s :
  pmm_wf st → 0 < s < page_count st → s ∉ free_frames st →
  ∃ st', pmm_free_page (s * PAGE_SIZE) st = Ret (tt, st') ∧ pmm_wf st' ∧
         page_count st' = page_count st ∧ free_frames st' = free_frames st ∪ {[s]}.
Proof.
  intros Hwf Hs Hu. pose proof (free_page_spec st (s * PAGE_SIZE) Hwf ltac:(lia)) as Hp.
  unfold free_page_post in Hp. rewrite Z.div_mul, Z.mod_mul in Hp by lia.
  rewrite decide_False in Hp by lia. rewrite decide_False in Hp by tauto.
  rewrite decide_False in Hp by lia. rewrite decide_False in Hp by done.
  destruct Hp as (st' & ? & ? & ? & _ & ?). by exists st'.
Qed.

#[export] Program Instance pmm_frame_allocator : FrameAllocator pmm_state := {
  fa_alloc := pmm_alloc_page;
  fa_alloc_n := pmm_alloc_pages;
  fa_free_1 := pmm_free_page;
  fa_free_n := pmm_free_pages;
  fa_wf := pmm_wf;
  fa_free := free_frames;
  fa_count := page_count;
}.
Next Obligation. apply wf_count. Qed.
Next Obligation. intros p f _ Hf%elem_of_free_frames. apply Hf. Qed.
Next Obligation.
  intros p a p' Hwf Hrun. pose proof (alloc_page_spec p Hwf) as Hp. rewrite Hrun in Hp.
  destruct Hp as (f & ? & ? & ? & ? & ?). by exists f.
Qed.
Next Obligation.
  intros p Hwf Hne. pose proof (alloc_page_spec p Hwf) as Hp.
  destruct (pmm_alloc_page p) as [[a p']| | |]; [by eauto|done|done|done].
Qed.
Next Obligation. intros p Hwf. pose proof (alloc_page_spec p Hwf) as Hp. by destruct (pmm_alloc_page p). Qed.
Next Obligation.
  intros p n Hwf Hn. destruct (decide (n = 1)) as [->|].
  - change (pmm_alloc_pages 1 p) with (pmm_alloc_page p).
    pose proof (alloc_page_spec p Hwf) as Hp. by destruct (pmm_alloc_page p).
  - pose proof (alloc_pages_spec p n Hwf ltac:(lia)) as Hp. by destruct (pmm_alloc_pages n p).
Qed.
Next Obligation.
  intros p n a p' Hwf Hn Hrun.
  destruct (alloc_pages_any p n a p') as (s & ? & ? & ? & ? & Hf); [done|done|done|].
  exists s. split_and!; try done. intros f. rewrite Hf, elem_of_difference, elem_of_run_set. done.
Qed.
Next Obligation. intros p s Hwf Hs Hu. by apply free_pages_once. Qed.
Next Obligation.
  intros p s n Hwf Hs Hn Hle Hu.
  destruct (free_pages_run p s n) as (p' & ? & ? & ? & Hf); [done|done|done|done|done|].
  exists p'. split_and!; try done. intros f. rewrite Hf, elem_of_union, elem_of_run_set. done.
Qed.

(** ** Properties *)

(** A machine with 1 MiB of usable memory above a reserved hole, used by the
    witnesses: 0x1000-0x10000 and 0x100000-0x140000 are usable. *)
Definition demo_mmap : list memmap_entry :=
  [mkEntry 0x1000 0xf000 0; mkEntry 0x10000 0xf0000 1; mkEntry 0x100000 0x40000 0].
Definition demo_init : M pmm_state unit :=
  pmm_init 0xffffffff80000000 0xffffffff80003000 0xffff800000000000 demo_mmap 0x100000 0x110000 5000.
Definition demo_pmm : pmm_state :=
  match demo_init pmm_boot with Ret (_, st) => st | _ => pmm_boot end.

Lemma demo_pmm_wf : pmm_wf demo_pmm.
Proof.
  split; [vm_compute; split; intros H; discriminate H|vm_compute; reflexivity| |
          vm_compute; split; intros H; discriminate H].
  apply (bool_decide_unpack _). vm_compute. exact I.
Qed.

(** C31. pmm_init, on a memory map as the boot protocol hands it over and with
    the kernel and the initrd below the end of usable memory, returns a
    well-formed state in which a frame is free exactly when a usable entry
    contains it and it touches neither the kernel image, nor the bitmap, nor
    the initrd. *)
Theorem pmm_init_correct (mmap : list memmap_entry) (kernel_start kernel_end hhdm_offset
    kernel_phys_base initrd_addr initrd_size bitmap_phys : Z) :
  let count := highest_usable mmap / PAGE_SIZE in
  let bitmap_size := (count + 63) / 64 * 8 in
  let kernel_size := kernel_end - kernel_start in
  Forall (λ e, 0 ≤ e_base e ∧ 0 ≤ e_length e ∧ e_base e + e_length e ≤ 2 ^ 52 ∧
    (usable e = true → e_base e mod PAGE_SIZE = 0 ∧ e_length e mod PAGE_SIZE = 0)) mmap →
  0 ≤ kernel_start ≤ kernel_end ∧ kernel_end < W64 ∧ 0 ≤ kernel_phys_base ∧
  kernel_phys_base mod PAGE_SIZE = 0 ∧
  (kernel_phys_base + kernel_size + 4095) / PAGE_SIZE ≤ count →
  0 ≤ initrd_addr ∧ 0 ≤ initrd_size ∧
  (initrd_addr + initrd_size + 4095) / PAGE_SIZE ≤ count →
  find_bitmap_home mmap bitmap_size = Some bitmap_phys →
  ∃ st, pmm_init kernel_start kernel_end hhdm_offset mmap kernel_phys_base initrd_addr initrd_size
          pmm_boot = Ret (tt, st) ∧ pmm_wf st ∧ page_count st = count ∧
    ∀ f, f ∈ free_frames st ↔
      in_usable mmap f ∧ ¬ touches kernel_phys_base kernel_size f ∧
      ¬ touches bitmap_phys bitmap_size f ∧ ¬ touches initrd_addr initrd_size f.
Proof. intros count bitmap_size kernel_size H1 H2 H3 H4. by apply pmm_init_run. Qed.

Lemma pmm_init_correct_witness : 0x10f ∈ free_frames demo_pmm ∧ 0x110 ∉ free_frames demo_pmm.
Proof.
  destruct (pmm_init_correct demo_mmap 0xffffffff80000000 0xffffffff80003000 0xffff800000000000
    0x100000 0x110000 5000 0x1000) as (st & Hrun & _ & _ & Hf).
  - repeat constructor; simpl; intros; discriminate || lia || idtac.
  - vm_compute. intuition discriminate.
  - vm_compute. intuition discriminate.
  - vm_compute. reflexivity.
  - unfold demo_pmm, demo_init. rewrite Hrun, !Hf. split.
    + apply (bool_decide_unpack _). vm_compute. exact I.
    + apply (bool_decide_unpack _). vm_compute. exact I.
Defined.

(** pmm_alloc_page implements a set allocator: it takes one frame out of
    the set of free frames and returns its address, and it panics exactly when
    the set is empty; it never faults and its search always ends. *)
Theorem pmm_alloc_page_refines (st : pmm_state) :
  pmm_wf st →
  match pmm_alloc_page st with
  | Ret (a, st') =>
      ∃ f, f ∈ free_frames st ∧ a = f * PAGE_SIZE ∧ pmm_wf st' ∧
           page_count st' = page_count st ∧ free_frames st' = free_frames st ∖ {[f]}
  | Panic _ => free_frames st = ∅
  | _ => False
  end.
Proof. apply alloc_page_spec. Qed.

Lemma pmm_alloc_page_refines_witness :
  pmm_wf demo_pmm ∧
  ∃ f st', pmm_alloc_page demo_pmm = Ret (f * PAGE_SIZE, st') ∧ f ∈ free_frames demo_pmm.
Proof.
  split; [apply demo_pmm_wf|].
  pose proof (pmm_alloc_page_refines demo_pmm demo_pmm_wf) as H.
  destruct (pmm_alloc_page demo_pmm) as [[a st']| | |] eqn:E; try (vm_compute in E; discriminate E).
  destruct H as (f & Hf & -> & _). eauto.
Defined.

(** pmm_alloc_pages (for two frames or more) is a first-fit allocator of
    contiguous runs: it takes the lowest run of [count] free frames, and it
    panics exactly when there is none. *)
Theorem pmm_alloc_pages_first_fit (st : pmm_state) (count : Z) :
  pmm_wf st → 2 ≤ count < W64 →
  match pmm_alloc_pages count st with
  | Ret (a, st') =>
      ∃ s, 0 ≤ s ∧ free_run st s count ∧ (∀ s', 0 ≤ s' → free_run st s' count → s ≤ s') ∧
           a = s * PAGE_SIZE ∧ pmm_wf st' ∧ page_count st' = page_count st ∧
           free_frames st' = free_frames st ∖ run_set s count
  | Panic _ => ∀ s, 0 ≤ s → ¬ free_run st s count
  | _ => False
  end.
Proof. apply alloc_pages_spec. Qed.

Lemma pmm_alloc_pages_first_fit_witness :
  pmm_wf demo_pmm ∧ ∃ st', pmm_alloc_pages 16 demo_pmm = Ret (0x112000, st').
Proof.
  split; [apply demo_pmm_wf|].
  pose proof (pmm_alloc_pages_first_fit demo_pmm 16 demo_pmm_wf ltac:(lia)) as H.
  destruct (pmm_alloc_pages 16 demo_pmm) as [[a st']| | |] eqn:E; try (vm_compute in E; discriminate E).
  exists st'. f_equal. f_equal. assert (Some a = Some 0x112000) as [= ->]; [|done].
  transitivity (match pmm_alloc_pages 16 demo_pmm with Ret (a, _) => Some a | _ => None end);
    [by rewrite E|vm_compute; reflexivity].
Defined.

(** pmm_free_page on every branch: NULL, a misaligned address, an address
    out of range and a frame that is already free each stop the kernel with
    their own message; any other address adds its frame, and only it, to the
    free set. *)
Theorem pmm_free_page_branches (st : pmm_state) (a : Z) :
  pmm_wf st → 0 ≤ a →
  if decide (a = 0) then
    pmm_free_page a st = Panic "pmm.c: pmm_free_page() -> attempt to free NULL"
  else if decide (a mod PAGE_SIZE ≠ 0) then
    pmm_free_page a st = Panic "pmm.c: pmm_free_page() -> addr %p is not page-aligned"
  else if decide (page_count st ≤ a / PAGE_SIZE) then
    pmm_free_page a st = Panic "pmm.c: pmm_free_page() -> addr %p out of range"
  else if decide (a / PAGE_SIZE ∈ free_frames st) then
    pmm_free_page a st = Panic "pmm.c: pmm_free_page() -> double free at %p"
  else ∃ st', pmm_free_page a st = Ret (tt, st') ∧ pmm_wf st' ∧ page_count st' = page_count st ∧
              last_alloc_word st' = last_alloc_word st ∧
              free_frames st' = free_frames st ∪ {[a / PAGE_SIZE]}.
Proof. apply free_page_spec. Qed.

Lemma pmm_free_page_branches_witness :
  ∃ st', pmm_free_page 0x100000 demo_pmm = Ret (tt, st') ∧ 0x100 ∈ free_frames st'.
Proof.
  pose proof (pmm_free_page_branches demo_pmm 0x100000 demo_pmm_wf ltac:(lia)) as H.
  do 3 (rewrite decide_False in H; [|vm_compute; intuition congruence]).
  rewrite decide_False in H by (apply (bool_decide_unpack _); vm_compute; exact I).
  destruct H as (st' & Hrun & _ & _ & _ & Hf). exists st'. split; [done|].
  rewrite Hf, elem_of_union, elem_of_singleton. right. reflexivity.
Defined.

(** C1. Whatever a client does with the allocator - any interleaving of
    pmm_alloc_page, pmm_alloc_pages and pmm_free_pages - it never holds a frame
    twice and never holds a frame the allocator still counts as free. *)
Theorem pmm_no_overlap (st : pmm_state) (live : list (Z * Z)) (st0 : pmm_state) :
  pmm_wf st0 → rtc client_step (st0, []) (st, live) →
  NoDup (frames_of live) ∧ ∀ f, f ∈ frames_of live → 0 ≤ f < page_count st ∧ f ∉ free_frames st.
Proof.
  intros Hwf Hsteps.
  assert (client_inv (st, live)) as Hinv; [|split; [apply (ci_nodup _ Hinv)|apply (ci_held _ Hinv)]].
  eapply (rtc_ind_r client_inv); [|by eauto using client_step_inv|exact Hsteps].
  split; simpl; [done|constructor|by intros f ?%not_elem_of_nil|constructor].
Qed.

Definition demo_after_16 : pmm_state :=
  match pmm_alloc_pages 16 demo_pmm with Ret (_, st) => st | _ => demo_pmm end.

Lemma pmm_no_overlap_witness : NoDup (frames_of [(0x112, 16)]).
Proof.
  apply (pmm_no_overlap demo_after_16 [(0x112, 16)] demo_pmm); [apply demo_pmm_wf|].
  eapply rtc_once. change 0x112 with (0x112000 / 4096). constructor; [lia|].
  vm_compute. reflexivity.
Defined.

(** Allocating a run and freeing it again restores the set of free frames. *)
Theorem pmm_alloc_free_roundtrip (st st1 : pmm_state) (a n : Z) :
  pmm_wf st → 1 ≤ n < W64 → pmm_alloc_pages n st = Ret (a, st1) → a ≠ 0 →
  ∃ st2, pmm_free_pages a n st1 = Ret (tt, st2) ∧ pmm_wf st2 ∧ free_frames st2 = free_frames st.
Proof.
  intros Hwf Hn Hrun Ha.
  destruct (alloc_pages_any st n a st1) as (s & -> & Hfr & Hwf1 & Hc & Hf); [done|done|done|].
  assert (∀ f, s ≤ f < s + n → 0 ≤ f < page_count st) as Hr.
  { intros f Hsf. apply (elem_of_free_frames st), Hfr. done. }
  pose proof (Hr s ltac:(lia)). pose proof (Hr (s + n - 1) ltac:(lia)).
  destruct (free_pages_run st1 s n) as (st2 & Hrun2 & Hwf2 & _ & Hf2); [done|lia|lia|lia| |].
  { intros f Hsf. rewrite Hf, elem_of_difference, elem_of_run_set. tauto. }
  exists st2. split_and!; try done. rewrite Hf2, Hf. apply set_eq. intros g.
  rewrite elem_of_union, elem_of_difference, elem_of_run_set.
  destruct (decide (s ≤ g < s + n)); [|tauto]. split; [|tauto]. intros _. by apply Hfr.
Qed.

Lemma pmm_alloc_free_roundtrip_witness :
  ∃ st2, pmm_free_pages 0x112000 16 demo_after_16 = Ret (tt, st2) ∧
         free_frames st2 = free_frames demo_pmm.
Proof.
  destruct (pmm_alloc_free_roundtrip demo_pmm demo_after_16 0x112000 16) as (st2 & H1 & _ & H2);
    [apply demo_pmm_wf|lia|vm_compute; reflexivity|lia|eauto].
Defined.
