(* ===== verification/Heap.v ===== *)
(** * The kernel heap (src/mm/heap.c)

    A slab allocator with eight size classes on top of the frame allocator.
    Every block is preceded by an 8-byte header {cache_idx, _pad}; a free block
    holds the pointer to the next free block of its class in its first eight
    bytes.  Headers and links live in the byte memory, exactly where the code
    puts them; the array [caches] is a list of records. *)

From S2P Require Import Prelude ByteMem FrameAlloc.

Definition SLAB_CLASS_COUNT : Z := 8.
Definition SLAB_SIZES : list Z := [16; 32; 64; 128; 256; 512; 1024; 2048].

Record slab_cache := mkCache { sc_free : Z; sc_obj_size : Z; sc_total : Z; sc_used : Z }.

(** The state of the memory subsystem: the frame allocator, the bytes and the
    slab caches. *)
Record mm_state (P : Type) := mkMm { mm_pg : P; mm_mem : mem; mm_caches : list slab_cache }.
Arguments mkMm {P} _ _ _.
Arguments mm_pg {P} _.
Arguments mm_mem {P} _.
Arguments mm_caches {P} _.

Section Heap.
Context {P : Type} `{FA : FrameAllocator P} `{B : Boot}.

Abbreviation MM := (M (mm_state P)).

Definition set_pg (p : P) (s : mm_state P) : mm_state P := mkMm p (mm_mem s) (mm_caches s).
Definition set_mem (m : mem) (s : mm_state P) : mm_state P := mkMm (mm_pg s) m (mm_caches s).
Definition set_caches (c : list slab_cache) (s : mm_state P) : mm_state P :=
  mkMm (mm_pg s) (mm_mem s) c.

(** A call into the frame allocator; reads and writes of memory. *)
Definition pg {A} (m : M P A) : MM A := zoom mm_pg set_pg m.
Definition rd32 (a : Z) : MM Z := gets (λ s, load32 (mm_mem s) a).
Definition rd64 (a : Z) : MM Z := gets (λ s, load64 (mm_mem s) a).
Definition upd_mem (f : mem → mem) : MM unit := modify (λ s, set_mem (f (mm_mem s)) s).
Definition wr32 (a v : Z) : MM unit := upd_mem (λ m, store32 m a v).
Definition wr64 (a v : Z) : MM unit := upd_mem (λ m, store64 m a v).

(** [caches[i]], and an assignment to its fields. *)
Definition get_cache (i : Z) : MM slab_cache :=
  cs <- gets mm_caches ;; of_opt (cs !! Z.to_nat i).
Definition upd_cache (i : Z) (f : slab_cache → slab_cache) : MM unit :=
  c <- get_cache i ;; modify (λ s, set_caches (<[Z.to_nat i := f c]> (mm_caches s)) s).

Definition with_free (p : Z) (c : slab_cache) : slab_cache :=
  mkCache p (sc_obj_size c) (sc_total c) (sc_used c).
Definition add_total (n : Z) (c : slab_cache) : slab_cache :=
  mkCache (sc_free c) (sc_obj_size c) (sc_total c +64 n) (sc_used c).
Definition add_used (n : Z) (c : slab_cache) : slab_cache :=
  mkCache (sc_free c) (sc_obj_size c) (sc_total c) (sc_used c +64 n).

Definition slab_init : MM unit :=
  modify (set_caches ((λ sz, mkCache 0 sz 0 0) <$> SLAB_SIZES)).

(** sizeof(slab_header_t) *)
Definition HDR : Z := 8.

(** The body of the carving loop of slab_refill. *)
Definition carve_block (idx page block_size i : Z) : MM unit :=
  let raw := page + i * block_size in
  wr32 raw (u32 idx) ;;;
  wr32 (raw + 4) 0 ;;;
  let block := raw + HDR in
  c <- get_cache idx ;;
  wr64 block (sc_free c) ;;;
  upd_cache idx (with_free block).

(** slab_refill(&caches[idx]) *)
Definition slab_refill (idx : Z) : MM unit :=
  phys <- pg fa_alloc ;;
  if phys =? 0 then panic "heap.c: slab_refill() -> out of memory"
  else
    let page := phys +64 hhdm_offset in
    upd_mem (λ m, memset m page 0 4096) ;;;
    c <- get_cache idx ;;
    let block_size := sc_obj_size c +64 HDR in
    let count := 4096 / block_size in
    for_n count (carve_block idx page block_size) ;;;
    upd_cache idx (add_total count).

(** The small-size branch of kmalloc for class [i]. *)
Definition kmalloc_from (i : Z) : MM Z :=
  c <- get_cache i ;;
  (if sc_free c =? 0 then slab_refill i else ret tt) ;;;
  c <- get_cache i ;;
  let block := sc_free c in
  next <- rd64 block ;;
  upd_cache i (with_free next) ;;;
  upd_cache i (add_used 1) ;;;
  ret block.

Definition kmalloc_large (size : Z) : MM Z :=
  let total := size +64 HDR in
  let pages := ((total +64 4096) -64 1) / 4096 in
  phys <- pg (fa_alloc_n pages) ;;
  if phys =? 0 then panic "heap.c: kmalloc() -> out of memory for large allocator"
  else
    let raw := phys +64 hhdm_offset in
    wr32 raw SLAB_CLASS_COUNT ;;;
    wr32 (raw + 4) (u32 pages) ;;;
    ret (raw + HDR).

(** [for (i = 0; i < SLAB_CLASS_COUNT; i++)]: [n] classes remain. *)
Fixpoint kmalloc_loop (n : nat) (i size : Z) : MM Z :=
  match n with
  | O => kmalloc_large size
  | S n' =>
      c <- get_cache i ;;
      if sc_obj_size c <? size then kmalloc_loop n' (i + 1) size else kmalloc_from i
  end.

Definition kmalloc (size : Z) : MM Z :=
  if size =? 0 then ret 0 else kmalloc_loop (Z.to_nat SLAB_CLASS_COUNT) 0 size.

Definition kfree (ptr : Z) : MM unit :=
  if ptr =? 0 then ret tt
  else
    let hdr := ptr - HDR in
    cache_idx <- rd32 hdr ;;
    if cache_idx =? SLAB_CLASS_COUNT then
      pad <- rd32 (hdr + 4) ;;
      pg (fa_free_n (hdr -64 hhdm_offset) pad)
    else if SLAB_CLASS_COUNT <=? cache_idx
    then panic "heap.c: kfree() -> invalid cache_idx, possible double free or corruption"
    else
      let block := ptr in
      c <- get_cache cache_idx ;;
      wr64 block (sc_free c) ;;;
      upd_cache cache_idx (with_free block) ;;;
      upd_cache cache_idx (add_used (-1)).

(** ** The heap invariant

    [G] lists every block ever carved, free or in use: its address (past the
    header), its class ([SLAB_CLASS_COUNT] for a large block) and the length of
    its extent, header included.  [fls] lists the free blocks of each class. *)

(** The singly linked list of free blocks that starts at [p]. *)
Fixpoint slist (m : mem) (p : Z) (l : list Z) : Prop :=
  match l with
  | [] => p = 0
  | b :: l' => p = b ∧ b ≠ 0 ∧ slist m (load64 m b) l'
  end.

Definition frame_of (a : Z) : Z := (a - hhdm_offset) / 4096.

(** The extent [a, a+n) lies in frames that are not free. *)
Definition taken (p : P) (a n : Z) : Prop :=
  ∀ x, a ≤ x < a + n → hhdm_offset ≤ x ∧ frame_of x < fa_count p ∧ frame_of x ∉ fa_free p.

Definition block_ok (s : mm_state P) (b c n : Z) : Prop :=
  load32 (mm_mem s) (b - 8) = c ∧ taken (mm_pg s) (b - 8) n ∧ hhdm_offset ≤ b - 8 ∧
  ((∃ sz, SLAB_SIZES !! Z.to_nat c = Some sz ∧ 0 ≤ c < 8 ∧ n = sz + 8) ∨
   (∃ f k, c = 8 ∧ n = k * 4096 ∧ load32 (mm_mem s) (b - 4) = k ∧ 1 ≤ k ∧
           b - 8 = hhdm_offset + f * 4096 ∧ 0 < f)).

Record heap_core (s : mm_state P) (G : gmap Z (Z * Z)) (fls : list (list Z)) : Prop := {
  hc_wf : fa_wf (mm_pg s);
  hc_hhdm : 0 < hhdm_offset ∧ hhdm_offset + fa_count (mm_pg s) * 4096 ≤ W64;
  hc_sizes : sc_obj_size <$> mm_caches s = SLAB_SIZES;
  hc_len : length fls = 8%nat;
  hc_lists : ∀ i c fl, mm_caches s !! i = Some c → fls !! i = Some fl →
    slist (mm_mem s) (sc_free c) fl;
  hc_class : ∀ i fl b, fls !! i = Some fl → b ∈ fl → ∃ n, G !! b = Some (Z.of_nat i, n);
  hc_nodup : ∀ i fl, fls !! i = Some fl → NoDup fl;
  hc_block : ∀ b c n, G !! b = Some (c, n) → block_ok s b c n;
  hc_disj : ∀ b1 c1 n1 b2 c2 n2, G !! b1 = Some (c1, n1) → G !! b2 = Some (c2, n2) → b1 ≠ b2 →
    b1 + n1 ≤ b2 ∨ b2 + n2 ≤ b1;
}.

(** total - used counts the free blocks of a class, up to [off]. *)
Definition counters (s : mm_state P) (fls : list (list Z)) (off : nat → Z) : Prop :=
  ∀ i c fl, mm_caches s !! i = Some c → fls !! i = Some fl →
    sc_total c -64 sc_used c = u64 (Z.of_nat (length fl) - off i).

Definition heap_inv (s : mm_state P) (G : gmap Z (Z * Z)) (fls : list (list Z)) : Prop :=
  heap_core s G fls ∧ counters s fls (λ _, 0).

(** A block in use: carved and on no free list. *)
Definition live (G : gmap Z (Z * Z)) (fls : list (list Z)) (b : Z) : Prop :=
  is_Some (G !! b) ∧ ∀ i fl, fls !! i = Some fl → b ∉ fl.

(** ** Running the primitives *)

Lemma get_cache_run s i c :
  mm_caches s !! i = Some c → get_cache (Z.of_nat i) s = Ret (c, s).
Proof. intros H. unfold get_cache. rewrite bind_gets, Nat2Z.id, H. done. Qed.

Lemma upd_cache_run s i c f :
  mm_caches s !! i = Some c →
  upd_cache (Z.of_nat i) f s = Ret (tt, set_caches (<[i := f c]> (mm_caches s)) s).
Proof.
  intros H. unfold upd_cache. rewrite (bind_Ret _ _ _ _ _ (get_cache_run s i c H)).
  unfold modify. by rewrite Nat2Z.id.
Qed.

Lemma sizes_lookup s G fls i c :
  heap_core s G fls → mm_caches s !! i = Some c → SLAB_SIZES !! i = Some (sc_obj_size c).
Proof. intros Hc Hi. by rewrite <- (hc_sizes _ _ _ Hc), list_lookup_fmap, Hi. Qed.

Lemma caches_total s G fls i :
  heap_core s G fls → (i < 8)%nat → is_Some (mm_caches s !! i) ∧ is_Some (fls !! i).
Proof.
  intros Hc Hi. rewrite !lookup_lt_is_Some, (hc_len _ _ _ Hc).
  rewrite <- (length_fmap sc_obj_size), (hc_sizes _ _ _ Hc). done.
Qed.

Lemma slab_size_range i sz : SLAB_SIZES !! i = Some sz → (i < 8)%nat ∧ 16 ≤ sz ≤ 2048.
Proof.
  intros H. split; [by apply lookup_lt_Some in H|].
  assert (Forall (λ z, 16 ≤ z ≤ 2048) SLAB_SIZES) as HF by (repeat constructor; lia).
  rewrite Forall_lookup in HF. eauto.
Qed.

Lemma slist_ext m m' p l : (∀ b, b ∈ l → load64 m' b = load64 m b) → slist m p l → slist m' p l.
Proof.
  revert p. induction l as [|b l IH]; intros p He; simpl; [done|].
  intros (-> & Hb & Hl). split; [done|]. split; [done|]. rewrite He by left.
  apply IH; [|done]. intros b' Hb'. apply He. by right.
Qed.

Lemma slist_nonzero m p l b : slist m p l → b ∈ l → b ≠ 0.
Proof.
  revert p. induction l as [|b' l IH]; intros p; [by intros _ ?%not_elem_of_nil|].
  intros (-> & Hb & Hl) [->|Hin]%elem_of_cons; eauto.
Qed.

(** Memory may change anywhere but in headers and in the links of free blocks. *)
Lemma core_frame_mem s G fls m' :
  heap_core s G fls →
  (∀ b c n, G !! b = Some (c, n) →
     load32 m' (b - 8) = load32 (mm_mem s) (b - 8) ∧ load32 m' (b - 4) = load32 (mm_mem s) (b - 4)) →
  (∀ i fl b, fls !! i = Some fl → b ∈ fl → load64 m' b = load64 (mm_mem s) b) →
  heap_core (set_mem m' s) G fls.
Proof.
  intros [] Hh Hf. split; simpl; try done.
  - intros i c fl Hc Hfl. eapply slist_ext; [|by eauto]. intros b Hb. by eapply Hf.
  - intros b c n Hb. destruct (Hh _ _ _ Hb) as [E1 E2]. unfold block_ok. simpl.
    rewrite E1, E2. by apply hc_block0.
Qed.

(** Every extent has room for its header and for one link. *)
Lemma block_min s G fls b c n : heap_core s G fls → G !! b = Some (c, n) → 24 ≤ n ∧ hhdm_offset ≤ b - 8.
Proof.
  intros Hc Hb. destruct (hc_block _ _ _ Hc _ _ _ Hb) as (_ & _ & ? & [(sz & Hs & _ & ->)|(f & k & H)]).
  - apply slab_size_range in Hs. lia.
  - lia.
Qed.

(** A write inside one extent leaves the headers and links of every other
    block alone. *)
Lemma other_block_mem s G fls b1 c1 n1 b2 c2 n2 m' :
  heap_core s G fls → G !! b1 = Some (c1, n1) → G !! b2 = Some (c2, n2) → b1 ≠ b2 →
  (∀ a, ¬ (b1 - 8 ≤ a < b1 - 8 + n1) → load8 m' a = load8 (mm_mem s) a) →
  load32 m' (b2 - 8) = load32 (mm_mem s) (b2 - 8) ∧
  load32 m' (b2 - 4) = load32 (mm_mem s) (b2 - 4) ∧ load64 m' b2 = load64 (mm_mem s) b2.
Proof.
  intros Hc H1 H2 Hne Hm. pose proof (hc_disj _ _ _ Hc _ _ _ _ _ _ H1 H2 Hne).
  pose proof (block_min _ _ _ _ _ _ Hc H1). pose proof (block_min _ _ _ _ _ _ Hc H2).
  split_and!; apply load_le_ext; intros a Ha; apply Hm; lia.
Qed.

(** ** Taking a block off its free list *)

Lemma core_pop s G fls i c b fl :
  heap_core s G fls → mm_caches s !! i = Some c → fls !! i = Some (b :: fl) →
  heap_core (set_caches (<[i := add_used 1 (with_free (load64 (mm_mem s) b) c)]> (mm_caches s)) s)
    G (<[i := fl]> fls).
Proof.
  intros Hc Hi Hf. pose proof (lookup_lt_Some _ _ _ Hi). pose proof (lookup_lt_Some _ _ _ Hf).
  destruct Hc. split; simpl; try done.
  - rewrite list_fmap_insert. simpl. rewrite list_insert_id; [done|].
    rewrite list_lookup_fmap, Hi. done.
  - by rewrite length_insert.
  - intros j cj flj Hcj Hfj. destruct (decide (i = j)) as [<-|].
    + ins_eq Hcj. ins_eq Hfj.
      simpl. by destruct (hc_lists0 _ _ _ Hi Hf) as (_ & _ & ?).
    + ins_ne Hcj. ins_ne Hfj. eauto.
  - intros j flj b' Hfj Hb'. destruct (decide (i = j)) as [<-|].
    + ins_eq Hfj.
      eapply hc_class0; [done|]. by right.
    + ins_ne Hfj. eauto.
  - intros j flj Hfj. destruct (decide (i = j)) as [<-|].
    + ins_eq Hfj.
      specialize (hc_nodup0 _ _ Hf). by apply NoDup_cons in hc_nodup0 as [_ ?].
    + ins_ne Hfj. eauto.
Qed.

(** A block popped from a free list is on no free list afterwards. *)
Lemma pop_live s G fls i b fl :
  heap_core s G fls → fls !! i = Some (b :: fl) →
  live G (<[i := fl]> fls) b ∧ ¬ live G fls b ∧
  ∀ b', live G (<[i := fl]> fls) b' ↔ live G fls b' ∨ b' = b.
Proof.
  intros Hc Hf. pose proof (lookup_lt_Some _ _ _ Hf).
  destruct (hc_class _ _ _ Hc i (b :: fl) b Hf ltac:(left)) as [n Hn].
  assert (live G (<[i := fl]> fls) b) as Hlive.
  { split; [eauto|]. intros j flj Hfj. destruct (decide (i = j)) as [<-|].
    - ins_eq Hfj.
      pose proof (hc_nodup _ _ _ Hc _ _ Hf) as Hnd. by apply NoDup_cons in Hnd as [? _].
    - ins_ne Hfj. intros Hin.
      destruct (hc_class _ _ _ Hc _ _ _ Hfj Hin) as [n' Hn']. rewrite Hn in Hn'.
      injection Hn' as Hn' _. lia. }
  split; [done|]. split; [intros [_ Hno]; apply (Hno _ _ Hf); left|].
  intros b'. split.
  - intros [HG Hno]. destruct (decide (b' = b)) as [|Hne]; [by right|left]. split; [done|].
    intros j flj Hfj. destruct (decide (i = j)) as [<-|].
    + rewrite Hf in Hfj. injection Hfj as <-. rewrite elem_of_cons. intros [|]; [done|].
      eapply Hno; [by rewrite list_lookup_insert_eq|done].
    + apply (Hno j). by rewrite list_lookup_insert_ne.
  - intros [[HG Hno]| ->]; [|done]. split; [done|]. intros j flj Hfj.
    destruct (decide (i = j)) as [<-|].
    + ins_eq Hfj.
      intros Hin. apply (Hno _ _ Hf). by right.
    + ins_ne Hfj. eauto.
Qed.

(** ** Carving new blocks out of a fresh frame *)

Lemma core_mem_outside s G fls m' :
  heap_core s G fls →
  (∀ b c n a, G !! b = Some (c, n) → b - 8 ≤ a < b - 8 + n → load8 m' a = load8 (mm_mem s) a) →
  heap_core (set_mem m' s) G fls.
Proof.
  intros Hc Hm. apply core_frame_mem; [done| |].
  - intros b c n Hb. pose proof (block_min _ _ _ _ _ _ Hc Hb).
    split; apply load_le_ext; intros a Ha; eapply Hm; [done|lia|done|lia].
  - intros i fl b Hf Hb. destruct (hc_class _ _ _ Hc _ _ _ Hf Hb) as [n Hn].
    pose proof (block_min _ _ _ _ _ _ Hc Hn).
    apply load_le_ext. intros a Ha. eapply Hm; [done|lia].
Qed.

Lemma core_set_pg s G fls p' :
  heap_core s G fls → fa_wf p' → fa_count p' = fa_count (mm_pg s) →
  (∀ f, f ∈ fa_free p' → f ∈ fa_free (mm_pg s)) → heap_core (set_pg p' s) G fls.
Proof.
  intros [] Hwf Hcnt Hsub. split; simpl; try done; [by rewrite Hcnt|].
  intros b c n Hb. destruct (hc_block0 _ _ _ Hb) as (? & Ht & ?). split; [done|]. split; [|done].
  intros x Hx. destruct (Ht x Hx) as (? & ? & ?). simpl. rewrite Hcnt. split_and!; auto.
Qed.

Lemma frame_of_range f x :
  frame_of x = f ↔ hhdm_offset + f * 4096 ≤ x < hhdm_offset + f * 4096 + 4096.
Proof.
  unfold frame_of. pose proof (Z.div_mod (x - hhdm_offset) 4096 ltac:(lia)).
  pose proof (Z.mod_pos_bound (x - hhdm_offset) 4096 ltac:(lia)). split; [lia|].
  intros. symmetry. apply (Z.div_unique _ _ _ (x - hhdm_offset - f * 4096)); lia.
Qed.

(** A free frame is disjoint from every extent. *)
Lemma fresh_disjoint p f a n :
  f ∈ fa_free p → taken p a n → 0 < n →
  a + n ≤ hhdm_offset + f * 4096 ∨ hhdm_offset + f * 4096 + 4096 ≤ a.
Proof.
  intros Hf Ht Hn. destruct (decide (a + n ≤ hhdm_offset + f * 4096)); [by left|right].
  destruct (decide (hhdm_offset + f * 4096 + 4096 ≤ a)); [done|exfalso].
  destruct (Ht (Z.max a (hhdm_offset + f * 4096))) as (_ & _ & Hno); [lia|]. apply Hno.
  rewrite (proj2 (frame_of_range f _)); [done|lia].
Qed.

Lemma block_addr s G fls b c n : heap_core s G fls → G !! b = Some (c, n) → 0 < b ∧ b + 16 ≤ W64.
Proof.
  intros Hc Hb. pose proof (block_min _ _ _ _ _ _ Hc Hb). pose proof (hc_hhdm _ _ _ Hc).
  destruct (hc_block _ _ _ Hc _ _ _ Hb) as (_ & Ht & _). destruct (Ht (b + 15) ltac:(lia)) as (H1 & H2 & _).
  split; [lia|]. unfold frame_of in H2.
  pose proof (Z.div_mod (b + 15 - hhdm_offset) 4096 ltac:(lia)).
  pose proof (Z.mod_pos_bound (b + 15 - hhdm_offset) 4096 ltac:(lia)). lia.
Qed.

Lemma free_head_range s G fls i c :
  heap_core s G fls → mm_caches s !! i = Some c → 0 ≤ sc_free c < W64.
Proof.
  intros Hc Hi. assert (i < 8)%nat.
  { apply lookup_lt_Some in Hi. rewrite <- (length_fmap sc_obj_size), (hc_sizes _ _ _ Hc) in Hi. done. }
  destruct (caches_total _ _ _ i Hc ltac:(done)) as [_ [fl Hf]].
  pose proof (hc_lists _ _ _ Hc _ _ _ Hi Hf) as Hl. destruct fl as [|b fl].
  - simpl in Hl. lia.
  - destruct Hl as (-> & Hb & _). destruct (hc_class _ _ _ Hc _ _ b Hf ltac:(left)) as [n Hn].
    pose proof (block_addr _ _ _ _ _ _ Hc Hn). lia.
Qed.

Definition carve_mem (m : mem) (raw idx next : Z) : mem :=
  store64 (store32 (store32 m raw (u32 idx)) (raw + 4) 0) (raw + 8) next.

Lemma carve_mem_spec m raw idx next :
  0 ≤ idx < W32 → 0 ≤ next < W64 →
  load32 (carve_mem m raw idx next) raw = idx ∧ load64 (carve_mem m raw idx next) (raw + 8) = next ∧
  ∀ a, ¬ (raw ≤ a < raw + 16) → load8 (carve_mem m raw idx next) a = load8 m a.
Proof.
  intros Hi Hn. unfold carve_mem, load32, store32, store64. split_and!.
  - rewrite !load_le_store_le_ne, load_le_store_le_eq by lia. rewrite u32_small by done.
    apply Z.mod_small. done.
  - apply load64_store64_eq. done.
  - intros a Ha. rewrite !load8_store_le, !decide_False by lia. done.
Qed.

Lemma carve_block_run s i c page bs k :
  mm_caches s !! i = Some c →
  let raw := page + k * bs in
  carve_block (Z.of_nat i) page bs k s =
    Ret (tt, mkMm (mm_pg s) (carve_mem (mm_mem s) raw (Z.of_nat i) (sc_free c))
               (<[i := with_free (raw + 8) c]> (mm_caches s))).
Proof.
  intros Hi raw. unfold carve_block, wr32, wr64, upd_mem. cbv zeta. rewrite !bind_modify.
  erewrite bind_Ret by (apply get_cache_run; simpl; exact Hi). rewrite bind_modify.
  erewrite upd_cache_run by (simpl; exact Hi). done.
Qed.

Lemma core_carve s G fls i c fl raw n :
  heap_core s G fls → mm_caches s !! i = Some c → fls !! i = Some fl →
  n = sc_obj_size c + 8 → taken (mm_pg s) raw n →
  (∀ b c' n', G !! b = Some (c', n') → b - 8 + n' ≤ raw ∨ raw + n ≤ b - 8) →
  heap_core (mkMm (mm_pg s) (carve_mem (mm_mem s) raw (Z.of_nat i) (sc_free c))
               (<[i := with_free (raw + 8) c]> (mm_caches s)))
    (<[raw + 8 := (Z.of_nat i, n)]> G) (<[i := (raw + 8) :: fl]> fls).
Proof.
  intros Hc Hi Hf Hn Ht Hd. pose proof (sizes_lookup _ _ _ _ _ Hc Hi) as Hsz.
  destruct (slab_size_range _ _ Hsz) as [Hi8 Hrange]. pose proof (hc_hhdm _ _ _ Hc).
  destruct (Ht raw ltac:(lia)) as (Hraw & _ & _).
  assert (G !! (raw + 8) = None) as Hfresh.
  { destruct (G !! (raw + 8)) as [[c' n']|] eqn:E; [exfalso|done].
    pose proof (block_min _ _ _ _ _ _ Hc E). destruct (Hd _ _ _ E); lia. }
  destruct (carve_mem_spec (mm_mem s) raw (Z.of_nat i) (sc_free c)) as (Hm1 & Hm2 & Hm3);
    [lia|by eapply free_head_range|].
  set (m' := carve_mem _ _ _ _) in *.
  assert (heap_core (set_mem m' s) G fls) as Hc'.
  { apply core_mem_outside; [done|]. intros b c' n' a Hb Ha. apply Hm3.
    destruct (Hd _ _ _ Hb); lia. }
  pose proof (lookup_lt_Some _ _ _ Hi). pose proof (lookup_lt_Some _ _ _ Hf).
  assert (∀ b j flj, fls !! j = Some flj → b ∈ flj → b ≠ raw + 8) as Hnew.
  { intros b j flj Hj Hb ->. destruct (hc_class _ _ _ Hc _ _ _ Hj Hb) as [x Hx]. congruence. }
  destruct Hc'. simpl in *. split; simpl; try done.
  - rewrite list_fmap_insert. simpl. rewrite list_insert_id; [done|]. by rewrite list_lookup_fmap, Hi.
  - by rewrite length_insert.
  - intros j cj flj Hcj Hfj. destruct (decide (i = j)) as [<-|].
    + ins_eq Hcj. ins_eq Hfj. simpl. rewrite Hm2. split; [done|]. split; [lia|]. by eapply hc_lists0.
    + ins_ne Hcj. ins_ne Hfj. eauto.
  - intros j flj b Hfj Hb. destruct (decide (i = j)) as [<-|].
    + ins_eq Hfj. apply elem_of_cons in Hb as [->|Hb]; [rewrite lookup_insert_eq; eauto|].
      rewrite lookup_insert_ne by (symmetry; eauto). eauto.
    + ins_ne Hfj. rewrite lookup_insert_ne by (symmetry; eauto). eauto.
  - intros j flj Hfj. destruct (decide (i = j)) as [<-|].
    + ins_eq Hfj. apply NoDup_cons. split; [|eauto]. intros Hin. by apply (Hnew _ _ _ Hf Hin).
    + ins_ne Hfj. eauto.
  - intros b c' n'. rewrite lookup_insert. case_decide as E; [|by apply hc_block0].
    intros [= <- <-]. subst b. unfold block_ok. simpl. replace (raw + 8 - 8) with raw by lia.
    split_and!; try done. left. exists (sc_obj_size c). rewrite Nat2Z.id. split_and!; done || lia.
  - intros b1 c1 n1 b2 c2 n2. rewrite !lookup_insert. repeat case_decide; subst.
    + done.
    + intros [= <- <-] Hb2 _. destruct (Hd _ _ _ Hb2); lia.
    + intros Hb1 [= <- <-] _. destruct (Hd _ _ _ Hb1); lia.
    + by apply hc_disj0.
Qed.

(** ** slab_refill *)

(** What a refill of class [i] from [s] to [s'] may change: new blocks, all in
    one frame that was free, are added to the list of the class. *)
Record grown (s s' : mm_state P) (G G' : gmap Z (Z * Z)) (fls : list (list Z)) (i : nat)
    (new : list Z) (lo hi : Z) : Prop := {
  gr_old : ∀ b x, G !! b = Some x → G' !! b = Some x;
  gr_new : ∀ b c n, G' !! b = Some (c, n) →
    G !! b = Some (c, n) ∨ (lo ≤ b - 8 ∧ b - 8 + n ≤ hi ∧ b ∈ new);
  gr_fresh : ∀ b, b ∈ new → G !! b = None;
  gr_pg : mm_pg s' = mm_pg s;
  gr_mem : ∀ a, ¬ (lo ≤ a < lo + 4096) → load8 (mm_mem s') a = load8 (mm_mem s) a;
  gr_caches : ∀ c, mm_caches s !! i = Some c →
    ∃ p, mm_caches s' = <[i := with_free p c]> (mm_caches s);
}.

(** The state after [k] iterations of the carving loop. *)
Definition carved s G fls i fl lo bs k s' : Prop :=
  ∃ G' new, heap_core s' G' (<[i := new ++ fl]> fls) ∧
    Z.of_nat (length new) = k ∧ grown s s' G G' fls i new lo (lo + k * bs).

Lemma carve_step s G fls i c fl lo k s1 :
  let bs := sc_obj_size c + 8 in
  mm_caches s !! i = Some c → fls !! i = Some fl → 16 ≤ sc_obj_size c → (i < 8)%nat →
  taken (mm_pg s) lo 4096 → 0 ≤ k → (k + 1) * bs ≤ 4096 →
  (∀ b c' n', G !! b = Some (c', n') → b - 8 + n' ≤ lo ∨ lo + 4096 ≤ b - 8) →
  carved s G fls i fl lo bs k s1 →
  ∃ s2, carve_block (Z.of_nat i) lo bs k s1 = Ret (tt, s2) ∧ carved s G fls i fl lo bs (k + 1) s2.
Proof.
  intros bs Hi Hf Hsz Hi8 Ht Hk0 Hk Hd (G1 & new & Hc1 & Hlen & [Hold Hnew Hfr Hpg Hmem Hca]).
  pose proof (lookup_lt_Some _ _ _ Hi) as Hil. pose proof (lookup_lt_Some _ _ _ Hf).
  destruct (Hca c Hi) as [p Hp].
  assert (mm_caches s1 !! i = Some (with_free p c)) as Hi1 by (by rewrite Hp, list_lookup_insert_eq).
  assert (<[i := new ++ fl]> fls !! i = Some (new ++ fl)) as Hf1 by (by rewrite list_lookup_insert_eq).
  assert (∀ b c' n', G1 !! b = Some (c', n') →
    b - 8 + n' ≤ lo + k * bs ∨ lo + k * bs + bs ≤ b - 8) as Hd1.
  { intros b c' n' Hb. destruct (Hnew _ _ _ Hb) as [Hb0|?]; [|lia].
    destruct (Hd _ _ _ Hb0); [left; unfold bs in *; nia|right; lia]. }
  assert (taken (mm_pg s1) (lo + k * bs) bs) as Ht1.
  { rewrite Hpg. intros x Hx. apply Ht. unfold bs in *. nia. }
  rewrite (carve_block_run s1 i _ lo bs k Hi1).
  pose proof (core_carve s1 G1 _ i _ _ (lo + k * bs) bs Hc1 Hi1 Hf1 eq_refl Ht1 Hd1) as Hc2.
  rewrite list_insert_insert_eq in Hc2. eexists. split; [done|].
  exists (<[lo + k * bs + 8 := (Z.of_nat i, bs)]> G1), ((lo + k * bs + 8) :: new).
  assert (G1 !! (lo + k * bs + 8) = None) as Hnone.
  { destruct (G1 !! _) as [[c' n']|] eqn:E; [exfalso|done].
    pose proof (block_min _ _ _ _ _ _ Hc1 E). destruct (Hd1 _ _ _ E); unfold bs in *; lia. }
  split; [exact Hc2|]. split; [simpl; lia|]. split; simpl; [| | |done| |].
  - intros b x Hb. rewrite lookup_insert_ne; [by eauto|]. intros <-. rewrite (Hold _ _ Hb) in Hnone. done.
  - intros b c' n'. rewrite lookup_insert. case_decide as E.
    + intros [= <- <-]. subst b. right. split_and!; [unfold bs in *; nia|lia|left].
    + intros Hb. destruct (Hnew _ _ _ Hb) as [?|(?&?&?)]; [by left|right].
      split_and!; [lia|lia|by right].
  - intros b [->|Hb]%elem_of_cons; [|by auto].
    destruct (G !! _) as [x|] eqn:E; [|done]. rewrite (Hold _ _ E) in Hnone. done.
  - intros a Ha. rewrite <- Hmem by done.
    destruct (carve_mem_spec (mm_mem s1) (lo + k * bs) (Z.of_nat i) (sc_free (with_free p c)))
      as (_ & _ & Hm); [lia|by apply (free_head_range s1 _ _ i (with_free p c) Hc1)|].
    apply Hm. unfold bs in *. nia.
  - intros c' Hc'. assert (c' = c) as -> by congruence. exists (lo + k * bs + 8).
    by rewrite Hp, list_insert_insert_eq.
Qed.

Lemma carve_loop s G fls i c fl f :
  heap_core s G fls → mm_caches s !! i = Some c → fls !! i = Some fl →
  let lo := hhdm_offset + f * 4096 in
  let bs := sc_obj_size c + 8 in
  taken (mm_pg s) lo 4096 →
  (∀ b c' n', G !! b = Some (c', n') → b - 8 + n' ≤ lo ∨ lo + 4096 ≤ b - 8) →
  ∃ s', for_n (4096 / bs) (carve_block (Z.of_nat i) lo bs) s = Ret (tt, s') ∧
    carved s G fls i fl lo bs (4096 / bs) s'.
Proof.
  intros Hc Hi Hf lo bs Ht Hd.
  destruct (slab_size_range i _ (sizes_lookup _ _ _ _ _ Hc Hi)) as [Hi8 Hsz].
  apply for_n_total.
  - assert (0 ≤ 4096 / bs ≤ 4096); [|lia].
    split; [apply Z.div_pos|apply Z.div_le_upper_bound]; unfold bs; lia.
  - intros k s1 Hkr Hs1. apply carve_step; try done; try lia.
    pose proof (Z.mul_div_le 4096 bs). unfold bs in *. nia.
  - exists G, []. split; [by rewrite list_insert_id|]. split; [done|]. split; try done.
    + intros b c' n' Hb. by left.
    + by intros b ?%not_elem_of_nil.
    + intros c' Hc'. exists (sc_free c'). rewrite list_insert_id; [done|].
      rewrite Hc'. by destruct c'.
Qed.

(** What an allocation leaves alone: every byte outside the frames that were
    free; the frames in use stay in use; new blocks lie in frames that were
    free. *)
Record alloc_frame (s s' : mm_state P) (G G' : gmap Z (Z * Z)) : Prop := {
  af_mem : ∀ a, frame_of a ∉ fa_free (mm_pg s) → load8 (mm_mem s') a = load8 (mm_mem s) a;
  af_free : fa_free (mm_pg s') ⊆ fa_free (mm_pg s);
  af_count : fa_count (mm_pg s') = fa_count (mm_pg s);
  af_new : ∀ b c n a, G' !! b = Some (c, n) → b - 8 ≤ a < b - 8 + n →
    G !! b = Some (c, n) ∨ frame_of a ∈ fa_free (mm_pg s);
}.

(** In particular every block keeps its bytes. *)
Lemma alloc_frame_blocks s s' G G' fls b c n a :
  heap_core s G fls → alloc_frame s s' G G' → G !! b = Some (c, n) → b - 8 ≤ a < b - 8 + n →
  load8 (mm_mem s') a = load8 (mm_mem s) a.
Proof.
  intros Hc Hf Hb Ha. apply (af_mem _ _ _ _ Hf).
  destruct (hc_block _ _ _ Hc _ _ _ Hb) as (_ & Ht & _). by apply Ht.
Qed.

(** An allocated frame: its address in the direct map, and its distance from
    every block. *)
Lemma fresh_frame s G fls phys s1 :
  heap_core s G fls → pg fa_alloc s = Ret (phys, s1) →
  ∃ f, phys = f * 4096 ∧ phys +64 hhdm_offset = hhdm_offset + f * 4096 ∧
    heap_core s1 G fls ∧ mm_mem s1 = mm_mem s ∧ mm_caches s1 = mm_caches s ∧
    taken (mm_pg s1) (hhdm_offset + f * 4096) 4096 ∧
    (∀ b c n, G !! b = Some (c, n) →
      b - 8 + n ≤ hhdm_offset + f * 4096 ∨ hhdm_offset + f * 4096 + 4096 ≤ b - 8) ∧
    f ∈ fa_free (mm_pg s) ∧ fa_free (mm_pg s1) ⊆ fa_free (mm_pg s) ∧
    fa_count (mm_pg s1) = fa_count (mm_pg s).
Proof.
  intros Hc Hrun. apply zoom_Ret_inv in Hrun as (p' & Hal & ->).
  pose proof (hc_wf _ _ _ Hc) as Hwf. pose proof (hc_hhdm _ _ _ Hc).
  destruct (fa_alloc_ok _ _ _ Hwf Hal) as (f & -> & Hf & Hwf' & Hcnt & Hfree).
  pose proof (fa_free_bound _ _ Hwf Hf). exists f. split; [done|].
  split; [rewrite u64_small by lia; lia|].
  split; [apply core_set_pg; [done|done|done|intros g; rewrite Hfree, elem_of_difference; tauto]|].
  split; [done|]. split; [done|]. split_and!; [| |done|simpl; rewrite Hfree; by apply subseteq_difference_l|done].
  - intros x Hx. apply frame_of_range in Hx as E. simpl. rewrite E, Hcnt, Hfree. split; [lia|].
    split; [lia|]. rewrite elem_of_difference, elem_of_singleton. tauto.
  - intros b c n Hb. pose proof (block_min _ _ _ _ _ _ Hc Hb).
    apply (fresh_disjoint (mm_pg s)); [done| |lia].
    by destruct (hc_block _ _ _ Hc _ _ _ Hb) as (_ & ? & _).
Qed.

Lemma refill_spec s G fls i c fl s' :
  heap_core s G fls → mm_caches s !! i = Some c → fls !! i = Some fl →
  slab_refill (Z.of_nat i) s = Ret (tt, s') →
  ∃ G' new p, heap_core s' G' (<[i := new ++ fl]> fls) ∧
    mm_caches s' = <[i := add_total (Z.of_nat (length new)) (with_free p c)]> (mm_caches s) ∧
    new ≠ [] ∧ (∀ b, b ∈ new → G !! b = None) ∧ (∀ b x, G !! b = Some x → G' !! b = Some x) ∧
    (∀ b x, G' !! b = Some x → G !! b = Some x ∨ b ∈ new) ∧ alloc_frame s s' G G'.
Proof.
  intros Hc Hi Hf Hrun. unfold slab_refill in Hrun. inv_run Hrun.
  destruct (fresh_frame _ _ _ _ _ Hc Hrun0) as (f & -> & Hpage & Hc1 & Em & Ec & Ht & Hd & Hf0 & Hsub & Hct).
  destruct (f * 4096 =? 0); [done|]. rewrite Hpage in Hrun. cbv zeta in Hrun.
  unfold upd_mem in Hrun. rewrite bind_modify in Hrun.
  set (lo := hhdm_offset + f * 4096) in *.
  set (s2 := set_mem (memset (mm_mem s0) lo 0 4096) s0) in *.
  assert (∀ a, ¬ (lo ≤ a < lo + 4096) → load8 (mm_mem s2) a = load8 (mm_mem s) a) as Hms.
  { intros a Ha. unfold s2. simpl. rewrite load8_memset, decide_False, Em by lia. done. }
  assert (heap_core s2 G fls) as Hc2.
  { apply core_mem_outside; [done|]. intros b c' n' a Hb Ha. simpl. rewrite load8_memset by lia.
    rewrite decide_False; [done|]. destruct (Hd _ _ _ Hb); lia. }
  assert (mm_caches s2 !! i = Some c) as Hi2 by (unfold s2; simpl; by rewrite Ec).
  rewrite (bind_Ret _ _ _ _ _ (get_cache_run s2 i c Hi2)) in Hrun.
  destruct (slab_size_range i _ (sizes_lookup _ _ _ _ _ Hc Hi)) as [Hi8 Hsz].
  rewrite (u64_small (sc_obj_size c + HDR)) in Hrun by (unfold HDR; lia).
  destruct (carve_loop s2 G fls i c fl f Hc2 Hi2 Hf Ht Hd) as (s3 & Hfor & G' & new & Hc3 & Hlen & Hg).
  fold lo in Hfor, Hg. unfold HDR in Hrun. rewrite (bind_Ret _ _ _ _ _ Hfor) in Hrun.
  destruct Hg as [Hold Hnew Hfr Hpg Hmem Hca]. destruct (Hca c Hi2) as [p Hp].
  rewrite <- Hlen in Hrun. simpl in Hp. rewrite Ec in Hp.
  assert (mm_caches s3 !! i = Some (with_free p c)) as Hi3.
  { rewrite Hp. rewrite list_lookup_insert_eq; [done|]. by eapply lookup_lt_Some. }
  rewrite (upd_cache_run s3 i _ _ Hi3) in Hrun. injection Hrun as <-.
  exists G', new, p. split_and!; try done.
  - destruct Hc3. split; simpl; try done.
    + rewrite list_fmap_insert. simpl. rewrite list_insert_id; [done|].
      by rewrite list_lookup_fmap, Hi3.
    + intros j cj flj Hcj Hfj. destruct (decide (i = j)) as [<-|].
      * rewrite list_lookup_insert_eq in Hcj by (by eapply lookup_lt_Some). injection Hcj as <-.
        by apply (hc_lists0 i (with_free p c)).
      * ins_ne Hcj. eauto.
  - simpl. by rewrite Hp, list_insert_insert_eq.
  - intros ->. simpl in Hlen. assert (1 ≤ 4096 / (sc_obj_size c + 8)); [|lia].
    apply Z.div_le_lower_bound; lia.
  - intros b [c' n'] Hb. destruct (Hnew _ _ _ Hb) as [?|(_&_&?)]; auto.
  - split; simpl; [|by rewrite Hpg|by rewrite Hpg|].
    + intros a Ha. assert (¬ (lo ≤ a < lo + 4096)).
      { intros Hin. apply Ha. by rewrite (proj2 (frame_of_range f a)). }
      by rewrite Hmem, Hms by done.
    + intros b c' n' a Hb Ha. destruct (Hnew _ _ _ Hb) as [?|(? & ? & _)]; [by left|right].
      pose proof (Z.mul_div_le 4096 (sc_obj_size c + 8)).
      by rewrite (proj2 (frame_of_range f a)) by (unfold lo in *; lia).
Qed.

(** ** kmalloc *)

(** The contract of an allocation: the heap stays well formed, the block [b]
    is new to the caller and has room for [size] bytes, every other block in use
    stays in use with its size, and no byte of an existing block changes. *)
Definition malloc_post (s : mm_state P) (G : gmap Z (Z * Z)) (fls : list (list Z))
    (size b : Z) (s' : mm_state P) : Prop :=
  ∃ G' fls' c n, heap_inv s' G' fls' ∧ G' !! b = Some (c, n) ∧ size + 8 ≤ n ∧ ¬ live G fls b ∧
    (∀ b', live G' fls' b' ↔ live G fls b' ∨ b' = b) ∧
    (∀ b' x, live G fls b' → G !! b' = Some x → G' !! b' = Some x) ∧ alloc_frame s s' G G'.

Lemma live_refill G G' fls i new fl b :
  fls !! i = Some fl → (∀ b, b ∈ new → G !! b = None) →
  (∀ b x, G !! b = Some x → G' !! b = Some x) →
  (∀ b x, G' !! b = Some x → G !! b = Some x ∨ b ∈ new) →
  live G' (<[i := new ++ fl]> fls) b ↔ live G fls b.
Proof.
  intros Hf Hfr Hold Hnew. pose proof (lookup_lt_Some _ _ _ Hf). split.
  - intros [[x Hx] Hno]. assert (b ∉ new ++ fl) as Hnb.
    { apply (Hno i). by rewrite list_lookup_insert_eq. }
    rewrite elem_of_app in Hnb. split; [destruct (Hnew _ _ Hx); [eauto|tauto]|].
    intros j flj Hj. destruct (decide (i = j)) as [<-|]; [rewrite Hf in Hj; injection Hj as <-; tauto|].
    apply (Hno j). by rewrite list_lookup_insert_ne.
  - intros [[x Hx] Hno]. split; [eauto|]. intros j flj Hj. destruct (decide (i = j)) as [<-|].
    + ins_eq Hj. rewrite elem_of_app. intros [Hin|Hin]; [|by apply (Hno _ _ Hf)].
      rewrite (Hfr _ Hin) in Hx. done.
    + ins_ne Hj. eauto.
Qed.

(** kmalloc_from once the free list is not empty. *)
Lemma pop_spec s G fls i c b fl off :
  heap_core s G fls → counters s fls off → off i = 0 → mm_caches s !! i = Some c →
  fls !! i = Some (b :: fl) →
  ∃ s', (c <- get_cache (Z.of_nat i) ;;
         let block := sc_free c in
         next <- rd64 block ;;
         upd_cache (Z.of_nat i) (with_free next) ;;;
         upd_cache (Z.of_nat i) (add_used 1) ;;;
         ret block) s = Ret (b, s') ∧
    heap_core s' G (<[i := fl]> fls) ∧ counters s' (<[i := fl]> fls) off ∧
    mm_mem s' = mm_mem s ∧ mm_pg s' = mm_pg s.
Proof.
  intros Hc Hcnt Ho Hi Hf. pose proof (lookup_lt_Some _ _ _ Hi). pose proof (lookup_lt_Some _ _ _ Hf).
  destruct (hc_lists _ _ _ Hc _ _ _ Hi Hf) as (Efree & Hb & _).
  rewrite (bind_Ret _ _ _ _ _ (get_cache_run s i c Hi)). cbv zeta. rewrite Efree.
  unfold rd64. rewrite bind_gets.
  rewrite (bind_Ret _ _ _ _ _ (upd_cache_run s i c _ Hi)).
  set (s1 := set_caches _ s).
  assert (mm_caches s1 !! i = Some (with_free (load64 (mm_mem s) b) c)) as Hi1.
  { simpl. by rewrite list_lookup_insert_eq. }
  rewrite (bind_Ret _ _ _ _ _ (upd_cache_run s1 i _ _ Hi1)). unfold s1 in *.
  eexists. split; [done|]. split; [|split; [|split; done]].
  - simpl. rewrite list_insert_insert_eq. exact (core_pop _ _ _ _ _ _ _ Hc Hi Hf).
  - intros j cj flj Hcj Hfj. simpl in Hcj. rewrite list_insert_insert_eq in Hcj.
    destruct (decide (i = j)) as [<-|].
    + ins_eq Hcj. ins_eq Hfj. simpl. specialize (Hcnt _ _ _ Hi Hf). simpl in Hcnt.
      rewrite u64_sub_r. replace (sc_total c - (sc_used c + 1)) with (sc_total c - sc_used c - 1) by lia.
      rewrite <- u64_sub_l, Hcnt, u64_sub_l, Ho. f_equal. lia.
    + ins_ne Hcj. ins_ne Hfj. exact (Hcnt _ _ _ Hcj Hfj).
Qed.

(** After the refill, if any, the list of the class is not empty. *)
Lemma refill_if_empty s G fls i c fl s1 :
  heap_inv s G fls → mm_caches s !! i = Some c → fls !! i = Some fl →
  (if sc_free c =? 0 then slab_refill (Z.of_nat i) else ret tt) s = Ret (tt, s1) →
  ∃ G1 c1 b1 fl1, heap_core s1 G1 (<[i := b1 :: fl1]> fls) ∧
    counters s1 (<[i := b1 :: fl1]> fls) (λ _, 0) ∧ mm_caches s1 !! i = Some c1 ∧
    sc_obj_size c1 = sc_obj_size c ∧ (∀ b, live G1 (<[i := b1 :: fl1]> fls) b ↔ live G fls b) ∧
    (∀ b x, G !! b = Some x → G1 !! b = Some x) ∧ alloc_frame s s1 G G1.
Proof.
  intros [Hc Hcnt] Hi Hf Hfill. pose proof (hc_lists _ _ _ Hc _ _ _ Hi Hf) as Hl.
  destruct fl as [|b1 fl1].
  - simpl in Hl. rewrite Hl in Hfill. simpl in Hfill.
    destruct (refill_spec _ _ _ _ _ _ _ Hc Hi Hf Hfill)
      as (G1 & new & p & Hc1 & Eca & Hne & Hfr & Hold & Hnew & Hkeep).
    pose proof (lookup_lt_Some _ _ _ Hi). pose proof (lookup_lt_Some _ _ _ Hf).
    rewrite app_nil_r in Hc1. destruct new as [|b1 fl1]; [done|].
    exists G1, (add_total (Z.of_nat (length (b1 :: fl1))) (with_free p c)), b1, fl1.
    split_and!; try done.
    + intros j cj flj Hcj Hfj. rewrite Eca in Hcj. destruct (decide (i = j)) as [<-|].
      * ins_eq Hcj. ins_eq Hfj. cbn [sc_total sc_used add_total with_free].
        specialize (Hcnt _ _ _ Hi Hf). simpl in Hcnt. rewrite u64_sub_l.
        transitivity (u64 (u64 (sc_total c - sc_used c) + Z.of_nat (length (b1 :: fl1)))).
        { rewrite u64_add_l. f_equal; simpl length; lia. }
        rewrite Hcnt, u64_add_l. f_equal; simpl length; lia.
      * ins_ne Hcj. ins_ne Hfj. exact (Hcnt _ _ _ Hcj Hfj).
    + rewrite Eca. by rewrite list_lookup_insert_eq.
    + intros b0. rewrite <- (app_nil_r (b1 :: fl1)). by apply live_refill.
  - destruct Hl as (Eb & Hb1 & _). rewrite Eb in Hfill. destruct (Z.eqb_spec b1 0); [done|].
    injection Hfill as <-. exists G, c, b1, fl1. rewrite list_insert_id by done. split_and!; try done. split; try done. intros. by left.
Qed.

Lemma kmalloc_from_spec s G fls i c size b s' :
  heap_inv s G fls → mm_caches s !! i = Some c → size ≤ sc_obj_size c →
  kmalloc_from (Z.of_nat i) s = Ret (b, s') → malloc_post s G fls size b s'.
Proof.
  intros [Hc Hcnt] Hi Hsize Hrun. unfold kmalloc_from in Hrun.
  rewrite (bind_Ret _ _ _ _ _ (get_cache_run s i c Hi)) in Hrun.
  destruct (slab_size_range i _ (sizes_lookup _ _ _ _ _ Hc Hi)) as [Hi8 Hsz].
  destruct (caches_total _ _ _ i Hc Hi8) as [_ [fl Hf]].
  apply bind_Ret_inv in Hrun as ([] & s1 & Hfill & Hrun).
  destruct (refill_if_empty s G fls i c fl s1 (conj Hc Hcnt) Hi Hf Hfill)
    as (G1 & c1 & b1 & fl1 & Hc1 & Hcnt1 & Hi1 & Eo & Hlive & Hold & Hkeep).
  pose proof (lookup_lt_Some _ _ _ Hf).
  assert (<[i := b1 :: fl1]> fls !! i = Some (b1 :: fl1)) as Hf1 by (by rewrite list_lookup_insert_eq).
  destruct (pop_spec s1 G1 _ i c1 b1 fl1 _ Hc1 Hcnt1 eq_refl Hi1 Hf1) as (s2 & Hpop & Hc2 & Hcnt2 & Em & Ep).
  cbv zeta in Hpop. rewrite Hrun in Hpop. injection Hpop as -> ->.
  destruct (pop_live _ _ _ _ _ _ Hc1 Hf1) as (Hb1 & Hb2 & Hb3).
  destruct (hc_class _ _ _ Hc1 i _ b1 Hf1 ltac:(left)) as [n Hn].
  destruct (hc_block _ _ _ Hc1 _ _ _ Hn) as (_ & _ & _ & [(sz & Hsz1 & _ & ->)|(f & k & E & _)]); [|lia].
  rewrite Nat2Z.id, (sizes_lookup _ _ _ _ _ Hc1 Hi1), Eo in Hsz1. injection Hsz1 as <-.
  exists G1, (<[i := fl1]> (<[i := b1 :: fl1]> fls)), (Z.of_nat i), (sc_obj_size c + 8).
  split_and!; try done.
  - lia.
  - by rewrite <- Hlive.
  - intros b'. rewrite Hb3, Hlive. done.
  - eauto.
  - destruct Hkeep. split; rewrite ?Em, ?Ep; done.
Qed.

(** A large block joins the heap: nothing but its own extent changes. *)
Lemma core_add_large s G fls m' f k :
  heap_core s G fls → 0 < f → 1 ≤ k →
  let b := hhdm_offset + f * 4096 + 8 in
  taken (mm_pg s) (b - 8) (k * 4096) →
  (∀ b' c' n', G !! b' = Some (c', n') → b' - 8 + n' ≤ b - 8 ∨ b - 8 + k * 4096 ≤ b' - 8) →
  load32 m' (b - 8) = 8 → load32 m' (b - 4) = k →
  (∀ a, ¬ (b - 8 ≤ a < b) → load8 m' a = load8 (mm_mem s) a) →
  heap_core (set_mem m' s) (<[b := (8, k * 4096)]> G) fls.
Proof.
  intros Hc Hf Hk b Ht Hd Hm1 Hm2 Hm3.
  assert (heap_core (set_mem m' s) G fls) as Hc'.
  { apply core_mem_outside; [done|]. intros b' c' n' a Hb Ha. apply Hm3.
    destruct (Hd _ _ _ Hb); lia. }
  assert (G !! b = None) as Hnone.
  { destruct (G !! b) as [[c' n']|] eqn:E; [exfalso|done].
    pose proof (block_min _ _ _ _ _ _ Hc E). destruct (Hd _ _ _ E); lia. }
  pose proof (hc_hhdm _ _ _ Hc). destruct Hc'. simpl in *. split; simpl; try done.
  - intros i fl b' Hi Hb'. destruct (hc_class0 _ _ _ Hi Hb') as [n Hn]. exists n.
    rewrite lookup_insert_ne; [done|]. intros <-. congruence.
  - intros b' c n. rewrite lookup_insert. case_decide as E; [|by apply hc_block0].
    intros [= <- <-]. subst b'. unfold block_ok. simpl. split_and!; try done; [unfold b; lia|].
    right. exists f, k. split_and!; try done. unfold b. lia.
  - intros b1 c1 n1 b2 c2 n2. rewrite !lookup_insert. repeat case_decide; subst.
    + done.
    + intros [= <- <-] Hb2 _. destruct (Hd _ _ _ Hb2); lia.
    + intros Hb1 [= <- <-] _. destruct (Hd _ _ _ Hb1); lia.
    + by apply hc_disj0.
Qed.

(** A run of free frames is disjoint from every extent. *)
Lemma fresh_run_disjoint p s0 k a n :
  (∀ f, s0 ≤ f < s0 + k → f ∈ fa_free p) → taken p a n → 0 < n → 0 < k →
  a + n ≤ hhdm_offset + s0 * 4096 ∨ hhdm_offset + (s0 + k) * 4096 ≤ a.
Proof.
  intros Hf Ht Hn Hk. destruct (decide (a + n ≤ hhdm_offset + s0 * 4096)); [by left|right].
  destruct (decide (hhdm_offset + (s0 + k) * 4096 ≤ a)); [done|exfalso].
  set (x := Z.max a (hhdm_offset + s0 * 4096)).
  destruct (Ht x) as (_ & _ & Hno); [lia|]. apply Hno, Hf.
  pose proof (proj1 (frame_of_range (frame_of x) x) eq_refl). lia.
Qed.

(** A run of free frames does not meet the blocks. *)
Lemma fresh_run_blocks s G fls f k :
  heap_core s G fls → 1 ≤ k → (∀ g, f ≤ g < f + k → g ∈ fa_free (mm_pg s)) →
  let bb := hhdm_offset + f * 4096 + 8 in
  ∀ b c n, G !! b = Some (c, n) → b - 8 + n ≤ bb - 8 ∨ bb - 8 + k * 4096 ≤ b - 8.
Proof.
  intros Hc Hk Hf bb b c n Hb. pose proof (block_min _ _ _ _ _ _ Hc Hb).
  destruct (hc_block _ _ _ Hc _ _ _ Hb) as (_ & Ht & _).
  destruct (fresh_run_disjoint _ f k (b - 8) n Hf Ht ltac:(lia) ltac:(lia)); unfold bb; lia.
Qed.

(** A block that no free list holds is live once it is recorded. *)
Lemma live_insert s G fls b x b' :
  heap_core s G fls → G !! b = None → live (<[b := x]> G) fls b' ↔ live G fls b' ∨ b' = b.
Proof.
  intros Hc Hnone. unfold live. rewrite lookup_insert. case_decide as E;
    [|split; [by left|intros [?| ->]; [done|congruence]]]. subst b'.
  split; [by right|]. intros _. split; [eauto|]. intros i fl Hi Hin.
  destruct (hc_class _ _ _ Hc _ _ _ Hi Hin) as [n' Hn']. congruence.
Qed.

Lemma kmalloc_large_spec s G fls size b s' :
  heap_inv s G fls → 0 < size ≤ 2 ^ 40 → kmalloc_large size s = Ret (b, s') →
  malloc_post s G fls size b s'.
Proof.
  intros [Hc Hcnt] Hsize Hrun. unfold kmalloc_large in Hrun. cbv zeta in Hrun. unfold HDR in Hrun.
  rewrite (u64_small (size + 8)), u64_sub_l, (u64_small (size + 8 + 4096 - 1)) in Hrun by lia.
  set (k := (size + 8 + 4096 - 1) / 4096) in *.
  assert (size + 8 ≤ k * 4096 ∧ 1 ≤ k ≤ 2 ^ 30) as [Hks Hk].
  { pose proof (Z.div_mod (size + 8 + 4096 - 1) 4096 ltac:(lia)).
    pose proof (Z.mod_pos_bound (size + 8 + 4096 - 1) 4096 ltac:(lia)). unfold k. lia. }
  inv_run Hrun. apply zoom_Ret_inv in Hrun0 as (p' & Hal & ->).
  pose proof (hc_wf _ _ _ Hc) as Hwf. pose proof (hc_hhdm _ _ _ Hc).
  destruct (fa_alloc_n_ok _ k _ _ Hwf ltac:(lia) Hal) as (f & -> & Hf & Hwf' & Hpc & Hfree).
  destruct (Z.eqb_spec (f * 4096) 0); [done|].
  pose proof (fa_free_bound _ _ Hwf (Hf f ltac:(lia))).
  pose proof (fa_free_bound _ _ Hwf (Hf (f + k - 1) ltac:(lia))).
  rewrite (u64_small (f * 4096 + hhdm_offset)), (u32_small k) in Hrun by lia.
  unfold wr32, upd_mem in Hrun. rewrite !bind_modify in Hrun. injection Hrun as <- <-.
  replace (f * 4096 + hhdm_offset + 8) with (hhdm_offset + f * 4096 + 8) by lia.
  set (bb := hhdm_offset + f * 4096 + 8). simpl.
  set (m' := store32 (store32 _ _ _) _ _). set (s1 := set_pg p' s).
  assert (heap_core s1 G fls) as Hc1 by (apply core_set_pg; [done|done|done|intros g; rewrite Hfree; tauto]).
  pose proof (fresh_run_blocks s G fls f k Hc ltac:(lia) Hf) as Hd. fold bb in Hd.
  assert (∀ a, ¬ (bb - 8 ≤ a < bb) → load8 m' a = load8 (mm_mem s1) a) as Hm.
  { intros a Ha. unfold m', store32. rewrite !load8_store_le, !decide_False by (unfold bb in *; lia). done. }
  assert (heap_core (set_mem m' s1) (<[bb := (8, k * 4096)]> G) fls) as Hc2.
  { apply core_add_large; try done; try lia.
    - intros x Hx. unfold bb in Hx. pose proof (proj1 (frame_of_range (frame_of x) x) eq_refl).
      simpl. rewrite Hpc, Hfree. split; [lia|]. split; [lia|]. intros [_ []]. lia.
    - unfold m', load32, store32. rewrite load_le_store_le_ne by (unfold bb; lia).
      replace (f * 4096 + hhdm_offset) with (bb - 8) by (unfold bb; lia).
      rewrite load_le_store_le_eq. done.
    - unfold m', load32, store32. replace (f * 4096 + hhdm_offset + 4) with (bb - 4) by (unfold bb; lia).
      rewrite load_le_store_le_eq. apply Z.mod_small. simpl. lia. }
  assert (G !! bb = None) as Hnone.
  { destruct (G !! bb) as [[c' n']|] eqn:E; [exfalso|done].
    pose proof (block_min _ _ _ _ _ _ Hc E). destruct (Hd _ _ _ E); lia. }
  exists (<[bb := (8, k * 4096)]> G), fls, 8, (k * 4096). split_and!.
  - split; [exact Hc2|]. intros j cj flj Hcj Hfj. by apply (Hcnt j cj flj).
  - apply lookup_insert_eq.
  - lia.
  - intros [[x Hx] _]. congruence.
  - intros b'. by apply (live_insert s).
  - intros b' x _ Hx. rewrite lookup_insert_ne; [done|]. intros <-. congruence.
  - split; simpl; [| |done|].
    + intros a Ha. apply Hm. intros Hin. apply Ha. rewrite (proj2 (frame_of_range f a)); [|unfold bb in *; lia].
      apply Hf. lia.
    + intros g. rewrite Hfree. tauto.
    + intros b' c' n' a [[<- [= <- <-]]|[_ ?]]%lookup_insert_Some Ha; [right|by left].
      pose proof (proj1 (frame_of_range (frame_of a) a) eq_refl). apply Hf. unfold bb in *. lia.
Qed.

Lemma kmalloc_loop_spec n : ∀ i s G fls size b s',
  heap_inv s G fls → 0 < size ≤ 2 ^ 40 → (i + n = 8)%nat →
  kmalloc_loop n (Z.of_nat i) size s = Ret (b, s') → malloc_post s G fls size b s'.
Proof.
  induction n as [|n IH]; intros i s G fls size b s' Hinv Hsize Hin Hrun; simpl in Hrun.
  - by apply kmalloc_large_spec.
  - destruct (caches_total _ _ _ i (proj1 Hinv) ltac:(lia)) as [[c Hi] _].
    rewrite (bind_Ret _ _ _ _ _ (get_cache_run s i c Hi)) in Hrun.
    destruct (Z.ltb_spec (sc_obj_size c) size).
    + apply (IH (S i)); try done; [lia|]. by rewrite Nat2Z.inj_succ.
    + by eapply kmalloc_from_spec.
Qed.

Lemma kmalloc_spec s G fls size b s' :
  heap_inv s G fls → 0 < size ≤ 2 ^ 40 → kmalloc size s = Ret (b, s') →
  malloc_post s G fls size b s'.
Proof.
  intros Hinv Hsize Hrun. unfold kmalloc in Hrun. destruct (Z.eqb_spec size 0); [lia|].
  by apply (kmalloc_loop_spec 8 0).
Qed.

(** A class with a free block, or a frame to carve, always yields a block. *)
Lemma refill_with s G fls i c a p' :
  heap_core s G fls → mm_caches s !! i = Some c → fa_alloc (mm_pg s) = Ret (a, p') → a ≠ 0 →
  ∃ s', slab_refill (Z.of_nat i) s = Ret (tt, s').
Proof.
  intros Hc Hi Hal Ha0.
  destruct (slab_size_range i _ (sizes_lookup _ _ _ _ _ Hc Hi)) as [Hi8 Hsz].
  destruct (caches_total _ _ _ i Hc Hi8) as [_ [fl Hf]].
  assert (pg fa_alloc s = Ret (a, set_pg p' s)) as Hpg by (by apply zoom_Ret).
  destruct (fa_alloc_ok _ _ _ (hc_wf _ _ _ Hc) Hal) as (f & Ea & Hin & _).
  destruct (fresh_frame _ _ _ _ _ Hc Hpg) as (f' & Ef & Hpage & Hc1 & Em & Ec & Ht & Hd & _).
  assert (f' = f) as -> by lia. unfold slab_refill. rewrite (bind_Ret _ _ _ _ _ Hpg).
  destruct (Z.eqb_spec a 0); [done|].
  rewrite Hpage. cbv zeta. unfold upd_mem. rewrite bind_modify.
  set (s2 := set_mem _ _). set (lo := hhdm_offset + f * 4096) in *.
  assert (heap_core s2 G fls) as Hc2.
  { apply core_mem_outside; [done|]. intros b c' n' x Hb Hx. simpl. rewrite load8_memset by lia.
    rewrite decide_False; [done|]. destruct (Hd _ _ _ Hb); lia. }
  rewrite (bind_Ret _ _ _ _ _ (get_cache_run s2 i c Hi)), (u64_small (sc_obj_size c + HDR))
    by (unfold HDR; lia).
  destruct (carve_loop s2 G fls i c fl f Hc2 Hi Hf Ht Hd) as (s3 & Hfor & G' & new & _ & _ & Hg).
  rewrite (bind_Ret _ _ _ _ _ Hfor). destruct (gr_caches _ _ _ _ _ _ _ _ _ Hg c Hi) as [q Hq].
  erewrite upd_cache_run; [eauto|]. rewrite Hq, list_lookup_insert_eq; [done|].
  simpl. by eapply lookup_lt_Some.
Qed.

(** The refill can only fail by a panic. *)
Lemma refill_safe s G fls i c :
  heap_core s G fls → mm_caches s !! i = Some c → safe (slab_refill (Z.of_nat i) s).
Proof.
  intros Hc Hi. pose proof (fa_alloc_safe _ (hc_wf _ _ _ Hc)) as Hs.
  destruct (fa_alloc (mm_pg s)) as [[a p']| | |] eqn:Hal; try done.
  - destruct (decide (a = 0)) as [->|Ha]; [|destruct (refill_with s G fls i c a p' Hc Hi Hal Ha) as [s' ->]; done].
    unfold slab_refill. by rewrite (bind_Ret _ _ _ _ _ (zoom_Ret mm_pg set_pg _ s _ _ Hal)).
  - unfold slab_refill, pg, zoom, bind. by rewrite Hal.
Qed.

Lemma kmalloc_from_with s G fls i c s1 :
  heap_inv s G fls → mm_caches s !! i = Some c →
  (if sc_free c =? 0 then slab_refill (Z.of_nat i) else ret tt) s = Ret (tt, s1) →
  ∃ b s', kmalloc_from (Z.of_nat i) s = Ret (b, s').
Proof.
  intros [Hc Hcnt] Hi Hrun. unfold kmalloc_from. rewrite (bind_Ret _ _ _ _ _ (get_cache_run s i c Hi)).
  destruct (slab_size_range i _ (sizes_lookup _ _ _ _ _ Hc Hi)) as [Hi8 Hsz].
  destruct (caches_total _ _ _ i Hc Hi8) as [_ [fl Hf]].
  assert (∃ c1, mm_caches s1 !! i = Some c1) as (c1 & Hi1).
  { destruct (sc_free c =? 0); [|injection Hrun as <-; eauto].
    destruct (refill_spec _ _ _ _ _ _ _ Hc Hi Hf Hrun) as (G1 & new & p & _ & Eca & _).
    rewrite Eca, list_lookup_insert_eq by (by eapply lookup_lt_Some). eauto. }
  rewrite (bind_Ret _ _ _ _ _ Hrun), (bind_Ret _ _ _ _ _ (get_cache_run s1 i c1 Hi1)).
  cbv zeta. unfold rd64. rewrite bind_gets, (bind_Ret _ _ _ _ _ (upd_cache_run s1 i c1 _ Hi1)).
  erewrite bind_Ret; [unfold ret; eauto|]. apply upd_cache_run. simpl.
  apply list_lookup_insert_eq. by eapply lookup_lt_Some.
Qed.

(** What a small request needs: a free block of its class, or, with none left, a frame from the
    allocator at an address other than 0, which slab_refill takes for "no memory". *)
Lemma kmalloc_from_result s G fls i c :
  heap_inv s G fls → mm_caches s !! i = Some c →
  (∃ b s', kmalloc_from (Z.of_nat i) s = Ret (b, s') ∧
     (sc_free c ≠ 0 ∨ ∃ a p', fa_alloc (mm_pg s) = Ret (a, p') ∧ a ≠ 0)) ∨
  (∃ msg, kmalloc_from (Z.of_nat i) s = Panic msg ∧ sc_free c = 0 ∧
     (fa_alloc (mm_pg s) = Panic msg ∨ ∃ p', fa_alloc (mm_pg s) = Ret (0, p'))).
Proof.
  intros Hinv Hi. pose proof (proj1 Hinv) as Hc.
  destruct (Z.eqb_spec (sc_free c) 0) as [E0|E0].
  2:{ left. destruct (kmalloc_from_with s G fls i c s Hinv Hi) as (b & s' & E); [|by eauto 10].
      rewrite (proj2 (Z.eqb_neq _ _) E0). done. }
  pose proof (fa_alloc_safe _ (hc_wf _ _ _ Hc)) as Hs.
  assert (∀ msg, slab_refill (Z.of_nat i) s = Panic msg → kmalloc_from (Z.of_nat i) s = Panic msg) as Hp.
  { intros msg E. unfold kmalloc_from. rewrite (bind_Ret _ _ _ _ _ (get_cache_run s i c Hi)), E0.
    change (0 =? 0) with true. cbv iota. by rewrite (bind_Panic _ _ _ _ E). }
  destruct (fa_alloc (mm_pg s)) as [[a p']|msg| |] eqn:Hal; try done.
  - destruct (decide (a = 0)) as [->|Ha].
    + right. eexists. split_and!; [apply Hp|done|by eauto].
      unfold slab_refill. by rewrite (bind_Ret _ _ _ _ _ (zoom_Ret mm_pg set_pg _ s _ _ Hal)).
    + left. destruct (refill_with s G fls i c a p' Hc Hi Hal Ha) as [s1 E1].
      destruct (kmalloc_from_with s G fls i c s1 Hinv Hi) as (b & s' & E); [|by eauto 10].
      rewrite E0. done.
  - right. exists msg. split_and!; [apply Hp|done|by left].
    unfold slab_refill, pg, zoom, bind. by rewrite Hal.
Qed.

Lemma kmalloc_from_safe s G fls i c :
  heap_inv s G fls → mm_caches s !! i = Some c → safe (kmalloc_from (Z.of_nat i) s).
Proof.
  intros Hinv Hi. pose proof (refill_safe _ _ _ _ _ (proj1 Hinv) Hi) as Hs.
  destruct ((if sc_free c =? 0 then slab_refill (Z.of_nat i) else ret tt) s) as [[[] s1]|msg| |] eqn:E.
  - destruct (kmalloc_from_with _ _ _ _ _ _ Hinv Hi E) as (b & s' & ->). done.
  - unfold kmalloc_from. rewrite (bind_Ret _ _ _ _ _ (get_cache_run s i c Hi)).
    by rewrite (bind_Panic _ _ _ _ E).
  - destruct (sc_free c =? 0); [by rewrite E in Hs|done].
  - destruct (sc_free c =? 0); [by rewrite E in Hs|done].
Qed.

(** The class of a small request: the first one whose blocks are large enough. *)
Definition class_for (s : mm_state P) (size : Z) (i : nat) (c : slab_cache) : Prop :=
  mm_caches s !! i = Some c ∧ size ≤ sc_obj_size c ∧
  ∀ j c', (j < i)%nat → mm_caches s !! j = Some c' → sc_obj_size c' < size.

Lemma class_for_unique s size i c j c' : class_for s size i c → class_for s size j c' → i = j ∧ c = c'.
Proof.
  intros (Hi & Hsi & Hli) (Hj & Hsj & Hlj).
  destruct (Nat.lt_trichotomy i j) as [H|[->|H]].
  - pose proof (Hlj _ _ H Hi). lia.
  - split; [done|]. congruence.
  - pose proof (Hli _ _ H Hj). lia.
Qed.

Lemma kmalloc_loop_class n : ∀ i s G fls size,
  heap_core s G fls → size ≤ 2048 → (i + n = 8)%nat → (0 < n)%nat →
  (∀ j c', (j < i)%nat → mm_caches s !! j = Some c' → sc_obj_size c' < size) →
  ∃ k c, class_for s size k c ∧ kmalloc_loop n (Z.of_nat i) size s = kmalloc_from (Z.of_nat k) s.
Proof.
  induction n as [|n IH]; intros i s G fls size Hc Hsize Hin Hn Hsmall; [lia|]. simpl.
  destruct (caches_total _ _ _ i Hc ltac:(lia)) as [[c Hi] _].
  rewrite (bind_Ret _ _ _ _ _ (get_cache_run s i c Hi)).
  destruct (Z.ltb_spec (sc_obj_size c) size); [|by exists i, c].
  replace (Z.of_nat i + 1) with (Z.of_nat (S i)) by lia. destruct n as [|n].
  - pose proof (sizes_lookup _ _ _ _ _ Hc Hi) as Hs. replace i with 7%nat in Hs by lia.
    injection Hs as Hs. lia.
  - eapply IH; eauto; [lia|lia|]. intros j c' Hj Hcj.
    destruct (decide (j = i)) as [->|]; [congruence|]. apply (Hsmall j c'); [lia|done].
Qed.

Lemma kmalloc_small s G fls size :
  heap_core s G fls → 0 < size ≤ 2048 →
  ∃ i c, class_for s size i c ∧ kmalloc size s = kmalloc_from (Z.of_nat i) s.
Proof.
  intros Hc Hs. unfold kmalloc. destruct (Z.eqb_spec size 0); [lia|].
  apply (kmalloc_loop_class 8 0 s G fls); [done|lia|lia|lia|lia].
Qed.

Lemma kmalloc_large_safe s G fls size :
  heap_core s G fls → 0 < size ≤ 2 ^ 40 → safe (kmalloc_large size s).
Proof.
  intros Hc Hsize. unfold kmalloc_large. cbv zeta. unfold HDR.
  rewrite (u64_small (size + 8)), u64_sub_l, (u64_small (size + 8 + 4096 - 1)) by lia.
  apply safe_bind.
  - apply safe_zoom, fa_alloc_n_safe; [apply (hc_wf _ _ _ Hc)|].
    pose proof (Z.div_mod (size + 8 + 4096 - 1) 4096 ltac:(lia)).
    pose proof (Z.mod_pos_bound (size + 8 + 4096 - 1) 4096 ltac:(lia)). lia.
  - intros phys s1 _. by destruct (phys =? 0).
Qed.

Lemma kmalloc_loop_safe n : ∀ i s G fls size,
  heap_inv s G fls → 0 < size ≤ 2 ^ 40 → (i + n = 8)%nat → safe (kmalloc_loop n (Z.of_nat i) size s).
Proof.
  induction n as [|n IH]; intros i s G fls size Hinv Hsize Hin; simpl.
  - eapply kmalloc_large_safe; [apply Hinv|done].
  - destruct (caches_total _ _ _ i (proj1 Hinv) ltac:(lia)) as [[c Hi] _].
    rewrite (bind_Ret _ _ _ _ _ (get_cache_run s i c Hi)).
    destruct (sc_obj_size c <? size); [|by eapply kmalloc_from_safe].
    replace (Z.of_nat i + 1) with (Z.of_nat (S i)) by lia. eapply IH; eauto. lia.
Qed.

Lemma kmalloc_safe s G fls size :
  heap_inv s G fls → 0 < size ≤ 2 ^ 40 → safe (kmalloc size s).
Proof.
  intros Hinv Hsize. unfold kmalloc. destruct (size =? 0); [done|].
  by eapply (kmalloc_loop_safe 8 0).
Qed.

(** ** kfree *)

(** The contract of a release: the block leaves the set of blocks in use, and
    no other block in use changes. *)
(** kfree changes memory and frees frames only inside the block. *)
Record free_effect (s : mm_state P) (G : gmap Z (Z * Z)) (b : Z) (s' : mm_state P) (G' : gmap Z (Z * Z)) : Prop := {
  fe_sub : G' ⊆ G;
  fe_count : fa_count (mm_pg s') = fa_count (mm_pg s);
  fe_mem : ∀ a, (∀ c n, G !! b = Some (c, n) → ¬ (b - 8 ≤ a < b - 8 + n)) → load8 (mm_mem s') a = load8 (mm_mem s) a;
  fe_free : ∀ g, g ∈ fa_free (mm_pg s') →
    g ∈ fa_free (mm_pg s) ∨ ∃ c n a, G !! b = Some (c, n) ∧ b - 8 ≤ a < b - 8 + n ∧ frame_of a = g;
  fe_zero : 0 ∉ fa_free (mm_pg s) → 0 ∉ fa_free (mm_pg s');
  fe_mono : fa_free (mm_pg s) ⊆ fa_free (mm_pg s');
}.

Definition free_post (s : mm_state P) (G : gmap Z (Z * Z)) (fls : list (list Z))
    (b : Z) (s' : mm_state P) : Prop :=
  ∃ G' fls', heap_inv s' G' fls' ∧ (∀ b', live G' fls' b' ↔ live G fls b' ∧ b' ≠ b) ∧
    (∀ b' x, live G' fls' b' → G !! b' = Some x → G' !! b' = Some x) ∧
    (∀ b' c n a, G !! b' = Some (c, n) → b' ≠ b → b' - 8 ≤ a < b' - 8 + n →
      load8 (mm_mem s') a = load8 (mm_mem s) a) ∧ free_effect s G b s' G'.

(** Putting a block in use back at the head of the list of its class. *)
Lemma core_push s G fls i c fl b n m' :
  heap_core s G fls → mm_caches s !! i = Some c → fls !! i = Some fl →
  G !! b = Some (Z.of_nat i, n) → live G fls b →
  m' = store64 (mm_mem s) b (sc_free c) →
  heap_core (mkMm (mm_pg s) m' (<[i := add_used (-1) (with_free b c)]> (mm_caches s)))
    G (<[i := b :: fl]> fls).
Proof.
  intros Hc Hi Hf Hb [_ Hlive] ->. pose proof (lookup_lt_Some _ _ _ Hi). pose proof (lookup_lt_Some _ _ _ Hf).
  pose proof (block_min _ _ _ _ _ _ Hc Hb). pose proof (block_addr _ _ _ _ _ _ Hc Hb).
  set (m' := store64 _ _ _).
  assert (∀ a, ¬ (b ≤ a < b + 8) → load8 m' a = load8 (mm_mem s) a) as Hm.
  { intros a Ha. unfold m', store64. rewrite load8_store_le, decide_False by lia. done. }
  assert (heap_core (set_mem m' s) G fls) as Hc'.
  { apply core_frame_mem; [done| |].
    - intros b' c' n' Hb'. destruct (decide (b' = b)) as [->|Hne].
      + split; apply load_le_ext; intros a Ha; apply Hm; lia.
      + pose proof (hc_disj _ _ _ Hc _ _ _ _ _ _ Hb' Hb Hne). pose proof (block_min _ _ _ _ _ _ Hc Hb').
        split; apply load_le_ext; intros a Ha; apply Hm; lia.
    - intros j flj b' Hj Hb'. destruct (hc_class _ _ _ Hc _ _ _ Hj Hb') as [n' Hn'].
      assert (b' ≠ b) as Hne by (intros ->; by apply (Hlive _ _ Hj)).
      pose proof (hc_disj _ _ _ Hc _ _ _ _ _ _ Hn' Hb Hne). pose proof (block_min _ _ _ _ _ _ Hc Hn').
      apply load_le_ext. intros a Ha. apply Hm. lia. }
  pose proof (free_head_range _ _ _ _ _ Hc Hi).
  destruct Hc'. simpl in *. split; simpl; try done.
  - rewrite list_fmap_insert. simpl. rewrite list_insert_id; [done|]. by rewrite list_lookup_fmap, Hi.
  - by rewrite length_insert.
  - intros j cj flj Hcj Hfj. destruct (decide (i = j)) as [<-|].
    + ins_eq Hcj. ins_eq Hfj. simpl. split; [done|]. split; [lia|]. unfold m'.
      rewrite load64_store64_eq by done. by eapply hc_lists0.
    + ins_ne Hcj. ins_ne Hfj. eauto.
  - intros j flj b' Hfj Hb'. destruct (decide (i = j)) as [<-|].
    + ins_eq Hfj. apply elem_of_cons in Hb' as [->|Hb']; eauto.
    + ins_ne Hfj. eauto.
  - intros j flj Hfj. destruct (decide (i = j)) as [<-|].
    + ins_eq Hfj. apply NoDup_cons. split; [by apply (Hlive i)|eauto].
    + ins_ne Hfj. eauto.
Qed.

Lemma push_live G fls i fl b b' :
  fls !! i = Some fl → live G (<[i := b :: fl]> fls) b' ↔ live G fls b' ∧ b' ≠ b.
Proof.
  intros Hf. pose proof (lookup_lt_Some _ _ _ Hf). unfold live. split.
  - intros [HG Hno]. assert (b' ∉ b :: fl) as Hn by (apply (Hno i); by rewrite list_lookup_insert_eq).
    apply not_elem_of_cons in Hn as [Hne Hn]. split; [|done]. split; [done|].
    intros j flj Hj. destruct (decide (i = j)) as [<-|]; [by simplify_eq|].
    apply (Hno j). by rewrite list_lookup_insert_ne.
  - intros [[HG Hno] Hne]. split; [done|]. intros j flj Hj. destruct (decide (i = j)) as [<-|].
    + ins_eq Hj. apply not_elem_of_cons. eauto.
    + ins_ne Hj. eauto.
Qed.

(** The two halves of the slab paths as rewriting rules. *)
Lemma kfree_push_run s b i c :
  b ≠ 0 → load32 (mm_mem s) (b - 8) = Z.of_nat i → (i < 8)%nat → mm_caches s !! i = Some c →
  kfree b s = Ret (tt, mkMm (mm_pg s) (store64 (mm_mem s) b (sc_free c))
                         (<[i := add_used (-1) (with_free b c)]> (mm_caches s))).
Proof.
  intros Hb Hhdr Hi8 Hi. pose proof (lookup_lt_Some _ _ _ Hi).
  unfold kfree. destruct (Z.eqb_spec b 0); [done|]. cbv zeta. unfold rd32, HDR. rewrite bind_gets, Hhdr.
  unfold SLAB_CLASS_COUNT. destruct (Z.eqb_spec (Z.of_nat i) 8); [lia|].
  destruct (Z.leb_spec 8 (Z.of_nat i)); [lia|]. rewrite (bind_Ret _ _ _ _ _ (get_cache_run s i c Hi)).
  unfold wr64, upd_mem. rewrite bind_modify. set (s1 := set_mem _ s).
  rewrite (bind_Ret _ _ _ _ _ (upd_cache_run s1 i c _ Hi)). set (s2 := set_caches _ s1).
  rewrite (upd_cache_run s2 i (with_free b c)) by (simpl; by rewrite list_lookup_insert_eq).
  unfold s2, s1, set_caches. simpl. by rewrite list_insert_insert_eq.
Qed.

Lemma kmalloc_from_pop_run s i c :
  mm_caches s !! i = Some c → sc_free c ≠ 0 →
  kmalloc_from (Z.of_nat i) s =
    Ret (sc_free c, set_caches (<[i := add_used 1 (with_free (load64 (mm_mem s) (sc_free c)) c)]>
                                  (mm_caches s)) s).
Proof.
  intros Hi Hne. pose proof (lookup_lt_Some _ _ _ Hi). unfold kmalloc_from.
  rewrite (bind_Ret _ _ _ _ _ (get_cache_run s i c Hi)). destruct (Z.eqb_spec (sc_free c) 0); [done|].
  rewrite bind_ret, (bind_Ret _ _ _ _ _ (get_cache_run s i c Hi)). cbv zeta. unfold rd64.
  rewrite bind_gets, (bind_Ret _ _ _ _ _ (upd_cache_run s i c _ Hi)).
  erewrite bind_Ret; [|apply upd_cache_run; simpl; by apply list_lookup_insert_eq].
  unfold ret, set_caches. simpl. by rewrite list_insert_insert_eq.
Qed.

Lemma kfree_small_spec s G fls b i n :
  heap_inv s G fls → G !! b = Some (Z.of_nat i, n) → (i < 8)%nat → live G fls b →
  ∃ s', kfree b s = Ret (tt, s') ∧ free_post s G fls b s'.
Proof.
  intros [Hc Hcnt] Hb Hi8 Hlive. pose proof (block_addr _ _ _ _ _ _ Hc Hb).
  destruct (caches_total _ _ _ i Hc Hi8) as [[c Hi] [fl Hf]].
  pose proof (lookup_lt_Some _ _ _ Hi). pose proof (lookup_lt_Some _ _ _ Hf).
  destruct (hc_block _ _ _ Hc _ _ _ Hb) as (Hhdr & _).
  eexists. split; [apply (kfree_push_run s b i c); [lia|done|done|done]|].
  exists G, (<[i := b :: fl]> fls). split_and!; [split| | | |].
  - by eapply core_push.
  - intros j cj flj Hcj Hfj. simpl in Hcj. destruct (decide (i = j)) as [<-|].
    + ins_eq Hcj. ins_eq Hfj. specialize (Hcnt _ _ _ Hi Hf). simpl in Hcnt |- *. rewrite u64_sub_r.
      replace (sc_total c - (sc_used c + -1)) with (sc_total c - sc_used c + 1) by lia.
      rewrite <- u64_add_l, Hcnt, u64_add_l. f_equal. lia.
    + ins_ne Hcj. ins_ne Hfj. exact (Hcnt _ _ _ Hcj Hfj).
  - intros b'. by apply push_live.
  - done.
  - intros b' c' n' a Hb' Hne Ha. simpl. unfold store64. rewrite load8_store_le, decide_False; [done|].
    pose proof (hc_disj _ _ _ Hc _ _ _ _ _ _ Hb' Hb Hne). pose proof (block_min _ _ _ _ _ _ Hc Hb). lia.
  - split; simpl; try done; [|by left]. intros a Ha. specialize (Ha _ _ Hb). unfold store64. rewrite load8_store_le, decide_False; [done|].
    pose proof (block_min _ _ _ _ _ _ Hc Hb). lia.
Qed.

(** Releasing a large block gives its frames back. *)
Lemma core_remove_large s G fls b f k p' :
  heap_core s G fls → G !! b = Some (8, k * 4096) → b - 8 = hhdm_offset + f * 4096 →
  fa_wf p' → fa_count p' = fa_count (mm_pg s) →
  (∀ g, g ∈ fa_free p' ↔ g ∈ fa_free (mm_pg s) ∨ f ≤ g < f + k) →
  heap_core (set_pg p' s) (delete b G) fls.
Proof.
  intros Hc Hb Haddr Hwf' Hpc Hfree. assert (Hd := hc_disj _ _ _ Hc).
  destruct Hc. split; simpl; try done.
  - by rewrite Hpc.
  - intros i fl b' Hi Hin. destruct (hc_class0 _ _ _ Hi Hin) as [n Hn]. exists n.
    rewrite lookup_delete_ne; [done|]. intros <-. rewrite Hb in Hn. injection Hn as Hn _.
    apply lookup_lt_Some in Hi. lia.
  - intros b' c n [Hne Hb']%lookup_delete_Some. destruct (hc_block0 _ _ _ Hb') as (H1 & Ht & H2).
    split; [done|]. split; [|done]. intros x Hx. destruct (Ht x Hx) as (? & ? & Hno). simpl.
    split; [done|]. rewrite Hpc. split; [done|]. rewrite Hfree. intros [|Hg]; [done|].
    pose proof (proj1 (frame_of_range (frame_of x) x) eq_refl).
    destruct (Hd _ _ _ _ _ _ Hb Hb' Hne); lia.
  - intros b1 c1 n1 b2 c2 n2 [_ H1]%lookup_delete_Some [_ H2]%lookup_delete_Some. by eapply Hd.
Qed.

Lemma kfree_large_spec s G fls b n :
  heap_inv s G fls → G !! b = Some (8, n) → live G fls b →
  ∃ s' k, kfree b s = Ret (tt, s') ∧ free_post s G fls b s' ∧ n = k * 4096 ∧
    ∀ g, g ∈ fa_free (mm_pg s') ↔
         g ∈ fa_free (mm_pg s) ∨ frame_of (b - 8) ≤ g < frame_of (b - 8) + k.
Proof.
  intros [Hc Hcnt] Hb Hlive. pose proof (block_addr _ _ _ _ _ _ Hc Hb). pose proof (hc_hhdm _ _ _ Hc).
  destruct (hc_block _ _ _ Hc _ _ _ Hb) as (Hhdr & Ht & _ & [(?&_&?&_)|(f & k & _ & -> & Hpad & Hk & Haddr & Hf)]);
    [lia|].
  assert (frame_of (b - 8) = f) as Efr by (apply frame_of_range; lia).
  assert (f + k ≤ fa_count (mm_pg s) ∧ ∀ g, f ≤ g < f + k → g ∉ fa_free (mm_pg s)) as [Hfk Hrun].
  { assert (∀ g, f ≤ g < f + k → g < fa_count (mm_pg s) ∧ g ∉ fa_free (mm_pg s)) as HH.
    { intros g Hg. destruct (Ht (hhdm_offset + g * 4096)) as (_ & H1 & H2); [lia|].
      rewrite (proj2 (frame_of_range g _)) in H1, H2 by lia. done. }
    split; [destruct (HH (f + k - 1)); lia|]. intros g Hg. by apply HH. }
  destruct (fa_free_n_ok _ f k (hc_wf _ _ _ Hc) Hf ltac:(lia) Hfk Hrun) as (p' & Hfr & Hwf' & Hpc & Hfree).
  exists (set_pg p' s), k. rewrite Efr. split_and!; [|exists (delete b G), fls; split_and!|done|done].
  - unfold kfree. destruct (Z.eqb_spec b 0); [lia|]. cbv zeta. unfold rd32, HDR. rewrite bind_gets, Hhdr.
    change (8 =? SLAB_CLASS_COUNT) with true. cbv match. rewrite bind_gets.
    replace (b - 8 + 4) with (b - 4) by lia. rewrite Hpad.
    replace (b - 8 - hhdm_offset) with (f * 4096) by lia.
    pose proof (fa_bound _ (hc_wf _ _ _ Hc)). rewrite u64_small by lia. by apply zoom_Ret.
  - split; [by eapply core_remove_large|]. intros j cj flj Hcj Hfj. exact (Hcnt _ _ _ Hcj Hfj).
  - intros b'. unfold live. rewrite lookup_delete. case_decide as E; [|by intuition].
    subst. split; [by intros [[? ?] _]|by intros [_ []]].
  - intros b' x [[y [Hne _]%lookup_delete_Some] _] Hx. by rewrite lookup_delete_ne.
  - done.
  - split; simpl; try done; [apply delete_subseteq| |intros Hz [?|?]%Hfree; [done|lia]|intros g Hg; apply Hfree; by left]. intros g [Hg|Hg]%Hfree; [by left|]. right.
    exists 8, (k * 4096), (hhdm_offset + g * 4096). split; [done|]. split; [lia|]. apply frame_of_range. lia.
Qed.

(** kfree of any block in use. *)
Lemma kfree_live s G fls b :
  heap_inv s G fls → live G fls b → ∃ s', kfree b s = Ret (tt, s') ∧ free_post s G fls b s'.
Proof.
  intros Hinv Hlive. destruct (proj1 Hlive) as [[c n] Hb].
  destruct (hc_block _ _ _ (proj1 Hinv) _ _ _ Hb) as (_ & _ & _ & [(sz & _ & Hc & _)|(f & k & -> & _)]).
  - apply (kfree_small_spec s G fls b (Z.to_nat c) n); [done| |lia|done]. by rewrite Z2Nat.id by lia.
  - destruct (kfree_large_spec s G fls b n Hinv Hb Hlive) as (s' & k' & ? & ? & _). eauto.
Qed.

(** ** The heap and its clients

    A client holds blocks, [O] maps each to the size it asked for; it may
    allocate, release a block it holds, and write inside the blocks it holds. *)
Inductive heap_step : mm_state P * gmap Z Z → mm_state P * gmap Z Z → Prop :=
| hs_malloc s O size b s' :
    0 < size ≤ 2 ^ 40 → kmalloc size s = Ret (b, s') → heap_step (s, O) (s', <[b := size]> O)
| hs_free s O b size s' :
    O !! b = Some size → kfree b s = Ret (tt, s') → heap_step (s, O) (s', delete b O)
| hs_write s O b size a v :
    O !! b = Some size → b ≤ a < b + size →
    heap_step (s, O) (set_mem (store8 (mm_mem s) a v) s, O).

Record client_ok (c : mm_state P * gmap Z Z) (G : gmap Z (Z * Z)) (fls : list (list Z)) : Prop := {
  co_inv : heap_inv c.1 G fls;
  co_live : ∀ b, live G fls b ↔ is_Some (c.2 !! b);
  co_room : ∀ b size, c.2 !! b = Some size → 0 < size ∧ ∃ cl n, G !! b = Some (cl, n) ∧ size + 8 ≤ n;
}.

Lemma client_malloc s O G fls size b s' :
  client_ok (s, O) G fls → 0 < size → malloc_post s G fls size b s' →
  ∃ G' fls', client_ok (s', <[b := size]> O) G' fls'.
Proof.
  intros [Hinv Hlive Hroom] Hs (G' & fls' & c & n & Hinv' & Hb & Hn & Hnl & Hl' & Hold & _).
  exists G', fls'. split; [done| |]; simpl in *.
  - intros b'. rewrite Hl', Hlive. rewrite lookup_insert. case_decide as E.
    + subst. split; [eauto|by right].
    + split; [by intros [|]|by left].
  - intros b' size' Hb'. apply lookup_insert_Some in Hb' as [[<- <-]|[Hne Hb']]; [eauto|].
    destruct (Hroom _ _ Hb') as (? & cl & n' & HG & ?). split; [done|]. exists cl, n'.
    split; [|done]. apply Hold; [|done]. apply Hlive. eauto.
Qed.

Lemma client_kfree s O G fls b s' :
  client_ok (s, O) G fls → free_post s G fls b s' → ∃ G' fls', client_ok (s', delete b O) G' fls'.
Proof.
  intros [Hinv Hlive Hroom] (G' & fls' & Hinv' & Hl' & Hold & _).
  exists G', fls'. split; [done| |]; simpl in *.
  - intros b'. rewrite Hl', Hlive, lookup_delete. case_decide; [|by intuition].
    subst. split; [by intros [_ []]|by intros [? ?]].
  - intros b' size' [Hne Hb']%lookup_delete_Some. destruct (Hroom _ _ Hb') as (? & cl & n' & HG & ?).
    split; [done|]. exists cl, n'. split; [|done]. apply Hold; [|done]. apply Hl'. split; [|done].
    apply Hlive. eauto.
Qed.

(** Writes inside a block in use, and outside all blocks, keep the heap. *)
Lemma core_write_live s G fls b c n m' :
  heap_core s G fls → live G fls b → G !! b = Some (c, n) →
  (∀ b' c' n' a, G !! b' = Some (c', n') → b' - 8 ≤ a < b' - 8 + n' → ¬ (b ≤ a < b - 8 + n) →
     load8 m' a = load8 (mm_mem s) a) →
  heap_core (set_mem m' s) G fls.
Proof.
  intros Hc [_ Hno] Hb Hm. pose proof (block_min _ _ _ _ _ _ Hc Hb). apply core_frame_mem; [done| |].
  - intros b' c' n' Hb'. pose proof (block_min _ _ _ _ _ _ Hc Hb').
    assert (b = b' ∨ (b + n ≤ b' ∨ b' + n' ≤ b)) as Hd.
    { destruct (decide (b = b')); [by left|right]. by eapply (hc_disj _ _ _ Hc). }
    assert (b = b' → n' = n) by (intros ->; congruence).
    split; apply load_le_ext; intros x Hx; apply (Hm b' c' n'); try done; lia.
  - intros i fl b' Hi Hin. destruct (hc_class _ _ _ Hc _ _ _ Hi Hin) as [n' Hb'].
    pose proof (block_min _ _ _ _ _ _ Hc Hb').
    assert (b ≠ b') as Hne by (intros <-; by apply (Hno _ _ Hi)).
    pose proof (hc_disj _ _ _ Hc _ _ _ _ _ _ Hb Hb' Hne).
    apply load_le_ext. intros x Hx. apply (Hm b' (Z.of_nat i) n'); [done|lia|lia].
Qed.

Lemma client_write s O G fls b size a v :
  client_ok (s, O) G fls → O !! b = Some size → b ≤ a < b + size →
  client_ok (set_mem (store8 (mm_mem s) a v) s, O) G fls.
Proof.
  intros [[Hc Hcnt] Hlive Hroom] HO Ha. destruct (Hroom _ _ HO) as (Hpos & cl & n & Hb & Hn). simpl in *.
  split; simpl; [split| |]; try done.
  eapply core_write_live; [done|apply Hlive; eauto|done|].
  intros b' c' n' x _ _ Hx. rewrite load8_store8, decide_False; [done|lia].
Qed.

Lemma heap_step_ok c c' :
  heap_step c c' → (∃ G fls, client_ok c G fls) → ∃ G fls, client_ok c' G fls.
Proof.
  intros Hstep (G & fls & Hok).
  destruct Hstep as [s O size b s' Hs Hrun|s O b size s' HO Hrun|s O b size a v HO Ha].
  - eapply client_malloc; [done|lia|]. apply kmalloc_spec; [apply Hok|done|done].
  - eapply client_kfree; [done|].
    destruct (kfree_live s G fls b) as (s1 & Hrun1 & Hpost); [apply Hok|apply Hok; simpl; eauto|].
    rewrite Hrun in Hrun1. by injection Hrun1 as <-.
  - exists G, fls. by eapply client_write.
Qed.

(** slab_init establishes the invariant with no block at all. *)
Lemma slab_init_ok s :
  fa_wf (mm_pg s) → 0 < hhdm_offset → hhdm_offset + fa_count (mm_pg s) * 4096 ≤ W64 →
  ∃ s', slab_init s = Ret (tt, s') ∧ mm_pg s' = mm_pg s ∧
    client_ok (s', ∅) ∅ (replicate 8 []).
Proof.
  intros Hwf H1 H2. eexists. split; [done|]. split; [done|].
  assert (∀ (i : nat) (c : slab_cache), ((λ sz, mkCache 0 sz 0 0) <$> SLAB_SIZES) !! i = Some c →
    sc_free c = 0 ∧ sc_total c = 0 ∧ sc_used c = 0) as Hz.
  { intros i c (sz & -> & _)%list_lookup_fmap_Some. done. }
  assert (∀ i (fl : list Z), replicate 8 [] !! i = Some fl → fl = []) as Hr.
  { by intros i fl [-> _]%lookup_replicate. }
  split; simpl; [split; [split; simpl|]| |]; try done.
  - intros i c fl Hi Hf. rewrite (Hr _ _ Hf). by destruct (Hz _ _ Hi).
  - intros i fl b Hf. rewrite (Hr _ _ Hf). by intros ?%not_elem_of_nil.
  - intros i fl Hf. rewrite (Hr _ _ Hf). constructor.
  - intros i c fl Hi Hf. rewrite (Hr _ _ Hf). by destruct (Hz _ _ Hi) as (_ & -> & ->).
  - intros b. split; [by intros [[? ?] _]|by intros [? ?]].
Qed.

End Heap.
