(* ===== verification/HeapThms.v ===== *)
(** * Theorems about the kernel heap

    The properties of heap.c are proved for any frame allocator that keeps the
    promises of [FrameAllocator]; the witnesses run the heap on pmm.c with the
    direct map at 0xffff800000000000. *)

From S2P Require Import Prelude ByteMem FrameAlloc Pmm Heap.

(** ** A concrete machine *)

#[export] Instance demo_boot : Boot := {| hhdm_offset := 0xffff800000000000 |}.

Definition demo_mm : mm_state pmm_state := mkMm demo_pmm ∅ [].

(** The state after slab_init, and after an allocation in it. *)
Definition demo_heap : mm_state pmm_state := state_of demo_mm (slab_init demo_mm).
Definition demo_block : Z := 0xffff800000002fe0.
Definition demo_heap1 : mm_state pmm_state := state_of demo_heap (kmalloc 16 demo_heap).

Lemma demo_wf : fa_wf (mm_pg demo_mm) ∧ 0 < hhdm_offset ∧
  hhdm_offset + fa_count (mm_pg demo_mm) * 4096 ≤ W64.
Proof. split; [apply demo_pmm_wf|]. vm_compute. split; [reflexivity|intros H; discriminate H]. Qed.

Lemma demo_heap_inv : heap_inv demo_heap ∅ (replicate 8 []).
Proof.
  destruct demo_wf as (H1 & H2 & H3).
  destruct (slab_init_ok demo_mm H1 H2 H3) as (s' & Hrun & _ & Hok).
  unfold demo_heap. rewrite Hrun. exact (co_inv _ _ _ Hok).
Qed.

Lemma demo_kmalloc : kmalloc 16 demo_heap = Ret (demo_block, demo_heap1).
Proof. apply run_value. vm_compute. reflexivity. Qed.

Section HeapTheorems.
Context {P : Type} `{FA : FrameAllocator P} `{B : Boot}.

(** C2. Whatever a client does after slab_init (allocations, releases of
    blocks it holds, writes inside blocks it holds), the blocks it holds never
    overlap, headers included; each lies in the direct map, in frames the frame
    allocator does not consider free; and releasing any of them succeeds. *)
Theorem heap_blocks_disjoint (s0 s1 s : mm_state P) (O : gmap Z Z) :
  fa_wf (mm_pg s0) → 0 < hhdm_offset → hhdm_offset + fa_count (mm_pg s0) * 4096 ≤ W64 →
  slab_init s0 = Ret (tt, s1) → rtc heap_step (s1, ∅) (s, O) →
  (∀ b1 n1 b2 n2, O !! b1 = Some n1 → O !! b2 = Some n2 → b1 ≠ b2 →
     b1 + n1 ≤ b2 - 8 ∨ b2 + n2 ≤ b1 - 8) ∧
  (∀ b n a, O !! b = Some n → b - 8 ≤ a < b + n →
     hhdm_offset ≤ a ∧ frame_of a < fa_count (mm_pg s) ∧ frame_of a ∉ fa_free (mm_pg s)) ∧
  (∀ b n, O !! b = Some n → ∃ s', kfree b s = Ret (tt, s')).
Proof.
  intros Hwf H1 H2 Hinit Hrtc. destruct (slab_init_ok s0 Hwf H1 H2) as (s1' & Hinit' & _ & Hok0).
  rewrite Hinit in Hinit'. injection Hinit' as <-.
  assert (∃ G fls, client_ok (s, O) G fls) as (G & fls & [Hinv Hlive Hroom]).
  { eapply (rtc_ind_r (λ c, ∃ G fls, client_ok c G fls)); [by eauto| |exact Hrtc].
    intros c c' _ ? ?. by eapply heap_step_ok. }
  simpl in *. split_and!.
  - intros b1 n1 b2 n2 HO1 HO2 Hne. destruct (Hroom _ _ HO1) as (? & c1 & m1 & HG1 & ?).
    destruct (Hroom _ _ HO2) as (? & c2 & m2 & HG2 & ?).
    destruct (hc_disj _ _ _ (proj1 Hinv) _ _ _ _ _ _ HG1 HG2 Hne); lia.
  - intros b n a HO Ha. destruct (Hroom _ _ HO) as (? & c & m & HG & ?).
    destruct (hc_block _ _ _ (proj1 Hinv) _ _ _ HG) as (_ & Ht & _). apply Ht. lia.
  - intros b n HO. destruct (kfree_live s G fls b) as (s' & ? & _); eauto. apply Hlive. eauto.
Qed.

(** C32. kmalloc, on every heap and for every size up to 2^40: whenever it
    returns, the block was not in use, has room for the request, is added to the
    blocks in use while every other one stays in use with its extent, and no
    byte of any existing block changes; the heap invariant holds again. *)
Theorem kmalloc_correct (s s' : mm_state P) (G : gmap Z (Z * Z)) (fls : list (list Z)) (size b : Z) :
  heap_inv s G fls → 0 < size ≤ 2 ^ 40 → kmalloc size s = Ret (b, s') →
  ∃ G' fls' c n, heap_inv s' G' fls' ∧ G' !! b = Some (c, n) ∧ size + 8 ≤ n ∧ ¬ live G fls b ∧
    (∀ b', live G' fls' b' ↔ live G fls b' ∨ b' = b) ∧
    (∀ b' x, live G fls b' → G !! b' = Some x → G' !! b' = Some x) ∧
    (∀ b' c' n' a, G !! b' = Some (c', n') → b' - 8 ≤ a < b' - 8 + n' →
       load8 (mm_mem s') a = load8 (mm_mem s) a).
Proof.
  intros Hinv Hs Hrun.
  destruct (kmalloc_spec _ _ _ _ _ _ Hinv Hs Hrun) as (G' & fls' & c & n & H1 & H2 & H3 & H4 & H5 & H6 & H7).
  exists G', fls', c, n. split_and!; try done. intros b' c' n' a. by apply (alloc_frame_blocks s s' G G' fls); [apply Hinv|].
Qed.

(** C34. A small request succeeds exactly when its class, the first whose blocks are large
    enough, has a free block, or the page allocator hands out a frame whose address is not 0; so
    it succeeds whenever some frame is free and frame 0 is not (with frame 0 free the allocator
    may hand out address 0, which slab_refill takes for "no memory"). *)
Theorem kmalloc_small_total (s : mm_state P) (G : gmap Z (Z * Z)) (fls : list (list Z)) (size : Z) :
  heap_inv s G fls → 0 < size ≤ 2048 →
  ((∃ b s', kmalloc size s = Ret (b, s')) ↔
   (∃ i c, class_for s size i c ∧ sc_free c ≠ 0) ∨ (∃ a p', fa_alloc (mm_pg s) = Ret (a, p') ∧ a ≠ 0)) ∧
  (fa_free (mm_pg s) ≠ ∅ → 0 ∉ fa_free (mm_pg s) → ∃ b s', kmalloc size s = Ret (b, s')).
Proof.
  intros Hinv Hs. destruct (kmalloc_small _ _ _ _ (proj1 Hinv) Hs) as (i & c & Hcl & ->).
  destruct (kmalloc_from_result s G fls i c Hinv (proj1 Hcl)) as [(b & s' & E & H)|(msg & E & H0 & H)]; rewrite E.
  - split; [|by eauto]. split; [intros _|by eauto]. destruct H; [left; by eauto|by right].
  - assert (∀ a p', fa_alloc (mm_pg s) = Ret (a, p') → a = 0) as Hz.
    { intros a p' Hal. destruct H as [H|(p2 & H)]; rewrite H in Hal; [done|by injection Hal]. }
    assert (fa_free (mm_pg s) ≠ ∅ → 0 ∉ fa_free (mm_pg s) → False) as Hno.
    { intros Hne Hn0. destruct (fa_alloc_total _ (hc_wf _ _ _ (proj1 Hinv)) Hne) as (a & p' & Hal).
      destruct (fa_alloc_ok _ _ _ (hc_wf _ _ _ (proj1 Hinv)) Hal) as (f & Ea & Hf & _).
      apply Hn0. pose proof (Hz _ _ Hal). replace 0 with f by lia. done. }
    split; [|intros; exfalso; by apply Hno]. split; [by intros (b & s' & [=])|].
    intros [(j & c' & Hj & Hne)|(a & p' & Hal & Ha)]; exfalso; [|by apply Ha, (Hz a p')].
    destruct (class_for_unique _ _ _ _ _ _ Hcl Hj) as [_ <-]. done.
Qed.

(** C33. kmalloc never faults and never loops, on any heap and for any size up
    to 2^40: it returns a block, or panics for want of memory.  On a small request it panics only
    when the class of the request has no free block and either no frame is free, or the page
    allocator hands out frame 0, which slab_refill takes for "no memory". *)
Theorem kmalloc_error (s : mm_state P) (G : gmap Z (Z * Z)) (fls : list (list Z)) (size : Z) :
  heap_inv s G fls → 0 < size ≤ 2 ^ 40 →
  (∃ b s', kmalloc size s = Ret (b, s')) ∨
  (∃ msg, kmalloc size s = Panic msg ∧
     (size ≤ 2048 →
        (∃ i c, class_for s size i c ∧ sc_free c = 0) ∧
        (fa_free (mm_pg s) = ∅ ∨
         0 ∈ fa_free (mm_pg s) ∧ ∃ p', fa_alloc (mm_pg s) = Ret (0, p')))).
Proof.
  intros Hinv Hs. pose proof (kmalloc_safe _ _ _ _ Hinv Hs) as Hsafe.
  destruct (kmalloc size s) as [[b s']|msg| |] eqn:E; [by left; eauto|right|done..].
  exists msg. split; [done|]. intros H2. pose proof (proj1 Hinv) as Hc.
  destruct (kmalloc_small s G fls size Hc ltac:(lia)) as (i & c & Hcl & E2). rewrite E2 in E.
  destruct (kmalloc_from_result s G fls i c Hinv (proj1 Hcl)) as [(b & s' & E' & _)|(m' & _ & H0 & H)].
  { rewrite E' in E. done. }
  split; [by eauto|]. destruct H as [H|(p' & H)].
  - left. destruct (decide (fa_free (mm_pg s) = ∅)) as [|Hne]; [done|].
    destruct (fa_alloc_total _ (hc_wf _ _ _ Hc) Hne) as (a & p' & Hal). rewrite Hal in H. done.
  - right. destruct (fa_alloc_ok _ _ _ (hc_wf _ _ _ Hc) H) as (f & Ea & Hf & _).
    split; [|by eauto]. replace 0 with f by lia. done.
Qed.

(** kfree undoes kmalloc: releasing the block just obtained succeeds, the
    blocks in use are again exactly those from before, and the bytes of every
    block that was in use are untouched by the pair of calls. *)
Theorem kmalloc_kfree_roundtrip (s s1 : mm_state P) (G : gmap Z (Z * Z)) (fls : list (list Z))
    (size b : Z) :
  heap_inv s G fls → 0 < size ≤ 2 ^ 40 → kmalloc size s = Ret (b, s1) →
  ∃ s2 G2 fls2, kfree b s1 = Ret (tt, s2) ∧ heap_inv s2 G2 fls2 ∧
    (∀ b', live G2 fls2 b' ↔ live G fls b') ∧
    (∀ b' c' n' a, live G fls b' → G !! b' = Some (c', n') → b' - 8 ≤ a < b' - 8 + n' →
       load8 (mm_mem s2) a = load8 (mm_mem s) a).
Proof.
  intros Hinv Hs Hrun.
  destruct (kmalloc_spec _ _ _ _ _ _ Hinv Hs Hrun) as (G1 & fls1 & c & n & Hinv1 & Hb & _ & Hnl & Hl1 & Hold & Hk).
  destruct (kfree_live s1 G1 fls1 b Hinv1) as (s2 & Hfree & G2 & fls2 & Hinv2 & Hl2 & _ & Hk2 & _).
  { apply Hl1. by right. }
  exists s2, G2, fls2. split_and!; [done|done| |].
  - intros b'. rewrite Hl2, Hl1. split; [tauto|]. intros Hl. split; [by left|]. by intros ->.
  - intros b' c' n' a Hl HG Ha. rewrite (Hk2 b' c' n'); [|by eapply Hold| |done].
    { apply (alloc_frame_blocks s s1 G G1 fls b' c' n'); [apply Hinv|done..]. }
   
    by intros ->.
Qed.

(** A large block's frames come back: kfree of a block of the large class
    makes exactly the frames of its extent free again. *)
Theorem kfree_large_returns_frames (s : mm_state P) (G : gmap Z (Z * Z)) (fls : list (list Z)) (b n : Z) :
  heap_inv s G fls → G !! b = Some (SLAB_CLASS_COUNT, n) → live G fls b →
  ∃ s', kfree b s = Ret (tt, s') ∧
    ∀ g, g ∈ fa_free (mm_pg s') ↔
         g ∈ fa_free (mm_pg s) ∨ frame_of (b - 8) ≤ g < frame_of (b - 8) + n / 4096.
Proof.
  intros Hinv Hb Hl. destruct (kfree_large_spec s G fls b n Hinv Hb Hl) as (s' & k & ? & _ & -> & ?).
  exists s'. by rewrite Z.div_mul by lia.
Qed.

(** A double free of a slab block goes unnoticed, although the panic
    message of kfree mentions it: afterwards two allocations of the class hand
    out the same block. *)
Theorem kfree_double_free_unnoticed (s : mm_state P) (G : gmap Z (Z * Z)) (fls : list (list Z))
    (b : Z) (i : nat) (n : Z) :
  heap_inv s G fls → G !! b = Some (Z.of_nat i, n) → (i < 8)%nat → live G fls b →
  ∃ s', (kfree b ;;; kfree b ;;;
         x <- kmalloc_from (Z.of_nat i) ;; y <- kmalloc_from (Z.of_nat i) ;; ret (x, y)) s
        = Ret ((b, b), s').
Proof.
  intros [Hc _] Hb Hi8 Hlive. pose proof (block_addr _ _ _ _ _ _ Hc Hb).
  destruct (caches_total _ _ _ i Hc Hi8) as [[c Hi] _]. pose proof (lookup_lt_Some _ _ _ Hi).
  destruct (hc_block _ _ _ Hc _ _ _ Hb) as (Hhdr & _).
  rewrite (bind_Ret _ _ _ _ _ (kfree_push_run s b i c ltac:(lia) Hhdr Hi8 Hi)).
  erewrite bind_Ret; [|eapply (kfree_push_run _ b i); [lia| |done|simpl; by apply list_lookup_insert_eq]].
  2:{ simpl. rewrite <- Hhdr. apply load_le_ext. intros a Ha. unfold store64.
      rewrite load8_store_le, decide_False by lia. done. }
  erewrite bind_Ret; [|apply kmalloc_from_pop_run; simpl;
    [apply list_lookup_insert_eq; by rewrite length_insert|simpl; lia]].
  simpl. erewrite bind_Ret; [|apply kmalloc_from_pop_run; simpl;
    [apply list_lookup_insert_eq; by rewrite !length_insert|simpl; rewrite load64_store64_eq; lia]].
  simpl. rewrite load64_store64_eq by lia. unfold ret. eauto.
Qed.

End HeapTheorems.

(** ** heap.c implements the interface of its clients *)

#[export] Program Instance heap_obj_heap {P} `{FA : FrameAllocator P} `{B : Boot} : ObjHeap (mm_state P) := {
  oh_malloc := kmalloc;
  oh_free := kfree;
  oh_rep s L := ∃ G fls, heap_inv s G fls ∧ ∀ b, live G fls b ↔ L b;
}.
Next Obligation. done. Qed.
Next Obligation.
  intros P FA B s L size p s' (G & fls & Hinv & HL) Hs Hrun.
  destruct (kmalloc_spec _ _ _ _ _ _ Hinv Hs Hrun) as (G' & fls' & c & n & Hinv' & Hb & _ & Hnl & Hl & _).
  pose proof (block_addr _ _ _ _ _ _ (proj1 Hinv') Hb). split; [lia|]. split; [by rewrite <- HL|].
  exists G', fls'. split; [done|]. intros b. by rewrite Hl, HL.
Qed.
Next Obligation. intros P FA B s L size (G & fls & Hinv & _). by eapply kmalloc_safe. Qed.
Next Obligation. done. Qed.
Next Obligation.
  intros P FA B s L p (G & fls & Hinv & HL) Hp.
  destruct (kfree_live s G fls p Hinv (proj2 (HL p) Hp)) as (s' & Hrun & G' & fls' & Hinv' & Hl & _).
  exists s'. split; [done|]. exists G', fls'. split; [done|]. intros b. by rewrite Hl, HL.
Qed.
Next Obligation.
  intros P FA B s L L' (G & fls & Hinv & HL) HLL. exists G, fls. split; [done|]. intros b. by rewrite HL.
Qed.

(** ** Witnesses *)

Lemma heap_blocks_disjoint_witness : ∃ s', kfree demo_block demo_heap1 = Ret (tt, s').
Proof.
  destruct (heap_blocks_disjoint demo_mm demo_heap demo_heap1 (<[demo_block := 16]> ∅)) as (_ & _ & H).
  - apply demo_wf.
  - apply demo_wf.
  - apply demo_wf.
  - reflexivity.
  - apply rtc_once. constructor; [lia|apply demo_kmalloc].
  - eapply H, lookup_insert_eq.
Defined.

Lemma kmalloc_correct_witness : ∃ G' fls', heap_inv demo_heap1 G' fls' ∧ live G' fls' demo_block.
Proof.
  destruct (kmalloc_correct demo_heap demo_heap1 ∅ (replicate 8 []) 16 demo_block)
    as (G' & fls' & c & n & Hinv & _ & _ & _ & Hl & _);
    [apply demo_heap_inv|lia|apply demo_kmalloc|].
  exists G', fls'. split; [exact Hinv|]. apply Hl. right. reflexivity.
Defined.

Lemma kmalloc_small_total_witness : ∃ b s', kmalloc 2048 demo_heap = Ret (b, s').
Proof.
  apply (kmalloc_small_total demo_heap ∅ (replicate 8 [])); [apply demo_heap_inv|lia| |].
  - apply (non_empty_inhabited_L 0x10f). apply (bool_decide_unpack _). vm_compute. exact I.
  - apply (bool_decide_unpack _). vm_compute. exact I.
Defined.

Lemma kmalloc_kfree_roundtrip_witness :
  ∃ s2 G2 fls2, kfree demo_block demo_heap1 = Ret (tt, s2) ∧ heap_inv s2 G2 fls2.
Proof.
  destruct (kmalloc_kfree_roundtrip demo_heap demo_heap1 ∅ (replicate 8 []) 16 demo_block)
    as (s2 & G2 & fls2 & H1 & H2 & _); [apply demo_heap_inv|lia|apply demo_kmalloc|eauto].
Defined.

Definition demo_large : Z := 0xffff800000002008.
Definition demo_heap2 : mm_state pmm_state := state_of demo_heap (kmalloc 5000 demo_heap).

Lemma demo_kmalloc_large : kmalloc 5000 demo_heap = Ret (demo_large, demo_heap2).
Proof. apply run_value. vm_compute. reflexivity. Qed.

Lemma kfree_large_returns_frames_witness :
  ∃ s', kfree demo_large demo_heap2 = Ret (tt, s') ∧ 3 ∈ free_frames (mm_pg s').
Proof.
  destruct (kmalloc_spec demo_heap ∅ (replicate 8 []) 5000 demo_large demo_heap2 demo_heap_inv
    ltac:(lia) demo_kmalloc_large) as (G' & fls' & c & n & Hinv & Hb & Hn & _ & Hl & _).
  destruct (hc_block _ _ _ (proj1 Hinv) _ _ _ Hb) as (Hh & _ & _ & Hcl).
  assert (c = 8) as -> by (rewrite <- Hh; vm_compute; reflexivity).
  destruct (kfree_large_returns_frames demo_heap2 G' fls' demo_large n Hinv Hb) as (s' & H1 & H2).
  { apply Hl. right. reflexivity. }
  exists s'. split; [exact H1|]. apply H2. right.
  change (frame_of (demo_large - 8)) with 2. split; [lia|].
  destruct Hcl as [(sz & _ & ? & _)|(f & k & _ & -> & _)]; [lia|]. rewrite Z.div_mul by lia. lia.
Defined.

Lemma kfree_double_free_unnoticed_witness : ∃ s',
  (kfree demo_block ;;; kfree demo_block ;;;
   x <- kmalloc_from 0 ;; y <- kmalloc_from 0 ;; ret (x, y)) demo_heap1
  = Ret ((demo_block, demo_block), s').
Proof.
  destruct (kmalloc_spec demo_heap ∅ (replicate 8 []) 16 demo_block demo_heap1 demo_heap_inv
    ltac:(lia) demo_kmalloc) as (G' & fls' & c & n & Hinv & Hb & Hn & _ & Hl & _).
  destruct (hc_block _ _ _ (proj1 Hinv) _ _ _ Hb) as (Hh & _).
  assert (c = 0) as -> by (rewrite <- Hh; vm_compute; reflexivity).
  apply (kfree_double_free_unnoticed demo_heap1 G' fls' demo_block 0 n Hinv Hb); [lia|].
  apply Hl. right. reflexivity.
Defined.

(** The size of a large request wraps: asking for 2^64 - 4 bytes succeeds
    and yields a block of a single frame. *)
Theorem kmalloc_size_wraps : ∃ s',
  kmalloc (W64 - 4) demo_heap = Ret (demo_large, s') ∧ load32 (mm_mem s') (demo_large - 4) = 1.
Proof.
  exists (state_of demo_heap (kmalloc (W64 - 4) demo_heap)). split.
  - apply run_value. vm_compute. reflexivity.
  - vm_compute. reflexivity.
Qed.

(** A machine whose memory map has a usable entry at address 0, too small for the bitmap
    (the documentation of the boot loader rules such an entry out; pmm_init does not), under
    256 KiB at 128 MiB: pmm_init leaves frame 0 free, pmm_alloc_page hands it out first, and
    kmalloc of 16 bytes panics although other frames are free. *)
Definition zero_mmap : list memmap_entry :=
  [mkEntry 0 0x1000 0; mkEntry 0x1000 0x7fff000 1; mkEntry 0x8000000 0x40000 0].
Definition zero_pmm : pmm_state :=
  state_of pmm_boot (pmm_init 0xffffffff80000000 0xffffffff80003000 0xffff800000000000 zero_mmap
                       0x8010000 0x8020000 5000 pmm_boot).
Definition zero_heap : mm_state pmm_state := state_of (mkMm zero_pmm ∅ []) (slab_init (mkMm zero_pmm ∅ [])).

Lemma zero_heap_inv : heap_inv zero_heap ∅ (replicate 8 []).
Proof.
  destruct (slab_init_ok (mkMm zero_pmm ∅ [])) as (s' & Hrun & _ & Hok).
  - split; [vm_compute; split; intros H; discriminate H|vm_compute; reflexivity| |
            vm_compute; split; intros H; discriminate H].
    apply (bool_decide_unpack _). vm_compute. exact I.
  - vm_compute. reflexivity.
  - vm_compute. intros H; discriminate H.
  - unfold zero_heap. rewrite Hrun. exact (co_inv _ _ _ Hok).
Qed.

Theorem kmalloc_frame_zero_panics :
  heap_inv zero_heap ∅ (replicate 8 []) ∧ 0x8030 ∈ fa_free (mm_pg zero_heap) ∧
  kmalloc 16 zero_heap = Panic "heap.c: slab_refill() -> out of memory".
Proof.
  split; [apply zero_heap_inv|split; [|vm_compute; reflexivity]].
  change (fa_free (mm_pg zero_heap)) with (free_frames (mm_pg zero_heap)). apply elem_of_free_frames.
  vm_compute. repeat split; intros H; discriminate H.
Qed.

Lemma kmalloc_error_witness :
  ((∃ b s', kmalloc 5000 demo_heap = Ret (b, s')) ∨ (∃ msg, kmalloc 5000 demo_heap = Panic msg)) ∧
  (fa_free (mm_pg zero_heap) = ∅ ∨ 0 ∈ fa_free (mm_pg zero_heap)).
Proof.
  split.
  - destruct (kmalloc_error demo_heap ∅ (replicate 8 []) 5000) as [H|(msg & H & _)];
      [apply demo_heap_inv|lia|left; exact H|right; exists msg; exact H].
  - destruct (kmalloc_error zero_heap ∅ (replicate 8 []) 16) as [(b & s' & E)|(msg & _ & H)];
      [apply zero_heap_inv|lia|vm_compute in E; discriminate E|].
    destruct (H ltac:(lia)) as [_ [H1|[H1 _]]]; [left|right]; exact H1.
Defined.
