(* ===== verification/Vmm.v ===== *)
(** * The virtual memory manager (src/mm/vmm.c)

    Four-level page tables in the byte memory, reached through the direct map.
    The CPU's part of the code (the TLB invalidations, the fences) has no
    counterpart here; CR3 is a field of the state. *)

From S2P Require Import Prelude ByteMem FrameAlloc Heap.

Definition PAGE_PRESENT : Z := Z.shiftl 1 0.
Definition PAGE_WRITE : Z := Z.shiftl 1 1.
Definition PAGE_USER : Z := Z.shiftl 1 2.
Definition PAGE_PWT : Z := Z.shiftl 1 3.
Definition PAGE_PCD : Z := Z.shiftl 1 4.
Definition PAGE_ACCESSED : Z := Z.shiftl 1 5.
Definition PAGE_DIRTY : Z := Z.shiftl 1 6.
Definition PAGE_HUGE : Z := Z.shiftl 1 7.
Definition PAGE_NX : Z := Z.shiftl 1 63.

Definition VMM_FLAGS_KERNEL_RW : Z := Z.lor (Z.lor PAGE_PRESENT PAGE_WRITE) PAGE_NX.
Definition VMM_FLAGS_KERNEL_RX : Z := PAGE_PRESENT.
Definition VMM_FLAGS_USER_RW : Z :=
  Z.lor (Z.lor (Z.lor PAGE_PRESENT PAGE_WRITE) PAGE_USER) PAGE_NX.

Definition PML4_IDX (virt : Z) : Z := Z.land (Z.shiftr virt 39) 0x1ff.
Definition PDPT_IDX (virt : Z) : Z := Z.land (Z.shiftr virt 30) 0x1ff.
Definition PD_IDX (virt : Z) : Z := Z.land (Z.shiftr virt 21) 0x1ff.
Definition PT_IDX (virt : Z) : Z := Z.land (Z.shiftr virt 12) 0x1ff.

Definition ENTRY_TO_PHYS (entry : Z) : Z := Z.land entry (not64 0xfff).

(** [*e & PAGE_PRESENT] as a condition. *)
Definition present (e : Z) : bool := negb (Z.land e PAGE_PRESENT =? 0).

(** addr_space_t *)
Record addr_space := mkSpace { as_pml4 : Z; as_pml4_phys : Z }.

(** The state vmm.c works on: the memory subsystem, the global
    [kernel_addr_space] and the register CR3. *)
Record vm_state (P : Type) := mkVm { vm_mm : mm_state P; kernel_addr_space : addr_space; cr3 : Z }.
Arguments mkVm {P} _ _ _.
Arguments vm_mm {P} _.
Arguments kernel_addr_space {P} _.
Arguments cr3 {P} _.

(** ** Bits of an entry *)

Lemma land_page_mask e : 0 ≤ e < W64 → Z.land e (not64 0xfff) = e / 4096 * 4096.
Proof.
  intros He. change 4096 with (2 ^ 12). rewrite <- Z.shiftr_div_pow2, <- Z.shiftl_mul_pow2 by lia.
  apply Z.bits_inj'. intros i Hi. rewrite Z.land_spec, not64_testbit, Z.shiftl_spec by lia.
  change 0xfff with (Z.ones 12). destruct (Z.ltb_spec i 12).
  - rewrite Z.ones_spec_low, !andb_false_r by lia. by rewrite Z.testbit_neg_r by lia.
  - rewrite Z.ones_spec_high, Z.shiftr_spec by lia. replace (i - 12 + 12) with i by lia.
    destruct (Z.ltb_spec i 64); [by rewrite andb_true_r|]. by rewrite testbit_high.
Qed.

Lemma lor_low g k : 0 ≤ k < 4096 → Z.lor (g * 4096) k = g * 4096 + k.
Proof.
  intros Hk. rewrite <- Z.add_lor_land. replace (Z.land (g * 4096) k) with 0; [lia|].
  symmetry. apply Z.bits_inj'. intros i Hi. rewrite Z.land_spec, Z.bits_0.
  change 4096 with (2 ^ 12) in *. rewrite <- Z.shiftl_mul_pow2, Z.shiftl_spec by lia.
  destruct (Z.ltb_spec i 12); [by rewrite Z.testbit_neg_r by lia|].
  by rewrite (testbit_bounded k 12), andb_false_r by lia.
Qed.

Lemma land_511 x : Z.land x 0x1ff = x mod 512.
Proof. change 0x1ff with (Z.ones 9). by rewrite Z.land_ones by lia. Qed.

Lemma land_4095 x : Z.land x 0xfff = x mod 4096.
Proof. change 0xfff with (Z.ones 12). by rewrite Z.land_ones by lia. Qed.

Lemma present_odd e : present e = Z.odd e.
Proof.
  unfold present, PAGE_PRESENT. change (Z.shiftl 1 0) with (Z.ones 1).
  rewrite Z.land_ones by lia. change (2 ^ 1) with 2.
  rewrite Zmod_odd. by destruct (Z.odd e).
Qed.

Lemma table_entry g :
  0 ≤ g → g * 4096 < W64 →
  let e := Z.lor (Z.lor (Z.lor (g * 4096) PAGE_PRESENT) PAGE_WRITE) PAGE_USER in
  0 ≤ e < W64 ∧ present e = true ∧ ENTRY_TO_PHYS e = g * 4096.
Proof.
  intros H0 Hg e. assert (e = g * 4096 + 7) as ->.
  { unfold e. rewrite <- !Z.lor_assoc. by apply (lor_low g 7). }
  assert (g * 4096 + 7 < W64) by lia. split; [lia|]. split.
  - rewrite present_odd, Z.odd_add, Z.odd_mul. simpl. by rewrite andb_false_r.
  - unfold ENTRY_TO_PHYS. rewrite land_page_mask by lia. rewrite Z.div_add_l by lia.
    rewrite (Z.div_small 7) by lia. lia.
Qed.

Section Vmm.
Context {P : Type} `{FA : FrameAllocator P} `{B : Boot}.

Abbreviation MM := (M (mm_state P)).
Abbreviation VM := (M (vm_state P)).

Definition next_table (entry : Z) : Z := ENTRY_TO_PHYS entry +64 hhdm_offset.

(** One level of vmm_get_pte: the entry at [ptr], if absent, either stops the
    walk (NULL) or receives a fresh zeroed table; [msg] is the level's panic. *)
Definition walk_level (msg : string) (alloc : bool) (ptr : Z) : MM (option Z) :=
  e <- rd64 ptr ;;
  if present e then ret (Some (next_table e))
  else if negb alloc then ret None
  else
    phys <- pg fa_alloc ;;
    if phys =? 0 then panic msg
    else
      let table := phys +64 hhdm_offset in
      upd_mem (λ m, memset m table 0 4096) ;;;
      wr64 ptr (Z.lor (Z.lor (Z.lor phys PAGE_PRESENT) PAGE_WRITE) PAGE_USER) ;;;
      e <- rd64 ptr ;;
      ret (Some (next_table e)).

(** &table[idx] *)
Definition entry_ptr (table idx : Z) : Z := table +64 (8 * idx).

(** The returned pointer is 0 for NULL. *)
Definition vmm_get_pte (space : addr_space) (virt : Z) (alloc : bool) : MM Z :=
  r <- walk_level "vmm.c: vmm_get_pte() -> out of memory allocating PDPT" alloc
         (entry_ptr (as_pml4 space) (PML4_IDX virt)) ;;
  match r with
  | None => ret 0
  | Some pdpt =>
      r <- walk_level "vmm.c: vmm_get_pte() -> out of memory allocating PD" alloc
             (entry_ptr pdpt (PDPT_IDX virt)) ;;
      match r with
      | None => ret 0
      | Some pd =>
          r <- walk_level "vmm.c: vmm_get_pte() -> out of memory allocating PT" alloc
                 (entry_ptr pd (PD_IDX virt)) ;;
          match r with
          | None => ret 0
          | Some pt => ret (entry_ptr pt (PT_IDX virt))
          end
      end
  end.

(** The results through [phys_out] and [flags_out] are a pair; [None] is -1. *)
Definition vmm_get_mapping (space : addr_space) (virt : Z) : MM (option (Z * Z)) :=
  pte <- vmm_get_pte space virt false ;;
  if pte =? 0 then ret None
  else
    e <- rd64 pte ;;
    if negb (present e) then ret None
    else ret (Some (ENTRY_TO_PHYS e, Z.land e 0xfff)).

Definition vmm_map_page (space : addr_space) (virt phys flags : Z) : MM unit :=
  pte <- vmm_get_pte space virt true ;;
  if pte =? 0 then panic "vmm.c: vmm_map_page() -> walk returned NULL during map"
  else wr64 pte (Z.lor (Z.land phys (not64 0xfff)) (Z.lor flags PAGE_PRESENT)).

Definition vmm_unmap_page (space : addr_space) (virt : Z) : MM unit :=
  pte <- vmm_get_pte space virt false ;;
  if pte =? 0 then panic "vmm.c: vmm_unmap_page() -> unmapping a page that isn't mapped"
  else
    e <- rd64 pte ;;
    if negb (present e) then panic "vmm.c: vmm_unmap_page() -> unmapping a page that isn't mapped"
    else wr64 pte 0.

Definition set_vm_mm (m : mm_state P) (s : vm_state P) : vm_state P :=
  mkVm m (kernel_addr_space s) (cr3 s).
Definition in_mm {A} (m : MM A) : VM A := zoom vm_mm set_vm_mm m.

(** [for (i = 256; i < 512; i++) dst[i] = src[i]] *)
Definition copy_upper_half (dst src : Z) : MM unit :=
  for_up 256 256 512 1 (λ i, e <- rd64 (entry_ptr src i) ;; wr64 (entry_ptr dst i) e).

Definition vmm_init : VM unit :=
  phys <- in_mm (pg fa_alloc) ;;
  if phys =? 0 then panic "vmm.c: vmm_init() -> phys is NULL"
  else
    modify (λ s, mkVm (vm_mm s) (mkSpace (phys +64 hhdm_offset) phys) (cr3 s)) ;;;
    pml4 <- gets (λ s, as_pml4 (kernel_addr_space s)) ;;
    in_mm (upd_mem (λ m, memset m pml4 0 4096)) ;;;
    old <- gets cr3 ;;
    let limine_pml4 := Z.land old (not64 0xfff) +64 hhdm_offset in
    in_mm (copy_upper_half pml4 limine_pml4) ;;;
    modify (λ s, mkVm (vm_mm s) (kernel_addr_space s) phys).

Definition vmm_switch_space (space : addr_space) : VM unit :=
  modify (λ s, mkVm (vm_mm s) (kernel_addr_space s) (as_pml4_phys space)).

(** *space, for a pointer to a heap-allocated addr_space_t. *)
Definition read_space (m : mem) (p : Z) : addr_space := mkSpace (load64 m p) (load64 m (p + 8)).

(** Returns the pointer to the addr_space_t. *)
Definition vmm_create_user_space : VM Z :=
  space <- in_mm (kmalloc 16) ;;
  if space =? 0 then panic "vmm.c: vmm_create_user_space() -> failed to allocate space"
  else
    phys <- in_mm (pg fa_alloc) ;;
    if phys =? 0 then panic "vmm.c: vmm_create_user_space() -> failed to allocate PML4"
    else
      in_mm (wr64 (space + 8) phys) ;;;
      in_mm (wr64 space (phys +64 hhdm_offset)) ;;;
      sp <- gets (λ s, read_space (mm_mem (vm_mm s)) space) ;;
      in_mm (upd_mem (λ m, memset m (as_pml4 sp) 0 4096)) ;;;
      kpml4 <- gets (λ s, as_pml4 (kernel_addr_space s)) ;;
      in_mm (copy_upper_half (as_pml4 sp) kpml4) ;;;
      ret space.

#[local] Opaque memset.

(** ** The page tables of all address spaces

    [T] gives the frame of every table below the user half of every space: the
    key [(r, l, pre)] is the table of level [l] (3 for the PML4, 0 for a PT) of
    the space whose PML4 is frame [r], for the addresses that start with the
    index prefix [pre]. *)

Abbreviation tables := (gmap (Z * Z * Z) Z).

(** The address of entry [i] of the table in frame [f]. *)
Definition slot (f i : Z) : Z := hhdm_offset + f * 4096 + 8 * i.

Definition entry_child (e : Z) (o : option Z) : Prop :=
  if present e then ∃ g, o = Some g ∧ ENTRY_TO_PHYS e = g * 4096 else o = None.

Record tables_ok (s : mm_state P) (T : tables) : Prop := {
  vt_wf : fa_wf (mm_pg s);
  vt_hhdm : 0 < hhdm_offset ∧ hhdm_offset + fa_count (mm_pg s) * 4096 ≤ W64;
  vt_taken : ∀ k f, T !! k = Some f → 0 < f < fa_count (mm_pg s) ∧ f ∉ fa_free (mm_pg s);
  vt_inj : ∀ k1 k2 f, T !! k1 = Some f → T !! k2 = Some f → k1 = k2;
  vt_root : ∀ r pre f, T !! (r, 3, pre) = Some f → f = r;
  vt_parent : ∀ r l pre f, T !! (r, l, pre) = Some f → l < 3 → is_Some (T !! (r, l + 1, pre / 512));
  vt_entry : ∀ r l pre f i, T !! (r, l, pre) = Some f → 1 ≤ l ≤ 3 → 0 ≤ i < 512 →
    (l = 3 → i < 256) →
    entry_child (load64 (mm_mem s) (slot f i)) (T !! (r, l - 1, pre * 512 + i));
}.

(** The abstract address space: page number to present leaf entry. *)
Definition pte_of (s : mm_state P) (T : tables) (r vpn : Z) : option Z :=
  f ← T !! (r, 0, vpn / 512);
  let e := load64 (mm_mem s) (slot f (vpn mod 512)) in
  if present e then Some e else None.

(** What a walk that may add tables to space [r] leaves alone. *)
Record walk_post (s : mm_state P) (T : tables) (r : Z) (s' : mm_state P) (T' : tables) : Prop := {
  wp_ok : tables_ok s' T';
  wp_ext : T ⊆ T';
  wp_new : ∀ r' l pre f, T' !! (r', l, pre) = Some f →
    T !! (r', l, pre) = Some f ∨ (f ∈ fa_free (mm_pg s) ∧ r' = r ∧ l < 3);
  wp_pte : ∀ r' vpn, pte_of s' T' r' vpn = pte_of s T r' vpn;
  wp_mem : ∀ a, frame_of a ∉ fa_free (mm_pg s) → (∀ l pre, T !! (r, l, pre) ≠ Some (frame_of a)) →
    load8 (mm_mem s') a = load8 (mm_mem s) a;
  wp_upper : ∀ f i, T !! (r, 3, 0) = Some f → 256 ≤ i < 512 →
    load64 (mm_mem s') (slot f i) = load64 (mm_mem s) (slot f i);
  wp_free : ∀ f, f ∈ fa_free (mm_pg s') → f ∈ fa_free (mm_pg s);
  wp_count : fa_count (mm_pg s') = fa_count (mm_pg s);
  wp_caches : mm_caches s' = mm_caches s;
}.

Lemma walk_refl s T r : tables_ok s T → walk_post s T r s T.
Proof. intros H. split; try done. intros. by left. Qed.

Lemma walk_trans s1 T1 s2 T2 s3 T3 r :
  walk_post s1 T1 r s2 T2 → walk_post s2 T2 r s3 T3 → walk_post s1 T1 r s3 T3.
Proof.
  intros [Hok1 Hext1 Hnew1 Hpte1 Hmem1 Hup1 Hfr1 Hcnt1 Hca1] [Hok2 Hext2 Hnew2 Hpte2 Hmem2 Hup2 Hfr2 Hcnt2 Hca2].
  split; try done.
  - by transitivity T2.
  - intros r' l pre f HT. destruct (Hnew2 _ _ _ _ HT) as [HT2|(? & ? & ?)]; [by apply Hnew1|right].
    by eauto.
  - intros r' vpn. by rewrite Hpte2.
  - intros a Ha HT. rewrite Hmem2; [by apply Hmem1| |].
    + intros Hf. by apply Ha, Hfr1.
    + intros l pre HT2. destruct (Hnew1 _ _ _ _ HT2) as [HT1|(? & _)]; [by apply (HT l pre)|done].
  - intros f i HT Hi. rewrite (Hup2 f i); [by apply Hup1| |done]. by eapply lookup_weaken.
  - eauto.
  - by rewrite Hcnt2.
  - by rewrite Hca2.
Qed.

(** Two slots that are not the same are eight bytes apart, and a slot lies in
    its own frame. *)
Lemma slot_frame f i a : 0 ≤ i < 512 → slot f i ≤ a < slot f i + 8 → frame_of a = f.
Proof. intros Hi Ha. unfold slot in Ha. apply frame_of_range. lia. Qed.

Lemma slot_apart f i g j :
  0 ≤ i < 512 → 0 ≤ j < 512 → (f, i) ≠ (g, j) → slot f i + 8 ≤ slot g j ∨ slot g j + 8 ≤ slot f i.
Proof.
  intros Hi Hj Hne. unfold slot. destruct (Z.lt_trichotomy f g) as [?|[->|?]]; [left; lia| |right; lia].
  assert (i ≠ j) by congruence. lia.
Qed.

Lemma slot_bounds s T k f i :
  tables_ok s T → T !! k = Some f → 0 ≤ i < 512 → 0 < slot f i ∧ slot f i + 8 ≤ W64.
Proof.
  intros Hok HT Hi. destruct (vt_taken _ _ Hok _ _ HT). pose proof (vt_hhdm _ _ Hok). unfold slot. lia.
Qed.

Lemma entry_ptr_slot s T k f i :
  tables_ok s T → T !! k = Some f → 0 ≤ i < 512 →
  entry_ptr (hhdm_offset + f * 4096) i = slot f i.
Proof.
  intros Hok HT Hi. pose proof (slot_bounds _ _ _ _ _ Hok HT Hi) as Hb. unfold slot in *.
  unfold entry_ptr. rewrite u64_small; lia.
Qed.

(** Entering a fresh zeroed table [g] at entry [i] of table [f]. *)
Definition grow_mem (m : mem) (f i g e : Z) : mem :=
  store64 (memset m (hhdm_offset + g * 4096) 0 4096) (slot f i) e.

Lemma grow_mem_spec m f i g e :
  0 ≤ i < 512 → f ≠ g → 0 ≤ e < W64 →
  (∀ j, 0 ≤ j < 512 → load64 (grow_mem m f i g e) (slot g j) = 0) ∧
  load64 (grow_mem m f i g e) (slot f i) = e ∧
  (∀ f' j, 0 ≤ j < 512 → f' ≠ g → (f', j) ≠ (f, i) →
     load64 (grow_mem m f i g e) (slot f' j) = load64 m (slot f' j)) ∧
  (∀ a, frame_of a ≠ g → frame_of a ≠ f → load8 (grow_mem m f i g e) a = load8 m a).
Proof.
  intros Hi Hfg He. unfold grow_mem. split_and!.
  - intros j Hj. rewrite load64_store64_ne by (apply slot_apart; [done|done|congruence]).
    apply load_le_zero. intros a Ha. simpl in Ha. rewrite load8_memset, decide_True by (unfold slot in *; lia). done.
  - by apply load64_store64_eq.
  - intros f' j Hj Hf Hne. rewrite load64_store64_ne by (apply slot_apart; congruence || lia).
    apply load_le_ext. intros a Ha. rewrite load8_memset, decide_False; [done| |lia].
    intros Hin. assert (frame_of a = g) by (apply frame_of_range; lia).
    pose proof (slot_frame f' j a Hj ltac:(simpl in Ha; lia)). congruence.
  - intros a Hg Hf. unfold store64. rewrite load8_store_le, decide_False.
    + rewrite load8_memset, decide_False; [done| |lia]. intros Hin. apply Hg, frame_of_range. lia.
    + intros Hin. apply Hf. by apply (slot_frame f i).
Qed.

Lemma grow_ok s T r l pre f i g e p' :
  tables_ok s T → T !! (r, l, pre) = Some f → 1 ≤ l ≤ 3 → 0 ≤ i < 512 → (l = 3 → i < 256) →
  T !! (r, l - 1, pre * 512 + i) = None →
  g ∈ fa_free (mm_pg s) → 0 < g → fa_wf p' → fa_count p' = fa_count (mm_pg s) →
  fa_free p' = fa_free (mm_pg s) ∖ {[g]} →
  0 ≤ e < W64 → present e = true → ENTRY_TO_PHYS e = g * 4096 →
  tables_ok (mkMm p' (grow_mem (mm_mem s) f i g e) (mm_caches s)) (<[(r, l - 1, pre * 512 + i) := g]> T).
Proof.
  intros Hok HT Hl Hi Hil Hnone Hg Hg0 Hwf' Hcnt Hfree He Hpres Hphys.
  pose proof (fa_free_bound _ _ (vt_wf _ _ Hok) Hg).
  assert (∀ k f', T !! k = Some f' → f' ≠ g) as Hfresh.
  { intros k f' Hk ->. by destruct (vt_taken _ _ Hok _ _ Hk). }
  destruct (grow_mem_spec (mm_mem s) f i g e Hi (Hfresh _ _ HT) He) as (Hz & Hs & Ho & _).
  split; simpl.
  - done.
  - rewrite Hcnt. apply Hok.
  - intros k f'. rewrite Hcnt, Hfree, elem_of_difference, elem_of_singleton.
    intros [[<- <-]|[_ HT']]%lookup_insert_Some; [split; [lia|tauto]|].
    destruct (vt_taken _ _ Hok _ _ HT'). tauto.
  - intros k1 k2 f' [[E1 F1]|[_ H1]]%lookup_insert_Some [[E2 F2]|[_ H2]]%lookup_insert_Some.
    + by rewrite <- E1.
    + rewrite <- F1 in H2. by destruct (Hfresh _ _ H2).
    + rewrite <- F2 in H1. by destruct (Hfresh _ _ H1).
    + exact (vt_inj _ _ Hok _ _ _ H1 H2).
  - intros r' pre' f' [[[= -> ? ?] <-]|[_ H1]]%lookup_insert_Some; [lia|]. by eapply (vt_root _ _ Hok).
  - intros r' l' pre' f' [[[= <- <- <-] <-]|[_ H1]]%lookup_insert_Some Hl'.
    + replace (l - 1 + 1) with l by lia. rewrite Z.div_add_l, Z.div_small, Z.add_0_r by lia.
      rewrite lookup_insert_ne by (intros [=]; lia). eauto.
    + destruct (vt_parent _ _ Hok _ _ _ _ H1 Hl') as [x Hx]. rewrite lookup_insert. case_decide; eauto.
  - intros r' l' pre' f' j [[[= <- <- <-] <-]|[_ H1]]%lookup_insert_Some Hl' Hj Hjl.
    + rewrite Hz by done. unfold entry_child. simpl. rewrite lookup_insert_ne by (intros [=]; lia).
      destruct (T !! (r, l - 1 - 1, _)) as [x|] eqn:Ex; [exfalso|done].
      destruct (vt_parent _ _ Hok _ _ _ _ Ex ltac:(lia)) as [y Hy].
      rewrite Z.div_add_l, (Z.div_small j), Z.add_0_r in Hy by lia.
      replace (l - 1 - 1 + 1) with (l - 1) in Hy by lia. congruence.
    + destruct (decide ((f', j) = (f, i))) as [[= -> ->]|Hne].
      * pose proof (vt_inj _ _ Hok _ _ _ HT H1) as [= <- <- <-].
        rewrite Hs, lookup_insert_eq. unfold entry_child. rewrite Hpres. eauto.
      * rewrite (Ho f' j Hj (Hfresh _ _ H1) Hne), lookup_insert_ne; [by apply (vt_entry _ _ Hok)|].
        intros [= <- ? ?]. apply Hne. assert (l' = l) as -> by lia.
        assert (pre' = pre ∧ j = i) as [-> ->] by lia. congruence.
Qed.

Lemma grow_pte s T r l pre f i g e p' r' vpn :
  tables_ok s T → T !! (r, l, pre) = Some f → 1 ≤ l → 0 ≤ i < 512 → 0 ≤ e < W64 →
  T !! (r, l - 1, pre * 512 + i) = None → g ∈ fa_free (mm_pg s) →
  pte_of (mkMm p' (grow_mem (mm_mem s) f i g e) (mm_caches s))
    (<[(r, l - 1, pre * 512 + i) := g]> T) r' vpn = pte_of s T r' vpn.
Proof.
  intros Hok HT Hl Hi He Hnone Hg. pose proof (Z.mod_pos_bound vpn 512 ltac:(lia)).
  assert (∀ k f', T !! k = Some f' → f' ≠ g) as Hfresh.
  { intros k f' Hk ->. by destruct (vt_taken _ _ Hok _ _ Hk). }
  destruct (grow_mem_spec (mm_mem s) f i g e Hi (Hfresh _ _ HT) He) as (Hz & _ & Ho & _).
  unfold pte_of. rewrite lookup_insert. cbn [mm_mem]. case_decide as E.
  - rewrite <- E, Hnone. cbn [mbind option_bind]. rewrite Hz by done. reflexivity.
  - destruct (T !! (r', 0, vpn / 512)) as [f'|] eqn:Ef; [|reflexivity]. cbn [mbind option_bind].
    rewrite Ho; [reflexivity|done|by eapply Hfresh|]. intros [= -> _].
    pose proof (vt_inj _ _ Hok _ _ _ HT Ef) as [= _ ? _]. lia.
Qed.

Lemma grow_walk s T r l pre f i g e p' :
  tables_ok s T → T !! (r, l, pre) = Some f → 1 ≤ l ≤ 3 → 0 ≤ i < 512 → (l = 3 → i < 256) →
  T !! (r, l - 1, pre * 512 + i) = None →
  g ∈ fa_free (mm_pg s) → 0 < g → fa_wf p' → fa_count p' = fa_count (mm_pg s) →
  fa_free p' = fa_free (mm_pg s) ∖ {[g]} →
  0 ≤ e < W64 → present e = true → ENTRY_TO_PHYS e = g * 4096 →
  walk_post s T r (mkMm p' (grow_mem (mm_mem s) f i g e) (mm_caches s))
    (<[(r, l - 1, pre * 512 + i) := g]> T).
Proof.
  intros Hok HT Hl Hi Hil Hnone Hg Hg0 Hwf' Hcnt Hfree He Hpres Hphys.
  assert (f ≠ g) as Hfg by (intros ->; by destruct (vt_taken _ _ Hok _ _ HT)).
  destruct (grow_mem_spec (mm_mem s) f i g e Hi Hfg He) as (_ & _ & Ho & Hm).
  split; simpl; [by apply grow_ok|by apply insert_subseteq| | | | | |done|done].
  - intros r' l' pre' f' [[[= <- <- <-] <-]|[_ H1]]%lookup_insert_Some; [right; split_and!; done || lia|by left].
  - intros. apply grow_pte; done || lia.
  - intros a Ha HTa. apply Hm; [by intros <-|]. intros E. apply (HTa l pre). by rewrite E.
  - intros f' j HT' Hj. apply Ho; [lia| |].
    + intros ->. by destruct (vt_taken _ _ Hok _ _ HT').
    + intros [= -> ->]. pose proof (vt_inj _ _ Hok _ _ _ HT HT') as [= -> _]. lia.
  - intros f' Hf'. rewrite Hfree, elem_of_difference in Hf'. by destruct Hf'.
Qed.

Lemma next_table_ok s T k g e :
  tables_ok s T → T !! k = Some g → ENTRY_TO_PHYS e = g * 4096 →
  next_table e = hhdm_offset + g * 4096.
Proof.
  intros Hok HT He. destruct (vt_taken _ _ Hok _ _ HT). pose proof (vt_hhdm _ _ Hok).
  unfold next_table. rewrite He, u64_small by lia. lia.
Qed.

Lemma walk_level_spec s T r l pre f i msg alloc res s' :
  tables_ok s T → T !! (r, l, pre) = Some f → 1 ≤ l ≤ 3 → 0 ≤ i < 512 → (l = 3 → i < 256) →
  walk_level msg alloc (slot f i) s = Ret (res, s') →
  match res with
  | None => alloc = false ∧ s' = s ∧ T !! (r, l - 1, pre * 512 + i) = None
  | Some t => ∃ g T', t = hhdm_offset + g * 4096 ∧ walk_post s T r s' T' ∧
      T' !! (r, l - 1, pre * 512 + i) = Some g ∧ (alloc = false → s' = s ∧ T' = T)
  end.
Proof.
  intros Hok HT Hl Hi Hil Hrun. unfold walk_level, rd64 in Hrun. rewrite bind_gets in Hrun.
  pose proof (vt_entry _ _ Hok _ _ _ _ _ HT Hl Hi Hil) as Hch. unfold entry_child in Hch.
  destruct (present _).
  { destruct Hch as (g & Hg & Hp). injection Hrun as <- <-. exists g, T.
    split; [by eapply next_table_ok|]. split; [by apply walk_refl|done]. }
  destruct alloc; simpl in Hrun; [|by injection Hrun as <- <-].
  inv_run Hrun. apply zoom_Ret_inv in Hrun0 as (p' & Hal & ->).
  destruct (fa_alloc_ok _ _ _ (vt_wf _ _ Hok) Hal) as (g & -> & Hg & Hwf' & Hcnt & Hfree).
  pose proof (fa_free_bound _ _ (vt_wf _ _ Hok) Hg). pose proof (vt_hhdm _ _ Hok).
  destruct (Z.eqb_spec (g * 4096) 0); [done|].
  rewrite (u64_small (g * 4096 + hhdm_offset)) in Hrun by lia.
  replace (g * 4096 + hhdm_offset) with (hhdm_offset + g * 4096) in Hrun by lia.
  destruct (table_entry g ltac:(lia) ltac:(lia)) as (He & Hpres & Hphys).
  set (e := Z.lor _ _) in *. unfold wr64, upd_mem in Hrun. rewrite !bind_modify, bind_gets in Hrun.
  injection Hrun as <- <-. cbn [set_pg set_mem mm_pg mm_mem mm_caches].
  pose proof (grow_walk s T r l pre f i g e p' Hok HT Hl Hi Hil Hch Hg ltac:(lia) Hwf' Hcnt Hfree
    He Hpres Hphys) as Hw.
  exists g, (<[(r, l - 1, pre * 512 + i) := g]> T).
  rewrite load64_store64_eq by done. split_and!; [|exact Hw|by apply lookup_insert_eq|done].
  eapply next_table_ok; [exact (wp_ok _ _ _ _ _ Hw)|by apply lookup_insert_eq|done].
Qed.

Lemma walk_level_total s T r l pre f i msg alloc :
  tables_ok s T → T !! (r, l, pre) = Some f →
  (alloc = true → fa_free (mm_pg s) ≠ ∅ ∧ 0 ∉ fa_free (mm_pg s)) →
  ∃ res s', walk_level msg alloc (slot f i) s = Ret (res, s') ∧
    (size (fa_free (mm_pg s)) ≤ size (fa_free (mm_pg s')) + 1)%nat.
Proof.
  intros Hok HT Hfree. unfold walk_level, rd64. rewrite bind_gets.
  destruct (present _); [eexists _, _; split; [done|lia]|].
  destruct alloc; [|eexists _, _; split; [done|simpl; lia]]. cbn [negb].
  destruct (Hfree eq_refl) as [Hne H0].
  destruct (fa_alloc_total _ (vt_wf _ _ Hok) Hne) as (a & p' & Hal).
  destruct (fa_alloc_ok _ _ _ (vt_wf _ _ Hok) Hal) as (g & -> & Hg & _ & _ & Hfr).
  unfold pg. rewrite (bind_Ret _ _ _ _ _ (zoom_Ret _ set_pg _ _ _ _ Hal)).
  destruct (Z.eqb_spec (g * 4096) 0); [assert (g = 0) as -> by lia; done|].
  unfold wr64, upd_mem. rewrite !bind_modify, bind_gets.
  eexists _, _. split; [reflexivity|]. cbn [set_pg set_mem mm_pg mm_mem mm_caches].
  rewrite Hfr, size_difference, size_singleton by (by apply singleton_subseteq_l). lia.
Qed.

(** ** vmm_get_pte *)

Lemma index_facts v :
  0 ≤ v < 2 ^ 47 →
  PML4_IDX v = v / 2 ^ 39 ∧ 0 ≤ PML4_IDX v < 256 ∧
  v / 2 ^ 39 * 512 + PDPT_IDX v = v / 2 ^ 30 ∧ 0 ≤ PDPT_IDX v < 512 ∧
  v / 2 ^ 30 * 512 + PD_IDX v = v / 2 ^ 21 ∧ 0 ≤ PD_IDX v < 512 ∧
  PT_IDX v = v / 4096 mod 512 ∧ 0 ≤ PT_IDX v < 512 ∧ v / 4096 / 512 = v / 2 ^ 21.
Proof.
  intros Hv. unfold PML4_IDX, PDPT_IDX, PD_IDX, PT_IDX.
  rewrite !land_511, !Z.shiftr_div_pow2 by lia.
  assert (0 ≤ v / 2 ^ 39 < 256).
  { split; [apply Z.div_pos; lia|]. apply Z.div_lt_upper_bound; lia. }
  replace (v / 2 ^ 39) with (v / 2 ^ 30 / 512) by (rewrite Z.div_div by lia; done).
  replace (v / 2 ^ 30) with (v / 2 ^ 21 / 512) by (rewrite Z.div_div by lia; done).
  replace (v / 2 ^ 39) with (v / 2 ^ 21 / 512 / 512) in * by (rewrite !Z.div_div by lia; done).
  replace (v / 4096 / 512) with (v / 2 ^ 21) by (rewrite Z.div_div by lia; done).
  change (2 ^ 12) with 4096.
  pose proof (Z.mod_pos_bound (v / 4096) 512 ltac:(lia)).
  pose proof (Z.mod_pos_bound (v / 2 ^ 21) 512 ltac:(lia)).
  pose proof (Z.mod_pos_bound (v / 2 ^ 21 / 512) 512 ltac:(lia)).
  pose proof (Z.div_mod (v / 2 ^ 21) 512 ltac:(lia)).
  pose proof (Z.div_mod (v / 2 ^ 21 / 512) 512 ltac:(lia)).
  rewrite (Z.mod_small (v / 2 ^ 21 / 512 / 512)) by lia. lia.
Qed.

(** The addr_space_t of the space rooted at frame [r]. *)
Definition space_at (r : Z) : addr_space := mkSpace (hhdm_offset + r * 4096) (r * 4096).

Lemma pt_absent s T r l pre :
  tables_ok s T → l < 3 → T !! (r, l + 1, pre / 512) = None → T !! (r, l, pre) = None.
Proof.
  intros Hok Hl H. destruct (T !! (r, l, pre)) eqn:E; [|done].
  destruct (vt_parent _ _ Hok _ _ _ _ E Hl) as [x Hx]. congruence.
Qed.

(** The whole walk: the address of the leaf entry, or NULL when a table is
    missing and none may be added. *)
Lemma get_pte_spec s T r v alloc pte s' :
  tables_ok s T → T !! (r, 3, 0) = Some r → 0 ≤ v < 2 ^ 47 →
  vmm_get_pte (space_at r) v alloc s = Ret (pte, s') →
  (pte = 0 ∧ alloc = false ∧ s' = s ∧ T !! (r, 0, v / 2 ^ 21) = None) ∨
  (∃ f T', pte = slot f (v / 4096 mod 512) ∧ walk_post s T r s' T' ∧
     T' !! (r, 0, v / 2 ^ 21) = Some f ∧ (alloc = false → s' = s ∧ T' = T)).
Proof.
  intros Hok HT Hv Hrun. destruct (index_facts v Hv) as (E4 & R4 & E3 & R3 & E2 & R2 & E1 & R1 & _).
  unfold vmm_get_pte in Hrun. cbn [space_at as_pml4] in Hrun.
  rewrite (entry_ptr_slot s T _ _ _ Hok HT) in Hrun by lia. inv_run Hrun.
  apply (walk_level_spec s T r 3 0 r) in Hrun0; [|done|done|lia|lia|lia].
  assert (0 * 512 + PML4_IDX v = v / 2 ^ 39) as E0 by lia. rewrite E0 in Hrun0.
  destruct a as [pdpt|].
  2:{ destruct Hrun0 as (-> & -> & Hno). injection Hrun as <- <-. left. split_and!; try done.
      apply (pt_absent s T r 0); [done|lia|]. rewrite <- E2, Z.div_add_l, (Z.div_small (PD_IDX v)), Z.add_0_r by lia.
      apply (pt_absent s T r (0 + 1)); [done|lia|].
      by rewrite <- E3, Z.div_add_l, (Z.div_small (PDPT_IDX v)), Z.add_0_r by lia. }
  destruct Hrun0 as (g3 & T3 & -> & Hw3 & HT3 & Hf3). pose proof (wp_ok _ _ _ _ _ Hw3) as Hok3.
  rewrite (entry_ptr_slot s0 T3 _ _ _ Hok3 HT3) in Hrun by lia. inv_run Hrun.
  apply (walk_level_spec s0 T3 r 2 (v / 2 ^ 39) g3) in Hrun0; [|done|done|lia|lia|lia]. rewrite E3 in Hrun0.
  destruct a as [pd|].
  2:{ destruct Hrun0 as (-> & -> & Hno). destruct (Hf3 eq_refl) as [-> ->].
      injection Hrun as <- <-. left. split_and!; try done.
      apply (pt_absent s T r 0); [done|lia|].
      by rewrite <- E2, Z.div_add_l, (Z.div_small (PD_IDX v)), Z.add_0_r by lia. }
  destruct Hrun0 as (g2 & T2 & -> & Hw2 & HT2 & Hf2). pose proof (wp_ok _ _ _ _ _ Hw2) as Hok2.
  rewrite (entry_ptr_slot s1 T2 _ _ _ Hok2 HT2) in Hrun by lia. inv_run Hrun.
  apply (walk_level_spec s1 T2 r 1 (v / 2 ^ 30) g2) in Hrun0; [|done|done|lia|lia|lia]. rewrite E2 in Hrun0.
  destruct a as [pt|].
  2:{ destruct Hrun0 as (-> & -> & Hno). destruct (Hf2 eq_refl) as [-> ->]. destruct (Hf3 eq_refl) as [-> ->].
      injection Hrun as <- <-. left. done. }
  destruct Hrun0 as (g1 & T1 & -> & Hw1 & HT1 & Hf1). pose proof (wp_ok _ _ _ _ _ Hw1) as Hok1.
  rewrite (entry_ptr_slot s2 T1 _ _ _ Hok1 HT1) in Hrun by lia. injection Hrun as <- <-.
  right. exists g1, T1. rewrite <- E1. split_and!; [done| |done|].
  - eapply walk_trans; [exact Hw3|]. by eapply walk_trans.
  - intros ->. destruct (Hf1 eq_refl) as [-> ->], (Hf2 eq_refl) as [-> ->], (Hf3 eq_refl) as [-> ->]. done.
Qed.

(** The walk succeeds: always when it may not allocate, and with three frames
    to spare when it may. *)
Lemma size_nonempty (X : gset Z) : (0 < size X)%nat → X ≠ ∅.
Proof. intros H ->. rewrite size_empty in H. lia. Qed.

Lemma get_pte_total s T r v alloc :
  tables_ok s T → T !! (r, 3, 0) = Some r → 0 ≤ v < 2 ^ 47 →
  (alloc = true → (3 ≤ size (fa_free (mm_pg s)))%nat ∧ 0 ∉ fa_free (mm_pg s)) →
  ∃ pte s', vmm_get_pte (space_at r) v alloc s = Ret (pte, s').
Proof.
  intros Hok HT Hv Hfr. destruct (index_facts v Hv) as (E4 & R4 & E3 & R3 & E2 & R2 & E1 & R1 & _).
  unfold vmm_get_pte. cbn [space_at as_pml4]. rewrite (entry_ptr_slot s T _ _ _ Hok HT) by lia.
  destruct (walk_level_total s T r 3 0 r (PML4_IDX v)
    "vmm.c: vmm_get_pte() -> out of memory allocating PDPT" alloc Hok HT) as (x & s1 & Hrun & Hs1).
  { intros ->. destruct (Hfr eq_refl). split; [apply size_nonempty; lia|done]. }
  rewrite (bind_Ret _ _ _ _ _ Hrun).
  apply (walk_level_spec s T r 3 0 r) in Hrun; [|done|done|lia|lia|lia].
  destruct x as [t|]; [|by eexists _, _]. destruct Hrun as (g3 & T3 & -> & Hw3 & HT3 & _).
  pose proof (wp_ok _ _ _ _ _ Hw3) as Hok3. rewrite (entry_ptr_slot s1 T3 _ _ _ Hok3 HT3) by lia.
  destruct (walk_level_total s1 T3 _ _ _ g3 (PDPT_IDX v)
    "vmm.c: vmm_get_pte() -> out of memory allocating PD" alloc Hok3 HT3) as (x & s2 & Hrun & Hs2).
  { intros ->. destruct (Hfr eq_refl). split; [apply size_nonempty; lia|].
    intros Hz. by apply (wp_free _ _ _ _ _ Hw3) in Hz. }
  rewrite (bind_Ret _ _ _ _ _ Hrun). apply (walk_level_spec s1 T3 r 2 (0 * 512 + PML4_IDX v) g3) in Hrun; [|done|done|lia|lia|lia].
  destruct x as [t|]; [|by eexists _, _]. destruct Hrun as (g2 & T2 & -> & Hw2 & HT2 & _).
  pose proof (wp_ok _ _ _ _ _ Hw2) as Hok2. rewrite (entry_ptr_slot s2 T2 _ _ _ Hok2 HT2) by lia.
  destruct (walk_level_total s2 T2 _ _ _ g2 (PD_IDX v)
    "vmm.c: vmm_get_pte() -> out of memory allocating PT" alloc Hok2 HT2) as (x & s3 & Hrun & Hs3).
  { intros ->. destruct (Hfr eq_refl). split; [apply size_nonempty; lia|].
    intros Hz. by apply (wp_free _ _ _ _ _ Hw2), (wp_free _ _ _ _ _ Hw3) in Hz. }
  rewrite (bind_Ret _ _ _ _ _ Hrun). destruct x; eexists _, _; reflexivity.
Qed.

(** ** Writing a leaf entry *)

Lemma leaf_write s T r q f j e :
  tables_ok s T → T !! (r, 0, q) = Some f → 0 ≤ j < 512 → 0 ≤ e < W64 →
  let s' := set_mem (store64 (mm_mem s) (slot f j) e) s in
  tables_ok s' T ∧
  (∀ r' vpn, pte_of s' T r' vpn =
     if decide (r' = r ∧ vpn = q * 512 + j) then (if present e then Some e else None)
     else pte_of s T r' vpn) ∧
  (∀ a, frame_of a ≠ f → load8 (mm_mem s') a = load8 (mm_mem s) a).
Proof.
  intros Hok HT Hj He s'.
  assert (∀ k f' i, T !! k = Some f' → 0 ≤ i < 512 → (k, i) ≠ ((r, 0, q), j) →
    load64 (mm_mem s') (slot f' i) = load64 (mm_mem s) (slot f' i)) as Ho.
  { intros k f' i Hk Hi Hne. apply load64_store64_ne, slot_apart; [done|done|].
    intros [= <- <-]. apply Hne. by rewrite (vt_inj _ _ Hok _ _ _ Hk HT). }
  split_and!.
  - destruct Hok. split; [done..|].
    intros r' l pre f' i HT' Hl Hi Hil. rewrite (Ho _ _ _ HT' Hi); [by eapply vt_entry0|].
    intros [= _ ? _ _]. lia.
  - intros r' vpn. pose proof (Z.mod_pos_bound vpn 512 ltac:(lia)). unfold pte_of.
    pose proof (Z.div_mod vpn 512 ltac:(lia)). case_decide as E.
    + destruct E as [-> Ev]. assert (vpn / 512 = q ∧ vpn mod 512 = j) as [-> ->] by lia.
      rewrite HT. cbn [mbind option_bind]. unfold s'. cbn [set_mem mm_mem].
      by rewrite load64_store64_eq.
    + destruct (T !! (r', 0, vpn / 512)) as [f'|] eqn:Ef; [|done]. cbn [mbind option_bind].
      rewrite (Ho _ _ _ Ef); [done|done|]. intros [= -> Eq Ej]. apply E. split; [done|lia].
  - intros a Ha. unfold s'. cbn [set_mem mm_mem]. unfold store64. rewrite load8_store_le, decide_False; [done|].
    intros Hin. by apply Ha, (slot_frame f j).
Qed.

(** ** The operations on the abstract address space *)

(** A change of space [r] at page [vpn] only. *)
Record update_post (s : mm_state P) (T : tables) (r vpn : Z) (o : option Z)
    (s' : mm_state P) (T' : tables) : Prop := {
  up_ok : tables_ok s' T';
  up_ext : T ⊆ T';
  up_new : ∀ r' l pre f, T' !! (r', l, pre) = Some f →
    T !! (r', l, pre) = Some f ∨ (f ∈ fa_free (mm_pg s) ∧ r' = r ∧ l < 3);
  up_pte : ∀ r' v, pte_of s' T' r' v = if decide (r' = r ∧ v = vpn) then o else pte_of s T r' v;
  up_mem : ∀ a, frame_of a ∉ fa_free (mm_pg s) → (∀ l pre, T !! (r, l, pre) ≠ Some (frame_of a)) →
    load8 (mm_mem s') a = load8 (mm_mem s) a;
  up_upper : ∀ f i, T !! (r, 3, 0) = Some f → 256 ≤ i < 512 →
    load64 (mm_mem s') (slot f i) = load64 (mm_mem s) (slot f i);
  up_free : fa_free (mm_pg s') ⊆ fa_free (mm_pg s);
  up_count : fa_count (mm_pg s') = fa_count (mm_pg s);
  up_caches : mm_caches s' = mm_caches s;
}.

Lemma update_leaf s T r v f e s1 T1 :
  walk_post s T r s1 T1 → T1 !! (r, 0, v / 2 ^ 21) = Some f → 0 ≤ v < 2 ^ 47 → 0 ≤ e < W64 →
  update_post s T r (v / 4096) (if present e then Some e else None)
    (set_mem (store64 (mm_mem s1) (slot f (v / 4096 mod 512)) e) s1) T1.
Proof.
  intros Hw HT Hv He. destruct (index_facts v Hv) as (_ & _ & _ & _ & _ & _ & E1 & R1 & Eq).
  rewrite <- E1. destruct (leaf_write s1 T1 _ _ _ _ e (wp_ok _ _ _ _ _ Hw) HT R1 He) as (Hok & Hpte & Hmem).
  assert (v / 2 ^ 21 * 512 + PT_IDX v = v / 4096) as Evpn.
  { rewrite E1, <- Eq. pose proof (Z.div_mod (v / 4096) 512 ltac:(lia)). lia. }
  rewrite Evpn in Hpte. destruct Hw as [Hok1 Hext Hnew Hp Hm Hup Hfr Hcnt Hca]. split; try done.
  - intros r' vpn. rewrite Hpte. by rewrite Hp.
  - intros a Ha HTa. rewrite Hmem, Hm; [done|done|done|]. intros <-.
    destruct (Hnew _ _ _ _ HT) as [HT0|(? & _)]; [by apply (HTa _ _ HT0)|done].
  - intros f' i HT' Hi. rewrite <- Hup by done. apply load_le_ext. intros a Ha. apply Hmem.
    rewrite (slot_frame f' i a) by lia. intros ->.
    pose proof (vt_inj _ _ Hok1 _ _ _ HT (lookup_weaken _ _ _ _ HT' Hext)) as [=].
Qed.

Definition leaf_entry (phys flags : Z) : Z := Z.lor (Z.land phys (not64 0xfff)) (Z.lor flags PAGE_PRESENT).

Lemma leaf_entry_ok phys flags :
  0 ≤ phys < W64 → 0 ≤ flags < W64 → 0 ≤ leaf_entry phys flags < W64 ∧ present (leaf_entry phys flags) = true.
Proof.
  intros Hp Hf. split.
  - unfold leaf_entry. apply lor_range; [apply land_range; [done|apply u64_range]|].
    apply lor_range; [done|]. change PAGE_PRESENT with 1. lia.
  - rewrite present_odd, <- Z.bit0_odd. unfold leaf_entry. change PAGE_PRESENT with 1.
    by rewrite !Z.lor_spec, !orb_true_r.
Qed.

Lemma map_page_spec s T r v phys flags s' :
  tables_ok s T → T !! (r, 3, 0) = Some r → 0 ≤ v < 2 ^ 47 → 0 ≤ phys < W64 → 0 ≤ flags < W64 →
  vmm_map_page (space_at r) v phys flags s = Ret (tt, s') →
  ∃ T', update_post s T r (v / 4096) (Some (leaf_entry phys flags)) s' T'.
Proof.
  intros Hok HT Hv Hp Hf Hrun. unfold vmm_map_page in Hrun. inv_run Hrun.
  destruct (get_pte_spec _ _ _ _ _ _ _ Hok HT Hv Hrun0) as [(_ & ? & _)|(f & T1 & -> & Hw & Hleaf & _)];
    [done|].
  destruct (Z.eqb_spec (slot f (v / 4096 mod 512)) 0); [done|].
  injection Hrun as <-. destruct (leaf_entry_ok phys flags Hp Hf) as [He Hpres].
  pose proof (update_leaf s T r v f (leaf_entry phys flags) s0 T1 Hw Hleaf Hv He) as Hu.
  rewrite Hpres in Hu. by exists T1.
Qed.

Lemma map_page_total s T r v phys flags :
  tables_ok s T → T !! (r, 3, 0) = Some r → 0 ≤ v < 2 ^ 47 →
  (3 ≤ size (fa_free (mm_pg s)))%nat → 0 ∉ fa_free (mm_pg s) →
  ∃ s', vmm_map_page (space_at r) v phys flags s = Ret (tt, s').
Proof.
  intros Hok HT Hv Hsz H0. destruct (get_pte_total s T r v true Hok HT Hv) as (pte & s1 & Hrun); [done|].
  unfold vmm_map_page. rewrite (bind_Ret _ _ _ _ _ Hrun).
  destruct (get_pte_spec _ _ _ _ _ _ _ Hok HT Hv Hrun) as [(_ & ? & _)|(f & T1 & -> & Hw & Hleaf & _)];
    [done|].
  pose proof (slot_bounds _ _ _ _ (v / 4096 mod 512) (wp_ok _ _ _ _ _ Hw) Hleaf
    ltac:(apply Z.mod_pos_bound; lia)).
  destruct (Z.eqb_spec (slot f (v / 4096 mod 512)) 0); [lia|]. eexists. reflexivity.
Qed.

(** The entry a read-only walk finds is the one of the abstract space. *)
Lemma get_pte_read s T r v :
  tables_ok s T → T !! (r, 3, 0) = Some r → 0 ≤ v < 2 ^ 47 →
  ∃ pte, vmm_get_pte (space_at r) v false s = Ret (pte, s) ∧
    (if pte =? 0 then None
     else if present (load64 (mm_mem s) pte) then Some (load64 (mm_mem s) pte) else None)
      = pte_of s T r (v / 4096) ∧
    (pte ≠ 0 → ∃ f, T !! (r, 0, v / 2 ^ 21) = Some f ∧ pte = slot f (v / 4096 mod 512)).
Proof.
  intros Hok HT Hv. destruct (get_pte_total s T r v false Hok HT Hv) as (pte & s1 & Hrun); [done|].
  exists pte. unfold pte_of. destruct (index_facts v Hv) as (_ & _ & _ & _ & _ & _ & E1 & R1 & ->).
  destruct (get_pte_spec _ _ _ _ _ _ _ Hok HT Hv Hrun)
    as [(-> & _ & -> & ->)|(f & T1 & -> & Hw & Hleaf & Hs)]; [done|].
  destruct (Hs eq_refl) as [-> ->]. rewrite Hleaf. cbn [mbind option_bind].
  pose proof (slot_bounds _ _ _ _ (v / 4096 mod 512) Hok Hleaf ltac:(apply Z.mod_pos_bound; lia)).
  destruct (Z.eqb_spec (slot f (v / 4096 mod 512)) 0); [lia|]. eauto.
Qed.

Lemma get_mapping_spec s T r v :
  tables_ok s T → T !! (r, 3, 0) = Some r → 0 ≤ v < 2 ^ 47 →
  vmm_get_mapping (space_at r) v s =
    Ret ((λ e, (ENTRY_TO_PHYS e, Z.land e 0xfff)) <$> pte_of s T r (v / 4096), s).
Proof.
  intros Hok HT Hv. destruct (get_pte_read s T r v Hok HT Hv) as (pte & Hrun & <- & _).
  unfold vmm_get_mapping. rewrite (bind_Ret _ _ _ _ _ Hrun).
  destruct (pte =? 0); [done|]. unfold rd64. rewrite bind_gets. by destruct (present _).
Qed.

Lemma unmap_page_spec s T r v :
  tables_ok s T → T !! (r, 3, 0) = Some r → 0 ≤ v < 2 ^ 47 →
  match vmm_unmap_page (space_at r) v s with
  | Ret (_, s') => is_Some (pte_of s T r (v / 4096)) ∧ update_post s T r (v / 4096) None s' T
  | Panic _ => pte_of s T r (v / 4096) = None
  | _ => False
  end.
Proof.
  intros Hok HT Hv. destruct (get_pte_read s T r v Hok HT Hv) as (pte & Hrun & <- & Hf).
  unfold vmm_unmap_page. rewrite (bind_Ret _ _ _ _ _ Hrun).
  destruct (Z.eqb_spec pte 0) as [|Hne]; [done|]. unfold rd64. rewrite bind_gets.
  destruct (present _); [|done]. cbn [negb]. split; [eauto|].
  destruct (Hf Hne) as (f & Hleaf & ->).
  exact (update_leaf s T r v f 0 s T (walk_refl s T r Hok) Hleaf Hv ltac:(lia)).
Qed.

(** ** Page tables and heap together *)

Record mm_inv (s : mm_state P) (G : gmap Z (Z * Z)) (fls : list (list Z)) (T : tables) : Prop := {
  mi_heap : heap_inv s G fls;
  mi_tables : tables_ok s T;
  mi_sep : ∀ b c n a k, G !! b = Some (c, n) → b - 8 ≤ a < b - 8 + n → T !! k ≠ Some (frame_of a);
}.

(** The tables do not see what happens outside their frames, as long as these are
    not released. *)
Lemma tables_frame_kept s s' T :
  tables_ok s T → fa_wf (mm_pg s') → fa_count (mm_pg s') = fa_count (mm_pg s) →
  (∀ k f, T !! k = Some f → f ∉ fa_free (mm_pg s')) →
  (∀ a k, T !! k = Some (frame_of a) → load8 (mm_mem s') a = load8 (mm_mem s) a) →
  tables_ok s' T ∧ (∀ r vpn, pte_of s' T r vpn = pte_of s T r vpn) ∧
  ∀ k f i, T !! k = Some f → 0 ≤ i < 512 → load64 (mm_mem s') (slot f i) = load64 (mm_mem s) (slot f i).
Proof.
  intros Hok Hwf Hcnt Hsub Hm.
  assert (∀ k f i, T !! k = Some f → 0 ≤ i < 512 →
    load64 (mm_mem s') (slot f i) = load64 (mm_mem s) (slot f i)) as Hl.
  { intros k f i HT Hi. apply load_le_ext. intros a Ha. apply (Hm a k).
    rewrite (slot_frame f i a) by lia. done. }
  split_and!; [|intros r vpn|done].
  - destruct Hok. split; [done|by rewrite Hcnt| |done..|].
    + intros k f HT. rewrite Hcnt. destruct (vt_taken0 _ _ HT). split; [done|by apply (Hsub k)].
    + intros r l pre f i HT Hlr Hi Hil. rewrite (Hl _ _ _ HT Hi). by eapply vt_entry0.
  - unfold pte_of. destruct (T !! (r, 0, vpn / 512)) as [f|] eqn:E; [|done]. cbn [mbind option_bind].
    rewrite (Hl _ _ _ E) by (apply Z.mod_pos_bound; lia). done.
Qed.

Lemma tables_frame s s' T :
  tables_ok s T → fa_wf (mm_pg s') → fa_count (mm_pg s') = fa_count (mm_pg s) →
  fa_free (mm_pg s') ⊆ fa_free (mm_pg s) →
  (∀ a k, T !! k = Some (frame_of a) → load8 (mm_mem s') a = load8 (mm_mem s) a) →
  tables_ok s' T ∧ (∀ r vpn, pte_of s' T r vpn = pte_of s T r vpn) ∧
  ∀ k f i, T !! k = Some f → 0 ≤ i < 512 → load64 (mm_mem s') (slot f i) = load64 (mm_mem s) (slot f i).
Proof.
  intros Hok Hwf Hcnt Hsub Hm. apply tables_frame_kept; try done. intros k f HT Hin. apply Hsub in Hin.
  by destruct (vt_taken _ _ Hok _ _ HT).
Qed.

Lemma copy_upper_run s d q :
  0 < hhdm_offset → 0 ≤ d → 0 ≤ q → hhdm_offset + (d + 1) * 4096 ≤ W64 → hhdm_offset + (q + 1) * 4096 ≤ W64 →
  d ≠ q →
  ∃ m', copy_upper_half (hhdm_offset + d * 4096) (hhdm_offset + q * 4096) s = Ret (tt, set_mem m' s) ∧
    (∀ i, 256 ≤ i < 512 → load64 m' (slot d i) = load64 (mm_mem s) (slot q i)) ∧
    (∀ a, ¬ (slot d 256 ≤ a < slot d 512) → load8 m' a = load8 (mm_mem s) a).
Proof.
  intros Hh Hd0 Hq0 Hd Hq Hne.
  assert (∀ f i, 0 ≤ f → hhdm_offset + (f + 1) * 4096 ≤ W64 → 0 ≤ i < 512 →
    entry_ptr (hhdm_offset + f * 4096) i = slot f i) as Hep.
  { intros f i H1 H2 Hi. unfold entry_ptr, slot. apply u64_small. lia. }
  destruct (for_up_total (λ i s', ∃ m', s' = set_mem m' s ∧
      (∀ j, 256 ≤ j < i → load64 m' (slot d j) = load64 (mm_mem s) (slot q j)) ∧
      (∀ a, ¬ (slot d 256 ≤ a < slot d i) → load8 m' a = load8 (mm_mem s) a))
    (λ i, e <- rd64 (entry_ptr (hhdm_offset + q * 4096) i) ;; wr64 (entry_ptr (hhdm_offset + d * 4096) i) e)
    512 1 ltac:(lia) ltac:(lia) 256 256 s) as (j & s' & Hrun & (m' & -> & H1 & H2) & _ & _ & ? & Hj & _).
  - lia.
  - done.
  - intros i s1 Hi _ (m & -> & H1 & H2). rewrite !Hep by lia. unfold rd64. rewrite bind_gets.
    eexists. split; [reflexivity|]. cbn [set_mem mm_mem mm_pg mm_caches].
    assert (load64 m (slot q i) = load64 (mm_mem s) (slot q i)) as Eq.
    { apply load_le_ext. intros a Ha. apply H2. intros Hin. apply Hne.
      rewrite <- (slot_frame q i a) by lia. symmetry. apply frame_of_range. unfold slot in *. lia. }
    eexists. split; [reflexivity|]. split.
    + intros k Hk. destruct (decide (k = i)) as [->|].
      * rewrite Eq. apply load64_store64_eq, load64_range.
      * rewrite load64_store64_ne by (apply slot_apart; [lia|lia|congruence]). apply H1. lia.
    + intros a Ha. unfold store64. rewrite load8_store_le, decide_False; [apply H2|]; unfold slot in *; lia.
  - exists (mm_mem s). split; [by destruct s|]. split; [lia|done].
  - assert (j = 512) as -> by lia. exists m'. split_and!; [exact Hrun|exact H1|exact H2].
Qed.

#[local] Opaque copy_upper_half.

(** A fresh zeroed PML4 whose upper half was filled in becomes a new space. *)
Lemma tables_add_root s T f s' :
  tables_ok s T → f ∈ fa_free (mm_pg s) → 0 < f → fa_wf (mm_pg s') →
  fa_count (mm_pg s') = fa_count (mm_pg s) → fa_free (mm_pg s') = fa_free (mm_pg s) ∖ {[f]} →
  (∀ a k, T !! k = Some (frame_of a) → load8 (mm_mem s') a = load8 (mm_mem s) a) →
  (∀ i, 0 ≤ i < 256 → load64 (mm_mem s') (slot f i) = 0) →
  tables_ok s' (<[(f, 3, 0) := f]> T) ∧
  (∀ vpn, pte_of s' (<[(f, 3, 0) := f]> T) f vpn = None) ∧
  (∀ r vpn, r ≠ f → pte_of s' (<[(f, 3, 0) := f]> T) r vpn = pte_of s T r vpn).
Proof.
  intros Hok Hf Hf0 Hwf Hcnt Hfree Hm Hz. pose proof (fa_free_bound _ _ (vt_wf _ _ Hok) Hf).
  assert (∀ k f', T !! k = Some f' → f' ≠ f) as Hfresh.
  { intros k f' Hk ->. by destruct (vt_taken _ _ Hok _ _ Hk). }
  assert (∀ n pre l, l = 3 - Z.of_nat n → T !! (f, l, pre) = None) as Hno.
  { induction n as [|n IH]; intros pre l ->.
    - destruct (T !! _) as [x|] eqn:E; [|done]. replace (3 - Z.of_nat 0) with 3 in E by lia.
      pose proof (vt_root _ _ Hok _ _ _ E). by destruct (Hfresh _ _ E).
    - apply (pt_absent s T); [done|lia|]. apply IH. lia. }
  destruct (tables_frame s s' T Hok Hwf Hcnt) as (Hok' & Hpte & Hl); [by rewrite Hfree; apply subseteq_difference_l|done|].
  split_and!.
  - destruct Hok'. split; [done|done| | | | |].
    + intros k f' [[<- <-]|[_ HT]]%lookup_insert_Some; [|by eapply vt_taken0].
      rewrite Hcnt, Hfree, elem_of_difference, elem_of_singleton. split; [lia|tauto].
    + intros k1 k2 f' [[E1 F1]|[_ H1]]%lookup_insert_Some [[E2 F2]|[_ H2]]%lookup_insert_Some.
      * by rewrite <- E1.
      * rewrite <- F1 in H2. by destruct (Hfresh _ _ H2).
      * rewrite <- F2 in H1. by destruct (Hfresh _ _ H1).
      * exact (vt_inj0 _ _ _ H1 H2).
    + intros r pre f' [[[= <- <-] <-]|[_ HT]]%lookup_insert_Some; [done|by eapply vt_root0].
    + intros r l pre f' [[[= <- <- <-] <-]|[_ HT]]%lookup_insert_Some Hlt; [lia|].
      rewrite lookup_insert. case_decide; [done|by eapply vt_parent0].
    + intros r l pre f' i [[[= <- <- <-] <-]|[_ HT]]%lookup_insert_Some Hlr Hi Hil.
      * rewrite Hz by lia. unfold entry_child. simpl. rewrite lookup_insert_ne by (intros [=]; lia).
        by apply (Hno 1%nat).
      * rewrite lookup_insert_ne by (intros [=]; lia). by eapply vt_entry0.
  - intros vpn. unfold pte_of. rewrite lookup_insert_ne by (intros [=]). by rewrite (Hno 3%nat _ 0).
  - intros r vpn Hr. rewrite <- Hpte. unfold pte_of. by rewrite lookup_insert_ne by congruence.
Qed.

(** The contract of vmm_create_user_space. *)
Record new_space (s : mm_state P) (G : gmap Z (Z * Z)) (fls : list (list Z)) (T : tables)
    (kroot p : Z) (s' : mm_state P) (G' : gmap Z (Z * Z)) (fls' : list (list Z)) (f : Z) : Prop := {
  ns_inv : mm_inv s' G' fls' (<[(f, 3, 0) := f]> T);
  ns_space : read_space (mm_mem s') p = space_at f;
  ns_live : ∀ b, live G' fls' b ↔ live G fls b ∨ b = p;
  ns_new : ¬ live G fls p ∧ ∀ k, T !! k ≠ Some f;
  ns_old : ∀ b x, live G fls b → G !! b = Some x → G' !! b = Some x;
  ns_empty : ∀ vpn, pte_of s' (<[(f, 3, 0) := f]> T) f vpn = None;
  ns_kernel : ∀ i, 256 ≤ i < 512 →
    load64 (mm_mem s') (slot f i) = load64 (mm_mem s) (slot kroot i);
  ns_others : ∀ r vpn, r ≠ f → pte_of s' (<[(f, 3, 0) := f]> T) r vpn = pte_of s T r vpn;
  ns_mem : ∀ a, frame_of a ∉ fa_free (mm_pg s) → ¬ (p ≤ a < p + 16) → load8 (mm_mem s') a = load8 (mm_mem s) a;
  ns_free : f ∈ fa_free (mm_pg s) ∧ fa_free (mm_pg s') ⊆ fa_free (mm_pg s);
  ns_blocks : ∀ b c n a, G' !! b = Some (c, n) → b - 8 ≤ a < b - 8 + n → G !! b = Some (c, n) ∨ frame_of a ∈ fa_free (mm_pg s);
}.

Lemma in_mm_Ret {A} (m : MM A) (s : vm_state P) a t :
  m (vm_mm s) = Ret (a, t) → in_mm m s = Ret (a, set_vm_mm t s).
Proof. apply zoom_Ret. Qed.

(** The part of vmm_create_user_space after both allocations: [m] is the memory
    it leaves behind. *)
Lemma fill_space s p f q :
  0 < hhdm_offset → 0 ≤ f → 0 ≤ q → hhdm_offset + (f + 1) * 4096 ≤ W64 → hhdm_offset + (q + 1) * 4096 ≤ W64 →
  f ≠ q → (∀ a, p ≤ a < p + 16 → frame_of a ≠ f ∧ frame_of a ≠ q) →
  kernel_addr_space s = space_at q →
  ∃ m', (in_mm (wr64 (p + 8) (f * 4096)) ;;;
         in_mm (wr64 p (f * 4096 +64 hhdm_offset)) ;;;
         sp <- gets (λ s, read_space (mm_mem (vm_mm s)) p) ;;
         in_mm (upd_mem (λ m, memset m (as_pml4 sp) 0 4096)) ;;;
         kpml4 <- gets (λ s, as_pml4 (kernel_addr_space s)) ;;
         in_mm (copy_upper_half (as_pml4 sp) kpml4) ;;; ret p) s
        = Ret (p, set_vm_mm (set_mem m' (vm_mm s)) s) ∧
    read_space m' p = space_at f ∧
    (∀ i, 0 ≤ i < 256 → load64 m' (slot f i) = 0) ∧
    (∀ i, 256 ≤ i < 512 → load64 m' (slot f i) = load64 (mm_mem (vm_mm s)) (slot q i)) ∧
    (∀ a, frame_of a ≠ f → ¬ (p ≤ a < p + 16) → load8 m' a = load8 (mm_mem (vm_mm s)) a).
Proof.
  intros Hh Hf Hq Hfw Hqw Hne Hp Hk. unfold wr64, upd_mem.
  erewrite bind_Ret by (apply in_mm_Ret; reflexivity).
  erewrite bind_Ret by (apply in_mm_Ret; reflexivity). rewrite bind_gets.
  cbn [set_vm_mm vm_mm set_mem mm_mem mm_pg mm_caches]. rewrite (u64_small (f * 4096 + hhdm_offset)) by lia.
  set (m2 := store64 _ _ _).
  assert (read_space m2 p = space_at f) as Hsp.
  { unfold read_space, m2, space_at. rewrite load64_store64_eq by lia.
    rewrite load64_store64_ne, load64_store64_eq by lia. f_equal; lia. }
  rewrite Hsp. cbn [space_at as_pml4]. erewrite bind_Ret by (apply in_mm_Ret; reflexivity).
  rewrite bind_gets. cbn [set_vm_mm vm_mm set_mem mm_mem mm_pg mm_caches kernel_addr_space]. rewrite Hk.
  cbn [space_at as_pml4]. set (m3 := memset m2 _ _ _).
  destruct (copy_upper_run (mkMm (mm_pg (vm_mm s)) m3 (mm_caches (vm_mm s))) f q Hh Hf Hq Hfw Hqw Hne)
    as (m' & Hrun & H1 & H2).
  exists m'. erewrite bind_Ret by (apply in_mm_Ret; exact Hrun). cbn [mm_mem] in H1, H2.
  assert (∀ a, frame_of a ≠ f → load8 m3 a = load8 m2 a) as Hm3.
  { intros a Ha. unfold m3. rewrite load8_memset, decide_False; [done| |lia].
    intros Hin. apply Ha, frame_of_range. lia. }
  assert (∀ a, frame_of a ≠ f → load8 m' a = load8 m2 a) as Hm'.
  { intros a Ha. rewrite H2, Hm3; [done|done|]. intros Hin. apply Ha, frame_of_range. unfold slot in Hin. lia. }
  assert (∀ a, ¬ (p ≤ a < p + 16) → load8 m2 a = load8 (mm_mem (vm_mm s)) a) as Hm2.
  { intros a Ha. unfold m2, store64. rewrite !load8_store_le, !decide_False by lia. done. }
  split_and!; [done| | | |].
  - rewrite <- Hsp. unfold read_space. f_equal; apply load_le_ext; intros a Ha; apply Hm', Hp; lia.
  - intros i Hi. apply load_le_zero. intros a Ha. rewrite H2 by (unfold slot in *; lia).
    unfold m3. rewrite load8_memset, decide_True by (unfold slot in *; lia). done.
  - intros i Hi. rewrite H1 by done. apply load_le_ext. intros a Ha.
    pose proof (slot_frame q i a ltac:(lia) ltac:(lia)) as Efr.
    rewrite Hm3, Hm2; [done| |congruence]. intros Hin. destruct (Hp a Hin) as [_ []]. exact Efr.
  - intros a Ha Hnp. rewrite Hm', Hm2; done.
Qed.

(** An allocation of the heap leaves the tables alone and apart. *)
Lemma tables_after_kmalloc s G fls T s1 G1 fls1 :
  mm_inv s G fls T → heap_inv s1 G1 fls1 → alloc_frame s s1 G G1 →
  tables_ok s1 T ∧ (∀ r vpn, pte_of s1 T r vpn = pte_of s T r vpn) ∧
  (∀ k f i, T !! k = Some f → 0 ≤ i < 512 → load64 (mm_mem s1) (slot f i) = load64 (mm_mem s) (slot f i)) ∧
  (∀ b c n a k, G1 !! b = Some (c, n) → b - 8 ≤ a < b - 8 + n → T !! k ≠ Some (frame_of a)).
Proof.
  intros [Hheap Htab Hsep] [Hc1 _] [Hmem Hfree Hcnt Hnew].
  destruct (tables_frame s s1 T Htab (hc_wf _ _ _ Hc1) Hcnt Hfree) as (? & ? & ?).
  { intros a k HT. apply Hmem. by destruct (vt_taken _ _ Htab _ _ HT). }
  split_and!; try done. intros b c n a k Hb Ha HT.
  destruct (Hnew _ _ _ _ Hb Ha) as [Hold|Hin]; [by eapply Hsep|].
  by destruct (vt_taken _ _ Htab _ _ HT).
Qed.

Lemma create_user_space_spec s G fls T kroot p s' :
  mm_inv (vm_mm s) G fls T → kernel_addr_space s = space_at kroot → T !! (kroot, 3, 0) = Some kroot →
  vmm_create_user_space s = Ret (p, s') →
  kernel_addr_space s' = kernel_addr_space s ∧
  ∃ G' fls' f, new_space (vm_mm s) G fls T kroot p (vm_mm s') G' fls' f.
Proof.
  intros [Hheap Htab Hsep] Hk HTk Hrun. unfold vmm_create_user_space in Hrun.
  inv_run Hrun. apply zoom_Ret_inv in Hrun0 as (t1 & Hmal & ->).
  destruct (kmalloc_spec _ _ _ 16 _ _ Hheap ltac:(lia) Hmal)
    as (G1 & fls1 & c & n & [Hc1 Hcnt1] & Hb & Hn & Hnl & Hlive & Hold & Hfr).
  destruct (a =? 0); [done|]. inv_run Hrun. apply zoom_Ret_inv in Hrun0 as (t2 & Hal & ->).
  destruct (fresh_frame _ _ _ _ _ Hc1 Hal) as (f & -> & Epage & Hc2 & Em & Eca & Ht & Hd & Hff & Hsub & Hct).
  apply zoom_Ret_inv in Hal as (p' & Hal & ->). cbn [set_vm_mm vm_mm] in *.
  destruct (fa_alloc_ok _ _ _ (hc_wf _ _ _ Hc1) Hal) as (f' & Ef & _ & Hwf' & _ & Hfree').
  assert (f' = f) as -> by lia. destruct (Z.eqb_spec (f * 4096) 0); [done|].
  pose proof (fa_free_bound _ _ (hc_wf _ _ _ Hc1) Hff). pose proof (hc_hhdm _ _ _ Hc1). revert Hrun.
  destruct (tables_after_kmalloc _ _ _ _ _ _ _ (Build_mm_inv _ _ _ _ Hheap Htab Hsep) (conj Hc1 Hcnt1) Hfr)
    as (Htab1 & Hpte1 & Hslot1 & Hsep1).
  assert (∀ k, T !! k ≠ Some f) as HTf by (intros k Hkf; by destruct (vt_taken _ _ Htab1 _ _ Hkf)).
  assert (∀ x, a ≤ x < a + 16 → frame_of x ≠ f ∧ frame_of x ≠ kroot) as Hblk.
  { intros x Hx. destruct (hc_block _ _ _ Hc1 _ _ _ Hb) as (_ & Htk & _). split.
    - intros <-. by destruct (Htk x ltac:(lia)) as (_ & _ & ?).
    - intros <-. by apply (Hsep1 a c n x _ Hb ltac:(lia) HTk). }
  destruct (vt_taken _ _ Htab1 _ _ HTk) as [Hkr _].
  destruct (fill_space (set_vm_mm (set_pg p' t1) (set_vm_mm t1 s)) a f kroot) as (m' & Hfill & Hsp & Hz & Hup & Hm);
    [lia|lia|lia|lia|lia|by intros ->; apply (HTf _ HTk)|done|done|].
  cbn [set_vm_mm vm_mm set_pg set_mem mm_mem mm_pg mm_caches kernel_addr_space cr3] in *.
  rewrite Hfill. intros [= <- <-]. clear Hfill. split; [reflexivity|].
  set (s2 := set_mem m' (set_pg p' t1)).
  destruct (tables_add_root t1 T f s2 Htab1 Hff ltac:(lia) Hwf' Hct Hfree') as (Htab2 & Hemp & Hoth).
  { intros x k Hx. apply Hm; [by intros Ex; apply (HTf k); rewrite <- Ex|].
    intros Hin. by apply (Hsep1 a c n x k Hb ltac:(lia)). }
  { done. }
  exists G1, fls1, f. split; [split| | | | | | | | | |]; cbn [set_vm_mm vm_mm].
  - split; [|exact Hcnt1]. apply (core_write_live _ _ _ a c n); [done|apply Hlive; by right|done|].
    intros b' c' n' x Hb' Hx Hnx. apply Hm; [|lia]. intros Ex. destruct (Hd _ _ _ Hb'); apply frame_of_range in Ex; lia.
  - done.
  - intros b' c' n' x k Hb' Hx [[_ Ex]|[_ HT]]%lookup_insert_Some; [|by eapply Hsep1].
    destruct (hc_block _ _ _ Hc1 _ _ _ Hb') as (_ & Htk & _). destruct (Htk x Hx) as (_ & _ & Hno).
    by rewrite <- Ex in Hno.
  - done.
  - done.
  - done.
  - done.
  - done.
  - intros i Hi. rewrite <- (Hslot1 _ _ i HTk) by lia. by apply Hup.
  - intros r vpn Hr. rewrite <- Hpte1. by apply Hoth.
  - intros x Hx Hnx. rewrite Hm; [by apply (af_mem _ _ _ _ Hfr)| |done].
    intros E. apply Hx, (af_free _ _ _ _ Hfr). by rewrite E.
  - pose proof (af_free _ _ _ _ Hfr). split; [by apply (af_free _ _ _ _ Hfr)|]. cbn. set_solver.
  - apply Hfr.
Qed.

Lemma create_user_space_safe s G fls T kroot :
  mm_inv (vm_mm s) G fls T → kernel_addr_space s = space_at kroot → T !! (kroot, 3, 0) = Some kroot →
  safe (vmm_create_user_space s).
Proof.
  intros [Hheap Htab Hsep] Hk HTk. unfold vmm_create_user_space. apply safe_bind; [by apply safe_zoom; eapply kmalloc_safe; [|lia]|].
  intros a s1 Hrun. apply zoom_Ret_inv in Hrun as (t1 & Hmal & ->).
  destruct (kmalloc_spec _ _ _ 16 _ _ Hheap ltac:(lia) Hmal) as (G1 & fls1 & c & n & [Hc1 Hcnt1] & Hb & Hn & Hnl & Hlive & Hold & Hfr).
  destruct (a =? 0); [done|]. apply safe_bind; [apply safe_zoom, safe_zoom, fa_alloc_safe, (hc_wf _ _ _ Hc1)|].
  intros phys s2 Hrun. apply zoom_Ret_inv in Hrun as (t2 & Hal & ->).
  destruct (fresh_frame _ _ _ _ _ Hc1 Hal) as (f & -> & Epage & Hc2 & Em & Eca & Ht & Hd & Hff & Hsub & Hct).
  destruct (f * 4096 =? 0); [done|]. pose proof (fa_free_bound _ _ (hc_wf _ _ _ Hc1) Hff). pose proof (hc_hhdm _ _ _ Hc1).
  destruct (tables_after_kmalloc _ _ _ _ _ _ _ (Build_mm_inv _ _ _ _ Hheap Htab Hsep) (conj Hc1 Hcnt1) Hfr) as (Htab1 & _ & _ & Hsep1).
  destruct (vt_taken _ _ Htab1 _ _ HTk) as [Hkr Hkf].
  destruct (fill_space (set_vm_mm t2 (set_vm_mm t1 s)) a f kroot) as (m' & -> & _); [lia|lia|lia|lia|lia|by intros ->| |done|done].
  intros x Hx. destruct (hc_block _ _ _ Hc1 _ _ _ Hb) as (_ & Htk & _). split.
  - intros <-. by destruct (Htk x ltac:(lia)) as (_ & _ & ?).
  - intros <-. by apply (Hsep1 a c n x _ Hb ltac:(lia) HTk).
Qed.

(** vmm_init, from the boot loader's tables rooted at frame [q]. *)
Lemma vmm_init_run s q :
  fa_wf (mm_pg (vm_mm s)) → 0 < hhdm_offset → hhdm_offset + fa_count (mm_pg (vm_mm s)) * 4096 ≤ W64 →
  0 ≤ cr3 s < W64 → cr3 s / 4096 = q → q < fa_count (mm_pg (vm_mm s)) → q ∉ fa_free (mm_pg (vm_mm s)) →
  fa_free (mm_pg (vm_mm s)) ≠ ∅ → 0 ∉ fa_free (mm_pg (vm_mm s)) →
  ∃ f s', vmm_init s = Ret (tt, s') ∧ kernel_addr_space s' = space_at f ∧ cr3 s' = f * 4096 ∧
    f ∈ fa_free (mm_pg (vm_mm s)) ∧ tables_ok (vm_mm s') {[(f, 3, 0) := f]} ∧
    (∀ vpn, pte_of (vm_mm s') {[(f, 3, 0) := f]} f vpn = None) ∧
    (∀ i, 256 ≤ i < 512 →
       load64 (mm_mem (vm_mm s')) (slot f i) = load64 (mm_mem (vm_mm s)) (slot q i)) ∧
    (∀ a, frame_of a ≠ f → load8 (mm_mem (vm_mm s')) a = load8 (mm_mem (vm_mm s)) a) ∧
    ∃ p' m', fa_alloc (mm_pg (vm_mm s)) = Ret (f * 4096, p') ∧ s' = mkVm (mkMm p' m' (mm_caches (vm_mm s))) (space_at f) (f * 4096).
Proof.
  intros Hwf Hh Hw Hcr Hq Hqc Hqf Hne H0. assert (tables_ok (vm_mm s) ∅) as Hok0 by (split; done).
  destruct (fa_alloc_total _ Hwf Hne) as (x & p' & Hal).
  destruct (fa_alloc_ok _ _ _ Hwf Hal) as (f & -> & Hf & Hwf' & Hct & Hfree).
  pose proof (fa_free_bound _ _ Hwf Hf). assert (f ≠ 0) by (by intros ->).
  assert (0 ≤ q) by (subst q; apply Z.div_pos; lia).
  assert (f ≠ q) as Hfq by (by intros ->).
  unfold vmm_init. erewrite bind_Ret by (apply in_mm_Ret; apply zoom_Ret; exact Hal).
  destruct (Z.eqb_spec (f * 4096) 0); [lia|]. rewrite bind_modify, bind_gets.
  unfold upd_mem. erewrite bind_Ret by (apply in_mm_Ret; reflexivity). rewrite bind_gets.
  cbn [set_vm_mm vm_mm set_pg set_mem mm_mem mm_pg mm_caches kernel_addr_space as_pml4 cr3].
  rewrite (u64_small (f * 4096 + hhdm_offset)), land_page_mask, Hq, (u64_small (q * 4096 + hhdm_offset)) by lia.
  replace (f * 4096 + hhdm_offset) with (hhdm_offset + f * 4096) by lia.
  replace (q * 4096 + hhdm_offset) with (hhdm_offset + q * 4096) by lia.
  set (m1 := memset _ _ _ _).
  destruct (copy_upper_run (mkMm p' m1 (mm_caches (vm_mm s))) f q) as (m' & Hrun & HC1 & HC2);
    [lia|lia|lia|lia|lia|done|]. cbn [mm_mem] in HC1, HC2.
  erewrite bind_Ret by (apply in_mm_Ret; exact Hrun). clear Hrun.
  assert (∀ a, frame_of a ≠ f → load8 m1 a = load8 (mm_mem (vm_mm s)) a) as Hm1.
  { intros a Ha. unfold m1. rewrite load8_memset, decide_False; [reflexivity| |lia].
    intros Hin. apply Ha, frame_of_range. lia. }
  assert (∀ a, frame_of a ≠ f → load8 m' a = load8 (mm_mem (vm_mm s)) a) as Hm'.
  { intros a Ha. rewrite HC2, Hm1; [reflexivity|exact Ha|]. intros Hin.
    apply Ha, frame_of_range. unfold slot in Hin. lia. }
  set (s2 := mkMm p' m' (mm_caches (vm_mm s))).
  destruct (tables_add_root (vm_mm s) ∅ f s2 Hok0 Hf ltac:(lia) Hwf' Hct Hfree) as (Hok & Hemp & _).
  { done. }
  { intros i Hi. apply load_le_zero. intros a Ha. cbn [s2 mm_mem]. rewrite HC2 by (unfold slot in *; lia).
    unfold m1. rewrite load8_memset, decide_True by (unfold slot in *; lia). reflexivity. }
  exists f. eexists. split; [reflexivity|]. cbn [set_vm_mm vm_mm set_pg set_mem mm_mem mm_pg mm_caches kernel_addr_space cr3].
  split_and!; [unfold space_at; f_equal; lia|done|done|exact Hok|exact Hemp| |exact Hm'|].
  2:{ exists p', m'. split; [exact Hal|]. unfold space_at. by do 2 f_equal. }
  intros i Hi. rewrite HC1 by done. apply load_le_ext. intros a Ha. apply Hm1.
  rewrite (slot_frame q i a) by lia. done.
Qed.

Lemma vmm_init_spec s q :
  fa_wf (mm_pg (vm_mm s)) → 0 < hhdm_offset → hhdm_offset + fa_count (mm_pg (vm_mm s)) * 4096 ≤ W64 →
  0 ≤ cr3 s < W64 → cr3 s / 4096 = q → q < fa_count (mm_pg (vm_mm s)) → q ∉ fa_free (mm_pg (vm_mm s)) →
  fa_free (mm_pg (vm_mm s)) ≠ ∅ → 0 ∉ fa_free (mm_pg (vm_mm s)) →
  ∃ f s', vmm_init s = Ret (tt, s') ∧ kernel_addr_space s' = space_at f ∧ cr3 s' = f * 4096 ∧
    f ∈ fa_free (mm_pg (vm_mm s)) ∧ tables_ok (vm_mm s') {[(f, 3, 0) := f]} ∧
    (∀ vpn, pte_of (vm_mm s') {[(f, 3, 0) := f]} f vpn = None) ∧
    (∀ i, 256 ≤ i < 512 →
       load64 (mm_mem (vm_mm s')) (slot f i) = load64 (mm_mem (vm_mm s)) (slot q i)) ∧
    (∀ a, frame_of a ≠ f → load8 (mm_mem (vm_mm s')) a = load8 (mm_mem (vm_mm s)) a).
Proof.
  intros H1 H2 H3 H4 H5 H6 H7 H8 H9.
  destruct (vmm_init_run s q H1 H2 H3 H4 H5 H6 H7 H8 H9) as (f & s' & K1 & K2 & K3 & K4 & K5 & K6 & K7 & K8 & _).
  by exists f, s'.
Qed.

End Vmm.
