(* ===== verification/VmmThms.v ===== *)
(** * Theorems about the virtual memory manager

    As for the heap, the theorems hold for every frame allocator that keeps the
    promises of [FrameAllocator]; the witnesses boot the memory subsystem on
    pmm.c in the order of kmain: vmm_init from boot tables in frame 0x20, then
    slab_init, then an address space with one page. *)

From S2P Require Import Prelude ByteMem FrameAlloc Pmm Heap HeapThms Vmm.

(** ** A concrete machine *)

Definition demo_vm0 : vm_state pmm_state := mkVm demo_mm (mkSpace 0 0) 0x20000.
Definition demo_vm1 : vm_state pmm_state := state_of demo_vm0 (vmm_init demo_vm0).
Definition demo_mm2 : mm_state pmm_state := state_of (vm_mm demo_vm1) (slab_init (vm_mm demo_vm1)).
Definition demo_vm2 : vm_state pmm_state := set_vm_mm demo_mm2 demo_vm1.
Definition demo_space : Z := 0xffff800000003fe0.
Definition demo_vm3 : vm_state pmm_state := state_of demo_vm2 (vmm_create_user_space demo_vm2).
Definition demo_page : Z := 0x400000.
Definition demo_mm4 : mm_state pmm_state :=
  state_of (vm_mm demo_vm3) (vmm_map_page (space_at 4) demo_page 0x7000 7 (vm_mm demo_vm3)).

Lemma demo_init_run : vmm_init demo_vm0 = Ret (tt, demo_vm1).
Proof. apply run_value. vm_compute. reflexivity. Qed.

Lemma demo_slab_run : slab_init (vm_mm demo_vm1) = Ret (tt, demo_mm2).
Proof. apply run_value. vm_compute. reflexivity. Qed.

Lemma demo_space_run : vmm_create_user_space demo_vm2 = Ret (demo_space, demo_vm3).
Proof. apply run_value. vm_compute. reflexivity. Qed.

Lemma demo_map_run :
  vmm_map_page (space_at 4) demo_page 0x7000 7 (vm_mm demo_vm3) = Ret (tt, demo_mm4).
Proof. apply run_value. vm_compute. reflexivity. Qed.

Lemma demo_boot_facts :
  0 ≤ cr3 demo_vm0 < W64 ∧ cr3 demo_vm0 / 4096 = 0x20 ∧
  (32 < page_count (mm_pg (vm_mm demo_vm0))) ∧ (0x20 ∉ free_frames (mm_pg (vm_mm demo_vm0))) ∧ free_frames (mm_pg (vm_mm demo_vm0)) ≠ ∅ ∧
  0 ∉ free_frames (mm_pg (vm_mm demo_vm0)).
Proof.
  split_and!; [vm_compute; discriminate|vm_compute; reflexivity..| | |].
  - apply (bool_decide_unpack _). vm_compute. exact I.
  - apply (non_empty_inhabited_L 0x10f). apply (bool_decide_unpack _). vm_compute. exact I.
  - apply (bool_decide_unpack _). vm_compute. exact I.
Qed.

Lemma demo_vm1_ok : kernel_addr_space demo_vm1 = space_at 2 ∧ tables_ok (vm_mm demo_vm1) {[(2, 3, 0) := 2]}.
Proof.
  destruct demo_boot_facts as (H1 & H2 & H3 & H4 & H5 & H6). destruct demo_wf as (W1 & W2 & W3).
  destruct (vmm_init_spec demo_vm0 0x20 W1 W2 W3 H1 H2 H3 H4 H5 H6)
    as (f & s' & Hrun & Hk & Hc & _ & Hok & _).
  destruct (run_det _ _ _ _ _ demo_init_run Hrun) as [_ <-].
  assert (f = 2) as ->; [|split; [exact Hk|exact Hok]].
  assert (as_pml4_phys (kernel_addr_space demo_vm1) = 2 * 4096) as E by (vm_compute; reflexivity).
  rewrite Hk in E. cbn [space_at as_pml4_phys] in E. clear -E. lia.
Qed.

(** slab_init after vmm_init: no block, the kernel's tables. *)
Lemma boot_inv (s1 : vm_state pmm_state) (m2 : mm_state pmm_state) T :
  tables_ok (vm_mm s1) T → slab_init (vm_mm s1) = Ret (tt, m2) →
  kernel_addr_space (set_vm_mm m2 s1) = kernel_addr_space s1 ∧
  mm_inv (vm_mm (set_vm_mm m2 s1)) ∅ (replicate 8 []) T.
Proof.
  intros Hok Hrun. split; [done|]. destruct (vt_hhdm _ _ Hok) as [H1 H2].
  destruct (slab_init_ok (vm_mm s1) (vt_wf _ _ Hok) H1 H2) as (s' & Hrun' & _ & Hinv).
  destruct (run_det _ _ _ _ _ Hrun Hrun') as [_ <-]. split; [exact (co_inv _ _ _ Hinv)| |done].
  injection Hrun as <-. destruct Hok. by split.
Qed.

Lemma demo_vm2_ok :
  kernel_addr_space demo_vm2 = space_at 2 ∧
  mm_inv (vm_mm demo_vm2) ∅ (replicate 8 []) {[(2, 3, 0) := 2]}.
Proof.
  destruct demo_vm1_ok as [Hk Hok]. destruct (boot_inv _ _ _ Hok demo_slab_run) as [Hk2 Hinv].
  unfold demo_vm2. rewrite Hk2. exact (conj Hk Hinv).
Qed.

Lemma demo_vm3_ok :
  kernel_addr_space demo_vm3 = space_at 2 ∧
  tables_ok (vm_mm demo_vm3) (<[(4, 3, 0) := 4]> {[(2, 3, 0) := 2]}).
Proof.
  destruct demo_vm2_ok as [Hk Hinv].
  destruct (create_user_space_spec demo_vm2 _ _ _ 2 demo_space demo_vm3 Hinv Hk)
    as (Hk' & G' & fls' & f & Hns).
  - apply lookup_singleton_eq.
  - exact demo_space_run.
  - split; [rewrite Hk'; exact Hk|]. assert (f = 4) as <-; [|exact (mi_tables _ _ _ _ (ns_inv _ _ _ _ _ _ _ _ _ _ Hns))].
    pose proof (ns_space _ _ _ _ _ _ _ _ _ _ Hns) as Hsp.
    assert (as_pml4_phys (read_space (mm_mem (vm_mm demo_vm3)) demo_space) = 4 * 4096) as E
      by (vm_compute; reflexivity).
    rewrite Hsp in E. cbn [space_at as_pml4_phys] in E. clear -E. lia.
Qed.

Definition demo_tables : gmap (Z * Z * Z) Z := <[(4, 3, 0) := 4]> {[(2, 3, 0) := 2]}.

Lemma demo_user_root : demo_tables !! (4, 3, 0) = Some 4.
Proof. apply lookup_insert_eq. Qed.

(** ** The properties *)

Section VmmTheorems.
Context {P : Type} `{FA : FrameAllocator P} `{B : Boot}.

(** What an operation that only takes frames leaves of the allocator. *)
Record shrinks (s s' : mm_state P) : Prop := {
  sh_wf : fa_wf (mm_pg s');
  sh_count : fa_count (mm_pg s') = fa_count (mm_pg s);
  sh_free : fa_free (mm_pg s') ⊆ fa_free (mm_pg s);
}.

Lemma shrinks_refl s : fa_wf (mm_pg s) → shrinks s s.
Proof. by split. Qed.

Lemma shrinks_trans s1 s2 s3 : shrinks s1 s2 → shrinks s2 s3 → shrinks s1 s3.
Proof. intros [_ C1 F1] [W C2 F2]. split; [done|by rewrite C2|by etrans]. Qed.

(** Mapping a page never faults: it succeeds or panics. *)
Lemma walk_level_wp msg alloc ptr s : fa_wf (mm_pg s) → wp (walk_level msg alloc ptr s) (λ _ s', shrinks s s').
Proof.
  intros Hwf. unfold walk_level, rd64. rewrite bind_gets. destruct (present _); [by apply shrinks_refl|]. destruct (negb alloc); [by apply shrinks_refl|].
  apply wp_bind. unfold pg. apply wp_zoom. apply wp_safe; [by apply fa_alloc_safe|]. intros a p' Hrun.
  destruct (fa_alloc_ok _ _ _ Hwf Hrun) as (f & _ & _ & Hwf' & Hc & Hf). destruct (a =? 0); [done|].
  split; [done|exact Hc|]. cbn. rewrite Hf. by apply subseteq_difference_l.
Qed.

Lemma map_page_shrinks space virt phys flags s : fa_wf (mm_pg s) → wp (vmm_map_page space virt phys flags s) (λ _ s', shrinks s s').
Proof.
  intros Hwf. unfold vmm_map_page. apply wp_bind. unfold vmm_get_pte.
  apply wp_bind. eapply wp_mono; [by apply walk_level_wp|]. intros [p1|] s1 H1; [|done].
  apply wp_bind. eapply wp_mono; [by apply walk_level_wp, (sh_wf _ _ H1)|]. intros [p2|] s2 H2; [|done].
  apply wp_bind. eapply wp_mono; [by apply walk_level_wp, (sh_wf _ _ H2)|]. intros [p3|] s3 H3; [|done].
  assert (shrinks s s3) as [W C F] by (eapply shrinks_trans; [exact H1|]; by eapply shrinks_trans).
  cbn. case_match; [done|]. by split.
Qed.

Lemma map_page_wf space virt phys flags s : fa_wf (mm_pg s) → wp (vmm_map_page space virt phys flags s) (λ _ s', fa_wf (mm_pg s')).
Proof. intros Hwf. eapply wp_mono; [by apply map_page_shrinks|]. intros [] s' H. apply (sh_wf _ _ H). Qed.

Lemma map_page_safe space virt phys flags s : fa_wf (mm_pg s) → safe (vmm_map_page space virt phys flags s).
Proof. intros Hwf. pose proof (map_page_wf space virt phys flags s Hwf) as H. by destruct (vmm_map_page space virt phys flags s) as [[]| | |]. Qed.

(** C3. vmm_map_page implements an update of one page of one address space: it
    maps the page of [virt] to the entry built from [phys] and [flags], changes
    no other page of this or of any other space, no entry of the kernel half and
    no byte outside this space's tables and frames that were free; and it
    succeeds whenever three frames are free. *)
Theorem vmm_map_page_refines (s : mm_state P) (T : gmap (Z * Z * Z) Z) (r virt phys flags : Z) :
  tables_ok s T → T !! (r, 3, 0) = Some r → 0 ≤ virt < 2 ^ 47 → 0 ≤ phys < W64 → 0 ≤ flags < W64 →
  (∀ s', vmm_map_page (space_at r) virt phys flags s = Ret (tt, s') →
     ∃ T', update_post s T r (virt / 4096) (Some (leaf_entry phys flags)) s' T') ∧
  ((3 ≤ size (fa_free (mm_pg s)))%nat → 0 ∉ fa_free (mm_pg s) →
     ∃ s', vmm_map_page (space_at r) virt phys flags s = Ret (tt, s')).
Proof.
  intros Hok HT Hv Hp Hf. split.
  - intros s' Hrun. by apply map_page_spec.
  - intros Hsz H0. by eapply map_page_total.
Qed.

(** vmm_get_mapping reads the abstract address space, on every user
    address and without changing the state: no mapping (-1) exactly when no
    present leaf entry exists, and otherwise the page address and the low flags
    of that entry. *)
Theorem vmm_get_mapping_correct (s : mm_state P) (T : gmap (Z * Z * Z) Z) (r virt : Z) :
  tables_ok s T → T !! (r, 3, 0) = Some r → 0 ≤ virt < 2 ^ 47 →
  vmm_get_mapping (space_at r) virt s =
    Ret (match pte_of s T r (virt / 4096) with
         | Some e => Some (ENTRY_TO_PHYS e, Z.land e 0xfff)
         | None => None
         end, s).
Proof.
  intros Hok HT Hv. rewrite (get_mapping_spec s T r virt Hok HT Hv). by destruct (pte_of _ _ _ _).
Qed.

Lemma leaf_entry_low phys flags :
  0 ≤ phys < W64 → 0 ≤ flags < 4096 →
  ENTRY_TO_PHYS (leaf_entry phys flags) = phys / 4096 * 4096 ∧
  Z.land (leaf_entry phys flags) 0xfff = Z.lor flags 1.
Proof.
  intros Hp Hf. unfold leaf_entry. rewrite land_page_mask by done. change PAGE_PRESENT with 1.
  assert (0 ≤ Z.lor flags 1 < 2 ^ 12) as Hl.
  { split; [apply Z.lor_nonneg; lia|]. apply bounded_testbit; [lia|apply Z.lor_nonneg; lia|].
    intros i Hi. rewrite Z.lor_spec, !(testbit_bounded _ 12) by lia. done. }
  rewrite lor_low by lia. pose proof (Z.div_mod phys 4096 ltac:(lia)).
  pose proof (Z.mod_pos_bound phys 4096 ltac:(lia)). unfold ENTRY_TO_PHYS.
  rewrite land_page_mask, land_4095 by lia. rewrite Z.div_add_l, (Z.div_small (Z.lor flags 1)) by lia. split; [lia|].
  rewrite Z.add_comm, Z.mod_add by lia. apply Z.mod_small. lia.
Qed.

(** Map, then look up: with flags below bit 12, vmm_get_mapping returns the
    physical page and the flags given to vmm_map_page (with the present bit) for
    every address of the page, and what it returned before for every other user
    page and every other space. *)
Theorem vmm_map_get_roundtrip (s s' : mm_state P) (T : gmap (Z * Z * Z) Z)
    (r virt phys flags r' virt' : Z) :
  tables_ok s T → T !! (r, 3, 0) = Some r → T !! (r', 3, 0) = Some r' →
  0 ≤ virt < 2 ^ 47 → 0 ≤ virt' < 2 ^ 47 → 0 ≤ phys < W64 → 0 ≤ flags < 4096 →
  vmm_map_page (space_at r) virt phys flags s = Ret (tt, s') →
  vmm_get_mapping (space_at r') virt' s' =
    if decide (r' = r ∧ virt' / 4096 = virt / 4096)
    then Ret (Some (phys / 4096 * 4096, Z.lor flags 1), s')
    else Ret (default None (value_of (vmm_get_mapping (space_at r') virt' s)), s').
Proof.
  intros Hok HT HT' Hv Hv' Hp Hf Hrun.
  destruct (map_page_spec s T r virt phys flags s' Hok HT Hv Hp ltac:(lia) Hrun) as (T1 & [Hok1 Hext _ Hpte _ _]).
  rewrite (get_mapping_spec s' T1 r' virt' Hok1 (lookup_weaken _ _ _ _ HT' Hext) Hv'), Hpte.
  rewrite (get_mapping_spec s T r' virt' Hok HT' Hv'). case_decide; [|done]. simpl.
  destruct (leaf_entry_low phys flags Hp Hf) as [-> ->]. done.
Qed.

(** A page mapped non-executable does not read back: with the NX bit among
    the flags (as in VMM_FLAGS_USER_RW), the physical address that
    vmm_get_mapping reports has bit 63 set. *)
Theorem vmm_get_mapping_keeps_nx (s s' : mm_state P) (T : gmap (Z * Z * Z) Z) (r virt pfn : Z) :
  tables_ok s T → T !! (r, 3, 0) = Some r → 0 ≤ virt < 2 ^ 47 → 0 ≤ pfn < 2 ^ 40 →
  vmm_map_page (space_at r) virt (pfn * 4096) VMM_FLAGS_USER_RW s = Ret (tt, s') →
  vmm_get_mapping (space_at r) virt s' = Ret (Some (2 ^ 63 + pfn * 4096, 7), s').
Proof.
  intros Hok HT Hv Hp Hrun.
  destruct (map_page_spec s T r virt (pfn * 4096) VMM_FLAGS_USER_RW s' Hok HT Hv ltac:(lia)
    ltac:(vm_compute; split; [discriminate|done]) Hrun)
    as (T1 & [Hok1 Hext _ Hpte _ _]).
  rewrite (get_mapping_spec s' T1 r virt Hok1 (lookup_weaken _ _ _ _ HT Hext) Hv), Hpte, decide_True by done.
  assert (leaf_entry (pfn * 4096) VMM_FLAGS_USER_RW = (2 ^ 51 + pfn) * 4096 + 7) as ->.
  { unfold leaf_entry. rewrite land_page_mask, Z.div_mul by lia.
    change (Z.lor VMM_FLAGS_USER_RW PAGE_PRESENT) with (Z.lor (2 ^ 51 * 4096) 7).
    rewrite Z.lor_assoc. replace (Z.lor (pfn * 4096) (2 ^ 51 * 4096)) with ((2 ^ 51 + pfn) * 4096);
      [by apply lor_low|].
    change 4096 with (2 ^ 12). rewrite <- !Z.shiftl_mul_pow2, <- Z.shiftl_lor by lia. f_equal.
    rewrite Z.lor_comm. symmetry. rewrite <- Z.add_lor_land.
    replace (Z.land (2 ^ 51) pfn) with 0; [lia|]. symmetry. apply Z.bits_inj'. intros i Hi.
    rewrite Z.land_spec, Z.pow2_bits_eqb, Z.bits_0 by lia. destruct (Z.eqb_spec 51 i) as [<-|]; [|done].
    by rewrite (testbit_bounded pfn 40) by lia. }
  cbn [fmap option_fmap option_map]. unfold ENTRY_TO_PHYS. rewrite land_page_mask, land_4095 by lia.
  rewrite Z.div_add_l, (Z.div_small 7) by lia. rewrite (Z.add_comm _ 7), Z.mod_add by lia.
  change (7 mod 4096) with 7. by replace ((2 ^ 51 + pfn + 0) * 4096) with (2 ^ 63 + pfn * 4096) by lia.
Qed.

(** vmm_unmap_page removes exactly one page: it returns when the page is
    mapped and panics when it is not, and no other page of any space changes. *)
Theorem vmm_unmap_page_refines (s : mm_state P) (T : gmap (Z * Z * Z) Z) (r virt : Z) :
  tables_ok s T → T !! (r, 3, 0) = Some r → 0 ≤ virt < 2 ^ 47 →
  match vmm_unmap_page (space_at r) virt s with
  | Ret (_, s') => is_Some (pte_of s T r (virt / 4096)) ∧ update_post s T r (virt / 4096) None s' T
  | Panic _ => pte_of s T r (virt / 4096) = None
  | _ => False
  end.
Proof. apply unmap_page_spec. Qed.

(** vmm_create_user_space returns a heap block that holds a new address
    space: no user page of it is mapped, its kernel half is the kernel's, and
    every mapping of every existing space, and the separation of heap blocks
    from page tables, is kept. *)
Theorem vmm_create_user_space_correct (s s' : vm_state P) (G : gmap Z (Z * Z)) (fls : list (list Z))
    (T : gmap (Z * Z * Z) Z) (kroot p : Z) :
  mm_inv (vm_mm s) G fls T → kernel_addr_space s = space_at kroot → T !! (kroot, 3, 0) = Some kroot →
  vmm_create_user_space s = Ret (p, s') →
  kernel_addr_space s' = kernel_addr_space s ∧
  ∃ G' fls' f, new_space (vm_mm s) G fls T kroot p (vm_mm s') G' fls' f.
Proof. apply create_user_space_spec. Qed.

(** vmm_init, started on the boot loader's tables, installs a kernel
    address space in a fresh frame: CR3 points to it, its upper half is the boot
    loader's, its lower half is empty, and no byte outside that frame changes. *)
Theorem vmm_init_correct (s : vm_state P) (q : Z) :
  fa_wf (mm_pg (vm_mm s)) → 0 < hhdm_offset → hhdm_offset + fa_count (mm_pg (vm_mm s)) * 4096 ≤ W64 →
  0 ≤ cr3 s < W64 → cr3 s / 4096 = q → q < fa_count (mm_pg (vm_mm s)) → q ∉ fa_free (mm_pg (vm_mm s)) →
  fa_free (mm_pg (vm_mm s)) ≠ ∅ → 0 ∉ fa_free (mm_pg (vm_mm s)) →
  ∃ f s', vmm_init s = Ret (tt, s') ∧ kernel_addr_space s' = space_at f ∧ cr3 s' = f * 4096 ∧
    f ∈ fa_free (mm_pg (vm_mm s)) ∧ tables_ok (vm_mm s') {[(f, 3, 0) := f]} ∧
    (∀ vpn, pte_of (vm_mm s') {[(f, 3, 0) := f]} f vpn = None) ∧
    (∀ i, 256 ≤ i < 512 →
       load64 (mm_mem (vm_mm s')) (slot f i) = load64 (mm_mem (vm_mm s)) (slot q i)) ∧
    (∀ a, frame_of a ≠ f → load8 (mm_mem (vm_mm s')) a = load8 (mm_mem (vm_mm s)) a).
Proof. apply vmm_init_spec. Qed.

End VmmTheorems.

(** ** Witnesses *)

Lemma vmm_map_page_refines_witness :
  ∃ T', update_post (vm_mm demo_vm3) demo_tables 4 (demo_page / 4096) (Some (leaf_entry 0x7000 7)) demo_mm4 T'.
Proof.
  destruct (vmm_map_page_refines (vm_mm demo_vm3) demo_tables 4 demo_page 0x7000 7) as [H _].
  - exact (proj2 demo_vm3_ok).
  - exact demo_user_root.
  - vm_compute. split; [discriminate|reflexivity].
  - split; [discriminate|reflexivity].
  - split; [discriminate|reflexivity].
  - exact (H _ demo_map_run).
Defined.

Lemma vmm_get_mapping_correct_witness :
  vmm_get_mapping (space_at 4) demo_page (vm_mm demo_vm3) =
  Ret (match pte_of (vm_mm demo_vm3) demo_tables 4 (demo_page / 4096) with
       | Some e => Some (ENTRY_TO_PHYS e, Z.land e 0xfff)
       | None => None
       end, vm_mm demo_vm3).
Proof.
  apply (vmm_get_mapping_correct (vm_mm demo_vm3) demo_tables 4 demo_page).
  - exact (proj2 demo_vm3_ok).
  - exact demo_user_root.
  - vm_compute. split; [discriminate|reflexivity].
Defined.

Lemma vmm_map_get_roundtrip_witness :
  vmm_get_mapping (space_at 4) 0x400abc demo_mm4 = Ret (Some (0x7000, 7), demo_mm4).
Proof.
  refine (eq_trans (vmm_map_get_roundtrip (vm_mm demo_vm3) demo_mm4 demo_tables 4 demo_page 0x7000 7 4 0x400abc
    _ _ _ _ _ _ _ _) _).
  - exact (proj2 demo_vm3_ok).
  - exact demo_user_root.
  - exact demo_user_root.
  - vm_compute. split; [discriminate|reflexivity].
  - vm_compute. split; [discriminate|reflexivity].
  - vm_compute. split; [discriminate|reflexivity].
  - vm_compute. split; [discriminate|reflexivity].
  - exact demo_map_run.
  - reflexivity.
Defined.

Definition demo_mm5 : mm_state pmm_state :=
  state_of (vm_mm demo_vm3)
    (vmm_map_page (space_at 4) demo_page (7 * 4096) VMM_FLAGS_USER_RW (vm_mm demo_vm3)).

Lemma demo_map_nx_run :
  vmm_map_page (space_at 4) demo_page (7 * 4096) VMM_FLAGS_USER_RW (vm_mm demo_vm3) = Ret (tt, demo_mm5).
Proof. apply run_value. vm_compute. reflexivity. Qed.

Lemma vmm_get_mapping_keeps_nx_witness :
  vmm_get_mapping (space_at 4) demo_page demo_mm5 = Ret (Some (2 ^ 63 + 7 * 4096, 7), demo_mm5).
Proof.
  apply (vmm_get_mapping_keeps_nx (vm_mm demo_vm3) demo_mm5 demo_tables 4 demo_page 7).
  - exact (proj2 demo_vm3_ok).
  - exact demo_user_root.
  - vm_compute. split; [discriminate|reflexivity].
  - vm_compute. split; [discriminate|reflexivity].
  - exact demo_map_nx_run.
Defined.

Lemma vmm_unmap_page_refines_witness :
  match vmm_unmap_page (space_at 4) demo_page (vm_mm demo_vm3) with
  | Ret (_, s') => is_Some (pte_of (vm_mm demo_vm3) demo_tables 4 (demo_page / 4096)) ∧
      update_post (vm_mm demo_vm3) demo_tables 4 (demo_page / 4096) None s' demo_tables
  | Panic _ => pte_of (vm_mm demo_vm3) demo_tables 4 (demo_page / 4096) = None
  | _ => False
  end.
Proof.
  apply (vmm_unmap_page_refines (vm_mm demo_vm3) demo_tables 4 demo_page).
  - exact (proj2 demo_vm3_ok).
  - exact demo_user_root.
  - vm_compute. split; [discriminate|reflexivity].
Defined.

Lemma vmm_create_user_space_correct_witness :
  ∃ G' fls' f, new_space (vm_mm demo_vm2) ∅ (replicate 8 []) {[(2, 3, 0) := 2]} 2 demo_space
                 (vm_mm demo_vm3) G' fls' f.
Proof.
  refine (proj2 (vmm_create_user_space_correct demo_vm2 demo_vm3 ∅ (replicate 8 []) {[(2, 3, 0) := 2]}
    2 demo_space _ _ _ _)).
  - exact (proj2 demo_vm2_ok).
  - exact (proj1 demo_vm2_ok).
  - apply lookup_singleton_eq.
  - exact demo_space_run.
Defined.

Lemma vmm_init_correct_witness :
  ∃ f s', vmm_init demo_vm0 = Ret (tt, s') ∧ kernel_addr_space s' = space_at f ∧ cr3 s' = f * 4096.
Proof.
  destruct demo_boot_facts as (H1 & H2 & H3 & H4 & H5 & H6). destruct demo_wf as (W1 & W2 & W3).
  destruct (vmm_init_correct demo_vm0 0x20 W1 W2 W3 H1 H2 H3 H4 H5 H6) as (f & s' & Hrun & Hk & Hc & _).
  exact (ex_intro _ f (ex_intro _ s' (conj Hrun (conj Hk Hc)))).
Defined.
