(* ===== verification/Kbd.v ===== *)
(** * The keyboard driver (src/devices/kb.c)

    Scancodes become events in a ring buffer of 256 slots, one of which is
    always empty.  The interrupt handler pushes, readers pop; a reader of an
    empty buffer halts until the next interrupt. *)

From S2P Require Import Prelude.

Inductive keycode :=
| KEY_NONE | KEY_CHAR | KEY_ENTER | KEY_BACKSPACE | KEY_TAB | KEY_ESC
| KEY_UP | KEY_DOWN | KEY_LEFT | KEY_RIGHT
| KEY_LSHIFT | KEY_RSHIFT | KEY_LCTRL | KEY_RCTRL | KEY_LALT | KEY_RALT | KEY_CAPSLOCK.

#[export] Instance keycode_eq_dec : EqDecision keycode.
Proof. solve_decision. Defined.

Record kbd_mods := mkMods { m_shift : bool; m_ctrl : bool; m_alt : bool; m_caps : bool }.
Record kbd_event := mkEvent { ev_code : keycode; ev_ch : Z; ev_pressed : bool; ev_mods : kbd_mods }.

Definition no_mods : kbd_mods := mkMods false false false false.
Definition null_event : kbd_event := mkEvent KEY_NONE 0 false no_mods.

Definition KBD_BUF_SIZE : Z := 256.

(** The static variables of kb.c. *)
Record kbd_state := mkKbd {
  kbd_buf : list kbd_event; kbd_head : Z; kbd_tail : Z; mods : kbd_mods }.

Definition kbd_boot : kbd_state := mkKbd (replicate 256 null_event) 0 0 no_mods.

(** The character tables, as character codes. *)
Definition scancode_ascii : list Z :=
  [0; 27; 49; 50; 51; 52; 53; 54; 55; 56; 57; 48; 45; 61; 8;
   9; 113; 119; 101; 114; 116; 121; 117; 105; 111; 112; 91; 93; 10;
   0; 97; 115; 100; 102; 103; 104; 106; 107; 108; 59; 39; 96;
   0; 92; 122; 120; 99; 118; 98; 110; 109; 44; 46; 47;
   0; 42; 0; 32; 0].

Definition scancode_ascii_shifted : list Z :=
  [0; 27; 33; 64; 35; 36; 37; 94; 38; 42; 40; 41; 95; 43; 8;
   9; 81; 87; 69; 82; 84; 89; 85; 73; 79; 80; 123; 125; 10;
   0; 65; 83; 68; 70; 71; 72; 74; 75; 76; 58; 34; 126;
   0; 124; 90; 88; 67; 86; 66; 78; 77; 60; 62; 63;
   0; 42; 0; 32; 0].

Definition scancode_keycode (code : Z) : keycode :=
  if code =? 0x1c then KEY_ENTER
  else if code =? 0x0e then KEY_BACKSPACE
  else if code =? 0x0f then KEY_TAB
  else if code =? 0x01 then KEY_ESC
  else if code =? 0x2a then KEY_LSHIFT
  else if code =? 0x36 then KEY_RSHIFT
  else if code =? 0x1d then KEY_LCTRL
  else if code =? 0x38 then KEY_LALT
  else if code =? 0x3a then KEY_CAPSLOCK
  else KEY_NONE.

Abbreviation K := (M kbd_state).

Definition set_mods (m : kbd_mods) (s : kbd_state) : kbd_state :=
  mkKbd (kbd_buf s) (kbd_head s) (kbd_tail s) m.

(** An assignment to kbd_buf[i]; outside the array it is a fault. *)
Definition buf_write (i : Z) (ev : kbd_event) : K unit :=
  b <- gets kbd_buf ;;
  if (0 <=? i) && (i <? Z.of_nat (length b))
  then modify (λ s, mkKbd (<[Z.to_nat i := ev]> (kbd_buf s)) (kbd_head s) (kbd_tail s) (mods s))
  else fault.
Definition buf_read (i : Z) : K kbd_event :=
  b <- gets kbd_buf ;; if 0 <=? i then of_opt (b !! Z.to_nat i) else fault.

Definition kbd_push (ev : kbd_event) : K unit :=
  head <- gets kbd_head ;;
  tail <- gets kbd_tail ;;
  let next := (head +64 1) mod KBD_BUF_SIZE in
  if negb (next =? tail) then
    buf_write head ev ;;;
    modify (λ s, mkKbd (kbd_buf s) next (kbd_tail s) (mods s))
  else ret tt.

Definition update_mods (code : keycode) (pressed : bool) : K unit :=
  m <- gets mods ;;
  match code with
  | KEY_LSHIFT | KEY_RSHIFT => modify (set_mods (mkMods pressed (m_ctrl m) (m_alt m) (m_caps m)))
  | KEY_LCTRL => modify (set_mods (mkMods (m_shift m) pressed (m_alt m) (m_caps m)))
  | KEY_LALT => modify (set_mods (mkMods (m_shift m) (m_ctrl m) pressed (m_caps m)))
  | KEY_CAPSLOCK =>
      if pressed then modify (set_mods (mkMods (m_shift m) (m_ctrl m) (m_alt m) (negb (m_caps m))))
      else ret tt
  | _ => ret tt
  end.

Definition table_read (t : list Z) (i : Z) : K Z := of_opt (t !! Z.to_nat i).

Definition kbd_handle_scancode (sc : Z) : K unit :=
  let released := negb (Z.land sc 0x80 =? 0) in
  let code := Z.land sc 0x7f in
  let special := scancode_keycode code in
  (if bool_decide (special ≠ KEY_NONE) then update_mods special (negb released) else ret tt) ;;;
  m <- gets mods ;;
  if bool_decide (special ≠ KEY_NONE) then kbd_push (mkEvent special 0 (negb released) m)
  else
    if code <? Z.of_nat (length scancode_ascii) then
      base <- table_read scancode_ascii code ;;
      if negb (base =? 0) then
        let is_letter := (97 <=? base) && (base <=? 122) in
        let use_shifted := if is_letter && m_caps m then negb (m_shift m) else m_shift m in
        ch <- (if use_shifted then table_read scancode_ascii_shifted code
               else table_read scancode_ascii code) ;;
        kbd_push (mkEvent KEY_CHAR ch (negb released) m)
      else ret tt
    else ret tt.

Definition kbd_getmods : K kbd_mods := gets mods.

Definition kbd_hasevent : K bool :=
  head <- gets kbd_head ;; tail <- gets kbd_tail ;; ret (negb (head =? tail)).

Definition kbd_haschar : K bool := kbd_hasevent.

(** [pending]: the interrupts still to come, as the scancodes they deliver.  A reader that
    halts is woken by the next one; [None] says that it waits forever. *)
Fixpoint kbd_getevent (pending : list Z) (s : kbd_state) : outcome (option (kbd_event * list Z) * kbd_state) :=
  if kbd_head s =? kbd_tail s then
    match pending with
    | [] => Ret (None, s)
    | sc :: pending' => (kbd_handle_scancode sc ;;; kbd_getevent pending') s
    end
  else
    (ev <- buf_read (kbd_tail s) ;;
     modify (λ s, mkKbd (kbd_buf s) (kbd_head s) ((kbd_tail s +64 1) mod KBD_BUF_SIZE) (mods s)) ;;;
     ret (Some (ev, pending))) s.

(** What kbd_getchar makes of an event: [None] is [continue]. *)
Definition event_char (ev : kbd_event) : option Z :=
  if negb (ev_pressed ev) then None
  else if bool_decide (ev_code ev = KEY_CHAR) then Some (ev_ch ev)
  else if bool_decide (ev_code ev = KEY_ENTER) then Some 10
  else if bool_decide (ev_code ev = KEY_BACKSPACE) then Some 8
  else if bool_decide (ev_code ev = KEY_TAB) then Some 9
  else None.

(** The [for (;;)] of kbd_getchar; the fuel bounds the events looked at. *)
Fixpoint kbd_getchar (fuel : nat) (pending : list Z) : K (option (Z * list Z)) :=
  match fuel with
  | O => diverge
  | S fuel' =>
      r <- kbd_getevent pending ;;
      match r with
      | None => ret None
      | Some (ev, pending') =>
          match event_char ev with
          | Some c => ret (Some (c, pending'))
          | None => kbd_getchar fuel' pending'
          end
      end
  end.

(** ** The abstract keyboard: modifiers and a bounded queue *)

(** [q] lists the events between tail and head, oldest first. *)
Record kbd_rep (s : kbd_state) (q : list kbd_event) : Prop := {
  kr_buf : length (kbd_buf s) = 256%nat;
  kr_head : 0 ≤ kbd_head s < 256;
  kr_tail : 0 ≤ kbd_tail s < 256;
  kr_len : Z.of_nat (length q) = (kbd_head s - kbd_tail s) mod 256;
  kr_slot : ∀ i ev, q !! i = Some ev →
    kbd_buf s !! Z.to_nat ((kbd_tail s + Z.of_nat i) mod 256) = Some ev;
}.

(** A queue of capacity 255 that drops what does not fit. *)
Definition enqueue (q : list kbd_event) (ev : kbd_event) : list kbd_event :=
  if decide (length q < 255)%nat then q ++ [ev] else q.

(** The effect of one scancode on the modifiers, and the event it produces. *)
Definition next_mods (m : kbd_mods) (sc : Z) : kbd_mods :=
  let pressed := sc <? 128 in
  match scancode_keycode (sc mod 128) with
  | KEY_LSHIFT | KEY_RSHIFT => mkMods pressed (m_ctrl m) (m_alt m) (m_caps m)
  | KEY_LCTRL => mkMods (m_shift m) pressed (m_alt m) (m_caps m)
  | KEY_LALT => mkMods (m_shift m) (m_ctrl m) pressed (m_caps m)
  | KEY_CAPSLOCK => mkMods (m_shift m) (m_ctrl m) (m_alt m) (xorb pressed (m_caps m))
  | _ => m
  end.

Definition is_letter (c : Z) : bool := (97 <=? c) && (c <=? 122).

Definition key_event (m : kbd_mods) (sc : Z) : option kbd_event :=
  let pressed := sc <? 128 in
  match scancode_keycode (sc mod 128) with
  | KEY_NONE =>
      base ← scancode_ascii !! Z.to_nat (sc mod 128);
      if base =? 0 then None
      else
        ch ← (if xorb (m_shift m) (is_letter base && m_caps m) then scancode_ascii_shifted
              else scancode_ascii) !! Z.to_nat (sc mod 128);
        Some (mkEvent KEY_CHAR ch pressed m)
  | k => Some (mkEvent k 0 pressed m)
  end.

Definition kbd_step (a : kbd_mods * list kbd_event) (sc : Z) : kbd_mods * list kbd_event :=
  let m := next_mods a.1 sc in
  (m, match key_event m sc with Some ev => enqueue a.2 ev | None => a.2 end).

(** ** The ring buffer is the queue *)

Lemma rep_boot : kbd_rep kbd_boot [].
Proof. split; simpl; try lia; try done. Qed.

Lemma rep_empty s q : kbd_rep s q → (kbd_head s =? kbd_tail s) = bool_decide (q = []).
Proof.
  intros [_ Hh Ht Hl _]. destruct (Z.eqb_spec (kbd_head s) (kbd_tail s)) as [E|E].
  - rewrite E, Z.sub_diag in Hl. destruct q; [done|]. cbn [length] in Hl. change (0 mod 256) with 0 in Hl. lia.
  - rewrite bool_decide_eq_false_2; [done|]. intros ->. simpl in Hl.
    apply E. symmetry in Hl. apply Z.mod_divide in Hl as [k Hk]; lia.
Qed.

Lemma buf_write_run s i ev :
  0 ≤ i < Z.of_nat (length (kbd_buf s)) →
  buf_write i ev s = Ret (tt, mkKbd (<[Z.to_nat i := ev]> (kbd_buf s)) (kbd_head s) (kbd_tail s) (mods s)).
Proof. intros Hi. unfold buf_write. rewrite bind_gets. by replace (_ && _) with true by lia. Qed.

Lemma kbd_push_spec s q ev :
  kbd_rep s q → ∃ s', kbd_push ev s = Ret (tt, s') ∧ mods s' = mods s ∧ kbd_rep s' (enqueue q ev).
Proof.
  intros [Hb Hh Ht Hl Hs]. unfold kbd_push, KBD_BUF_SIZE. rewrite !bind_gets. cbv zeta.
  rewrite (u64_small (kbd_head s + 1)) by lia.
  pose proof (Z.div_mod (kbd_head s - kbd_tail s) 256 ltac:(lia)).
  pose proof (Z.div_mod (kbd_head s + 1) 256 ltac:(lia)).
  pose proof (Z.mod_pos_bound (kbd_head s + 1) 256 ltac:(lia)).
  pose proof (Z.mod_pos_bound (kbd_head s - kbd_tail s) 256 ltac:(lia)). unfold enqueue.
  destruct (Z.eqb_spec ((kbd_head s + 1) mod 256) (kbd_tail s)) as [E|E]; cbn [negb].
  - exists s. rewrite decide_False by lia. split_and!; done.
  - erewrite bind_Ret by (apply buf_write_run; lia). unfold modify. rewrite decide_True by lia. eexists. split; [done|]. split; [done|].
    split; cbn [kbd_buf kbd_head kbd_tail mods].
    + by rewrite length_insert.
    + lia.
    + lia.
    + rewrite length_app. simpl. rewrite Nat2Z.inj_add, Hl. simpl.
      rewrite Zminus_mod_idemp_l. apply Z.mod_unique with (q := (kbd_head s - kbd_tail s) / 256); lia.
    + intros i e Hi. pose proof (lookup_lt_Some _ _ _ Hi) as Hlt. rewrite length_app in Hlt. simpl in Hlt.
      destruct (decide (i = length q)) as [->|].
      * rewrite lookup_app_r, Nat.sub_diag in Hi by lia. injection Hi as <-. rewrite Hl.
        rewrite Z.add_mod_idemp_r by lia. replace (kbd_tail s + (kbd_head s - kbd_tail s)) with (kbd_head s) by lia.
        rewrite Z.mod_small by lia. apply list_lookup_insert_eq. lia.
      * rewrite lookup_app_l in Hi by lia. rewrite list_lookup_insert_ne; [by apply Hs|].
        pose proof (Z.div_mod (kbd_tail s + Z.of_nat i) 256 ltac:(lia)).
        pose proof (Z.mod_pos_bound (kbd_tail s + Z.of_nat i) 256 ltac:(lia)). lia.
Qed.

Lemma kbd_pop_spec s ev q pending :
  kbd_rep s (ev :: q) →
  ∃ s', kbd_getevent pending s = Ret (Some (ev, pending), s') ∧ mods s' = mods s ∧ kbd_rep s' q.
Proof.
  intros Hr. pose proof (rep_empty _ _ Hr) as He. destruct Hr as [Hb Hh Ht Hl Hs].
  rewrite bool_decide_eq_false_2 in He by done.
  assert (kbd_getevent pending s = (ev <- buf_read (kbd_tail s) ;;
     modify (λ s, mkKbd (kbd_buf s) (kbd_head s) ((kbd_tail s +64 1) mod KBD_BUF_SIZE) (mods s)) ;;;
     ret (Some (ev, pending))) s) as -> by (destruct pending; simpl; by rewrite He).
  pose proof (Hs 0%nat ev eq_refl) as H0. rewrite Z.add_0_r, Z.mod_small in H0 by lia.
  unfold buf_read. replace (0 <=? kbd_tail s) with true by lia.
  erewrite bind_Ret by (rewrite bind_gets, H0; reflexivity).
  rewrite bind_modify. eexists. split; [done|]. split; [done|].
  pose proof (Z.mod_pos_bound (kbd_tail s + 1) 256 ltac:(lia)).
  split; unfold KBD_BUF_SIZE; cbn [kbd_buf kbd_head kbd_tail mods]; rewrite ?u64_small by lia; try done.
  - rewrite Zminus_mod_idemp_r. simpl in Hl. symmetry.
    replace (kbd_head s - (kbd_tail s + 1)) with (kbd_head s - kbd_tail s + -1) by lia.
    rewrite <- Z.add_mod_idemp_l, <- Hl by lia.
    pose proof (Z.mod_pos_bound (kbd_head s - kbd_tail s) 256 ltac:(lia)).
    rewrite Z.mod_small by lia. lia.
  - intros i e Hi. rewrite Z.add_mod_idemp_l by lia. rewrite <- (Hs (S i) e Hi).
    f_equal. f_equal. f_equal. lia.
Qed.

Lemma getevent_empty s pending :
  kbd_rep s [] →
  kbd_getevent pending s =
    match pending with
    | [] => Ret (None, s)
    | sc :: pending' => (kbd_handle_scancode sc ;;; kbd_getevent pending') s
    end.
Proof. intros Hr. pose proof (rep_empty _ _ Hr) as He. destruct pending; simpl; by rewrite He. Qed.

(** ** The scancode handler *)

Lemma code_bits sc :
  0 ≤ sc < 256 → Z.land sc 0x7f = sc mod 128 ∧ negb (Z.land sc 0x80 =? 0) = negb (sc <? 128).
Proof.
  intros Hsc. split; [change 0x7f with (Z.ones 7); by rewrite Z.land_ones by lia|].
  assert (Forall (λ z, negb (Z.land z 0x80 =? 0) = negb (z <? 128)) (seqZ 0 256)) as HF.
  { apply (bool_decide_unpack _). vm_compute. exact I. }
  rewrite Forall_forall in HF. apply HF, elem_of_seqZ. lia.
Qed.

(** Both tables have an entry for every code the handler looks up. *)
Lemma tables_aligned : length scancode_ascii_shifted = length scancode_ascii.
Proof. reflexivity. Qed.

Lemma update_mods_run s sc :
  let k := scancode_keycode (sc mod 128) in
  (if bool_decide (k ≠ KEY_NONE) then update_mods k (sc <? 128) else ret tt) s =
  Ret (tt, set_mods (next_mods (mods s) sc) s).
Proof.
  intros k. unfold next_mods, k. destruct s as [b h t m]. unfold update_mods, set_mods, modify.
  destruct (scancode_keycode _); simpl; try rewrite bind_gets; simpl; try (destruct m; reflexivity).
  destruct (sc <? 128); simpl; destruct m; reflexivity.
Qed.

Lemma handle_spec s q sc :
  kbd_rep s q → 0 ≤ sc < 256 →
  ∃ s', kbd_handle_scancode sc s = Ret (tt, s') ∧
    mods s' = (kbd_step (mods s, q) sc).1 ∧ kbd_rep s' (kbd_step (mods s, q) sc).2.
Proof.
  intros Hr Hsc. destruct (code_bits sc Hsc) as [Ec Er]. unfold kbd_handle_scancode. cbv zeta.
  rewrite Ec, Er, negb_involutive. rewrite (bind_Ret _ _ _ _ _ (update_mods_run s sc)), bind_gets.
  set (s1 := set_mods _ s). assert (kbd_rep s1 q) as Hr1 by (destruct Hr; by split).
  unfold kbd_step. cbn [fst snd]. unfold key_event. set (m := next_mods (mods s) sc) in *.
  change (mods s1) with m.
  assert (∀ ev, ∃ s', kbd_push ev s1 = Ret (tt, s') ∧ mods s' = m ∧ kbd_rep s' (enqueue q ev)) as Hpush
    by (intros ev; apply (kbd_push_spec s1 q ev Hr1)).
  destruct (scancode_keycode (sc mod 128)) eqn:Ek;
    try (rewrite bool_decide_eq_true_2 by done; apply Hpush).
  rewrite bool_decide_eq_false_2 by (by intros []).
  pose proof (Z.mod_pos_bound sc 128 ltac:(lia)).
  destruct (Z.ltb_spec (sc mod 128) (Z.of_nat (length scancode_ascii))) as [Hlt|Hge].
  2:{ rewrite (lookup_ge_None_2 scancode_ascii) by lia. simpl. by exists s1. }
  destruct (lookup_lt_is_Some_2 scancode_ascii (Z.to_nat (sc mod 128))) as [base Hbase]; [lia|].
  destruct (lookup_lt_is_Some_2 scancode_ascii_shifted (Z.to_nat (sc mod 128))) as [sh Hsh];
    [rewrite tables_aligned; lia|].
  unfold table_read. rewrite Hbase, Hsh. cbn [of_opt]. rewrite bind_ret. cbn [mbind option_bind].
  destruct (base =? 0); cbn [negb]; [by exists s1|].
  fold (is_letter base). destruct (is_letter base), (m_caps m), (m_shift m); cbn [andb xorb negb];
    rewrite ?Hbase, ?Hsh; cbn [of_opt mbind option_bind]; rewrite bind_ret; apply Hpush.
Qed.

(** A sequence of interrupts. *)
Fixpoint handle_all (scs : list Z) : K unit :=
  match scs with
  | [] => ret tt
  | sc :: scs' => kbd_handle_scancode sc ;;; handle_all scs'
  end.

Lemma handle_all_spec scs : ∀ s q,
  kbd_rep s q → Forall (λ sc, 0 ≤ sc < 256) scs →
  ∃ s', handle_all scs s = Ret (tt, s') ∧
    mods s' = (foldl kbd_step (mods s, q) scs).1 ∧ kbd_rep s' (foldl kbd_step (mods s, q) scs).2.
Proof.
  induction scs as [|sc scs IH]; intros s q Hr Hs; [by exists s|].
  apply Forall_cons in Hs as [Hsc Hs]. destruct (handle_spec s q sc Hr Hsc) as (s1 & Hrun & Hm & Hr1).
  simpl. rewrite (bind_Ret _ _ _ _ _ Hrun). destruct (IH _ _ Hr1 Hs) as (s2 & Hrun2 & Hm2 & Hr2).
  exists s2. rewrite Hm, <- surjective_pairing in Hm2, Hr2. done.
Qed.

(** ** Reading characters *)

(** The first character of a list of events, and the events after it. *)
Fixpoint first_char (q : list kbd_event) : option (Z * list kbd_event) :=
  match q with
  | [] => None
  | ev :: q' => match event_char ev with Some c => Some (c, q') | None => first_char q' end
  end.

(** What a reader gets: the first character of the queue, or else of the events
    that the coming interrupts produce one at a time. *)
Fixpoint spec_getchar (m : kbd_mods) (q : list kbd_event) (pending : list Z)
    : option (Z * list Z) * kbd_mods * list kbd_event :=
  match first_char q with
  | Some (c, q') => (Some (c, pending), m, q')
  | None =>
      match pending with
      | [] => (None, m, [])
      | sc :: pending' =>
          let (m', q') := kbd_step (m, []) sc in spec_getchar m' q' pending'
      end
  end.

Definition getchar_ok (r : option (Z * list Z) * kbd_mods * list kbd_event)
    (o : outcome (option (Z * list Z) * kbd_state)) : Prop :=
  ∃ s', o = Ret (r.1.1, s') ∧ mods s' = r.1.2 ∧ kbd_rep s' r.2.

Lemma getchar_step fuel pending s :
  kbd_getchar (S fuel) pending s =
    (r <- kbd_getevent pending ;;
     match r with
     | None => ret None
     | Some (ev, pending') =>
         match event_char ev with
         | Some c => ret (Some (c, pending'))
         | None => kbd_getchar fuel pending'
         end
     end) s.
Proof. done. Qed.

(** Events of the queue that are no characters are skipped. *)
Lemma getchar_queue pending : ∀ q s fuel,
  kbd_rep s q → (length q < fuel)%nat →
  match first_char q with
  | Some (c, q') => getchar_ok (Some (c, pending), mods s, q') (kbd_getchar fuel pending s)
  | None => ∃ s' fuel', (fuel ≤ fuel' + length q)%nat ∧ mods s' = mods s ∧ kbd_rep s' [] ∧
      kbd_getchar fuel pending s = kbd_getchar fuel' pending s'
  end.
Proof.
  induction q as [|ev q IH]; intros s fuel Hr Hf; simpl.
  - exists s, fuel. simpl. split_and!; [lia|done|done|done].
  - destruct fuel as [|fuel]; [simpl in Hf; lia|]. rewrite getchar_step.
    destruct (kbd_pop_spec s ev q pending Hr) as (s1 & Hrun & Hm & Hr1).
    rewrite (bind_Ret _ _ _ _ _ Hrun). destruct (event_char ev) as [c|]; [by exists s1|].
    simpl in Hf. specialize (IH s1 fuel Hr1 ltac:(lia)). rewrite Hm in IH.
    destruct (first_char q) as [[c q']|]; [done|].
    destruct IH as (s2 & fuel2 & ? & ? & ? & ?). exists s2, fuel2. split_and!; try done; lia.
Qed.

Lemma getevent_wait fuel s sc pending :
  kbd_rep s [] →
  kbd_getchar (S fuel) (sc :: pending) s = (kbd_handle_scancode sc ;;; kbd_getchar (S fuel) pending) s.
Proof.
  intros Hr. rewrite getchar_step. unfold bind at 1. rewrite (getevent_empty _ _ Hr).
  unfold bind. by destruct (kbd_handle_scancode sc s) as [[[] s1]| | |].
Qed.

Lemma getchar_spec pending : ∀ s q fuel,
  kbd_rep s q → Forall (λ sc, 0 ≤ sc < 256) pending →
  (length q + length pending < fuel)%nat →
  getchar_ok (spec_getchar (mods s) q pending) (kbd_getchar fuel pending s).
Proof.
  induction pending as [|sc pending IH]; intros s q fuel Hr Hs Hf; simpl in Hf;
    match goal with |- context [kbd_getchar _ ?p _] =>
      pose proof (getchar_queue p q s fuel Hr ltac:(lia)) as Hq end.
  - simpl. destruct (first_char q) as [[c q']|]; [done|].
    destruct Hq as (s1 & fuel1 & ? & Hm & Hr1 & ->). destruct fuel1 as [|fuel1]; [lia|].
    rewrite getchar_step. exists s1. split_and!; [|done|done]. unfold bind.
    by rewrite (getevent_empty _ _ Hr1).
  - cbn [spec_getchar]. destruct (first_char q) as [[c q']|]; [done|].
    destruct Hq as (s1 & fuel1 & Hf1 & Hm & Hr1 & ->). destruct fuel1 as [|fuel1]; [lia|].
    rewrite getevent_wait by done. apply Forall_cons in Hs as [Hsc Hs].
    destruct (handle_spec s1 [] sc Hr1 Hsc) as (s2 & Hrun & Hm2 & Hr2).
    rewrite (bind_Ret _ _ _ _ _ Hrun). rewrite Hm in Hm2, Hr2.
    destruct (kbd_step (mods s, []) sc) as [m' q'] eqn:E. simpl in Hm2, Hr2. rewrite <- Hm2.
    apply IH; [done|done|]. unfold kbd_step in E. injection E as _ <-. simpl.
    destruct (key_event _ sc); simpl; lia.
Qed.

(** ** Properties *)

(** C23. The driver refines a bounded FIFO queue: after any sequence of
    interrupts since boot, it has neither faulted nor lost its place; the
    modifiers and the ring buffer are those of an abstract keyboard that appends
    each key event to a queue of capacity 255 and drops what does not fit. *)
Theorem kbd_refines_queue (scs : list Z) :
  Forall (λ sc, 0 ≤ sc < 256) scs →
  ∃ s, handle_all scs kbd_boot = Ret (tt, s) ∧
    mods s = (foldl kbd_step (no_mods, []) scs).1 ∧ kbd_rep s (foldl kbd_step (no_mods, []) scs).2.
Proof. apply (handle_all_spec scs kbd_boot []), rep_boot. Qed.

Lemma kbd_refines_queue_witness :
  ∃ s, handle_all [0x2a; 0x1e; 0xaa; 0x1e] kbd_boot = Ret (tt, s) ∧ length (kbd_buf s) = 256%nat.
Proof.
  destruct (kbd_refines_queue [0x2a; 0x1e; 0xaa; 0x1e]) as (s & H1 & _ & H2).
  - repeat constructor; discriminate.
  - exists s. split; [exact H1|]. exact (kr_buf _ _ H2).
Defined.

(** kbd_getchar, on every reachable state and every sequence of coming
    interrupts: it returns the first character among the queued events and then
    among those the interrupts produce, leaves the later ones queued, and waits
    forever only if there is none.  Its loop looks at no more events than are
    queued or still to come. *)
Theorem kbd_getchar_correct (s : kbd_state) (q : list kbd_event) (pending : list Z) (fuel : nat) :
  kbd_rep s q → Forall (λ sc, 0 ≤ sc < 256) pending → (length q + length pending < fuel)%nat →
  ∃ s', kbd_getchar fuel pending s = Ret ((spec_getchar (mods s) q pending).1.1, s') ∧
    mods s' = (spec_getchar (mods s) q pending).1.2 ∧ kbd_rep s' (spec_getchar (mods s) q pending).2.
Proof. intros Hr Hs Hf. exact (getchar_spec pending s q fuel Hr Hs Hf). Qed.

Lemma kbd_getchar_correct_witness :
  ∃ s', kbd_getchar 4 [0x2a; 0x1e; 0x30] kbd_boot = Ret (Some (65, [0x30]), s').
Proof.
  destruct (kbd_getchar_correct kbd_boot [] [0x2a; 0x1e; 0x30] 4) as (s' & H & _).
  - apply rep_boot.
  - repeat constructor; discriminate.
  - simpl. lia.
  - exists s'. exact H.
Defined.

(** The characters as the keyboard labels them. *)
Definition upper (c : Z) : Z := c - 32.

(** What a key produces, for every scancode: a letter key gives the upper
    case letter exactly when one of shift and caps lock is active; the other
    character keys follow shift alone; a key release gives the same event as its
    press with [pressed] cleared; and no code is looked up outside the tables. *)
Theorem kbd_key_events (sc : Z) (m : kbd_mods) (base : Z) :
  0 ≤ sc < 128 → scancode_keycode sc = KEY_NONE → scancode_ascii !! Z.to_nat sc = Some base → base ≠ 0 →
  key_event m sc =
    Some (mkEvent KEY_CHAR
            (if is_letter base then (if xorb (m_shift m) (m_caps m) then upper base else base)
             else if m_shift m then default 0 (scancode_ascii_shifted !! Z.to_nat sc) else base) true m) ∧
  key_event m (sc + 128) = (λ ev, mkEvent (ev_code ev) (ev_ch ev) false m) <$> key_event m sc ∧
  ∀ s, mods s = m → kbd_rep s [] → ∃ s', kbd_handle_scancode sc s = Ret (tt, s') ∧
    kbd_rep s' (option_list (key_event m sc)).
Proof.
  intros Hsc Hk Hbase Hne.
  assert (next_mods m sc = m) as Hnm by (unfold next_mods; by rewrite Z.mod_small, Hk by lia).
  assert (Forall (λ z, scancode_keycode z = KEY_NONE →
    from_option is_letter false (scancode_ascii !! Z.to_nat z) = true →
    scancode_ascii_shifted !! Z.to_nat z = upper <$> scancode_ascii !! Z.to_nat z) (seqZ 0 128)) as HF.
  { apply (bool_decide_unpack _). vm_compute. exact I. }
  rewrite Forall_forall in HF. specialize (HF sc). rewrite elem_of_seqZ, Hbase in HF.
  specialize (HF ltac:(lia) Hk). simpl in HF. pose proof (lookup_lt_Some _ _ _ Hbase) as Hlt.
  destruct (lookup_lt_is_Some_2 scancode_ascii_shifted (Z.to_nat sc)) as [sh Hsh];
    [by rewrite tables_aligned|]. rewrite Hsh in HF |- *.
  assert (key_event m sc = Some (mkEvent KEY_CHAR
            (if is_letter base then (if xorb (m_shift m) (m_caps m) then upper base else base)
             else if m_shift m then default 0 (Some sh) else base) true m)) as Hev.
  { unfold key_event. rewrite Z.mod_small, Hk, Hbase by lia. cbn [mbind option_bind].
    destruct (Z.eqb_spec base 0); [done|]. destruct (Z.ltb_spec sc 128); [|lia].
    destruct (is_letter base); [injection (HF eq_refl) as ->|];
      destruct (m_shift m), (m_caps m); cbn [xorb andb]; by rewrite ?Hbase, ?Hsh. }
  split_and!; [done| |].
  - rewrite Hev. unfold key_event. replace ((sc + 128) mod 128) with sc.
    2:{ symmetry. replace (sc + 128) with (sc + 1 * 128) by lia. rewrite Z.mod_add by lia.
        by apply Z.mod_small. }
    rewrite Hk, Hbase. cbn [mbind option_bind]. destruct (Z.eqb_spec base 0); [done|].
    destruct (Z.ltb_spec (sc + 128) 128); [lia|].
    destruct (is_letter base); [injection (HF eq_refl) as ->|];
      destruct (m_shift m), (m_caps m); cbn [xorb andb]; by rewrite ?Hbase, ?Hsh.
  - intros s Hm Hr. destruct (handle_spec s [] sc Hr ltac:(lia)) as (s' & Hrun & _ & Hr').
    exists s'. split; [done|]. unfold kbd_step in Hr'. cbn [fst snd] in Hr'.
    rewrite Hm, Hnm in Hr'. by rewrite Hev in *.
Qed.

Lemma kbd_key_events_witness :
  key_event (mkMods true false false true) 0x1e =
  Some (mkEvent KEY_CHAR 97 true (mkMods true false false true)).
Proof.
  refine (proj1 (kbd_key_events 0x1e (mkMods true false false true) 97 _ _ _ _)).
  - lia.
  - reflexivity.
  - reflexivity.
  - discriminate.
Defined.
