(* ===== verification/Rtc.v ===== *)
(** * The real-time clock (src/arch/rtc.c)

    Reading the CMOS clock, and the conversions between calendar time and
    seconds since 1970-01-01. *)

From S2P Require Import Prelude.

(** rtc_time_t: five bytes and a 16-bit year. *)
Record rtc_time := mkTime {
  t_seconds : Z; t_minutes : Z; t_hours : Z; t_day : Z; t_month : Z; t_year : Z }.

Definition days_in_month : list (list Z) :=
  [[31; 28; 31; 30; 31; 30; 31; 31; 30; 31; 30; 31];
   [31; 29; 31; 30; 31; 30; 31; 31; 30; 31; 30; 31]].

Definition bcd_to_bin (bcd : Z) : Z := u8 (Z.land bcd 0x0f + Z.shiftr bcd 4 * 10).

Definition is_leap (year : Z) : bool :=
  ((year mod 4 =? 0) && negb (year mod 100 =? 0)) || (year mod 400 =? 0).

(** days_in_month[leap][m - 1] *)
Definition month_days (leap : bool) (m : Z) : option Z :=
  row ← days_in_month !! (if leap then 1 else 0)%nat;
  if 1 <=? m then row !! Z.to_nat (m - 1) else None.

Definition year_days (y : Z) : Z := if is_leap y then 366 else 365.

(** The loop of days_since_epoch_to_year: [n] years remain. *)
Fixpoint year_sum (n : nat) (y days : Z) : Z :=
  match n with
  | O => days
  | S n' => year_sum n' (u16 (y + 1)) (days +64 year_days y)
  end.

Definition days_since_epoch_to_year (year : Z) : Z := year_sum (Z.to_nat (year - 1970)) 1970 0.

(** The loop over the months of rtc_to_epoch; a month past December reads
    outside the table. *)
Fixpoint month_sum (n : nat) (leap : bool) (m days : Z) : outcome Z :=
  match n with
  | O => Ret days
  | S n' =>
      match month_days leap m with
      | None => Fault
      | Some d => month_sum n' leap (u8 (m + 1)) (days +64 d)
      end
  end.

Definition rtc_to_epoch (t : rtc_time) : outcome Z :=
  let days := days_since_epoch_to_year (t_year t) in
  let leap := is_leap (t_year t) in
  days <~ month_sum (Z.to_nat (t_month t - 1)) leap 1 days ;;
  let days := days +64 (t_day t - 1) in
  Ret (u64 (days * 86400 + t_hours t * 3600 + t_minutes t * 60 + t_seconds t)).

(** The two loops of epoch_to_rtc. *)
Fixpoint year_loop (fuel : nat) (year days : Z) : outcome (Z * Z) :=
  match fuel with
  | O => Diverge
  | S fuel' =>
      let days_in_year := year_days year in
      if days <? days_in_year then Ret (year, days)
      else year_loop fuel' (u16 (year + 1)) (days -64 days_in_year)
  end.

Fixpoint month_loop (fuel : nat) (leap : bool) (month days : Z) : outcome (Z * Z) :=
  match fuel with
  | O => Diverge
  | S fuel' =>
      match month_days leap month with
      | None => Fault
      | Some d =>
          if d <=? days then month_loop fuel' leap (u8 (month + 1)) (days -64 d) else Ret (month, days)
      end
  end.

(** Every year has at least 365 days and the table has 12 rows: that is the
    fuel of the loops. *)
Definition epoch_to_rtc (epoch : Z) : outcome rtc_time :=
  let seconds := epoch mod 60 in let epoch := epoch / 60 in
  let minutes := epoch mod 60 in let epoch := epoch / 60 in
  let hours := epoch mod 24 in let epoch := epoch / 24 in
  yd <~ year_loop (Z.to_nat (epoch / 365 + 1)) 1970 epoch ;;
  md <~ month_loop 13 (is_leap yd.1) 1 yd.2 ;;
  Ret (mkTime seconds minutes hours (u8 (md.2 + 1)) md.1 yd.1).

(** boot_time, boot_epoch and boot_ticks. *)
Record rtc_state := mkRtc { boot_time : rtc_time; boot_epoch : Z; boot_ticks : Z }.

(** [ticks] is the value of apic_timer_ticks(), 100 a second. *)
Definition rtc_now_epoch (ticks : Z) (s : rtc_state) : Z :=
  let elapsed_ms := (ticks -64 boot_ticks s) *64 10 in boot_epoch s +64 elapsed_ms / 1000.

Definition rtc_now (ticks : Z) (s : rtc_state) : outcome rtc_time :=
  epoch_to_rtc (rtc_now_epoch ticks s).

(** ** Reading the CMOS *)

Definition RTC_SECONDS : Z := 0x00.
Definition RTC_MINUTES : Z := 0x02.
Definition RTC_HOURS : Z := 0x04.
Definition RTC_DAY : Z := 0x07.
Definition RTC_MONTH : Z := 0x08.
Definition RTC_YEAR : Z := 0x09.
Definition RTC_STATUS_A : Z := 0x0a.
Definition RTC_STATUS_B : Z := 0x0b.

Section Cmos.
(** The chip: the value of register [reg] at the [n]-th access. *)
Variable cmos : nat → Z → Z.

(** outb selects the register, inb reads it; the state counts the accesses. *)
Definition cmos_read (reg : Z) : M nat Z :=
  n <- gets (λ n, n) ;; modify S ;;; ret (u8 (cmos n reg)).

(** [while (cmos_read(RTC_STATUS_A) & 0x80);] *)
Fixpoint rtc_wait (fuel : nat) : M nat unit :=
  match fuel with
  | O => diverge
  | S fuel' =>
      a <- cmos_read RTC_STATUS_A ;; if Z.land a 0x80 =? 0 then ret tt else rtc_wait fuel'
  end.

Definition rtc_read (fuel : nat) : M nat rtc_time :=
  rtc_wait fuel ;;;
  seconds <- cmos_read RTC_SECONDS ;;
  minutes <- cmos_read RTC_MINUTES ;;
  hours <- cmos_read RTC_HOURS ;;
  day <- cmos_read RTC_DAY ;;
  month <- cmos_read RTC_MONTH ;;
  year <- cmos_read RTC_YEAR ;;
  status_b <- cmos_read RTC_STATUS_B ;;
  let t := if Z.land status_b 0x04 =? 0
           then mkTime (bcd_to_bin seconds) (bcd_to_bin minutes) (bcd_to_bin hours)
                  (bcd_to_bin day) (bcd_to_bin month) (bcd_to_bin year)
           else mkTime seconds minutes hours day month year in
  ret (mkTime (t_seconds t) (t_minutes t) (t_hours t) (t_day t) (t_month t) (u16 (t_year t + 2000))).

(** [ticks]: apic_timer_ticks() at the end of the initialisation. *)
Definition rtc_init (fuel : nat) (ticks : Z) : M nat (outcome rtc_state) :=
  t <- rtc_read fuel ;;
  ret (e <~ rtc_to_epoch t ;; Ret (mkRtc t e ticks)).

End Cmos.

(** ** The calendar *)

(** The days of [n] years from [a], and of [n] months from [m]. *)
Fixpoint ydays (n : nat) (a : Z) : Z :=
  match n with O => 0 | S n' => year_days a + ydays n' (a + 1) end.
Fixpoint mdays (leap : bool) (n : nat) (m : Z) : Z :=
  match n with O => 0 | S n' => default 0 (month_days leap m) + mdays leap n' (m + 1) end.

Lemma year_days_range y : 365 ≤ year_days y ≤ 366.
Proof. unfold year_days. destruct (is_leap y); lia. Qed.

Lemma ydays_range n a : 0 ≤ ydays n a ≤ 366 * Z.of_nat n.
Proof.
  revert a. induction n as [|n IH]; intros a; cbn [ydays]; [lia|].
  pose proof (year_days_range a). specialize (IH (a + 1)). lia.
Qed.

Lemma year_sum_spec n : ∀ a d,
  1970 ≤ a → a + Z.of_nat n ≤ 65536 → 0 ≤ d → d + 366 * Z.of_nat n < W64 → year_sum n a d = d + ydays n a.
Proof.
  induction n as [|n IH]; intros a d Ha Hn Hd Hw; cbn [year_sum ydays]; [lia|].
  pose proof (year_days_range a). rewrite (u64_small (d + year_days a)) by lia.
  destruct n as [|n]; [simpl; lia|]. unfold u16. rewrite Z.mod_small, IH by lia. lia.
Qed.

(** year_loop inverts the sum of the years. *)
Lemma year_loop_spec n : ∀ a rem fuel,
  1970 ≤ a → a + Z.of_nat n < 65536 → 0 ≤ rem < year_days (a + Z.of_nat n) → (n < fuel)%nat →
  year_loop fuel a (ydays n a + rem) = Ret (a + Z.of_nat n, rem).
Proof.
  induction n as [|n IH]; intros a rem fuel Ha Hn Hr Hf; (destruct fuel as [|fuel]; [lia|]);
    cbn [year_loop ydays].
  - rewrite Z.add_0_r in *. rewrite Z.add_0_l. destruct (Z.ltb_spec rem (year_days a)); [done|lia].
  - pose proof (ydays_range n (a + 1)). pose proof (year_days_range a).
    pose proof (year_days_range (a + Z.of_nat (S n))).
    destruct (Z.ltb_spec (year_days a + ydays n (a + 1) + rem) (year_days a)); [lia|].
    rewrite u64_small by lia. unfold u16. rewrite Z.mod_small by lia.
    replace (year_days a + ydays n (a + 1) + rem - year_days a) with (ydays n (a + 1) + rem) by lia.
    replace (a + Z.of_nat (S n)) with (a + 1 + Z.of_nat n) in * by lia. apply IH; lia.
Qed.

Lemma month_days_some leap m : 1 ≤ m ≤ 12 → ∃ d, month_days leap m = Some d ∧ 28 ≤ d ≤ 31.
Proof.
  intros Hm. assert (Forall (λ z, ∀ b : bool, match month_days b z with
    | Some d => 28 ≤ d ≤ 31 | None => False end) (seqZ 1 12)) as HF.
  { repeat (constructor; [intros []; vm_compute; split; discriminate|]). constructor. }
  rewrite Forall_forall in HF. specialize (HF m ltac:(apply elem_of_seqZ; lia) leap).
  destruct (month_days leap m); [eauto|done].
Qed.

Lemma mdays_range leap n m : 1 ≤ m → m + Z.of_nat n ≤ 13 → 28 * Z.of_nat n ≤ mdays leap n m ≤ 31 * Z.of_nat n.
Proof.
  revert m. induction n as [|n IH]; intros m Hm Hn; cbn [mdays]; [lia|].
  destruct (month_days_some leap m ltac:(lia)) as (d & -> & Hd). specialize (IH (m + 1)).
  cbn [default from_option id]. lia.
Qed.

Lemma month_sum_spec leap n : ∀ m d,
  1 ≤ m → m + Z.of_nat n ≤ 13 → 0 ≤ d → d + 31 * Z.of_nat n < W64 →
  month_sum n leap m d = Ret (d + mdays leap n m).
Proof.
  induction n as [|n IH]; intros m d Hm Hn Hd Hw; cbn [month_sum mdays]; [f_equal; lia|].
  destruct (month_days_some leap m ltac:(lia)) as (x & -> & Hxr). cbn [default from_option id].
  rewrite u64_small, u8_small, IH by lia. f_equal. lia.
Qed.

(** month_loop inverts the sum of the months. *)
Lemma month_loop_spec leap n : ∀ m rem d fuel,
  1 ≤ m → m + Z.of_nat n ≤ 12 → month_days leap (m + Z.of_nat n) = Some d → 0 ≤ rem < d → (n < fuel)%nat →
  month_loop fuel leap m (mdays leap n m + rem) = Ret (m + Z.of_nat n, rem).
Proof.
  induction n as [|n IH]; intros m rem d fuel Hm Hn Hd Hr Hf; (destruct fuel as [|fuel]; [lia|]);
    cbn [month_loop mdays].
  - rewrite Z.add_0_r in *. rewrite Hd, Z.add_0_l. destruct (Z.leb_spec d rem); [lia|done].
  - destruct (month_days_some leap m ltac:(lia)) as (x & -> & Hxr). cbn [default from_option id].
    destruct (month_days_some leap (m + Z.of_nat (S n)) ltac:(lia)) as (y & Hy & Hyr).
    pose proof (mdays_range leap n (m + 1) ltac:(lia) ltac:(lia)).
    assert (y = d) as -> by congruence.
    destruct (Z.leb_spec x (x + mdays leap n (m + 1) + rem)); [|lia].
    rewrite u64_small, u8_small by lia.
    replace (x + mdays leap n (m + 1) + rem - x) with (mdays leap n (m + 1) + rem) by lia.
    replace (m + Z.of_nat (S n)) with (m + 1 + Z.of_nat n) in * by lia. by eapply IH; try lia.
Qed.

Lemma ydays_lower n a : 365 * Z.of_nat n ≤ ydays n a.
Proof.
  revert a. induction n as [|n IH]; intros a; cbn [ydays]; [lia|].
  pose proof (year_days_range a). specialize (IH (a + 1)). lia.
Qed.

(** A day of month [m + k] comes before the end of the month. *)
Lemma months_prefix leap k n : ∀ m d,
  1 ≤ m → m + Z.of_nat n ≤ 13 → (k < n)%nat → month_days leap (m + Z.of_nat k) = Some d →
  ∀ x, x ≤ d → mdays leap k m + x ≤ mdays leap n m.
Proof.
  revert n. induction k as [|k IH]; intros n m d Hm Hn Hk Hd x Hx; (destruct n as [|n]; [lia|]);
    cbn [mdays].
  - rewrite Z.add_0_r in Hd. rewrite Hd. cbn [default from_option id].
    pose proof (mdays_range leap n (m + 1) ltac:(lia) ltac:(lia)). lia.
  - replace (m + Z.of_nat (S k)) with (m + 1 + Z.of_nat k) in Hd by lia.
    specialize (IH n (m + 1) d ltac:(lia) ltac:(lia) ltac:(lia) Hd x Hx). lia.
Qed.

(** Every day number splits into years and a day of the year, ... *)
Lemma split_years n : ∀ a days,
  0 ≤ days < ydays n a →
  ∃ k rem, (k < n)%nat ∧ days = ydays k a + rem ∧ 0 ≤ rem < year_days (a + Z.of_nat k).
Proof.
  induction n as [|n IH]; intros a days Hd; cbn [ydays] in Hd; [lia|].
  destruct (Z.lt_ge_cases days (year_days a)).
  - exists 0%nat, days. rewrite Z.add_0_r. cbn [ydays]. split_and!; lia.
  - destruct (IH (a + 1) (days - year_days a)) as (k & rem & Hk & Ed & Hr); [lia|].
    exists (S k), rem. cbn [ydays]. replace (a + Z.of_nat (S k)) with (a + 1 + Z.of_nat k) by lia.
    split_and!; lia.
Qed.

(** ... and every day of a year into months and a day of the month. *)
Lemma split_months leap n : ∀ m days,
  1 ≤ m → m + Z.of_nat n ≤ 13 → 0 ≤ days < mdays leap n m →
  ∃ k rem d, (k < n)%nat ∧ days = mdays leap k m + rem ∧
    month_days leap (m + Z.of_nat k) = Some d ∧ 0 ≤ rem < d.
Proof.
  induction n as [|n IH]; intros m days Hm Hn Hd; cbn [mdays] in Hd; [lia|].
  destruct (month_days_some leap m ltac:(lia)) as (x & Hx & Hxr). rewrite Hx in Hd.
  cbn [default from_option id] in Hd. destruct (Z.lt_ge_cases days x).
  - exists 0%nat, days, x. rewrite Z.add_0_r. cbn [mdays]. split_and!; done || lia.
  - destruct (IH (m + 1) (days - x)) as (k & rem & d & Hk & Ed & Hd' & Hr); [lia|lia|lia|].
    exists (S k), rem, d. cbn [mdays]. rewrite Hx. cbn [default from_option id].
    replace (m + Z.of_nat (S k)) with (m + 1 + Z.of_nat k) by lia. split_and!; done || lia.
Qed.

Lemma year_of_months y : mdays (is_leap y) 12 1 = year_days y.
Proof. unfold year_days. by destruct (is_leap y). Qed.

(** The times the clock can show. *)
Definition valid_time (t : rtc_time) : Prop :=
  0 ≤ t_seconds t < 60 ∧ 0 ≤ t_minutes t < 60 ∧ 0 ≤ t_hours t < 24 ∧
  1970 ≤ t_year t < 65536 ∧ 1 ≤ t_month t ≤ 12 ∧
  1 ≤ t_day t ≤ default 0 (month_days (is_leap (t_year t)) (t_month t)).

(** The day number of a valid time. *)
Definition day_number (t : rtc_time) : Z :=
  ydays (Z.to_nat (t_year t - 1970)) 1970 +
  mdays (is_leap (t_year t)) (Z.to_nat (t_month t - 1)) 1 + (t_day t - 1).

Lemma to_epoch_spec t :
  valid_time t →
  rtc_to_epoch t = Ret (day_number t * 86400 + t_hours t * 3600 + t_minutes t * 60 + t_seconds t) ∧
  0 ≤ day_number t < 2 ^ 40.
Proof.
  intros (Hs & Hm & Hh & Hy & Hmo & Hd). unfold rtc_to_epoch, days_since_epoch_to_year. cbv zeta.
  destruct (month_days_some (is_leap (t_year t)) (t_month t) Hmo) as (d & Ed & Hdr). rewrite Ed in Hd.
  cbn [default from_option id] in Hd.
  pose proof (ydays_range (Z.to_nat (t_year t - 1970)) 1970).
  pose proof (mdays_range (is_leap (t_year t)) (Z.to_nat (t_month t - 1)) 1 ltac:(lia) ltac:(lia)).
  assert (0 ≤ day_number t < 2 ^ 40) as Hdn by (unfold day_number; lia). split; [|done].
  rewrite year_sum_spec, Z.add_0_l by lia. rewrite month_sum_spec by lia. cbn [obind].
  rewrite (u64_small (_ + (t_day t - 1))) by (unfold day_number in Hdn; lia).
  fold (day_number t). rewrite u64_small by lia. done.
Qed.

Lemma of_epoch_spec t :
  valid_time t →
  epoch_to_rtc (day_number t * 86400 + t_hours t * 3600 + t_minutes t * 60 + t_seconds t) = Ret t.
Proof.
  intros Hv. destruct (to_epoch_spec t Hv) as [_ Hdn]. destruct Hv as (Hs & Hm & Hh & Hy & Hmo & Hd).
  unfold epoch_to_rtc. cbv zeta. set (e := _ + t_seconds t).
  assert (e mod 60 = t_seconds t ∧ e / 60 mod 60 = t_minutes t ∧ e / 60 / 60 mod 24 = t_hours t ∧
          e / 60 / 60 / 24 = day_number t) as (-> & -> & -> & ->).
  { assert (e / 60 = day_number t * 1440 + t_hours t * 60 + t_minutes t) as E1
      by (symmetry; apply (Z.div_unique _ _ _ (t_seconds t)); unfold e; lia).
    assert (e / 60 / 60 = day_number t * 24 + t_hours t) as E2
      by (rewrite E1; symmetry; apply (Z.div_unique _ _ _ (t_minutes t)); lia).
    rewrite E2, E1. split_and!; symmetry.
    - apply (Z.mod_unique _ _ (e / 60)); unfold e in *; lia.
    - apply (Z.mod_unique _ _ (day_number t * 24 + t_hours t)); lia.
    - apply (Z.mod_unique _ _ (day_number t)); lia.
    - apply (Z.div_unique _ _ _ (t_hours t)); lia. }
  destruct (month_days_some (is_leap (t_year t)) (t_month t) Hmo) as (d & Ed & Hdr). rewrite Ed in Hd.
  cbn [default from_option id] in Hd.
  set (n := Z.to_nat (t_year t - 1970)). set (k := Z.to_nat (t_month t - 1)).
  pose proof (ydays_range n 1970). pose proof (mdays_range (is_leap (t_year t)) k 1 ltac:(lia) ltac:(lia)).
  assert (mdays (is_leap (t_year t)) k 1 + t_day t ≤ year_days (t_year t)) as Hyd.
  { rewrite <- year_of_months. apply (months_prefix (is_leap (t_year t)) k 12 1 d); try lia.
    by replace (1 + Z.of_nat k) with (t_month t) by lia. }
  assert (day_number t = ydays n 1970 + (mdays (is_leap (t_year t)) k 1 + (t_day t - 1))) as ->
    by (unfold day_number, n, k; lia).
  rewrite (year_loop_spec n); [|lia|lia| |].
  2:{ replace (1970 + Z.of_nat n) with (t_year t) by lia. lia. }
  2:{ pose proof (ydays_lower n 1970). apply Nat2Z.inj_lt. rewrite Z2Nat.id.
      - apply Z.lt_succ_r, Z.div_le_lower_bound; lia.
      - assert (0 ≤ (ydays n 1970 + (mdays (is_leap (t_year t)) k 1 + (t_day t - 1))) / 365)
          by (apply Z.div_pos; lia). lia. }
  cbn [obind fst snd]. replace (1970 + Z.of_nat n) with (t_year t) by lia.
  rewrite (month_loop_spec _ k 1 (t_day t - 1) d); [|lia|lia| |lia|lia].
  2:{ by replace (1 + Z.of_nat k) with (t_month t) by lia. }
  cbn [obind fst snd]. rewrite u8_small by lia. destruct t; simpl in *. f_equal. f_equal; lia.
Qed.

(** ** Reading the clock *)

Definition to_bcd (v : Z) : Z := 16 * (v / 10) + v mod 10.

Lemma bcd_roundtrip v : 0 ≤ v < 100 → bcd_to_bin (to_bcd v) = v ∧ 0 ≤ to_bcd v < 256.
Proof.
  intros Hv. assert (Forall (λ v, bcd_to_bin (to_bcd v) = v ∧ 0 ≤ to_bcd v < 256) (seqZ 0 100)) as HF.
  { apply (bool_decide_unpack _). vm_compute. exact I. }
  rewrite Forall_forall in HF. apply HF, elem_of_seqZ. lia.
Qed.

Section CmosSpec.
Variable cmos : nat → Z → Z.

Lemma cmos_read_run reg n : cmos_read cmos reg n = Ret (u8 (cmos n reg), S n).
Proof. done. Qed.

(** The update flag is set for the first [k] accesses and then clear. *)
Lemma rtc_wait_run k : ∀ n fuel,
  (∀ i, (i < k)%nat → Z.land (u8 (cmos (n + i) RTC_STATUS_A)) 0x80 ≠ 0) →
  Z.land (u8 (cmos (n + k) RTC_STATUS_A)) 0x80 = 0 → (k < fuel)%nat →
  rtc_wait cmos fuel n = Ret (tt, S (n + k)).
Proof.
  induction k as [|k IH]; intros n fuel Hw Hc Hf; (destruct fuel as [|fuel]; [lia|]); cbn [rtc_wait];
    rewrite (bind_Ret _ _ _ _ _ (cmos_read_run _ n)).
  - rewrite Nat.add_0_r in *. by rewrite Hc.
  - pose proof (Hw 0%nat ltac:(lia)) as H0. rewrite Nat.add_0_r in H0.
    destruct (Z.eqb_spec (Z.land (u8 (cmos n RTC_STATUS_A)) 0x80) 0); [done|].
    rewrite (IH (S n) fuel); [f_equal; f_equal; lia| | |lia].
    + intros i Hi. replace (S n + i)%nat with (n + S i)%nat by lia. apply Hw. lia.
    + by replace (S n + k)%nat with (n + S k)%nat by lia.
Qed.

(** A chip whose registers show the time [t] of this century, in BCD when
    [bcd], from access [k] on. *)
Definition shows (k : nat) (bcd : bool) (t : rtc_time) : Prop :=
  let enc v := if bcd then to_bcd v else v in
  ∀ n, (k ≤ n)%nat →
    cmos n RTC_SECONDS = enc (t_seconds t) ∧ cmos n RTC_MINUTES = enc (t_minutes t) ∧
    cmos n RTC_HOURS = enc (t_hours t) ∧ cmos n RTC_DAY = enc (t_day t) ∧
    cmos n RTC_MONTH = enc (t_month t) ∧ cmos n RTC_YEAR = enc (t_year t - 2000) ∧
    Z.land (u8 (cmos n RTC_STATUS_B)) 0x04 = (if bcd then 0 else 4).

Lemma rtc_read_run k bcd t fuel :
  shows k bcd t → valid_time t → 2000 ≤ t_year t < 2100 → (k < fuel)%nat →
  (∀ i, (i < k)%nat → Z.land (u8 (cmos i RTC_STATUS_A)) 0x80 ≠ 0) →
  Z.land (u8 (cmos k RTC_STATUS_A)) 0x80 = 0 →
  rtc_read cmos fuel 0%nat = Ret (t, (k + 8)%nat).
Proof.
  intros Hsh (Hs & Hm & Hh & Hy0 & Hmo & Hd) Hy Hf Hw Hc. unfold rtc_read.
  rewrite (bind_Ret _ _ _ _ _ (rtc_wait_run k 0 fuel Hw Hc Hf)). cbn [Nat.add].
  destruct (month_days_some (is_leap (t_year t)) (t_month t) Hmo) as (d & Ed & Hdr). rewrite Ed in Hd.
  cbn [default from_option id] in Hd.
  do 7 (erewrite bind_Ret by apply cmos_read_run).
  rewrite (proj1 (Hsh (S k) ltac:(lia))), (proj1 (proj2 (Hsh (S (S k)) ltac:(lia)))).
  destruct (Hsh (S (S (S k))) ltac:(lia)) as (_ & _ & -> & _).
  destruct (Hsh (S (S (S (S k)))) ltac:(lia)) as (_ & _ & _ & -> & _).
  destruct (Hsh (S (S (S (S (S k))))) ltac:(lia)) as (_ & _ & _ & _ & -> & _).
  destruct (Hsh (S (S (S (S (S (S k)))))) ltac:(lia)) as (_ & _ & _ & _ & _ & -> & _).
  destruct (Hsh (S (S (S (S (S (S (S k))))))) ltac:(lia)) as (_ & _ & _ & _ & _ & _ & ->).
  unfold ret. replace (k + 8)%nat with (S (S (S (S (S (S (S (S k)))))))) by lia. cbv zeta.
  assert (∀ v, 0 ≤ v < 100 → bcd_to_bin (u8 (to_bcd v)) = v) as He.
  { intros v Hv. destruct (bcd_roundtrip v Hv) as [? ?]. by rewrite u8_small by lia. }
  destruct bcd; cbn [Z.eqb t_seconds t_minutes t_hours t_day t_month t_year].
  - rewrite !He by lia. unfold u16. rewrite Z.mod_small by lia. destruct t; simpl in *.
    do 3 f_equal. lia.
  - rewrite !u8_small by lia. unfold u16. rewrite Z.mod_small by lia. destruct t; simpl in *.
    do 3 f_equal. lia.
Qed.

End CmosSpec.

(** ** Properties *)

(** The number of days before 65536-01-01, where the 16-bit year ends. *)
Definition days_limit : Z := 23217004.

Lemma days_limit_ok : ydays (Z.to_nat 63566) 1970 = days_limit.
Proof. vm_compute. reflexivity. Qed.

Lemma epoch_total (epoch : Z) :
  0 ≤ epoch < days_limit * 86400 →
  ∃ t, epoch_to_rtc epoch = Ret t ∧ valid_time t ∧ rtc_to_epoch t = Ret epoch.
Proof.
  intros He. pose proof (Z.div_mod epoch 86400 ltac:(lia)). pose proof (Z.mod_pos_bound epoch 86400 ltac:(lia)).
  set (days := epoch / 86400) in *. set (r := epoch mod 86400) in *.
  destruct (split_years (Z.to_nat 63566) 1970 days) as (n & rem & Hn & Ed & Hr); [rewrite days_limit_ok; lia|].
  set (y := 1970 + Z.of_nat n) in *. rewrite <- year_of_months in Hr.
  destruct (split_months (is_leap y) 12 1 rem) as (k & dd & d & Hk & Er & Hd & Hdd); [lia|lia|lia|].
  set (t := mkTime (r mod 60) (r / 60 mod 60) (r / 3600) (dd + 1) (1 + Z.of_nat k) y).
  assert (valid_time t) as Hv.
  { unfold valid_time, t; simpl. rewrite Hd. cbn [default from_option id].
    split_and!; try (apply Z.mod_pos_bound; lia); try (unfold y; lia).
    - apply Z.div_pos; lia.
    - apply Z.div_lt_upper_bound; lia. }
  assert (epoch = day_number t * 86400 + t_hours t * 3600 + t_minutes t * 60 + t_seconds t) as Ee.
  { unfold day_number, t; cbn [t_seconds t_minutes t_hours t_day t_month t_year].
    replace (Z.to_nat (y - 1970)) with n by (unfold y; lia).
    replace (Z.to_nat (1 + Z.of_nat k - 1)) with k by lia.
    replace (ydays n 1970 + mdays (is_leap y) k 1 + (dd + 1 - 1)) with days by lia.
    replace (r / 3600) with (r / 60 / 60) by (rewrite Z.div_div by lia; done).
    pose proof (Z.div_mod r 60 ltac:(lia)). pose proof (Z.div_mod (r / 60) 60 ltac:(lia)). lia. }
  exists t. rewrite Ee. split_and!; [by apply of_epoch_spec|done|by apply to_epoch_spec].
Qed.

(** C37. Seconds to calendar and back: for every epoch up to the end of the year
    65535, epoch_to_rtc terminates without reading outside the month table,
    yields a valid date and time, and rtc_to_epoch maps it back to the epoch. *)
Theorem rtc_epoch_roundtrip (epoch : Z) :
  0 ≤ epoch < days_limit * 86400 →
  ∃ t, epoch_to_rtc epoch = Ret t ∧ valid_time t ∧ rtc_to_epoch t = Ret epoch.
Proof. apply epoch_total. Qed.

Lemma rtc_epoch_roundtrip_witness :
  ∃ t, epoch_to_rtc 1709164800 = Ret t ∧ rtc_to_epoch t = Ret 1709164800.
Proof.
  destruct (rtc_epoch_roundtrip 1709164800) as (t & H1 & _ & H2).
  - unfold days_limit. lia.
  - exists t. split; [exact H1|exact H2].
Defined.

(** Calendar to seconds and back: every valid date and time from 1970 on
    survives the round trip, so distinct times have distinct epochs. *)
Theorem rtc_time_roundtrip (t : rtc_time) :
  valid_time t → ∃ e, rtc_to_epoch t = Ret e ∧ epoch_to_rtc e = Ret t.
Proof.
  intros Hv. eexists. split; [by apply to_epoch_spec|by apply of_epoch_spec].
Qed.

Lemma rtc_time_roundtrip_witness :
  ∃ e, rtc_to_epoch (mkTime 59 59 23 29 2 2024) = Ret e ∧ epoch_to_rtc e = Ret (mkTime 59 59 23 29 2 2024).
Proof. apply rtc_time_roundtrip. vm_compute. intuition discriminate. Defined.

(** rtc_init followed by rtc_now: on a chip that shows a valid time of this
    century, in BCD or in binary, once its update flag clears, the clock reads
    that time plus the seconds the timer has counted since. *)
Theorem rtc_now_correct (cmos : nat → Z → Z) (k fuel : nat) (bcd : bool) (t : rtc_time)
    (ticks0 ticks e0 : Z) :
  shows cmos k bcd t → valid_time t → 2000 ≤ t_year t < 2100 → (k < fuel)%nat →
  (∀ i, (i < k)%nat → Z.land (u8 (cmos i RTC_STATUS_A)) 0x80 ≠ 0) →
  Z.land (u8 (cmos k RTC_STATUS_A)) 0x80 = 0 →
  rtc_to_epoch t = Ret e0 → 0 ≤ ticks0 ≤ ticks → ticks < 2 ^ 40 →
  ∃ s n, rtc_init cmos fuel ticks0 0%nat = Ret (Ret s, n) ∧
    ∃ t', rtc_now ticks s = Ret t' ∧ valid_time t' ∧
          rtc_to_epoch t' = Ret (e0 + (ticks - ticks0) / 100).
Proof.
  intros Hsh Hv Hy Hf Hw Hc He0 Ht Htk.
  destruct (to_epoch_spec t Hv) as [He Hdn]. rewrite He0 in He. injection He as He.
  exists (mkRtc t e0 ticks0), (k + 8)%nat. split.
  - unfold rtc_init. by rewrite (bind_Ret _ _ _ _ _ (rtc_read_run cmos k bcd t fuel Hsh Hv Hy Hf Hw Hc)), He0.
  - assert (0 ≤ (ticks - ticks0) / 100 ≤ 2 ^ 40) as Hd.
    { split; [apply Z.div_pos; lia|]. apply Z.div_le_upper_bound; lia. }
    assert (day_number t < 366 * 131) as Hb.
    { destruct Hv as (_ & _ & _ & _ & Hmo & Hday).
      destruct (month_days_some (is_leap (t_year t)) (t_month t) Hmo) as (d & Ed & Hdr). rewrite Ed in Hday.
      pose proof (ydays_range (Z.to_nat (t_year t - 1970)) 1970).
      pose proof (mdays_range (is_leap (t_year t)) (Z.to_nat (t_month t - 1)) 1 ltac:(lia) ltac:(lia)).
      unfold day_number. cbn [default from_option id] in Hday. lia. }
    destruct Hv as (Hs & Hm & Hh & _).
    assert (rtc_now_epoch ticks (mkRtc t e0 ticks0) = e0 + (ticks - ticks0) / 100) as En.
    { unfold rtc_now_epoch. cbn [boot_epoch boot_ticks].
      rewrite (u64_small (ticks - ticks0)) by lia. rewrite (u64_small ((ticks - ticks0) * 10)) by lia.
      change 1000 with (100 * 10). rewrite Z.div_mul_cancel_r by lia. apply u64_small. lia. }
    unfold rtc_now. rewrite En. apply epoch_total. unfold days_limit. lia.
Qed.

(** A chip in BCD mode at 2024-02-29 12:34:56, busy for two accesses. *)
Definition demo_cmos (n : nat) (reg : Z) : Z :=
  if reg =? RTC_STATUS_A then (if decide (n < 2)%nat then 0x80 else 0)
  else if reg =? RTC_SECONDS then 0x56
  else if reg =? RTC_MINUTES then 0x34
  else if reg =? RTC_HOURS then 0x12
  else if reg =? RTC_DAY then 0x29
  else if reg =? RTC_MONTH then 0x02
  else if reg =? RTC_YEAR then 0x24
  else 0.

Lemma rtc_now_correct_witness :
  ∃ s n, rtc_init demo_cmos 10 500 0%nat = Ret (Ret s, n) ∧
    ∃ t', rtc_now 700 s = Ret t' ∧ rtc_to_epoch t' = Ret 1709210098.
Proof.
  destruct (rtc_now_correct demo_cmos 2 10 true (mkTime 56 34 12 29 2 2024) 500 700 1709210096)
    as (s & n & H1 & t' & H2 & _ & H3).
  - intros n Hn. split_and!; reflexivity.
  - vm_compute. intuition discriminate.
  - simpl. lia.
  - lia.
  - intros i Hi. destruct i as [|[|i]]; [discriminate|discriminate|lia].
  - reflexivity.
  - vm_compute. reflexivity.
  - lia.
  - lia.
  - exists s, n. split; [exact H1|]. exists t'. split; [exact H2|exact H3].
Defined.
