(* ===== verification/Thread.v ===== *)
(** * Threads and the scheduler (src/multi/thread.c)

    Threads and processes are C structs on the kernel heap.  Their addresses
    come from kmalloc; their fields are kept in maps from address to record, one
    map per struct type, so that pointers, sharing and the circular run queue are
    as in the code.  Thread stacks are bytes in memory. *)

From S2P Require Import Prelude ByteMem FrameAlloc Heap Vmm.

Inductive thread_state := THREAD_READY | THREAD_RUNNING | THREAD_BLOCKED | THREAD_DEAD.

#[export] Instance thread_state_eq_dec : EqDecision thread_state.
Proof. solve_decision. Defined.

(** thread_t; pointers are addresses, NULL is 0. *)
Record thread := mkThread {
  th_rsp : Z; th_kernel_stack : Z; th_kernel_rsp_top : Z; th_stack_size : Z;
  th_state : thread_state; th_id : Z; th_user_entry : Z; th_user_rsp : Z;
  th_user_argc : Z; th_user_argv : Z; th_process : Z; th_waiting_for : Z;
  th_sleep_until : Z; th_next : Z }.

Definition SIZEOF_THREAD : Z := 112.
Definition KERNEL_STACK_SIZE : Z := 4096 * 4.

(** process_t. *)
Record process := mkProcess {
  p_pid : Z; p_name : list Z; p_addr_space : Z; p_thread : Z; p_heap_top : Z; p_regions : Z;
  p_fds : list Z; p_ports : list Z; p_cwd : list Z; p_next : Z }.

(** The scheduler's variables, with the two places a switch writes the kernel
    stack pointer to: cpu_local.kernel_rsp and tss.rsp0. *)
Record sched := mkSched {
  threads : gmap Z thread; runqueue_head : Z; curr_thread : Z; idle_thread : Z;
  next_thread_id : Z; cpu_kernel_rsp : Z; tss_rsp0 : Z }.

Abbreviation SM := (M sched).

Definition set_threads (T : gmap Z thread) (s : sched) : sched :=
  mkSched T (runqueue_head s) (curr_thread s) (idle_thread s) (next_thread_id s)
    (cpu_kernel_rsp s) (tss_rsp0 s).
Definition set_head (h : Z) (s : sched) : sched :=
  mkSched (threads s) h (curr_thread s) (idle_thread s) (next_thread_id s)
    (cpu_kernel_rsp s) (tss_rsp0 s).

(** *p, and an assignment to fields of *p; NULL and dangling pointers fault. *)
Definition get_thread (p : Z) : SM thread := T <- gets threads ;; of_opt (T !! p).
Definition upd_thread (p : Z) (f : thread → thread) : SM unit :=
  t <- get_thread p ;; modify (λ s, set_threads (<[p := f t]> (threads s)) s).

Definition with_state (st : thread_state) (t : thread) : thread :=
  mkThread (th_rsp t) (th_kernel_stack t) (th_kernel_rsp_top t) (th_stack_size t) st (th_id t)
    (th_user_entry t) (th_user_rsp t) (th_user_argc t) (th_user_argv t) (th_process t)
    (th_waiting_for t) (th_sleep_until t) (th_next t).
Definition with_next (n : Z) (t : thread) : thread :=
  mkThread (th_rsp t) (th_kernel_stack t) (th_kernel_rsp_top t) (th_stack_size t) (th_state t) (th_id t)
    (th_user_entry t) (th_user_rsp t) (th_user_argc t) (th_user_argv t) (th_process t)
    (th_waiting_for t) (th_sleep_until t) n.
Definition with_sleep (u : Z) (t : thread) : thread :=
  mkThread (th_rsp t) (th_kernel_stack t) (th_kernel_rsp_top t) (th_stack_size t) (th_state t) (th_id t)
    (th_user_entry t) (th_user_rsp t) (th_user_argc t) (th_user_argv t) (th_process t)
    (th_waiting_for t) u (th_next t).
Definition with_waiting (w : Z) (t : thread) : thread :=
  mkThread (th_rsp t) (th_kernel_stack t) (th_kernel_rsp_top t) (th_stack_size t) (th_state t) (th_id t)
    (th_user_entry t) (th_user_rsp t) (th_user_argc t) (th_user_argv t) (th_process t)
    w (th_sleep_until t) (th_next t).

(** A walk along the ring visits each thread at most once: the number of
    threads is fuel enough. *)
Definition ring_fuel (s : sched) : nat := S (size (threads s)).

(** ** runqueue_push *)

(** [while (tail->next != runqueue_head) tail = tail->next;] *)
Fixpoint find_tail (fuel : nat) (tail : Z) : SM Z :=
  match fuel with
  | O => diverge
  | S fuel' =>
      t <- get_thread tail ;;
      head <- gets runqueue_head ;;
      if th_next t =? head then ret tail else find_tail fuel' (th_next t)
  end.

Definition runqueue_push (p : Z) : SM unit :=
  if p =? 0 then panic "thread.c: runqueue_push() -> thread is NULL"
  else
    upd_thread p (with_state THREAD_READY) ;;;
    head <- gets runqueue_head ;;
    if head =? 0 then
      modify (set_head p) ;;;
      upd_thread p (with_next p)
    else
      fuel <- gets ring_fuel ;;
      tail <- find_tail fuel head ;;
      upd_thread tail (with_next p) ;;;
      head <- gets runqueue_head ;;
      upd_thread p (with_next head).

(** ** runqueue_next *)

(** A sleeper whose time has come. *)
Definition wakes (ticks : Z) (t : thread) : bool :=
  bool_decide (th_state t = THREAD_BLOCKED) && (0 <? th_sleep_until t) && (th_sleep_until t <=? ticks).

(** The do-while loop; [ticks] is apic_timer_ticks(). *)
Fixpoint next_loop (fuel : nat) (ticks candidate : Z) : SM Z :=
  match fuel with
  | O => diverge
  | S fuel' =>
      t <- get_thread candidate ;;
      (if wakes ticks t
       then upd_thread candidate (λ t, with_sleep 0 (with_state THREAD_READY t)) else ret tt) ;;;
      t <- get_thread candidate ;;
      if bool_decide (th_state t = THREAD_READY) then
        modify (set_head (th_next t)) ;;; ret candidate
      else
        head <- gets runqueue_head ;;
        if negb (th_next t =? head) then next_loop fuel' ticks (th_next t) else gets idle_thread
  end.

Definition runqueue_next (ticks : Z) : SM Z :=
  head <- gets runqueue_head ;;
  if head =? 0 then gets curr_thread
  else fuel <- gets ring_fuel ;; next_loop fuel ticks head.

(** ** runqueue_remove *)

(** The search for the predecessor; [None] is the early return. *)
Fixpoint find_prev (fuel : nat) (prev p : Z) : SM (option Z) :=
  match fuel with
  | O => diverge
  | S fuel' =>
      t <- get_thread prev ;;
      if th_next t =? p then ret (Some prev)
      else
        let prev := th_next t in
        head <- gets runqueue_head ;;
        if prev =? head then ret None else find_prev fuel' prev p
  end.

Definition runqueue_remove (p : Z) : SM unit :=
  head <- gets runqueue_head ;;
  if head =? 0 then ret tt
  else
    h <- get_thread head ;;
    if (head =? p) && (th_next h =? head) then modify (set_head 0)
    else
      fuel <- gets ring_fuel ;;
      r <- find_prev fuel head p ;;
      match r with
      | None => ret tt
      | Some prev =>
          t <- get_thread p ;;
          upd_thread prev (with_next (th_next t)) ;;;
          t <- get_thread p ;;
          (if head =? p then modify (set_head (th_next t)) else ret tt) ;;;
          upd_thread p (with_next 0)
      end.

(** ** thread_wake_pid *)

Fixpoint wake_loop (fuel : nat) (pid p : Z) : SM unit :=
  match fuel with
  | O => diverge
  | S fuel' =>
      t <- get_thread p ;;
      (if bool_decide (th_state t = THREAD_BLOCKED) && (th_waiting_for t =? pid)
       then upd_thread p (λ t, with_waiting (W64 - 1) (with_state THREAD_READY t)) else ret tt) ;;;
      t <- get_thread p ;;
      head <- gets runqueue_head ;;
      if negb (th_next t =? head) then wake_loop fuel' pid (th_next t) else ret tt
  end.

Definition thread_wake_pid (pid : Z) : SM unit :=
  head <- gets runqueue_head ;;
  if head =? 0 then ret tt else fuel <- gets ring_fuel ;; wake_loop fuel pid head.

(** ** The run queue is a ring *)

(** A path along [next] from [p] through [l] to [q]. *)
Fixpoint chain (T : gmap Z thread) (p : Z) (l : list Z) (q : Z) : Prop :=
  match l with
  | [] => p = q
  | x :: l' => p = x ∧ x ≠ 0 ∧ ∃ t, T !! x = Some t ∧ chain T (th_next t) l' q
  end.

(** The queue holds the threads [l], starting at the head. *)
Definition ring (s : sched) (l : list Z) : Prop :=
  (l = [] ∧ runqueue_head s = 0) ∨
  (l ≠ [] ∧ NoDup l ∧ chain (threads s) (runqueue_head s) l (runqueue_head s)).

Lemma chain_app T l1 l2 : ∀ p q, chain T p (l1 ++ l2) q ↔ ∃ m, chain T p l1 m ∧ chain T m l2 q.
Proof.
  induction l1 as [|x l1 IH]; intros p q; simpl.
  - split; [eauto|by intros (m & -> & ?)].
  - split.
    + intros (-> & Hx & t & Ht & (m & H1 & H2)%IH). eauto 8.
    + intros (m & (-> & Hx & t & Ht & H1) & H2). split_and!; [done|done|]. exists t. split; [done|]. apply IH. eauto.
Qed.

(** Only the next pointers of the threads on the path matter. *)
Lemma chain_frame T T' l : ∀ p q,
  (∀ x, x ∈ l → th_next <$> T' !! x = th_next <$> T !! x) → chain T p l q → chain T' p l q.
Proof.
  induction l as [|x l IH]; intros p q Hn; simpl; [done|]. intros (-> & Hx & t & Ht & Hc).
  split; [done|]. split; [done|]. pose proof (Hn x ltac:(left)) as E. rewrite Ht in E.
  apply fmap_Some_1 in E as (t' & Ht' & E'). exists t'. split; [done|]. rewrite <- E'.
  apply IH; [|done]. intros y Hy. apply Hn. by right.
Qed.

Lemma chain_head T p l q : chain T p l q → p = match l with [] => q | x :: _ => x end.
Proof. destruct l; [done|]. by intros [-> _]. Qed.

Lemma chain_dom T p l q x : chain T p l q → x ∈ l → x ≠ 0 ∧ is_Some (T !! x).
Proof.
  revert p. induction l as [|y l IH]; intros p; [by intros _ ?%not_elem_of_nil|].
  intros (-> & Hy & t & Ht & Hc) [->|Hin]%elem_of_cons; [split; eauto|]. by eapply IH.
Qed.

Lemma chain_fuel T p l q : NoDup l → chain T p l q → (length l ≤ size T)%nat.
Proof.
  intros Hnd Hc. rewrite <- (size_list_to_set (C := gset Z) l) by done. rewrite <- (size_dom (D := gset Z) T).
  apply subseteq_size. intros x Hx%elem_of_list_to_set. apply elem_of_dom.
  by destruct (chain_dom _ _ _ _ _ Hc Hx).
Qed.

Lemma ring_dom s l x : ring s l → x ∈ l → x ≠ 0 ∧ is_Some (threads s !! x).
Proof.
  intros [[-> _]|(_ & _ & Hc)] Hx; [by apply not_elem_of_nil in Hx|]. by eapply chain_dom.
Qed.

(** A non-empty ring: its head, and why the head is not met again. *)
Lemma ring_cons s x l :
  ring s (x :: l) → runqueue_head s = x ∧ NoDup (x :: l) ∧ x ≠ 0 ∧ (x ∉ l) ∧
    chain (threads s) x (x :: l) x ∧ (length (x :: l) < ring_fuel s)%nat.
Proof.
  intros [[? _]|(_ & Hnd & Hc)]; [done|]. pose proof (chain_fuel _ _ _ _ Hnd Hc).
  pose proof Hc as (E & Hx & _). rewrite E in Hc. apply NoDup_cons in Hnd as Hnd'. unfold ring_fuel.
  split_and!; try done; [tauto|simpl in *; lia].
Qed.

Lemma get_thread_run s p t : threads s !! p = Some t → get_thread p s = Ret (t, s).
Proof. intros H. unfold get_thread. by rewrite bind_gets, H. Qed.

Lemma upd_thread_run s p t f :
  threads s !! p = Some t → upd_thread p f s = Ret (tt, set_threads (<[p := f t]> (threads s)) s).
Proof. intros H. unfold upd_thread. by rewrite (bind_Ret _ _ _ _ _ (get_thread_run s p t H)). Qed.

(** ** runqueue_push *)

Lemma find_tail_spec s l x : ∀ p fuel,
  chain (threads s) p (l ++ [x]) (runqueue_head s) → runqueue_head s ∉ tail (l ++ [x]) →
  (length l < fuel)%nat → find_tail fuel p s = Ret (x, s).
Proof.
  induction l as [|y l IH]; intros p fuel Hc Hh Hf; (destruct fuel as [|fuel]; [simpl in Hf; lia|]).
  - destruct Hc as (-> & _ & t & Ht & Hn). simpl in Hn. cbn [find_tail].
    rewrite (bind_Ret _ _ _ _ _ (get_thread_run s x t Ht)), bind_gets, Hn, Z.eqb_refl. done.
  - destruct Hc as (-> & _ & t & Ht & Hn). cbn [find_tail].
    rewrite (bind_Ret _ _ _ _ _ (get_thread_run s y t Ht)), bind_gets.
    pose proof (chain_head _ _ _ _ Hn) as Eh. simpl in Hh.
    destruct (Z.eqb_spec (th_next t) (runqueue_head s)) as [E|_].
    + exfalso. apply Hh. rewrite <- E, Eh. destruct l; left.
    + apply IH; [done| |simpl in Hf; lia]. intros Hin. apply Hh. destruct l; [by apply not_elem_of_nil in Hin|by right].
Qed.

(** The rest of a thread, whatever its links. *)
Definition core (t : thread) : thread := with_next 0 t.

(** Two maps that differ in links only. *)
Definition same_core (T T' : gmap Z thread) : Prop := ∀ x, core <$> T' !! x = core <$> T !! x.

Lemma same_core_next T p t n : T !! p = Some t → same_core T (<[p := with_next n t]> T).
Proof. intros Ht x. rewrite lookup_insert. case_decide as E; [|done]. subst x. by rewrite Ht. Qed.

Lemma same_core_trans T1 T2 T3 : same_core T1 T2 → same_core T2 T3 → same_core T1 T3.
Proof. intros H1 H2 x. by rewrite H2. Qed.

(** Linking [p] between the last node, [x], and the first. *)
Lemma chain_link T h l x tx p tp :
  NoDup (l ++ [x]) → p ∉ l ++ [x] → x ≠ 0 → p ≠ 0 → chain T h l x →
  chain (<[p := with_next h tp]> (<[x := with_next p tx]> T)) h ((l ++ [x]) ++ [p]) h.
Proof.
  intros (Hnd1 & Hd & _)%NoDup_app Hl Hx0 Hp0 Hc.
  assert (x ≠ p) as Hxp by (intros ->; apply Hl; rewrite elem_of_app; right; left).
  apply chain_app. exists p. split.
  - apply chain_app. exists x. split.
    + eapply chain_frame; [|exact Hc]. intros y Hy.
      rewrite lookup_insert_ne by (intros <-; apply Hl; rewrite elem_of_app; by left).
      rewrite lookup_insert_ne; [done|]. intros <-. apply (Hd x Hy). left.
    + split; [done|]. split; [done|]. eexists.
      split; [rewrite lookup_insert_ne by done; apply lookup_insert_eq|done].
  - split; [done|]. split; [done|]. eexists. split; [apply lookup_insert_eq|done].
Qed.

(** runqueue_push appends a thread that is not queued, and makes it ready. *)
Lemma runqueue_push_spec s l p t :
  ring s l → p ≠ 0 → p ∉ l → threads s !! p = Some t →
  ∃ s', runqueue_push p s = Ret (tt, s') ∧ ring s' (l ++ [p]) ∧
    same_core (<[p := with_state THREAD_READY t]> (threads s)) (threads s') ∧
    s' = set_head (runqueue_head s') (set_threads (threads s') s).
Proof.
  intros Hr Hp Hl Ht. unfold runqueue_push. destruct (Z.eqb_spec p 0); [done|].
  rewrite (bind_Ret _ _ _ _ _ (upd_thread_run s p t _ Ht)), bind_gets.
  set (t1 := with_state THREAD_READY t). set (T1 := <[p := t1]> (threads s)).
  change (runqueue_head (set_threads T1 s)) with (runqueue_head s).
  assert (T1 !! p = Some t1) as Ht1 by apply lookup_insert_eq.
  destruct l as [|h l].
  - destruct Hr as [[_ Hh]|[? _]]; [|done]. rewrite Hh, Z.eqb_refl, bind_modify.
    rewrite (upd_thread_run _ p t1) by done. eexists. split; [done|]. split_and!; [| |by destruct s].
    + right. split; [done|]. split; [by apply NoDup_singleton|]. split; [done|]. split; [done|].
      eexists. split; [apply lookup_insert_eq|done].
    + by apply same_core_next.
  - destruct (ring_cons _ _ _ Hr) as (Eh & Hnd & Hh0 & Hnh & Hc & Hf). rewrite Eh.
    destruct (Z.eqb_spec h 0); [done|]. rewrite bind_gets.
    destruct (exists_last (l := h :: l) ltac:(done)) as (l' & x & El).
    assert (∀ y, y ∈ h :: l → T1 !! y = threads s !! y) as HT1.
    { intros y Hy. unfold T1. rewrite lookup_insert_ne; [done|]. by intros ->. }
    assert (chain T1 h (h :: l) h) as Hc1.
    { eapply chain_frame; [|exact Hc]. intros y Hy. by rewrite HT1. }
    rewrite (bind_Ret _ _ _ x (set_threads T1 s)).
    2:{ apply (find_tail_spec _ l'); cbn [set_threads threads runqueue_head]; rewrite ?Eh, <- ?El; [done|done|].
        rewrite El, length_app in Hf. simpl in Hf. unfold ring_fuel in *. simpl.
        unfold T1. rewrite map_size_insert_Some by eauto. lia. }
    rewrite El in Hc1. apply chain_app in Hc1 as (m & Hc2 & (-> & _ & tx & Htx & Hnx)). simpl in Hnx.
    assert (x ∈ h :: l) as Hx by (rewrite El, elem_of_app; right; left).
    assert (x ≠ p) as Hxp by (by intros ->).
    rewrite (bind_Ret _ _ _ _ _ (upd_thread_run (set_threads T1 s) x tx _ Htx)), bind_gets.
    cbn [set_threads runqueue_head threads]. rewrite Eh.
    rewrite (upd_thread_run _ p t1) by (simpl; by rewrite lookup_insert_ne).
    eexists. split; [done|]. cbn [set_threads threads runqueue_head set_head]. rewrite Eh.
    set (T2 := <[p := with_next h t1]> _). split_and!.
    + right. split; [done|]. cbn [set_threads threads runqueue_head]. rewrite Eh. split.
      { apply NoDup_app. split_and!; [done| |by apply NoDup_singleton].
        intros y Hy ->%list_elem_of_singleton. done. }
      rewrite El. apply chain_link; [by rewrite <- El|by rewrite <- El|by destruct (chain_dom _ _ _ _ x Hc Hx)|done|done].
    + eapply same_core_trans; [by apply (same_core_next T1 x tx p)|]. unfold T2.
      apply (same_core_next _ p t1 h). by rewrite lookup_insert_ne.
    + destruct s; simpl in *. by subst.
Qed.

(** ** runqueue_next *)

(** The thread may run now; and the thread as runqueue_next leaves it. *)
Definition runnable (ticks : Z) (t : thread) : bool :=
  bool_decide (th_state t = THREAD_READY) || wakes ticks t.
Definition woken (ticks : Z) (t : thread) : thread :=
  if wakes ticks t then with_sleep 0 (with_state THREAD_READY t) else t.

Definition runnable_at (s : sched) (ticks x : Z) : bool :=
  from_option (runnable ticks) false (threads s !! x).

Lemma next_loop_step s fuel ticks p t :
  threads s !! p = Some t → wakes ticks t = false → th_state t ≠ THREAD_READY →
  next_loop (S fuel) ticks p s =
    (if negb (th_next t =? runqueue_head s) then next_loop fuel ticks (th_next t) else gets idle_thread) s.
Proof.
  intros Ht Hw Hs. cbn [next_loop]. rewrite (bind_Ret _ _ _ _ _ (get_thread_run s p t Ht)), Hw, bind_ret.
  rewrite (bind_Ret _ _ _ _ _ (get_thread_run s p t Ht)), bool_decide_eq_false_2 by done.
  by rewrite bind_gets.
Qed.

Lemma not_runnable s ticks x t :
  threads s !! x = Some t → runnable_at s ticks x = false → wakes ticks t = false ∧ th_state t ≠ THREAD_READY.
Proof.
  intros Ht. unfold runnable_at, runnable. rewrite Ht. cbn [from_option].
  rewrite orb_false_iff, bool_decide_eq_false. tauto.
Qed.

(** The loop stops at the first runnable thread ... *)
Lemma next_loop_found s ticks c tc l2 : ∀ l1 p fuel,
  chain (threads s) p (l1 ++ c :: l2) (runqueue_head s) → runqueue_head s ∉ tail (l1 ++ c :: l2) →
  (∀ x, x ∈ l1 → runnable_at s ticks x = false) → threads s !! c = Some tc → runnable ticks tc = true →
  (length l1 < fuel)%nat →
  next_loop fuel ticks p s =
    Ret (c, set_head (th_next tc) (set_threads (<[c := woken ticks tc]> (threads s)) s)).
Proof.
  induction l1 as [|y l1 IH]; intros p fuel Hc Hh Hn Hcc Hrun Hf;
    (destruct fuel as [|fuel]; [simpl in Hf; lia|]); destruct Hc as (-> & Hy & t & Ht & Hc).
  - assert (t = tc) as -> by congruence. cbn [next_loop].
    rewrite (bind_Ret _ _ _ _ _ (get_thread_run s c tc Hcc)). unfold woken, runnable in *.
    destruct (wakes ticks tc).
    + rewrite (bind_Ret _ _ _ _ _ (upd_thread_run s c tc _ Hcc)).
      erewrite bind_Ret by (apply get_thread_run; apply lookup_insert_eq).
      rewrite bool_decide_eq_true_2 by done. by rewrite bind_modify.
    + rewrite orb_false_r in Hrun. rewrite bind_ret, (bind_Ret _ _ _ _ _ (get_thread_run s c tc Hcc)), Hrun.
      rewrite bind_modify, insert_id by done. by destruct s.
  - destruct (not_runnable s ticks y t Ht (Hn y ltac:(left))) as [Hw Hs].
    rewrite (next_loop_step s fuel ticks y t Ht Hw Hs). pose proof (chain_head _ _ _ _ Hc) as Eh.
    simpl in Hh. destruct (Z.eqb_spec (th_next t) (runqueue_head s)) as [E|_]; cbn [negb].
    + exfalso. apply Hh. rewrite <- E, Eh. destruct l1; left.
    + apply IH; [done| |intros x Hx; apply Hn; by right|done|done|simpl in Hf; lia].
      intros Hin. apply Hh. destruct l1; by right.
Qed.

(** ... and goes around once when there is none. *)
Lemma next_loop_none s ticks l : ∀ p fuel,
  l ≠ [] → chain (threads s) p l (runqueue_head s) → runqueue_head s ∉ tail l →
  (∀ x, x ∈ l → runnable_at s ticks x = false) → (length l ≤ fuel)%nat →
  next_loop fuel ticks p s = Ret (idle_thread s, s).
Proof.
  induction l as [|y l IH]; intros p fuel Hne Hc Hh Hn Hf; [done|].
  destruct fuel as [|fuel]; [simpl in Hf; lia|]. destruct Hc as (-> & Hy & t & Ht & Hc).
  destruct (not_runnable s ticks y t Ht (Hn y ltac:(left))) as [Hw Hs].
  rewrite (next_loop_step s fuel ticks y t Ht Hw Hs). pose proof (chain_head _ _ _ _ Hc) as Eh. simpl in Hh.
  destruct l as [|z l].
  - rewrite Eh, Z.eqb_refl. done.
  - destruct (Z.eqb_spec (th_next t) (runqueue_head s)) as [E|_]; cbn [negb].
    + exfalso. apply Hh. rewrite <- E, Eh. left.
    + apply IH; [done|done| |intros x Hx; apply Hn; by right|simpl in *; lia].
      intros Hin. apply Hh. by right.
Qed.

(** The first runnable thread of a list, and what stands before and after it. *)
Lemma first_runnable s ticks l :
  (∀ x, x ∈ l → runnable_at s ticks x = false) ∨
  (∃ l1 c l2, l = l1 ++ c :: l2 ∧ (∀ x, x ∈ l1 → runnable_at s ticks x = false) ∧
     runnable_at s ticks c = true).
Proof.
  induction l as [|x l [IH|(l1 & c & l2 & -> & H1 & H2)]]; [left; by intros x ?%not_elem_of_nil| |].
  - destruct (runnable_at s ticks x) eqn:E.
    + right. exists [], x, l. split_and!; [done| |done]. by intros y ?%not_elem_of_nil.
    + left. intros y [->|Hy]%elem_of_cons; auto.
  - destruct (runnable_at s ticks x) eqn:E.
    + right. exists [], x, (l1 ++ c :: l2). split_and!; [done| |done]. by intros y ?%not_elem_of_nil.
    + right. exists (x :: l1), c, l2. split_and!; [done| |done]. intros y [->|Hy]%elem_of_cons; auto.
Qed.

Lemma runnable_at_Some s ticks c :
  runnable_at s ticks c = true → ∃ t, threads s !! c = Some t ∧ runnable ticks t = true.
Proof. unfold runnable_at. destruct (threads s !! c); [eauto|done]. Qed.

Lemma woken_next ticks t : th_next (woken ticks t) = th_next t.
Proof. unfold woken. by destruct (wakes ticks t). Qed.

Lemma woken_ready ticks t : runnable ticks t = true → th_state (woken ticks t) = THREAD_READY.
Proof.
  unfold runnable, woken. destruct (wakes ticks t); [done|]. rewrite orb_false_r. apply bool_decide_eq_true.
Qed.

(** Turning the ring so that it starts after [c]. *)
Lemma ring_rotate s l1 c l2 t t' :
  ring s (l1 ++ c :: l2) → threads s !! c = Some t → th_next t' = th_next t →
  ring (set_head (th_next t) (set_threads (<[c := t']> (threads s)) s)) (l2 ++ l1 ++ [c]).
Proof.
  intros Hr Ht Hn. destruct Hr as [[? _]|(_ & Hnd & Hc)]; [by destruct l1|].
  right. split; [destruct l2; [by destruct l1|done]|]. split.
  - apply (NoDup_Permutation_proper _ (l1 ++ c :: l2)); [|done]. rewrite Permutation_app_comm. by rewrite <- app_assoc.
  - assert (∀ x l q, chain (threads s) x l q → chain (<[c := t']> (threads s)) x l q) as Hfr.
    { intros x l q. apply chain_frame. intros y _. rewrite lookup_insert. case_decide; [|done]. subst.
      by rewrite Ht; simpl; rewrite Hn. }
    cbn [set_head set_threads threads runqueue_head].
    apply chain_app in Hc as (m & Hc1 & (-> & Hc0 & t0 & Ht0 & Hc2)). assert (t0 = t) as -> by congruence.
    apply chain_app. exists (runqueue_head s). split; [by apply Hfr|].
    apply chain_app. exists c. split; [by apply Hfr|].
    split; [done|]. split; [done|]. exists t'. split; [apply lookup_insert_eq|]. by rewrite Hn.
Qed.

Definition next_post (s : sched) (ticks : Z) (l : list Z) (c : Z) (s' : sched) : Prop :=
  (s' = s ∧ c = idle_thread s ∧ ∀ x, x ∈ l → runnable_at s ticks x = false) ∨
  (∃ l1 l2 t, l = l1 ++ c :: l2 ∧ (∀ x, x ∈ l1 → runnable_at s ticks x = false) ∧
     threads s !! c = Some t ∧ runnable ticks t = true ∧ ring s' (l2 ++ l1 ++ [c]) ∧
     s' = set_head (th_next t) (set_threads (<[c := woken ticks t]> (threads s)) s)).

Lemma runqueue_next_spec s l ticks :
  ring s l → l ≠ [] → ∃ c s', runqueue_next ticks s = Ret (c, s') ∧ next_post s ticks l c s'.
Proof.
  intros Hr Hne. destruct l as [|h l]; [done|].
  destruct (ring_cons _ _ _ Hr) as (Eh & Hnd & Hh0 & Hnh & Hc & Hf). unfold runqueue_next.
  rewrite bind_gets, Eh. destruct (Z.eqb_spec h 0); [done|]. rewrite bind_gets.
  destruct (first_runnable s ticks (h :: l)) as [Hno|(l1 & c & l2 & El & Hno & Hrun)].
  - exists (idle_thread s), s. split; [|by left].
    apply (next_loop_none s ticks (h :: l)); rewrite ?Eh; try done. lia.
  - apply runnable_at_Some in Hrun as (t & Ht & Hrun). rewrite El in Hc, Hr, Hf. eexists c, _. split.
    + apply (next_loop_found s ticks c t l2 l1); rewrite ?Eh, <- ?El; try done; [by rewrite El|].
      rewrite length_app in Hf. simpl in Hf. lia.
    + right. exists l1, l2, t. rewrite El. split_and!; try done.
      apply ring_rotate; [done|done|apply woken_next].
Qed.

(** ** runqueue_remove *)

Lemma find_prev_spec s p x q l : ∀ a fuel,
  chain (threads s) a (l ++ [x]) q → p ∉ tail (l ++ [x]) → runqueue_head s ∉ tail (l ++ [x]) →
  (length l < fuel)%nat → q = p ∨ (q = runqueue_head s ∧ q ≠ p) →
  find_prev fuel a p s = Ret (if decide (q = p) then Some x else None, s).
Proof.
  induction l as [|y l IH]; intros a fuel Hc Hp Hh Hf Hq; (destruct fuel as [|fuel]; [simpl in Hf; lia|]);
    destruct Hc as (-> & _ & t & Ht & Hc); cbn [find_prev].
  - simpl in Hc. rewrite (bind_Ret _ _ _ _ _ (get_thread_run s x t Ht)), Hc.
    destruct (Z.eqb_spec q p); [by rewrite decide_True|]. rewrite decide_False by done.
    rewrite bind_gets. destruct Hq as [?|[-> _]]; [done|]. by rewrite Z.eqb_refl.
  - rewrite (bind_Ret _ _ _ _ _ (get_thread_run s y t Ht)). pose proof (chain_head _ _ _ _ Hc) as Eh.
    assert (th_next t ∈ l ++ [x]) as Hin by (rewrite Eh; destruct l; left). simpl in Hp, Hh.
    destruct (Z.eqb_spec (th_next t) p) as [E|_]; [by rewrite E in Hin|]. rewrite bind_gets.
    destruct (Z.eqb_spec (th_next t) (runqueue_head s)) as [E|_]; [by rewrite E in Hin|].
    assert (∀ z, z ∉ l ++ [x] → z ∉ tail (l ++ [x])) as Ht'.
    { intros z Hz Hz'. apply Hz. destruct l; [by apply not_elem_of_nil in Hz'|by right]. }
    apply IH; auto. simpl in Hf. lia.
Qed.

(** Bypassing [p] between its neighbours. *)
Lemma chain_bypass T x p t tx l1 l2 a q n :
  NoDup (l1 ++ [x] ++ p :: l2) → chain T a (l1 ++ [x] ++ p :: l2) q → T !! p = Some t → T !! x = Some tx →
  chain (<[p := with_next n t]> (<[x := with_next (th_next t) tx]> T)) a (l1 ++ [x] ++ l2) q.
Proof.
  intros Hnd Hc Ht Htx. apply chain_app in Hc as (m & Hc1 & (-> & Hx0 & tx' & Htx' & (Enx & Hp0 & t' & Ht' & Hc2))).
  assert (t' = t) as -> by congruence. apply NoDup_app in Hnd as (_ & Hd1 & Hnd2).
  apply NoDup_cons in Hnd2 as [Hx Hnd2]. apply NoDup_cons in Hnd2 as [Hp _].
  assert (∀ y, y ≠ p → y ≠ x → (<[p := with_next n t]> (<[x := with_next (th_next t) tx]> T)) !! y = T !! y) as Hy.
  { intros y Hyp Hyx. by rewrite !lookup_insert_ne by congruence. }
  apply chain_app. exists x. split; [|split; [done|split; [done|]]].
  - eapply chain_frame; [|exact Hc1]. intros y Hin. rewrite Hy; [done| |].
    + intros ->. apply (Hd1 p Hin). right. left.
    + intros ->. apply (Hd1 x Hin). left.
  - eexists. split; [rewrite lookup_insert_ne; [apply lookup_insert_eq|]|].
    + intros ->. apply Hx. left.
    + eapply chain_frame; [|exact Hc2]. intros y Hin. rewrite Hy; [done| |].
      * by intros ->.
      * intros ->. apply Hx. by right.
Qed.

(** The last steps of runqueue_remove, once the predecessor is known. *)
Lemma unlink_run s p x t tx h :
  threads s !! p = Some t → threads s !! x = Some tx → x ≠ p → runqueue_head s = h →
  (t <- get_thread p ;;
   upd_thread x (with_next (th_next t)) ;;;
   t <- get_thread p ;;
   (if h =? p then modify (set_head (th_next t)) else ret tt) ;;;
   upd_thread p (with_next 0)) s =
  Ret (tt, set_head (if h =? p then th_next t else h)
             (set_threads (<[p := with_next 0 t]> (<[x := with_next (th_next t) tx]> (threads s))) s)).
Proof.
  intros Ht Htx Hne <-. rewrite (bind_Ret _ _ _ _ _ (get_thread_run s p t Ht)).
  rewrite (bind_Ret _ _ _ _ _ (upd_thread_run s x tx _ Htx)).
  set (s1 := set_threads _ s). assert (threads s1 !! p = Some t) as Ht1 by (simpl; by rewrite lookup_insert_ne).
  rewrite (bind_Ret _ _ _ _ _ (get_thread_run s1 p t Ht1)).
  destruct (runqueue_head s =? p).
  - rewrite bind_modify. by rewrite (upd_thread_run _ p t) by done.
  - rewrite bind_ret, (upd_thread_run s1 p t) by done. by destruct s.
Qed.

Lemma unlink_same_core T p x t tx n :
  T !! p = Some t → T !! x = Some tx → x ≠ p →
  same_core T (<[p := with_next 0 t]> (<[x := with_next n tx]> T)).
Proof.
  intros Ht Htx Hne. eapply same_core_trans; [by apply (same_core_next T x tx n)|].
  apply (same_core_next _ p t 0). by rewrite lookup_insert_ne.
Qed.

(** The head of the ring is removed: its predecessor is the last thread. *)
Lemma remove_head s p l x :
  ring s (p :: l ++ [x]) →
  ∃ s', runqueue_remove p s = Ret (tt, s') ∧ ring s' (l ++ [x]) ∧ same_core (threads s) (threads s') ∧
    s' = set_head (runqueue_head s') (set_threads (threads s') s).
Proof.
  intros Hr. destruct (ring_cons _ _ _ Hr) as (Eh & Hnd & Hp0 & Hnp & Hc & Hf).
  pose proof Hc as (_ & _ & t & Ht & Hc2). pose proof (chain_head _ _ _ _ Hc2) as En.
  assert (th_next t ∈ l ++ [x]) as Hin by (rewrite En; destruct l; left).
  assert (x ≠ p) as Hxp by (intros ->; apply Hnp; rewrite elem_of_app; right; left).
  destruct (chain_dom _ _ _ _ x Hc) as [Hx0 [tx Htx]]; [right; rewrite elem_of_app; right; left|].
  unfold runqueue_remove. rewrite bind_gets, Eh. destruct (Z.eqb_spec p 0); [done|].
  rewrite (bind_Ret _ _ _ _ _ (get_thread_run s p t Ht)).
  destruct (Z.eqb_spec (th_next t) p) as [E|_]; [by rewrite E in Hin|]. rewrite andb_false_r, bind_gets.
  rewrite (bind_Ret _ _ _ (Some x) s).
  2:{ rewrite (find_prev_spec s p x p (p :: l)); rewrite ?Eh; [by rewrite decide_True|done|done|done| |by left].
      simpl in *. rewrite length_app in Hf. lia. }
  rewrite (unlink_run s p x t tx p Ht Htx Hxp Eh), Z.eqb_refl.
  eexists. split; [done|]. split_and!; [|by apply unlink_same_core|done].
  right. split; [by destruct l|]. apply NoDup_cons in Hnd as [_ Hnd]. split; [done|].
  cbn [set_head set_threads threads runqueue_head].
  apply chain_app in Hc2 as (m & Hc3 & (-> & _ & tx' & Htx' & _)). assert (tx' = tx) as -> by congruence.
  apply NoDup_app in Hnd as (_ & Hd & _). apply chain_app. exists x. split.
  - eapply chain_frame; [|exact Hc3]. intros y Hy. rewrite !lookup_insert_ne; [done| |].
    + intros <-. apply (Hd x Hy). left.
    + intros <-. apply Hnp. rewrite elem_of_app. by left.
  - split; [done|]. split; [done|]. eexists. split; [rewrite lookup_insert_ne by done; apply lookup_insert_eq|done].
Qed.

(** Any other thread of the ring is removed. *)
Lemma remove_inner s l1 x p l2 :
  ring s (l1 ++ [x] ++ p :: l2) →
  ∃ s', runqueue_remove p s = Ret (tt, s') ∧ ring s' (l1 ++ [x] ++ l2) ∧ same_core (threads s) (threads s') ∧
    s' = set_head (runqueue_head s') (set_threads (threads s') s).
Proof.
  intros Hr. assert (∃ h l, l1 ++ [x] ++ p :: l2 = h :: l ∧ p ∈ l ∧ l1 ++ [x] = h :: take (length l1) l) as (h & l & El & Hpl & El1).
  { destruct l1 as [|h l1]; [exists x, (p :: l2)|exists h, (l1 ++ [x] ++ p :: l2)]; (split; [done|]).
    - split; [left|done].
    - split; [rewrite !elem_of_app; right; right; left|]. simpl. f_equal.
      replace (S (length l1)) with (length (l1 ++ [x])) by (rewrite length_app; simpl; lia).
      change (l1 ++ x :: p :: l2) with (l1 ++ [x] ++ p :: l2). by rewrite app_assoc, take_app_length. }
  pose proof Hr as Hr0. rewrite El in Hr0. destruct (ring_cons _ _ _ Hr0) as (Eh & Hnd & Hh0 & Hnh & Hc & Hf).
  rewrite <- El in Hnd, Hc. pose proof Hc as Hc'. apply chain_app in Hc' as (m & Hc1 & Hc2).
  destruct (chain_dom _ _ _ _ x Hc) as [Hx0 [tx Htx]]; [rewrite !elem_of_app; right; left; left|].
  destruct (chain_dom _ _ _ _ p Hc) as [Hp0 [t Ht]]; [rewrite !elem_of_app; right; right; left|].
  destruct (chain_dom _ _ _ _ h Hc) as [_ [th Hth]]; [rewrite El; left|].
  assert (h ≠ p) as Hhp by (by intros ->).
  assert (NoDup ((l1 ++ [x]) ++ p :: l2)) as Hnd' by (by rewrite <- app_assoc).
  apply NoDup_app in Hnd' as (Hnd1 & Hd & _).
  assert (x ≠ p) as Hxp by (intros ->; apply (Hd p); [rewrite elem_of_app; right; left|left]).
  unfold runqueue_remove. rewrite bind_gets, Eh. destruct (Z.eqb_spec h 0); [done|].
  rewrite (bind_Ret _ _ _ _ _ (get_thread_run s h th Hth)).
  assert ((h =? p) && (th_next th =? h) = false) as -> by (by destruct (Z.eqb_spec h p)).
  rewrite bind_gets.
  rewrite (bind_Ret _ _ _ (Some x) s).
  2:{ rewrite (find_prev_spec s p x p l1); [by rewrite decide_True| | | | |by left].
      - apply chain_app. exists m. split; [done|]. destruct Hc2 as (-> & _ & t0 & Ht0 & (E & _)).
        split; [done|]. split; [done|]. exists t0. by split.
      - intros Hin. apply (Hd p); [|left]. destruct l1; [by apply not_elem_of_nil in Hin|by right].
      - rewrite Eh. rewrite El1 in Hnd1 |- *. by apply NoDup_cons in Hnd1 as [? _].
      - apply (f_equal length) in El. rewrite !length_app in El. simpl in El, Hf. lia. }
  rewrite (unlink_run s p x t tx h Ht Htx Hxp Eh). destruct (Z.eqb_spec h p); [done|].
  eexists. split; [done|]. split_and!; [|by apply unlink_same_core|done].
  right. split; [by destruct l1|]. cbn [set_head set_threads threads runqueue_head]. split.
  - apply (NoDup_app l1 ([x] ++ l2)). apply NoDup_app in Hnd as (Ha & Hb & Hcc).
    change ([x] ++ p :: l2) with (x :: p :: l2) in Hb, Hcc.
    apply NoDup_cons in Hcc as [Hxx Hcc]. apply NoDup_cons in Hcc as [Hpp Hcc].
    split_and!; [done| |].
    + intros y Hy [->|Hy2]%elem_of_cons; apply (Hb _ Hy); [left|by right; right].
    + apply NoDup_cons. split; [|done]. intros Hin. apply Hxx. by right.
  - by apply (chain_bypass (threads s) x p t tx l1 l2 h h 0).
Qed.

Lemma runqueue_remove_spec s l1 p l2 :
  ring s (l1 ++ p :: l2) →
  ∃ s', runqueue_remove p s = Ret (tt, s') ∧ ring s' (l1 ++ l2) ∧ same_core (threads s) (threads s') ∧
    s' = set_head (runqueue_head s') (set_threads (threads s') s).
Proof.
  intros Hr. destruct (decide (l1 = [])) as [->|Hne].
  - destruct (decide (l2 = [])) as [->|Hne2].
    + destruct (ring_cons _ _ _ Hr) as (Eh & _ & Hp0 & _ & (_ & _ & t & Ht & Hn) & _). simpl in Hn.
      exists (set_head 0 s). unfold runqueue_remove. rewrite bind_gets, Eh. destruct (Z.eqb_spec p 0); [done|].
      rewrite (bind_Ret _ _ _ _ _ (get_thread_run s p t Ht)), Hn, Z.eqb_refl.
      split_and!; [done|by left|done|by destruct s].
    + destruct (exists_last Hne2) as (l & x & ->). by apply remove_head.
  - destruct (exists_last Hne) as (l & x & ->). rewrite <- app_assoc in Hr |- *. by apply remove_inner.
Qed.

(** Removing a thread that is not queued does nothing. *)
Lemma runqueue_remove_absent s l p :
  ring s l → p ∉ l → runqueue_remove p s = Ret (tt, s).
Proof.
  intros Hr Hp. unfold runqueue_remove. rewrite bind_gets. destruct l as [|h l].
  - destruct Hr as [[_ ->]|[? _]]; [done|done].
  - destruct (ring_cons _ _ _ Hr) as (Eh & Hnd & Hh0 & Hnh & Hc & Hf). rewrite Eh.
    destruct (Z.eqb_spec h 0); [done|]. pose proof Hc as (_ & _ & t & Ht & _).
    rewrite (bind_Ret _ _ _ _ _ (get_thread_run s h t Ht)).
    apply not_elem_of_cons in Hp as [Hph Hpl]. destruct (Z.eqb_spec h p); [congruence|]. cbn [andb].
    rewrite bind_gets. destruct (exists_last (l := h :: l) ltac:(done)) as (l' & x & El). rewrite El in Hc.
    rewrite (bind_Ret _ _ _ None s); [done|].
    rewrite (find_prev_spec s p x h l'); rewrite ?Eh, <- ?El; [by rewrite decide_False by congruence|by rewrite El|done|done| |].
    + rewrite El, length_app in Hf. simpl in Hf. lia.
    + right. split; congruence.
Qed.

(** ** thread_wake_pid *)

Definition wake_one (pid : Z) (t : thread) : thread :=
  if bool_decide (th_state t = THREAD_BLOCKED) && (th_waiting_for t =? pid)
  then with_waiting (W64 - 1) (with_state THREAD_READY t) else t.

Lemma wake_one_next pid t : th_next (wake_one pid t) = th_next t.
Proof. unfold wake_one. by destruct (_ && _). Qed.

Lemma wake_loop_spec pid l : ∀ s p fuel,
  l ≠ [] → NoDup l → chain (threads s) p l (runqueue_head s) → runqueue_head s ∉ tail l →
  (length l ≤ fuel)%nat →
  ∃ T, wake_loop fuel pid p s = Ret (tt, set_threads T s) ∧
    ∀ x, T !! x = (if decide (x ∈ l) then wake_one pid else id) <$> threads s !! x.
Proof.
  induction l as [|y l IH]; intros s p fuel Hne Hnd Hc Hh Hf; [done|].
  destruct fuel as [|fuel]; [simpl in Hf; lia|]. destruct Hc as (-> & Hy & t & Ht & Hc).
  apply NoDup_cons in Hnd as [Hyl Hnd]. cbn [wake_loop].
  rewrite (bind_Ret _ _ _ _ _ (get_thread_run s y t Ht)).
  set (s1 := set_threads (<[y := wake_one pid t]> (threads s)) s).
  rewrite (bind_Ret _ _ _ tt s1).
  2:{ unfold s1, wake_one. destruct (_ && _); [by apply (upd_thread_run s y t)|].
      rewrite insert_id by done. by destruct s. }
  assert (threads s1 !! y = Some (wake_one pid t)) as Ht1 by apply lookup_insert_eq.
  rewrite (bind_Ret _ _ _ _ _ (get_thread_run s1 y _ Ht1)), bind_gets, wake_one_next.
  change (runqueue_head s1) with (runqueue_head s). pose proof (chain_head _ _ _ _ Hc) as Eh.
  assert (∀ x, (<[y := wake_one pid t]> (threads s)) !! x =
    (if decide (x = y) then wake_one pid else id) <$> threads s !! x) as Hl1.
  { intros x. rewrite lookup_insert. repeat case_decide; subst; try done; [by rewrite Ht|].
    by rewrite option_fmap_id. }
  destruct l as [|z l].
  - rewrite Eh, Z.eqb_refl. cbn [negb]. exists (<[y := wake_one pid t]> (threads s)). split; [done|].
    intros x. rewrite Hl1. destruct (decide (x = y)) as [->|Hxy]; [by rewrite decide_True by left|].
    rewrite decide_False; [done|]. by intros ->%list_elem_of_singleton.
  - simpl in Hh. destruct (Z.eqb_spec (th_next t) (runqueue_head s)) as [E|_]; cbn [negb].
    + exfalso. apply Hh. rewrite <- E, Eh. left.
    + destruct (IH s1 (th_next t) fuel) as (T & Hrun & HT); [done|done| | |simpl in *; lia|].
      * eapply chain_frame; [|exact Hc]. intros x Hx. simpl. rewrite lookup_insert_ne; [done|]. by intros ->.
      * intros Hin. apply Hh. by right.
      * exists T. split; [exact Hrun|]. intros x. rewrite HT. cbn [s1 set_threads threads]. rewrite Hl1.
        destruct (decide (x = y)) as [->|Hxy].
        -- rewrite decide_False, decide_True by (done || left). by rewrite option_fmap_id.
        -- rewrite option_fmap_id. destruct (decide (x ∈ z :: l)).
           ++ by rewrite decide_True by (by right).
           ++ rewrite decide_False; [done|]. by intros [|]%elem_of_cons.
Qed.

Lemma wake_pid_spec s l pid :
  ring s l →
  ∃ T, thread_wake_pid pid s = Ret (tt, set_threads T s) ∧ ring (set_threads T s) l ∧
    ∀ x, T !! x = (if decide (x ∈ l) then wake_one pid else id) <$> threads s !! x.
Proof.
  intros Hr. unfold thread_wake_pid. rewrite bind_gets. destruct l as [|h l].
  - destruct Hr as [[_ Hh]|[? _]]; [|done]. rewrite Hh. exists (threads s). split; [by destruct s|].
    split; [by left|]. intros x. rewrite decide_False by apply not_elem_of_nil. by rewrite option_fmap_id.
  - destruct (ring_cons _ _ _ Hr) as (Eh & Hnd & Hh0 & Hnh & Hc & Hf). rewrite Eh.
    destruct (Z.eqb_spec h 0); [done|]. rewrite bind_gets.
    destruct (wake_loop_spec pid (h :: l) s h (ring_fuel s)) as (T & Hrun & HT); rewrite ?Eh; try done; [lia|].
    exists T. split; [done|]. split; [|done]. right. split; [done|]. split; [done|].
    cbn [set_threads threads runqueue_head]. rewrite Eh. eapply chain_frame; [|exact Hc].
    intros x Hx. rewrite HT. rewrite decide_True by done. destruct (threads s !! x) as [t|]; [|done].
    simpl. by rewrite wake_one_next.
Qed.

(** ** Creation and switching: the whole kernel state *)

Record kernel (P : Type) := mkKernel { k_vm : vm_state P; k_sched : sched; k_procs : gmap Z process }.
Arguments mkKernel {P} _ _ _.
Arguments k_vm {P} _.
Arguments k_sched {P} _.
Arguments k_procs {P} _.

Section Kernel.
Context {P : Type} `{FA : FrameAllocator P} `{B : Boot}.

(** The code addresses of thread_entry_trampoline and thread_userspace_enter. *)
Variables thread_entry_trampoline thread_userspace_enter_addr : Z.

(** The value stored by [*--sp = (uint64_t)sp + 8], for a stack that ends at
    [top]: C leaves open whether sp is read before or after the decrement. *)
Variable unsequenced : Z → Z.

Abbreviation KM := (M (kernel P)).

Definition set_vm (v : vm_state P) (k : kernel P) : kernel P := mkKernel v (k_sched k) (k_procs k).
Definition set_sched (s : sched) (k : kernel P) : kernel P := mkKernel (k_vm k) s (k_procs k).
Definition in_vm {A} (m : M (vm_state P) A) : KM A := zoom k_vm set_vm m.
Definition in_sched {A} (m : SM A) : KM A := zoom k_sched set_sched m.
Definition k_mm {A} (m : M (mm_state P) A) : KM A := in_vm (in_mm m).

(** [*--sp = v] for a list of values, the first pushed first; returns sp. *)
Fixpoint push_words (sp : Z) (vs : list Z) : M (mm_state P) Z :=
  match vs with
  | [] => ret sp
  | v :: vs' => wr64 (sp - 8) v ;;; push_words (sp - 8) vs'
  end.

(** The part thread_create and thread_create_user share: the struct, the zeroed
    stack and the words pushed on it. *)
Definition alloc_thread (msg1 msg2 : string) (frame : Z → list Z) : KM (Z * Z * Z) :=
  th <- k_mm (kmalloc SIZEOF_THREAD) ;;
  if th =? 0 then panic msg1
  else
    stack_phys <- k_mm (pg (fa_alloc_n 4)) ;;
    if stack_phys =? 0 then panic msg2
    else
      let stack := stack_phys +64 hhdm_offset in
      k_mm (upd_mem (λ m, memset m stack 0 KERNEL_STACK_SIZE)) ;;;
      let top := stack + KERNEL_STACK_SIZE in
      sp <- k_mm (push_words top (frame top)) ;;
      ret (th, stack, sp).

Definition install_thread (th : Z) (t : Z → thread) : KM Z :=
  in_sched (modify (λ s, mkSched (<[th := t (next_thread_id s)]> (threads s)) (runqueue_head s)
    (curr_thread s) (idle_thread s) (next_thread_id s +64 1) (cpu_kernel_rsp s) (tss_rsp0 s))) ;;;
  ret th.

(** The fields user_* are left as kmalloc returned them: [garbage]. *)
Definition thread_create (garbage : Z → Z) (entry : Z) : KM Z :=
  r <- alloc_thread "thread.c: thread_create() -> failed to allocate thread"
         "thread.c: thread_create() -> failed to allocate stack"
         (λ top, [0x10; unsequenced top; 0x202; 0x08; entry; thread_entry_trampoline; 0; 0; 0; 0; 0; 0]) ;;
  let '(th, stack, sp) := r in
  install_thread th (λ id, mkThread sp stack (stack + KERNEL_STACK_SIZE) KERNEL_STACK_SIZE
    THREAD_READY id (garbage 0) (garbage 1) (garbage 2) (garbage 3) 0 0 0 0).

Definition thread_create_user (garbage : Z → Z) (entry user_rsp : Z) : KM Z :=
  r <- alloc_thread "thread_create_user: failed to allocate thread"
         "thread_create_user: failed to allocate stack"
         (λ _, [thread_userspace_enter_addr; 0; 0; 0; 0; 0; 0]) ;;
  let '(th, stack, sp) := r in
  install_thread th (λ id, mkThread sp stack (stack + KERNEL_STACK_SIZE) KERNEL_STACK_SIZE
    THREAD_READY id entry user_rsp (garbage 2) (garbage 3) 0 (W64 - 1) 0 0).

(** vmm_switch_space(proc->addr_space), through the pointer in the struct. *)
Definition switch_to_process (proc : Z) : KM unit :=
  ps <- gets k_procs ;;
  p <- of_opt (ps !! proc) ;;
  sp <- gets (λ k, read_space (mm_mem (vm_mm (k_vm k))) (p_addr_space p)) ;;
  in_vm (vmm_switch_space sp).

Definition set_kernel_rsp (v : Z) (s : sched) : sched :=
  mkSched (threads s) (runqueue_head s) (curr_thread s) (idle_thread s) (next_thread_id s) v v.
Definition set_curr (p : Z) (s : sched) : sched :=
  mkSched (threads s) (runqueue_head s) p (idle_thread s) (next_thread_id s)
    (cpu_kernel_rsp s) (tss_rsp0 s).

(** schedule(), up to and including the switch: the rest of the call runs when
    the thread is switched back in. *)
Definition schedule (ticks : Z) : KM unit :=
  next <- in_sched (runqueue_next ticks) ;;
  curr <- gets (λ k, curr_thread (k_sched k)) ;;
  if next =? curr then ret tt
  else
    let prev := curr in
    pt <- in_sched (get_thread prev) ;;
    (if bool_decide (th_state pt = THREAD_RUNNING)
     then in_sched (upd_thread prev (with_state THREAD_READY)) else ret tt) ;;;
    in_sched (modify (set_curr next)) ;;;
    in_sched (upd_thread next (with_state THREAD_RUNNING)) ;;;
    nt <- in_sched (get_thread next) ;;
    in_sched (modify (set_kernel_rsp (th_kernel_rsp_top nt))) ;;;
    (if negb (th_process nt =? 0) then switch_to_process (th_process nt)
     else sp <- gets (λ k, kernel_addr_space (k_vm k)) ;; in_vm (vmm_switch_space sp)).

(** thread_userspace_enter up to the jump: the registers jump_userspace gets. *)
Definition thread_userspace_enter : KM (Z * Z * Z * Z) :=
  curr <- gets (λ k, curr_thread (k_sched k)) ;;
  t <- in_sched (get_thread curr) ;;
  in_sched (modify (set_kernel_rsp (th_kernel_rsp_top t))) ;;;
  switch_to_process (th_process t) ;;;
  ret (th_user_entry t, th_user_rsp t, th_user_argc t, th_user_argv t).

(** thread_init up to the jump into the idle thread. *)
Definition thread_init (garbage : Z → Z) (idle_entry : Z) : KM unit :=
  idle <- thread_create garbage idle_entry ;;
  in_sched (modify (λ s, mkSched (threads s) (runqueue_head s) (curr_thread s) idle
    (next_thread_id s) (cpu_kernel_rsp s) (tss_rsp0 s))) ;;;
  in_sched (runqueue_push idle) ;;;
  in_sched (modify (set_curr idle)) ;;;
  in_sched (upd_thread idle (with_state THREAD_RUNNING)).

(** ** schedule *)

(** A scheduler whose queue is the ring [l]: the current and the idle thread
    exist, every process a thread names exists, and only the current thread can
    be marked running. *)
Record sched_ok (k : kernel P) (l : list Z) : Prop := {
  so_ring : ring (k_sched k) l;
  so_curr : is_Some (threads (k_sched k) !! curr_thread (k_sched k));
  so_idle : is_Some (threads (k_sched k) !! idle_thread (k_sched k));
  so_running : ∀ p t, threads (k_sched k) !! p = Some t → th_state t = THREAD_RUNNING →
    p = curr_thread (k_sched k);
  so_proc : ∀ p t, threads (k_sched k) !! p = Some t → th_process t ≠ 0 →
    is_Some (k_procs k !! th_process t);
}.

(** The physical address of the page tables a thread runs on. *)
Definition space_of (k : kernel P) (t : thread) : Z :=
  if th_process t =? 0 then as_pml4_phys (kernel_addr_space (k_vm k))
  else match k_procs k !! th_process t with
       | Some p => as_pml4_phys (read_space (mm_mem (vm_mm (k_vm k))) (p_addr_space p))
       | None => 0
       end.

(** The thread runqueue_next picks, and the state it leaves. *)
Definition picks (s : sched) (ticks : Z) (l : list Z) (c : Z) (s1 : sched) : Prop :=
  (l = [] ∧ c = curr_thread s ∧ s1 = s) ∨ (l ≠ [] ∧ next_post s ticks l c s1).

Lemma picks_total s ticks l :
  ring s l → ∃ c s1, runqueue_next ticks s = Ret (c, s1) ∧ picks s ticks l c s1.
Proof.
  intros Hr. destruct (decide (l = [])) as [->|Hne].
  - destruct Hr as [[_ Hh]|[? _]]; [|done]. exists (curr_thread s), s.
    unfold runqueue_next. rewrite bind_gets, Hh. split; [done|by left].
  - destruct (runqueue_next_spec s l ticks Hr Hne) as (c & s1 & ? & ?). exists c, s1. split; [done|by right].
Qed.

(** What picking leaves of the invariant. *)
Lemma picks_ok k ticks l c s1 :
  sched_ok k l → picks (k_sched k) ticks l c s1 →
  ∃ l1, l1 ≡ₚ l ∧ sched_ok (set_sched s1 k) l1 ∧ is_Some (threads s1 !! c) ∧
    curr_thread s1 = curr_thread (k_sched k).
Proof.
  intros Hok Hp. destruct Hok as [Hr [tc Hc] [ti Hi] Hrun Hproc].
  assert (∀ s2, s2 = k_sched k → sched_ok (set_sched s2 k) l) as Hsame by (intros ? ->; split; eauto).
  destruct Hp as [(-> & -> & ->)|(Hne & [(-> & -> & _)|(l1 & l2 & t & -> & Hno & Ht & Hr1 & Hring & ->)])].
  - exists []. split_and!; eauto.
  - exists l. split_and!; eauto.
  - set (s := k_sched k) in *. exists (l2 ++ l1 ++ [c]).
    assert (∀ p, is_Some (threads s !! p) → is_Some (<[c := woken ticks t]> (threads s) !! p)) as Hdom.
    { intros p Hp. apply lookup_insert_is_Some'. by right. }
    split_and!; [| |cbn [set_head set_threads threads]; eauto|done].
    { rewrite Permutation_app_comm. by rewrite <- app_assoc. }
    split; cbn [set_sched k_sched k_procs set_head set_threads threads curr_thread idle_thread]; eauto.
    + intros p t' [[<- <-]|[_ Hp]]%lookup_insert_Some Hst; [|by eapply Hrun].
      rewrite woken_ready in Hst by done. done.
    + intros p t' [[<- <-]|[_ Hp]]%lookup_insert_Some Hpr; [|by eapply Hproc].
      unfold woken in *. destruct (wakes ticks t); by apply (Hproc c t).
Qed.

Lemma insert_state_ok k l p t st :
  sched_ok k l → threads (k_sched k) !! p = Some t →
  (st = THREAD_RUNNING → p = curr_thread (k_sched k)) →
  sched_ok (set_sched (set_threads (<[p := with_state st t]> (threads (k_sched k))) (k_sched k)) k) l.
Proof.
  intros [Hr Hc Hi Hrun Hproc] Ht Hst. split;
    cbn [set_sched k_sched k_procs set_threads threads curr_thread idle_thread].
  - destruct Hr as [[-> Hh]|(Hne & Hnd & Hch)]; [by left|right]. split; [done|]. split; [done|].
    cbn [set_threads threads runqueue_head]. eapply chain_frame; [|exact Hch].
    intros x _. rewrite lookup_insert. case_decide; [|done]. subst. by rewrite Ht.
  - apply lookup_insert_is_Some'. by right.
  - apply lookup_insert_is_Some'. by right.
  - intros q t' [[<- <-]|[_ Hq]]%lookup_insert_Some Hs; [by apply Hst|by eapply Hrun].
  - intros q t' [[<- <-]|[_ Hq]]%lookup_insert_Some Hpr; [by apply (Hproc p t)|by eapply Hproc].
Qed.

(** The thread switched away from: it can run again unless it blocked or died. *)
Definition preempted (t : thread) : thread :=
  if bool_decide (th_state t = THREAD_RUNNING) then with_state THREAD_READY t else t.

(** The second half of schedule: the switch to thread [c]. *)
Lemma switch_run k c tc :
  threads (k_sched k) !! c = Some tc →
  (th_process tc ≠ 0 → is_Some (k_procs k !! th_process tc)) →
  (in_sched (modify (set_curr c)) ;;;
   in_sched (upd_thread c (with_state THREAD_RUNNING)) ;;;
   nt <- in_sched (get_thread c) ;;
   in_sched (modify (set_kernel_rsp (th_kernel_rsp_top nt))) ;;;
   (if negb (th_process nt =? 0) then switch_to_process (th_process nt)
    else sp <- gets (λ k, kernel_addr_space (k_vm k)) ;; in_vm (vmm_switch_space sp))) k =
  Ret (tt, mkKernel (mkVm (vm_mm (k_vm k)) (kernel_addr_space (k_vm k)) (space_of k tc))
             (set_kernel_rsp (th_kernel_rsp_top tc)
               (set_threads (<[c := with_state THREAD_RUNNING tc]> (threads (k_sched k)))
                 (set_curr c (k_sched k)))) (k_procs k)).
Proof.
  intros Htc Hproc. erewrite bind_Ret by (by apply zoom_Ret).
  erewrite bind_Ret by (apply zoom_Ret, upd_thread_run; exact Htc).
  erewrite bind_Ret by (apply zoom_Ret, get_thread_run; apply lookup_insert_eq).
  erewrite bind_Ret by (by apply zoom_Ret).
  cbn [set_sched k_sched k_vm k_procs with_state th_process th_kernel_rsp_top set_curr set_threads threads
    runqueue_head curr_thread idle_thread next_thread_id].
  unfold space_of. destruct (Z.eqb_spec (th_process tc) 0) as [E|E]; cbn [negb].
  - rewrite bind_gets. done.
  - destruct (Hproc E) as [p Hp]. unfold switch_to_process, bind, gets. cbn [k_procs set_sched k_sched k_vm]. by rewrite Hp.
Qed.

Lemma schedule_spec k l ticks :
  sched_ok k l →
  ∃ c s1 k', picks (k_sched k) ticks l c s1 ∧ schedule ticks k = Ret (tt, k') ∧
    curr_thread (k_sched k') = c ∧ (∃ l', l' ≡ₚ l ∧ sched_ok k' l') ∧
    (c = curr_thread (k_sched k) → k' = set_sched s1 k) ∧
    (c ≠ curr_thread (k_sched k) → ∃ tc tp,
       threads s1 !! c = Some tc ∧ threads s1 !! curr_thread (k_sched k) = Some tp ∧
       threads (k_sched k') = <[c := with_state THREAD_RUNNING tc]>
         (<[curr_thread (k_sched k) := preempted tp]> (threads s1)) ∧
       cpu_kernel_rsp (k_sched k') = th_kernel_rsp_top tc ∧ tss_rsp0 (k_sched k') = th_kernel_rsp_top tc ∧
       cr3 (k_vm k') = space_of k tc ∧ vm_mm (k_vm k') = vm_mm (k_vm k)).
Proof.
  intros Hok. destruct (picks_total _ ticks l (so_ring _ _ Hok)) as (c & s1 & Hnext & Hp).
  destruct (picks_ok _ _ _ _ _ Hok Hp) as (l1 & Hperm & Hok1 & [tc Htc] & Ecurr). exists c, s1.
  unfold schedule. rewrite (bind_Ret _ _ _ c (set_sched s1 k)) by (by apply zoom_Ret).
  rewrite bind_gets. cbn [set_sched k_sched]. rewrite Ecurr.
  destruct (Z.eqb_spec c (curr_thread (k_sched k))) as [E|E].
  { exists (set_sched s1 k). split_and!; try done; [cbn [set_sched k_sched]; congruence|eauto]. }
  set (curr := curr_thread (k_sched k)) in *. set (k1 := set_sched s1 k) in *.
  destruct (so_curr _ _ Hok1) as [tp Htp]. cbn [k1 set_sched k_sched] in Htp. rewrite Ecurr in Htp.
  erewrite bind_Ret by (apply zoom_Ret; by apply get_thread_run).
  set (s2 := set_threads (<[curr := preempted tp]> (threads s1)) s1). set (k2 := set_sched s2 k1).
  rewrite (bind_Ret _ _ _ tt k2).
  2:{ unfold k2, s2, preempted. destruct (bool_decide _).
      - apply zoom_Ret. by apply upd_thread_run.
      - unfold k1. cbn [set_sched k_vm k_procs k_sched]. rewrite insert_id by done. by destruct s1. }
  assert (threads s2 !! c = Some tc) as Htc2 by (simpl; by rewrite lookup_insert_ne).
  assert (sched_ok k2 l1) as Hok2.
  { unfold k2, s2, preempted. destruct (bool_decide _).
    - apply (insert_state_ok k1 l1 curr tp); [done|done|done].
    - rewrite insert_id by done. by destruct s1. }
  rewrite (switch_run k2 c tc Htc2) by (intros Hpr; by apply (so_proc _ _ Hok2 c tc)).
  eexists. split; [done|]. split; [reflexivity|]. split; [done|]. split_and!; [|done|].
  - exists l1. split; [done|].
    pose proof (insert_state_ok (set_sched (set_curr c s2) k2) l1 c tc THREAD_RUNNING) as Hins.
    cbn [set_sched k_sched set_curr threads curr_thread] in Hins.
    destruct Hins as [Hr Hc Hi Hrun Hproc]; [|done|done|by split].
    destruct Hok2 as [Hr2 Hc2 Hi2 Hrun2 Hproc2]. split; [done|by exists tc|done| |done].
    intros q t Hq Hs. cbn [set_sched k_sched set_curr threads curr_thread] in Hq |- *.
    pose proof (Hrun2 q t Hq Hs) as ->. cbn [k2 set_sched k_sched s2 set_threads threads curr_thread] in Hq, Hs |- *.
    exfalso. rewrite Ecurr in Hq. rewrite lookup_insert_eq in Hq. injection Hq as <-.
    unfold preempted in Hs. case_bool_decide; done.
  - intros _. exists tc, tp. split_and!; try done.
Qed.

End Kernel.
