(* ===== verification/ThreadThms.v ===== *)
(** * Theorems about threads and the scheduler *)

From S2P Require Import Prelude ByteMem FrameAlloc Pmm Heap HeapThms Vmm VmmThms Thread.

(** ** A concrete scheduler: an idle thread, a ready one and a sleeper *)

Definition demo_thread (st : thread_state) (top sleep next : Z) : thread :=
  mkThread 0 0 top 0x4000 st 0 0 0 0 0 0 7 sleep next.
Definition demo_threads : gmap Z thread :=
  <[16 := demo_thread THREAD_RUNNING 0x1000 0 32]>
    (<[32 := demo_thread THREAD_BLOCKED 0x2000 50 48]>
      {[48 := demo_thread THREAD_READY 0x3000 0 16]}).
Definition demo_sched : sched := mkSched (<[64 := demo_thread THREAD_DEAD 0 0 0]> demo_threads) 16 16 16 4 0 0.
Definition demo_kernel : kernel pmm_state := mkKernel demo_vm3 demo_sched ∅.

Lemma demo_ring : ring demo_sched [16; 32; 48].
Proof.
  right. split; [discriminate|]. split.
  - apply (bool_decide_unpack _). vm_compute. exact I.
  - repeat (split; [reflexivity|]; split; [discriminate|]; eexists; split; [reflexivity|]).
    reflexivity.
Qed.

Lemma demo_sched_ok : sched_ok demo_kernel [16; 32; 48].
Proof.
  assert (∀ p t, threads demo_sched !! p = Some t → (th_state t = THREAD_RUNNING → p = 16) ∧ th_process t = 0) as H.
  { unfold demo_sched, demo_threads. cbn [threads]. intros p t.
    rewrite !lookup_insert_Some, lookup_singleton_Some.
    intros [[<- <-]|[_ [[<- <-]|[_ [[<- <-]|[_ [<- <-]]]]]]]; split; done. }
  split; cbn [demo_kernel k_sched].
  - exact demo_ring.
  - eexists. reflexivity.
  - eexists. reflexivity.
  - intros p t Ht Hs. by apply (H p t).
  - intros p t Ht Hp. by destruct (H p t Ht).
Qed.

(** ** The properties *)

(** runqueue_push on a ring: the thread, which must not be queued already,
    becomes ready and the last of the queue; the order of the others and every
    other field of every thread stay as they were. *)
Theorem runqueue_push_appends (s : sched) (l : list Z) (p : Z) (t : thread) :
  ring s l → p ≠ 0 → p ∉ l → threads s !! p = Some t →
  ∃ s', runqueue_push p s = Ret (tt, s') ∧ ring s' (l ++ [p]) ∧
    same_core (<[p := with_state THREAD_READY t]> (threads s)) (threads s') ∧
    s' = set_head (runqueue_head s') (set_threads (threads s') s).
Proof. apply runqueue_push_spec. Qed.

Lemma runqueue_push_appends_witness :
  ∃ s', runqueue_push 64 demo_sched = Ret (tt, s') ∧ ring s' [16; 32; 48; 64].
Proof.
  destruct (runqueue_push_appends demo_sched [16; 32; 48] 64 (demo_thread THREAD_DEAD 0 0 0)) as (s' & H1 & H2 & _).
  - exact demo_ring.
  - discriminate.
  - apply (bool_decide_unpack _). vm_compute. exact I.
  - reflexivity.
  - exists s'. split; [exact H1|exact H2].
Defined.

(** runqueue_remove takes exactly the given thread out of the ring, keeps
    the order of the others (also when it was the head, or the only one), and
    does nothing when the thread is not queued.  The search always ends. *)
Theorem runqueue_remove_correct (s : sched) (l : list Z) (p : Z) :
  ring s l →
  (∀ l1 l2, l = l1 ++ p :: l2 →
     ∃ s', runqueue_remove p s = Ret (tt, s') ∧ ring s' (l1 ++ l2) ∧ same_core (threads s) (threads s')) ∧
  (p ∉ l → runqueue_remove p s = Ret (tt, s)).
Proof.
  intros Hr. split.
  - intros l1 l2 ->. destruct (runqueue_remove_spec s l1 p l2 Hr) as (s' & ? & ? & ? & _). eauto.
  - by apply runqueue_remove_absent.
Qed.

Lemma runqueue_remove_correct_witness :
  ∃ s', runqueue_remove 16 demo_sched = Ret (tt, s') ∧ ring s' [32; 48].
Proof.
  destruct (runqueue_remove_correct demo_sched [16; 32; 48] 16 demo_ring) as [H _].
  destruct (H [] [32; 48]) as (s' & H1 & H2 & _); [reflexivity|].
  exists s'. split; [exact H1|exact H2].
Defined.

(** runqueue_next is a round-robin choice: it returns the first thread of
    the ring that is ready or a sleeper whose time has come (which it wakes) and
    turns the ring so that the search continues after it; it returns the idle
    thread, with nothing changed, exactly when no thread can run. *)
Theorem runqueue_next_round_robin (s : sched) (l : list Z) (ticks : Z) :
  ring s l → l ≠ [] →
  ∃ c s', runqueue_next ticks s = Ret (c, s') ∧
    ((s' = s ∧ c = idle_thread s ∧ ∀ x, x ∈ l → runnable_at s ticks x = false) ∨
     (∃ l1 l2 t, l = l1 ++ c :: l2 ∧ (∀ x, x ∈ l1 → runnable_at s ticks x = false) ∧
        threads s !! c = Some t ∧ runnable ticks t = true ∧ ring s' (l2 ++ l1 ++ [c]) ∧
        s' = set_head (th_next t) (set_threads (<[c := woken ticks t]> (threads s)) s))).
Proof. apply runqueue_next_spec. Qed.

Lemma runqueue_next_round_robin_witness :
  ∃ c s', runqueue_next 60 demo_sched = Ret (c, s') ∧ c = 32.
Proof.
  destruct (runqueue_next_round_robin demo_sched [16; 32; 48] 60) as (c & s' & H & _).
  - exact demo_ring.
  - discriminate.
  - exists c, s'. split; [exact H|].
    assert (value_of (runqueue_next 60 demo_sched) = Some 32) as E by (vm_compute; reflexivity).
    rewrite H in E. simpl in E. injection E as E. exact E.
Defined.

(** The choices of a sequence of calls. *)
Fixpoint next_calls (tickss : list Z) : M sched (list Z) :=
  match tickss with
  | [] => ret []
  | ticks :: tickss' =>
      c <- runqueue_next ticks ;; cs <- next_calls tickss' ;; ret (c :: cs)
  end.

(** One call moves a ready thread towards the head, or chooses it. *)
Lemma next_progress s l i x t ticks :
  ring s l → l !! i = Some x → threads s !! x = Some t → th_state t = THREAD_READY →
  ∃ c s' l', runqueue_next ticks s = Ret (c, s') ∧ ring s' l' ∧ l' ≠ [] ∧
    (c = x ∨ ∃ j, (j < i)%nat ∧ l' !! j = Some x ∧ threads s' !! x = Some t).
Proof.
  intros Hr Hi Ht Hs. assert (l ≠ []) as Hne by (by destruct l).
  assert (runnable_at s ticks x = true) as Hx.
  { unfold runnable_at, runnable. rewrite Ht. cbn [from_option]. by rewrite bool_decide_eq_true_2. }
  destruct (runqueue_next_spec s l ticks Hr Hne) as (c & s' & Hrun & Hp). exists c, s'.
  destruct Hp as [(_ & _ & Hno)|(l1 & l2 & tc & -> & Hno & Hc & Hrc & Hring & ->)].
  { rewrite (Hno x) in Hx; [done|]. by eapply list_elem_of_lookup_2. }
  exists (l2 ++ l1 ++ [c]). split_and!; [done|done|by destruct l2; [destruct l1|]|].
  destruct (decide (c = x)) as [|Hcx]; [by left|right].
  assert (length l1 < i)%nat as Hlt.
  { destruct (decide (i < length l1)%nat) as [Hl|Hl].
    - rewrite lookup_app_l in Hi by done. rewrite (Hno x) in Hx; [done|]. by eapply list_elem_of_lookup_2.
    - destruct (decide (i = length l1)) as [->|]; [|lia]. rewrite lookup_app_r, Nat.sub_diag in Hi by lia.
      by injection Hi. }
  rewrite lookup_app_r in Hi by lia. destruct (i - length l1)%nat as [|j] eqn:Ej; [lia|]. simpl in Hi.
  exists j. split_and!; [lia| |].
  - rewrite lookup_app_l; [done|]. by eapply lookup_lt_Some.
  - cbn [set_head set_threads threads]. by rewrite lookup_insert_ne.
Qed.

Lemma next_calls_total tickss : ∀ s l, ring s l → l ≠ [] → ∃ cs s', next_calls tickss s = Ret (cs, s').
Proof.
  induction tickss as [|ticks tickss IH]; intros s l Hr Hne; [by exists [], s|]. cbn [next_calls].
  destruct (runqueue_next_spec s l ticks Hr Hne) as (c & s1 & Hrun & Hp). rewrite (bind_Ret _ _ _ _ _ Hrun).
  assert (∃ l1, ring s1 l1 ∧ l1 ≠ []) as (l1 & Hr1 & Hne1).
  { destruct Hp as [(-> & _)|(l1 & l2 & tc & _ & _ & _ & _ & Hring & _)]; [by exists l|].
    exists (l2 ++ l1 ++ [c]). split; [done|]. by destruct l2; [destruct l1|]. }
  destruct (IH s1 l1 Hr1 Hne1) as (cs & s2 & Hrun2). rewrite (bind_Ret _ _ _ _ _ Hrun2). unfold ret. eauto.
Qed.

(** C35. No ready thread starves: whatever the clock shows at each call, a ready
    thread in position [i] of the queue is chosen within [i + 1] calls of
    runqueue_next. *)
Theorem runqueue_next_fair (s : sched) (l : list Z) (i : nat) (x : Z) (t : thread) (tickss : list Z) :
  ring s l → l !! i = Some x → threads s !! x = Some t → th_state t = THREAD_READY →
  (i < length tickss)%nat →
  ∃ cs s', next_calls tickss s = Ret (cs, s') ∧ x ∈ take (S i) cs.
Proof.
  intros Hr Hi Ht Hs Hlen. revert s l i Hr Hi Ht Hlen.
  induction tickss as [|ticks tickss IH]; intros s l i Hr Hi Ht Hlen; [simpl in Hlen; lia|]. cbn [next_calls].
  destruct (next_progress s l i x t ticks Hr Hi Ht Hs) as (c & s1 & l1 & Hrun & Hr1 & Hne1 & Hc).
  rewrite (bind_Ret _ _ _ _ _ Hrun). destruct Hc as [->|(j & Hj & Hj1 & Ht1)].
  - destruct (next_calls_total tickss s1 l1 Hr1 Hne1) as (cs & s2 & Hrun2).
    rewrite (bind_Ret _ _ _ _ _ Hrun2). exists (x :: cs), s2. split; [done|left].
  - destruct (IH s1 l1 j Hr1 Hj1 Ht1 ltac:(simpl in Hlen; lia)) as (cs & s2 & Hrun2 & Hin).
    rewrite (bind_Ret _ _ _ _ _ Hrun2). exists (c :: cs), s2. split; [done|]. simpl. right.
    apply list_elem_of_lookup in Hin as [k Hk]. apply lookup_take_Some in Hk as [Hk Hlt].
    apply list_elem_of_lookup. exists k. apply lookup_take_Some. split; [done|lia].
Qed.

Lemma runqueue_next_fair_witness :
  ∃ cs s', next_calls [60; 60; 60] demo_sched = Ret (cs, s') ∧ 48 ∈ take 3 cs.
Proof.
  apply (runqueue_next_fair demo_sched [16; 32; 48] 2 48 (demo_thread THREAD_READY 0x3000 0 16) [60; 60; 60]).
  - exact demo_ring.
  - reflexivity.
  - reflexivity.
  - reflexivity.
  - simpl. lia.
Defined.

(** thread_wake_pid makes ready exactly the queued threads that are blocked
    waiting for [pid] and clears what they wait for; every other thread, and the
    ring, stay as they were. *)
Theorem thread_wake_pid_correct (s : sched) (l : list Z) (pid : Z) :
  ring s l →
  ∃ T, thread_wake_pid pid s = Ret (tt, set_threads T s) ∧ ring (set_threads T s) l ∧
    ∀ x t, threads s !! x = Some t →
      T !! x = Some (if decide (x ∈ l ∧ th_state t = THREAD_BLOCKED ∧ th_waiting_for t = pid)
                     then with_waiting (W64 - 1) (with_state THREAD_READY t) else t).
Proof.
  intros Hr. destruct (wake_pid_spec s l pid Hr) as (T & Hrun & Hr' & HT). exists T. split_and!; [done|done|].
  intros x t Ht. rewrite HT, Ht. simpl. f_equal. destruct (decide (x ∈ l)) as [Hx|Hx].
  - unfold wake_one. destruct (bool_decide_reflect (th_state t = THREAD_BLOCKED)) as [Hb|Hb];
      [|by rewrite decide_False by tauto]. destruct (Z.eqb_spec (th_waiting_for t) pid).
    + by rewrite decide_True.
    + by rewrite decide_False by tauto.
  - by rewrite decide_False by tauto.
Qed.

Lemma thread_wake_pid_correct_witness :
  ∃ T, thread_wake_pid 7 demo_sched = Ret (tt, set_threads T demo_sched) ∧ ring (set_threads T demo_sched) [16; 32; 48].
Proof.
  destruct (thread_wake_pid_correct demo_sched [16; 32; 48] 7 demo_ring) as (T & H1 & H2 & _).
  exists T. split; [exact H1|exact H2].
Defined.

(** C8. schedule: it switches to the thread runqueue_next picks.  The thread
    switched away from becomes ready if it was running (and stays blocked or
    dead otherwise), the new one is the only running thread, both kernel stack
    pointers and CR3 are its own, memory is untouched, and the queue holds the
    same threads; picking the current thread changes nothing more. *)
Theorem schedule_correct {P} `{FA : FrameAllocator P} `{B : Boot} (k : kernel P) (l : list Z) (ticks : Z) :
  sched_ok k l →
  ∃ c s1 k', picks (k_sched k) ticks l c s1 ∧ schedule ticks k = Ret (tt, k') ∧
    curr_thread (k_sched k') = c ∧ (∃ l', l' ≡ₚ l ∧ sched_ok k' l') ∧
    (c = curr_thread (k_sched k) → k' = set_sched s1 k) ∧
    (c ≠ curr_thread (k_sched k) → ∃ tc tp,
       threads s1 !! c = Some tc ∧ threads s1 !! curr_thread (k_sched k) = Some tp ∧
       threads (k_sched k') = <[c := with_state THREAD_RUNNING tc]>
         (<[curr_thread (k_sched k) := preempted tp]> (threads s1)) ∧
       cpu_kernel_rsp (k_sched k') = th_kernel_rsp_top tc ∧ tss_rsp0 (k_sched k') = th_kernel_rsp_top tc ∧
       cr3 (k_vm k') = space_of k tc ∧ vm_mm (k_vm k') = vm_mm (k_vm k)).
Proof. apply schedule_spec. Qed.

Lemma schedule_correct_witness : ∃ k', schedule 60 demo_kernel = Ret (tt, k') ∧ ∃ l', l' ≡ₚ [16; 32; 48] ∧ sched_ok k' l'.
Proof.
  destruct (schedule_correct demo_kernel [16; 32; 48] 60 demo_sched_ok) as (c & s1 & k' & _ & H1 & _ & H2 & _).
  exists k'. split; [exact H1|exact H2].
Defined.
