(* ===== verification/Port.v ===== *)
(** * Message ports (src/userspace/port.c)

    A port is a FIFO queue of messages under a random-looking token.  Ports and
    message nodes are structs on the kernel heap, kept in maps from address to
    record; a message buffer is the list of its bytes.  Addresses come from
    kmalloc through the interface [ObjHeap]. *)

From S2P Require Import Prelude FrameAlloc Thread.

(** port_t and msg_node_t. *)
Record port := mkPort { pt_token : Z; pt_head : Z; pt_tail : Z; pt_owner : Z }.
Record msg_node := mkMsg { mn_len : Z; mn_data : Z; mn_next : Z }.

Definition SIZEOF_PORT : Z := 32.
Definition SIZEOF_MSG_NODE : Z := 24.
Definition PORT_TABLE_SIZE : Z := 1024.

(** The mixing of the time stamp counter in port_create. *)
Definition xorshift33 (v : Z) : Z := Z.lxor v (Z.shiftr v 33).
Definition port_token (hi lo : Z) : Z :=
  let val := Z.lor (u64 (Z.shiftl hi 32)) lo in
  let val := xorshift33 val in
  let val := val *64 0xff51afd7ed558ccd in
  let val := xorshift33 val in
  let val := val *64 0xc4ceb9fe1a85ec53 in
  xorshift33 val.

Record port_state (H : Type) := mkPs {
  ps_heap : H; ps_ports : gmap Z port; ps_msgs : gmap Z msg_node; ps_bufs : gmap Z (list Z);
  port_table : list Z; port_table_count : Z; ps_sched : sched; ps_procs : gmap Z process }.
Arguments mkPs {H} _ _ _ _ _ _ _ _.
Arguments ps_heap {H} _.
Arguments ps_ports {H} _.
Arguments ps_msgs {H} _.
Arguments ps_bufs {H} _.
Arguments port_table {H} _.
Arguments port_table_count {H} _.
Arguments ps_sched {H} _.
Arguments ps_procs {H} _.

(** ** Tokens *)

Lemma xorshift33_range v : 0 ≤ v < W64 → 0 ≤ xorshift33 v < W64.
Proof.
  intros Hv. assert (0 ≤ xorshift33 v) as H0.
  { apply Z.lxor_nonneg. rewrite Z.shiftr_nonneg. lia. }
  split; [done|]. apply (bounded_testbit _ 64); [lia|done|].
  intros i Hi. unfold xorshift33. rewrite Z.lxor_spec, Z.shiftr_spec, !(testbit_high v) by lia. done.
Qed.

Lemma xorshift33_inv v : 0 ≤ v < W64 → xorshift33 (xorshift33 v) = v.
Proof.
  intros Hv. apply Z.bits_inj'. intros i Hi. unfold xorshift33.
  rewrite !Z.lxor_spec, !Z.shiftr_spec, Z.lxor_spec, Z.shiftr_spec by lia.
  rewrite (testbit_high v (i + 33 + 33)) by lia.
  by destruct (Z.testbit v i), (Z.testbit v (i + 33)).
Qed.

Lemma mul_inv c c' v : u64 (c * c') = 1 → 0 ≤ v < W64 → u64 (u64 (v * c) * c') = v.
Proof.
  intros Hc Hv. unfold u64 in *. rewrite Z.mul_mod_idemp_l by lia.
  rewrite <- Z.mul_assoc, <- Z.mul_mod_idemp_r, Hc, Z.mul_1_r by lia. by apply Z.mod_small.
Qed.

(** Every step of the mixing can be undone, so the token determines the time
    stamp it was made from. *)
Definition untoken (tok : Z) : Z :=
  xorshift33 (u64 (xorshift33 (u64 (xorshift33 tok * 0x9cb4b2f8129337db)) * 0x4f74430c22a54005)).

Lemma untoken_token hi lo :
  0 ≤ hi < W32 → 0 ≤ lo < W32 → untoken (port_token hi lo) = hi * W32 + lo.
Proof.
  intros Hh Hl. unfold untoken, port_token. cbv zeta.
  assert (Z.lor (u64 (Z.shiftl hi 32)) lo = hi * W32 + lo) as ->.
  { rewrite Z.shiftl_mul_pow2 by lia. change (2 ^ 32) with W32. rewrite u64_small by lia.
    rewrite <- Z.add_lor_land. replace (Z.land (hi * W32) lo) with 0; [lia|]. symmetry.
    apply Z.bits_inj'. intros i Hi. rewrite Z.land_spec, Z.bits_0.
    change W32 with (2 ^ 32) in *. rewrite <- Z.shiftl_mul_pow2, Z.shiftl_spec by lia.
    destruct (Z.ltb_spec i 32); [by rewrite Z.testbit_neg_r by lia|].
    by rewrite (testbit_bounded lo 32), andb_false_r by lia. }
  assert (0 ≤ hi * W32 + lo < W64) as Hv by lia. set (v := hi * W32 + lo) in *.
  rewrite xorshift33_inv by apply u64_range.
  rewrite mul_inv; [|reflexivity|by apply xorshift33_range, u64_range].
  rewrite xorshift33_inv by apply u64_range. rewrite mul_inv; [|reflexivity|by apply xorshift33_range].
  by apply xorshift33_inv.
Qed.

Section Port.
Context {H : Type} `{OH : ObjHeap H}.

Abbreviation PM := (M (port_state H)).

Definition set_heap (h : H) (s : port_state H) : port_state H :=
  mkPs h (ps_ports s) (ps_msgs s) (ps_bufs s) (port_table s) (port_table_count s) (ps_sched s) (ps_procs s).
Definition set_ports (m : gmap Z port) (s : port_state H) : port_state H :=
  mkPs (ps_heap s) m (ps_msgs s) (ps_bufs s) (port_table s) (port_table_count s) (ps_sched s) (ps_procs s).
Definition set_msgs (m : gmap Z msg_node) (s : port_state H) : port_state H :=
  mkPs (ps_heap s) (ps_ports s) m (ps_bufs s) (port_table s) (port_table_count s) (ps_sched s) (ps_procs s).
Definition set_bufs (m : gmap Z (list Z)) (s : port_state H) : port_state H :=
  mkPs (ps_heap s) (ps_ports s) (ps_msgs s) m (port_table s) (port_table_count s) (ps_sched s) (ps_procs s).
Definition set_table (t : list Z) (n : Z) (s : port_state H) : port_state H :=
  mkPs (ps_heap s) (ps_ports s) (ps_msgs s) (ps_bufs s) t n (ps_sched s) (ps_procs s).
Definition set_ps_sched (c : sched) (s : port_state H) : port_state H :=
  mkPs (ps_heap s) (ps_ports s) (ps_msgs s) (ps_bufs s) (port_table s) (port_table_count s) c (ps_procs s).

Definition malloc (n : Z) : PM Z := zoom ps_heap set_heap (oh_malloc n).
Definition free (p : Z) : PM unit := zoom ps_heap set_heap (oh_free p).
Definition in_threads {A} (m : M sched A) : PM A := zoom ps_sched set_ps_sched m.

Definition get_port (p : Z) : PM port := m <- gets ps_ports ;; of_opt (m !! p).
Definition put_port (p : Z) (v : port) : PM unit :=
  modify (λ s, set_ports (<[p := v]> (ps_ports s)) s).
Definition get_msg (p : Z) : PM msg_node := m <- gets ps_msgs ;; of_opt (m !! p).
Definition put_msg (p : Z) (v : msg_node) : PM unit :=
  modify (λ s, set_msgs (<[p := v]> (ps_msgs s)) s).

(** kfree of a struct of each type. *)
Definition free_port (p : Z) : PM unit :=
  free p ;;; modify (λ s, set_ports (delete p (ps_ports s)) s).
Definition free_msg (p : Z) : PM unit :=
  free p ;;; modify (λ s, set_msgs (delete p (ps_msgs s)) s).
Definition free_buf (p : Z) : PM unit :=
  free p ;;; modify (λ s, set_bufs (delete p (ps_bufs s)) s).

(** port_table[i], [i] an int. *)
Definition table_get (i : Z) : PM Z :=
  t <- gets port_table ;; if 0 <=? i then of_opt (t !! Z.to_nat i) else fault.
Definition table_set (i v : Z) : PM unit :=
  t <- gets port_table ;;
  n <- gets port_table_count ;;
  if (0 <=? i) && (i <? Z.of_nat (length t))
  then modify (set_table (<[Z.to_nat i := v]> t) n) else fault.

(** [if (port->owner->thread->state == THREAD_BLOCKED) ... = THREAD_READY] *)
Definition wake_owner (pt : port) : PM unit :=
  ps <- gets ps_procs ;;
  owner <- of_opt (ps !! pt_owner pt) ;;
  t <- in_threads (get_thread (p_thread owner)) ;;
  if bool_decide (th_state t = THREAD_BLOCKED)
  then in_threads (upd_thread (p_thread owner) (with_state THREAD_READY)) else ret tt.

(** [hi:lo] is the time stamp counter. *)
Definition port_create (hi lo : Z) : PM Z :=
  p <- malloc SIZEOF_PORT ;;
  curr <- gets (λ s, curr_thread (ps_sched s)) ;;
  t <- in_threads (get_thread curr) ;;
  put_port p (mkPort (port_token hi lo) 0 0 (th_process t)) ;;;
  n <- gets port_table_count ;;
  table_set n p ;;;
  modify (λ s, set_table (port_table s) (n + 1) s) ;;;
  ret p.

(** The loop of port_lookup from index [i], [n] entries to go; 0 is NULL. *)
Fixpoint lookup_loop (n : nat) (i token : Z) : PM Z :=
  match n with
  | O => ret 0
  | S n' =>
      p <- table_get i ;;
      if p =? 0 then lookup_loop n' (i + 1) token
      else
        pt <- get_port p ;;
        if pt_token pt =? token then ret p else lookup_loop n' (i + 1) token
  end.

Definition port_lookup (token : Z) : PM Z :=
  n <- gets port_table_count ;; lookup_loop (Z.to_nat n) 0 token.

(** The part of port_forward that fills the new node and appends it to the
    queue of port [p]. *)
Definition append_message (p node data : Z) (msg : list Z) : PM unit :=
  put_msg node (mkMsg (Z.of_nat (length msg)) data 0) ;;;
  (if data =? 0 then ret tt else modify (λ s, set_bufs (<[data := msg]> (ps_bufs s)) s)) ;;;
  pt <- get_port p ;;
  (if pt_tail pt =? 0 then put_port p (mkPort (pt_token pt) node node (pt_owner pt))
   else
     last <- get_msg (pt_tail pt) ;;
     put_msg (pt_tail pt) (mkMsg (mn_len last) (mn_data last) node) ;;;
     put_port p (mkPort (pt_token pt) (pt_head pt) node (pt_owner pt))).

(** [msg] are the [len] bytes at the sender's pointer; the result is -1 as a
    size_t when there is no such port. *)
Definition port_forward (dst : Z) (msg : list Z) : PM Z :=
  let len := Z.of_nat (length msg) in
  p <- port_lookup dst ;;
  if p =? 0 then ret (W64 - 1)
  else
    node <- malloc SIZEOF_MSG_NODE ;;
    data <- malloc len ;;
    append_message p node data msg ;;;
    pt <- get_port p ;;
    wake_owner pt ;;;
    ret len.

(** The bytes of a message; a node of length 0 has no buffer. *)
Definition msg_bytes (m : msg_node) : PM (list Z) :=
  if mn_data m =? 0 then ret [] else bs <- gets ps_bufs ;; of_opt (bs !! mn_data m).

(** port_receive once the queue is not empty: the bytes copied to the buffer of
    [len] bytes. *)
Definition take_message (p len : Z) : PM (list Z) :=
  pt <- get_port p ;;
  node <- get_msg (pt_head pt) ;;
  let head := mn_next node in
  put_port p (mkPort (pt_token pt) head (if head =? 0 then 0 else pt_tail pt) (pt_owner pt)) ;;;
  let to_copy := if mn_len node <? len then mn_len node else len in
  bytes <- msg_bytes node ;;
  (free_buf (mn_data node) ;;; free_msg (pt_head pt)) ;;;
  ret (take (Z.to_nat to_copy) bytes).

(** The waiting loop: a receiver of an empty port blocks and calls schedule();
    [others] are what runs each time until it is switched in again.  [None]: it
    is still waiting. *)
Fixpoint receive_loop (others : list (PM unit)) (p len : Z) : PM (option (list Z)) :=
  pt <- get_port p ;;
  if negb (pt_head pt =? 0) then r <- take_message p len ;; ret (Some r)
  else
    curr <- gets (λ s, curr_thread (ps_sched s)) ;;
    in_threads (upd_thread curr (with_state THREAD_BLOCKED)) ;;;
    match others with
    | [] => ret None
    | run :: others' => run ;;; receive_loop others' p len
    end.

(** The empty result stands for the 0 returned when there is no such port. *)
Definition port_receive (others : list (PM unit)) (token len : Z) : PM (option (list Z)) :=
  p <- port_lookup token ;;
  if p =? 0 then ret (Some []) else receive_loop others p len.

(** The two loops of port_destroy. *)
Fixpoint free_messages (fuel : nat) (node : Z) : PM unit :=
  if node =? 0 then ret tt
  else
    match fuel with
    | O => diverge
    | S fuel' =>
        m <- get_msg node ;;
        (free_buf (mn_data m) ;;; free_msg node) ;;;
        free_messages fuel' (mn_next m)
    end.

Fixpoint clear_entry (n : nat) (i p : Z) : PM unit :=
  match n with
  | O => ret tt
  | S n' => q <- table_get i ;; if q =? p then table_set i 0 else clear_entry n' (i + 1) p
  end.

Definition port_destroy (p : Z) : PM unit :=
  pt <- get_port p ;;
  wake_owner pt ;;;
  pt <- get_port p ;;
  fuel <- gets (λ s, size (ps_msgs s)) ;;
  free_messages fuel (pt_head pt) ;;;
  n <- gets port_table_count ;;
  clear_entry (Z.to_nat n) 0 p ;;;
  free_port p.

(** ** The invariant

    [X] are the blocks in use that are no ports, nodes or buffers, [Q] gives the
    nodes queued at each port and [C] the bytes of each queued message. *)

(** The addresses of the structs of each type. *)
Abbreviation addrs m := (dom m : gset Z).

(** The list of nodes that starts at [p]. *)
Fixpoint mchain (M : gmap Z msg_node) (p : Z) (l : list Z) : Prop :=
  match l with
  | [] => p = 0
  | x :: l' => p = x ∧ x ≠ 0 ∧ ∃ m, M !! x = Some m ∧ mchain M (mn_next m) l'
  end.

(** Node [m] carries the bytes [bs]. *)
Definition carries (bufs : gmap Z (list Z)) (m : msg_node) (bs : list Z) : Prop :=
  mn_len m = Z.of_nat (length bs) ∧
  ((mn_data m = 0 ∧ bs = []) ∨ (mn_data m ≠ 0 ∧ bufs !! mn_data m = Some bs)).

Record ports_ok (s : port_state H) (X : gset Z) (Q C : gmap Z (list Z)) : Prop := {
  po_heap : oh_rep (ps_heap s)
    (λ p, p ∈ X ∪ addrs (ps_ports s) ∪ addrs (ps_msgs s) ∪ addrs (ps_bufs s));
  po_disj : X ## addrs (ps_ports s) ∧ X ## addrs (ps_msgs s) ∧ X ## addrs (ps_bufs s) ∧
    addrs (ps_ports s) ## addrs (ps_msgs s) ∧ addrs (ps_ports s) ## addrs (ps_bufs s) ∧
    addrs (ps_msgs s) ## addrs (ps_bufs s);
  po_null : 0 ∉ X ∪ addrs (ps_ports s) ∪ addrs (ps_msgs s) ∪ addrs (ps_bufs s);
  po_qdom : ∀ p, is_Some (Q !! p) ↔ is_Some (ps_ports s !! p);
  po_queue : ∀ p pt ns, ps_ports s !! p = Some pt → Q !! p = Some ns →
    mchain (ps_msgs s) (pt_head pt) ns ∧ pt_tail pt = default 0 (last ns);
  po_node : ∀ p ns n, Q !! p = Some ns → n ∈ ns →
    ∃ m bs, ps_msgs s !! n = Some m ∧ C !! n = Some bs ∧ carries (ps_bufs s) m bs;
  po_nodup : ∀ p ns, Q !! p = Some ns → NoDup ns;
  po_sep : ∀ p q ns ms n, Q !! p = Some ns → Q !! q = Some ms → n ∈ ns → n ∈ ms → p = q;
  po_data : ∀ p q ns ms n1 n2 m1 m2, Q !! p = Some ns → n1 ∈ ns → Q !! q = Some ms → n2 ∈ ms →
    ps_msgs s !! n1 = Some m1 → ps_msgs s !! n2 = Some m2 →
    mn_data m1 = mn_data m2 → mn_data m1 ≠ 0 → n1 = n2;
  po_owner : ∀ p pt, ps_ports s !! p = Some pt → ∃ o, ps_procs s !! pt_owner pt = Some o ∧
    is_Some (threads (ps_sched s) !! p_thread o);
}.

(** The messages waiting at a port, oldest first. *)
Definition waiting (Q C : gmap Z (list Z)) (p : Z) : list (list Z) :=
  (λ n, default [] (C !! n)) <$> default [] (Q !! p).

(** The table lists every port once. *)
Record table_ok (s : port_state H) : Prop := {
  to_len : length (port_table s) = 1024%nat;
  to_count : 0 ≤ port_table_count s ≤ 1024;
  to_entry : ∀ i p, port_table s !! i = Some p → (Z.of_nat i < port_table_count s) → p ≠ 0 →
    is_Some (ps_ports s !! p);
  to_all : ∀ p, is_Some (ps_ports s !! p) →
    ∃ i, port_table s !! i = Some p ∧ (Z.of_nat i < port_table_count s);
  to_once : ∀ i j p, port_table s !! i = Some p → port_table s !! j = Some p → p ≠ 0 →
    Z.of_nat i < port_table_count s → Z.of_nat j < port_table_count s → i = j;
}.

(** ** Chains of nodes *)

Lemma mchain_frame M M' l : ∀ p,
  (∀ x, x ∈ l → mn_next <$> M' !! x = mn_next <$> M !! x) → mchain M p l → mchain M' p l.
Proof.
  induction l as [|x l IH]; intros p Hn; simpl; [done|]. intros (-> & Hx & m & Hm & Hc).
  split; [done|]. split; [done|]. pose proof (Hn x ltac:(left)) as E. rewrite Hm in E.
  apply fmap_Some_1 in E as (m' & Hm' & E'). exists m'. split; [done|]. rewrite <- E'.
  apply IH; [|done]. intros y Hy. apply Hn. by right.
Qed.

Lemma mchain_dom M p l x : mchain M p l → x ∈ l → x ≠ 0 ∧ is_Some (M !! x).
Proof.
  revert p. induction l as [|y l IH]; intros p; [by intros _ ?%not_elem_of_nil|].
  intros (-> & Hy & m & Hm & Hc) [->|Hin]%elem_of_cons; [split; eauto|]. by eapply IH.
Qed.

(** Appending a new node after the last one. *)
Lemma mchain_snoc M p l x m n mn :
  NoDup (l ++ [x]) → mchain M p (l ++ [x]) → M !! x = Some m → n ≠ 0 → n ∉ l ++ [x] → mn_next mn = 0 →
  mchain (<[x := mkMsg (mn_len m) (mn_data m) n]> (<[n := mn]> M)) p (l ++ [x; n]).
Proof.
  revert p. induction l as [|y l IH]; intros p Hnd Hc Hx Hn Hnl Hmn.
  - destruct Hc as (-> & Hx0 & m' & Hm' & _). split; [done|]. split; [done|].
    eexists. split; [apply lookup_insert_eq|]. split; [done|]. split; [done|].
    exists mn. split; [|done]. rewrite lookup_insert_ne; [apply lookup_insert_eq|].
    intros ->. apply Hnl. left.
  - destruct Hc as (-> & Hy0 & my & Hmy & Hc). simpl in Hnd. apply NoDup_cons in Hnd as [Hyl Hnd].
    apply not_elem_of_cons in Hnl as [Hny Hnl]. split; [done|]. split; [done|]. exists my. split.
    + rewrite !lookup_insert_ne; [done|done|]. intros ->. apply Hyl. rewrite elem_of_app. right. left.
    + by apply IH.
Qed.

Lemma last_snoc_default (l : list Z) x : default 0 (last (l ++ [x])) = x.
Proof. by rewrite last_snoc. Qed.

(** ** port_lookup *)

Lemma get_port_run s p pt : ps_ports s !! p = Some pt → get_port p s = Ret (pt, s).
Proof. intros E. unfold get_port. by rewrite bind_gets, E. Qed.

Lemma get_msg_run s p m : ps_msgs s !! p = Some m → get_msg p s = Ret (m, s).
Proof. intros E. unfold get_msg. by rewrite bind_gets, E. Qed.

Lemma table_get_run s i p : port_table s !! i = Some p → table_get (Z.of_nat i) s = Ret (p, s).
Proof.
  intros E. unfold table_get. rewrite bind_gets.
  destruct (Z.leb_spec 0 (Z.of_nat i)); [|lia]. by rewrite Nat2Z.id, E.
Qed.

Lemma lookup_loop_spec s token n : ∀ i,
  table_ok s → Z.of_nat i + Z.of_nat n = port_table_count s →
  ∃ p, lookup_loop n (Z.of_nat i) token s = Ret (p, s) ∧
    ((p ≠ 0 ∧ ∃ pt, ps_ports s !! p = Some pt ∧ pt_token pt = token) ∨
     (p = 0 ∧ ∀ j q pt, (i ≤ j)%nat → Z.of_nat j < port_table_count s → port_table s !! j = Some q → q ≠ 0 →
        ps_ports s !! q = Some pt → pt_token pt ≠ token)).
Proof.
  induction n as [|n IH]; intros i Hok Hin; cbn [lookup_loop].
  - exists 0. split; [done|]. right. split; [done|]. intros j q pt Hij Hj. lia.
  - pose proof (to_len _ Hok). pose proof (to_count _ Hok).
    destruct (lookup_lt_is_Some_2 (port_table s) i) as [p Hp]; [lia|].
    rewrite (bind_Ret _ _ _ _ _ (table_get_run s i p Hp)).
    replace (Z.of_nat i + 1) with (Z.of_nat (S i)) by lia.
    destruct (IH (S i) Hok ltac:(lia)) as (r & Hrun & Hr).
    destruct (Z.eqb_spec p 0) as [->|Hp0].
    { exists r. split; [done|]. destruct Hr as [Hr|[-> Hno]]; [by left|right]. split; [done|].
      intros j q pt Hij Hj Hq Hq0. destruct (decide (j = i)) as [->|]; [congruence|]. apply (Hno j); [lia|done..]. }
    destruct (to_entry _ Hok i p Hp ltac:(lia) Hp0) as [pt Hpt].
    rewrite (bind_Ret _ _ _ _ _ (get_port_run s p pt Hpt)).
    destruct (Z.eqb_spec (pt_token pt) token) as [Et|Et].
    + exists p. split; [done|]. left. eauto.
    + exists r. split; [done|]. destruct Hr as [Hr|[-> Hno]]; [by left|right]. split; [done|].
      intros j q pt' Hij Hj Hq Hq0. destruct (decide (j = i)) as [->|]; [|apply (Hno j); [lia|done..]].
      intros Hpt'. congruence.
Qed.

(** port_lookup finds a port with the token exactly when there is one. *)
Lemma port_lookup_spec s token :
  table_ok s →
  ∃ p, port_lookup token s = Ret (p, s) ∧
    ((p ≠ 0 ∧ ∃ pt, ps_ports s !! p = Some pt ∧ pt_token pt = token) ∨
     (p = 0 ∧ ∀ q pt, q ≠ 0 → ps_ports s !! q = Some pt → pt_token pt ≠ token)).
Proof.
  intros Hok. pose proof (to_count _ Hok). unfold port_lookup. rewrite bind_gets.
  destruct (lookup_loop_spec s token (Z.to_nat (port_table_count s)) 0 Hok ltac:(lia)) as (p & Hrun & Hr).
  exists p. split; [done|]. destruct Hr as [Hr|[-> Hno]]; [by left|right]. split; [done|].
  intros q pt Hq0 Hq. destruct (to_all _ Hok q) as (j & Hj & Hlt); [eauto|]. apply (Hno j q pt); [lia|done..].
Qed.

(** ** Waking the owner *)

Definition unblocked (t : thread) : thread :=
  if bool_decide (th_state t = THREAD_BLOCKED) then with_state THREAD_READY t else t.

(** The owner's thread is made ready if it was blocked; nothing else changes. *)
Definition woke (s : port_state H) (pt : port) (s' : port_state H) : Prop :=
  ∃ o t, ps_procs s !! pt_owner pt = Some o ∧ threads (ps_sched s) !! p_thread o = Some t ∧
    s' = set_ps_sched (set_threads (<[p_thread o := unblocked t]> (threads (ps_sched s))) (ps_sched s)) s.

Lemma wake_owner_run s X Q C p pt :
  ports_ok s X Q C → ps_ports s !! p = Some pt → ∃ s', wake_owner pt s = Ret (tt, s') ∧ woke s pt s'.
Proof.
  intros Hok Hp. destruct (po_owner _ _ _ _ Hok _ _ Hp) as (o & Ho & [t Ht]).
  unfold wake_owner. rewrite bind_gets, Ho. cbn [of_opt]. rewrite bind_ret.
  rewrite (bind_Ret _ _ _ t s).
  2:{ unfold in_threads, zoom. rewrite (get_thread_run _ _ _ Ht). by destruct s. }
  eexists. split.
  2:{ exists o, t. split_and!; done. }
  unfold unblocked. destruct (bool_decide _).
  - apply zoom_Ret. by apply upd_thread_run.
  - rewrite insert_id by done. by destruct s as [? ? ? ? ? ? [] ?].
Qed.

Lemma woke_ok s pt s' X Q C : woke s pt s' → ports_ok s X Q C → ports_ok s' X Q C.
Proof.
  intros (o & t & Ho & Ht & ->) []. split; simpl; try done.
  intros p pt' Hp. destruct (po_owner0 _ _ Hp) as (o' & Ho' & Ht'). exists o'. split; [done|].
  apply lookup_insert_is_Some'. by right.
Qed.

Lemma woke_table s pt s' : woke s pt s' → table_ok s → table_ok s'.
Proof. intros (o & t & _ & _ & ->) []. by split. Qed.

(** ** port_forward *)

(** The nodes after a message was appended to a queue that ends at [tail]. *)
Definition link_node (M : gmap Z msg_node) (tail node : Z) (m : msg_node) : gmap Z msg_node :=
  match M !! tail with
  | Some l => if tail =? 0 then <[node := m]> M
              else <[tail := mkMsg (mn_len l) (mn_data l) node]> (<[node := m]> M)
  | None => <[node := m]> M
  end.

Lemma link_node_spec M h ns node m :
  mchain M h ns → NoDup ns → node ≠ 0 → M !! node = None → mn_next m = 0 →
  let M' := link_node M (default 0 (last ns)) node m in
  M' !! node = Some m ∧
  mchain M' (match ns with [] => node | _ => h end) (ns ++ [node]) ∧
  (∀ n l, n ≠ node → M !! n = Some l → ∃ l', M' !! n = Some l' ∧ mn_len l' = mn_len l ∧
     mn_data l' = mn_data l ∧ (n ∉ ns → l' = l)) ∧
  (∀ n, n ≠ node → is_Some (M' !! n) ↔ is_Some (M !! n)).
Proof.
  intros Hc Hnd Hn Hfresh Hm M'. destruct ns as [|x ns _] using rev_ind.
  - assert (M' = <[node := m]> M) as ->.
    { unfold M', link_node. cbn [last default from_option]. by destruct (M !! 0). }
    split_and!; [apply lookup_insert_eq| | |].
    + split; [done|]. split; [done|]. exists m. split; [apply lookup_insert_eq|done].
    + intros n l Hne Hl. exists l. rewrite lookup_insert_ne by done. done.
    + intros n Hne. by rewrite lookup_insert_ne.
  - destruct (mchain_dom _ _ _ x Hc) as [Hx0 [l Hl]]; [rewrite elem_of_app; right; left|].
    assert (node ∉ ns ++ [x]) as Hnot.
    { intros Hin. destruct (mchain_dom _ _ _ _ Hc Hin) as [_ [? ?]]. congruence. }
    assert (x ≠ node) as Hxn by (intros ->; congruence).
    assert (M' = <[x := mkMsg (mn_len l) (mn_data l) node]> (<[node := m]> M)) as ->.
    { unfold M', link_node. rewrite last_snoc_default, Hl. by destruct (Z.eqb_spec x 0). }
    split_and!.
    + rewrite lookup_insert_ne by done. apply lookup_insert_eq.
    + replace (match ns ++ [x] with [] => node | _ => h end) with h by (by destruct ns).
      rewrite <- app_assoc. by apply mchain_snoc.
    + intros n k Hne Hk. rewrite lookup_insert. case_decide as E.
      * subst. assert (k = l) as -> by congruence. eexists. split_and!; [done|done|done|].
        intros Hno. destruct Hno. rewrite elem_of_app. right. left.
      * exists k. rewrite lookup_insert_ne by done. done.
    + intros n Hne. rewrite lookup_insert. case_decide as E; [subst; rewrite Hl; by split|].
      by rewrite lookup_insert_ne.
Qed.

Definition enqueued (s : port_state H) (h : H) (p : Z) (pt : port) (node data : Z) (msg : list Z) : port_state H :=
  mkPs h (<[p := mkPort (pt_token pt) (if pt_tail pt =? 0 then node else pt_head pt) node (pt_owner pt)]> (ps_ports s))
    (link_node (ps_msgs s) (pt_tail pt) node (mkMsg (Z.of_nat (length msg)) data 0))
    (if data =? 0 then ps_bufs s else <[data := msg]> (ps_bufs s))
    (port_table s) (port_table_count s) (ps_sched s) (ps_procs s).

Lemma dom_if_insert (b : bool) (m : gmap Z (list Z)) d (v : list Z) :
  addrs (if b then m else <[d := v]> m) = (if b then ∅ else {[d]}) ∪ addrs m.
Proof. destruct b; [set_solver|by rewrite dom_insert_L]. Qed.

(** *** Appending a node keeps the invariant *)

Section Enqueue.
Context (s : port_state H) (X : gset Z) (Q C : gmap Z (list Z)) (p : Z) (pt : port) (ns : list Z).
Context (node data : Z) (msg : list Z).
Abbreviation L := (X ∪ addrs (ps_ports s) ∪ addrs (ps_msgs s) ∪ addrs (ps_bufs s)).
Context (Hok : ports_ok s X Q C) (Hp : ps_ports s !! p = Some pt) (HQ : Q !! p = Some ns).
Context (Hn0 : node ≠ 0) (HnL : node ∉ L).
Context (Hdata : (data = 0 ∧ msg = []) ∨ (data ≠ 0 ∧ data ≠ node ∧ data ∉ L)).

Abbreviation new_node := (mkMsg (Z.of_nat (length msg)) data 0).
Abbreviation M' := (link_node (ps_msgs s) (pt_tail pt) node new_node).
Abbreviation Q' := (<[p := ns ++ [node]]> Q).
Abbreviation bufs' := (if data =? 0 then ps_bufs s else <[data := msg]> (ps_bufs s)).

Lemma enq_linked :
  M' !! node = Some new_node ∧
  mchain M' (match ns with [] => node | _ => pt_head pt end) (ns ++ [node]) ∧
  (∀ n l, n ≠ node → ps_msgs s !! n = Some l → ∃ l', M' !! n = Some l' ∧ mn_len l' = mn_len l ∧
     mn_data l' = mn_data l ∧ (n ∉ ns → l' = l)) ∧
  (∀ n, n ≠ node → is_Some (M' !! n) ↔ is_Some (ps_msgs s !! n)).
Proof.
  destruct (po_queue _ _ _ _ Hok _ _ _ Hp HQ) as [Hc Htail].
  rewrite Htail. apply link_node_spec; [done|by eapply (po_nodup _ _ _ _ Hok)|done| |done].
  apply not_elem_of_dom. intros Hin. by apply HnL, elem_of_union_l, elem_of_union_r.
Qed.

Lemma enq_dom : addrs M' = {[node]} ∪ addrs (ps_msgs s).
Proof.
  destruct enq_linked as (Hm1 & _ & _ & Hm4). apply set_eq. intros q.
  rewrite elem_of_union, elem_of_singleton, !elem_of_dom.
  destruct (decide (q = node)) as [->|Hq]; [rewrite Hm1; naive_solver|]. rewrite Hm4 by done. naive_solver.
Qed.

(** Nodes queued before are not the new one. *)
Lemma enq_old q ms n : Q !! q = Some ms → n ∈ ms → n ≠ node.
Proof.
  intros Hq Hn ->. destruct (po_node _ _ _ _ Hok _ _ _ Hq Hn) as (m & bs & Hm & _).
  apply HnL, elem_of_union_l, elem_of_union_r, elem_of_dom. eauto.
Qed.

Lemma enq_case q ms n : Q' !! q = Some ms → n ∈ ms →
  n = node ∨ (n ≠ node ∧ ∃ q' ms', Q !! q' = Some ms' ∧ n ∈ ms').
Proof.
  intros [[<- <-]|[_ Hms]]%lookup_insert_Some Hn; [|right; split; eauto using enq_old].
  apply elem_of_app in Hn as [Hn|Hn]; [right; split; eauto using enq_old|left; by apply list_elem_of_singleton in Hn].
Qed.

(** The buffer of an old node is not the new buffer. *)
Lemma enq_back q ms n m : Q !! q = Some ms → n ∈ ms → M' !! n = Some m →
  ∃ l, ps_msgs s !! n = Some l ∧ mn_data l = mn_data m ∧ (mn_data l ≠ 0 → mn_data l ≠ data).
Proof.
  intros Hq Hn Hm. destruct (po_node _ _ _ _ Hok _ _ _ Hq Hn) as (l & bs & Hl & _ & _ & Hcar).
  destruct enq_linked as (_ & _ & Hm3 & _).
  destruct (Hm3 n l (enq_old _ _ _ Hq Hn) Hl) as (l' & Hl' & _ & Ed & _).
  exists l. split; [done|]. split; [congruence|].
  intros Hd0 Ed'. destruct Hcar as [[? _]|[_ Hb]]; [done|]. destruct Hdata as [[-> _]|(_ & _ & HdL)]; [done|].
  apply HdL, elem_of_union_r, elem_of_dom. rewrite <- Ed'. eauto.
Qed.

Lemma enq_queue q pt' ms :
  <[p := mkPort (pt_token pt) (if pt_tail pt =? 0 then node else pt_head pt) node (pt_owner pt)]> (ps_ports s) !! q = Some pt' →
  Q' !! q = Some ms → mchain M' (pt_head pt') ms ∧ pt_tail pt' = default 0 (last ms).
Proof.
  destruct (po_queue _ _ _ _ Hok _ _ _ Hp HQ) as [Hc Htail]. destruct enq_linked as (Hm1 & Hm2 & Hm3 & _).
  rewrite !lookup_insert. case_decide as E.
  - subst q. intros [= <-] [= <-]. cbn [pt_head pt_tail]. split; [|by rewrite last_snoc_default].
    replace (if pt_tail pt =? 0 then node else pt_head pt) with (match ns with [] => node | _ => pt_head pt end);
      [exact Hm2|]. rewrite Htail. destruct ns as [|x l _] using rev_ind; [done|].
    rewrite last_snoc_default. destruct (mchain_dom _ _ _ x Hc); [rewrite elem_of_app; right; left|].
    destruct (Z.eqb_spec x 0); [done|]. by destruct l.
  - intros Hq Hms. destruct (po_queue _ _ _ _ Hok _ _ _ Hq Hms) as [Hc' Ht']. split; [|done].
    eapply mchain_frame; [|exact Hc']. intros n Hn. destruct (mchain_dom _ _ _ _ Hc' Hn) as [_ [l Hl]].
    destruct (Hm3 n l (enq_old _ _ _ Hms Hn) Hl) as (l' & -> & _ & _ & Hsame). rewrite Hl, Hsame; [done|].
    intros Hns. apply E. by apply (po_sep _ _ _ _ Hok p q ns ms n).
Qed.

Lemma enq_node q ms n : Q' !! q = Some ms → n ∈ ms →
  ∃ m bs, M' !! n = Some m ∧ <[node := msg]> C !! n = Some bs ∧ carries bufs' m bs.
Proof.
  destruct enq_linked as (Hm1 & _ & Hm3 & _). intros Hms Hn.
  destruct (enq_case q ms n Hms Hn) as [->|(Hne & q' & ms' & Hms' & Hn')].
  { eexists _, msg. split; [exact Hm1|]. split; [apply lookup_insert_eq|]. split; [done|]. cbn [mn_data].
    destruct Hdata as [[-> ->]|(Hd0 & _)]; [by left|right]. split; [done|].
    destruct (Z.eqb_spec data 0); [done|]. apply lookup_insert_eq. }
  destruct (po_node _ _ _ _ Hok _ _ _ Hms' Hn') as (m & bs & Hm & Hbs & Hlen & Hcar).
  destruct (Hm3 n m Hne Hm) as (m' & Hm' & El & Ed & _). exists m', bs.
  split; [done|]. split; [by rewrite lookup_insert_ne|]. split; [congruence|]. rewrite Ed.
  destruct Hcar as [?|[? Hb]]; [by left|right]. split; [done|].
  destruct (Z.eqb_spec data 0); [done|]. rewrite lookup_insert_ne; [done|]. intros Ed'.
  destruct Hdata as [[? _]|(_ & _ & HdL)]; [done|]. apply HdL, elem_of_union_r, elem_of_dom. rewrite Ed'. eauto.
Qed.

Lemma enq_sep q1 q2 ms1 ms2 n :
  Q' !! q1 = Some ms1 → Q' !! q2 = Some ms2 → n ∈ ms1 → n ∈ ms2 → q1 = q2.
Proof.
  intros [[<- <-]|[N1 H1]]%lookup_insert_Some [[<- <-]|[N2 H2]]%lookup_insert_Some Hn1 Hn2; [done| | |].
  - apply elem_of_app in Hn1 as [Hn1| ->%list_elem_of_singleton]; [by eapply (po_sep _ _ _ _ Hok)|].
    by destruct (enq_old _ _ _ H2 Hn2).
  - apply elem_of_app in Hn2 as [Hn2| ->%list_elem_of_singleton]; [by eapply (po_sep _ _ _ _ Hok)|].
    by destruct (enq_old _ _ _ H1 Hn1).
  - by eapply (po_sep _ _ _ _ Hok).
Qed.

Lemma enq_data q1 q2 ms1 ms2 n1 n2 m1 m2 :
  Q' !! q1 = Some ms1 → n1 ∈ ms1 → Q' !! q2 = Some ms2 → n2 ∈ ms2 → M' !! n1 = Some m1 → M' !! n2 = Some m2 →
  mn_data m1 = mn_data m2 → mn_data m1 ≠ 0 → n1 = n2.
Proof.
  destruct enq_linked as (Hm1 & _). intros H1 Hn1 H2 Hn2 E1 E2 Ed Hd0.
  destruct (enq_case _ _ _ H1 Hn1) as [->|(Hne1 & r1 & l1 & Hr1 & Hl1)];
    destruct (enq_case _ _ _ H2 Hn2) as [->|(Hne2 & r2 & l2 & Hr2 & Hl2)]; [done|exfalso|exfalso|].
  - destruct (enq_back r2 l2 n2 m2 Hr2 Hl2 E2) as (l & Hl & El & Hb). rewrite Hm1 in E1. injection E1 as <-.
    cbn [mn_data] in *. apply Hb; congruence.
  - destruct (enq_back r1 l1 n1 m1 Hr1 Hl1 E1) as (l & Hl & El & Hb). rewrite Hm1 in E2. injection E2 as <-.
    cbn [mn_data] in *. apply Hb; congruence.
  - destruct (enq_back r1 l1 n1 m1 Hr1 Hl1 E1) as (k1 & Hk1 & Ek1 & _).
    destruct (enq_back r2 l2 n2 m2 Hr2 Hl2 E2) as (k2 & Hk2 & Ek2 & _).
    apply (po_data _ _ _ _ Hok r1 r2 l1 l2 n1 n2 k1 k2); congruence.
Qed.

Lemma enqueued_ok h :
  oh_rep h (λ q, q ∈ L ∪ {[node]} ∪ (if data =? 0 then ∅ else {[data]})) →
  ports_ok (enqueued s h p pt node data msg) X Q' (<[node := msg]> C).
Proof.
  intros Hh. pose proof (po_disj _ _ _ _ Hok) as Hd. pose proof (po_null _ _ _ _ Hok) as H0.
  assert (∀ v, addrs (<[p := v]> (ps_ports s)) = addrs (ps_ports s)) as EP.
  { intros v. rewrite dom_insert_L. apply elem_of_dom_2 in Hp. set_solver. }
  split; cbn [enqueued ps_heap ps_ports ps_msgs ps_bufs ps_sched ps_procs];
    rewrite ?EP, ?enq_dom, ?dom_if_insert.
  - eapply oh_rep_ext; [exact Hh|]. intros q. cbn beta. clear. destruct (data =? 0); set_solver.
  - clear - Hdata Hd HnL. destruct (Z.eqb_spec data 0); set_solver.
  - clear - Hdata H0 Hn0. destruct (Z.eqb_spec data 0); set_solver.
  - intros q. rewrite !lookup_insert_is_Some, (po_qdom _ _ _ _ Hok). done.
  - exact enq_queue.
  - exact enq_node.
  - intros q ms [[<- <-]|[_ Hms]]%lookup_insert_Some; [|by eapply (po_nodup _ _ _ _ Hok)].
    apply NoDup_app. split_and!; [by eapply (po_nodup _ _ _ _ Hok)| |apply NoDup_singleton].
    intros n Hn ->%list_elem_of_singleton. by apply (enq_old _ _ _ HQ Hn).
  - exact enq_sep.
  - exact enq_data.
  - intros q pt' [[<- <-]|[_ Hq]]%lookup_insert_Some; [|by eapply (po_owner _ _ _ _ Hok)].
    exact (po_owner _ _ _ _ Hok _ _ Hp).
Qed.
End Enqueue.

(** ** port_receive *)

(** The state after the first node [n] of port [p] was taken out and released. *)
Definition dequeued (s : port_state H) (h : H) (p : Z) (pt : port) (n : Z) (m : msg_node) : port_state H :=
  mkPs h (<[p := mkPort (pt_token pt) (mn_next m) (if mn_next m =? 0 then 0 else pt_tail pt) (pt_owner pt)]> (ps_ports s))
    (delete n (ps_msgs s)) (delete (mn_data m) (ps_bufs s))
    (port_table s) (port_table_count s) (ps_sched s) (ps_procs s).

Lemma drop_node_data (X P N B : gset Z) n d q :
  (X ## P ∧ X ## N ∧ X ## B ∧ P ## N ∧ P ## B ∧ N ## B) → 0 ∉ X ∪ P ∪ N ∪ B →
  n ∈ N → d = 0 ∨ d ∈ B →
  (q ∈ X ∪ P ∪ N ∪ B ∧ q ≠ d ∧ q ≠ n) ↔ q ∈ X ∪ P ∪ (N ∖ {[n]}) ∪ (B ∖ {[d]}).
Proof.
  intros (H1 & H2 & H3 & H4 & H5 & H6) H0 Hn Hd.
  assert ((n ∉ X) ∧ (n ∉ P) ∧ n ∉ B) by set_solver.
  assert ((d ∉ X) ∧ (d ∉ P) ∧ d ∉ N) by (destruct Hd as [->|Hd]; set_solver).
  clear H1 H2 H3 H4 H5 H6 H0 Hd. destruct (decide (q = n)) as [->|]; [set_solver|].
  destruct (decide (q = d)) as [->|]; set_solver.
Qed.

Lemma dequeued_ok s X Q C p pt n ns m h :
  ports_ok s X Q C → ps_ports s !! p = Some pt → Q !! p = Some (n :: ns) → ps_msgs s !! n = Some m →
  oh_rep h (λ q, q ∈ X ∪ addrs (ps_ports s) ∪ addrs (ps_msgs s) ∪ addrs (ps_bufs s) ∧ q ≠ mn_data m ∧ q ≠ n) →
  ports_ok (dequeued s h p pt n m) X (<[p := ns]> Q) C.
Proof.
  intros Hok Hp HQ Hm Hh.
  destruct (po_queue _ _ _ _ Hok _ _ _ Hp HQ) as [(Eh & Hn0 & m' & Hm' & Hc) Htail].
  assert (m' = m) as -> by congruence. clear Hm'.
  pose proof (po_nodup _ _ _ _ Hok _ _ HQ) as [Hnns Hnd]%NoDup_cons.
  destruct (po_node _ _ _ _ Hok _ _ _ HQ ltac:(left)) as (m' & bs & Hm' & HC & Hlen & Hcar).
  assert (m' = m) as -> by congruence. clear Hm'.
  assert (mn_data m = 0 ∨ mn_data m ∈ addrs (ps_bufs s)) as Hdata.
  { destruct Hcar as [[? _]|[_ ?]]; [by left|right]. apply elem_of_dom. eauto. }
  pose proof (elem_of_dom_2 _ _ _ Hp) as HpD. pose proof (elem_of_dom_2 _ _ _ Hm) as HnD.
  pose proof (po_disj _ _ _ _ Hok) as Hd. pose proof (po_null _ _ _ _ Hok) as H0.
  assert (∀ v, addrs (<[p := v]> (ps_ports s)) = addrs (ps_ports s)) as EP.
  { intros v. rewrite dom_insert_L. set_solver. }
  assert (∀ q ms k, <[p := ns]> Q !! q = Some ms → k ∈ ms →
    k ≠ n ∧ ∃ ms', Q !! q = Some ms' ∧ k ∈ ms') as Hcase.
  { intros q ms k [[<- <-]|[Hpq Hms]]%lookup_insert_Some Hk.
    - split; [by intros ->|]. eexists. split; [done|]. by right.
    - split; [|eauto]. intros ->. apply Hpq. eapply (po_sep _ _ _ _ Hok p q); eauto. left. }
  split; cbn [dequeued ps_heap ps_ports ps_msgs ps_bufs ps_sched ps_procs]; rewrite ?EP, ?dom_delete_L.
  - eapply oh_rep_ext; [exact Hh|]. intros q. by apply drop_node_data.
  - clear - Hd. set_solver.
  - clear - H0. set_solver.
  - intros q. rewrite !lookup_insert_is_Some, (po_qdom _ _ _ _ Hok). done.
  - intros q pt' ms. rewrite !lookup_insert. case_decide as E.
    + subst q. intros [= <-] [= <-]. cbn [pt_head pt_tail]. split.
      * eapply mchain_frame; [|exact Hc]. intros x Hx. rewrite lookup_delete_ne; [done|]. by intros ->.
      * destruct ns as [|x ns]; [cbn in Hc; by rewrite Hc|].
        destruct Hc as (-> & Hx0 & _). destruct (Z.eqb_spec x 0); [done|]. by rewrite Htail.
    + intros Hq Hms. destruct (po_queue _ _ _ _ Hok _ _ _ Hq Hms) as [Hc' Ht']. split; [|done].
      eapply mchain_frame; [|exact Hc']. intros x Hx. rewrite lookup_delete_ne; [done|].
      intros <-. apply E. eapply (po_sep _ _ _ _ Hok p q); eauto. left.
  - intros q ms k Hms Hk. destruct (Hcase _ _ _ Hms Hk) as (Hne & ms' & Hms' & Hk').
    destruct (po_node _ _ _ _ Hok _ _ _ Hms' Hk') as (mk & bk & Hmk & HCk & Hlk & Hck).
    exists mk, bk. rewrite lookup_delete_ne by done. split; [done|]. split; [done|]. split; [done|].
    destruct Hck as [?|[Hk0 Hb]]; [by left|right]. split; [done|]. rewrite lookup_delete_ne; [done|].
    intros E. apply Hne. eapply (po_data _ _ _ _ Hok q p ms' (n :: ns) k n mk m); eauto. left.
  - intros q ms [[<- <-]|[_ Hms]]%lookup_insert_Some; [done|by eapply (po_nodup _ _ _ _ Hok)].
  - intros q1 q2 ms1 ms2 k H1 H2 Hk1 Hk2. destruct (Hcase _ _ _ H1 Hk1) as (_ & l1 & ? & ?).
    destruct (Hcase _ _ _ H2 Hk2) as (_ & l2 & ? & ?). by eapply (po_sep _ _ _ _ Hok).
  - intros q1 q2 ms1 ms2 n1 n2 m1 m2 H1 Hn1 H2 Hn2 [_ E1]%lookup_delete_Some [_ E2]%lookup_delete_Some.
    destruct (Hcase _ _ _ H1 Hn1) as (_ & l1 & ? & ?). destruct (Hcase _ _ _ H2 Hn2) as (_ & l2 & ? & ?).
    by apply (po_data _ _ _ _ Hok q1 q2 l1 l2 n1 n2 m1 m2).
  - intros q pt' [[<- <-]|[_ Hq]]%lookup_insert_Some; [|by eapply (po_owner _ _ _ _ Hok)].
    exact (po_owner _ _ _ _ Hok _ _ Hp).
Qed.

(** Reading and releasing the buffer of a node; NULL is a node without one. *)
Lemma free_buf_run s L m bs :
  oh_rep (ps_heap s) L → ¬ L 0 → carries (ps_bufs s) m bs → (mn_data m ≠ 0 → L (mn_data m)) →
  msg_bytes m s = Ret (bs, s) ∧
  ∃ h, free_buf (mn_data m) s = Ret (tt, set_bufs (delete (mn_data m) (ps_bufs s)) (set_heap h s)) ∧
    oh_rep h (λ q, L q ∧ q ≠ mn_data m).
Proof.
  intros Hh H0 [_ Hcar] HL. unfold msg_bytes, free_buf, free.
  destruct Hcar as [[-> ->]|[Hd Hb]].
  - split; [done|]. exists (ps_heap s). split.
    + by rewrite (bind_Ret _ _ _ _ _ (zoom_Ret ps_heap set_heap _ s tt _ (oh_free_null _))).
    + eapply oh_rep_ext; [exact Hh|]. intros q. cbn beta.
      split; [|by intros []]. intros Hq. split; [done|]. by intros ->.
  - split; [destruct (Z.eqb_spec (mn_data m) 0); [done|]; by rewrite bind_gets, Hb|].
    destruct (oh_free_ok _ _ (mn_data m) Hh (HL Hd)) as (h & Hrun & Hh').
    exists h. split; [|done]. by rewrite (bind_Ret _ _ _ _ _ (zoom_Ret ps_heap set_heap _ s tt _ Hrun)).
Qed.

Lemma free_msg_run s h L n :
  oh_rep h L → L n → ps_heap s = h →
  ∃ h', free_msg n s = Ret (tt, set_msgs (delete n (ps_msgs s)) (set_heap h' s)) ∧
    oh_rep h' (λ q, L q ∧ q ≠ n).
Proof.
  intros Hh Hn <-. destruct (oh_free_ok _ _ n Hh Hn) as (h' & Hrun & Hh'). exists h'. split; [|done].
  unfold free_msg, free. by rewrite (bind_Ret _ _ _ _ _ (zoom_Ret ps_heap set_heap _ s tt _ Hrun)).
Qed.

(** Releasing the first node of a queue and its buffer, whatever the ports say. *)
Lemma free_node_run s X Q C p n ns m bs P :
  ports_ok s X Q C → Q !! p = Some (n :: ns) → ps_msgs s !! n = Some m → carries (ps_bufs s) m bs →
  ∃ h, msg_bytes m (set_ports P s) = Ret (bs, set_ports P s) ∧
    (free_buf (mn_data m) ;;; free_msg n) (set_ports P s) =
      Ret (tt, mkPs h P (delete n (ps_msgs s)) (delete (mn_data m) (ps_bufs s)) (port_table s)
        (port_table_count s) (ps_sched s) (ps_procs s)) ∧
    oh_rep h (λ q, q ∈ X ∪ addrs (ps_ports s) ∪ addrs (ps_msgs s) ∪ addrs (ps_bufs s) ∧ q ≠ mn_data m ∧ q ≠ n).
Proof.
  intros Hok HQ Hm Hcar.
  destruct (free_buf_run (set_ports P s) _ m bs (po_heap _ _ _ _ Hok) (po_null _ _ _ _ Hok) Hcar)
    as (Hread & h1 & Hf1 & Hh1).
  { intros Hd. destruct Hcar as [_ [[? _]|[_ Hb]]]; [done|]. apply elem_of_union_r, elem_of_dom. eauto. }
  assert (n ∈ addrs (ps_msgs s)) as HnD by (apply elem_of_dom; eauto).
  assert (n ≠ mn_data m) as Hne.
  { intros E. destruct (po_disj _ _ _ _ Hok) as (_ & _ & _ & _ & _ & Hdis). destruct Hcar as [_ [[E0 _]|[_ Hb]]].
    - apply (po_null _ _ _ _ Hok), elem_of_union_l, elem_of_union_r. congruence.
    - apply (Hdis n); [done|]. apply elem_of_dom. rewrite E. eauto. }
  destruct (free_msg_run (set_bufs (delete (mn_data m) (ps_bufs s)) (set_heap h1 (set_ports P s))) h1 _ n Hh1)
    as (h2 & Hf2 & Hh2); [|done|].
  { split; [|done]. by apply elem_of_union_l, elem_of_union_r. }
  exists h2. split; [done|]. split.
  - rewrite (bind_Ret _ _ _ _ _ Hf1). exact Hf2.
  - eapply oh_rep_ext; [exact Hh2|]. cbn beta. tauto.
Qed.

(** take_message takes out the oldest message and copies as much of it as fits. *)
Lemma take_message_spec s X Q C p pt n ns bs len :
  ports_ok s X Q C → ps_ports s !! p = Some pt → Q !! p = Some (n :: ns) → C !! n = Some bs → 0 ≤ len →
  ∃ h m, take_message p len s = Ret (take (Z.to_nat len) bs, dequeued s h p pt n m) ∧
    ports_ok (dequeued s h p pt n m) X (<[p := ns]> Q) C.
Proof.
  intros Hok Hp HQ HC Hl. destruct (po_node _ _ _ _ Hok _ _ _ HQ ltac:(left)) as (m & bs' & Hm & HC' & Hcar).
  assert (bs' = bs) as -> by congruence.
  destruct (po_queue _ _ _ _ Hok _ _ _ Hp HQ) as [(Eh & _ & _) _].
  set (P := <[p := mkPort (pt_token pt) (mn_next m) (if mn_next m =? 0 then 0 else pt_tail pt)
    (pt_owner pt)]> (ps_ports s)).
  destruct (free_node_run s X Q C p n ns m bs P Hok HQ Hm Hcar) as (h & Hread & Hfree & Hh).
  exists h, m. split; [|by apply dequeued_ok].
  unfold take_message. rewrite (bind_Ret _ _ _ _ _ (get_port_run s p pt Hp)), Eh.
  rewrite (bind_Ret _ _ _ _ _ (get_msg_run s n m Hm)).
  unfold put_port. rewrite bind_modify. fold P. rewrite (bind_Ret _ _ _ _ _ Hread), (bind_Ret _ _ _ _ _ Hfree).
  unfold ret. do 2 f_equal. destruct Hcar as [Hlen _]. rewrite Hlen.
  destruct (Z.ltb_spec (Z.of_nat (length bs)) len); [|done]. rewrite !take_ge by lia. done.
Qed.

(** ** Whole operations *)

Definition tokens_unique (s : port_state H) : Prop := ∀ p q a b,
  ps_ports s !! p = Some a → ps_ports s !! q = Some b → pt_token a = pt_token b → p = q.

Lemma port_nonzero s X Q C p pt : ports_ok s X Q C → ps_ports s !! p = Some pt → p ≠ 0.
Proof.
  intros Hok Hp ->. apply (po_null _ _ _ _ Hok), elem_of_union_l, elem_of_union_l, elem_of_union_r, elem_of_dom.
  eauto.
Qed.

Lemma port_lookup_found s X Q C p pt :
  table_ok s → tokens_unique s → ports_ok s X Q C → ps_ports s !! p = Some pt →
  port_lookup (pt_token pt) s = Ret (p, s).
Proof.
  intros Ht Hu Hok Hp. destruct (port_lookup_spec s (pt_token pt) Ht) as (q & -> & [(_ & pt' & Hq & E)|[-> Hno]]).
  - by rewrite (Hu q p pt' pt Hq Hp E).
  - destruct (Hno p pt); [by eapply port_nonzero|done..].
Qed.

Lemma append_message_run s X Q C p pt ns h node data msg :
  ports_ok s X Q C → ps_ports s !! p = Some pt → Q !! p = Some ns → ps_msgs s !! node = None →
  append_message p node data msg (set_heap h s) = Ret (tt, enqueued s h p pt node data msg).
Proof.
  intros Hok Hp HQ Hfresh. destruct (po_queue _ _ _ _ Hok _ _ _ Hp HQ) as [Hc Htail].
  unfold append_message, put_msg at 1. rewrite bind_modify.
  set (sa := set_msgs _ _).
  set (sb := if data =? 0 then sa else set_bufs (<[data := msg]> (ps_bufs sa)) sa).
  rewrite (bind_Ret _ _ _ tt sb) by (unfold sb; by destruct (data =? 0)).
  assert (ps_ports sb = ps_ports s) as Eports by (unfold sb; by destruct (data =? 0)).
  assert (ps_msgs sb = <[node := mkMsg (Z.of_nat (length msg)) data 0]> (ps_msgs s)) as Emsgs
    by (unfold sb; by destruct (data =? 0)).
  rewrite (bind_Ret _ _ _ pt sb) by (apply get_port_run; by rewrite Eports).
  unfold enqueued, link_node. destruct (Z.eqb_spec (pt_tail pt) 0) as [E|E].
  - rewrite E. unfold put_port, modify, set_ports. rewrite Eports, Emsgs. unfold sb.
    do 2 f_equal. destruct (ps_msgs s !! 0); by destruct (data =? 0).
  - assert (∃ l, ps_msgs s !! pt_tail pt = Some l) as [l Hl].
    { rewrite Htail in E |- *. destruct ns as [|x ns _] using rev_ind; [done|]. rewrite last_snoc_default.
      destruct (mchain_dom _ _ _ x Hc) as [_ ?]; [rewrite elem_of_app; right; left|done]. }
    rewrite Hl. rewrite (bind_Ret _ _ _ l sb).
    2:{ apply get_msg_run. rewrite Emsgs, lookup_insert_ne; [done|]. intros ->. congruence. }
    unfold put_msg, put_port. rewrite bind_modify. unfold modify, set_ports, set_msgs. cbn [ps_ports ps_msgs].
    rewrite Eports, Emsgs. do 2 f_equal. unfold sb. by destruct (data =? 0).
Qed.

(** What the allocations of port_forward give. *)
Lemma forward_alloc s X Q C h1 h2 node data (msg : list Z) :
  let L := X ∪ addrs (ps_ports s) ∪ addrs (ps_msgs s) ∪ addrs (ps_bufs s) in
  ports_ok s X Q C → Z.of_nat (length msg) ≤ 2 ^ 40 →
  oh_malloc SIZEOF_MSG_NODE (ps_heap s) = Ret (node, h1) →
  oh_malloc (Z.of_nat (length msg)) h1 = Ret (data, h2) →
  node ≠ 0 ∧ (node ∉ L) ∧ ((data = 0 ∧ msg = []) ∨ (data ≠ 0 ∧ data ≠ node ∧ data ∉ L)) ∧
  oh_rep h2 (λ q, q ∈ L ∪ {[node]} ∪ (if data =? 0 then ∅ else {[data]})).
Proof.
  intros L Hok Hlen H1 H2. assert (0 < SIZEOF_MSG_NODE ≤ 2 ^ 40) as Hsz by done.
  destruct (oh_malloc_ok _ _ _ _ _ (po_heap _ _ _ _ Hok) Hsz H1) as (Hn0 & HnL & Hr1).
  fold L in HnL, Hr1. split; [done|]. split; [done|]. destruct msg as [|b msg].
  - cbn [length] in H2. change (Z.of_nat 0) with 0 in H2. rewrite oh_malloc_zero in H2. injection H2 as <- <-.
    split; [by left|]. eapply oh_rep_ext; [exact Hr1|]. intros q. cbn beta. rewrite Z.eqb_refl. set_solver.
  - assert (0 < Z.of_nat (length (b :: msg)) ≤ 2 ^ 40) as Hsz2 by (cbn [length] in *; lia).
    destruct (oh_malloc_ok _ _ _ _ _ Hr1 Hsz2 H2) as (Hd0 & HdL & Hr2). split.
    { right. split; [done|]. split; [|set_solver]. intros ->. apply HdL. by right. }
    eapply oh_rep_ext; [exact Hr2|]. intros q. cbn beta. destruct (Z.eqb_spec data 0); [done|]. set_solver.
Qed.

(** The table depends on the addresses and tokens of the ports only. *)
Lemma table_frame s s' :
  port_table s' = port_table s → port_table_count s' = port_table_count s →
  (∀ q, pt_token <$> ps_ports s' !! q = pt_token <$> ps_ports s !! q) →
  table_ok s → tokens_unique s → table_ok s' ∧ tokens_unique s'.
Proof.
  intros E1 E2 E3 [] Hu. assert (∀ q, is_Some (ps_ports s' !! q) ↔ is_Some (ps_ports s !! q)) as E4.
  { intros q. rewrite <- (fmap_is_Some pt_token), E3. apply fmap_is_Some. }
  split; [split; rewrite ?E1, ?E2; try done|].
  - intros i p Hi Hlt Hp. apply E4. by eapply to_entry0.
  - intros p Hp%E4. by apply to_all0.
  - intros p q a b Hp Hq E. pose proof (E3 p) as Ep. pose proof (E3 q) as Eq. rewrite Hp in Ep. rewrite Hq in Eq.
    symmetry in Ep, Eq. apply fmap_Some in Ep as (a' & Ha & ?). apply fmap_Some in Eq as (b' & Hb & ?).
    apply (Hu p q a' b'); congruence.
Qed.

Lemma insert_token (P : gmap Z port) p pt pt' q :
  P !! p = Some pt → pt_token pt' = pt_token pt → pt_token <$> <[p := pt']> P !! q = pt_token <$> P !! q.
Proof. intros Hp E. rewrite lookup_insert. case_decide; [subst; by rewrite Hp; simpl; rewrite E|done]. Qed.

Lemma waiting_insert Q C p ns : waiting (<[p := ns]> Q) C p = (λ n, default [] (C !! n)) <$> ns.
Proof. unfold waiting. by rewrite lookup_insert_eq. Qed.

Lemma waiting_insert_ne Q C p q ns : p ≠ q → waiting (<[p := ns]> Q) C q = waiting Q C q.
Proof. intros. unfold waiting. by rewrite lookup_insert_ne. Qed.

(** Bytes recorded for a node that is not queued do not matter. *)
Lemma waiting_frame Q C p n bs :
  (∀ ns, Q !! p = Some ns → n ∉ ns) → waiting Q (<[n := bs]> C) p = waiting Q C p.
Proof.
  intros Hn. unfold waiting. destruct (Q !! p) as [ns|]; [|done]. simpl. apply list_fmap_ext.
  intros i x Hx. rewrite lookup_insert_ne; [done|]. intros ->. apply (Hn ns eq_refl). by eapply list_elem_of_lookup_2.
Qed.

Lemma waiting_snoc Q C p ns n bs :
  Q !! p = Some ns → n ∉ ns → waiting (<[p := ns ++ [n]]> Q) (<[n := bs]> C) p = waiting Q C p ++ [bs].
Proof.
  intros HQ Hn. rewrite waiting_insert, fmap_app. f_equal; [|by simpl; rewrite lookup_insert_eq].
  rewrite <- (waiting_frame Q C p n bs) by (intros ns'; by rewrite HQ; intros [= <-]).
  unfold waiting. by rewrite HQ.
Qed.

(** port_forward to an existing port, when the two allocations succeed. *)
Lemma port_forward_spec s X Q C p pt ns h1 h2 node data msg :
  table_ok s → tokens_unique s → ports_ok s X Q C → ps_ports s !! p = Some pt → Q !! p = Some ns →
  Z.of_nat (length msg) ≤ 2 ^ 40 →
  oh_malloc SIZEOF_MSG_NODE (ps_heap s) = Ret (node, h1) →
  oh_malloc (Z.of_nat (length msg)) h1 = Ret (data, h2) →
  ∃ s', port_forward (pt_token pt) msg s = Ret (Z.of_nat (length msg), s') ∧
    woke (enqueued s h2 p pt node data msg) pt s' ∧ ps_msgs s !! node = None ∧
    ports_ok s' X (<[p := ns ++ [node]]> Q) (<[node := msg]> C).
Proof.
  intros Ht Hu Hok Hp HQ Hlen H1 H2.
  destruct (forward_alloc s X Q C h1 h2 node data msg Hok Hlen H1 H2) as (Hn0 & HnL & Hdata & Hr).
  assert (ps_msgs s !! node = None) as Hfresh.
  { apply not_elem_of_dom. intros Hin. apply HnL. by apply elem_of_union_l, elem_of_union_r. }
  pose proof (enqueued_ok s X Q C p pt ns node data msg Hok Hp HQ Hn0 HnL Hdata h2 Hr) as Hok'.
  set (sq := enqueued s h2 p pt node data msg) in *.
  set (pt' := mkPort (pt_token pt) (if pt_tail pt =? 0 then node else pt_head pt) node (pt_owner pt)).
  assert (ps_ports sq !! p = Some pt') as Hp' by apply lookup_insert_eq.
  destruct (wake_owner_run sq _ _ _ p pt' Hok' Hp') as (s' & Hw & Hwoke). exists s'.
  assert (Hwoke' : woke sq pt s') by exact Hwoke.
  split_and!; [|done|done|by eapply woke_ok].
  unfold port_forward. rewrite (bind_Ret _ _ _ _ _ (port_lookup_found s X Q C p pt Ht Hu Hok Hp)).
  destruct (Z.eqb_spec p 0); [by destruct (port_nonzero s X Q C p pt)|].
  unfold malloc. rewrite (bind_Ret _ _ _ _ _ (zoom_Ret ps_heap set_heap _ s _ _ H1)).
  rewrite (bind_Ret _ _ _ data (set_heap h2 s)).
  2:{ exact (zoom_Ret ps_heap set_heap _ (set_heap h1 s) _ _ H2). }
  rewrite (bind_Ret _ _ _ _ _ (append_message_run s X Q C p pt ns h2 node data msg Hok Hp HQ Hfresh)).
  rewrite (bind_Ret _ _ _ _ _ (get_port_run sq p pt' Hp')), (bind_Ret _ _ _ _ _ Hw). done.
Qed.

(** The receiver of an empty port gives up the processor. *)
Definition blocked (s : port_state H) (t : thread) : port_state H :=
  set_ps_sched (set_threads (<[curr_thread (ps_sched s) := with_state THREAD_BLOCKED t]> (threads (ps_sched s)))
    (ps_sched s)) s.

Lemma receive_loop_empty s X Q C p pt t others len :
  ports_ok s X Q C → ps_ports s !! p = Some pt → Q !! p = Some [] →
  threads (ps_sched s) !! curr_thread (ps_sched s) = Some t →
  receive_loop others p len s =
    match others with
    | [] => Ret (None, blocked s t)
    | run :: others' => (run ;;; receive_loop others' p len) (blocked s t)
    end.
Proof.
  intros Hok Hp HQ Ht. destruct (po_queue _ _ _ _ Hok _ _ _ Hp HQ) as [Hc _]. cbn in Hc.
  assert (in_threads (upd_thread (curr_thread (ps_sched s)) (with_state THREAD_BLOCKED)) s = Ret (tt, blocked s t)) as Hb.
  { apply (zoom_Ret ps_sched set_ps_sched). by apply upd_thread_run. }
  destruct others as [|run others]; cbn [receive_loop];
    rewrite (bind_Ret _ _ _ _ _ (get_port_run s p pt Hp)), Hc, Z.eqb_refl; cbn [negb];
    rewrite bind_gets, (bind_Ret _ _ _ _ _ Hb); done.
Qed.

Lemma receive_loop_full s X Q C p pt n ns bs others len :
  ports_ok s X Q C → ps_ports s !! p = Some pt → Q !! p = Some (n :: ns) → C !! n = Some bs → 0 ≤ len →
  ∃ h m, receive_loop others p len s = Ret (Some (take (Z.to_nat len) bs), dequeued s h p pt n m) ∧
    ports_ok (dequeued s h p pt n m) X (<[p := ns]> Q) C.
Proof.
  intros Hok Hp HQ HC Hl. destruct (take_message_spec s X Q C p pt n ns bs len Hok Hp HQ HC Hl) as (h & m & Hrun & Hok').
  exists h, m. split; [|done]. destruct (po_queue _ _ _ _ Hok _ _ _ Hp HQ) as [(Eh & Hn0 & _) _].
  destruct others; cbn [receive_loop]; rewrite (bind_Ret _ _ _ _ _ (get_port_run s p pt Hp)), Eh;
    (destruct (Z.eqb_spec n 0); [done|]); cbn [negb]; by rewrite (bind_Ret _ _ _ _ _ Hrun).
Qed.

(** ** port_destroy *)

(** Releasing the messages of [p]; the loop does not look at the ports, which
    stay as they are ([P]). *)
Lemma free_messages_run P ns : ∀ fuel s X Q C p pt,
  ports_ok s X Q C → ps_ports s !! p = Some pt → Q !! p = Some ns → (length ns ≤ fuel)%nat →
  ∃ s' pt', free_messages fuel (pt_head pt) (set_ports P s) = Ret (tt, set_ports P s') ∧
    ports_ok s' X (<[p := []]> Q) C ∧ ps_ports s' = <[p := pt']> (ps_ports s) ∧
    port_table s' = port_table s ∧ port_table_count s' = port_table_count s ∧
    ps_sched s' = ps_sched s ∧ ps_procs s' = ps_procs s.
Proof.
  induction ns as [|n ns IH]; intros fuel s X Q C p pt Hok Hp HQ Hf.
  - destruct (po_queue _ _ _ _ Hok _ _ _ Hp HQ) as [Hc _]. cbn in Hc. exists s, pt.
    rewrite !insert_id by done. split_and!; try done. rewrite Hc. by destruct fuel.
  - destruct fuel as [|fuel]; [cbn in Hf; lia|].
    destruct (po_queue _ _ _ _ Hok _ _ _ Hp HQ) as [(Eh & Hn0 & m & Hm & _) _].
    destruct (po_node _ _ _ _ Hok _ _ _ HQ ltac:(left)) as (m' & bs & Hm' & HC & Hcar).
    assert (m' = m) as -> by congruence. clear Hm'.
    destruct (free_node_run s X Q C p n ns m bs P Hok HQ Hm Hcar) as (h & _ & Hrun & Hh).
    pose proof (dequeued_ok s X Q C p pt n ns m h Hok Hp HQ Hm Hh) as Hok'.
    destruct (IH fuel (dequeued s h p pt n m) X (<[p := ns]> Q) C p
      (mkPort (pt_token pt) (mn_next m) (if mn_next m =? 0 then 0 else pt_tail pt) (pt_owner pt)))
      as (s' & pt' & Hrun' & Hok'' & Hports & Hrest); [done|apply lookup_insert_eq|apply lookup_insert_eq|cbn in Hf; lia|].
    exists s', pt'. rewrite insert_insert_eq in Hok''.
    split_and!; [|done|rewrite Hports; apply insert_insert_eq|apply Hrest..].
    rewrite Eh. cbn [free_messages]. destruct (Z.eqb_spec n 0); [done|].
    rewrite (bind_Ret _ _ _ m (set_ports P s)) by (by apply get_msg_run).
    rewrite (bind_Ret _ _ _ _ _ Hrun), <- Hrun'. done.
Qed.

(** Clearing the entry of a port in the table. *)
Lemma clear_entry_run s k p n : ∀ i,
  table_ok s → p ≠ 0 → port_table s !! k = Some p → Z.of_nat k < port_table_count s →
  (i ≤ k)%nat → Z.of_nat i + Z.of_nat n = port_table_count s →
  clear_entry n (Z.of_nat i) p s = Ret (tt, set_table (<[k := 0]> (port_table s)) (port_table_count s) s).
Proof.
  induction n as [|n IH]; intros i Hok Hp Hk Hlt Hik Hin; [lia|]. cbn [clear_entry].
  pose proof (to_len _ Hok). pose proof (to_count _ Hok).
  destruct (lookup_lt_is_Some_2 (port_table s) i) as [q Hq]; [lia|].
  rewrite (bind_Ret _ _ _ _ _ (table_get_run s i q Hq)). destruct (Z.eqb_spec q p) as [->|Hne].
  - assert (i = k) as -> by (apply (to_once _ Hok i k p); [done..|lia|done]).
    unfold table_set. rewrite !bind_gets. destruct (Z.leb_spec 0 (Z.of_nat k)); [|lia].
    destruct (Z.ltb_spec (Z.of_nat k) (Z.of_nat (length (port_table s)))); [|lia]. by rewrite Nat2Z.id.
  - replace (Z.of_nat i + 1) with (Z.of_nat (S i)) by lia. apply IH; [done..| |lia].
    destruct (decide (i = k)); [congruence|lia].
Qed.

Definition destroyed (s : port_state H) (h : H) (p : Z) (k : nat) : port_state H :=
  mkPs h (delete p (ps_ports s)) (ps_msgs s) (ps_bufs s)
    (<[k := 0]> (port_table s)) (port_table_count s) (ps_sched s) (ps_procs s).

Lemma destroyed_ok s X Q C h p pt k :
  ports_ok s X Q C → ps_ports s !! p = Some pt → Q !! p = Some [] →
  oh_rep h (λ q, q ∈ X ∪ addrs (ps_ports s) ∪ addrs (ps_msgs s) ∪ addrs (ps_bufs s) ∧ q ≠ p) →
  ports_ok (destroyed s h p k) X (delete p Q) C.
Proof.
  intros Hok Hp HQ Hh. pose proof (elem_of_dom_2 _ _ _ Hp) as HpD.
  pose proof (po_disj _ _ _ _ Hok) as Hd. pose proof (po_null _ _ _ _ Hok) as H0.
  assert (∀ q ns, delete p Q !! q = Some ns → Q !! q = Some ns) as HQ'.
  { intros q ns [_ ?]%lookup_delete_Some. done. }
  split; cbn [destroyed ps_heap ps_ports ps_msgs ps_bufs ps_sched ps_procs]; rewrite ?dom_delete_L.
  - eapply oh_rep_ext; [exact Hh|]. intros q. cbn beta. destruct Hd as (D1 & D2 & D3 & D4 & D5 & D6).
    assert ((p ∉ X) ∧ (p ∉ addrs (ps_msgs s)) ∧ p ∉ addrs (ps_bufs s)) by set_solver.
    clear - H1 HpD. destruct (decide (q = p)) as [->|]; set_solver.
  - clear - Hd. set_solver.
  - clear - H0. set_solver.
  - intros q. rewrite !lookup_delete_is_Some, (po_qdom _ _ _ _ Hok). done.
  - intros q pt' ms [_ Hq]%lookup_delete_Some Hms%HQ'. by apply (po_queue _ _ _ _ Hok q).
  - intros q ms n Hms%HQ'. by apply (po_node _ _ _ _ Hok q).
  - intros q ms Hms%HQ'. by apply (po_nodup _ _ _ _ Hok q).
  - intros q1 q2 ms1 ms2 n H1%HQ' H2%HQ'. by apply (po_sep _ _ _ _ Hok q1 q2 ms1 ms2).
  - intros q1 q2 ms1 ms2 n1 n2 m1 m2 H1%HQ' Hn1 H2%HQ' Hn2.
    by apply (po_data _ _ _ _ Hok q1 q2 ms1 ms2 n1 n2 m1 m2).
  - intros q pt' [_ Hq]%lookup_delete_Some. by apply (po_owner _ _ _ _ Hok q).
Qed.

Lemma destroyed_table s h p k :
  table_ok s → tokens_unique s → p ≠ 0 → port_table s !! k = Some p → Z.of_nat k < port_table_count s →
  table_ok (destroyed s h p k) ∧ tokens_unique (destroyed s h p k).
Proof.
  intros [] Hu Hp Hk Hlt. split; [split; simpl|].
  - by rewrite length_insert.
  - done.
  - intros i q [(_ & <- & _)|[Hik Hi]]%list_lookup_insert_Some Hi' Hq; [done|].
    rewrite lookup_delete_is_Some. split; [|by eapply to_entry0]. intros <-. apply Hik. by eapply to_once0.
  - intros q [Hqp Hq]%lookup_delete_is_Some. destruct (to_all0 q Hq) as (i & Hi & Hi'). exists i.
    split; [|done]. rewrite list_lookup_insert_ne; [done|]. intros ->. congruence.
  - intros i j q [(_ & <- & _)|[_ Hi]]%list_lookup_insert_Some Hj Hq; [done|].
    apply list_lookup_insert_Some in Hj as [(_ & <- & _)|[_ Hj]]; [done|]. by eapply to_once0.
  - intros q1 q2 a b. cbn [destroyed ps_ports].
    intros [_ H1]%lookup_delete_Some [_ H2]%lookup_delete_Some. by apply Hu.
Qed.

Lemma queue_length s X Q C p ns : ports_ok s X Q C → Q !! p = Some ns → (length ns ≤ size (ps_msgs s))%nat.
Proof.
  intros Hok HQ. rewrite <- size_dom, <- (size_list_to_set (C := gset Z)) by (by eapply (po_nodup _ _ _ _ Hok)).
  apply subseteq_size. intros n Hn%elem_of_list_to_set. apply elem_of_dom.
  destruct (po_node _ _ _ _ Hok _ _ _ HQ Hn) as (m & _ & Hm & _). eauto.
Qed.

(** port_destroy wakes the owner, releases the port and its messages and takes
    it out of the table; the other ports keep their messages. *)
Lemma port_destroy_spec s X Q C p pt :
  table_ok s → tokens_unique s → ports_ok s X Q C → ps_ports s !! p = Some pt →
  ∃ s' s1, port_destroy p s = Ret (tt, s') ∧ ports_ok s' X (delete p Q) C ∧ table_ok s' ∧ tokens_unique s' ∧
    ps_ports s' = delete p (ps_ports s) ∧ woke s pt s1 ∧ ps_sched s' = ps_sched s1.
Proof.
  intros Ht Hu Hok Hp. pose proof (port_nonzero _ _ _ _ _ _ Hok Hp) as Hp0.
  destruct (wake_owner_run s X Q C p pt Hok Hp) as (s1 & Hw & Hwoke).
  pose proof (woke_ok _ _ _ _ _ _ Hwoke Hok) as Hok1. pose proof (woke_table _ _ _ Hwoke Ht) as Ht1.
  assert (ps_ports s1 = ps_ports s) as EP1 by (by destruct Hwoke as (? & ? & _ & _ & ->)).
  destruct (proj2 (po_qdom _ _ _ _ Hok p) ltac:(eauto)) as [ns HQ]. rewrite <- EP1 in Hp.
  destruct (free_messages_run (ps_ports s1) ns (size (ps_msgs s1)) s1 X Q C p pt Hok1 Hp HQ)
    as (s2 & pt2 & Hrun2 & Hok2 & EP2 & ET2 & EC2 & ES2 & EPr2); [by eapply queue_length|].
  destruct (to_all _ Ht1 p) as (k & Hk & Hlt); [eauto|].
  replace (set_ports (ps_ports s1) s1) with s1 in Hrun2 by (by destruct s1).
  assert (table_ok (set_ports (ps_ports s1) s2) ∧ tokens_unique (set_ports (ps_ports s1) s2)) as [Ht2 Hu2].
  { apply (table_frame s1); [done|done|done|done|]. unfold tokens_unique. by rewrite EP1. }
  assert (∃ h, oh_free p (ps_heap s2) = Ret (tt, h) ∧
    oh_rep h (λ q, q ∈ X ∪ addrs (ps_ports s2) ∪ addrs (ps_msgs s2) ∪ addrs (ps_bufs s2) ∧ q ≠ p)) as (h & Hfree & Hh).
  { apply oh_free_ok; [apply (po_heap _ _ _ _ Hok2)|].
    apply elem_of_union_l, elem_of_union_l, elem_of_union_r, elem_of_dom. rewrite EP2, lookup_insert_eq. eauto. }
  assert (ps_ports s2 !! p = Some pt2) as Hp2 by (rewrite EP2; apply lookup_insert_eq).
  pose proof (destroyed_ok s2 X _ C h p pt2 k Hok2 Hp2 (lookup_insert_eq _ _ _) Hh) as Hok3.
  rewrite delete_insert_eq in Hok3.
  destruct (destroyed_table _ h p k Ht2 Hu2 Hp0) as [Ht3 Hu3]; [by rewrite <- ET2 in Hk|cbn; lia|].
  assert (destroyed (set_ports (ps_ports s1) s2) h p k = destroyed s2 h p k) as Ed.
  { unfold destroyed. cbn [set_ports ps_ports ps_msgs ps_bufs port_table port_table_count ps_sched ps_procs].
    rewrite EP2. by rewrite delete_insert_eq. }
  rewrite Ed in Ht3, Hu3. exists (destroyed s2 h p k), s1.
  split_and!; [|done|done|done| |done|by cbn [destroyed ps_sched]].
  2:{ cbn [destroyed ps_ports]. rewrite EP2, EP1. apply delete_insert_eq. }
  unfold port_destroy. rewrite (bind_Ret _ _ _ pt s) by (apply get_port_run; by rewrite <- EP1).
  rewrite (bind_Ret _ _ _ _ _ Hw), (bind_Ret _ _ _ _ _ (get_port_run s1 p pt Hp)), bind_gets.
  rewrite (bind_Ret _ _ _ _ _ Hrun2), bind_gets.
  pose proof (to_count _ Ht2) as Hcnt. cbn [set_ports port_table_count] in Hcnt.
  erewrite bind_Ret; [|apply (clear_entry_run _ k p _ 0); [done|done|by rewrite <- ET2 in Hk|cbn; lia|lia|cbn; lia]].
  unfold free_port, free. erewrite bind_Ret; [|apply zoom_Ret; exact Hfree]. rewrite <- Ed. done.
Qed.

(** ** port_create *)

Definition created (s : port_state H) (h : H) (p token owner : Z) : port_state H :=
  mkPs h (<[p := mkPort token 0 0 owner]> (ps_ports s)) (ps_msgs s) (ps_bufs s)
    (<[Z.to_nat (port_table_count s) := p]> (port_table s)) (port_table_count s + 1) (ps_sched s) (ps_procs s).

Lemma created_ok s X Q C h p token owner o :
  let L := X ∪ addrs (ps_ports s) ∪ addrs (ps_msgs s) ∪ addrs (ps_bufs s) in
  ports_ok s X Q C → p ≠ 0 → p ∉ L → oh_rep h (λ q, q ∈ L ∨ q = p) →
  ps_procs s !! owner = Some o → is_Some (threads (ps_sched s) !! p_thread o) →
  ports_ok (created s h p token owner) X (<[p := []]> Q) C.
Proof.
  intros L Hok Hp0 HpL Hh Ho Hto. unfold L in *. clear L.
  pose proof (po_disj _ _ _ _ Hok) as Hd. pose proof (po_null _ _ _ _ Hok) as H0.
  assert (∀ q ns n, <[p := []]> Q !! q = Some ns → n ∈ ns → Q !! q = Some ns) as HQ'.
  { intros q ns n [[_ <-]|[_ ?]]%lookup_insert_Some Hn; [by apply not_elem_of_nil in Hn|done]. }
  split; cbn [created ps_heap ps_ports ps_msgs ps_bufs ps_sched ps_procs]; rewrite ?dom_insert_L.
  - eapply oh_rep_ext; [exact Hh|]. intros q. cbn beta. clear. set_solver.
  - clear - Hd HpL. set_solver.
  - clear - H0 Hp0. set_solver.
  - intros q. rewrite !lookup_insert_is_Some, (po_qdom _ _ _ _ Hok). done.
  - intros q pt' ms. rewrite !lookup_insert. case_decide as E; [by intros [= <-] [= <-]|].
    by apply (po_queue _ _ _ _ Hok q).
  - intros q ms n Hms Hn. by apply (po_node _ _ _ _ Hok q ms); [eapply HQ'|].
  - intros q ms [[_ <-]|[_ Hms]]%lookup_insert_Some; [constructor|by apply (po_nodup _ _ _ _ Hok q)].
  - intros q1 q2 ms1 ms2 n H1 H2 Hn1 Hn2. apply (po_sep _ _ _ _ Hok q1 q2 ms1 ms2 n); eauto.
  - intros q1 q2 ms1 ms2 n1 n2 m1 m2 H1 Hn1 H2 Hn2.
    apply (po_data _ _ _ _ Hok q1 q2 ms1 ms2 n1 n2 m1 m2); eauto.
  - intros q pt' [[_ <-]|[_ Hq]]%lookup_insert_Some; [by eauto|by apply (po_owner _ _ _ _ Hok q)].
Qed.

Lemma created_table s h p token owner :
  table_ok s → tokens_unique s → p ≠ 0 → ps_ports s !! p = None → port_table_count s < 1024 →
  (∀ q pt, ps_ports s !! q = Some pt → pt_token pt ≠ token) →
  table_ok (created s h p token owner) ∧ tokens_unique (created s h p token owner).
Proof.
  intros [] Hu Hp0 Hfresh Hlt Htok. set (k := Z.to_nat (port_table_count s)).
  assert (∀ i q, (<[k := p]> (port_table s)) !! i = Some q → Z.of_nat i < port_table_count s + 1 →
    (i = k ∧ q = p) ∨ (i ≠ k ∧ port_table s !! i = Some q ∧ Z.of_nat i < port_table_count s)) as Hcase.
  { intros i q [(-> & <- & _)|[Hne Hi]]%list_lookup_insert_Some Hlt'; [by left|right]. split_and!; [done|done|].
    destruct (decide (Z.of_nat i = port_table_count s)); [|lia]. unfold k in Hne. lia. }
  assert (∀ i, Z.of_nat i < port_table_count s → port_table s !! i ≠ Some p) as Hnew.
  { intros i Hi E. destruct (to_entry0 i p E Hi Hp0) as [? ?]. congruence. }
  split; [split; cbn [created port_table port_table_count ps_ports]|].
  - by rewrite length_insert.
  - lia.
  - intros i q Hi Hlt' Hq. apply lookup_insert_is_Some'.
    destruct (Hcase i q Hi Hlt') as [[_ ->]|(_ & Hi' & Hl)]; [by left|right]. by eapply to_entry0.
  - intros q [<-|[Hne Hq]]%lookup_insert_is_Some.
    + exists k. split; [apply list_lookup_insert_eq|]; unfold k; lia.
    + destruct (to_all0 q Hq) as (i & Hi & Hl). exists i. split; [|lia].
      rewrite list_lookup_insert_ne; [done|]. unfold k. lia.
  - intros i j q Hi Hj Hq Hli Hlj. destruct (Hcase i q Hi Hli) as [[-> ->]|(_ & Hi' & Hl)];
      destruct (Hcase j _ Hj Hlj) as [[-> E]|(_ & Hj' & Hl')].
    + done.
    + by destruct (Hnew j Hl').
    + subst. by destruct (Hnew i Hl).
    + by eapply to_once0.
  - intros q1 q2 a b. cbn [created ps_ports].
    intros [[<- <-]|[_ H1]]%lookup_insert_Some [[<- <-]|[_ H2]]%lookup_insert_Some; cbn [pt_token].
    + done.
    + intros E. by destruct (Htok _ _ H2).
    + intros E. by destruct (Htok _ _ H1).
    + by apply Hu.
Qed.

Lemma port_create_run s hi lo p h t :
  length (port_table s) = 1024%nat → 0 ≤ port_table_count s ≤ 1024 →
  oh_malloc SIZEOF_PORT (ps_heap s) = Ret (p, h) →
  threads (ps_sched s) !! curr_thread (ps_sched s) = Some t →
  port_create hi lo s =
    if port_table_count s <? 1024 then Ret (p, created s h p (port_token hi lo) (th_process t)) else Fault.
Proof.
  intros Hlen Hcnt Hm Ht. unfold port_create, malloc.
  rewrite (bind_Ret _ _ _ _ _ (zoom_Ret ps_heap set_heap _ s _ _ Hm)), bind_gets.
  rewrite (bind_Ret _ _ _ t (set_heap h s)).
  2:{ unfold in_threads, zoom. cbn [set_heap ps_sched]. rewrite (get_thread_run _ _ _ Ht). done. }
  unfold put_port. rewrite bind_modify, bind_gets. cbn [set_ports set_heap port_table_count].
  unfold table_set. unfold bind at 1. rewrite !bind_gets. cbn [set_ports set_heap port_table port_table_count].
  rewrite Hlen. change (Z.of_nat 1024) with 1024. destruct (Z.leb_spec 0 (port_table_count s)); [|lia].
  by destruct (Z.ltb_spec (port_table_count s) 1024).
Qed.

End Port.
