(* ===== verification/PortThms.v ===== *)
(** * Theorems about message ports

    The properties of port.c, proved for any kernel heap that keeps the promises
    of [ObjHeap]; the witnesses run the ports on heap.c and pmm.c. *)

From S2P Require Import Prelude FrameAlloc Pmm Heap HeapThms Thread Port.

(** Two ports created at different values of the time stamp counter have
    different tokens: the mixing function of port_create loses no information. *)
Theorem port_token_injective (hi lo hi' lo' : Z) :
  0 ≤ hi < W32 → 0 ≤ lo < W32 → 0 ≤ hi' < W32 → 0 ≤ lo' < W32 →
  port_token hi lo = port_token hi' lo' → hi = hi' ∧ lo = lo'.
Proof.
  intros H1 H2 H3 H4 E. pose proof (untoken_token hi lo H1 H2) as U.
  rewrite E, (untoken_token hi' lo' H3 H4) in U. lia.
Qed.

Lemma port_token_injective_witness : port_token 1 2 = port_token 1 2 ∧ 1 = 1 ∧ 2 = 2.
Proof. split; [reflexivity|]. apply (port_token_injective 1 2 1 2); lia. Defined.

Section PortTheorems.
Context {H : Type} `{OH : ObjHeap H}.

(** The whole invariant: the structs, the table and distinct tokens. *)
Definition ports_inv (s : port_state H) (X : gset Z) (Q C : gmap Z (list Z)) : Prop :=
  ports_ok s X Q C ∧ table_ok s ∧ tokens_unique s.

(** No queue holds a node that is not allocated. *)
Lemma fresh_unqueued (s : port_state H) (X : gset Z) (Q C : gmap Z (list Z)) n q ns :
  ports_ok s X Q C → ps_msgs s !! n = None → Q !! q = Some ns → n ∉ ns.
Proof.
  intros Hok Hn HQ Hin. destruct (po_node _ _ _ _ Hok _ _ _ HQ Hin) as (m & _ & Hm & _). congruence.
Qed.

Lemma woke_same (s : port_state H) (pt : port) (s' : port_state H) : woke s pt s' → ps_ports s' = ps_ports s ∧ port_table s' = port_table s ∧
  port_table_count s' = port_table_count s.
Proof. by intros (o & t & _ & _ & ->). Qed.

(** port_create, when kmalloc gives it a block and the table has room: the
    new port has an empty queue, belongs to the caller's process and is found
    under its token; the queues of the other ports are untouched. *)
Theorem port_create_correct (s : port_state H) (X : gset Z) (Q C : gmap Z (list Z)) (hi lo p : Z) (h : H)
    (t : thread) (o : process) :
  ports_inv s X Q C → port_table_count s < PORT_TABLE_SIZE →
  oh_malloc SIZEOF_PORT (ps_heap s) = Ret (p, h) →
  threads (ps_sched s) !! curr_thread (ps_sched s) = Some t →
  ps_procs s !! th_process t = Some o → is_Some (threads (ps_sched s) !! p_thread o) →
  (∀ q pt, ps_ports s !! q = Some pt → pt_token pt ≠ port_token hi lo) →
  ∃ s', port_create hi lo s = Ret (p, s') ∧ ports_inv s' X (<[p := []]> Q) C ∧
    ps_ports s' = <[p := mkPort (port_token hi lo) 0 0 (th_process t)]> (ps_ports s) ∧
    ps_ports s !! p = None ∧ port_lookup (port_token hi lo) s' = Ret (p, s').
Proof.
  intros (Hok & Ht & Hu) Hlt Hm Hcur Ho Hto Htok. change PORT_TABLE_SIZE with 1024 in Hlt.
  assert (0 < SIZEOF_PORT ≤ 2 ^ 40) as Hsz by done.
  destruct (oh_malloc_ok _ _ _ _ _ (po_heap _ _ _ _ Hok) Hsz Hm) as (Hp0 & HpL & Hr).
  assert (ps_ports s !! p = None) as Hfresh.
  { apply not_elem_of_dom. intros Hin. by apply HpL, elem_of_union_l, elem_of_union_l, elem_of_union_r. }
  pose proof (created_ok s X Q C h p (port_token hi lo) (th_process t) o Hok Hp0 HpL Hr Ho Hto) as Hok'.
  destruct (created_table s h p (port_token hi lo) (th_process t) Ht Hu Hp0 Hfresh Hlt Htok) as [Ht' Hu'].
  eexists. split_and!.
  - rewrite (port_create_run s hi lo p h t (to_len _ Ht) (to_count _ Ht) Hm Hcur).
    by destruct (Z.ltb_spec (port_table_count s) 1024); [|lia].
  - split_and!; done.
  - done.
  - done.
  - apply (port_lookup_found _ _ _ _ p (mkPort (port_token hi lo) 0 0 (th_process t)) Ht' Hu' Hok').
    apply lookup_insert_eq.
Qed.

(** The table has 1024 entries and the count of entries is never taken back:
    after 1024 calls of port_create the next one writes past the end of the
    table, even when every port was destroyed in the meantime. *)
Theorem port_create_past_table (s : port_state H) (hi lo p : Z) (h : H) (t : thread) :
  table_ok s → port_table_count s = PORT_TABLE_SIZE →
  oh_malloc SIZEOF_PORT (ps_heap s) = Ret (p, h) →
  threads (ps_sched s) !! curr_thread (ps_sched s) = Some t →
  port_create hi lo s = Fault.
Proof.
  intros Ht Hc Hm Hcur. rewrite (port_create_run s hi lo p h t (to_len _ Ht) (to_count _ Ht) Hm Hcur).
  by rewrite Hc.
Qed.

(** port_lookup always returns, changes nothing, and gives a port with the
    token if there is one and NULL otherwise. *)
Theorem port_lookup_correct (s : port_state H) (X : gset Z) (Q C : gmap Z (list Z)) (token : Z) :
  ports_inv s X Q C →
  ∃ p, port_lookup token s = Ret (p, s) ∧
    ((∃ pt, ps_ports s !! p = Some pt ∧ pt_token pt = token) ∨
     (p = 0 ∧ ∀ q pt, ps_ports s !! q = Some pt → pt_token pt ≠ token)).
Proof.
  intros (Hok & Ht & Hu). destruct (port_lookup_spec s token Ht) as (p & Hrun & [[_ Hp]|[-> Hno]]).
  - exists p. split; [done|]. by left.
  - exists 0. split; [done|]. right. split; [done|]. intros q pt Hq. apply (Hno q); [|done].
    by eapply port_nonzero.
Qed.

(** C17. port_forward to a live port, when its two allocations succeed: returns
    the length, the message becomes the last one waiting at that port with all
    its bytes, the messages of every other port are untouched, and the owner's
    thread is ready if it was blocked. *)
Theorem port_forward_fifo (s : port_state H) (X : gset Z) (Q C : gmap Z (list Z)) (p : Z) (pt : port)
    (h1 h2 : H) (node data : Z) (msg : list Z) :
  ports_inv s X Q C → ps_ports s !! p = Some pt → Z.of_nat (length msg) ≤ 2 ^ 40 →
  oh_malloc SIZEOF_MSG_NODE (ps_heap s) = Ret (node, h1) →
  oh_malloc (Z.of_nat (length msg)) h1 = Ret (data, h2) →
  ∃ s' Q' C', port_forward (pt_token pt) msg s = Ret (Z.of_nat (length msg), s') ∧
    ports_inv s' X Q' C' ∧
    waiting Q' C' p = waiting Q C p ++ [msg] ∧
    (∀ q, q ≠ p → waiting Q' C' q = waiting Q C q) ∧
    (∃ o t, ps_procs s !! pt_owner pt = Some o ∧ threads (ps_sched s) !! p_thread o = Some t ∧
       threads (ps_sched s') = <[p_thread o := unblocked t]> (threads (ps_sched s))).
Proof.
  intros (Hok & Ht & Hu) Hp Hlen H1 H2. destruct (proj2 (po_qdom _ _ _ _ Hok p) ltac:(eauto)) as [ns HQ].
  destruct (port_forward_spec s X Q C p pt ns h1 h2 node data msg Ht Hu Hok Hp HQ Hlen H1 H2)
    as (s' & Hrun & Hwoke & Hfresh & Hok').
  exists s', (<[p := ns ++ [node]]> Q), (<[node := msg]> C). split_and!.
  - done.
  - split; [done|]. destruct (woke_same _ _ _ Hwoke) as (EP & ET & EC).
    apply (table_frame s); [exact ET|exact EC| |done|done]. intros q. rewrite EP.
    by apply (insert_token _ p pt).
  - apply waiting_snoc; [done|]. by apply (fresh_unqueued s X Q C node p).
  - intros q Hq. rewrite waiting_insert_ne by done. apply waiting_frame. intros ms Hms. by apply (fresh_unqueued s X Q C node q).
  - destruct Hwoke as (o & t & Ho & Hth & ->). by exists o, t.
Qed.

(** C16. port_receive on a live port.  If messages are waiting, it takes out the
    oldest one, returns as many of its bytes as fit the buffer, leaves the later
    ones waiting in order and the other ports untouched, and the released node
    and buffer leave the invariant intact.  If none is waiting, the calling
    thread is blocked, and when it is switched in again it looks at the queue
    once more. *)
Theorem port_receive_fifo (s : port_state H) (X : gset Z) (Q C : gmap Z (list Z)) (p : Z) (pt : port)
    (t : thread) (len : Z) (run : M (port_state H) unit) (others : list (M (port_state H) unit)) :
  ports_inv s X Q C → ps_ports s !! p = Some pt → 0 ≤ len →
  threads (ps_sched s) !! curr_thread (ps_sched s) = Some t →
  match waiting Q C p with
  | msg :: msgs =>
      ∃ s' Q', port_receive others (pt_token pt) len s = Ret (Some (take (Z.to_nat len) msg), s') ∧
        ports_inv s' X Q' C ∧ waiting Q' C p = msgs ∧ (∀ q, q ≠ p → waiting Q' C q = waiting Q C q) ∧
        ps_sched s' = ps_sched s
  | [] =>
      port_receive [] (pt_token pt) len s = Ret (None, blocked s t) ∧
      ∀ s2, run (blocked s t) = Ret (tt, s2) →
        port_receive (run :: others) (pt_token pt) len s = receive_loop others p len s2
  end.
Proof.
  intros (Hok & Ht & Hu) Hp Hlen Hcur. destruct (proj2 (po_qdom _ _ _ _ Hok p) ltac:(eauto)) as [ns HQ].
  pose proof (port_nonzero _ _ _ _ _ _ Hok Hp) as Hp0. unfold waiting at 1. rewrite HQ. cbn [default from_option id].
  assert (∀ os, port_receive os (pt_token pt) len s = receive_loop os p len s) as Hr.
  { intros os. unfold port_receive. rewrite (bind_Ret _ _ _ _ _ (port_lookup_found s X Q C p pt Ht Hu Hok Hp)).
    by destruct (Z.eqb_spec p 0). }
  destruct ns as [|n ns]; cbn [fmap list_fmap]; rewrite !Hr.
  - split; [by apply (receive_loop_empty s X Q C p pt t [])|]. intros s2 Hs2. 
    rewrite (receive_loop_empty s X Q C p pt t (run :: others) len Hok Hp HQ Hcur).
    by rewrite (bind_Ret _ _ _ _ _ Hs2).
  - destruct (po_node _ _ _ _ Hok _ _ _ HQ ltac:(left)) as (m & bs & _ & HC & _). rewrite HC. cbn [default from_option].
    destruct (receive_loop_full s X Q C p pt n ns bs others len Hok Hp HQ HC Hlen) as (h & m' & Hrun & Hok').
    eexists _, _. split; [exact Hrun|]. split_and!.
    + split; [done|]. apply (table_frame s); [done|done| |done|done]. intros q. by apply (insert_token _ p pt).
    + by rewrite waiting_insert.
    + intros q Hq. by rewrite waiting_insert_ne.
    + done.
Qed.

(** port_destroy of a live port returns: the port and its messages are
    released, its token is no longer found, its owner is woken if it was blocked,
    and every other port keeps its waiting messages. *)
Theorem port_destroy_correct (s : port_state H) (X : gset Z) (Q C : gmap Z (list Z)) (p : Z) (pt : port) :
  ports_inv s X Q C → ps_ports s !! p = Some pt →
  ∃ s' s1, port_destroy p s = Ret (tt, s') ∧ ports_inv s' X (delete p Q) C ∧
    ps_ports s' = delete p (ps_ports s) ∧ port_lookup (pt_token pt) s' = Ret (0, s') ∧
    (∀ q, q ≠ p → waiting (delete p Q) C q = waiting Q C q) ∧
    woke s pt s1 ∧ ps_sched s' = ps_sched s1.
Proof.
  intros (Hok & Ht & Hu) Hp.
  destruct (port_destroy_spec s X Q C p pt Ht Hu Hok Hp) as (s' & s1 & Hrun & Hok' & Ht' & Hu' & EP & Hw & Es).
  exists s', s1. split_and!; [done| |done| | |done|done].
  - split_and!; done.
  - destruct (port_lookup_spec s' (pt_token pt) Ht') as (q & -> & [(_ & pt' & Hq & E)|[-> _]]); [|done].
    rewrite EP in Hq. apply lookup_delete_Some in Hq as [Hne Hq]. by destruct Hne; apply (Hu p q pt pt').
  - intros q Hq. unfold waiting. by rewrite lookup_delete_ne.
Qed.

End PortTheorems.

(** ** Witnesses: one process with one thread, on the heap after slab_init *)

Abbreviation demo_ports := (port_state (mm_state pmm_state)).
Definition demo_owner : thread := mkThread 0 0 0x1000 0x4000 THREAD_BLOCKED 0 0 0 0 0 7000 7 0 0.
Definition demo_proc : process := mkProcess 7 [] 0 16 0 0 [] [] [] 0.
Definition demo_port_sched : sched := mkSched {[16 := demo_owner]} 16 16 16 2 0 0.

(** No port yet; one port; a message of three bytes waiting at it. *)
Definition demo_ps0 : demo_ports :=
  mkPs demo_heap ∅ ∅ ∅ (replicate 1024 0) 0 demo_port_sched {[7000 := demo_proc]}.
Definition demo_h1 : mm_state pmm_state := state_of demo_heap (oh_malloc SIZEOF_PORT demo_heap).
Definition demo_port : Z := 0xffff800000002fd0.
Definition demo_pt : port := mkPort (port_token 1 2) 0 0 7000.
Definition demo_ps1 : demo_ports := created demo_ps0 demo_h1 demo_port (port_token 1 2) 7000.
Definition demo_h2 : mm_state pmm_state := state_of demo_h1 (oh_malloc SIZEOF_MSG_NODE demo_h1).
Definition demo_h3 : mm_state pmm_state := state_of demo_h2 (oh_malloc 3 demo_h2).
Definition demo_node : Z := 0xffff800000002fa8.
Definition demo_data : Z := 0xffff800000003fe0.
Definition demo_ps2 : demo_ports := enqueued demo_ps1 demo_h3 demo_port demo_pt demo_node demo_data [1; 2; 3].

Lemma demo_malloc1 : oh_malloc SIZEOF_PORT (ps_heap demo_ps0) = Ret (demo_port, demo_h1).
Proof. apply run_value. vm_compute. reflexivity. Qed.
Lemma demo_malloc2 : oh_malloc SIZEOF_MSG_NODE (ps_heap demo_ps1) = Ret (demo_node, demo_h2).
Proof. apply run_value. vm_compute. reflexivity. Qed.
Lemma demo_malloc3 : oh_malloc (Z.of_nat (length [1; 2; 3])) demo_h2 = Ret (demo_data, demo_h3).
Proof. apply run_value. vm_compute. reflexivity. Qed.

#[local] Opaque demo_heap demo_h1 demo_h2 demo_h3.

Lemma demo_ports0 : ports_inv demo_ps0 ∅ ∅ ∅.
Proof.
  split_and!; [split; try (cbn [demo_ps0 ps_ports]; intros * E; by rewrite lookup_empty in E)| |].
  - exists ∅, (replicate 8 []). split; [exact demo_heap_inv|]. intros b. cbn [demo_ps0 ps_ports ps_msgs ps_bufs].
    rewrite !dom_empty_L. unfold live. split; [intros [[? ?] _]|]; set_solver.
  - cbn [demo_ps0 ps_ports ps_msgs ps_bufs]. rewrite !dom_empty_L. set_solver.
  - cbn [demo_ps0 ps_ports ps_msgs ps_bufs]. rewrite !dom_empty_L. set_solver.
  - intros p. cbn [demo_ps0 ps_ports]. split; intros [? E]; by rewrite lookup_empty in E.
  - split; cbn [demo_ps0 port_table port_table_count ps_ports]; [reflexivity|lia|intros; lia| |intros; lia].
    intros p [? E]. by rewrite lookup_empty in E.
  - intros p q a b. cbn [demo_ps0 ps_ports]. intros E. by rewrite lookup_empty in E.
Qed.

Lemma demo_fresh_tokens : ∀ q pt, ps_ports demo_ps0 !! q = Some pt → pt_token pt ≠ port_token 1 2.
Proof. intros q pt E. cbn [demo_ps0 ps_ports] in E. by rewrite lookup_empty in E. Qed.

Lemma demo_ports1 : ports_inv demo_ps1 ∅ (<[demo_port := []]> ∅) ∅.
Proof.
  destruct demo_ports0 as (Hok & Ht & Hu). assert (0 < SIZEOF_PORT ≤ 2 ^ 40) as Hsz by done.
  destruct (oh_malloc_ok _ _ _ _ _ (po_heap _ _ _ _ Hok) Hsz demo_malloc1) as (Hp0 & HpL & Hr).
  split.
  - by apply (created_ok demo_ps0 ∅ ∅ ∅ demo_h1 demo_port (port_token 1 2) 7000 demo_proc).
  - apply created_table; [exact Ht|exact Hu|exact Hp0|apply lookup_empty|reflexivity|exact demo_fresh_tokens].
Qed.

Lemma demo_pt1 : ps_ports demo_ps1 !! demo_port = Some demo_pt.
Proof. apply lookup_insert_eq. Qed.

Lemma demo_ports2 :
  ports_inv demo_ps2 ∅ (<[demo_port := [demo_node]]> (<[demo_port := []]> ∅)) (<[demo_node := [1; 2; 3]]> ∅).
Proof.
  destruct demo_ports1 as (Hok & Ht & Hu). assert (Z.of_nat (length [1; 2; 3]) ≤ 2 ^ 40) as Hlen by done.
  destruct (forward_alloc _ _ _ _ _ _ _ _ _ Hok Hlen demo_malloc2 demo_malloc3) as (Hn0 & HnL & Hd & Hr). split.
  - apply (enqueued_ok demo_ps1 ∅ _ ∅ demo_port demo_pt []); [exact Hok|exact demo_pt1|apply lookup_insert_eq|done..].
  - apply (table_frame demo_ps1); [done|done| |done|done]. intros q. by apply (insert_token _ _ demo_pt).
Qed.

Lemma port_create_correct_witness : ∃ s', port_create 1 2 demo_ps0 = Ret (demo_port, s').
Proof.
  destruct (port_create_correct demo_ps0 ∅ ∅ ∅ 1 2 demo_port demo_h1 demo_owner demo_proc) as (s' & H1 & _).
  - exact demo_ports0.
  - reflexivity.
  - exact demo_malloc1.
  - reflexivity.
  - reflexivity.
  - eexists. reflexivity.
  - exact demo_fresh_tokens.
  - exists s'. exact H1.
Defined.

Definition demo_ps_full : demo_ports :=
  mkPs demo_heap ∅ ∅ ∅ (replicate 1024 0) 1024 demo_port_sched {[7000 := demo_proc]}.

Lemma demo_full_table : table_ok demo_ps_full.
Proof.
  split; cbn [demo_ps_full port_table port_table_count ps_ports]; [done|done| | |].
  - intros i p [-> _]%lookup_replicate _ Hp. done.
  - intros p [? E]. by rewrite lookup_empty in E.
  - intros i j p [-> _]%lookup_replicate _ Hp. done.
Qed.

Lemma port_create_past_table_witness : port_create 1 2 demo_ps_full = Fault.
Proof.
  apply (port_create_past_table demo_ps_full 1 2 demo_port demo_h1 demo_owner).
  - exact demo_full_table.
  - reflexivity.
  - exact demo_malloc1.
  - reflexivity.
Defined.

Lemma port_lookup_correct_witness : ∃ p, port_lookup 5 demo_ps2 = Ret (p, demo_ps2).
Proof.
  destruct (port_lookup_correct demo_ps2 ∅ (<[demo_port := [demo_node]]> (<[demo_port := []]> ∅))
    (<[demo_node := [1; 2; 3]]> ∅) 5) as (p & H1 & _); [exact demo_ports2|].
  exists p. exact H1.
Defined.

Lemma port_forward_fifo_witness : ∃ s', port_forward (pt_token demo_pt) [1; 2; 3] demo_ps1 = Ret (3, s').
Proof.
  destruct (port_forward_fifo demo_ps1 ∅ (<[demo_port := []]> ∅) ∅ demo_port demo_pt demo_h2 demo_h3
    demo_node demo_data [1; 2; 3]) as (s' & Q' & C' & H1 & _).
  - exact demo_ports1.
  - exact demo_pt1.
  - discriminate.
  - exact demo_malloc2.
  - exact demo_malloc3.
  - exists s'. exact H1.
Defined.

Lemma demo_pt2 : ps_ports demo_ps2 !! demo_port = Some (mkPort (port_token 1 2) demo_node demo_node 7000).
Proof. apply lookup_insert_eq. Qed.

Lemma demo_waiting :
  waiting (<[demo_port := [demo_node]]> (<[demo_port := []]> ∅)) (<[demo_node := [1; 2; 3]]> ∅) demo_port = [[1; 2; 3]].
Proof. reflexivity. Qed.

Lemma port_receive_fifo_witness : ∃ s', port_receive [] (port_token 1 2) 2 demo_ps2 = Ret (Some [1; 2], s').
Proof.
  pose proof (port_receive_fifo demo_ps2 ∅ (<[demo_port := [demo_node]]> (<[demo_port := []]> ∅))
    (<[demo_node := [1; 2; 3]]> ∅) demo_port (mkPort (port_token 1 2) demo_node demo_node 7000) demo_owner 2
    (ret tt) [] demo_ports2 demo_pt2) as Hthm.
  rewrite demo_waiting in Hthm. destruct Hthm as (s' & Q' & H1 & _).
  - discriminate.
  - reflexivity.
  - exists s'. exact H1.
Defined.

Lemma port_destroy_correct_witness : ∃ s', port_destroy demo_port demo_ps2 = Ret (tt, s').
Proof.
  destruct (port_destroy_correct demo_ps2 ∅ (<[demo_port := [demo_node]]> (<[demo_port := []]> ∅))
    (<[demo_node := [1; 2; 3]]> ∅) demo_port (mkPort (port_token 1 2) demo_node demo_node 7000)) as (s' & s1 & H1 & _).
  - exact demo_ports2.
  - exact demo_pt2.
  - exists s'. exact H1.
Defined.
