(* ===== verification/CStr.v ===== *)
(** * C strings and number printing (src/misc/util.c)

    The string routines work on the byte memory of ByteMem.v through pointers.
    The search for a terminator is bounded by the number of bytes that were ever
    written: outside them memory reads as 0, so every string ends within the
    fuel, and the theorems show that no routine runs out of it. *)

From S2P Require Import Prelude ByteMem.

(** A byte as the (signed) char the source compares. *)
Definition schar (b : Z) : Z := if b <? 128 then b else b - 256.

(** The range of an int. *)
Definition fits_int (z : Z) : bool := (- 2147483648 <=? z) && (z <=? 2147483647).

(** Enough for any scan for a zero byte. *)
Definition str_fuel (m : mem) : nat := S (size m).

(** ** strlen, strnlen *)

Fixpoint strlen_loop (fuel : nat) (m : mem) (str len : Z) : outcome Z :=
  match fuel with
  | O => Diverge
  | S f => if load8 m (str + len) =? 0 then Ret len else strlen_loop f m str (len + 1)
  end.

Definition strlen (m : mem) (str : Z) : outcome Z := strlen_loop (str_fuel m) m str 0.

Fixpoint strnlen_loop (fuel : nat) (m : mem) (str maxlen len : Z) : outcome Z :=
  match fuel with
  | O => Diverge
  | S f =>
      if (len <? maxlen) && negb (load8 m (str + len) =? 0)
      then strnlen_loop f m str maxlen (len + 1) else Ret len
  end.

Definition strnlen (m : mem) (str maxlen : Z) : outcome Z := strnlen_loop (str_fuel m) m str maxlen 0.

(** ** strcpy, strncpy *)

(** [while ( *p++ = *src++ );] *)
Fixpoint strcpy_loop (fuel : nat) (m : mem) (p src : Z) : outcome mem :=
  match fuel with
  | O => Diverge
  | S f =>
      let c := load8 m src in
      let m := store8 m p c in
      if c =? 0 then Ret m else strcpy_loop f m (p + 1) (src + 1)
  end.

Definition strcpy (m : mem) (dst src : Z) : outcome mem := strcpy_loop (str_fuel m) m dst src.

(** The two loops of strncpy; [n] is what is left of the count. *)
Fixpoint strncpy_loop (n : nat) (m : mem) (p src : Z) : mem :=
  match n with
  | O => m
  | S n' =>
      if load8 m src =? 0 then memset_loop n m p 0
      else strncpy_loop n' (store8 m p (load8 m src)) (p + 1) (src + 1)
  end.

Definition strncpy (m : mem) (dst src n : Z) : mem := strncpy_loop (Z.to_nat n) m dst src.

(** ** strcmp, strncmp *)

Fixpoint strcmp_loop (fuel : nat) (m : mem) (s1 s2 : Z) : outcome Z :=
  match fuel with
  | O => Diverge
  | S f =>
      if negb (load8 m s1 =? 0) && (load8 m s1 =? load8 m s2)
      then strcmp_loop f m (s1 + 1) (s2 + 1)
      else Ret (load8 m s1 - load8 m s2)
  end.

Definition strcmp (m : mem) (s1 s2 : Z) : outcome Z := strcmp_loop (str_fuel m) m s1 s2.

(** The loop of strncmp with [n] (already tested not to be 0) before the
    decrement. *)
Fixpoint strncmp_loop (n : nat) (m : mem) (s1 s2 : Z) : Z :=
  match n with
  | O => 0
  | S n' =>
      if (0 <? n')%nat && (negb (load8 m s1 =? 0) && (load8 m s1 =? load8 m s2))
      then strncmp_loop n' m (s1 + 1) (s2 + 1)
      else load8 m s1 - load8 m s2
  end.

Definition strncmp (m : mem) (s1 s2 n : Z) : Z :=
  if n =? 0 then 0 else strncmp_loop (Z.to_nat n) m s1 s2.

(** ** strchr, strrchr *)

Fixpoint strchr_loop (fuel : nat) (m : mem) (s ch : Z) : outcome Z :=
  match fuel with
  | O => Diverge
  | S f =>
      if load8 m s =? ch then Ret s
      else if load8 m s =? 0 then Ret 0
      else strchr_loop f m (s + 1) ch
  end.

Definition strchr (m : mem) (s c : Z) : outcome Z := strchr_loop (str_fuel m) m s (u8 c).

Fixpoint strrchr_loop (fuel : nat) (m : mem) (s ch last : Z) : outcome Z :=
  match fuel with
  | O => Diverge
  | S f =>
      let last := if load8 m s =? ch then s else last in
      if load8 m s =? 0 then Ret last else strrchr_loop f m (s + 1) ch last
  end.

Definition strrchr (m : mem) (s c : Z) : outcome Z := strrchr_loop (str_fuel m) m s (u8 c) 0.

(** ** itoa, utoa *)

(** "0123456789abcdef" and its terminator. *)
Definition digits : list Z :=
  [48; 49; 50; 51; 52; 53; 54; 55; 56; 57; 97; 98; 99; 100; 101; 102; 0].

(** The digit loop.  [tmp] holds the characters written so far, the last one
    first, in an array of [cap] bytes. *)
Fixpoint digit_loop (fuel : nat) (cap value base : Z) (tmp : list Z) : outcome (list Z) :=
  if 0 <? value then
    match fuel with
    | O => Diverge
    | S f =>
        if base =? 0 then Fault
        else
          match digits !! Z.to_nat (Z.rem value base) with
          | Some d =>
              if Z.of_nat (length tmp) <? cap
              then digit_loop f cap (Z.quot value base) base (d :: tmp) else Fault
          | None => Fault
          end
    end
  else Ret tmp.

(** [while (i > 0) buf[j++] = tmp[--i]; buf[j] = 0] *)
Fixpoint put_string (m : mem) (buf : Z) (tmp : list Z) : mem :=
  match tmp with
  | [] => store8 m buf 0
  | c :: tmp' => put_string (store8 m buf c) (buf + 1) tmp'
  end.

(** The characters utoa puts into the buffer; [base] is converted to uint64_t. *)
Definition utoa_chars (value base : Z) : outcome (list Z) :=
  if value =? 0 then Ret [48] else digit_loop 65 64 value (u64 base) [].

Definition utoa (m : mem) (value buf base : Z) : outcome mem :=
  tmp <~ utoa_chars value base ;; Ret (put_string m buf tmp).

(** itoa on ints; negating INT_MIN is a signed overflow. *)
Definition itoa_chars (value base : Z) : outcome (list Z) :=
  if value =? 0 then Ret [48]
  else
    let neg := (value <? 0) && (base =? 10) in
    if neg && (value =? - 2147483648) then Fault
    else
      let value := if neg then - value else value in
      tmp <~ digit_loop 33 32 value base [] ;;
      if neg then if Z.of_nat (length tmp) <? 32 then Ret (45 :: tmp) else Fault
      else Ret tmp.

Definition itoa (m : mem) (value buf base : Z) : outcome mem :=
  tmp <~ itoa_chars value base ;; Ret (put_string m buf tmp).

(** ** Strings in memory *)

(** [s] is the string at [p]: its bytes are not zero and a zero follows. *)
Fixpoint cstr (m : mem) (p : Z) (s : list Z) : Prop :=
  match s with
  | [] => load8 m p = 0
  | c :: s' => load8 m p = c ∧ c ≠ 0 ∧ cstr m (p + 1) s'
  end.

Lemma cstr_unique m s : ∀ p s', cstr m p s → cstr m p s' → s = s'.
Proof.
  induction s as [|c s IH]; intros p [|c' s'] H H'; simpl in *; [done|intuition congruence..|].
  destruct H as (Hc & Hc0 & Hs), H' as (Hc' & _ & Hs'). f_equal; [congruence|by eapply IH].
Qed.

Lemma cstr_lookup m s : ∀ p i c, cstr m p s → (s ++ [0]) !! i = Some c → load8 m (p + Z.of_nat i) = c.
Proof.
  induction s as [|x s IH]; intros p i c H Hi; simpl in H.
  - destruct i as [|[|]]; [|done..]. injection Hi as <-. by rewrite Z.add_0_r.
  - destruct H as (Hx & _ & Hs). destruct i as [|i]; [injection Hi as <-; by rewrite Z.add_0_r|].
    rewrite <- (IH (p + 1) i c Hs Hi). f_equal. lia.
Qed.

Lemma cstr_bytes m s p c : cstr m p s → c ∈ s → 0 < c < W8.
Proof.
  revert p. induction s as [|x s IH]; intros p H Hc; [by apply not_elem_of_nil in Hc|].
  destruct H as (Hx & Hx0 & Hs). apply elem_of_cons in Hc as [->|Hc]; [|by eapply IH].
  pose proof (load8_range m p). lia.
Qed.

(** The string at [p] when its bytes are known one by one. *)
Lemma cstr_intro m s : ∀ p,
  (∀ c, c ∈ s → c ≠ 0) → (∀ i c, (s ++ [0]) !! i = Some c → load8 m (p + Z.of_nat i) = c) → cstr m p s.
Proof.
  induction s as [|x s IH]; intros p Hnz H; simpl.
  - rewrite <- (H 0%nat 0 eq_refl). f_equal. lia.
  - split; [rewrite <- (H 0%nat x eq_refl); f_equal; lia|]. split; [apply Hnz; left|].
    apply IH; [intros c Hc; apply Hnz; by right|]. intros i c Hi. rewrite <- (H (S i) c Hi). f_equal. lia.
Qed.

Lemma nonzero_bytes_bound m p (k : nat) :
  (∀ i, 0 ≤ i < Z.of_nat k → load8 m (p + i) ≠ 0) → (k ≤ size m)%nat.
Proof.
  intros H. rewrite <- size_dom. set (D := list_to_set ((λ i, p + i) <$> seqZ 0 (Z.of_nat k)) : gset Z).
  assert (size D = k) as E.
  { unfold D. rewrite size_list_to_set; [rewrite length_fmap, length_seqZ; lia|].
    apply NoDup_fmap; [intros ? ? ?; lia|apply NoDup_seqZ]. }
  rewrite <- E. apply subseteq_size. intros a Ha. apply elem_of_list_to_set, list_elem_of_fmap in Ha as (i & -> & Hi%elem_of_seqZ).
  apply elem_of_dom. destruct (m !! (p + i)) eqn:E'; [eauto|]. exfalso. apply (H i ltac:(lia)). unfold load8. by rewrite E'.
Qed.

(** Every pointer is to a string, no longer than the memory that was written. *)
Lemma cstr_total m p : ∃ s, cstr m p s ∧ (length s ≤ size m)%nat.
Proof.
  assert (∀ k, (∃ s, cstr m p s ∧ (length s < k)%nat) ∨ (∀ i, 0 ≤ i < Z.of_nat k → load8 m (p + i) ≠ 0)) as H.
  { induction k as [|k IH]; [right; lia|]. destruct IH as [(s & Hs & Hk)|IH]; [left; exists s; eauto with lia|].
    destruct (Z.eq_dec (load8 m (p + Z.of_nat k)) 0) as [E|E].
    2:{ right. intros i Hi. destruct (decide (i = Z.of_nat k)) as [->|]; [done|apply IH; lia]. }
    left. exists ((λ i, load8 m (p + i)) <$> seqZ 0 (Z.of_nat k)). split; [|rewrite length_fmap, length_seqZ; lia].
    apply cstr_intro.
    - intros c (i & -> & Hi%elem_of_seqZ)%list_elem_of_fmap. apply IH. lia.
    - intros i c [Hi|[Hlen Hi]]%lookup_app_Some.
      + apply list_lookup_fmap_Some in Hi as (j & -> & [-> Hj]%lookup_seqZ). f_equal. 
      + rewrite length_fmap, length_seqZ in Hlen, Hi. destruct (i - Z.to_nat (Z.of_nat k))%nat eqn:Ei; [|done].
        injection Hi as <-. rewrite <- E. f_equal. lia. }
  destruct (H (S (size m))) as [(s & Hs & Hl)|Hall]; [exists s; split; [done|lia]|].
  pose proof (nonzero_bytes_bound m p _ Hall). lia.
Qed.

Lemma cstr_fuel m p s : cstr m p s → (length s < str_fuel m)%nat.
Proof. intros H. destruct (cstr_total m p) as (s' & H' & Hl). rewrite (cstr_unique _ _ _ _ H H'). unfold str_fuel. lia. Qed.

(** ** The string routines *)

Lemma strlen_loop_spec m str s : ∀ fuel len,
  cstr m (str + len) s → (length s < fuel)%nat → strlen_loop fuel m str len = Ret (len + Z.of_nat (length s)).
Proof.
  induction s as [|c s IH]; intros [|fuel] len H Hf; simpl in *; try lia.
  - rewrite H. simpl. f_equal. lia.
  - destruct H as (-> & Hc & Hs). destruct (Z.eqb_spec c 0); [done|].
    rewrite IH; [f_equal; lia|by rewrite Z.add_assoc|lia].
Qed.

Lemma strlen_spec m p s : cstr m p s → strlen m p = Ret (Z.of_nat (length s)).
Proof. intros H. unfold strlen. rewrite (strlen_loop_spec m p s); [done|by rewrite Z.add_0_r|by eapply cstr_fuel]. Qed.

Lemma strnlen_loop_spec m str maxlen s : ∀ fuel len,
  cstr m (str + len) s → (length s < fuel)%nat → len ≤ maxlen →
  strnlen_loop fuel m str maxlen len = Ret (Z.min maxlen (len + Z.of_nat (length s))).
Proof.
  induction s as [|c s IH]; intros [|fuel] len H Hf Hl; simpl in *; try lia.
  - rewrite H, andb_false_r. f_equal. lia.
  - destruct H as (-> & Hc & Hs). destruct (Z.eqb_spec c 0); [done|].
    destruct (Z.ltb_spec len maxlen); simpl; [|f_equal; lia].
    rewrite IH; [f_equal; lia|by rewrite Z.add_assoc|lia|lia].
Qed.

(** The difference strcmp computes, on the strings themselves. *)
Fixpoint str_diff (a b : list Z) : Z :=
  match a, b with
  | [], [] => 0
  | [], d :: _ => - d
  | c :: _, [] => c
  | c :: a', d :: b' => if c =? d then str_diff a' b' else c - d
  end.

Lemma strcmp_loop_spec m a : ∀ fuel b s1 s2,
  cstr m s1 a → cstr m s2 b → (length a < fuel)%nat → strcmp_loop fuel m s1 s2 = Ret (str_diff a b).
Proof.
  induction a as [|c a IH]; intros [|fuel] b s1 s2 H1 H2 Hf; simpl in *; try lia.
  - rewrite H1. simpl. destruct b as [|d b]; simpl in H2; [by rewrite H2|]. by destruct H2 as (-> & _).
  - destruct H1 as (-> & Hc & Ha). destruct (Z.eqb_spec c 0); [done|]. simpl.
    destruct b as [|d b]; simpl in H2.
    { rewrite H2. destruct (Z.eqb_spec c 0); [done|]. f_equal. lia. }
    destruct H2 as (-> & Hd & Hb). destruct (Z.eqb_spec c d); [|done]. apply IH; [done|done|lia].
Qed.

Lemma strcmp_spec m s1 s2 a b : cstr m s1 a → cstr m s2 b → strcmp m s1 s2 = Ret (str_diff a b).
Proof. intros H1 H2. eapply strcmp_loop_spec; eauto. by eapply cstr_fuel. Qed.

Lemma strncmp_loop_spec m n : ∀ a b s1 s2,
  cstr m s1 a → cstr m s2 b → (0 < n)%nat → strncmp_loop n m s1 s2 = str_diff (take n a) (take n b).
Proof.
  induction n as [|n IH]; intros a b s1 s2 H1 H2 Hn; [lia|]. simpl.
  destruct a as [|c a]; simpl in H1.
  { rewrite H1, andb_false_r. simpl. destruct b as [|d b]; simpl in H2; [by rewrite H2|]. by destruct H2 as (-> & _). }
  destruct H1 as (-> & Hc & Ha). destruct b as [|d b]; simpl in H2 |- *.
  { rewrite H2. destruct (Z.eqb_spec c 0); [done|]. simpl. rewrite andb_false_r. lia. }
  destruct H2 as (-> & Hd & Hb). destruct (Z.eqb_spec c 0); [done|]. simpl.
  destruct (Z.eqb_spec c d) as [->|]; [|by rewrite andb_false_r]. rewrite andb_true_r.
  destruct (Nat.ltb_spec 0 n) as [Hlt|Hge]; [by apply IH|].
  destruct n; [|lia]. simpl. lia.
Qed.

Lemma strncmp_spec m s1 s2 n a b :
  cstr m s1 a → cstr m s2 b → 0 ≤ n → strncmp m s1 s2 n = str_diff (take (Z.to_nat n) a) (take (Z.to_nat n) b).
Proof.
  intros H1 H2 Hn. unfold strncmp. destruct (Z.eqb_spec n 0) as [->|]; [done|]. apply strncmp_loop_spec; [done|done|lia].
Qed.

(** 0 exactly for equal strings. *)
Lemma str_diff_zero a : ∀ b, (∀ c, c ∈ a ++ b → 0 < c) → str_diff a b = 0 ↔ a = b.
Proof.
  induction a as [|c a IH]; intros [|d b] Hpos; simpl.
  - done.
  - pose proof (Hpos d ltac:(simpl; left)). split; [lia|done].
  - pose proof (Hpos c ltac:(simpl; left)). split; [lia|done].
  - destruct (Z.eqb_spec c d) as [->|Hne].
    + rewrite IH; [|intros x Hx; apply Hpos; apply elem_of_app in Hx as [?|?]; simpl; rewrite ?elem_of_cons, ?elem_of_app, ?elem_of_cons; tauto].
      split; [by intros ->|by intros [= ->]].
    + split; [lia|by intros [= -> _]].
Qed.

(** Negative exactly when the first difference is smaller on the left. *)
Lemma str_diff_neg a : ∀ b, (∀ c, c ∈ a ++ b → 0 < c) →
  str_diff a b < 0 ↔ ∃ k, take k a = take k b ∧ default 0 (a !! k) < default 0 (b !! k).
Proof.
  induction a as [|c a IH]; intros [|d b] Hpos; simpl.
  - split; [lia|]. intros (k & _ & Hk). destruct k; simpl in Hk; lia.
  - pose proof (Hpos d ltac:(simpl; left)). split; [intros _; exists 0%nat; simpl; split; [done|lia]|lia].
  - pose proof (Hpos c ltac:(simpl; left)). split; [lia|]. intros ([|k] & Ht & Hk); simpl in *; [lia|done].
  - destruct (Z.eqb_spec c d) as [->|Hne].
    + rewrite IH; [|intros x Hx; apply Hpos; apply elem_of_app in Hx as [?|?]; simpl; rewrite ?elem_of_cons, ?elem_of_app, ?elem_of_cons; tauto].
      split; intros (k & Ht & Hk); [exists (S k); simpl; split; [by f_equal|done]|].
      destruct k as [|k]; simpl in *; [lia|]. exists k. split; [congruence|done].
    + split; [intros Hlt; exists 0%nat; simpl; split; [done|lia]|].
      intros ([|k] & Ht & Hk); simpl in *; [lia|congruence].
Qed.

(** The position of the first byte equal to [ch], the terminator included. *)
Fixpoint first_index (ch : Z) (l : list Z) : option nat :=
  match l with
  | [] => None
  | c :: l' => if c =? ch then Some O else S <$> first_index ch l'
  end.

Lemma first_index_Some ch l i :
  first_index ch l = Some i ↔ l !! i = Some ch ∧ ∀ j, (j < i)%nat → l !! j ≠ Some ch.
Proof.
  revert i. induction l as [|c l IH]; intros i; simpl; [split; [done|by intros [? _]]|].
  destruct (Z.eqb_spec c ch) as [->|Hne].
  - split; [intros [= <-]; split; [done|lia]|]. intros [Hi Hmin]. destruct i; [done|].
    by destruct (Hmin O ltac:(lia)).
  - rewrite fmap_Some. split.
    + intros (k & [Hk Hmin]%IH & ->). split; [done|]. intros [|j] Hj; simpl; [congruence|apply Hmin; lia].
    + intros [Hi Hmin]. destruct i as [|i]; [simpl in Hi; congruence|]. exists i. split; [|done]. apply IH.
      split; [done|]. intros j Hj. apply (Hmin (S j)). lia.
Qed.

Lemma first_index_None ch l : first_index ch l = None ↔ ch ∉ l.
Proof.
  induction l as [|c l IH]; simpl; [split; [intros _; apply not_elem_of_nil|done]|].
  rewrite not_elem_of_cons. destruct (Z.eqb_spec c ch) as [->|Hne]; [naive_solver|].
  rewrite fmap_None, IH. naive_solver.
Qed.

Lemma strchr_loop_spec m ch s : ∀ fuel p,
  cstr m p s → (length s < fuel)%nat →
  strchr_loop fuel m p ch =
    Ret (match first_index ch (s ++ [0]) with Some i => p + Z.of_nat i | None => 0 end).
Proof.
  induction s as [|c s IH]; intros [|fuel] p H Hf; cbn [strchr_loop app first_index length cstr] in *; try lia.
  - rewrite H. destruct (0 =? ch); simpl; [f_equal; lia|done].
  - destruct H as (-> & Hc & Hs). destruct (Z.eqb_spec c ch); [f_equal; lia|].
    destruct (Z.eqb_spec c 0); [done|]. rewrite IH by (done || lia).
    destruct (first_index ch (s ++ [0])); simpl; f_equal. lia.
Qed.

Lemma strchr_spec m p c s : cstr m p s →
  strchr m p c = Ret (match first_index (u8 c) (s ++ [0]) with Some i => p + Z.of_nat i | None => 0 end).
Proof. intros H. apply strchr_loop_spec; [done|by eapply cstr_fuel]. Qed.

(** Of several occurrences strrchr keeps the last. *)
Fixpoint last_index (ch : Z) (l : list Z) : option nat :=
  match l with
  | [] => None
  | c :: l' =>
      match last_index ch l' with
      | Some i => Some (S i)
      | None => if c =? ch then Some O else None
      end
  end.

Lemma strrchr_loop_spec m ch s : ∀ fuel p last,
  cstr m p s → (length s < fuel)%nat →
  strrchr_loop fuel m p ch last =
    Ret (match last_index ch (s ++ [0]) with Some i => p + Z.of_nat i | None => last end).
Proof.
  induction s as [|c s IH]; intros [|fuel] p last H Hf; cbn [strrchr_loop app last_index length cstr] in *; try lia.
  - rewrite H. destruct (0 =? ch); simpl; [f_equal; lia|done].
  - destruct H as (-> & Hc & Hs). destruct (Z.eqb_spec c 0); [done|]. rewrite IH by (done || lia).
    destruct (last_index ch (s ++ [0])); [f_equal; lia|]. destruct (c =? ch); f_equal. lia.
Qed.

Lemma strrchr_spec m p c s : cstr m p s →
  strrchr m p c = Ret (match last_index (u8 c) (s ++ [0]) with Some i => p + Z.of_nat i | None => 0 end).
Proof. intros H. apply strrchr_loop_spec; [done|by eapply cstr_fuel]. Qed.

Lemma last_index_None ch l : last_index ch l = None ↔ ch ∉ l.
Proof.
  induction l as [|c l IH]; simpl; [split; [intros _; apply not_elem_of_nil|done]|].
  rewrite not_elem_of_cons. destruct (last_index ch l); [naive_solver|]. destruct (Z.eqb_spec c ch); naive_solver.
Qed.

Lemma last_index_Some ch l i :
  last_index ch l = Some i → l !! i = Some ch ∧ ∀ j, (i < j)%nat → l !! j ≠ Some ch.
Proof.
  revert i. induction l as [|c l IH]; intros i; simpl; [done|].
  destruct (last_index ch l) as [k|] eqn:E.
  - intros [= <-]. destruct (IH k eq_refl) as [Hk Hmax]. split; [done|]. intros [|j] Hj; [lia|]. apply Hmax. lia.
  - destruct (Z.eqb_spec c ch) as [->|]; [|done]. intros [= <-]. split; [done|].
    intros [|j] Hj; [lia|]. simpl. intros Hin. apply last_index_None in E. by apply E, list_elem_of_lookup_2 with j.
Qed.

(** Putting a string into memory. *)
Lemma load8_put_string m buf tmp a : (∀ c, c ∈ tmp → 0 ≤ c < W8) →
  load8 (put_string m buf tmp) a =
    if decide (buf ≤ a ≤ buf + Z.of_nat (length tmp))
    then default 0 ((tmp ++ [0]) !! Z.to_nat (a - buf)) else load8 m a.
Proof.
  revert m buf. induction tmp as [|c tmp IH]; intros m buf Hb; simpl put_string.
  - rewrite load8_store8. cbn [length]. repeat case_decide; try lia.
    replace (a - buf) with 0 by lia. done.
  - rewrite IH by (intros x Hx; apply Hb; by right). rewrite load8_store8. cbn [length app].
    pose proof (Hb c ltac:(left)). repeat case_decide; try lia.
    + by replace (Z.to_nat (a - buf)) with (S (Z.to_nat (a - (buf + 1)))) by lia.
    + replace (a - buf) with 0 by lia. by apply u8_small.
Qed.

Lemma put_string_frame m buf tmp a :
  ¬ buf ≤ a ≤ buf + Z.of_nat (length tmp) → load8 (put_string m buf tmp) a = load8 m a.
Proof.
  revert m buf. induction tmp as [|c tmp IH]; intros m buf Ha; cbn [put_string length] in *.
  - rewrite load8_store8. by rewrite decide_False by lia.
  - rewrite IH by lia. rewrite load8_store8. by rewrite decide_False by lia.
Qed.

Lemma put_string_end m buf tmp : load8 (put_string m buf tmp) (buf + Z.of_nat (length tmp)) = 0.
Proof.
  revert m buf. induction tmp as [|c tmp IH]; intros m buf; cbn [put_string length].
  - rewrite load8_store8. by rewrite decide_True by lia.
  - rewrite <- (IH (store8 m buf c) (buf + 1)). f_equal. lia.
Qed.

Lemma put_string_cstr m buf tmp : (∀ c, c ∈ tmp → 0 < c < W8) → cstr (put_string m buf tmp) buf tmp.
Proof.
  intros Hb. apply cstr_intro; [intros c Hc; pose proof (Hb c Hc); lia|]. intros i c Hi.
  rewrite load8_put_string by (intros x Hx; pose proof (Hb x Hx); lia).
  pose proof (lookup_lt_Some _ _ _ Hi) as Hl. rewrite length_app in Hl. simpl in Hl.
  rewrite decide_True by lia. replace (Z.to_nat (buf + Z.of_nat i - buf)) with i by lia. by rewrite Hi.
Qed.

(** strcpy to a buffer that does not overlap the source. *)
Lemma cstr_frame m m' s : ∀ p,
  (∀ i, 0 ≤ i ≤ Z.of_nat (length s) → load8 m' (p + i) = load8 m (p + i)) → cstr m p s → cstr m' p s.
Proof.
  induction s as [|c s IH]; intros p Hf H; simpl in *.
  - rewrite <- H, <- (Z.add_0_r p). apply Hf. lia.
  - destruct H as (Hc & Hc0 & Hs). split_and!; [|done|].
    + rewrite <- Hc, <- (Z.add_0_r p). apply Hf. lia.
    + apply IH; [|done]. intros i Hi. rewrite <- !Z.add_assoc. apply Hf. lia.
Qed.

Lemma strcpy_loop_spec s : ∀ fuel m dst src,
  cstr m src s → (length s < fuel)%nat →
  (dst + Z.of_nat (length s) < src ∨ src + Z.of_nat (length s) < dst) →
  strcpy_loop fuel m dst src = Ret (put_string m dst s).
Proof.
  induction s as [|c s IH]; intros [|fuel] m dst src H Hf Hd; simpl in *; try lia.
  - by rewrite H.
  - destruct H as (-> & Hc & Hs). destruct (Z.eqb_spec c 0); [done|]. apply IH; [|lia|lia].
    eapply cstr_frame; [|exact Hs]. intros i Hi. rewrite load8_store8.
    by rewrite decide_False by lia.
Qed.

Lemma strncpy_loop_spec n : ∀ m dst src s,
  cstr m src s → (dst + Z.of_nat n ≤ src ∨ src + Z.of_nat (length s) < dst) →
  ∀ a, load8 (strncpy_loop n m dst src) a =
    if decide (dst ≤ a < dst + Z.of_nat n) then default 0 (s !! Z.to_nat (a - dst)) else load8 m a.
Proof.
  induction n as [|n IH]; intros m dst src s H Hd a.
  - simpl. by rewrite decide_False by lia.
  - cbn [strncpy_loop]. destruct s as [|c s].
    + cbn in H. rewrite H. cbn [Z.eqb]. rewrite load8_memset_loop. by case_decide.
    + pose proof (cstr_bytes _ _ _ c H ltac:(left)) as Hcb. destruct H as (-> & Hc & Hs).
      destruct (Z.eqb_spec c 0); [done|]. cbn [length] in Hd. rewrite (IH _ _ _ s); [|eapply cstr_frame; [|exact Hs]|lia].
      * rewrite load8_store8. repeat case_decide; try lia.
        -- by replace (Z.to_nat (a - dst)) with (S (Z.to_nat (a - (dst + 1)))) by lia.
        -- replace (a - dst) with 0 by lia. change (u8 c = c). apply u8_small. lia.
      * intros i Hi. rewrite load8_store8. rewrite decide_False; [done|]. lia.
Qed.

(** ** Number printing *)

(** The value of a string of digits, most significant first. *)
Definition digit_value (c : Z) : Z := if c <? 58 then c - 48 else c - 87.
Definition num_value (base : Z) (s : list Z) : Z := foldl (λ v c, v * base + digit_value c) 0 s.

(** The characters of base [base]. *)
Definition is_digit (base c : Z) : Prop :=
  (48 ≤ c < 58 ∨ 97 ≤ c < 103) ∧ 0 ≤ digit_value c < base.

Lemma digits_lookup d : 0 ≤ d < 16 →
  ∃ c, digits !! Z.to_nat d = Some c ∧ digit_value c = d ∧ (48 ≤ c < 58 ∨ 97 ≤ c < 103).
Proof.
  intros Hd.
  assert (d = 0 ∨ d = 1 ∨ d = 2 ∨ d = 3 ∨ d = 4 ∨ d = 5 ∨ d = 6 ∨ d = 7 ∨ d = 8 ∨ d = 9 ∨ d = 10 ∨ d = 11 ∨
    d = 12 ∨ d = 13 ∨ d = 14 ∨ d = 15) as Hc by lia.
  repeat destruct Hc as [->|Hc]; [..|subst d]; eexists; (split; [reflexivity|split; [reflexivity|lia]]).
Qed.

Lemma digit_loop_zero fuel cap base tmp : digit_loop fuel cap 0 base tmp = Ret tmp.
Proof. by destruct fuel. Qed.

(** The digit loop: total while the array has room, and the value is kept. *)
Lemma digit_loop_spec (k : nat) : ∀ fuel cap base v tmp,
  2 ≤ base ≤ 16 → 0 ≤ v < base ^ Z.of_nat k → (k < fuel)%nat → Z.of_nat (length tmp) + Z.of_nat k ≤ cap →
  ∃ pre, digit_loop fuel cap v base tmp = Ret (pre ++ tmp) ∧ (length pre ≤ k)%nat ∧
    Forall (is_digit base) pre ∧ num_value base pre = v ∧ (0 < v → ∃ c pre', pre = c :: pre' ∧ c ≠ 48).
Proof.
  induction k as [|k IH]; intros fuel cap base v tmp Hb Hv Hf Hcap.
  { change (base ^ Z.of_nat 0) with 1 in Hv. assert (v = 0) as -> by lia. exists [].
    destruct fuel; (split_and!; [done|done|constructor|done|lia]). }
  destruct fuel as [|fuel]; [lia|]. cbn [digit_loop]. destruct (Z.ltb_spec 0 v) as [Hpos|Hz].
  2:{ exists []. split_and!; [done|simpl; lia|constructor|unfold num_value; simpl; lia|lia]. }
  destruct (Z.eqb_spec base 0); [lia|]. rewrite Z.rem_mod_nonneg, Z.quot_div_nonneg by lia.
  pose proof (Z.mod_pos_bound v base ltac:(lia)) as Hm.
  destruct (digits_lookup (v mod base) ltac:(lia)) as (c & -> & Hcv & Hcr).
  destruct (Z.ltb_spec (Z.of_nat (length tmp)) cap); [|lia].
  assert (0 ≤ v / base < base ^ Z.of_nat k) as Hq.
  { rewrite Nat2Z.inj_succ, Z.pow_succ_r in Hv by lia. split; [apply Z.div_pos; lia|].
    apply Z.div_lt_upper_bound; lia. }
  destruct (IH fuel cap base (v / base) (c :: tmp)) as (pre & Hrun & Hlen & Hdig & Hval & Hlead);
    [done|done|lia|cbn [length]; lia|].
  exists (pre ++ [c]). split_and!.
  - rewrite Hrun. by rewrite <- app_assoc.
  - rewrite length_app. cbn [length]. lia.
  - apply Forall_app. split; [done|]. apply Forall_singleton. split; [done|lia].
  - unfold num_value in *. rewrite foldl_snoc, Hval, Hcv. pose proof (Z.div_mod v base ltac:(lia)). lia.
  - intros _. destruct (decide (0 < v / base)) as [Hp|Hp].
    + destruct (Hlead Hp) as (c' & pre' & -> & Hc'). by exists c', (pre' ++ [c]).
    + assert (v / base = 0) as E by lia. rewrite E in Hrun, Hval.
      assert (pre = []) as ->.
      { rewrite digit_loop_zero in Hrun. injection Hrun as Hrun. apply (f_equal length) in Hrun.
        rewrite length_app in Hrun. destruct pre; [done|]. cbn [length] in Hrun. lia. }
      exists c, []. split; [done|]. intros ->. pose proof (Z.div_mod v base ltac:(lia)).
      unfold digit_value in Hcv. simpl in Hcv. lia.
Qed.

(** The characters utoa produces for a number below [base ^ k]. *)
Lemma utoa_chars_below (k : nat) v base :
  2 ≤ base ≤ 16 → 0 ≤ v < base ^ Z.of_nat k → (1 ≤ k ≤ 64)%nat →
  ∃ s, utoa_chars v base = Ret s ∧ (1 ≤ length s ≤ k)%nat ∧ Forall (is_digit base) s ∧
    num_value base s = v ∧ (0 < v → ∃ c s', s = c :: s' ∧ c ≠ 48) ∧ (v = 0 → s = [48]).
Proof.
  intros Hb Hv Hk. unfold utoa_chars. destruct (Z.eqb_spec v 0) as [->|Hne].
  { exists [48]. split_and!; [done|simpl; lia|simpl; lia| |done|lia|done]. apply Forall_singleton.
    unfold is_digit, digit_value. simpl. lia. }
  rewrite u64_small by lia. destruct (digit_loop_spec k 65 64 base v [] Hb Hv) as (pre & Hrun & Hlen & Hdig & Hval & Hlead);
    [lia|simpl; lia|].
  rewrite app_nil_r in Hrun. exists pre. split_and!; try done.
  destruct (Hlead ltac:(lia)) as (? & ? & -> & _). cbn [length]. lia.
Qed.

(** Every 64-bit number has at most 64 digits. *)
Lemma utoa_chars_spec v base :
  2 ≤ base ≤ 16 → 0 ≤ v < W64 →
  ∃ s, utoa_chars v base = Ret s ∧ (1 ≤ length s ≤ 64)%nat ∧ Forall (is_digit base) s ∧
    num_value base s = v ∧ (0 < v → ∃ c s', s = c :: s' ∧ c ≠ 48) ∧ (v = 0 → s = [48]).
Proof.
  intros Hb Hv. apply (utoa_chars_below 64); [done| |lia].
  split; [lia|]. apply Z.lt_le_trans with (2 ^ Z.of_nat 64); [lia|]. apply Z.pow_le_mono_l. lia.
Qed.

Lemma is_digit_byte base c : is_digit base c → 0 < c < W8.
Proof. intros [? _]. lia. Qed.

(** The characters itoa produces in base 10. *)
Lemma itoa_chars_spec v :
  - 2147483648 < v < 2147483648 →
  ∃ s, itoa_chars v 10 = Ret (if v <? 0 then 45 :: s else s) ∧ (1 ≤ length s ≤ 10)%nat ∧
    Forall (is_digit 10) s ∧ num_value 10 s = Z.abs v.
Proof.
  intros Hv. unfold itoa_chars. destruct (Z.eqb_spec v 0) as [->|Hne].
  { exists [48]. split_and!; [done|simpl; lia|simpl; lia| |done]. apply Forall_singleton.
    unfold is_digit, digit_value. simpl. lia. }
  rewrite Z.eqb_refl, andb_true_r. destruct (Z.eqb_spec v (- 2147483648)); [lia|]. rewrite andb_false_r.
  cbv zeta. assert ((if v <? 0 then - v else v) = Z.abs v) as -> by (destruct (Z.ltb_spec v 0); lia).
  destruct (digit_loop_spec 10 33 32 10 (Z.abs v) []) as (pre & Hrun & Hlen & Hdig & Hval & Hlead);
    [lia|change (10 ^ Z.of_nat 10) with 10000000000; lia|lia|simpl; lia|].
  rewrite app_nil_r in Hrun. exists pre. rewrite Hrun. cbn [obind]. split_and!.
  - destruct (v <? 0); [|done]. destruct (Z.ltb_spec (Z.of_nat (length pre)) 32); [done|lia].
  - destruct (Hlead ltac:(lia)) as (? & ? & -> & _). cbn [length]. lia.
  - lia.
  - done.
  - done.
Qed.

(** ** The properties *)

(** On every memory and every pointer the scans end: strlen and strnlen give
    the length of the string (cut at the maximum), strchr the first and strrchr
    the last occurrence of the character, the terminator included, and NULL when
    there is none. *)
Theorem string_scans_correct (m : mem) (p c maxlen : Z) :
  0 ≤ maxlen →
  ∃ s, cstr m p s ∧ strlen m p = Ret (Z.of_nat (length s)) ∧
    strnlen m p maxlen = Ret (Z.min maxlen (Z.of_nat (length s))) ∧
    (strchr m p c = Ret 0 ∧ u8 c ∉ s ++ [0] ∨
     ∃ i, strchr m p c = Ret (p + Z.of_nat i) ∧ (s ++ [0]) !! i = Some (u8 c) ∧
       ∀ j, (j < i)%nat → (s ++ [0]) !! j ≠ Some (u8 c)) ∧
    (strrchr m p c = Ret 0 ∧ u8 c ∉ s ++ [0] ∨
     ∃ i, strrchr m p c = Ret (p + Z.of_nat i) ∧ (s ++ [0]) !! i = Some (u8 c) ∧
       ∀ j, (i < j)%nat → (s ++ [0]) !! j ≠ Some (u8 c)).
Proof.
  intros Hmax. destruct (cstr_total m p) as (s & Hs & Hl). exists s. split_and!.
  - done.
  - by apply strlen_spec.
  - unfold strnlen. rewrite (strnlen_loop_spec m p maxlen s); [done|by rewrite Z.add_0_r|by eapply cstr_fuel|done].
  - rewrite (strchr_spec m p c s Hs). destruct (first_index (u8 c) (s ++ [0])) as [i|] eqn:E.
    + right. exists i. split; [done|]. by apply first_index_Some.
    + left. split; [done|]. by apply first_index_None.
  - rewrite (strrchr_spec m p c s Hs). destruct (last_index (u8 c) (s ++ [0])) as [i|] eqn:E.
    + right. exists i. split; [done|]. by apply last_index_Some.
    + left. split; [done|]. by apply last_index_None.
Qed.

(** "a/b/c" *)
Definition demo_path : mem := put_string ∅ 100 [97; 47; 98; 47; 99].

Lemma string_scans_correct_witness :
  strlen demo_path 100 = Ret 5 ∧ strchr demo_path 100 47 = Ret 101 ∧ strrchr demo_path 100 47 = Ret 103 ∧
  ∃ s, cstr demo_path 100 s ∧ strnlen demo_path 100 3 = Ret (Z.min 3 (Z.of_nat (length s))).
Proof.
  split; [reflexivity|]. split; [reflexivity|]. split; [reflexivity|].
  destruct (string_scans_correct demo_path 100 47 3) as (s & H1 & _ & H2 & _); [discriminate|].
  exists s. split; [exact H1|exact H2].
Defined.

(** strcmp returns 0 exactly for equal strings and a negative number exactly
    when the first differing byte is the smaller one on the left; strncmp does the
    same with the first [n] bytes of each. *)
Theorem strcmp_correct (m : mem) (s1 s2 n : Z) (a b : list Z) :
  cstr m s1 a → cstr m s2 b → 0 ≤ n →
  ∃ r, strcmp m s1 s2 = Ret r ∧ (r = 0 ↔ a = b) ∧
    (r < 0 ↔ ∃ k, take k a = take k b ∧ default 0 (a !! k) < default 0 (b !! k)) ∧
    (strncmp m s1 s2 n = 0 ↔ take (Z.to_nat n) a = take (Z.to_nat n) b).
Proof.
  intros Ha Hb Hn. exists (str_diff a b).
  assert (∀ c, c ∈ a ++ b → 0 < c) as Hpos.
  { intros c [Hc|Hc]%elem_of_app; [by eapply cstr_bytes in Hc as [? _]|]. by eapply cstr_bytes in Hc as [? _]. }
  split_and!.
  - by apply strcmp_spec.
  - by apply str_diff_zero.
  - by apply str_diff_neg.
  - rewrite (strncmp_spec m s1 s2 n a b Ha Hb Hn). apply str_diff_zero.
    intros c [Hc|Hc]%elem_of_app; apply Hpos, elem_of_app; [left|right]; by eapply elem_of_take in Hc as (? & ?%list_elem_of_lookup_2 & _).
Qed.

Lemma strcmp_correct_witness :
  ∃ r, strcmp (put_string demo_path 200 [97; 47; 99]) 100 200 = Ret r ∧ (r = 0 ↔ [97; 47; 98; 47; 99] = [97; 47; 99]).
Proof.
  destruct (strcmp_correct (put_string demo_path 200 [97; 47; 99]) 100 200 2 [97; 47; 98; 47; 99] [97; 47; 99])
    as (r & H1 & H2 & _).
  - repeat (split; [reflexivity|]; split; [discriminate|]). reflexivity.
  - repeat (split; [reflexivity|]; split; [discriminate|]). reflexivity.
  - discriminate.
  - exists r. split; [exact H1|exact H2].
Defined.

(** strcpy and strncpy into a buffer that does not overlap the source:
    strcpy makes the destination the same string and changes no byte outside it;
    strncpy writes exactly [n] bytes, the string cut at [n] or filled with zeros. *)
Theorem strcpy_correct (m : mem) (dst src n : Z) (s : list Z) :
  cstr m src s → 0 ≤ n →
  dst + Z.max n (Z.of_nat (length s) + 1) ≤ src ∨ src + Z.of_nat (length s) < dst →
  (∃ m', strcpy m dst src = Ret m' ∧ cstr m' dst s ∧
     ∀ a, ¬ dst ≤ a ≤ dst + Z.of_nat (length s) → load8 m' a = load8 m a) ∧
  (∀ a, load8 (strncpy m dst src n) a =
     if decide (dst ≤ a < dst + n) then default 0 (s !! Z.to_nat (a - dst)) else load8 m a).
Proof.
  intros Hs Hn Hd. assert (∀ c, c ∈ s → 0 < c < W8) as Hb by (intros c Hc; by eapply cstr_bytes).
  split.
  - exists (put_string m dst s). split; [|split; [by apply put_string_cstr|]].
    + apply strcpy_loop_spec; [done|by eapply cstr_fuel|lia].
    + intros a Ha. by apply put_string_frame.
  - intros a. unfold strncpy. rewrite (strncpy_loop_spec _ m dst src s Hs) by lia. by rewrite Z2Nat.id by lia.
Qed.

Lemma strcpy_correct_witness : ∃ m', strcpy demo_path 300 100 = Ret m' ∧ cstr m' 300 [97; 47; 98; 47; 99].
Proof.
  destruct (strcpy_correct demo_path 300 100 2 [97; 47; 98; 47; 99]) as ((m' & H1 & H2 & _) & _).
  - repeat (split; [reflexivity|]; split; [discriminate|]). reflexivity.
  - discriminate.
  - right. reflexivity.
  - exists m'. split; [exact H1|exact H2].
Defined.

(** utoa prints a 64-bit number in any base from 2 to 16: the buffer holds a
    string of digits of that base with the value of the number, without leading
    zeros, at most 64 characters long, and nothing beyond it is written. *)
Theorem utoa_correct (m : mem) (v buf base : Z) :
  2 ≤ base ≤ 16 → 0 ≤ v < W64 →
  ∃ m' s, utoa m v buf base = Ret m' ∧ cstr m' buf s ∧ (length s ≤ 64)%nat ∧ Forall (is_digit base) s ∧
    num_value base s = v ∧ (s = [48] ∨ ∃ c s', s = c :: s' ∧ c ≠ 48) ∧
    ∀ a, ¬ buf ≤ a ≤ buf + Z.of_nat (length s) → load8 m' a = load8 m a.
Proof.
  intros Hb Hv. destruct (utoa_chars_spec v base Hb Hv) as (s & Hrun & Hlen & Hdig & Hval & Hlead & Hz).
  assert (∀ c, c ∈ s → 0 < c < W8) as Hbyte.
  { intros c Hc. rewrite Forall_forall in Hdig. by eapply is_digit_byte, Hdig. }
  exists (put_string m buf s), s. unfold utoa. rewrite Hrun. split_and!; try done; [by apply put_string_cstr|lia| |].
  - destruct (decide (v = 0)); [left; by apply Hz|right; apply Hlead; lia].
  - intros a Ha. by apply put_string_frame.
Qed.

Lemma utoa_correct_witness : ∃ m' s, utoa ∅ 48879 100 16 = Ret m' ∧ cstr m' 100 s ∧ num_value 16 s = 48879.
Proof.
  destruct (utoa_correct ∅ 48879 100 16) as (m' & s & H1 & H2 & _ & _ & H3 & _); [lia|lia|].
  exists m', s. split; [exact H1|]. split; [exact H2|exact H3].
Defined.
