(* ===== verification/Printf.v ===== *)
(** * Formatted output (src/misc/printf.c and its copy user/lib/printf.c)

    The format and the string arguments are the lists of their bytes before the
    terminator, the variable arguments a list; fetching an argument of another
    kind than was passed is undefined, and so is an int overflow.  [out] are the
    bytes put into the buffer so far, whose number is the index [i] of the code. *)

From S2P Require Import Prelude ByteMem CStr.

Inductive va :=
| VaInt (v : Z)
| VaLong (v : Z)
| VaPtr (v : Z)
| VaStr (s : option (list Z)).

(** va_arg for int, unsigned int, uint64_t, void * and const char *. *)
Definition va_int (args : list va) : outcome (Z * list va) :=
  match args with VaInt v :: args' => Ret (s32 v, args') | _ => Fault end.
Definition va_uint (args : list va) : outcome (Z * list va) :=
  match args with VaInt v :: args' => Ret (u32 v, args') | _ => Fault end.
Definition va_u64 (args : list va) : outcome (Z * list va) :=
  match args with VaLong v :: args' => Ret (u64 v, args') | _ => Fault end.
Definition va_ptr (args : list va) : outcome (Z * list va) :=
  match args with VaPtr v :: args' => Ret (u64 v, args') | _ => Fault end.
Definition va_str (args : list va) : outcome (option (list Z) * list va) :=
  match args with VaStr s :: args' => Ret (s, args') | _ => Fault end.

(** PUT: with [size] 0 the bound [size - 1] wraps around. *)
Definition PUT (size : Z) (out : list Z) (c : Z) : list Z :=
  if Z.of_nat (length out) <? size -64 1 then out ++ [c] else out.

Fixpoint put_pad (n : nat) (size : Z) (out : list Z) (c : Z) : list Z :=
  match n with O => out | S n' => put_pad n' size (PUT size out c) c end.

(** The flags, width and precision of a conversion. *)
Record spec := mkSpec { left_align : bool; zero_pad : bool; width : Z; precision : Z; is_long : bool }.

(** PAD_AND_PUT of the [len] characters [tmp]. *)
Definition PAD_AND_PUT (size : Z) (sp : spec) (out tmp : list Z) : outcome (list Z) :=
  let _len := Z.of_nat (length tmp) in
  let _pad := width sp - _len in
  if negb (fits_int _pad) then Fault
  else
    let _pc := if zero_pad sp then 48 else 32 in
    let out := if negb (left_align sp) then put_pad (Z.to_nat _pad) size out _pc else out in
    let out := foldl (PUT size) out tmp in
    Ret (if left_align sp then put_pad (Z.to_nat _pad) size out 32 else out).

(** ** Parsing a conversion *)

Fixpoint parse_flags (fmt : list Z) (left_al zero : bool) : bool * bool * list Z :=
  match fmt with
  | c :: fmt' =>
      if c =? 45 then parse_flags fmt' true zero
      else if c =? 48 then parse_flags fmt' left_al true
      else (left_al, zero, fmt)
  | [] => (left_al, zero, [])
  end.

(** [while ( *fmt >= '0' && *fmt <= '9') n = n * 10 + ( *fmt++ - '0')] *)
Fixpoint parse_number (fmt : list Z) (n : Z) : outcome (Z * list Z) :=
  match fmt with
  | c :: fmt' =>
      if (48 <=? c) && (c <=? 57) then
        if fits_int (n * 10) && fits_int (n * 10 + (c - 48))
        then parse_number fmt' (n * 10 + (c - 48)) else Fault
      else Ret (n, fmt)
  | [] => Ret (n, [])
  end.

(** A number in the format, or the next argument for an asterisk. *)
Definition parse_amount (fmt : list Z) (args : list va) : outcome (Z * list Z * list va) :=
  match fmt with
  | 42 :: fmt' => r <~ va_int args ;; let '(n, args) := r in Ret (n, fmt', args)
  | _ => r <~ parse_number fmt 0 ;; let '(n, fmt) := r in Ret (n, fmt, args)
  end.

Definition parse_precision (fmt : list Z) (args : list va) : outcome (Z * list Z * list va) :=
  match fmt with
  | 46 :: fmt' => parse_amount fmt' args
  | _ => Ret (-1, fmt, args)
  end.

Definition parse_long (fmt : list Z) : bool * list Z :=
  match fmt with 108 :: fmt' => (true, fmt') | _ => (false, fmt) end.

(** Everything between the percent sign and the conversion character. *)
Definition parse_spec (fmt : list Z) (args : list va) : outcome (spec * list Z * list va) :=
  let '(left_al, zero, fmt) := parse_flags fmt false false in
  let zero := if left_al then false else zero in
  r <~ parse_amount fmt args ;;
  let '(w, fmt, args) := r in
  r <~ parse_precision fmt args ;;
  let '(p, fmt, args) := r in
  let '(l, fmt) := parse_long fmt in
  Ret (mkSpec left_al zero w p l, fmt, args).

(** ** The conversions *)

(** The digits in [tmp], after the sign, moved up to make them [precision]
    long; [tmp] has 32 bytes, the terminator included. *)
Definition widen (prec : Z) (sign ds : list Z) : outcome (list Z) :=
  let len := Z.of_nat (length ds) in
  if len <? prec then
    if Z.of_nat (length sign) + prec <? 32
    then Ret (sign ++ replicate (Z.to_nat (prec - len)) 48 ++ ds) else Fault
  else Ret (sign ++ ds).

Definition conv_c (size : Z) (sp : spec) (args : list va) (out : list Z) : outcome (list Z * list va) :=
  r <~ va_int args ;;
  let '(v, args) := r in
  o <~ PAD_AND_PUT size sp out [u8 v] ;; Ret (o, args).

(** "(null)" *)
Definition null_str : list Z := [40; 110; 117; 108; 108; 41].

Definition conv_s (size : Z) (sp : spec) (args : list va) (out : list Z) : outcome (list Z * list va) :=
  r <~ va_str args ;;
  let '(s, args) := r in
  let s := default null_str s in
  let len := Z.of_nat (length s) in
  let len := if (0 <=? precision sp) && (precision sp <? len) then precision sp else len in
  o <~ PAD_AND_PUT size sp out (take (Z.to_nat len) s) ;; Ret (o, args).

Definition conv_d (size : Z) (sp : spec) (args : list va) (out : list Z) : outcome (list Z * list va) :=
  r <~ va_int args ;;
  let '(val, args) := r in
  let neg := val <? 0 in
  if neg && negb (fits_int (- val)) then Fault
  else
    let val := if neg then - val else val in
    ds <~ utoa_chars (u32 val) 10 ;;
    tmp <~ widen (precision sp) (if neg then [45] else []) ds ;;
    o <~ PAD_AND_PUT size sp out tmp ;; Ret (o, args).

(** The cases 'u' and 'x'. *)
Definition conv_ux (base : Z) (size : Z) (sp : spec) (args : list va) (out : list Z) :
    outcome (list Z * list va) :=
  r <~ (if is_long sp then va_u64 args else va_uint args) ;;
  let '(val, args) := r in
  ds <~ utoa_chars val base ;;
  tmp <~ widen (precision sp) [] ds ;;
  o <~ PAD_AND_PUT size sp out tmp ;; Ret (o, args).

Definition conv_p (size : Z) (sp : spec) (args : list va) (out : list Z) : outcome (list Z * list va) :=
  r <~ va_ptr args ;;
  let '(v, args) := r in
  ds <~ utoa_chars v 16 ;;
  o <~ PAD_AND_PUT size sp out ([48; 120] ++ ds) ;; Ret (o, args).

(** The switch on the conversion character; another character prints nothing. *)
Definition convert (c size : Z) (sp : spec) (args : list va) (out : list Z) : outcome (list Z * list va) :=
  if c =? 99 then conv_c size sp args out
  else if c =? 115 then conv_s size sp args out
  else if c =? 100 then conv_d size sp args out
  else if c =? 117 then conv_ux 10 size sp args out
  else if c =? 120 then conv_ux 16 size sp args out
  else if c =? 112 then conv_p size sp args out
  else if c =? 37 then Ret (PUT size out 37, args)
  else Ret (out, args).

(** The loop over the format.  A format that ends inside a conversion makes the
    code step over its terminator. *)
Fixpoint vsnprintf_loop (fuel : nat) (size : Z) (fmt : list Z) (args : list va) (out : list Z) : outcome (list Z) :=
  match fuel with
  | O => Diverge
  | S f =>
      match fmt with
      | [] => Ret out
      | c :: fmt' =>
          if negb (c =? 37) then vsnprintf_loop f size fmt' args (PUT size out c)
          else
            r <~ parse_spec fmt' args ;;
            let '(sp, fmt, args) := r in
            match fmt with
            | [] => Fault
            | c :: fmt =>
                r <~ convert c size sp args out ;;
                let '(out, args) := r in vsnprintf_loop f size fmt args out
            end
      end
  end.

Definition vsnprintf (size : Z) (fmt : list Z) (args : list va) : outcome (list Z) :=
  vsnprintf_loop (S (length fmt)) size fmt args [].

(** The buffer gets the characters and a terminator; the result is their
    number as an int. *)
Definition snprintf (m : mem) (buf size : Z) (fmt : list Z) (args : list va) : outcome (Z * mem) :=
  out <~ vsnprintf size fmt args ;;
  Ret (s32 (Z.of_nat (length out)), put_string m buf out).

(** The printing functions: what they return and the string they hand to
    serial_write, fbcon_write or, in user space, write. *)
Definition print_to (fmt : list Z) (args : list va) : outcome (Z * list Z) :=
  out <~ vsnprintf 1024 fmt args ;; Ret (s32 (Z.of_nat (length out)), out).
Definition serial_printf := print_to.
Definition serial_vprintf := print_to.
Definition fbcon_printf := print_to.
Definition fbcon_vprintf := print_to.

(** ** The output under a limit is a prefix of the output without it *)

Section Prefix.
Context (size size' : Z) (Hsize : 1 ≤ size ≤ size' ∧ size' < W64).

Abbreviation cut := (take (Z.to_nat (size - 1))).

Lemma PUT_prefix out c : PUT size (cut out) c = cut (PUT size' out c).
Proof.
  unfold PUT. rewrite !u64_small by lia. rewrite length_take.
  destruct (decide (Z.of_nat (length out) < size - 1)) as [Hlt|Hge].
  - destruct (Z.ltb_spec (Z.of_nat (length out)) (size' - 1)); [|lia].
    destruct (Z.ltb_spec (Z.of_nat (Z.to_nat (size - 1) `min` length out)) (size - 1)); [|lia].
    by rewrite !take_ge by (rewrite ?length_app; simpl; lia).
  - destruct (Z.ltb_spec (Z.of_nat (Z.to_nat (size - 1) `min` length out)) (size - 1)); [lia|].
    destruct (_ <? _); [|done]. by rewrite take_app_le by lia.
Qed.

Lemma put_pad_prefix n : ∀ out c, put_pad n size (cut out) c = cut (put_pad n size' out c).
Proof. induction n as [|n IH]; intros out c; simpl; [done|]. by rewrite PUT_prefix, IH. Qed.

Lemma foldl_prefix tmp : ∀ out, foldl (PUT size) (cut out) tmp = cut (foldl (PUT size') out tmp).
Proof. induction tmp as [|c tmp IH]; intros out; simpl; [done|]. by rewrite PUT_prefix, IH. Qed.

Lemma PAD_AND_PUT_prefix sp out tmp :
  PAD_AND_PUT size sp (cut out) tmp = (o <~ PAD_AND_PUT size' sp out tmp ;; Ret (cut o)).
Proof.
  unfold PAD_AND_PUT. cbv zeta. destruct (negb (fits_int _)); [done|]. cbn [obind].
  destruct (left_align sp); cbn [negb]; rewrite ?put_pad_prefix, foldl_prefix, ?put_pad_prefix; done.
Qed.

Definition cut_fst (r : list Z * list va) : list Z * list va := (cut r.1, r.2).

Lemma pad_bind_prefix sp out tmp (args : list va) :
  (o <~ PAD_AND_PUT size sp (cut out) tmp ;; Ret (o, args)) =
  (r <~ (o <~ PAD_AND_PUT size' sp out tmp ;; Ret (o, args)) ;; Ret (cut_fst r)).
Proof. rewrite PAD_AND_PUT_prefix. by destruct (PAD_AND_PUT size' sp out tmp). Qed.

(** What does not depend on the limit can be stepped over. *)
Lemma bind_prefix {A} (r : outcome A) (k k' : A → outcome (list Z * list va)) :
  (∀ a, k a = (x <~ k' a ;; Ret (cut_fst x))) → obind r k = (x <~ obind r k' ;; Ret (cut_fst x)).
Proof. intros Hk. destruct r; simpl; [apply Hk|done..]. Qed.

Ltac same_binds := repeat (apply bind_prefix; intros ?); apply pad_bind_prefix.

Lemma convert_prefix c sp args out :
  convert c size sp args (cut out) = (r <~ convert c size' sp args out ;; Ret (cut_fst r)).
Proof.
  unfold convert. repeat (destruct (c =? _); [|]).
  - apply bind_prefix. intros [v a]. same_binds.
  - apply bind_prefix. intros [s a]. same_binds.
  - apply bind_prefix. intros [v a]. cbv zeta. destruct (_ && _); [done|]. same_binds.
  - apply bind_prefix. intros [v a]. same_binds.
  - apply bind_prefix. intros [v a]. same_binds.
  - apply bind_prefix. intros [v a]. same_binds.
  - cbn [obind cut_fst fst snd]. by rewrite PUT_prefix.
  - done.
Qed.

Lemma vsnprintf_loop_prefix fuel : ∀ fmt args out,
  vsnprintf_loop fuel size fmt args (cut out) = (o <~ vsnprintf_loop fuel size' fmt args out ;; Ret (cut o)).
Proof.
  induction fuel as [|fuel IH]; intros fmt args out; [done|]. cbn [vsnprintf_loop].
  destruct fmt as [|c fmt]; [done|]. destruct (negb (c =? 37)); [by rewrite PUT_prefix, IH|].
  destruct (parse_spec fmt args) as [[[sp fmt'] args']| | |]; cbn [obind]; [|done..].
  destruct fmt' as [|c' fmt']; [done|]. rewrite convert_prefix.
  destruct (convert c' size' sp args' out) as [[o a]| | |]; cbn [obind cut_fst fst snd]; [|done..]. apply IH.
Qed.

End Prefix.

Lemma vsnprintf_prefix_eq size size' fmt args :
  1 ≤ size ≤ size' → size' < W64 →
  vsnprintf size fmt args = (o <~ vsnprintf size' fmt args ;; Ret (take (Z.to_nat (size - 1)) o)).
Proof.
  intros H1 H2. unfold vsnprintf. rewrite <- (vsnprintf_loop_prefix size size' (conj H1 H2)).
  by rewrite take_nil.
Qed.

(** No run writes more than [size - 1] characters. *)
Lemma vsnprintf_length size fmt args out :
  1 ≤ size < W64 → vsnprintf size fmt args = Ret out → Z.of_nat (length out) ≤ size - 1.
Proof.
  intros Hs E. pose proof (vsnprintf_prefix_eq size size fmt args ltac:(lia) ltac:(lia)) as P.
  rewrite E in P. cbn [obind] in P. injection P as P. rewrite P, length_take. lia.
Qed.

(** ** The loop ends *)

Lemma parse_flags_suffix fmt : ∀ l z l' z' fmt', parse_flags fmt l z = (l', z', fmt') → (length fmt' ≤ length fmt)%nat.
Proof.
  induction fmt as [|c fmt IH]; intros l z l' z' fmt' E; simpl in E; [by injection E as <- <- <-|].
  simpl. destruct (c =? 45); [apply IH in E; lia|]. destruct (c =? 48); [apply IH in E; lia|].
  injection E as <- <- <-. simpl. lia.
Qed.

Lemma parse_number_suffix fmt : ∀ n n' fmt',
  parse_number fmt n ≠ Diverge ∧ (parse_number fmt n = Ret (n', fmt') → (length fmt' ≤ length fmt)%nat).
Proof.
  induction fmt as [|c fmt IH]; intros n n' fmt'; cbn [parse_number]; [split; [done|by intros [= <- <-]]|].
  destruct (_ && _); [|split; [done|by intros [= <- <-]]]. destruct (_ && _); [|done].
  destruct (IH (n * 10 + (c - 48)) n' fmt') as [H1 H2]. split; [done|]. intros E%H2. cbn [length]. lia.
Qed.

Lemma va_int_total args : va_int args ≠ Diverge.
Proof. by destruct args as [|[]]. Qed.

Lemma parse_amount_suffix fmt args :
  parse_amount fmt args ≠ Diverge ∧
  ∀ n fmt' args', parse_amount fmt args = Ret (n, fmt', args') → (length fmt' ≤ length fmt)%nat.
Proof.
  assert (∀ fmt, (r <~ parse_number fmt 0 ;; let '(n, fmt) := r in Ret (n, fmt, args)) ≠ Diverge ∧
    ∀ n fmt' args', (r <~ parse_number fmt 0 ;; let '(n, fmt) := r in Ret (n, fmt, args)) = Ret (n, fmt', args') →
      (length fmt' ≤ length fmt)%nat) as Hnum.
  { clear fmt. intros fmt. destruct (parse_number fmt 0) as [[n f]| | |] eqn:E; cbn [obind]; [|done..|].
    - split; [done|]. intros ? ? ? [= <- <- <-]. by apply (parse_number_suffix fmt 0 n f).
    - by destruct (parse_number_suffix fmt 0 0 []). }
  unfold parse_amount. destruct fmt as [|c fmt]; [apply (Hnum [])|].
  destruct (decide (c = 42)) as [->|Hc].
  - pose proof (va_int_total args). destruct (va_int args) as [[n a]| | |]; cbn [obind]; [|done..].
    split; [done|]. intros ? ? ? [= <- <- <-]. simpl. lia.
  - pose proof (Hnum (c :: fmt)) as H. repeat (case_match; try done).
Qed.

Lemma parse_precision_suffix fmt args :
  parse_precision fmt args ≠ Diverge ∧
  ∀ n fmt' args', parse_precision fmt args = Ret (n, fmt', args') → (length fmt' ≤ length fmt)%nat.
Proof.
  destruct fmt as [|c fmt]; [by split; [|intros ? ? ? [= <- <- <-]]|].
  destruct (decide (c = 46)) as [->|Hc].
  - destruct (parse_amount_suffix fmt args) as [H1 H2]. split; [exact H1|]. intros n f a E. apply H2 in E. simpl. lia.
  - unfold parse_precision. repeat (case_match; try done); (split; [done|by intros ? ? ? [= <- <- <-]]).
Qed.

Lemma parse_long_suffix fmt : (length (parse_long fmt).2 ≤ length fmt)%nat.
Proof. unfold parse_long. repeat (case_match; simpl; try lia). Qed.

Lemma parse_spec_suffix fmt args :
  parse_spec fmt args ≠ Diverge ∧
  ∀ sp fmt' args', parse_spec fmt args = Ret (sp, fmt', args') → (length fmt' ≤ length fmt)%nat.
Proof.
  unfold parse_spec. destruct (parse_flags fmt false false) as [[la zp] f1] eqn:E1. apply parse_flags_suffix in E1.
  cbv zeta. destruct (parse_amount_suffix f1 args) as [HD2 HS2].
  destruct (parse_amount f1 args) as [[[w f2] a2]| | |]; cbn [obind]; [|done..]. pose proof (HS2 _ _ _ eq_refl).
  destruct (parse_precision_suffix f2 a2) as [HD3 HS3].
  destruct (parse_precision f2 a2) as [[[p f3] a3]| | |]; cbn [obind]; [|done..]. pose proof (HS3 _ _ _ eq_refl).
  pose proof (parse_long_suffix f3) as Hl. destruct (parse_long f3) as [l f4]. cbn [snd] in Hl.
  split; [done|]. intros ? ? ? [= <- <- <-]. lia.
Qed.

Lemma PAD_AND_PUT_total size sp out tmp : PAD_AND_PUT size sp out tmp ≠ Diverge.
Proof. unfold PAD_AND_PUT. cbv zeta. by destruct (negb _). Qed.

Lemma pad_bind_total size sp out tmp (args : list va) : (o <~ PAD_AND_PUT size sp out tmp ;; Ret (o, args)) ≠ Diverge.
Proof. pose proof (PAD_AND_PUT_total size sp out tmp). by destruct (PAD_AND_PUT size sp out tmp). Qed.

Lemma widen_total prec sign ds : widen prec sign ds ≠ Diverge.
Proof. unfold widen. cbv zeta. destruct (_ <? prec); [|done]. by destruct (_ <? 32). Qed.

(** Printing a 64-bit number, widened and padded. *)
Lemma digits_bind_total v base size sp sign out (args : list va) :
  0 ≤ v < W64 → base = 10 ∨ base = 16 →
  (ds <~ utoa_chars v base ;; tmp <~ widen (precision sp) sign ds ;;
   o <~ PAD_AND_PUT size sp out tmp ;; Ret (o, args)) ≠ Diverge.
Proof.
  intros Hv Hb. destruct (utoa_chars_spec v base ltac:(lia) Hv) as (ds & -> & _). cbn [obind].
  pose proof (widen_total (precision sp) sign ds). destruct (widen (precision sp) sign ds); cbn [obind]; [|done..].
  apply pad_bind_total.
Qed.

Lemma convert_total c size sp args out : convert c size sp args out ≠ Diverge.
Proof.
  unfold convert. repeat (destruct (c =? _); [|]); try done.
  - unfold conv_c. pose proof (va_int_total args). destruct (va_int args) as [[v a]| | |]; try done. apply pad_bind_total.
  - unfold conv_s. destruct (va_str args) as [[s a]| | |] eqn:E; try done; [apply pad_bind_total|]. by destruct args as [|[]].
  - unfold conv_d. pose proof (va_int_total args). destruct (va_int args) as [[v a]| | |]; try done. cbn [obind]. cbv zeta.
    destruct (_ && _); [done|]. apply digits_bind_total; [pose proof (u32_range (if v <? 0 then - v else v)); lia|by left].
  - unfold conv_ux. destruct args as [|[]]; destruct (is_long sp); try done; cbn [va_u64 va_uint obind];
      apply digits_bind_total; auto using u64_range; pose proof (u32_range v); lia.
  - unfold conv_ux. destruct args as [|[]]; destruct (is_long sp); try done; cbn [va_u64 va_uint obind];
      apply digits_bind_total; auto using u64_range; pose proof (u32_range v); lia.
  - unfold conv_p. destruct args as [|[]]; try done. cbn [va_ptr obind].
    destruct (utoa_chars_spec (u64 v) 16 ltac:(lia) (u64_range v)) as (ds & -> & _). apply pad_bind_total.
Qed.

Lemma vsnprintf_loop_total fuel : ∀ size fmt args out,
  (length fmt < fuel)%nat → vsnprintf_loop fuel size fmt args out ≠ Diverge.
Proof.
  induction fuel as [|fuel IH]; intros size fmt args out Hf; [lia|]. cbn [vsnprintf_loop].
  destruct fmt as [|c fmt]; [done|]. cbn [length] in Hf. destruct (negb (c =? 37)); [apply IH; lia|].
  destruct (parse_spec_suffix fmt args) as [HD HS].
  destruct (parse_spec fmt args) as [[[sp fmt'] args']| | |]; cbn [obind]; [|done..]. specialize (HS _ _ _ eq_refl).
  destruct fmt' as [|c' fmt']; [done|]. pose proof (convert_total c' size sp args' out).
  destruct (convert c' size sp args' out) as [[o a]| | |]; cbn [obind]; [|done..]. apply IH. cbn [length] in HS. lia.
Qed.

(** ** The properties *)

(** C38. vsnprintf with a buffer of [size] bytes gives exactly the first
    [size - 1] characters of what it gives with a larger one, for every format
    and argument list, and it fails on a small buffer exactly when it fails on a
    large one; the loop over the format always ends. *)
Theorem vsnprintf_prefix (size size' : Z) (fmt : list Z) (args : list va) :
  1 ≤ size ≤ size' → size' < W64 →
  vsnprintf size fmt args = (o <~ vsnprintf size' fmt args ;; Ret (take (Z.to_nat (size - 1)) o)) ∧
  vsnprintf size fmt args ≠ Diverge.
Proof.
  intros H1 H2. split; [by apply vsnprintf_prefix_eq|]. apply vsnprintf_loop_total. lia.
Qed.

(** "%05d|%-4s|%x" *)
Definition demo_fmt : list Z := [37; 48; 53; 100; 124; 37; 45; 52; 115; 124; 37; 120].
Definition demo_args : list va := [VaInt (-42); VaStr (Some [97; 98]); VaInt 255].

Lemma vsnprintf_prefix_witness :
  vsnprintf 100 demo_fmt demo_args = Ret [48; 48; 45; 52; 50; 124; 97; 98; 32; 32; 124; 102; 102] ∧
  vsnprintf 6 demo_fmt demo_args = (o <~ vsnprintf 100 demo_fmt demo_args ;; Ret (take (Z.to_nat (6 - 1)) o)).
Proof.
  split; [reflexivity|]. apply (vsnprintf_prefix 6 100 demo_fmt demo_args); lia.
Defined.

(** snprintf never writes outside the [size] bytes of its buffer, whatever
    the format and the arguments, and terminates what it wrote; the result is the
    number of characters before the terminator. *)
Theorem snprintf_in_bounds (m m' : mem) (buf size r : Z) (fmt : list Z) (args : list va) :
  1 ≤ size < 2147483648 → snprintf m buf size fmt args = Ret (r, m') →
  0 ≤ r < size ∧ load8 m' (buf + r) = 0 ∧
  ∀ a, ¬ buf ≤ a < buf + size → load8 m' a = load8 m a.
Proof.
  intros Hs. unfold snprintf. destruct (vsnprintf size fmt args) as [out| | |] eqn:E; cbn [obind]; [|done..].
  intros [= <- <-]. pose proof (vsnprintf_length size fmt args out ltac:(lia) E) as Hlen.
  assert (s32 (Z.of_nat (length out)) = Z.of_nat (length out)) as -> by word.
  split_and!; [lia|lia|apply put_string_end|]. intros a Ha. apply put_string_frame. lia.
Qed.

Lemma snprintf_in_bounds_witness :
  ∃ m', snprintf ∅ 100 6 demo_fmt demo_args = Ret (5, m') ∧ load8 m' (100 + 5) = 0.
Proof.
  exists (put_string ∅ 100 [48; 48; 45; 52; 50]). split; [reflexivity|].
  apply (snprintf_in_bounds ∅ _ 100 6 5 demo_fmt demo_args); [lia|reflexivity].
Defined.

(** The conversion without flags, width or precision. *)
Definition plain : spec := mkSpec false false 0 (-1) false.

Lemma PAD_AND_PUT_plain size out tmp :
  Z.of_nat (length out) + Z.of_nat (length tmp) ≤ size - 1 → size < W64 →
  Z.of_nat (length tmp) ≤ 2147483648 →
  PAD_AND_PUT size plain out tmp = Ret (out ++ tmp).
Proof.
  intros H1 H2 H3. unfold PAD_AND_PUT. cbn [width zero_pad left_align plain negb]. cbv zeta.
  unfold fits_int. replace (_ && _) with true by lia. cbn [negb].
  replace (Z.to_nat (0 - Z.of_nat (length tmp))) with 0%nat by lia. cbn [put_pad]. f_equal. clear H3.
  revert out H1. induction tmp as [|c tmp IH]; intros out H1; [by rewrite app_nil_r|]. cbn [foldl length] in *.
  assert (PUT size out c = out ++ [c]) as ->.
  { unfold PUT. rewrite u64_small by lia. destruct (Z.ltb_spec (Z.of_nat (length out)) (size - 1)); [done|lia]. }
  rewrite IH; [by rewrite <- app_assoc|]. rewrite length_app. simpl. lia.
Qed.

(** "%d" *)
Definition fmt_d : list Z := [37; 100].

(** The digits of an int as the 'd' conversion prints them. *)
Lemma conv_d_digits size sp v args out :
  - 2147483648 < v < 2147483648 →
  ∃ s, (1 ≤ length s ≤ 10)%nat ∧ Forall (is_digit 10) s ∧ num_value 10 s = Z.abs v ∧
    conv_d size sp (VaInt v :: args) out =
      (tmp <~ widen (precision sp) (if v <? 0 then [45] else []) s ;;
       o <~ PAD_AND_PUT size sp out tmp ;; Ret (o, args)).
Proof.
  intros Hv. destruct (utoa_chars_below 10 (Z.abs v) 10) as (s & Hrun & Hlen & Hdig & Hval & _);
    [lia|change (10 ^ Z.of_nat 10) with 10000000000; lia|lia|].
  exists s. split_and!; [lia|lia|done|done|].
  unfold conv_d. cbn [va_int obind]. assert (s32 v = v) as -> by word. cbv zeta.
  replace ((v <? 0) && negb (fits_int (- v))) with false by (unfold fits_int; lia).
  assert (u32 (if v <? 0 then - v else v) = Z.abs v) as ->.
  { destruct (Z.ltb_spec v 0); rewrite u32_small; lia. }
  by rewrite Hrun.
Qed.

Lemma vsnprintf_d size v :
  - 2147483648 < v < 2147483648 → 12 ≤ size < W64 →
  ∃ s, vsnprintf size fmt_d [VaInt v] = Ret (if v <? 0 then 45 :: s else s) ∧
    Forall (is_digit 10) s ∧ s ≠ [] ∧ num_value 10 s = Z.abs v.
Proof.
  intros Hv Hs. destruct (conv_d_digits size plain v [] [] Hv) as (s & Hlen & Hdig & Hval & Hconv).
  exists s. split_and!; [|done|intros ->; simpl in Hlen; lia|done].
  unfold vsnprintf, fmt_d. cbn [length]. cbn [vsnprintf_loop]. change (negb (37 =? 37)) with false. cbv iota.
  change (parse_spec [100] [VaInt v]) with (Ret (plain, [100], [VaInt v])). cbn [obind].
  change (convert 100 size plain [VaInt v] []) with (conv_d size plain [VaInt v] []). rewrite Hconv.
  unfold widen. cbn [plain precision]. cbv zeta.
  destruct (Z.ltb_spec (Z.of_nat (length s)) (-1)); [lia|]. cbn [obind].
  rewrite PAD_AND_PUT_plain; [|destruct (v <? 0); simpl; lia|lia|destruct (v <? 0); simpl; lia].
  cbn [obind app]. by destruct (v <? 0).
Qed.

(** A precision above 31 moves the digits past the end of the 32-byte local
    buffer of the conversion: "%.40d" is undefined for every int. *)
Theorem precision_overflows_tmp (size v : Z) :
  - 2147483648 < v < 2147483648 → vsnprintf size [37; 46; 52; 48; 100] [VaInt v] = Fault.
Proof.
  intros Hv. set (sp := mkSpec false false 0 40 false).
  destruct (conv_d_digits size sp v [] [] Hv) as (s & Hlen & _ & _ & Hconv).
  unfold vsnprintf. cbn [length]. cbn [vsnprintf_loop]. change (negb (37 =? 37)) with false. cbv iota.
  change (parse_spec [46; 52; 48; 100] [VaInt v]) with (Ret (sp, [100], [VaInt v])). cbn [obind].
  change (convert 100 size sp [VaInt v] []) with (conv_d size sp [VaInt v] []). rewrite Hconv.
  unfold widen. cbn [sp precision]. cbv zeta.
  destruct (Z.ltb_spec (Z.of_nat (length s)) 40); [|lia].
  destruct (Z.ltb_spec (Z.of_nat (length (if v <? 0 then [45] else []) ) + 40) 32); [|done]. lia.
Qed.

Lemma precision_overflows_tmp_witness : vsnprintf 1024 [37; 46; 52; 48; 100] [VaInt 7] = Fault.
Proof. apply (precision_overflows_tmp 1024 7). lia. Defined.

(** "%05d" of a negative number: the zeros come before the sign. *)
Lemma zero_pad_before_sign : vsnprintf 100 [37; 48; 53; 100] [VaInt (-42)] = Ret [48; 48; 45; 52; 50].
Proof. reflexivity. Qed.
