(* ===== verification/UserLib.v ===== *)
(** * The user-space C library: user/lib/mem.c, util.c and printf.c

    user/lib/mem.c is a copy of src/misc/mem.c, and the first parts of
    user/lib/util.c and user/lib/printf.c are copies of src/misc/util.c and
    src/misc/printf.c, so their routines are the definitions of ByteMem.v, CStr.v
    and Printf.v under this file's names.  atoi, isdigit, strtoull and printf
    exist in user space only. *)

From S2P Require Import Prelude ByteMem CStr Printf.

Module UserMem.
Definition memset := ByteMem.memset.
Definition memcpy := ByteMem.memcpy.
Definition memmove := ByteMem.memmove.
Definition memcmp := ByteMem.memcmp.
Definition memset32 := ByteMem.memset32.
Definition memcpy32 := ByteMem.memcpy32.
Definition memmove32 := ByteMem.memmove32.
Definition memcmp32 := ByteMem.memcmp32.
End UserMem.

Module UserUtil.
Definition strlen := CStr.strlen.
Definition strnlen := CStr.strnlen.
Definition strcpy := CStr.strcpy.
Definition strncpy := CStr.strncpy.
Definition strcmp := CStr.strcmp.
Definition strncmp := CStr.strncmp.
Definition strchr := CStr.strchr.
Definition strrchr := CStr.strrchr.
Definition itoa := CStr.itoa.
Definition utoa := CStr.utoa.
End UserUtil.

Module UserPrintf.
Definition PUT := Printf.PUT.
Definition PAD_AND_PUT := Printf.PAD_AND_PUT.
Definition parse_spec := Printf.parse_spec.
Definition conv_c := Printf.conv_c.
Definition conv_s := Printf.conv_s.
Definition conv_d := Printf.conv_d.
Definition conv_ux := Printf.conv_ux.
Definition conv_p := Printf.conv_p.
Definition vsnprintf := Printf.vsnprintf.
Definition snprintf := Printf.snprintf.

(** printf and vprintf: the result and what write(STDOUT, ...) is called with,
    if it is called. *)
Definition printf (fmt : list Z) (args : list va) : outcome (Z * option (list Z)) :=
  out <~ vsnprintf 1024 fmt args ;;
  let len := s32 (Z.of_nat (length out)) in
  Ret (len, if 0 <? len then Some (take (Z.to_nat len) out) else None).
Definition vprintf := printf.
End UserPrintf.

(** ** atoi *)

(** The digit loop; an int overflow is undefined. *)
Fixpoint atoi_loop (fuel : nat) (m : mem) (s result : Z) : outcome Z :=
  match fuel with
  | O => Diverge
  | S f =>
      let c := schar (load8 m s) in
      if (48 <=? c) && (c <=? 57) then
        if fits_int (result * 10) && fits_int (result * 10 + (c - 48))
        then atoi_loop f m (s + 1) (result * 10 + (c - 48)) else Fault
      else Ret result
  end.

Definition atoi (m : mem) (s : Z) : outcome Z :=
  let '(sign, s) := if schar (load8 m s) =? 45 then (-1, s + 1) else (1, s) in
  result <~ atoi_loop (str_fuel m) m s 0 ;; Ret (sign * result).

(** ** isdigit *)

Fixpoint isdigit_loop (fuel : nat) (m : mem) (s : Z) : outcome Z :=
  match fuel with
  | O => Diverge
  | S f =>
      let c := schar (load8 m s) in
      if c =? 0 then Ret 1
      else if (c <? 48) || (57 <? c) then Ret 0
      else isdigit_loop f m (s + 1)
  end.

Definition isdigit (m : mem) (s : Z) : outcome Z :=
  if load8 m s =? 0 then Ret 0 else isdigit_loop (str_fuel m) m s.

(** ** strtoull *)

(** The leading blanks: space, tab, newline. *)
Fixpoint skip_blanks (fuel : nat) (m : mem) (str : Z) : outcome Z :=
  match fuel with
  | O => Diverge
  | S f =>
      let c := load8 m str in
      if (c =? 32) || (c =? 9) || (c =? 10) then skip_blanks f m (str + 1) else Ret str
  end.

(** The prefix that selects or repeats the base. *)
Definition base_prefix (m : mem) (str base : Z) : Z * Z :=
  let is_x c := (c =? 120) || (c =? 88) in
  if base =? 0 then
    if load8 m str =? 48 then
      let str := str + 1 in
      if is_x (load8 m str) then (16, str + 1) else (8, str)
    else (10, str)
  else if base =? 16 then
    if (load8 m str =? 48) && is_x (load8 m (str + 1)) then (base, str + 2) else (base, str)
  else (base, str).

(** The digit of a character; [None]: the loop breaks. *)
Definition digit_of (c : Z) : option Z :=
  let c := schar c in
  if (48 <=? c) && (c <=? 57) then Some (c - 48)
  else if (97 <=? c) && (c <=? 102) then Some (c - 97 + 10)
  else if (65 <=? c) && (c <=? 70) then Some (c - 65 + 10)
  else None.

Fixpoint strtoull_loop (fuel : nat) (m : mem) (str base result : Z) : outcome (Z * Z) :=
  match fuel with
  | O => Diverge
  | S f =>
      if load8 m str =? 0 then Ret (result, str)
      else
        match digit_of (load8 m str) with
        | None => Ret (result, str)
        | Some digit =>
            if base <=? digit then Ret (result, str)
            else strtoull_loop f m (str + 1) base (u64 (u64 (result * u64 base) + digit))
        end
  end.

(** The number and the pointer stored through [endptr]. *)
Definition strtoull (m : mem) (str base : Z) : outcome (Z * Z) :=
  str <~ skip_blanks (str_fuel m) m str ;;
  let str := if load8 m str =? 43 then str + 1 else str in
  let '(base, str) := base_prefix m str base in
  strtoull_loop (str_fuel m) m str base 0.

(** ** Reading back what was printed *)

Lemma digit_of_is_digit base c : is_digit base c → digit_of c = Some (digit_value c) ∧ digit_value c < base.
Proof.
  intros [Hc Hv]. split; [|lia]. unfold digit_of, digit_value, schar.
  destruct (Z.ltb_spec c 128); [|lia]. cbv zeta. destruct (Z.ltb_spec c 58).
  - by replace ((48 <=? c) && (c <=? 57)) with true by lia.
  - replace ((48 <=? c) && (c <=? 57)) with false by lia.
    replace ((97 <=? c) && (c <=? 102)) with true by lia. f_equal. lia.
Qed.

(** The value of the digits after [v]. *)
Definition num_from (base v : Z) (s : list Z) : Z := foldl (λ v c, v * base + digit_value c) v s.

Lemma num_from_ge base v s : 2 ≤ base → 0 ≤ v → Forall (is_digit base) s → v ≤ num_from base v s.
Proof.
  intros Hb. revert v. induction s as [|c s IH]; intros v Hv Hs; unfold num_from in *; simpl; [done|].
  apply Forall_cons in Hs as [[_ Hc] Hs]. specialize (IH (v * base + digit_value c) ltac:(nia) Hs). nia.
Qed.

Lemma strtoull_loop_spec m base s : ∀ fuel p v,
  2 ≤ base ≤ 16 → Forall (is_digit base) s → cstr m p s → (length s < fuel)%nat →
  0 ≤ v → num_from base v s < W64 →
  strtoull_loop fuel m p base v = Ret (num_from base v s, p + Z.of_nat (length s)).
Proof.
  induction s as [|c s IH]; intros [|fuel] p v Hb Hs H Hf Hv Hlt; cbn [strtoull_loop cstr length] in *; try lia.
  - rewrite H. cbn [Z.eqb]. unfold num_from. simpl. do 2 f_equal. lia.
  - destruct H as (-> & Hc0 & Hrest). destruct (Z.eqb_spec c 0); [done|].
    apply Forall_cons in Hs as [Hc Hs]. destruct (digit_of_is_digit base c Hc) as [-> Hd].
    destruct (Z.leb_spec base (digit_value c)); [lia|]. destruct Hc as [_ Hc].
    pose proof (num_from_ge base (v * base + digit_value c) s ltac:(lia) ltac:(nia) Hs) as Hge.
    change (num_from base v (c :: s)) with (num_from base (v * base + digit_value c) s) in *.
    rewrite (u64_small base), (u64_small (v * base)), u64_small by nia.
    rewrite IH; try done; [do 2 f_equal; lia|lia|nia].
Qed.

Lemma skip_blanks_digit m p c base : is_digit base c → load8 m p = c → skip_blanks (str_fuel m) m p = Ret p.
Proof.
  intros [Hc _] E. unfold str_fuel. cbn [skip_blanks]. rewrite E. by replace ((c =? 32) || (c =? 9) || (c =? 10)) with false by lia.
Qed.

Lemma strtoull_digits m p base s :
  2 ≤ base ≤ 16 → Forall (is_digit base) s → cstr m p s → s ≠ [] → num_value base s < W64 →
  strtoull m p base = Ret (num_value base s, p + Z.of_nat (length s)).
Proof.
  intros Hb Hs H Hne Hlt. pose proof (cstr_fuel _ _ _ H) as Hf. unfold strtoull.
  destruct s as [|c s]; [done|]. pose proof (Forall_inv Hs) as Hc.
  rewrite (skip_blanks_digit m p c base Hc) by apply H. cbn [obind].
  assert (load8 m p = c) as E by apply H. rewrite E. destruct Hc as [Hcr _].
  destruct (Z.eqb_spec c 43); [lia|].
  assert (base_prefix m p base = (base, p)) as ->.
  { unfold base_prefix. destruct (Z.eqb_spec base 0); [lia|]. destruct (Z.eqb_spec base 16); [|done].
    assert (load8 m (p + 1) = 0 ∨ is_digit base (load8 m (p + 1))) as Hn.
    { destruct H as (_ & _ & H). destruct s as [|d s]; [by left|right]. destruct H as (-> & _).
      by apply Forall_inv_tail, Forall_inv in Hs. }
    replace ((load8 m (p + 1) =? 120) || (load8 m (p + 1) =? 88)) with false; [by rewrite andb_false_r|].
    destruct Hn as [->|[Hn _]]; [done|lia]. }
  rewrite (strtoull_loop_spec m base (c :: s)); [done..|lia|done].
Qed.

Lemma atoi_loop_spec m s : ∀ fuel p v,
  Forall (is_digit 10) s → cstr m p s → (length s < fuel)%nat → 0 ≤ v → num_from 10 v s ≤ 2147483647 →
  atoi_loop fuel m p v = Ret (num_from 10 v s).
Proof.
  induction s as [|c s IH]; intros [|fuel] p v Hs H Hf Hv Hle; cbn [atoi_loop cstr length] in *; try lia.
  - rewrite H. done.
  - destruct H as (-> & Hc0 & Hrest). apply Forall_cons in Hs as [[Hc Hcv] Hs].
    assert (48 ≤ c < 58) as Hc'.
    { unfold digit_value in Hcv. destruct (Z.ltb_spec c 58); lia. }
    assert (digit_value c = c - 48) as Ev.
    { unfold digit_value. destruct (Z.ltb_spec c 58); lia. }
    assert (schar c = c) as -> by (unfold schar; destruct (Z.ltb_spec c 128); lia).
    cbv zeta. replace ((48 <=? c) && (c <=? 57)) with true by lia.
    change (num_from 10 v (c :: s)) with (num_from 10 (v * 10 + digit_value c) s) in *. rewrite Ev in *.
    pose proof (num_from_ge 10 (v * 10 + (c - 48)) s ltac:(lia) ltac:(lia) Hs).
    unfold fits_int. replace (_ && _ && _) with true by lia. rewrite IH; try done; lia.
Qed.

(** atoi on the decimal representation of an int. *)
Lemma atoi_decimal m p v s :
  - 2147483648 < v < 2147483648 → Forall (is_digit 10) s → s ≠ [] → num_value 10 s = Z.abs v →
  cstr m p (if v <? 0 then 45 :: s else s) → atoi m p = Ret v.
Proof.
  intros Hv Hdig Hne Hval Hc. pose proof (cstr_fuel _ _ _ Hc) as Hf.
  change (num_value 10 s) with (num_from 10 0 s) in Hval.
  unfold atoi. destruct (Z.ltb_spec v 0) as [Hneg|Hpos].
  - destruct Hc as (-> & _ & Hc). cbn [length] in Hf. change (schar 45 =? 45) with true. cbv iota beta.
    rewrite (atoi_loop_spec m s) by (done || lia). cbn [obind]. f_equal. lia.
  - assert ((schar (load8 m p) =? 45) = false) as ->.
    { destruct s as [|c s]; [done|]. destruct Hc as (-> & _). apply Forall_inv in Hdig as [Hc _].
      unfold schar. destruct (Z.ltb_spec c 128); lia. }
    rewrite (atoi_loop_spec m s) by (done || lia). cbn [obind]. f_equal. lia.
Qed.

Lemma decimal_bytes (v : Z) (s : list Z) c :
  Forall (is_digit 10) s → c ∈ (if v <? 0 then 45 :: s else s) → 0 < c < W8.
Proof.
  rewrite Forall_forall. intros Hdig Hin.
  destruct (v <? 0); [apply elem_of_cons in Hin as [->|Hin]; [lia|]|]; by eapply is_digit_byte, Hdig.
Qed.

(** isdigit accepts exactly the non-empty strings of decimal digits. *)
Lemma isdigit_loop_spec m s : ∀ fuel p,
  cstr m p s → (length s < fuel)%nat →
  isdigit_loop fuel m p = Ret (if decide (Forall (λ c, 48 ≤ c ≤ 57) s) then 1 else 0).
Proof.
  induction s as [|c s IH]; intros [|fuel] p H Hf; cbn [isdigit_loop cstr length] in *; try lia.
  - rewrite H. by rewrite decide_True by constructor.
  - pose proof (load8_range m p) as Hr. destruct H as (Hc & Hc0 & Hs). rewrite Hc in *. cbv zeta.
    destruct (Z.eqb_spec (schar c) 0) as [E|_]; [unfold schar in E; destruct (Z.ltb_spec c 128); lia|].
    destruct ((schar c <? 48) || (57 <? schar c)) eqn:E.
    + rewrite decide_False; [done|]. intros Hall%Forall_inv. unfold schar in E. destruct (Z.ltb_spec c 128); lia.
    + rewrite (IH fuel (p + 1)) by (done || lia). f_equal.
      assert (48 ≤ c ≤ 57) by (unfold schar in E; destruct (Z.ltb_spec c 128); lia).
      apply decide_ext. rewrite Forall_cons. tauto.
Qed.

Lemma isdigit_spec m p s : cstr m p s →
  isdigit m p = Ret (if decide (s ≠ [] ∧ Forall (λ c, 48 ≤ c ≤ 57) s) then 1 else 0).
Proof.
  intros H. unfold isdigit. destruct s as [|c s].
  - cbn in H. rewrite H. cbn [Z.eqb]. by rewrite decide_False by (by intros []).
  - destruct (Z.eqb_spec (load8 m p) 0) as [E|_]; [destruct H as (? & ? & _); congruence|].
    rewrite (isdigit_loop_spec m (c :: s)) by (done || by eapply cstr_fuel). f_equal. apply decide_ext. naive_solver.
Qed.

(** ** The properties *)

(** strtoull reads back what utoa printed: for every 64-bit number and every
    base from 2 to 16 it returns that number and stops at the terminator. *)
Theorem strtoull_utoa_roundtrip (m : mem) (v buf base : Z) :
  2 ≤ base ≤ 16 → 0 ≤ v < W64 →
  ∃ m' n, UserUtil.utoa m v buf base = Ret m' ∧ strtoull m' buf base = Ret (v, buf + n) ∧
    UserUtil.strlen m' buf = Ret n.
Proof.
  intros Hb Hv. destruct (utoa_chars_spec v base Hb Hv) as (s & Hs & Hlen & Hdig & Hval & _).
  assert (cstr (put_string m buf s) buf s) as Hc.
  { apply put_string_cstr. intros c Hc. rewrite Forall_forall in Hdig. by eapply is_digit_byte, Hdig. }
  exists (put_string m buf s), (Z.of_nat (length s)). unfold UserUtil.utoa, CStr.utoa. rewrite Hs.
  split; [done|]. split; [|by apply strlen_spec].
  rewrite (strtoull_digits _ _ _ s); try done; [by rewrite Hval| |lia]. intros ->. simpl in Hlen. lia.
Qed.

Lemma strtoull_utoa_roundtrip_witness :
  ∃ m' n, UserUtil.utoa ∅ 57005 100 16 = Ret m' ∧ strtoull m' 100 16 = Ret (57005, 100 + n).
Proof.
  destruct (strtoull_utoa_roundtrip ∅ 57005 100 16) as (m' & n & H1 & H2 & _); [lia|lia|].
  exists m', n. split; [exact H1|exact H2].
Defined.

(** atoi reads back an int that itoa printed in base 10 or snprintf printed
    with "%d" into a buffer of at least 12 bytes, for every int but INT_MIN, whose
    negation overflows in both. *)
Theorem atoi_decimal_roundtrip (m : mem) (v buf size : Z) :
  - 2147483648 < v < 2147483648 → 12 ≤ size < 2147483648 →
  ∃ m1 m2 r, UserUtil.itoa m v buf 10 = Ret m1 ∧ atoi m1 buf = Ret v ∧
    UserPrintf.snprintf m buf size fmt_d [VaInt v] = Ret (r, m2) ∧ atoi m2 buf = Ret v.
Proof.
  intros Hv Hsize. destruct (itoa_chars_spec v Hv) as (s & Hs & Hlen & Hdig & Hval).
  destruct (vsnprintf_d size v Hv) as (s' & Hs' & Hdig' & Hne' & Hval'); [lia|].
  eexists _, _, _. unfold UserUtil.itoa, CStr.itoa, UserPrintf.snprintf, Printf.snprintf. rewrite Hs, Hs'.
  split_and!; [done| |done|].
  - apply (atoi_decimal _ _ _ s); try done; [intros ->; simpl in Hlen; lia|].
    apply put_string_cstr. intros c. by apply decimal_bytes.
  - apply (atoi_decimal _ _ _ s'); try done. apply put_string_cstr. intros c. by apply decimal_bytes.
Qed.

Lemma atoi_decimal_roundtrip_witness :
  ∃ m1, UserUtil.itoa ∅ (-780) 100 10 = Ret m1 ∧ atoi m1 100 = Ret (-780).
Proof.
  destruct (atoi_decimal_roundtrip ∅ (-780) 100 16) as (m1 & m2 & r & H1 & H2 & _); [lia|lia|].
  exists m1. split; [exact H1|exact H2].
Defined.
