(* ===== verification/Tar.v ===== *)
(** * The initial ramdisk (src/fs/tar.c)

    A tar archive in memory: 512-byte headers, each followed by the file's bytes
    up to the next multiple of 512.  The header fields that tar.c reads are the
    name (offset 0, 100 bytes), the size in octal (offset 124, 12 bytes) and the
    type (offset 156). *)

From S2P Require Import Prelude ByteMem CStr.

(** tar_data and tar_size. *)
Record tar_state := mkTar { tar_data : Z; tar_size : Z }.

Definition tar_init (data size : Z) : tar_state := mkTar data size.

Definition HDR_SIZE_FIELD : Z := 124.
Definition HDR_TYPE_FIELD : Z := 156.

(** The loop from [i], [n] characters to go. *)
Fixpoint octal_loop (n : nat) (m : mem) (s val : Z) : Z :=
  match n with
  | O => val
  | S n' =>
      let c := schar (load8 m s) in
      if (c <? 48) || (55 <? c) then val
      else octal_loop n' m (s + 1) (u64 (u64 (val * 8) + (c - 48)))
  end.

Definition tar_parse_octal (m : mem) (s len : Z) : Z := octal_loop (Z.to_nat len) m s 0.

(** [offset + 512 + ((file_size + 511) & ~511ULL)] *)
Definition next_offset (offset file_size : Z) : Z :=
  offset +64 (512 +64 Z.land (file_size +64 511) (not64 511)).

(** Enough iterations for any archive: each header moves the offset by at least
    512 bytes. *)
Definition tar_fuel (t : tar_state) : nat := S (Z.to_nat (tar_size t / 512)).

(** The address and size of the file [name]; [None] is NULL. *)
Fixpoint find_loop (fuel : nat) (t : tar_state) (m : mem) (name offset : Z) : outcome (option (Z * Z)) :=
  match fuel with
  | O => Diverge
  | S f =>
      if offset +64 512 <=? tar_size t then
        let hdr := tar_data t + offset in
        if load8 m hdr =? 0 then Ret None
        else
          let file_size := tar_parse_octal m (hdr + HDR_SIZE_FIELD) 12 in
          let type := load8 m (hdr + HDR_TYPE_FIELD) in
          if (type =? 48) || (type =? 0) then
            r <~ strcmp m hdr name ;;
            if r =? 0 then Ret (Some (hdr + 512, file_size))
            else find_loop f t m name (next_offset offset file_size)
          else find_loop f t m name (next_offset offset file_size)
      else Ret None
  end.

Definition tar_find (t : tar_state) (m : mem) (name : Z) : outcome (option (Z * Z)) :=
  find_loop (tar_fuel t) t m name 0.

(** tar_entry_t. *)
Record tar_entry := mkEntry { te_name : list Z; te_type : Z; te_size : Z }.

(** The bytes [p .. p + n). *)
Definition bytes_at (m : mem) (p n : Z) : list Z := (λ i, load8 m (p + i)) <$> seqZ 0 n.

(** What follows the path in a name: the entry, if it is one component. *)
Definition list_relative (m : mem) (relative hdr file_size : Z) : outcome (option tar_entry) :=
  if negb (load8 m relative =? 0) then
    slash <~ strchr m relative 47 ;;
    rel_len <~ strlen m relative ;;
    if (slash =? 0) || (slash =? relative + rel_len - 1) then
      let len := rel_len in
      let len := if (0 <? len) && (load8 m (relative + len - 1) =? 47) then len - 1 else len in
      let len := if 99 <? len then 99 else len in
      let type := if load8 m (hdr + HDR_TYPE_FIELD) =? 53 then 53 else 48 in
      Ret (Some (mkEntry (bytes_at m relative len) type file_size))
    else Ret None
  else Ret None.

(** The entry a header contributes to the listing of [path], if any. *)
Definition list_header (m : mem) (path path_len hdr file_size : Z) : outcome (option tar_entry) :=
  if (path_len =? 0) || (strncmp m hdr path path_len =? 0) then
    let relative := hdr + path_len in
    let relative := if load8 m relative =? 47 then relative + 1 else relative in
    list_relative m relative hdr file_size
  else Ret None.

(** The loop; [entries] are those written so far. *)
Fixpoint listdir_loop (fuel : nat) (t : tar_state) (m : mem) (path path_len max offset : Z)
    (entries : list tar_entry) : outcome (list tar_entry) :=
  match fuel with
  | O => Diverge
  | S f =>
      if (offset +64 512 <=? tar_size t) && (Z.of_nat (length entries) <? max) then
        let hdr := tar_data t + offset in
        if load8 m hdr =? 0 then Ret entries
        else
          let file_size := tar_parse_octal m (hdr + HDR_SIZE_FIELD) 12 in
          e <~ list_header m path path_len hdr file_size ;;
          listdir_loop f t m path path_len max (next_offset offset file_size)
            (match e with Some e => entries ++ [e] | None => entries end)
      else Ret entries
  end.

(** The entries written; their number is the result. *)
Definition tar_listdir (t : tar_state) (m : mem) (path max : Z) : outcome (list tar_entry) :=
  path_len <~ strlen m path ;;
  listdir_loop (tar_fuel t) t m path path_len max 0 [].

(** ** The archive as a list of headers *)

Record header := mkHeader { hd_off : Z; hd_name : list Z; hd_type : Z; hd_size : Z }.

(** The offset of the header after one of a file of [n] bytes. *)
Definition after (off n : Z) : Z := off + 512 + (n + 511) / 512 * 512.

(** [hs] are the headers from offset [off] on: up to an empty name or the end. *)
Fixpoint archive (t : tar_state) (m : mem) (off : Z) (hs : list header) : Prop :=
  match hs with
  | [] => tar_size t < off + 512 ∨ load8 m (tar_data t + off) = 0
  | h :: hs' =>
      off + 512 ≤ tar_size t ∧ load8 m (tar_data t + off) ≠ 0 ∧ hd_off h = off ∧
      cstr m (tar_data t + off) (hd_name h) ∧ hd_type h = load8 m (tar_data t + off + HDR_TYPE_FIELD) ∧
      hd_size h = tar_parse_octal m (tar_data t + off + HDR_SIZE_FIELD) 12 ∧
      archive t m (after off (hd_size h)) hs'
  end.

Lemma octal_loop_range (n k : nat) : ∀ m s val,
  0 ≤ val < 8 ^ Z.of_nat k → (k + n ≤ 20)%nat → 0 ≤ octal_loop n m s val < 8 ^ Z.of_nat (k + n).
Proof.
  revert k. induction n as [|n IH]; intros k m s val Hv Hk; cbn [octal_loop]; [by rewrite Nat.add_0_r|].
  assert (8 ^ Z.of_nat k ≤ 8 ^ Z.of_nat (k + S n)) as Hmono by (apply Z.pow_le_mono_r; lia).
  cbv zeta. destruct (_ || _) eqn:E; [lia|].
  assert (8 ^ Z.of_nat (S k) = 8 * 8 ^ Z.of_nat k) as E8 by (rewrite Nat2Z.inj_succ, Z.pow_succ_r; lia).
  assert (8 ^ Z.of_nat (S k) ≤ 8 ^ 20) by (apply Z.pow_le_mono_r; lia).
  change (8 ^ 20) with 1152921504606846976 in *.
  rewrite (u64_small (val * 8)), u64_small by lia.
  replace (k + S n)%nat with (S k + n)%nat by lia. apply IH; lia.
Qed.

Lemma parse_octal_range m s : 0 ≤ tar_parse_octal m s 12 < 2 ^ 36.
Proof. unfold tar_parse_octal. apply (octal_loop_range (Z.to_nat 12) 0); [done|simpl; lia]. Qed.

Lemma next_offset_eq off n : 0 ≤ off ≤ 2 ^ 62 → 0 ≤ n < 2 ^ 36 → next_offset off n = after off n.
Proof.
  intros Ho Hn. unfold next_offset, after. change (2 ^ 62) with 4611686018427387904 in *.
  change (2 ^ 36) with 68719476736 in *. rewrite (u64_small (n + 511)) by lia.
  change 511 with (Z.ones 9) at 2. rewrite land_not_ones by lia. change (2 ^ 9) with 512.
  pose proof (Z.div_mod (n + 511) 512 ltac:(lia)). pose proof (Z.mod_pos_bound (n + 511) 512 ltac:(lia)).
  rewrite (u64_small (512 + _)), u64_small by lia. lia.
Qed.

Lemma after_bounds off n : 0 ≤ n → off + 512 ≤ after off n.
Proof. intros Hn. unfold after. pose proof (Z.div_pos (n + 511) 512 ltac:(lia) ltac:(lia)). lia. Qed.

(** Every memory holds some archive, with at most a header per 512 bytes. *)
Lemma archive_total t m (k : nat) : ∀ off,
  tar_size t - off < 512 * Z.of_nat (S k) → ∃ hs, archive t m off hs ∧ (length hs ≤ k)%nat.
Proof.
  induction k as [|k IH]; intros off Hk; [exists []; split; [left; lia|done]|].
  destruct (Z.lt_ge_cases (tar_size t) (off + 512)) as [Hend|Hin]; [exists []; split; [by left|simpl; lia]|].
  destruct (Z.eq_dec (load8 m (tar_data t + off)) 0) as [E|E]; [exists []; split; [by right|simpl; lia]|].
  destruct (cstr_total m (tar_data t + off)) as (nm & Hnm & _).
  set (n := tar_parse_octal m (tar_data t + off + HDR_SIZE_FIELD) 12).
  pose proof (parse_octal_range m (tar_data t + off + HDR_SIZE_FIELD)) as Hn. fold n in Hn.
  pose proof (after_bounds off n ltac:(lia)).
  destruct (IH (after off n) ltac:(lia)) as (hs & Hhs & Hl).
  exists (mkHeader off nm (load8 m (tar_data t + off + HDR_TYPE_FIELD)) n :: hs).
  split; [by repeat split|simpl; lia].
Qed.

(** What tar_find looks for. *)
Definition regular (h : header) : bool := (hd_type h =? 48) || (hd_type h =? 0).
Definition find_header (nm : list Z) (hs : list header) : option header :=
  snd <$> list_find (λ h, regular h = true ∧ hd_name h = nm) hs.

Lemma find_header_cons nm h hs :
  find_header nm (h :: hs) = if decide (regular h = true ∧ hd_name h = nm) then Some h else find_header nm hs.
Proof.
  unfold find_header. cbn [list_find]. case_decide; [done|].
  destruct (list_find _ hs) as [[]|]; done.
Qed.

Lemma after_upper off n : n < 2 ^ 36 → after off n ≤ off + 2 ^ 37.
Proof.
  intros Hn. unfold after. pose proof (Z.div_mod (n + 511) 512 ltac:(lia)).
  pose proof (Z.mod_pos_bound (n + 511) 512 ltac:(lia)).
  change (2 ^ 36) with 68719476736 in *. change (2 ^ 37) with 137438953472. lia.
Qed.

(** One step of either loop: the header at [off], or the end. *)
Lemma archive_step t m off hs :
  0 ≤ off ≤ 2 ^ 62 → tar_size t ≤ 2 ^ 61 → archive t m off hs →
  match hs with
  | [] => (off +64 512 <=? tar_size t) = false ∨
          ((off +64 512 <=? tar_size t) = true ∧ (load8 m (tar_data t + off) =? 0) = true)
  | h :: hs' =>
      (off +64 512 <=? tar_size t) = true ∧ (load8 m (tar_data t + off) =? 0) = false ∧
      hd_off h = off ∧ cstr m (tar_data t + off) (hd_name h) ∧
      load8 m (tar_data t + off + HDR_TYPE_FIELD) = hd_type h ∧
      tar_parse_octal m (tar_data t + off + HDR_SIZE_FIELD) 12 = hd_size h ∧
      next_offset off (hd_size h) = after off (hd_size h) ∧
      0 ≤ after off (hd_size h) ≤ 2 ^ 62 ∧ archive t m (after off (hd_size h)) hs'
  end.
Proof.
  intros Ho Hts Ha.
  assert (off +64 512 = off + 512) as -> by (apply u64_small; change (2 ^ 62) with 4611686018427387904 in *; lia).
  destruct hs as [|h hs]; cbn [archive] in Ha.
  - destruct (Z.leb_spec (off + 512) (tar_size t)); [right|by left]. split; [done|].
    destruct Ha as [?| ->]; [lia|done].
  - destruct Ha as (Hin & Hn0 & Hoff & Hc & Ht & Hs & Hrest).
    pose proof (parse_octal_range m (tar_data t + off + HDR_SIZE_FIELD)) as Hr. rewrite <- Hs in Hr.
    split_and!; try done; try lia.
    + by apply next_offset_eq.
    + pose proof (after_bounds off (hd_size h) ltac:(lia)). lia.
    + pose proof (after_upper off (hd_size h) ltac:(lia)).
      change (2 ^ 62) with 4611686018427387904 in *. change (2 ^ 61) with 2305843009213693952 in *.
      change (2 ^ 37) with 137438953472 in *. lia.
Qed.

Lemma find_loop_spec t m name nm hs : ∀ fuel off,
  0 ≤ off ≤ 2 ^ 62 → tar_size t ≤ 2 ^ 61 → archive t m off hs → (length hs < fuel)%nat → cstr m name nm →
  find_loop fuel t m name off =
    Ret ((λ h, (tar_data t + hd_off h + 512, hd_size h)) <$> find_header nm hs).
Proof.
  induction hs as [|h hs IH]; intros [|fuel] off Ho Hts Ha Hf Hnm; cbn [length find_loop] in *; try lia;
    apply archive_step in Ha; try done.
  - destruct Ha as [->|[-> ->]]; done.
  - destruct Ha as (-> & -> & Hoff & Hc & -> & -> & Hnext & Hr & Hrest). cbv zeta.
    rewrite find_header_cons, Hnext. unfold regular.
    destruct ((hd_type h =? 48) || (hd_type h =? 0)).
    2:{ rewrite decide_False by (by intros []). apply IH; try done. lia. }
    rewrite (strcmp_spec m _ _ _ _ Hc Hnm). cbn [obind].
    assert (str_diff (hd_name h) nm = 0 ↔ hd_name h = nm) as Hz.
    { apply str_diff_zero. intros c [Hx|Hx]%elem_of_app; [by eapply cstr_bytes in Hx as [? _]|].
      by eapply cstr_bytes in Hx as [? _]. }
    destruct (Z.eqb_spec (str_diff (hd_name h) nm) 0) as [E|E].
    + rewrite decide_True by (split; [done|by apply Hz]). simpl. by rewrite Hoff.
    + rewrite decide_False by (intros [_ ?]; by apply E, Hz). apply IH; try done. lia.
Qed.

(** ** Listing a directory *)

(** The name an entry called [nm] has in the directory [path]: what follows the
    path and an optional slash, if that is not empty and has no slash before its
    last character; a final slash is dropped and 99 characters are kept. *)
Definition child_name (path nm : list Z) : option (list Z) :=
  if decide (take (length path) nm = path) then
    let rel := drop (length path) nm in
    let rel := match rel with 47 :: rel' => rel' | _ => rel end in
    match rel with
    | [] => None
    | _ =>
        match first_index 47 rel with
        | None => Some (take 99 rel)
        | Some i => if (S i =? length rel)%nat then Some (take 99 (take i rel)) else None
        end
    end
  else None.

Definition child_entry (path : list Z) (h : header) : option tar_entry :=
  (λ nm, mkEntry nm (if hd_type h =? 53 then 53 else 48) (hd_size h)) <$> child_name path (hd_name h).

Lemma cstr_drop m s : ∀ p n, cstr m p s → (n ≤ length s)%nat → cstr m (p + Z.of_nat n) (drop n s).
Proof.
  induction s as [|c s IH]; intros p [|n] H Hn; simpl in *; try lia; rewrite ?Z.add_0_r; try done.
  destruct H as (_ & _ & H). replace (p + Z.of_nat (S n)) with (p + 1 + Z.of_nat n) by lia. apply IH; [done|lia].
Qed.

Lemma bytes_at_cstr m p s n : cstr m p s → (n ≤ length s)%nat → bytes_at m p (Z.of_nat n) = take n s.
Proof.
  intros H Hn. apply list_eq. intros i. unfold bytes_at. rewrite list_lookup_fmap.
  destruct (decide (i < n)%nat) as [Hi|Hi].
  - rewrite (proj2 (lookup_seqZ 0 (Z.of_nat n) i (Z.of_nat i))) by lia. cbn [fmap option_fmap option_map].
    rewrite lookup_take_lt by done. destruct (lookup_lt_is_Some_2 s i) as [c Hc]; [lia|]. rewrite Hc. f_equal.
    apply (cstr_lookup m s); [done|]. by apply lookup_app_l_Some.
  - rewrite lookup_seqZ_ge by lia. by rewrite lookup_take_ge by lia.
Qed.

Lemma first_index_zero ch l : ch ≠ 0 → first_index ch (l ++ [0]) = first_index ch l.
Proof.
  intros Hc. induction l as [|c l IH]; cbn [app first_index]; [by destruct (Z.eqb_spec 0 ch)|]. by rewrite IH.
Qed.

Lemma kept_name m p rel (n : nat) :
  cstr m p rel → (n ≤ length rel)%nat →
  bytes_at m p (if 99 <? Z.of_nat n then 99 else Z.of_nat n) = take 99 (take n rel).
Proof.
  intros H Hn. rewrite take_take. destruct (Z.ltb_spec 99 (Z.of_nat n)).
  - change 99 with (Z.of_nat 99) at 1. rewrite (bytes_at_cstr m p rel) by (done || lia). f_equal. lia.
  - rewrite (bytes_at_cstr m p rel) by done. f_equal. lia.
Qed.

Lemma list_relative_spec m relative hdr file_size rel :
  0 < relative → cstr m relative rel →
  list_relative m relative hdr file_size =
    Ret ((λ nm, mkEntry nm (if load8 m (hdr + HDR_TYPE_FIELD) =? 53 then 53 else 48) file_size) <$>
      match rel with
      | [] => None
      | _ =>
          match first_index 47 rel with
          | None => Some (take 99 rel)
          | Some i => if (S i =? length rel)%nat then Some (take 99 (take i rel)) else None
          end
      end).
Proof.
  intros Hpos Hc. unfold list_relative. destruct rel as [|c0 rel0]; [cbn in Hc; by rewrite Hc|].
  assert (load8 m relative ≠ 0) as Hne by (destruct Hc as (-> & ? & _); done).
  destruct (Z.eqb_spec (load8 m relative) 0); [done|]. cbn [negb]. set (rel := c0 :: rel0) in *.
  rewrite (strchr_spec m relative 47 rel Hc), (strlen_spec m relative rel Hc). cbn [obind].
  change (u8 47) with 47. rewrite first_index_zero by done.
  assert (0 < length rel)%nat as Hlen by (simpl; lia).
  assert (∀ i c, rel !! i = Some c → load8 m (relative + Z.of_nat i) = c) as Hbyte.
  { intros i c Hi. apply (cstr_lookup m rel); [done|]. by apply lookup_app_l_Some. }
  destruct (lookup_lt_is_Some_2 rel (length rel - 1)) as [d Hd]; [lia|].
  assert (load8 m (relative + Z.of_nat (length rel) - 1) = d) as Hlast.
  { rewrite <- (Hbyte _ _ Hd). f_equal. lia. }
  cbv zeta. rewrite Hlast. destruct (Z.ltb_spec 0 (Z.of_nat (length rel))); [|lia]. cbn [andb].
  destruct (first_index 47 rel) as [i|] eqn:Ei.
  - apply first_index_Some in Ei as [Hi Hmin]. pose proof (lookup_lt_Some _ _ _ Hi).
    destruct (Z.eqb_spec (relative + Z.of_nat i) 0); [lia|]. cbn [orb].
    destruct (Nat.eqb_spec (S i) (length rel)) as [E|E].
    + destruct (Z.eqb_spec (relative + Z.of_nat i) (relative + Z.of_nat (length rel) - 1)); [|lia].
      replace (length rel - 1)%nat with i in Hd by lia. rewrite Hi in Hd. injection Hd as <-. cbn [Z.eqb Pos.eqb fmap option_fmap option_map].
      replace (Z.of_nat (length rel) - 1) with (Z.of_nat i) by lia. rewrite (kept_name m relative rel) by (done || lia). done.
    + destruct (Z.eqb_spec (relative + Z.of_nat i) (relative + Z.of_nat (length rel) - 1)); [lia|done].
  - cbn [Z.eqb orb]. apply first_index_None in Ei. destruct (Z.eqb_spec d 47) as [->|].
    { exfalso. apply Ei. by eapply list_elem_of_lookup_2. }
    rewrite (kept_name m relative rel) by done. by rewrite (take_ge rel (length rel)) by done.
Qed.

Lemma list_header_spec t m path pth h :
  0 < tar_data t + hd_off h → cstr m path pth → cstr m (tar_data t + hd_off h) (hd_name h) →
  load8 m (tar_data t + hd_off h + HDR_TYPE_FIELD) = hd_type h →
  list_header m path (Z.of_nat (length pth)) (tar_data t + hd_off h) (hd_size h) = Ret (child_entry pth h).
Proof.
  intros Hpos Hp Hn Ht. set (hdr := tar_data t + hd_off h) in *. unfold list_header, child_entry, child_name.
  assert (((Z.of_nat (length pth) =? 0) || (strncmp m hdr path (Z.of_nat (length pth)) =? 0)) =
    bool_decide (take (length pth) (hd_name h) = pth)) as ->.
  { rewrite (strncmp_spec m hdr path _ _ _ Hn Hp) by lia. rewrite Nat2Z.id, (take_ge pth) by done.
    assert (str_diff (take (length pth) (hd_name h)) pth = 0 ↔ take (length pth) (hd_name h) = pth) as Hz.
    { apply str_diff_zero. intros c [Hx|Hx]%elem_of_app; [|by eapply cstr_bytes in Hx as [? _]].
      apply elem_of_take in Hx as (? & ?%list_elem_of_lookup_2 & _). by eapply cstr_bytes. }
    destruct (Z.eqb_spec (Z.of_nat (length pth)) 0) as [E|E]; cbn [orb].
    { destruct pth; [|simpl in E; lia]. by rewrite bool_decide_true. }
    destruct (Z.eqb_spec (str_diff (take (length pth) (hd_name h)) pth) 0) as [E'|E'].
    - by rewrite bool_decide_true by (by apply Hz).
    - by rewrite bool_decide_false by (by intros ?%Hz). }
  destruct (decide (take (length pth) (hd_name h) = pth)) as [Hpre|Hpre];
    [rewrite bool_decide_true by done|by rewrite bool_decide_false].
  assert (length pth ≤ length (hd_name h))%nat as Hle by (apply (f_equal length) in Hpre; rewrite length_take in Hpre; lia).
  pose proof (cstr_drop m _ _ _ Hn Hle) as Hd. cbv zeta.
  set (r0 := drop (length pth) (hd_name h)) in *. set (p0 := hdr + Z.of_nat (length pth)) in *.
  rewrite <- Ht.
  set (r1 := match r0 with 47 :: rel' => rel' | _ => r0 end).
  assert (cstr m (if load8 m p0 =? 47 then p0 + 1 else p0) r1) as Hr1.
  { unfold r1. destruct r0 as [|c r0]; [cbn in Hd; by rewrite Hd|].
    assert (load8 m p0 = c) as -> by apply Hd. destruct (Z.eqb_spec c 47) as [->|Hc]; [apply Hd|].
    repeat (case_match; try done). }
  apply list_relative_spec; [destruct (_ =? 47); unfold p0; lia|exact Hr1].
Qed.

Lemma listdir_loop_spec t m path pth max hs : ∀ fuel off entries,
  0 < tar_data t → 0 ≤ off ≤ 2 ^ 62 → tar_size t ≤ 2 ^ 61 → archive t m off hs → (length hs < fuel)%nat →
  cstr m path pth → Z.of_nat (length entries) ≤ max →
  listdir_loop fuel t m path (Z.of_nat (length pth)) max off entries =
    Ret (take (Z.to_nat max) (entries ++ omap (child_entry pth) hs)).
Proof.
  induction hs as [|h hs IH]; intros [|fuel] off entries Hd Ho Hts Ha Hf Hp Hmax; cbn [length listdir_loop] in *; try lia;
    apply archive_step in Ha; try done.
  - cbn [omap list_omap]. rewrite app_nil_r, take_ge by lia.
    destruct Ha as [->|[-> ->]]; [done|]. by destruct (_ <? max).
  - destruct Ha as (-> & -> & Hoff & Hc & Ht & -> & Hnext & Hr & Hrest). cbn [andb]. cbv zeta.
    destruct (Z.ltb_spec (Z.of_nat (length entries)) max) as [Hlt|Hge].
    2:{ rewrite take_app_le, take_ge by lia. done. }
    rewrite <- Hoff in Hc, Ht. rewrite <- Hoff at 1. rewrite (list_header_spec t m path pth h) by (done || lia). cbn [obind].
    rewrite Hnext. rewrite IH; try done; try lia.
    + cbn [omap list_omap]. destruct (child_entry pth h); [by rewrite <- app_assoc|done].
    + destruct (child_entry pth h); [rewrite length_app; simpl; lia|lia].
Qed.

(** ** The properties *)

(** tar_find on any memory taken as an archive: the headers form a list with
    at most one per 512 bytes, the search ends, and the result is the data of the
    first regular file of that name with its recorded size, or NULL when there is
    none. *)
Theorem tar_find_correct (t : tar_state) (m : mem) (name : Z) (nm : list Z) :
  0 ≤ tar_size t ≤ 2 ^ 61 → cstr m name nm →
  ∃ hs, archive t m 0 hs ∧ Z.of_nat (length hs) * 512 ≤ tar_size t ∧
    tar_find t m name = Ret ((λ h, (tar_data t + hd_off h + 512, hd_size h)) <$> find_header nm hs).
Proof.
  intros Hts Hnm. destruct (archive_total t m (Z.to_nat (tar_size t / 512)) 0) as (hs & Ha & Hl).
  { pose proof (Z.div_mod (tar_size t) 512 ltac:(lia)). pose proof (Z.mod_pos_bound (tar_size t) 512 ltac:(lia)). lia. }
  exists hs. split; [done|]. split; [pose proof (Z.div_mod (tar_size t) 512 ltac:(lia)); pose proof (Z.mod_pos_bound (tar_size t) 512 ltac:(lia)); lia|].
  apply find_loop_spec; try done; [lia|]. unfold tar_fuel. lia.
Qed.

(** tar_listdir, for an archive at a non-NULL address: the entries are, in
    archive order and up to the maximum, those whose name continues the path by
    one component, with the name in the directory cut at 99 characters and the
    type and size of the header. *)
Theorem tar_listdir_correct (t : tar_state) (m : mem) (path max : Z) (pth : list Z) :
  0 < tar_data t → 0 ≤ tar_size t ≤ 2 ^ 61 → cstr m path pth → 0 ≤ max →
  ∃ hs, archive t m 0 hs ∧
    tar_listdir t m path max = Ret (take (Z.to_nat max) (omap (child_entry pth) hs)).
Proof.
  intros Hd Hts Hp Hmax. destruct (archive_total t m (Z.to_nat (tar_size t / 512)) 0) as (hs & Ha & Hl).
  { pose proof (Z.div_mod (tar_size t) 512 ltac:(lia)). pose proof (Z.mod_pos_bound (tar_size t) 512 ltac:(lia)). lia. }
  exists hs. split; [done|]. unfold tar_listdir. rewrite (strlen_spec m path pth Hp). cbn [obind].
  rewrite (listdir_loop_spec t m path pth max hs) by (done || simpl; unfold tar_fuel; lia). done.
Qed.

(** ** A concrete archive: "bin/", "bin/ls" of 5 bytes and "binary" *)

Definition demo_tar : tar_state := tar_init 4096 2560.
Definition demo_header (m : mem) (off : Z) (nm : list Z) (type : Z) (size : list Z) : mem :=
  store8 (put_string (put_string m (4096 + off) nm) (4096 + off + 124) size) (4096 + off + 156) type.
Definition demo_tar_mem : mem :=
  put_string (put_string
    (demo_header (demo_header (demo_header ∅ 0 [98; 105; 110; 47] 53 [48; 48])
      512 [98; 105; 110; 47; 108; 115] 48 [48; 53])
      1536 [98; 105; 110; 97; 114; 121] 48 [48; 48])
    100 [98; 105; 110; 47; 108; 115]) 200 [98; 105; 110].

Lemma tar_find_correct_witness :
  tar_find demo_tar demo_tar_mem 100 = Ret (Some (4096 + 1024, 5)) ∧
  ∃ hs, archive demo_tar demo_tar_mem 0 hs ∧
    tar_find demo_tar demo_tar_mem 100 =
      Ret ((λ h, (4096 + hd_off h + 512, hd_size h)) <$> find_header [98; 105; 110; 47; 108; 115] hs).
Proof.
  split; [vm_compute; reflexivity|].
  destruct (tar_find_correct demo_tar demo_tar_mem 100 [98; 105; 110; 47; 108; 115]) as (hs & H1 & _ & H2).
  - split; discriminate.
  - repeat (split; [vm_compute; reflexivity|]; split; [discriminate|]). vm_compute. reflexivity.
  - exists hs. split; [exact H1|exact H2].
Defined.

Lemma tar_listdir_correct_witness :
  ∃ hs, archive demo_tar demo_tar_mem 0 hs ∧
    tar_listdir demo_tar demo_tar_mem 200 10 = Ret (take 10 (omap (child_entry [98; 105; 110]) hs)).
Proof.
  destruct (tar_listdir_correct demo_tar demo_tar_mem 200 10 [98; 105; 110]) as (hs & H1 & H2).
  - reflexivity.
  - split; discriminate.
  - repeat (split; [vm_compute; reflexivity|]; split; [discriminate|]). vm_compute. reflexivity.
  - discriminate.
  - exists hs. split; [exact H1|exact H2].
Defined.

(** The listing of "bin" also shows the rest "ary" of the name "binary", which
    is not in that directory: the path is compared as a prefix only. *)
Theorem tar_listdir_prefix_match :
  tar_listdir demo_tar demo_tar_mem 200 10 =
    Ret [mkEntry [108; 115] 48 5; mkEntry [97; 114; 121] 48 0].
Proof. vm_compute. reflexivity. Qed.
