(* ===== verification/Vfs.v ===== *)
(** * The virtual file system (src/fs/vfs.c, tar_vfs.c, dev_vfs.c)

    Paths have the form "drive:/name/name".  Drive 0 is the tar archive, drive 1
    the registered devices.  A node is a struct on the kernel heap with a table of
    function pointers; the tables of the program are the values of [ops_table], and
    a NULL entry of a table is [None].  The nodes are kept in a map from address to
    record; a string argument is the list of its bytes. *)

From S2P Require Import Prelude ByteMem FrameAlloc CStr Printf Tar.

Definition MAX_DRIVES : Z := 8.
Definition MAX_NAME : Z := 256.
Definition MAX_DEVFS_ENTRIES : Z := 32.

Inductive node_type := NODE_FILE | NODE_DIR | NODE_DEVICE.

#[export] Instance node_type_eq_dec : EqDecision node_type.
Proof. solve_decision. Defined.

(** The addresses of the program's fsnode_ops_t tables. *)
Inductive ops_table :=
| tarfs_ops | devfs_root_ops | stdin_ops | stdout_ops | null_ops | zero_ops | fb_ops.

#[export] Instance ops_table_eq_dec : EqDecision ops_table.
Proof. solve_decision. Defined.

(** fsnode_t, dirent_t, drive_t and devfs_entry_t. *)
Record fsnode := mkNode {
  nd_type : node_type; nd_ops : option ops_table; nd_data : Z; nd_size : Z; nd_refcount : Z }.
Record dirent := mkDirent { de_name : list Z; de_type : node_type; de_size : Z }.
Record drive := mkDrive { dr_root : Z; dr_label : list Z; dr_present : bool }.
Record devfs_entry := mkDev {
  dv_name : list Z; dv_ops : option ops_table; dv_data : Z; dv_present : bool }.

Definition SIZEOF_FSNODE : Z := 40.

(** The kernel heap, the memory that holds the archive, and the variables of the
    three files. *)
Record fs_state (H : Type) := mkFs {
  fs_heap : H; fs_mem : mem; fs_tar : tar_state; fs_nodes : gmap Z fsnode;
  vfs_drives : list drive; tarfs_root : Z;
  entries : list devfs_entry; entry_count : Z; devfs_root : Z }.
Arguments mkFs {H} _ _ _ _ _ _ _ _ _.
Arguments fs_heap {H} _.
Arguments fs_mem {H} _.
Arguments fs_tar {H} _.
Arguments fs_nodes {H} _.
Arguments vfs_drives {H} _.
Arguments tarfs_root {H} _.
Arguments entries {H} _.
Arguments entry_count {H} _.
Arguments devfs_root {H} _.

(** ** Paths *)

(** The digits before the colon; an int that overflows is undefined. *)
Fixpoint drive_digits (l : list Z) (drive_num : Z) : outcome (option Z) :=
  match l with
  | [] => Ret (Some drive_num)
  | c :: l' =>
      if (schar c <? 48) || (57 <? schar c) then Ret None
      else
        let n := drive_num * 10 + (schar c - 48) in
        if fits_int n then drive_digits l' n else Fault
  end.

(** [None] is -1; otherwise the drive number and what follows the colon. *)
Definition parse_path (path : list Z) : outcome (option (Z * list Z)) :=
  match first_index 58 path with
  | None => Ret None
  | Some colon =>
      d <~ drive_digits (take colon path) 0 ;;
      Ret ((λ n, (n, drop (S colon) path)) <$> d)
  end.

Fixpoint skip_slashes (path : list Z) : list Z :=
  match path with
  | c :: path' => if c =? 47 then skip_slashes path' else path
  | [] => []
  end.

(** The copying loop: up to a slash, the end, or [n] characters. *)
Fixpoint copy_component (n : nat) (path : list Z) : list Z * list Z :=
  match n, path with
  | S n', c :: path' =>
      if c =? 47 then ([], path)
      else let '(out, rest) := copy_component n' path' in (c :: out, rest)
  | _, _ => ([], path)
  end.

(** [None] is NULL; otherwise the component and the rest of the path. *)
Definition next_component (path : list Z) : option (list Z * list Z) :=
  match skip_slashes path with
  | [] => None
  | path => Some (copy_component (Z.to_nat (MAX_NAME - 1)) path)
  end.

(** The string at [p]. *)
Definition str_at (m : mem) (p : Z) : outcome (list Z) :=
  len <~ strlen m p ;; Ret (bytes_at m p len).

(** The name of a directory's header without its final slash, copied to a local
    array of 256 bytes. *)
Definition dir_name (m : mem) (dirhdr : Z) : outcome (list Z) :=
  name <~ str_at m dirhdr ;;
  let len := Z.of_nat (length name) in
  let len := if (0 <? len) && (load8 m (dirhdr + (len - 1)) =? 47) then len - 1 else len in
  if len <? 256 then Ret (take (Z.to_nat len) name) else Fault.

(** The full path of [name] in the directory: 0 is the root. *)
Definition tarfs_fullpath (m : mem) (dirhdr : Z) (name : list Z) : outcome (list Z) :=
  if negb (dirhdr =? 0) then
    dirname <~ dir_name m dirhdr ;;
    vsnprintf 256 (chars "%s/%s") [VaStr (Some dirname); VaStr (Some name)]
  else if Z.of_nat (length name) <? 256 then Ret name else Fault.

(** The condition of the search, for the header at [hdr] called [hname]. *)
Definition header_matches (m : mem) (hdr : Z) (hname fullpath : list Z) : bool :=
  let n := length fullpath in
  (str_diff hname fullpath =? 0) ||
  ((load8 m (hdr + HDR_TYPE_FIELD) =? 53) && (str_diff (take n hname) (take n fullpath) =? 0) &&
   (load8 m (hdr + Z.of_nat n) =? 47) && (load8 m (hdr + Z.of_nat n + 1) =? 0)).

(** The search of tarfs_lookup: the address of the header, or NULL. *)
Fixpoint tarfs_search (fuel : nat) (t : tar_state) (m : mem) (fullpath : list Z) (offset : Z) :
    outcome (option Z) :=
  match fuel with
  | O => Diverge
  | S f =>
      if offset +64 512 <=? tar_size t then
        let hdr := tar_data t + offset in
        if load8 m hdr =? 0 then Ret None
        else
          let file_size := tar_parse_octal m (hdr + HDR_SIZE_FIELD) 12 in
          hname <~ str_at m hdr ;;
          if header_matches m hdr hname fullpath then Ret (Some hdr)
          else tarfs_search f t m fullpath (next_offset offset file_size)
      else Ret None
  end.

(** The entry the header at [hdr] contributes to the listing of [path], if any. *)
Definition tarfs_entry (m : mem) (path : list Z) (hdr file_size : Z) : outcome (option dirent) :=
  let path_len := length path in
  hname <~ str_at m hdr ;;
  if (path_len =? 0)%nat || (str_diff (take path_len hname) path =? 0) then
    let relative := hdr + Z.of_nat path_len in
    let relative := if load8 m relative =? 47 then relative + 1 else relative in
    e <~ list_relative m relative hdr file_size ;;
    Ret ((λ e, mkDirent (te_name e) (if te_type e =? 53 then NODE_DIR else NODE_FILE) (te_size e)) <$> e)
  else Ret None.

(** The loop of tarfs_readdir; [None] is -1. *)
Fixpoint tarfs_readdir_loop (fuel : nat) (t : tar_state) (m : mem) (path : list Z)
    (index seen offset : Z) : outcome (option dirent) :=
  match fuel with
  | O => Diverge
  | S f =>
      if offset +64 512 <=? tar_size t then
        let hdr := tar_data t + offset in
        if load8 m hdr =? 0 then Ret None
        else
          let file_size := tar_parse_octal m (hdr + HDR_SIZE_FIELD) 12 in
          e <~ tarfs_entry m path hdr file_size ;;
          match e with
          | Some e =>
              if seen =? index then Ret (Some e)
              else tarfs_readdir_loop f t m path index (u32 (seen + 1)) (next_offset offset file_size)
          | None => tarfs_readdir_loop f t m path index seen (next_offset offset file_size)
          end
      else Ret None
  end.

(** The first present entry called [name], from index [i] on, [n] to go.  Names
    are arrays of 32 bytes that end in a terminator. *)
Fixpoint devfs_find (n : nat) (es : list devfs_entry) (i : Z) (name : list Z) : outcome (option devfs_entry) :=
  match n with
  | O => Ret None
  | S n' =>
      match es !! Z.to_nat i with
      | None => Fault
      | Some e =>
          if negb (dv_present e) then devfs_find n' es (i + 1) name
          else if str_diff (dv_name e) name =? 0 then Ret (Some e)
          else devfs_find n' es (i + 1) name
      end
  end.

Fixpoint devfs_nth (n : nat) (es : list devfs_entry) (i seen index : Z) : outcome (option devfs_entry) :=
  match n with
  | O => Ret None
  | S n' =>
      match es !! Z.to_nat i with
      | None => Fault
      | Some e =>
          if negb (dv_present e) then devfs_nth n' es (i + 1) seen index
          else if seen =? index then Ret (Some e)
          else devfs_nth n' es (i + 1) (u32 (seen + 1)) index
      end
  end.

Section Vfs.
Context {H : Type} `{OH : ObjHeap H}.

Abbreviation FM := (M (fs_state H)).

Definition set_fs_heap (h : H) (s : fs_state H) : fs_state H :=
  mkFs h (fs_mem s) (fs_tar s) (fs_nodes s) (vfs_drives s) (tarfs_root s) (entries s) (entry_count s) (devfs_root s).
Definition set_nodes (m : gmap Z fsnode) (s : fs_state H) : fs_state H :=
  mkFs (fs_heap s) (fs_mem s) (fs_tar s) m (vfs_drives s) (tarfs_root s) (entries s) (entry_count s) (devfs_root s).
Definition set_fs_mem (m : mem) (s : fs_state H) : fs_state H :=
  mkFs (fs_heap s) m (fs_tar s) (fs_nodes s) (vfs_drives s) (tarfs_root s) (entries s) (entry_count s) (devfs_root s).
Definition set_drives (d : list drive) (s : fs_state H) : fs_state H :=
  mkFs (fs_heap s) (fs_mem s) (fs_tar s) (fs_nodes s) d (tarfs_root s) (entries s) (entry_count s) (devfs_root s).
Definition set_tarfs_root (r : Z) (s : fs_state H) : fs_state H :=
  mkFs (fs_heap s) (fs_mem s) (fs_tar s) (fs_nodes s) (vfs_drives s) r (entries s) (entry_count s) (devfs_root s).
Definition set_entries (es : list devfs_entry) (n : Z) (s : fs_state H) : fs_state H :=
  mkFs (fs_heap s) (fs_mem s) (fs_tar s) (fs_nodes s) (vfs_drives s) (tarfs_root s) es n (devfs_root s).
Definition set_devfs_root (r : Z) (s : fs_state H) : fs_state H :=
  mkFs (fs_heap s) (fs_mem s) (fs_tar s) (fs_nodes s) (vfs_drives s) (tarfs_root s) (entries s) (entry_count s) r.

Definition get_node (p : Z) : FM fsnode := ns <- gets fs_nodes ;; of_opt (ns !! p).
Definition put_node (p : Z) (n : fsnode) : FM unit := modify (λ s, set_nodes (<[p := n]> (fs_nodes s)) s).
Definition with_refcount (c : Z) (n : fsnode) : fsnode :=
  mkNode (nd_type n) (nd_ops n) (nd_data n) (nd_size n) c.

(** kmalloc(sizeof(fsnode_t)) with the fields then assigned, and kfree(node). *)
Definition new_node (n : fsnode) : FM Z :=
  p <- zoom fs_heap set_fs_heap (oh_malloc SIZEOF_FSNODE) ;; put_node p n ;;; ret p.
Definition free_node (p : Z) : FM unit :=
  zoom fs_heap set_fs_heap (oh_free p) ;;; modify (λ s, set_nodes (delete p (fs_nodes s)) s).

(** ** tar_vfs.c *)

Definition tarfs_make_node (hdr : Z) : FM Z :=
  m <- gets fs_mem ;;
  new_node (mkNode (if load8 m (hdr + HDR_TYPE_FIELD) =? 53 then NODE_DIR else NODE_FILE)
    (Some tarfs_ops) hdr (tar_parse_octal m (hdr + HDR_SIZE_FIELD) 12) 1).

Definition tarfs_lookup (dir : Z) (name : list Z) : FM Z :=
  d <- get_node dir ;;
  m <- gets fs_mem ;;
  t <- gets fs_tar ;;
  fullpath <- lift (tarfs_fullpath m (nd_data d) name) ;;
  r <- lift (tarfs_search (tar_fuel t) t m fullpath 0) ;;
  match r with Some hdr => tarfs_make_node hdr | None => ret 0 end.

Definition tarfs_readdir (dir index : Z) : FM (option dirent) :=
  d <- get_node dir ;;
  m <- gets fs_mem ;;
  t <- gets fs_tar ;;
  path <- (if negb (nd_data d =? 0) then lift (dir_name m (nd_data d)) else ret []) ;;
  lift (tarfs_readdir_loop (tar_fuel t) t m path index 0 0).

(** The result is an int. *)
Definition tarfs_read (node buf len off : Z) : FM Z :=
  n <- get_node node ;;
  let file_size := nd_size n in
  let file_data := nd_data n + 512 in
  if file_size <=? off then ret 0
  else
    let to_read := len in
    let to_read := if file_size <? off +64 to_read then file_size -64 off else to_read in
    modify (λ s, set_fs_mem (memcpy (fs_mem s) buf (file_data + off) to_read) s) ;;;
    ret (s32 to_read).

(** Both release functions: one reference less, and kfree at zero. *)
Definition drop_reference (node : Z) : FM unit :=
  n <- get_node node ;;
  (if 0 <? nd_refcount n then put_node node (with_refcount (nd_refcount n - 1) n) else ret tt) ;;;
  n <- get_node node ;;
  if nd_refcount n =? 0 then free_node node else ret tt.

Definition tarfs_release (node : Z) : FM unit := drop_reference node.

(** vfs_drives[i].root = root; .present = 1; strncpy(.label, label, 63). *)
Definition set_drive (i root : Z) (label : list Z) : FM unit :=
  ds <- gets vfs_drives ;;
  match ds !! Z.to_nat i with
  | None => fault
  | Some _ => modify (set_drives (<[Z.to_nat i := mkDrive root label true]> ds))
  end.

Definition tarfs_init : FM unit :=
  p <- new_node (mkNode NODE_DIR (Some tarfs_ops) 0 0 1) ;;
  modify (set_tarfs_root p) ;;;
  set_drive 0 p (chars "initrd").

Definition tarfs_get_root : FM Z := gets tarfs_root.

(** ** dev_vfs.c *)

Definition devfs_lookup (dir : Z) (name : list Z) : FM Z :=
  n <- gets entry_count ;;
  es <- gets entries ;;
  e <- lift (devfs_find (Z.to_nat n) es 0 name) ;;
  match e with
  | Some e => new_node (mkNode NODE_DEVICE (dv_ops e) (dv_data e) 0 1)
  | None => ret 0
  end.

Definition devfs_readdir (dir index : Z) : FM (option dirent) :=
  n <- gets entry_count ;;
  es <- gets entries ;;
  e <- lift (devfs_nth (Z.to_nat n) es 0 0 index) ;;
  ret ((λ e, mkDirent (dv_name e) NODE_DEVICE 0) <$> e).

Definition devfs_release (node : Z) : FM unit :=
  root <- gets devfs_root ;;
  if node =? root then ret tt else drop_reference node.

Definition devfs_init : FM unit :=
  modify (λ s, set_entries (entries s) 0 s) ;;;
  p <- new_node (mkNode NODE_DIR (Some devfs_root_ops) 0 0 1) ;;
  modify (set_devfs_root p) ;;;
  set_drive 1 p (chars "dev").

(** A full table only makes the kernel print a message. *)
Definition devfs_register (name : list Z) (ops : option ops_table) (data : Z) : FM unit :=
  n <- gets entry_count ;;
  if MAX_DEVFS_ENTRIES <=? n then ret tt
  else
    es <- gets entries ;;
    match es !! Z.to_nat n with
    | None => fault
    | Some _ =>
        modify (set_entries (<[Z.to_nat n := mkDev (take 31 name) ops data true]> es) (n + 1))
    end.

Definition devfs_get_root : FM Z := gets devfs_root.

(** ** The tables of function pointers *)

Definition ops_lookup (o : ops_table) : option (Z → list Z → FM Z) :=
  match o with
  | tarfs_ops => Some tarfs_lookup
  | devfs_root_ops => Some devfs_lookup
  | _ => None
  end.

Definition ops_readdir (o : ops_table) : option (Z → Z → FM (option dirent)) :=
  match o with
  | tarfs_ops => Some tarfs_readdir
  | devfs_root_ops => Some devfs_readdir
  | _ => None
  end.

Definition ops_release (o : ops_table) : option (Z → FM unit) :=
  match o with
  | tarfs_ops => Some tarfs_release
  | devfs_root_ops => Some devfs_release
  | _ => None
  end.

(** ** vfs.c *)

(** [if (node->ops && node->ops->release) node->ops->release(node)] *)
Definition release (node : Z) : FM unit :=
  n <- get_node node ;;
  match nd_ops n ≫= ops_release with Some f => f node | None => ret tt end.

(** [if (cur != root && cur->ops && cur->ops->release) cur->ops->release(cur)] *)
Definition release_inner (root cur : Z) : FM unit :=
  if negb (cur =? root) then release cur else ret tt.

(** The loop of vfs_resolve; [None] is its [return NULL]. *)
Fixpoint resolve_loop (fuel : nat) (root cur : Z) (p : list Z) : FM (option Z) :=
  match fuel with
  | O => diverge
  | S f =>
      match next_component p with
      | None => ret (Some cur)
      | Some (component, p) =>
          n <- get_node cur ;;
          if negb (bool_decide (nd_type n = NODE_DIR)) then release_inner root cur ;;; ret None
          else
            match nd_ops n ≫= ops_lookup with
            | None => release_inner root cur ;;; ret None
            | Some lookup =>
                next <- lookup cur component ;;
                release_inner root cur ;;;
                if next =? 0 then ret None else resolve_loop f root next p
            end
      end
  end.

(** 0 is NULL.  Every step of the loop consumes a character of the path. *)
Definition vfs_resolve (path : list Z) : FM Z :=
  r <- lift (parse_path path) ;;
  match r with
  | None => ret 0
  | Some (drive_num, rel_path) =>
      if (drive_num <? 0) || (MAX_DRIVES <=? drive_num) then ret 0
      else
        ds <- gets vfs_drives ;;
        d <- of_opt (ds !! Z.to_nat drive_num) ;;
        if negb (dr_present d) then ret 0
        else
          let root := dr_root d in
          if root =? 0 then ret 0
          else
            r <- resolve_loop (S (length rel_path)) root root rel_path ;;
            match r with
            | None => ret 0
            | Some cur =>
                (if cur =? root
                 then n <- get_node root ;; put_node root (with_refcount (u32 (nd_refcount n + 1)) n)
                 else ret tt) ;;;
                ret cur
            end
  end.

End Vfs.
