(* ===== verification/VfsThms.v ===== *)
(** * Theorems about the virtual file system

    The reference is a walk over immutable nodes: no addresses, no reference
    counts, the archive as its list of headers.  vfs_resolve computes that walk and
    leaves no node behind but the one it returns. *)

From S2P Require Import Prelude ByteMem FrameAlloc Pmm Heap HeapThms CStr Printf Tar Vfs.

(** ** Paths *)

Lemma drive_digits_spec ds : ∀ n,
  Forall (is_digit 10) ds → 0 ≤ n → foldl (λ v c, v * 10 + digit_value c) n ds ≤ 2147483647 →
  drive_digits ds n = Ret (Some (foldl (λ v c, v * 10 + digit_value c) n ds)).
Proof.
  induction ds as [|c ds IH]; intros n Hd Hn Hle; [done|]. apply Forall_cons in Hd as [Hc Hd].
  cbn [foldl drive_digits] in *.
  assert (48 ≤ c ≤ 57) as Hr by (destruct Hc as [? ?]; unfold digit_value in *; destruct (Z.ltb_spec c 58); lia).
  assert (digit_value c = c - 48) as Ev by (unfold digit_value; destruct (Z.ltb_spec c 58); lia).
  assert (schar c = c) as -> by (unfold schar; destruct (Z.ltb_spec c 128); lia).
  replace ((c <? 48) || (57 <? c)) with false by lia. cbv zeta. rewrite Ev in *.
  assert (n * 10 + (c - 48) ≤ foldl (λ v c, v * 10 + digit_value c) (n * 10 + (c - 48)) ds) as Hmono.
  { assert (0 ≤ n * 10 + (c - 48)) as Hk by lia. revert Hd Hk. generalize (n * 10 + (c - 48)). clear.
    induction ds as [|d ds IH]; intros k Hd Hk; cbn [foldl]; [lia|]. apply Forall_cons in Hd as [[? ?] Hd].
    specialize (IH (k * 10 + digit_value d) Hd ltac:(lia)). lia. }
  unfold fits_int. replace (_ && _) with true by lia. apply IH; [done|lia|done].
Qed.

Lemma first_index_app ch l l' : ch ∉ l → first_index ch (l ++ ch :: l') = Some (length l).
Proof.
  induction l as [|c l IH]; cbn [app first_index length]; [by rewrite Z.eqb_refl|].
  intros [Hc Hl]%not_elem_of_cons. destruct (Z.eqb_spec c ch); [congruence|]. by rewrite IH.
Qed.

Lemma skip_slashes_head p : skip_slashes p = [] ∨ ∃ c q, skip_slashes p = c :: q ∧ c ≠ 47.
Proof.
  induction p as [|c p IH]; cbn [skip_slashes]; [by left|]. destruct (Z.eqb_spec c 47); [done|eauto].
Qed.

Lemma skip_slashes_length p : (length (skip_slashes p) ≤ length p)%nat.
Proof. induction p as [|c p IH]; cbn [skip_slashes length]; [done|]. destruct (c =? 47); simpl; lia. Qed.

Lemma copy_component_spec n : ∀ p out rest,
  copy_component n p = (out, rest) → p = out ++ rest ∧ (47 ∉ out) ∧ (length out ≤ n)%nat.
Proof.
  induction n as [|n IH]; intros [|c p] out rest E; cbn [copy_component] in E;
    try (injection E as <- <-; split_and!; [done|apply not_elem_of_nil|simpl; lia]).
  destruct (Z.eqb_spec c 47); [injection E as <- <-; split_and!; [done|apply not_elem_of_nil|simpl; lia]|].
  destruct (copy_component n p) as [o r] eqn:E'. injection E as <- <-.
  destruct (IH _ _ _ E') as (-> & Ho & Hl). split_and!; [done| |simpl; lia]. apply not_elem_of_cons. split; congruence.
Qed.

Lemma copy_component_nonempty n d q out rest :
  copy_component (S n) (d :: q) = (out, rest) → d ≠ 47 → out ≠ [].
Proof.
  intros E Hd. cbn [copy_component] in E. destruct (Z.eqb_spec d 47); [done|].
  destruct (copy_component n q). by injection E as <- _.
Qed.

(** What a component is: not empty, without slash, shorter than MAX_NAME. *)
Definition component (c : list Z) : Prop := c ≠ [] ∧ (47 ∉ c) ∧ (length c ≤ 255)%nat.

Lemma next_component_spec p c rest :
  next_component p = Some (c, rest) → component c ∧ (length rest < length p)%nat.
Proof.
  unfold next_component. pose proof (skip_slashes_length p) as Hl.
  destruct (skip_slashes_head p) as [->|(d & q & E & Hd)]; [done|]. rewrite E in Hl |- *. intros Hc.
  change (Z.to_nat (MAX_NAME - 1)) with 255%nat in Hc. apply (inj Some) in Hc.
  destruct (copy_component_spec _ _ _ _ Hc) as (Eq & H1 & H2).
  pose proof (copy_component_nonempty 254 d q c rest Hc Hd) as Hne.
  split; [done|]. rewrite Eq, length_app in Hl. destruct c; [done|]. simpl in Hl. lia.
Qed.

(** Components and the rest of a path are made of its characters. *)
Lemma next_component_chars p c rest :
  next_component p = Some (c, rest) → (∀ x, x ∈ c → x ∈ p) ∧ (∀ x, x ∈ rest → x ∈ p).
Proof.
  unfold next_component. assert (∀ x, x ∈ skip_slashes p → x ∈ p) as Hsub.
  { clear. intros x. induction p as [|d p IH]; cbn [skip_slashes]; [done|]. destruct (d =? 47); [|done].
    intros Hx. right. by apply IH. }
  destruct (skip_slashes p) as [|d q] eqn:E; [done|]. intros Hc. apply (inj Some) in Hc.
  destruct (copy_component_spec _ _ _ _ Hc) as (Eq & _). rewrite Eq in Hsub. split; intros x Hx; apply Hsub; set_solver.
Qed.

(** The components of a path, as vfs_resolve meets them. *)
Fixpoint comps (fuel : nat) (p : list Z) : list (list Z) :=
  match fuel with
  | O => []
  | S f => match next_component p with None => [] | Some (c, p') => c :: comps f p' end
  end.
Definition components (p : list Z) : list (list Z) := comps (S (length p)) p.

Lemma comps_fuel f : ∀ g p, (length p < f)%nat → (length p < g)%nat → comps f p = comps g p.
Proof.
  induction f as [|f IH]; intros [|g] p Hf Hg; try lia. cbn [comps].
  destruct (next_component p) as [[c p']|] eqn:E; [|done].
  destruct (next_component_spec _ _ _ E) as [_ Hl]. f_equal. apply IH; lia.
Qed.

Lemma components_step p c p' : next_component p = Some (c, p') → components p = c :: components p'.
Proof.
  intros E. destruct (next_component_spec _ _ _ E) as [_ Hl]. unfold components.
  rewrite (comps_fuel (S (length p')) (length p)) by lia. cbn [comps]. by rewrite E.
Qed.

Lemma components_nil p : next_component p = None → components p = [].
Proof. intros E. unfold components. cbn [comps]. by rewrite E. Qed.

(** "/a/b/c" from its components. *)
Definition join_path (cs : list (list Z)) : list Z := concat (cons 47 <$> cs).

Lemma copy_component_app c p : ∀ n,
  (47 ∉ c) → (length c ≤ n)%nat → (p = [] ∨ ∃ q, p = 47 :: q) → copy_component n (c ++ p) = (c, p).
Proof.
  induction c as [|d c IH]; intros n Hc Hn Hp; cbn [app].
  - destruct Hp as [->|[q ->]]; destruct n; done.
  - apply not_elem_of_cons in Hc as [Hd Hc]. destruct n as [|n]; [simpl in Hn; lia|]. cbn [copy_component].
    destruct (Z.eqb_spec d 47); [congruence|]. rewrite IH; [done|done|simpl in Hn; lia|done].
Qed.

Lemma next_component_cons c p :
  component c → (p = [] ∨ ∃ q, p = 47 :: q) → next_component (47 :: c ++ p) = Some (c, p).
Proof.
  intros (Hne & Hs & Hl) Hp. unfold next_component. cbn [skip_slashes]. rewrite Z.eqb_refl.
  destruct c as [|d c]; [done|]. cbn [app skip_slashes]. apply not_elem_of_cons in Hs as [Hd Hs].
  destruct (Z.eqb_spec d 47); [congruence|]. f_equal. apply (copy_component_app (d :: c)); [|exact Hl|done].
  apply not_elem_of_cons. split; congruence.
Qed.

(** Putting components together and taking them apart again. *)
Lemma components_join cs : Forall component cs → components (join_path cs) = cs.
Proof.
  induction cs as [|c cs IH]; intros Hcs; [done|]. apply Forall_cons in Hcs as [Hc Hcs].
  unfold join_path. cbn [fmap list_fmap concat]. fold (join_path cs).
  change ((47 :: c) ++ join_path cs) with (47 :: c ++ join_path cs).
  rewrite (components_step _ c (join_path cs)), IH; [done|done|].
  apply next_component_cons; [done|]. destruct cs; [by left|]. right. by eexists.
Qed.

(** ** Headers and full paths *)

Lemma str_at_spec m p s : cstr m p s → str_at m p = Ret s.
Proof.
  intros Hs. unfold str_at. rewrite (strlen_spec m p s Hs). cbn [obind].
  by rewrite (bytes_at_cstr m p s), take_ge by done.
Qed.

(** The string at an address, which always exists. *)
Definition name_at (m : mem) (p : Z) : list Z := match str_at m p with Ret s => s | _ => [] end.

Lemma name_at_cstr m p : cstr m p (name_at m p).
Proof. destruct (cstr_total m p) as (s & Hs & _). unfold name_at. by rewrite (str_at_spec m p s). Qed.

(** A name without its final slash. *)
Definition strip_slash (nm : list Z) : list Z :=
  if decide (last nm = Some 47) then take (length nm - 1) nm else nm.

Lemma dir_name_spec m p nm : cstr m p nm → (length nm < 256)%nat → dir_name m p = Ret (strip_slash nm).
Proof.
  intros Hc Hl. unfold dir_name, strip_slash. rewrite (str_at_spec m p nm Hc). cbn [obind]. cbv zeta.
  rewrite last_lookup. destruct nm as [|c nm'] eqn:E.
  { rewrite decide_False by done. done. }
  rewrite <- E in *. assert (0 < length nm)%nat as Hpos by (rewrite E; simpl; lia).
  destruct (lookup_lt_is_Some_2 nm (pred (length nm))) as [d Hd]; [lia|].
  assert (load8 m (p + (Z.of_nat (length nm) - 1)) = d) as ->.
  { rewrite <- (cstr_lookup m nm p (pred (length nm)) d Hc); [f_equal; lia|]. by apply lookup_app_l_Some. }
  rewrite Hd. destruct (Z.ltb_spec 0 (Z.of_nat (length nm))); [|lia]. cbn [andb].
  destruct (Z.eqb_spec d 47) as [->|Hne].
  - rewrite decide_True by done. destruct (Z.ltb_spec (Z.of_nat (length nm) - 1) 256); [|lia]. do 2 f_equal. lia.
  - rewrite decide_False by congruence. destruct (Z.ltb_spec (Z.of_nat (length nm)) 256); [|lia].
    by rewrite take_ge by lia.
Qed.

(** The conversion 's' without flags, with room for the string. *)
Lemma conv_s_plain size s args out :
  Z.of_nat (length out) + Z.of_nat (length s) ≤ size - 1 → size < W64 → Z.of_nat (length s) ≤ 2147483648 →
  conv_s size plain (VaStr (Some s) :: args) out = Ret (out ++ s, args).
Proof.
  intros H1 H2 H3. unfold conv_s. cbn [va_str obind default]. cbv zeta.
  cbn [plain precision]. change (0 <=? -1) with false. cbn [andb]. rewrite Nat2Z.id, take_ge by done.
  by rewrite PAD_AND_PUT_plain.
Qed.

(** "%s/%s" in a buffer of [size] bytes: the joined names, cut to fit. *)
Lemma vsnprintf_join a b size :
  1 ≤ size → size + Z.of_nat (length a) + Z.of_nat (length b) ≤ 2147483648 →
  vsnprintf size (chars "%s/%s") [VaStr (Some a); VaStr (Some b)] =
    Ret (take (Z.to_nat (size - 1)) (a ++ 47 :: b)).
Proof.
  intros H1 H2. set (big := size + Z.of_nat (length a) + Z.of_nat (length b) + 2).
  rewrite (vsnprintf_prefix_eq size big) by (unfold big; lia).
  assert (vsnprintf big (chars "%s/%s") [VaStr (Some a); VaStr (Some b)] = Ret (a ++ 47 :: b)) as ->; [|done].
  unfold vsnprintf. change (chars "%s/%s") with [37; 115; 47; 37; 115]. cbn [length vsnprintf_loop].
  change (negb (37 =? 37)) with false. change (negb (47 =? 37)) with true. cbv iota.
  change (parse_spec [115; 47; 37; 115] ?args) with (Ret (plain, [115; 47; 37; 115], args)).
  change (convert 115 ?sz) with (conv_s sz). cbn [obind].
  rewrite conv_s_plain by (unfold big; simpl; lia). cbn [obind app].
  assert (PUT big a 47 = a ++ [47]) as ->.
  { unfold PUT. rewrite u64_small by (unfold big; lia).
    destruct (Z.ltb_spec (Z.of_nat (length a)) (big - 1)); [done|unfold big in *; lia]. }
  change (parse_spec [115] ?args) with (Ret (plain, [115], args)). cbn [obind].
  rewrite conv_s_plain by (rewrite ?length_app; unfold big; simpl; lia). cbn [obind]. by rewrite <- app_assoc.
Qed.

(** The full path under which tarfs_lookup searches for [c] in a directory. *)
Definition full_path (m : mem) (dirhdr : Z) (c : list Z) : list Z :=
  if decide (dirhdr = 0) then c else take 255 (strip_slash (name_at m dirhdr) ++ 47 :: c).

Lemma strip_slash_length nm : (length (strip_slash nm) ≤ length nm)%nat.
Proof. unfold strip_slash. case_decide; [rewrite length_take; lia|done]. Qed.

Lemma tarfs_fullpath_spec m dirhdr c :
  (length c ≤ 255)%nat → (dirhdr = 0 ∨ (length (name_at m dirhdr) < 256)%nat) →
  tarfs_fullpath m dirhdr c = Ret (full_path m dirhdr c).
Proof.
  intros Hc Hd. unfold tarfs_fullpath, full_path. destruct (Z.eqb_spec dirhdr 0) as [->|Hne]; cbn [negb].
  - rewrite decide_True by done. by destruct (Z.ltb_spec (Z.of_nat (length c)) 256); [|lia].
  - rewrite decide_False by done. destruct Hd as [?|Hd]; [done|].
    rewrite (dir_name_spec m dirhdr _ (name_at_cstr m dirhdr) Hd). cbn [obind].
    pose proof (strip_slash_length (name_at m dirhdr)). by rewrite vsnprintf_join by lia.
Qed.

(** The header of [fp], with the final slash that directories have. *)
Definition tar_match (fp : list Z) (h : header) : Prop :=
  hd_name h = fp ∨ (hd_type h = 53 ∧ hd_name h = fp ++ [47]).

#[export] Instance tar_match_dec fp h : Decision (tar_match fp h).
Proof. unfold tar_match. apply _. Defined.

Lemma str_diff_eqb a b : (∀ c, c ∈ a ++ b → 0 < c) → (str_diff a b =? 0) = bool_decide (a = b).
Proof.
  intros Hp. destruct (Z.eqb_spec (str_diff a b) 0) as [E|E]; symmetry.
  - apply bool_decide_eq_true. by apply str_diff_zero.
  - apply bool_decide_eq_false. intros ->. apply E. by apply str_diff_zero.
Qed.

(** The byte at index [n] of a string, or its terminator. *)
Lemma cstr_at m p s n : cstr m p s → (n ≤ length s)%nat → load8 m (p + Z.of_nat n) = default 0 (s !! n).
Proof.
  intros Hc Hn. destruct (decide (n = length s)) as [->|].
  - rewrite lookup_ge_None_2 by done. apply (cstr_lookup m s); [done|]. by rewrite list_lookup_middle.
  - destruct (lookup_lt_is_Some_2 s n) as [c Hs]; [lia|]. rewrite Hs. apply (cstr_lookup m s); [done|].
    by apply lookup_app_l_Some.
Qed.

Lemma header_matches_spec m p fp h :
  cstr m p (hd_name h) → load8 m (p + HDR_TYPE_FIELD) = hd_type h → (∀ c, c ∈ fp → 0 < c) →
  header_matches m p (hd_name h) fp = bool_decide (tar_match fp h).
Proof.
  intros Hc Ht Hfp. unfold header_matches, tar_match. cbv zeta. rewrite Ht, (take_ge fp) by done.
  assert (∀ c, c ∈ hd_name h → 0 < c) as Hn by (intros c Hin; by eapply cstr_bytes).
  rewrite (str_diff_eqb (hd_name h) fp) by (intros c [?|?]%elem_of_app; auto).
  rewrite (str_diff_eqb (take _ _) fp)
    by (intros c [(? & ?%list_elem_of_lookup_2 & _)%elem_of_take|?]%elem_of_app; auto).
  destruct (decide (hd_name h = fp)) as [E|E].
  { rewrite (bool_decide_true (hd_name h = fp)), (bool_decide_true (_ ∨ _)) by auto. done. }
  rewrite (bool_decide_false (hd_name h = fp)) by done. cbn [orb].
  destruct (Z.eqb_spec (hd_type h) 53) as [E5|E5]; cbn [andb].
  2:{ rewrite bool_decide_false; [done|]. tauto. }
  destruct (decide (take (length fp) (hd_name h) = fp)) as [Hpre|Hpre].
  2:{ rewrite (bool_decide_false (take _ _ = _)), bool_decide_false; [done| |done].
      intros [?|[_ Hx]]; [done|]. apply Hpre. by rewrite Hx, take_app_length. }
  rewrite (bool_decide_true (take _ _ = _)) by done. cbn [andb].
  pose proof (take_drop (length fp) (hd_name h)) as Hsplit. rewrite Hpre in Hsplit.
  destruct (drop (length fp) (hd_name h)) as [|d r] eqn:Ed.
  { exfalso. apply E. by rewrite <- Hsplit, app_nil_r. }
  assert (length (hd_name h) = (length fp + S (length r))%nat) as Hlen by (rewrite <- Hsplit, length_app; done).
  assert (load8 m (p + Z.of_nat (length fp)) = d) as ->.
  { rewrite (cstr_at m p _ (length fp) Hc) by lia. rewrite <- Hsplit. by rewrite list_lookup_middle. }
  assert (load8 m (p + Z.of_nat (length fp) + 1) = default 0 (r !! 0%nat)) as ->.
  { replace (p + Z.of_nat (length fp) + 1) with (p + Z.of_nat (S (length fp))) by lia.
    rewrite (cstr_at m p _ (S (length fp)) Hc) by lia. rewrite <- Hsplit, lookup_app_r by lia.
    by replace (S (length fp) - length fp)%nat with 1%nat by lia. }
  destruct (Z.eqb_spec d 47) as [->|Hd]; cbn [andb].
  - destruct r as [|e r].
    + by rewrite bool_decide_true by auto.
    + change (default 0 ((e :: r) !! 0%nat)) with e.
      assert (0 < e) by (apply Hn; rewrite <- Hsplit; set_solver). destruct (Z.eqb_spec e 0); [lia|].
      rewrite bool_decide_false; [done|]. intros [?|[_ Hx]]; [congruence|].
      rewrite <- Hsplit in Hx. by apply (inj (app fp)) in Hx.
  - rewrite bool_decide_false; [done|]. intros [?|[_ Hx]]; [congruence|].
    rewrite <- Hsplit in Hx. apply (inj (app fp)) in Hx. congruence.
Qed.

(** The search ends, at the first header that matches. *)
Lemma tarfs_search_spec t m fp hs : ∀ fuel off,
  0 ≤ off ≤ 2 ^ 62 → tar_size t ≤ 2 ^ 61 → archive t m off hs → (length hs < fuel)%nat →
  (∀ c, c ∈ fp → 0 < c) →
  tarfs_search fuel t m fp off =
    Ret ((λ ih, tar_data t + hd_off ih.2) <$> list_find (tar_match fp) hs).
Proof.
  induction hs as [|h hs IH]; intros [|fuel] off Ho Hts Ha Hf Hfp; cbn [length tarfs_search] in *; try lia;
    apply archive_step in Ha; try done.
  - destruct Ha as [->|[-> ->]]; done.
  - destruct Ha as (-> & -> & Hoff & Hc & Ht & -> & Hnext & Hr & Hrest). cbv zeta.
    rewrite (str_at_spec m _ _ Hc). cbn [obind]. rewrite (header_matches_spec m _ fp h Hc Ht Hfp).
    cbn [list_find]. rewrite Hnext. case_decide as Hm.
    + rewrite bool_decide_true by done. cbn. by rewrite Hoff.
    + rewrite bool_decide_false by done. rewrite IH by (done || lia). destruct (list_find (tar_match fp) hs) as [[]|]; done.
Qed.

(** ** Nodes on the heap *)

Lemma archive_length t m hs : ∀ off,
  archive t m off hs → hs ≠ [] → off + 512 * Z.of_nat (length hs) ≤ tar_size t.
Proof.
  induction hs as [|h hs IH]; intros off Ha Hne; [done|]. cbn [archive] in Ha.
  destruct Ha as (Hin & _ & _ & _ & _ & Hs & Hrest). cbn [length].
  pose proof (parse_octal_range m (tar_data t + off + HDR_SIZE_FIELD)) as Hr. rewrite <- Hs in Hr.
  pose proof (after_bounds off (hd_size h) ltac:(lia)).
  destruct hs as [|h' hs]; [simpl; lia|]. specialize (IH _ Hrest ltac:(done)). simpl in *. lia.
Qed.

Lemma archive_fuel t m hs : 0 ≤ tar_size t → archive t m 0 hs → (length hs < tar_fuel t)%nat.
Proof.
  intros Ht Ha. unfold tar_fuel. destruct hs as [|h hs]; [simpl; lia|].
  pose proof (archive_length t m _ 0 Ha ltac:(done)) as Hl. set (n := length (h :: hs)) in *.
  pose proof (Z.div_le_mono (512 * Z.of_nat n) (tar_size t) 512 ltac:(lia) ltac:(lia)) as Hd.
  rewrite Z.mul_comm, Z.div_mul in Hd by lia. lia.
Qed.

Section VfsTheorems.
Context {H : Type} `{OH : ObjHeap H}.
Implicit Types s : fs_state H.

(** The tables of the devices have no lookup and no release function. *)
Definition device_table (o : option ops_table) : Prop :=
  ∀ o', o = Some o' → o' ≠ tarfs_ops ∧ o' ≠ devfs_root_ops.

(** The nodes are blocks of the heap; [X] are the other blocks in use.  [hs] are
    the headers of the archive; drive roots are nodes without data; names fit the
    local arrays of tar_vfs.c. *)
Record fs_ok s (X : gset Z) (hs : list header) : Prop := {
  fo_heap : oh_rep (fs_heap s) (λ p, p ∈ X ∪ dom (fs_nodes s));
  fo_disj : X ## dom (fs_nodes s);
  fo_null : fs_nodes s !! 0 = None;
  fo_tar : 0 < tar_data (fs_tar s) ∧ 0 ≤ tar_size (fs_tar s) ≤ 2 ^ 61;
  fo_archive : archive (fs_tar s) (fs_mem s) 0 hs;
  fo_names : ∀ h, h ∈ hs → (length (hd_name h) < 256)%nat;
  fo_count : 0 ≤ entry_count s ≤ Z.of_nat (length (entries s));
  fo_devs : ∀ e, e ∈ entries s → device_table (dv_ops e) ∧ ∀ c, c ∈ dv_name e → 0 < c;
  fo_len : length (vfs_drives s) = 8%nat;
  fo_drives : ∀ i d, vfs_drives s !! i = Some d → dr_root d ≠ 0 →
    ∃ n, fs_nodes s !! dr_root d = Some n ∧ nd_data n = 0;
}.

(** Other nodes and another heap, with every old node still there. *)
Lemma fs_ok_nodes s X hs N h :
  fs_ok s X hs → oh_rep h (λ p, p ∈ X ∪ dom N) → X ## dom N → N !! 0 = None →
  (∀ p n, fs_nodes s !! p = Some n → ∃ n', N !! p = Some n' ∧ nd_data n' = nd_data n) →
  fs_ok (set_nodes N (set_fs_heap h s)) X hs.
Proof.
  intros Hok Hr Hd H0 Hold. destruct Hok as [_ _ _ H4 H5 H6 H7 H8 H9 H10].
  split; cbn [set_nodes set_fs_heap fs_heap fs_nodes fs_tar fs_mem entries entry_count vfs_drives]; try done.
  intros i d Hi Hne. destruct (H10 i d Hi Hne) as (n & Hn & E). destruct (Hold _ _ Hn) as (n' & ? & ?).
  exists n'. split; congruence.
Qed.

(** [s'] is [s] with one more node. *)
Definition added s (X : gset Z) (hs : list header) (p : Z) (n : fsnode) (s' : fs_state H) : Prop :=
  p ≠ 0 ∧ fs_nodes s !! p = None ∧ s' = set_nodes (<[p := n]> (fs_nodes s)) (set_fs_heap (fs_heap s') s) ∧
  fs_ok s' X hs.

Lemma new_node_wp s X hs n : fs_ok s X hs → wp (new_node n s) (λ p s', added s X hs p n s').
Proof.
  intros Hok. unfold new_node. apply wp_bind, wp_zoom.
  assert (0 < SIZEOF_FSNODE ≤ 2 ^ 40) as Hsz by done.
  apply wp_safe; [by eapply oh_malloc_safe; [apply (fo_heap _ _ _ Hok)|]|]. intros p h Hm.
  destruct (oh_malloc_ok _ _ _ _ _ (fo_heap _ _ _ Hok) Hsz Hm) as (Hp0 & HpL & Hr).
  assert (fs_nodes s !! p = None) as Hp by (apply not_elem_of_dom; set_solver).
  cbn [wp]. unfold put_node. split; [done|]. split; [done|]. split; [done|].
  apply fs_ok_nodes; [done| | | |].
  - eapply oh_rep_ext; [exact Hr|]. intros q. rewrite dom_insert_L. set_solver.
  - rewrite dom_insert_L. pose proof (fo_disj _ _ _ Hok). set_solver.
  - rewrite lookup_insert_ne by done. apply (fo_null _ _ _ Hok).
  - intros q n' Hq. exists n'. rewrite lookup_insert_ne by (intros ->; congruence). done.
Qed.

(** ** The reference walk *)

(** The node of a header and of a device. *)
Definition tar_node (t : tar_state) (h : header) : fsnode :=
  mkNode (if hd_type h =? 53 then NODE_DIR else NODE_FILE) (Some tarfs_ops)
    (tar_data t + hd_off h) (hd_size h) 1.
Definition dev_node (e : devfs_entry) : fsnode := mkNode NODE_DEVICE (dv_ops e) (dv_data e) 0 1.

(** What the name [c] stands for in the directory [dir]. *)
Definition child s (hs : list header) (dir : fsnode) (c : list Z) : option fsnode :=
  match nd_ops dir with
  | Some tarfs_ops =>
      tar_node (fs_tar s) ∘ snd <$> list_find (tar_match (full_path (fs_mem s) (nd_data dir) c)) hs
  | Some devfs_root_ops =>
      dev_node ∘ snd <$> list_find (λ e, dv_present e = true ∧ dv_name e = c)
        (take (Z.to_nat (entry_count s)) (entries s))
  | _ => None
  end.

(** The outcome of a walk: NULL, the drive's root, another node, or NULL with a
    node that stays allocated because its table has no release function. *)
Inductive walk_result := WNull | WRoot | WNode (n : fsnode) | WLeak (n : fsnode).

Definition dropped (at_root : bool) (n : fsnode) : walk_result :=
  if at_root || bool_decide (nd_ops n = Some tarfs_ops ∨ nd_ops n = Some devfs_root_ops)
  then WNull else WLeak n.

Fixpoint walk s (hs : list header) (at_root : bool) (n : fsnode) (cs : list (list Z)) : walk_result :=
  match cs with
  | [] => if at_root then WRoot else WNode n
  | c :: cs' =>
      if decide (nd_type n = NODE_DIR) then
        match child s hs n c with
        | Some n' => walk s hs false n' cs'
        | None => dropped at_root n
        end
      else dropped at_root n
  end.

(** The header a node was made from has a name that fits. *)
Definition short_name s (n : fsnode) : Prop :=
  nd_data n = 0 ∨ (length (name_at (fs_mem s) (nd_data n)) < 256)%nat.

Lemma archive_cstr t m hs h : ∀ off, archive t m off hs → h ∈ hs → cstr m (tar_data t + hd_off h) (hd_name h) ∧
  load8 m (tar_data t + hd_off h + HDR_TYPE_FIELD) = hd_type h ∧
  tar_parse_octal m (tar_data t + hd_off h + HDR_SIZE_FIELD) 12 = hd_size h ∧ off ≤ hd_off h.
Proof.
  induction hs as [|h' hs IH]; intros off Ha Hin; [by apply not_elem_of_nil in Hin|]. cbn [archive] in Ha.
  destruct Ha as (_ & _ & Ho & Hc & Ht & Hs & Hrest). apply elem_of_cons in Hin as [->|Hin].
  - rewrite Ho. split_and!; try done.
  - destruct (IH _ Hrest Hin) as (? & ? & ? & Hle). split_and!; try done.
    pose proof (parse_octal_range m (tar_data t + off + HDR_SIZE_FIELD)) as Hr. rewrite <- Hs in Hr.
    pose proof (after_bounds off (hd_size h') ltac:(lia)). lia.
Qed.

Lemma archive_name s X hs h : fs_ok s X hs → h ∈ hs → name_at (fs_mem s) (tar_data (fs_tar s) + hd_off h) = hd_name h.
Proof.
  intros Hok Hin. destruct (archive_cstr _ _ _ _ _ (fo_archive _ _ _ Hok) Hin) as (Hc & _).
  eapply cstr_unique; [apply name_at_cstr|done].
Qed.

Lemma list_find_in {A} (P : A → Prop) `{∀ x, Decision (P x)} l i x : list_find P l = Some (i, x) → x ∈ l.
Proof. intros (Hx & _)%list_find_Some. by eapply list_elem_of_lookup_2. Qed.

Lemma devfs_find_spec es c n : ∀ i,
  (∀ e, e ∈ es → ∀ x, x ∈ dv_name e → 0 < x) → (∀ x, x ∈ c → 0 < x) → (i + n ≤ length es)%nat →
  devfs_find n es (Z.of_nat i) c =
    Ret (snd <$> list_find (λ e, dv_present e = true ∧ dv_name e = c) (take n (drop i es))).
Proof.
  induction n as [|n IH]; intros i Hes Hc Hi; [done|]. cbn [devfs_find]. rewrite Nat2Z.id.
  destruct (lookup_lt_is_Some_2 es i) as [e He]; [lia|]. rewrite He, (drop_S _ _ _ He). cbn [take list_find].
  replace (Z.of_nat i + 1) with (Z.of_nat (S i)) by lia.
  assert (devfs_find n es (Z.of_nat (S i)) c = Ret (snd <$> (prod_map S id <$>
    list_find (λ e, dv_present e = true ∧ dv_name e = c) (take n (drop (S i) es))))) as Hrest.
  { rewrite IH by (done || lia). by destruct (list_find _ _) as [[]|]. }
  destruct (dv_present e); cbn [negb]; [|rewrite decide_False by (by intros []); done].
  rewrite str_diff_eqb.
  2:{ intros x [Hx|Hx]%elem_of_app; [|by apply Hc]. eapply Hes; [by eapply list_elem_of_lookup_2|done]. }
  destruct (decide (dv_name e = c)).
  - by rewrite bool_decide_true, decide_True by done.
  - rewrite bool_decide_false, decide_False by (done || by intros []). done.
Qed.

(** What a lookup function does: the child as a new node, or NULL. *)
Definition looked_up s X hs (o : option fsnode) (p : Z) (s' : fs_state H) : Prop :=
  match o with
  | Some n => added s X hs p n s' ∧ nd_refcount n = 1 ∧
      (nd_ops n = Some tarfs_ops ∧ short_name s n ∨ device_table (nd_ops n))
  | None => p = 0 ∧ s' = s
  end.

Lemma component_path_pos m d c : (∀ x, x ∈ c → 0 < x) → ∀ x, x ∈ full_path m d c → 0 < x.
Proof.
  intros Hc x Hx. unfold full_path in Hx. case_decide; [by apply Hc|].
  apply elem_of_take in Hx as (i & Hi%list_elem_of_lookup_2 & _). apply elem_of_app in Hi as [Hi|Hi].
  - pose proof (name_at_cstr m d). eapply cstr_bytes; [done|]. unfold strip_slash in Hi. case_decide; [|done].
    by apply elem_of_take in Hi as (? & ?%list_elem_of_lookup_2 & _).
  - apply elem_of_cons in Hi as [->|Hi]; [lia|by apply Hc].
Qed.

Lemma tarfs_lookup_wp s X hs dir n c :
  fs_ok s X hs → fs_nodes s !! dir = Some n → nd_ops n = Some tarfs_ops → short_name s n →
  (length c ≤ 255)%nat → (∀ x, x ∈ c → 0 < x) →
  wp (tarfs_lookup dir c s) (looked_up s X hs (child s hs n c)).
Proof.
  intros Hok Hn Ho Hs Hl Hc. unfold tarfs_lookup, get_node, child. rewrite Ho.
  erewrite bind_Ret by (rewrite bind_gets, Hn; done). rewrite !bind_gets.
  rewrite (bind_lift _ _ _ _ (tarfs_fullpath_spec _ _ _ Hl Hs)).
  destruct (fo_tar _ _ _ Hok) as [Hd0 Hts].
  erewrite bind_lift.
  2:{ apply (tarfs_search_spec _ _ _ hs); [lia|lia|apply (fo_archive _ _ _ Hok)| |by apply component_path_pos].
      apply (archive_fuel _ (fs_mem s)); [lia|apply (fo_archive _ _ _ Hok)]. }
  destruct (list_find _ hs) as [[i h]|] eqn:Ef; [|done]. cbn [fmap option_fmap option_map compose snd].
  pose proof (list_find_in _ _ _ _ Ef) as Hin.
  destruct (archive_cstr _ _ _ _ _ (fo_archive _ _ _ Hok) Hin) as (_ & Et & Es & Hoff).
  unfold tarfs_make_node. rewrite bind_gets. cbn [snd]. rewrite Et, Es.
  eapply wp_mono; [by apply new_node_wp|]. intros p s' Ha. split_and!; [done|done|].
  left. split; [done|]. right. cbn [tar_node nd_data]. rewrite (archive_name s X hs h Hok Hin). by apply (fo_names _ _ _ Hok).
Qed.

Lemma devfs_lookup_wp s X hs dir n c :
  fs_ok s X hs → nd_ops n = Some devfs_root_ops → (∀ x, x ∈ c → 0 < x) →
  wp (devfs_lookup dir c s) (looked_up s X hs (child s hs n c)).
Proof.
  intros Hok Ho Hc. unfold devfs_lookup, child. rewrite Ho, !bind_gets.
  pose proof (fo_count _ _ _ Hok). rewrite (bind_lift _ _ _ _ (devfs_find_spec _ c (Z.to_nat (entry_count s)) 0
    (λ e He, proj2 (fo_devs _ _ _ Hok e He)) Hc ltac:(lia))).
  rewrite drop_0. destruct (list_find _ _) as [[i e]|] eqn:Ef; [|done].
  cbn [fmap option_fmap option_map compose snd]. pose proof (list_find_in _ _ _ _ Ef) as Hin.
  apply elem_of_take in Hin as (? & Hin%list_elem_of_lookup_2 & _).
  eapply wp_mono; [by apply new_node_wp|]. intros p s' Ha. split_and!; [done|done|].
  right. apply (fo_devs _ _ _ Hok e Hin).
Qed.

(** ** Releasing a node *)

(** [s'] is [s] up to the heap. *)
Definition same_fs s X hs (s' : fs_state H) : Prop := s' = set_fs_heap (fs_heap s') s ∧ fs_ok s' X hs.

Lemma get_node_run s p n : fs_nodes s !! p = Some n → get_node p s = Ret (n, s).
Proof. intros Hn. unfold get_node. by rewrite bind_gets, Hn. Qed.

(** The last reference frees the node. *)
Lemma drop_last_run s X hs p n :
  fs_ok s X hs → fs_nodes s !! p = Some n → nd_refcount n = 1 →
  ∃ h, drop_reference p s = Ret (tt, set_nodes (delete p (fs_nodes s)) (set_fs_heap h s)) ∧
    oh_rep h (λ q, q ∈ X ∪ dom (delete p (fs_nodes s))).
Proof.
  intros Hok Hn Hr. destruct (oh_free_ok _ _ p (fo_heap _ _ _ Hok)) as (h & Hf & Hrep).
  { apply elem_of_union_r, elem_of_dom. eauto. }
  exists h. split.
  - unfold drop_reference. rewrite (bind_Ret _ _ _ _ _ (get_node_run s p n Hn)), Hr.
    change (0 <? 1) with true. cbv iota. unfold put_node. rewrite bind_modify.
    erewrite bind_Ret by (apply get_node_run; apply lookup_insert_eq).
    change (nd_refcount (with_refcount (1 - 1) n) =? 0) with true. cbv iota.
    unfold free_node. erewrite bind_Ret by (apply zoom_Ret; exact Hf). unfold modify. simpl.
    by rewrite delete_insert_eq.
  - eapply oh_rep_ext; [exact Hrep|]. intros q. rewrite dom_delete_L.
    pose proof (fo_disj _ _ _ Hok). assert (p ∈ dom (fs_nodes s)) by (apply elem_of_dom; eauto). set_solver.
Qed.

Lemma added_nodes s X hs p n s' : added s X hs p n s' → fs_nodes s' = <[p := n]> (fs_nodes s).
Proof. intros (_ & _ & -> & _). done. Qed.

(** Releasing the node [cur] that was added to [s] when [next] was added after it. *)
Lemma release_added s X hs cur n s1 s2 next n2 :
  fs_ok s X hs → added s X hs cur n s1 → nd_refcount n = 1 → nd_ops n = Some tarfs_ops →
  added s1 X hs next n2 s2 →
  ∃ s3, release cur s2 = Ret (tt, s3) ∧ added s X hs next n2 s3.
Proof.
  intros Hok Ha1 Hr Ho Ha2. pose proof (added_nodes _ _ _ _ _ _ Ha1) as E1. pose proof (added_nodes _ _ _ _ _ _ Ha2) as E2.
  destruct Ha1 as (Hc0 & Hcf & Es1 & _), Ha2 as (Hn0 & Hnf & Es2 & Hok2).
  assert (cur ≠ next) as Hne by (intros ->; rewrite E1, lookup_insert_eq in Hnf; done).
  assert (fs_nodes s2 !! cur = Some n) as Hcur by (rewrite E2, lookup_insert_ne, E1 by done; apply lookup_insert_eq).
  destruct (drop_last_run s2 X hs cur n Hok2 Hcur Hr) as (h & Hrun & Hrep).
  assert (delete cur (fs_nodes s2) = <[next := n2]> (fs_nodes s)) as EN.
  { rewrite E2, E1, delete_insert_ne by done. by rewrite delete_insert_id. }
  rewrite E1, lookup_insert_ne in Hnf by done. rewrite EN in *.
  exists (set_nodes (<[next := n2]> (fs_nodes s)) (set_fs_heap h s)). split.
  - unfold release. rewrite (bind_Ret _ _ _ _ _ (get_node_run s2 cur n Hcur)), Ho. cbn [mbind option_bind ops_release].
    unfold tarfs_release. rewrite Hrun. rewrite Es2. by rewrite Es1.
  - split; [done|]. split; [done|]. split; [done|]. apply fs_ok_nodes; try done.
    + pose proof (fo_disj _ _ _ Hok2) as Hd. rewrite E2, E1, !dom_insert_L in Hd. rewrite dom_insert_L. set_solver.
    + rewrite lookup_insert_ne by done. apply (fo_null _ _ _ Hok).
    + intros q m Hq. exists m. rewrite lookup_insert_ne by (intros ->; congruence). done.
Qed.

Lemma release_only s X hs cur n s1 :
  fs_ok s X hs → added s X hs cur n s1 → nd_refcount n = 1 → nd_ops n = Some tarfs_ops →
  ∃ s3, release cur s1 = Ret (tt, s3) ∧ same_fs s X hs s3.
Proof.
  intros Hok Ha Hr Ho. pose proof (added_nodes _ _ _ _ _ _ Ha) as E1. destruct Ha as (Hc0 & Hcf & Es1 & Hok1).
  assert (fs_nodes s1 !! cur = Some n) as Hcur by (rewrite E1; apply lookup_insert_eq).
  destruct (drop_last_run s1 X hs cur n Hok1 Hcur Hr) as (h & Hrun & Hrep).
  assert (delete cur (fs_nodes s1) = fs_nodes s) as EN by (rewrite E1; by apply delete_insert_id).
  rewrite EN in *. exists (set_nodes (fs_nodes s) (set_fs_heap h s)). split.
  - unfold release. rewrite (bind_Ret _ _ _ _ _ (get_node_run s1 cur n Hcur)), Ho. cbn [mbind option_bind ops_release].
    unfold tarfs_release. rewrite Hrun. by rewrite Es1.
  - split; [done|].
    apply fs_ok_nodes; try done; [apply (fo_disj _ _ _ Hok)|apply (fo_null _ _ _ Hok)|eauto].
Qed.

(** ** vfs_resolve *)

(** The walk has reached the node [n] at [cur], having started in state [s]. *)
Definition reached s X hs (root : Z) (at_root : bool) (cur : Z) (n : fsnode) (s1 : fs_state H) : Prop :=
  if at_root then cur = root ∧ s1 = s ∧ fs_nodes s !! root = Some n
  else added s X hs cur n s1 ∧ nd_refcount n = 1 ∧
    (nd_ops n = Some tarfs_ops ∧ short_name s n ∨ device_table (nd_ops n)).

(** What the result of a walk means for vfs_resolve's loop. *)
Definition loop_result s X hs (root : Z) (w : walk_result) (r : option Z) (s' : fs_state H) : Prop :=
  match w with
  | WNull => r = None ∧ same_fs s X hs s'
  | WRoot => r = Some root ∧ s' = s
  | WNode n => ∃ p, r = Some p ∧ added s X hs p n s'
  | WLeak n => r = None ∧ ∃ p, added s X hs p n s'
  end.

Lemma same_fs_refl s X hs : fs_ok s X hs → same_fs s X hs s.
Proof. intros Hok. split; [by destruct s|done]. Qed.

Lemma reached_node s X hs root at_root cur n s1 :
  reached s X hs root at_root cur n s1 → fs_nodes s1 !! cur = Some n.
Proof.
  destruct at_root; [by intros (-> & -> & ?)|]. intros [Ha _]. rewrite (added_nodes _ _ _ _ _ _ Ha). apply lookup_insert_eq.
Qed.

Lemma reached_ne s X hs root cur n n0 s1 :
  fs_nodes s !! root = Some n0 → reached s X hs root false cur n s1 → (cur =? root) = false.
Proof. intros Hr ((_ & Hf & _) & _). apply Z.eqb_neq. intros ->. congruence. Qed.

(** Giving up at [cur]. *)
Lemma give_back s X hs root at_root cur n n0 s1 :
  fs_ok s X hs → fs_nodes s !! root = Some n0 → reached s X hs root at_root cur n s1 →
  wp ((release_inner root cur ;;; ret (None : option Z)) s1) (loop_result s X hs root (dropped at_root n)).
Proof.
  intros Hok Hroot Hre. unfold release_inner, dropped. destruct at_root.
  { destruct Hre as (-> & -> & Hn). rewrite Z.eqb_refl. cbn. split; [done|by apply same_fs_refl]. }
  rewrite (reached_ne _ _ _ _ _ _ _ _ Hroot Hre). cbn [negb orb].
  pose proof (reached_node _ _ _ _ _ _ _ _ Hre) as Hcur.
  destruct Hre as (Ha & Hr & [[Ho Hs]|Hdev]).
  - rewrite bool_decide_true by auto. destruct (release_only s X hs cur n s1 Hok Ha Hr Ho) as (s3 & Hrun & Hsame).
    rewrite (bind_Ret _ _ _ _ _ Hrun). by split.
  - rewrite bool_decide_false by (intros [E|E]; destruct (Hdev _ E); done).
    assert (release cur s1 = Ret (tt, s1)) as Hrun.
    { unfold release. rewrite (bind_Ret _ _ _ _ _ (get_node_run s1 cur n Hcur)).
      destruct (nd_ops n) as [o|]; [|done]. destruct (Hdev o eq_refl). by destruct o. }
    rewrite (bind_Ret _ _ _ _ _ Hrun). split; [done|]. by exists cur.
Qed.

(** The lookup of a directory that the walk has reached. *)
Lemma reached_lookup s X hs root at_root cur n n0 s1 c f :
  fs_ok s X hs → fs_nodes s !! root = Some n0 → nd_data n0 = 0 → reached s X hs root at_root cur n s1 →
  nd_ops n ≫= ops_lookup = Some f → (length c ≤ 255)%nat → (∀ x, x ∈ c → 0 < x) →
  wp (f cur c s1) (looked_up s1 X hs (child s hs n c)).
Proof.
  intros Hok Hroot Hd0 Hre Hf Hl Hc. pose proof (reached_node _ _ _ _ _ _ _ _ Hre) as Hcur.
  assert (fs_ok s1 X hs ∧ child s hs n c = child s1 hs n c ∧ fs_mem s1 = fs_mem s) as (Hok1 & -> & Em).
  { destruct at_root; [destruct Hre as (_ & -> & _); done|]. destruct Hre as ((_ & _ & -> & Hok1) & _). done. }
  assert (nd_ops n = Some tarfs_ops → short_name s1 n) as Hs.
  { intros Ho. unfold short_name. rewrite Em. destruct at_root; [left; destruct Hre as (-> & -> & ?); congruence|].
    destruct Hre as (_ & _ & [[_ ?]|Hdev]); [done|]. destruct (Hdev _ Ho). done. }
  destruct (nd_ops n) as [[]|] eqn:Ho; cbn [mbind option_bind ops_lookup] in Hf; try done; injection Hf as <-.
  - apply tarfs_lookup_wp; auto.
  - by apply devfs_lookup_wp.
Qed.

(** From a directory to its child. *)
Lemma reached_child s X hs root at_root cur n n0 s1 next n' s2 :
  fs_ok s X hs → fs_nodes s !! root = Some n0 → reached s X hs root at_root cur n s1 →
  nd_ops n ≫= ops_lookup ≠ (None : option (Z → list Z → M (fs_state H) Z)) →
  looked_up s1 X hs (Some n') next s2 →
  wp (release_inner root cur s2) (λ _ s3, next ≠ 0 ∧ reached s X hs root false next n' s3).
Proof.
  intros Hok Hroot Hre Hf (Ha & Hr' & Hk). unfold release_inner.
  assert (next ≠ 0) as Hn0 by apply Ha. destruct at_root.
  { destruct Hre as (-> & -> & _). rewrite Z.eqb_refl. done. }
  rewrite (reached_ne _ _ _ _ _ _ _ _ Hroot Hre). cbn [negb]. destruct Hre as (Ha1 & Hr & Ho).
  assert (short_name s1 n' ↔ short_name s n') as Hsn by (destruct Ha1 as (_ & _ & -> & _); done).
  destruct Ho as [[Ho _]|Hdev].
  - destruct (release_added s X hs cur n s1 s2 next n' Hok Ha1 Hr Ho Ha) as (s3 & -> & Ha3).
    split; [done|]. split; [done|]. split; [done|]. by rewrite <- Hsn.
  - exfalso. destruct (nd_ops n) as [o|]; [|done]. destruct (Hdev o eq_refl). by destruct o.
Qed.

Lemma resolve_loop_wp s X hs root n0 :
  fs_ok s X hs → fs_nodes s !! root = Some n0 → nd_data n0 = 0 →
  ∀ fuel p at_root cur n s1,
    (length p < fuel)%nat → (∀ x, x ∈ p → 0 < x) → reached s X hs root at_root cur n s1 →
    wp (resolve_loop fuel root cur p s1) (loop_result s X hs root (walk s hs at_root n (components p))).
Proof.
  intros Hok Hroot Hd0. induction fuel as [|fuel IH]; intros p at_root cur n s1 Hf Hp Hre; [lia|].
  cbn [resolve_loop]. destruct (next_component p) as [[c p']|] eqn:En.
  2:{ rewrite (components_nil p En). destruct at_root; [by destruct Hre as (-> & -> & _)|]. exists cur. split; [done|apply Hre]. }
  rewrite (components_step p c p' En). cbn [walk].
  destruct (next_component_spec _ _ _ En) as [(_ & _ & Hlc) Hlp].
  assert ((∀ x, x ∈ c → 0 < x) ∧ (∀ x, x ∈ p' → 0 < x)) as [Hc Hp'].
  { destruct (next_component_chars p c p' En) as [Hi1 Hi2]. split; auto. }
  rewrite (bind_Ret _ _ _ _ _ (get_node_run _ _ _ (reached_node _ _ _ _ _ _ _ _ Hre))).
  destruct (decide (nd_type n = NODE_DIR)) as [Hdir|Hdir].
  2:{ rewrite bool_decide_false by done. by eapply give_back. }
  rewrite bool_decide_true by done. cbn [negb].
  destruct (nd_ops n ≫= ops_lookup) as [f|] eqn:Hf'.
  2:{ replace (child s hs n c) with (None : option fsnode); [by eapply give_back|].
      unfold child. destruct (nd_ops n) as [[]|]; done. }
  apply wp_bind. eapply wp_mono; [by eapply reached_lookup|]. intros next s2 Hlk.
  destruct (child s hs n c) as [n'|].
  - apply wp_bind. eapply wp_mono; [eapply reached_child; eauto; congruence|]. intros _ s3 [Hn0 Hre3].
    destruct (Z.eqb_spec next 0); [done|]. apply IH; [lia|done|done].
  - destruct Hlk as [-> ->]. by eapply give_back.
Qed.

(** Where a path leads: the root of its drive and the outcome of the walk. *)
Definition target s (hs : list header) (path : list Z) : Z * walk_result :=
  match parse_path path with
  | Ret (Some (d, rel)) =>
      match vfs_drives s !! Z.to_nat d with
      | Some dr =>
          match fs_nodes s !! dr_root dr with
          | Some n => if (0 <=? d) && dr_present dr then (dr_root dr, walk s hs true n (components rel)) else (0, WNull)
          | None => (0, WNull)
          end
      | None => (0, WNull)
      end
  | _ => (0, WNull)
  end.

(** What vfs_resolve returns and leaves for an outcome of the walk. *)
Definition resolved s X hs (tw : Z * walk_result) (p : Z) (s' : fs_state H) : Prop :=
  fs_ok s' X hs ∧
  match tw.2 with
  | WNull => p = 0 ∧ s' = set_fs_heap (fs_heap s') s
  | WRoot => p = tw.1 ∧ ∃ n, fs_nodes s !! p = Some n ∧
      s' = set_nodes (<[p := with_refcount (u32 (nd_refcount n + 1)) n]> (fs_nodes s)) s
  | WNode n => p ≠ 0 ∧ fs_nodes s !! p = None ∧
      s' = set_nodes (<[p := n]> (fs_nodes s)) (set_fs_heap (fs_heap s') s)
  | WLeak n => p = 0 ∧ ∃ q, fs_nodes s !! q = None ∧
      s' = set_nodes (<[q := n]> (fs_nodes s)) (set_fs_heap (fs_heap s') s)
  end.

Lemma drive_digits_nonneg l : ∀ n d, 0 ≤ n → drive_digits l n = Ret (Some d) → 0 ≤ d.
Proof.
  induction l as [|c l IH]; intros n d Hn E; cbn [drive_digits] in E; [by injection E as <-|].
  destruct ((schar c <? 48) || (57 <? schar c)) eqn:Ec; [done|]. cbv zeta in E.
  destruct (fits_int _); [|done]. eapply IH; [|exact E]. lia.
Qed.

Lemma parse_path_inv path :
  parse_path path = Ret None ∨ parse_path path = Fault ∨
  ∃ d rel, parse_path path = Ret (Some (d, rel)) ∧ 0 ≤ d ∧ (∀ x, x ∈ rel → x ∈ path).
Proof.
  unfold parse_path. destruct (first_index 58 path) as [i|]; [|by left].
  destruct (drive_digits (take i path) 0) as [[d|]| | |] eqn:E; cbn; auto.
  - right. right. exists d, (drop (S i) path). split_and!; [done|by eapply drive_digits_nonneg|].
    intros x Hx. rewrite <- (take_drop (S i) path). set_solver.
  - exfalso. revert E. generalize 0, (take i path). intros n l. revert n.
    induction l as [|c l IH]; intros n; cbn [drive_digits]; [done|]. destruct (_ || _); [done|].
    cbv zeta. destruct (fits_int _); [apply IH|done].
  - exfalso. revert E. generalize 0, (take i path). intros n l. revert n.
    induction l as [|c l IH]; intros n; cbn [drive_digits]; [done|]. destruct (_ || _); [done|].
    cbv zeta. destruct (fits_int _); [apply IH|done].
Qed.

(** The reference to the root of a drive is counted. *)
Lemma count_root s X hs root n :
  fs_ok s X hs → root ≠ 0 → fs_nodes s !! root = Some n →
  fs_ok (set_nodes (<[root := with_refcount (u32 (nd_refcount n + 1)) n]> (fs_nodes s)) s) X hs.
Proof.
  intros Hok Hr0 Hn.
  assert (set_nodes (<[root := with_refcount (u32 (nd_refcount n + 1)) n]> (fs_nodes s)) s =
    set_nodes (<[root := with_refcount (u32 (nd_refcount n + 1)) n]> (fs_nodes s)) (set_fs_heap (fs_heap s) s)) as -> by done.
  assert (dom (<[root := with_refcount (u32 (nd_refcount n + 1)) n]> (fs_nodes s)) = dom (fs_nodes s)) as Ed.
  { rewrite dom_insert_L. assert (root ∈ dom (fs_nodes s)) by (apply elem_of_dom; eauto). set_solver. }
  apply fs_ok_nodes; [done|rewrite Ed; apply (fo_heap _ _ _ Hok)|rewrite Ed; apply (fo_disj _ _ _ Hok)| |].
  - rewrite lookup_insert_ne by done. apply (fo_null _ _ _ Hok).
  - intros p m Hp. destruct (decide (p = root)) as [->|].
    + exists (with_refcount (u32 (nd_refcount n + 1)) n). rewrite lookup_insert_eq.
      split; [done|]. assert (m = n) as -> by congruence. done.
    + exists m. by rewrite lookup_insert_ne.
Qed.

Lemma vfs_resolve_wp s X hs path :
  fs_ok s X hs → (∀ x, x ∈ path → 0 < x) → parse_path path ≠ Fault →
  wp (vfs_resolve path s) (resolved s X hs (target s hs path)).
Proof.
  intros Hok Hpos Hnf. unfold vfs_resolve, target, resolved. pose proof (same_fs_refl _ _ _ Hok) as [Hs0 _].
  destruct (parse_path_inv path) as [E|[E|(d & rel & E & Hd & Hrel)]]; [|done|]; rewrite E; [by split|].
  rewrite (bind_lift _ _ _ _ eq_refl). destruct (Z.ltb_spec d 0); [lia|]. cbn [orb].
  pose proof (fo_len _ _ _ Hok) as Hlen. replace (0 <=? d) with true by lia.
  destruct (Z.leb_spec MAX_DRIVES d) as [Hge|Hlt].
  { rewrite lookup_ge_None_2; [by split|]. unfold MAX_DRIVES in Hge. lia. }
  destruct (lookup_lt_is_Some_2 (vfs_drives s) (Z.to_nat d)) as [dr Hdr]; [unfold MAX_DRIVES in Hlt; lia|].
  rewrite bind_gets, Hdr. cbn [of_opt]. rewrite bind_ret.
  destruct (dr_present dr); cbn [negb andb]; [|destruct (fs_nodes s !! dr_root dr); by split].
  cbv zeta. destruct (Z.eqb_spec (dr_root dr) 0) as [E0|Hr0]; [rewrite E0, (fo_null _ _ _ Hok); by split|].
  destruct (fo_drives _ _ _ Hok _ _ Hdr Hr0) as (n & Hn & Hn0). rewrite Hn.
  apply wp_bind. eapply wp_mono; [apply (resolve_loop_wp s X hs (dr_root dr) n Hok Hn Hn0 _ _ true _ n); [lia|by auto|exact (conj eq_refl (conj eq_refl Hn))]|].
  intros r s' Hw. cbn [snd fst]. destruct (walk s hs true n (components rel)) as [| |n'|n']; cbn [loop_result] in Hw.
  - destruct Hw as (-> & Hs & Hok'). done.
  - destruct Hw as (-> & ->). rewrite Z.eqb_refl.
    erewrite bind_Ret by (rewrite (bind_Ret _ _ _ _ _ (get_node_run s _ n Hn)); done).
    split; [by apply count_root|]. split; [done|]. by exists n.
  - destruct Hw as (p & -> & Hp0 & Hf & Hs & Hok'). destruct (Z.eqb_spec p (dr_root dr)) as [->|]; [congruence|]. done.
  - destruct Hw as (-> & p & Hp0 & Hf & Hs & Hok'). split; [done|]. split; [done|]. by exists p.
Qed.

(** ** Paths in the archive *)

(** "a/b/c", as the archive names it. *)
Definition slashed (cs : list (list Z)) : list Z := drop 1 (join_path cs).

Lemma slashed_snoc pre c : pre ≠ [] → slashed (pre ++ [c]) = slashed pre ++ 47 :: c.
Proof.
  intros Hne. unfold slashed, join_path. rewrite fmap_app, concat_app. cbn [fmap list_fmap concat].
  rewrite app_nil_r. destruct pre as [|d pre]; [done|]. done.
Qed.

Lemma slashed_single c : slashed [c] = c.
Proof. unfold slashed, join_path. cbn [fmap list_fmap concat]. by rewrite app_nil_r. Qed.

(** A path of components does not end in a slash. *)
Lemma slashed_last cs : Forall component cs → last (slashed cs) ≠ Some 47.
Proof.
  destruct cs as [|c cs _] using rev_ind; [done|]. intros [_ [(Hne & Hs & _) _]%Forall_cons]%Forall_app.
  destruct (exists_last Hne) as (c0 & x & ->).
  assert (x ≠ 47) as Hx by (intros ->; set_solver).
  destruct cs as [|d cs]; [change ([] ++ [c0 ++ [x]]) with [c0 ++ [x]]; rewrite slashed_single, last_snoc; congruence|].
  rewrite slashed_snoc by done. rewrite (app_comm_cons c0 [x] 47), (app_assoc _ (47 :: c0)), last_snoc. congruence.
Qed.

Lemma match_strip cs h : Forall component cs → tar_match (slashed cs) h → strip_slash (hd_name h) = slashed cs.
Proof.
  intros Hcs [->|[_ ->]]; unfold strip_slash.
  - rewrite decide_False; [done|by apply slashed_last].
  - rewrite last_snoc, decide_True by done. rewrite length_app. cbn [length].
    replace (length (slashed cs) + 1 - 1)%nat with (length (slashed cs)) by lia. by rewrite take_app_length.
Qed.

(** The directory [pre] is in the archive, and the first header of that name is
    a directory. *)
Definition has_dir (hs : list header) (pre : list (list Z)) : Prop :=
  ∃ i h, list_find (tar_match (slashed pre)) hs = Some (i, h) ∧ hd_type h = 53.

Lemma walk_tar s X hs : fs_ok s X hs → ∀ cs pre h,
  Forall component (pre ++ cs) → pre ≠ [] → (length (slashed (pre ++ cs)) ≤ 255)%nat →
  (∀ mid, mid `prefix_of` cs → mid ≠ cs → has_dir hs (pre ++ mid)) →
  snd <$> list_find (tar_match (slashed pre)) hs = Some h →
  walk s hs false (tar_node (fs_tar s) h) cs =
    match snd <$> list_find (tar_match (slashed (pre ++ cs))) hs with
    | Some h' => WNode (tar_node (fs_tar s) h') | None => WNull end.
Proof.
  intros Hok. induction cs as [|c cs IH]; intros pre h Hall Hne Hlen Hdirs Hh.
  { rewrite app_nil_r in *. rewrite Hh. done. }
  cbn [walk]. destruct (list_find (tar_match (slashed pre)) hs) as [[i h0]|] eqn:Ef; [|done]. injection Hh as ->.
  destruct (Hdirs [] ltac:(apply prefix_nil) ltac:(done)) as (i' & h' & Ef' & Hty).
  rewrite app_nil_r, Ef in Ef'. injection Ef' as <- <-.
  rewrite decide_True by (cbn [tar_node nd_type]; by rewrite Hty).
  pose proof (list_find_in _ _ _ _ Ef) as Hin. apply list_find_Some in Ef as (_ & Hm & _).
  destruct (archive_cstr _ _ _ _ _ (fo_archive _ _ _ Hok) Hin) as (_ & _ & _ & Hoff).
  destruct (fo_tar _ _ _ Hok) as [Hd0 _].
  assert (pre ++ c :: cs = (pre ++ [c]) ++ cs) as Eapp by (by rewrite <- app_assoc).
  assert (full_path (fs_mem s) (nd_data (tar_node (fs_tar s) h)) c = slashed (pre ++ [c])) as Efp.
  { unfold full_path. cbn [tar_node nd_data]. rewrite decide_False by lia.
    rewrite (archive_name s X hs h Hok Hin), (match_strip pre h) by (done || (apply Forall_app in Hall; tauto)).
    rewrite <- slashed_snoc by done. apply take_ge.
    enough (length (slashed (pre ++ [c])) ≤ length (slashed (pre ++ c :: cs)))%nat by lia. rewrite Eapp.
    unfold slashed, join_path. rewrite (fmap_app _ (pre ++ [c])), concat_app, !length_drop, length_app. lia. }
  assert (child s hs (tar_node (fs_tar s) h) c = tar_node (fs_tar s) ∘ snd <$> list_find (tar_match (slashed (pre ++ [c]))) hs) as ->.
  { unfold child. cbn [tar_node nd_ops]. change (mkNode _ _ _ _ _) with (tar_node (fs_tar s) h). by rewrite Efp. }
  rewrite Eapp in *. destruct (list_find (tar_match (slashed (pre ++ [c]))) hs) as [[j h2]|] eqn:E2; cbn [fmap option_fmap option_map compose snd].
  - apply IH; [done|by destruct pre|done| |by rewrite E2].
    intros mid Hmid Hx. rewrite <- app_assoc. apply Hdirs; [by apply prefix_cons|]. cbn. congruence.
  - destruct (decide (cs = [])) as [->|Hcs].
    { rewrite app_nil_r, E2. done. }
    destruct (Hdirs [c]) as (? & ? & E3 & _); [by apply prefix_cons, prefix_nil|congruence|]. congruence.
Qed.

(** From the root of the archive. *)
Lemma walk_tar_root s X hs n cs :
  fs_ok s X hs → nd_type n = NODE_DIR → nd_ops n = Some tarfs_ops → nd_data n = 0 →
  Forall component cs → cs ≠ [] → (length (slashed cs) ≤ 255)%nat →
  (∀ pre, pre `prefix_of` cs → pre ≠ [] → pre ≠ cs → has_dir hs pre) →
  walk s hs true n cs =
    match snd <$> list_find (tar_match (slashed cs)) hs with
    | Some h => WNode (tar_node (fs_tar s) h) | None => WNull end.
Proof.
  intros Hok Ht Ho Hd Hcs Hne Hlen Hdirs. destruct cs as [|c cs]; [done|]. cbn [walk]. rewrite decide_True by done.
  assert (child s hs n c = tar_node (fs_tar s) ∘ snd <$> list_find (tar_match (slashed [c])) hs) as ->.
  { unfold child, full_path. rewrite Ho, Hd, decide_True by done. by rewrite slashed_single. }
  destruct (list_find (tar_match (slashed [c])) hs) as [[j h]|] eqn:E; cbn [fmap option_fmap option_map compose snd].
  - apply (walk_tar s X hs Hok cs [c] h); try done; [|by rewrite E].
    intros mid Hmid Hx. apply Hdirs; [by apply prefix_cons|done|]. cbn. congruence.
  - destruct (decide (cs = [])) as [->|Hc]; [by rewrite E|].
    destruct (Hdirs [c]) as (? & ? & E3 & _); [by apply prefix_cons, prefix_nil|done|congruence|]. congruence.
Qed.

(** ** Listings *)

(** The entry a header contributes to the listing of the directory [path]. *)
Definition child_dirent (path : list Z) (h : header) : option dirent :=
  (λ nm, mkDirent nm (if hd_type h =? 53 then NODE_DIR else NODE_FILE) (hd_size h)) <$> child_name path (hd_name h).

Lemma tarfs_entry_spec m hdr path h :
  0 < hdr → cstr m hdr (hd_name h) → load8 m (hdr + HDR_TYPE_FIELD) = hd_type h → (∀ c, c ∈ path → 0 < c) →
  tarfs_entry m path hdr (hd_size h) = Ret (child_dirent path h).
Proof.
  intros Hpos Hn Ht Hp. unfold tarfs_entry, child_dirent, child_name. cbv zeta.
  rewrite (str_at_spec m hdr _ Hn). cbn [obind].
  rewrite str_diff_eqb.
  2:{ intros c [(? & ?%list_elem_of_lookup_2 & _)%elem_of_take|Hc]%elem_of_app; [|by apply Hp]. by eapply cstr_bytes. }
  assert (((length path =? 0)%nat || bool_decide (take (length path) (hd_name h) = path)) =
    bool_decide (take (length path) (hd_name h) = path)) as ->.
  { destruct path; [|done]. by rewrite bool_decide_true. }
  destruct (decide (take (length path) (hd_name h) = path)) as [Hpre|Hpre];
    [rewrite bool_decide_true by done|by rewrite bool_decide_false].
  assert (length path ≤ length (hd_name h))%nat as Hle by (apply (f_equal length) in Hpre; rewrite length_take in Hpre; lia).
  pose proof (cstr_drop m _ _ _ Hn Hle) as Hd.
  set (r0 := drop (length path) (hd_name h)) in *. set (p0 := hdr + Z.of_nat (length path)) in *.
  set (r1 := match r0 with 47 :: rel' => rel' | _ => r0 end).
  assert (cstr m (if load8 m p0 =? 47 then p0 + 1 else p0) r1) as Hr1.
  { unfold r1. destruct r0 as [|c r0]; [cbn in Hd; by rewrite Hd|].
    assert (load8 m p0 = c) as -> by apply Hd. destruct (Z.eqb_spec c 47) as [->|Hc]; [apply Hd|].
    repeat (case_match; try done). }
  rewrite (list_relative_spec m _ hdr (hd_size h) r1); [|destruct (_ =? 47); unfold p0; lia|exact Hr1].
  cbn [obind]. f_equal. rewrite Ht. rewrite <- option_fmap_compose. apply option_fmap_ext. intros nm. cbn.
  by destruct (hd_type h =? 53).
Qed.

Lemma tarfs_readdir_loop_spec t m path index hs : ∀ fuel off seen,
  0 < tar_data t → 0 ≤ off ≤ 2 ^ 62 → tar_size t ≤ 2 ^ 61 → archive t m off hs → (length hs < fuel)%nat →
  (∀ c, c ∈ path → 0 < c) → 0 ≤ seen ≤ index → index < W32 →
  tarfs_readdir_loop fuel t m path index seen off =
    Ret (omap (child_dirent path) hs !! Z.to_nat (index - seen)).
Proof.
  induction hs as [|h hs IH]; intros [|fuel] off seen Hd Ho Hts Ha Hf Hp Hi Hw; cbn [length tarfs_readdir_loop] in *; try lia;
    apply archive_step in Ha; try done.
  - by destruct Ha as [->|[-> ->]].
  - destruct Ha as (-> & -> & Hoff & Hc & Ht & -> & Hnext & Hr & Hrest). cbv zeta.
    rewrite (tarfs_entry_spec m _ path h) by (done || lia). cbn [obind omap list_omap]. rewrite Hnext.
    destruct (child_dirent path h) as [e|]; [|by apply IH; try done; lia].
    destruct (Z.eqb_spec seen index) as [->|Hne]; [by rewrite Z.sub_diag|].
    rewrite u32_small by lia. rewrite IH by (done || lia).
    replace (Z.to_nat (index - seen)) with (S (Z.to_nat (index - (seen + 1)))) by lia. done.
Qed.

Lemma devfs_nth_spec es n : ∀ i seen index,
  (i + n ≤ length es)%nat → 0 ≤ seen ≤ index → index < W32 →
  devfs_nth n es (Z.of_nat i) seen index =
    Ret (filter (λ e, dv_present e = true) (take n (drop i es)) !! Z.to_nat (index - seen)).
Proof.
  induction n as [|n IH]; intros i seen index Hi Hs Hw; [done|]. cbn [devfs_nth]. rewrite Nat2Z.id.
  destruct (lookup_lt_is_Some_2 es i) as [e He]; [lia|]. rewrite He, (drop_S _ _ _ He). cbn [take].
  replace (Z.of_nat i + 1) with (Z.of_nat (S i)) by lia. rewrite filter_cons.
  destruct (dv_present e); cbn [negb]; [rewrite decide_True by done|rewrite decide_False by done; by apply IH; lia].
  destruct (Z.eqb_spec seen index) as [->|Hne]; [by rewrite Z.sub_diag|].
  rewrite u32_small by lia. rewrite IH by lia.
  replace (Z.to_nat (index - seen)) with (S (Z.to_nat (index - (seen + 1)))) by lia. done.
Qed.

(** ** The properties *)

(** C7. vfs_resolve refines the walk over immutable nodes: it never faults or
    loops on a path whose drive number fits an int, and unless the heap is
    exhausted it returns what the walk finds.  A node other than a root is new, with
    one reference; a root gets one more reference; otherwise the result is NULL.  No
    other node appears, disappears or changes, except that a walk that fails below a
    device leaves the device's node allocated. *)
Theorem vfs_resolve_correct (s : fs_state H) (X : gset Z) (hs : list header) (path : list Z) :
  fs_ok s X hs → (∀ x, x ∈ path → 0 < x) → parse_path path ≠ Fault →
  wp (vfs_resolve path s) (resolved s X hs (target s hs path)).
Proof. apply vfs_resolve_wp. Qed.

(** Resolving the path "0:/a/b/c" on a mounted archive whose directories
    "a" and "a/b" are there: the result is a new node for the first header called
    "a/b/c" (or "a/b/c/", for a directory) with its size and type, or NULL and no new
    node when there is none. *)
Theorem vfs_resolve_tar_path (s : fs_state H) (X : gset Z) (hs : list header) (cs : list (list Z))
    (d : drive) (n : fsnode) :
  fs_ok s X hs → vfs_drives s !! 0%nat = Some d → dr_present d = true → fs_nodes s !! dr_root d = Some n →
  nd_type n = NODE_DIR → nd_ops n = Some tarfs_ops → nd_data n = 0 →
  Forall component cs → Forall (Forall (λ x, 0 < x)) cs → cs ≠ [] → (length (slashed cs) ≤ 255)%nat →
  (∀ pre, pre `prefix_of` cs → pre ≠ [] → pre ≠ cs → has_dir hs pre) →
  wp (vfs_resolve (chars "0:" ++ join_path cs) s) (λ p s', fs_ok s' X hs ∧
    match snd <$> list_find (tar_match (slashed cs)) hs with
    | Some h => fs_nodes s !! p = None ∧ fs_nodes s' = <[p := tar_node (fs_tar s) h]> (fs_nodes s)
    | None => p = 0 ∧ fs_nodes s' = fs_nodes s
    end).
Proof.
  intros Hok Hd Hpr Hn Ht Ho Hdat Hcs Hpos Hne Hlen Hdirs.
  assert (parse_path (chars "0:" ++ join_path cs) = Ret (Some (0, join_path cs))) as Hp by done.
  assert (target s hs (chars "0:" ++ join_path cs) = (dr_root d, walk s hs true n cs)) as Et.
  { unfold target. rewrite Hp. change (Z.to_nat 0) with 0%nat. by rewrite Hd, Hn, Hpr, components_join. }
  eapply wp_mono; [apply (vfs_resolve_wp s X hs); [done| |by rewrite Hp]|].
  { intros x [Hx|Hx]%elem_of_app; [change (chars "0:") with [48; 58] in Hx; set_unfold in Hx; lia|].
    unfold join_path in Hx. apply list_elem_of_In, in_concat in Hx as (l & (c & -> & Hc)%list_elem_of_In%list_elem_of_fmap & Hx%list_elem_of_In).
    apply elem_of_cons in Hx as [->|Hx]; [lia|]. rewrite Forall_forall in Hpos. specialize (Hpos c Hc).
    rewrite Forall_forall in Hpos. auto. }
  intros p s' [Hok' Hr]. split; [done|]. rewrite Et, (walk_tar_root s X hs n cs) in Hr by done. cbn [snd fst] in Hr.
  destruct (list_find (tar_match (slashed cs)) hs) as [[i h]|]; cbn [fmap option_fmap option_map snd] in *.
  - destruct Hr as (_ & Hf & ->). done.
  - destruct Hr as (-> & ->). done.
Qed.

Lemma parse_path_drive ds rel :
  Forall (is_digit 10) ds → num_value 10 ds ≤ 2147483647 →
  parse_path (ds ++ 58 :: rel) = Ret (Some (num_value 10 ds, rel)).
Proof.
  intros Hd Hn. unfold parse_path.
  rewrite first_index_app.
  2:{ intros Hin. rewrite Forall_forall in Hd. destruct (Hd _ Hin) as [? Hv]. unfold digit_value in Hv. cbn in Hv. lia. }
  rewrite take_app_length, (drive_digits_spec ds 0) by done. cbn [obind fmap option_fmap option_map].
  do 3 f_equal. change (58 :: rel) with ([58] ++ rel). rewrite app_assoc.
  apply drop_app_length'. rewrite length_app. simpl. lia.
Qed.

(** Taking a path apart is the inverse of putting it together: the drive
    number, and the components after it. *)
Theorem path_roundtrip (ds : list Z) (cs : list (list Z)) :
  Forall (is_digit 10) ds → num_value 10 ds ≤ 2147483647 → Forall component cs →
  parse_path (ds ++ 58 :: join_path cs) = Ret (Some (num_value 10 ds, join_path cs)) ∧
  components (join_path cs) = cs.
Proof.
  intros Hd Hn Hcs. split; [|by apply components_join]. by apply parse_path_drive.
Qed.

(** The path that tarfs_readdir compares with. *)
Definition dir_path s (n : fsnode) : list Z :=
  if decide (nd_data n = 0) then [] else strip_slash (name_at (fs_mem s) (nd_data n)).

Lemma tarfs_readdir_run s X hs dir index n :
  fs_ok s X hs → fs_nodes s !! dir = Some n → short_name s n → 0 ≤ index < W32 →
  tarfs_readdir dir index s =
    Ret (omap (child_dirent (dir_path s n)) hs
           !! Z.to_nat index, s).
Proof.
  intros Hok Hn Hs Hi. unfold tarfs_readdir. rewrite (bind_Ret _ _ _ _ _ (get_node_run s dir n Hn)), !bind_gets.
  destruct (fo_tar _ _ _ Hok) as [Hd0 Hts].
  unfold dir_path. set (path := if decide (nd_data n = 0) then [] else _).
  assert ((if negb (nd_data n =? 0) then lift (dir_name (fs_mem s) (nd_data n)) else ret []) s = Ret (path, s)) as Hpath.
  { unfold path. destruct (Z.eqb_spec (nd_data n) 0) as [E|E]; cbn [negb]; [by rewrite decide_True|].
    rewrite decide_False by done. destruct Hs as [?|Hs]; [done|].
    unfold lift. by rewrite (dir_name_spec _ _ _ (name_at_cstr _ _) Hs). }
  rewrite (bind_Ret _ _ _ _ _ Hpath). unfold lift. rewrite (tarfs_readdir_loop_spec _ _ path index hs); try done; try lia.
  - by rewrite Z.sub_0_r.
  - apply (fo_archive _ _ _ Hok).
  - apply (archive_fuel _ (fs_mem s)); [lia|apply (fo_archive _ _ _ Hok)].
  - unfold path. case_decide; [by intros c ?%not_elem_of_nil|]. intros c Hc.
    pose proof (name_at_cstr (fs_mem s) (nd_data n)). eapply cstr_bytes; [done|].
    unfold strip_slash in Hc. case_decide; [|done]. by apply elem_of_take in Hc as (? & ?%list_elem_of_lookup_2 & _).
Qed.

(** tarfs_readdir enumerates a directory: index [i] gives the [i]-th header,
    in archive order, whose name continues the directory's by one component, and -1
    after the last one. *)
Theorem tarfs_readdir_correct (s : fs_state H) (X : gset Z) (hs : list header) (dir index : Z) (n : fsnode) :
  fs_ok s X hs → fs_nodes s !! dir = Some n → short_name s n → 0 ≤ index < W32 →
  tarfs_readdir dir index s =
    Ret (omap (child_dirent (dir_path s n)) hs
           !! Z.to_nat index, s).
Proof. apply tarfs_readdir_run. Qed.

(** [m'] is [m] with [k] bytes of the file of [n], from offset [off], at [buf]. *)
Definition has_part (n : fsnode) (off : Z) (m m' : mem) (buf k : Z) : Prop :=
  ∀ a, load8 m' a = if decide (buf ≤ a < buf + k) then load8 m (nd_data n + 512 + off + (a - buf)) else load8 m a.

Lemma tarfs_read_run (s : fs_state H) node buf len off n :
  fs_nodes s !! node = Some n → 0 ≤ nd_size n < 2 ^ 31 → 0 ≤ off → 0 ≤ len → off + len < W64 →
  buf + len ≤ nd_data n ∨ nd_data n + 512 + nd_size n ≤ buf →
  ∃ m, tarfs_read node buf len off s = Ret (Z.max 0 (Z.min len (nd_size n - off)), set_fs_mem m s) ∧
    has_part n off (fs_mem s) m buf (Z.max 0 (Z.min len (nd_size n - off))).
Proof.
  intros Hn Hsz Ho Hl Hw Hdisj. unfold tarfs_read. rewrite (bind_Ret _ _ _ _ _ (get_node_run s node n Hn)). cbv zeta.
  change (2 ^ 31) with 2147483648 in Hsz. set (k := Z.max 0 (Z.min len (nd_size n - off))).
  destruct (Z.leb_spec (nd_size n) off) as [Hpast|Hin].
  - exists (fs_mem s). replace k with 0 by (unfold k; lia). split; [by destruct s|]. intros a. by rewrite decide_False by lia.
  - rewrite (u64_small (off + len)), (u64_small (nd_size n - off)) by lia.
    assert ((if nd_size n <? off + len then nd_size n - off else len) = k) as -> by (unfold k; destruct (Z.ltb_spec (nd_size n) (off + len)); lia).
    exists (memcpy (fs_mem s) buf (nd_data n + 512 + off) k). split.
    + rewrite bind_modify. assert (s32 k = k) as -> by (unfold k in *; word). done.
    + intros a. by rewrite load8_memcpy by (unfold k; lia).
Qed.

(** tarfs_read, when offset plus length does not wrap: it copies the part of
    the file that lies in the requested range, and nothing when the offset is past
    the end; the result is the number of bytes, and memory outside the buffer's
    first bytes is unchanged. *)
Theorem tarfs_read_correct (s : fs_state H) (node buf len off : Z) (n : fsnode) :
  fs_nodes s !! node = Some n → 0 ≤ nd_size n < 2 ^ 31 → 0 ≤ off → 0 ≤ len → off + len < W64 →
  buf + len ≤ nd_data n ∨ nd_data n + 512 + nd_size n ≤ buf →
  ∃ m, tarfs_read node buf len off s = Ret (Z.max 0 (Z.min len (nd_size n - off)), set_fs_mem m s) ∧
    has_part n off (fs_mem s) m buf (Z.max 0 (Z.min len (nd_size n - off))).
Proof. apply tarfs_read_run. Qed.

(** ** Mounting and registering *)

(** A new root node under a drive number. *)
Lemma mount_wp s X hs i n label f g :
  fs_ok s X hs → (i < 8)%nat → nd_data n = 0 →
  (∀ p s, f p s = Ret (tt, g p s)) → (∀ p s, fs_ok s X hs → fs_ok (g p s) X hs) →
  (∀ p s, vfs_drives (g p s) = vfs_drives s ∧ fs_nodes (g p s) = fs_nodes s) →
  wp ((p <- new_node n ;; f p ;;; set_drive (Z.of_nat i) p label) s) (λ _ s', fs_ok s' X hs ∧
    ∃ p, fs_nodes s !! p = None ∧ fs_nodes s' = <[p := n]> (fs_nodes s) ∧
      vfs_drives s' = <[i := mkDrive p label true]> (vfs_drives s)).
Proof.
  intros Hok Hi Hd Hf Hg Hsame. apply wp_bind. eapply wp_mono; [by apply new_node_wp|]. intros p s1 Ha.
  pose proof (added_nodes _ _ _ _ _ _ Ha) as En. destruct Ha as (Hp0 & Hpf & Es & Hok1).
  assert (vfs_drives s1 = vfs_drives s) as Ed by (by rewrite Es).
  rewrite (bind_Ret _ _ _ _ _ (Hf p s1)). destruct (Hsame p s1) as [Ed2 En2]. specialize (Hg p s1 Hok1).
  unfold set_drive. rewrite bind_gets, Nat2Z.id, Ed2, Ed.
  destruct (lookup_lt_is_Some_2 (vfs_drives s) i) as [d Hdi]; [rewrite (fo_len _ _ _ Hok); lia|]. rewrite Hdi.
  cbn [wp modify]. split.
  - destruct Hg as [G1 G2 G3 G4 G5 G6 G7 G8 G9 G10]. split; cbn [set_drives fs_heap fs_nodes fs_tar fs_mem entries entry_count vfs_drives]; try done.
    + rewrite length_insert. apply (fo_len _ _ _ Hok).
    + intros j dj [[<- [<- _]]|[_ Hj]]%list_lookup_insert_Some Hr.
      * exists n. rewrite En2, En. by rewrite lookup_insert_eq.
      * rewrite Ed2, Ed in G10. by eapply G10.
  - exists p. split; [done|]. split; [by cbn; rewrite En2|done].
Qed.

Lemma mount_both_wp s X hs :
  fs_ok s X hs →
  wp ((tarfs_init ;;; devfs_init) s) (λ _ s', fs_ok s' X hs ∧ ∃ r0 r1,
    r0 ≠ r1 ∧ fs_nodes s !! r0 = None ∧ fs_nodes s !! r1 = None ∧
    fs_nodes s' = <[r1 := mkNode NODE_DIR (Some devfs_root_ops) 0 0 1]>
                    (<[r0 := mkNode NODE_DIR (Some tarfs_ops) 0 0 1]> (fs_nodes s)) ∧
    vfs_drives s' = <[1%nat := mkDrive r1 (chars "dev") true]>
                      (<[0%nat := mkDrive r0 (chars "initrd") true]> (vfs_drives s))).
Proof.
  intros Hok. apply wp_bind. unfold tarfs_init.
  eapply wp_mono; [eapply (mount_wp s X hs 0 _ _ (λ p, modify (set_tarfs_root p)) set_tarfs_root); try done; [lia|]|].
  { intros p s1 []. by split. }
  intros [] s1 (Hok1 & r0 & Hf0 & En0 & Ed0). unfold devfs_init. rewrite bind_modify.
  set (s2 := set_entries (entries s1) 0 s1).
  assert (fs_ok s2 X hs) as Hok2 by (destruct Hok1; split; try done; cbn; lia).
  eapply wp_mono; [eapply (mount_wp s2 X hs 1 _ _ (λ p, modify (set_devfs_root p)) set_devfs_root); try done; [lia|]|].
  { intros p s3 []. by split. }
  intros [] s3 (Hok3 & r1 & Hf1 & En1 & Ed1). split; [done|]. exists r0, r1. cbn in Hf1, En1, Ed1. rewrite En0 in Hf1.
  apply lookup_insert_None in Hf1 as [Hf1 Hne]. rewrite En1, En0, Ed1, Ed0. done.
Qed.

(** Mounting keeps the invariant: tarfs_init and devfs_init create their root
    nodes, as the only new nodes, and mount them as drives 0 and 1; no file or
    device has appeared. *)
Theorem mount_correct (s : fs_state H) (X : gset Z) (hs : list header) :
  fs_ok s X hs →
  wp ((tarfs_init ;;; devfs_init) s) (λ _ s', fs_ok s' X hs ∧ ∃ r0 r1,
    r0 ≠ r1 ∧ fs_nodes s !! r0 = None ∧ fs_nodes s !! r1 = None ∧
    fs_nodes s' = <[r1 := mkNode NODE_DIR (Some devfs_root_ops) 0 0 1]>
                    (<[r0 := mkNode NODE_DIR (Some tarfs_ops) 0 0 1]> (fs_nodes s)) ∧
    vfs_drives s' = <[1%nat := mkDrive r1 (chars "dev") true]>
                      (<[0%nat := mkDrive r0 (chars "initrd") true]> (vfs_drives s))).
Proof. apply mount_both_wp. Qed.

Lemma devfs_register_ok s X hs name ops data :
  fs_ok s X hs → device_table ops → (∀ x, x ∈ name → 0 < x) → length (entries s) = 32%nat →
  ∃ s', devfs_register name ops data s = Ret (tt, s') ∧ fs_ok s' X hs ∧
    s' = set_entries (entries s') (entry_count s') s ∧ length (entries s') = 32%nat ∧
    take (Z.to_nat (entry_count s')) (entries s') =
      take (Z.to_nat (entry_count s)) (entries s) ++
      (if entry_count s <? 32 then [mkDev (take 31 name) ops data true] else []).
Proof.
  intros Hok Hdev Hpos Hlen. pose proof (fo_count _ _ _ Hok) as Hc. unfold devfs_register. rewrite bind_gets.
  change MAX_DEVFS_ENTRIES with 32. destruct (Z.leb_spec 32 (entry_count s)) as [Hfull|Hroom].
  { exists s. split; [done|]. replace (entry_count s <? 32) with false by lia. rewrite app_nil_r. split_and!; try done. by destruct s. }
  replace (entry_count s <? 32) with true by lia. rewrite bind_gets.
  destruct (lookup_lt_is_Some_2 (entries s) (Z.to_nat (entry_count s))) as [e He]; [lia|]. rewrite He.
  eexists. split; [done|]. cbn [set_entries entries entry_count]. rewrite length_insert. split_and!; [|done|done|].
  - destruct Hok as [G1 G2 G3 G4 G5 G6 G7 G8 G9 G10]. split; try done; cbn [set_entries entries entry_count].
    + rewrite length_insert. lia.
    + intros e' [i [[<- [<- _]]|[_ Hi]]%list_lookup_insert_Some]%list_elem_of_lookup.
      * split; [done|]. intros c (? & ?%list_elem_of_lookup_2 & _)%elem_of_take. auto.
      * apply G8. by eapply list_elem_of_lookup_2.
  - replace (Z.to_nat (entry_count s + 1)) with (S (Z.to_nat (entry_count s))) by lia.
    erewrite take_S_r by (apply list_lookup_insert_eq; lia). by rewrite take_insert_ge by lia.
Qed.

(** A device registered under a new name is found under "1:/name": the
    resolved node is a device with the table and the data that were registered. *)
Theorem devfs_register_resolve (s : fs_state H) (X : gset Z) (hs : list header) (name : list Z)
    (ops : option ops_table) (data : Z) (d : drive) (n : fsnode) :
  fs_ok s X hs → vfs_drives s !! 1%nat = Some d → dr_present d = true → fs_nodes s !! dr_root d = Some n →
  nd_type n = NODE_DIR → nd_ops n = Some devfs_root_ops →
  length (entries s) = 32%nat → entry_count s < 32 → device_table ops →
  component name → (length name ≤ 31)%nat → (∀ x, x ∈ name → 0 < x) →
  (∀ e, e ∈ take (Z.to_nat (entry_count s)) (entries s) → dv_name e ≠ name) →
  wp ((devfs_register name ops data ;;; vfs_resolve (chars "1:/" ++ name)) s) (λ p s',
    fs_ok s' X hs ∧ fs_nodes s !! p = None ∧
    fs_nodes s' = <[p := mkNode NODE_DEVICE ops data 0 1]> (fs_nodes s)).
Proof.
  intros Hok Hd Hpr Hn Ht Ho Hlen Hcnt Hdev Hc H31 Hpos Hnew. apply wp_bind.
  destruct (devfs_register_ok s X hs name ops data Hok Hdev Hpos Hlen) as (s1 & -> & Hok1 & Es1 & Hlen1 & Htake).
  cbn [wp]. replace (entry_count s <? 32) with true in Htake by lia. rewrite (take_ge name 31) in Htake by lia.
  assert (parse_path (chars "1:/" ++ name) = Ret (Some (1, join_path [name]))) as Hp.
  { unfold join_path. cbn [fmap list_fmap concat]. by rewrite app_nil_r. }
  assert (target s1 hs (chars "1:/" ++ name) = (dr_root d, WNode (mkNode NODE_DEVICE ops data 0 1))) as Et.
  { unfold target. rewrite Hp. change (Z.to_nat 1) with 1%nat.
    assert (vfs_drives s1 = vfs_drives s ∧ fs_nodes s1 = fs_nodes s) as [-> ->] by (by rewrite Es1).
    rewrite Hd, Hn, Hpr, components_join by (by constructor). cbn [andb Z.leb Z.compare walk]. rewrite decide_True by done.
    unfold child. rewrite Ho, Htake. rewrite list_find_app_r; [|].
    - cbn [list_find]. by rewrite decide_True by done.
    - apply list_find_None, Forall_forall. intros e He [_ E]. by apply (Hnew e He). }
  eapply wp_mono; [apply (vfs_resolve_wp s1 X hs); [done| |by rewrite Hp]|].
  { intros x [Hx|Hx]%elem_of_app; [change (chars "1:/") with [49; 58; 47] in Hx; set_unfold in Hx; lia|auto]. }
  intros p s' [Hok' Hr]. rewrite Et in Hr. destruct Hr as (_ & Hf & Es'). split; [done|].
  rewrite Es1 in Hf. split; [done|]. rewrite Es'. cbn. by rewrite Es1.
Qed.

(** ** The types of nodes *)

(** The fields of a node agree: files are in the archive, directories are in the
    archive or the root of the devices, devices have a device's table; size and
    reference count are in range. *)
Record node_typed (n : fsnode) : Prop := {
  nt_file : nd_type n = NODE_FILE → nd_ops n = Some tarfs_ops;
  nt_dir : nd_type n = NODE_DIR → nd_ops n = Some tarfs_ops ∨ nd_ops n = Some devfs_root_ops;
  nt_device : nd_type n = NODE_DEVICE → device_table (nd_ops n);
  nt_size : 0 ≤ nd_size n < 2 ^ 36;
  nt_count : 0 ≤ nd_refcount n < W32;
}.

Definition fs_typed s : Prop :=
  (∀ p n, fs_nodes s !! p = Some n → node_typed n) ∧ (∀ e, e ∈ entries s → device_table (dv_ops e)).

(** The calls the rest of the kernel makes. *)
Inductive vfs_step : fs_state H → fs_state H → Prop :=
| st_tarfs_init s s' : tarfs_init s = Ret (tt, s') → vfs_step s s'
| st_devfs_init s s' : devfs_init s = Ret (tt, s') → vfs_step s s'
| st_register s s' name ops data :
    device_table ops → devfs_register name ops data s = Ret (tt, s') → vfs_step s s'
| st_resolve s s' path p : vfs_resolve path s = Ret (p, s') → vfs_step s s'
| st_release s s' p : release p s = Ret (tt, s') → vfs_step s s'
| st_readdir s s' p i o f e : ops_readdir o = Some f → f p i s = Ret (e, s') → vfs_step s s'
| st_read s s' p buf len off k : tarfs_read p buf len off s = Ret (k, s') → vfs_step s s'.

Lemma put_node_typed p n : node_typed n → preserves fs_typed (put_node p n).
Proof.
  intros Hn. apply pres_modify. intros s [H1 H2]. split; [|done]. cbn.
  intros q m [[<- <-]|[_ Hq]]%lookup_insert_Some; [done|by eapply H1].
Qed.

Lemma new_node_typed n : node_typed n → preserves fs_typed (new_node n).
Proof.
  intros Hn. unfold new_node. apply pres_bind; [by apply pres_zoom|]. intros p.
  apply pres_bind; [by apply put_node_typed|auto with cobj].
Qed.

(** A node that was read is typed. *)
Lemma get_node_typed {B} p (k : fsnode → M (fs_state H) B) :
  (∀ n, node_typed n → preserves fs_typed (k n)) → preserves fs_typed (n <- get_node p ;; k n).
Proof.
  apply pres_when. intros s n s' Ht (ns & s1 & E1 & E2)%bind_Ret_inv. injection E1 as <- <-.
  destruct (fs_nodes s !! p) as [n'|] eqn:E; [|done]. injection E2 as <- <-. split; [done|]. by eapply Ht.
Qed.

Lemma with_refcount_typed c n : node_typed n → 0 ≤ c < W32 → node_typed (with_refcount c n).
Proof. intros [H1 H2 H3 H4 H5] Hc. by split. Qed.

Lemma drop_reference_typed p : preserves fs_typed (drop_reference p).
Proof.
  apply get_node_typed. intros n Hn. apply pres_bind.
  - destruct (Z.ltb_spec 0 (nd_refcount n)); [|auto with cobj].
    apply put_node_typed, with_refcount_typed; [done|]. pose proof (nt_count n Hn). lia.
  - intros _. apply get_node_typed. intros n' _. destruct (_ =? 0); [|auto with cobj].
    unfold free_node. apply pres_bind; [by apply pres_zoom|]. intros _. apply pres_modify. intros s [H1 H2]. split; [|done].
    cbn. intros q m [_ Hq]%lookup_delete_Some. by eapply H1.
Qed.

Lemma release_typed p : preserves fs_typed (release p).
Proof.
  apply get_node_typed. intros n _. destruct (nd_ops n ≫= ops_release) as [f|] eqn:E; [|auto with cobj].
  destruct (nd_ops n) as [[]|]; try done; injection E as <-; [apply drop_reference_typed|].
  unfold devfs_release. apply pres_bind; [auto with cobj|]. intros root.
  destruct (p =? root); [auto with cobj|apply drop_reference_typed].
Qed.

Lemma tarfs_lookup_typed p c : preserves fs_typed (tarfs_lookup p c).
Proof.
  unfold tarfs_lookup. apply get_node_typed. intros n _. do 4 (apply pres_bind; [auto with cobj|]; intros ?).
  destruct a2; [|auto with cobj]. unfold tarfs_make_node. apply pres_bind; [auto with cobj|]. intros m.
  apply new_node_typed. pose proof (parse_octal_range m (z + HDR_SIZE_FIELD)).
  split; cbn [nd_type nd_ops nd_size nd_refcount]; try done; destruct (_ =? 53); auto; done.
Qed.

Lemma devfs_lookup_typed p c : preserves fs_typed (devfs_lookup p c).
Proof.
  intros s a s' Ht. unfold devfs_lookup. rewrite !bind_gets. intros (e & s1 & E1 & E2)%bind_Ret_inv.
  unfold lift in E1. destruct (devfs_find _ _ _ _) as [r| | |] eqn:Ef; try done. injection E1 as <- <-.
  destruct r as [r|]; [|by injection E2 as <- <-]. eapply new_node_typed; [|exact Ht|exact E2].
  assert (r ∈ entries s) as Hr.
  { revert Ef. generalize (Z.to_nat (entry_count s)), 0. clear. intros n. induction n as [|n IH]; intros i E; cbn [devfs_find] in E; [done|].
    destruct (entries s !! Z.to_nat i) as [e|] eqn:Ei; [|done]. destruct (negb _); [by eapply IH|].
    destruct (_ =? 0); [|by eapply IH]. injection E as ->. by eapply list_elem_of_lookup_2. }
  split; cbn [nd_type nd_ops nd_size nd_refcount]; try done. intros _. by apply Ht.
Qed.

Lemma resolve_loop_typed root fuel : ∀ cur p, preserves fs_typed (resolve_loop fuel root cur p).
Proof.
  assert (∀ cur, preserves fs_typed (release_inner root cur)) as Hri.
  { intros cur. unfold release_inner. destruct (negb _); [apply release_typed|auto with cobj]. }
  induction fuel as [|fuel IH]; intros cur p; cbn [resolve_loop]; [done|].
  destruct (next_component p) as [[c p']|]; [|auto with cobj]. apply get_node_typed. intros n _.
  destruct (negb _); [apply pres_bind; auto with cobj|].
  destruct (nd_ops n ≫= ops_lookup) as [f|] eqn:E; [|apply pres_bind; auto with cobj].
  apply pres_bind.
  - destruct (nd_ops n) as [[]|]; try done; injection E as <-; [apply tarfs_lookup_typed|apply devfs_lookup_typed].
  - intros next. apply pres_bind; [done|]. intros _. destruct (next =? 0); auto with cobj.
Qed.

Lemma vfs_resolve_typed path : preserves fs_typed (vfs_resolve path).
Proof.
  unfold vfs_resolve. apply pres_bind; [auto with cobj|]. intros [[d rel]|]; [|auto with cobj].
  destruct (_ || _); [auto with cobj|]. do 2 (apply pres_bind; [auto with cobj|]; intros ?).
  destruct (negb _); [auto with cobj|]. cbv zeta. destruct (_ =? 0); [auto with cobj|].
  apply pres_bind; [apply resolve_loop_typed|]. intros [cur|]; [|auto with cobj].
  apply pres_bind; [|auto with cobj]. destruct (_ =? _); [|auto with cobj].
  apply get_node_typed. intros n Hn. apply put_node_typed, with_refcount_typed; [done|apply u32_range].
Qed.

Lemma root_typed o : o = tarfs_ops ∨ o = devfs_root_ops → node_typed (mkNode NODE_DIR (Some o) 0 0 1).
Proof. intros [->| ->]; split; cbn; auto; done. Qed.

Lemma set_drive_typed i p l : preserves fs_typed (set_drive i p l).
Proof.
  unfold set_drive. apply pres_bind; [auto with cobj|]. intros ds. destruct (ds !! _); [|done]. by apply pres_modify.
Qed.

Lemma register_typed name ops data : device_table ops → preserves fs_typed (devfs_register name ops data).
Proof.
  intros Hd. intros s a s' [H1 H2]. unfold devfs_register. rewrite bind_gets.
  destruct (_ <=? _); [by intros [= <- <-]|]. rewrite bind_gets. destruct (entries s !! _); [|done].
  intros [= <- <-]. split; [done|]. cbn.
  intros e [i [[_ [<- _]]|[_ Hi]]%list_lookup_insert_Some]%list_elem_of_lookup; [done|]. apply H2. by eapply list_elem_of_lookup_2.
Qed.

(** C36. Whatever sequence of file-system calls the kernel makes, every node stays
    well typed: its kind and its table of functions agree, so that a release or a
    lookup through the table reaches the functions of the right file system. *)
Theorem vfs_types_preserved (s s' : fs_state H) : fs_typed s → rtc vfs_step s s' → fs_typed s'.
Proof.
  intros Ht Hr. induction Hr as [|s s1 s' Hstep _ IH]; [done|]. apply IH. clear IH.
  destruct Hstep as [s s1 E|s s1 E|s s1 nm o d Ho E|s s1 p q E|s s1 p E|s s1 p i o f e Ho E|s s1 p b l o k E]; revert E.
  - apply (pres_bind fs_typed); [by apply new_node_typed, root_typed; left| |done]. intros p.
    apply pres_bind; [by apply pres_modify|]. intros _. apply set_drive_typed.
  - apply (pres_bind fs_typed); [by apply pres_modify| |done]. intros _.
    apply pres_bind; [by apply new_node_typed, root_typed; right|]. intros p.
    apply pres_bind; [by apply pres_modify|]. intros _. apply set_drive_typed.
  - by apply register_typed.
  - by apply vfs_resolve_typed.
  - by apply release_typed.
  - destruct o; try done; injection Ho as <-.
    + apply get_node_typed; [|done]. intros n _. do 2 (apply pres_bind; [auto with cobj|]; intros ?).
      apply pres_bind; [destruct (negb _); auto with cobj|auto with cobj].
    + apply (pres_bind fs_typed); [auto with cobj| |done]. intros c. do 2 (apply pres_bind; [auto with cobj|]; intros ?). auto with cobj.
  - apply get_node_typed; [|done]. intros n _. cbv zeta. destruct (_ <=? _); [auto with cobj|].
    apply pres_bind; [by apply pres_modify|auto with cobj].
Qed.

(** A length near 2^64 defeats the bound of tarfs_read: offset plus length
    wraps to zero, the comparison with the file size succeeds, and the whole length
    is copied, far past the end of the file and of the archive. *)
Theorem tarfs_read_len_wraps (s : fs_state H) (node buf off : Z) (n : fsnode) :
  fs_nodes s !! node = Some n → 0 < off < nd_size n → nd_size n < W64 →
  tarfs_read node buf (W64 - off) off s =
    Ret (s32 (W64 - off), set_fs_mem (memcpy (fs_mem s) buf (nd_data n + 512 + off) (W64 - off)) s).
Proof.
  intros Hn Ho Hs. unfold tarfs_read. rewrite (bind_Ret _ _ _ _ _ (get_node_run s node n Hn)). cbv zeta.
  destruct (Z.leb_spec (nd_size n) off); [lia|]. replace (off + (W64 - off)) with W64 by lia.
  change (u64 W64) with 0. destruct (Z.ltb_spec (nd_size n) 0); [lia|]. done.
Qed.

End VfsTheorems.

(** A component longer than 255 characters is not refused: its rest becomes a
    component of its own. *)
Theorem long_component_split :
  components (replicate 300 97) = [replicate 255 97; replicate 45 97].
Proof. vm_compute. reflexivity. Qed.

(** ** A concrete file system: the archive of Tar.v and the device "null" *)

Definition demo_hs : list header :=
  [mkHeader 0 [98; 105; 110; 47] 53 0; mkHeader 512 [98; 105; 110; 47; 108; 115] 48 5;
   mkHeader 1536 [98; 105; 110; 97; 114; 121] 48 0].

Definition demo_fs0 : fs_state (mm_state pmm_state) :=
  mkFs demo_heap demo_tar_mem demo_tar ∅ (replicate 8 (mkDrive 0 [] false)) 0
    (replicate 32 (mkDev [] None 0 false)) 0 0.

Lemma demo_archive : archive demo_tar demo_tar_mem 0 demo_hs.
Proof.
  repeat match goal with
  | |- archive _ _ _ demo_hs => unfold demo_hs
  | |- archive _ _ _ (_ :: _) => cbn [archive]
  | |- _ ∨ _ => right
  | |- _ ∧ _ => split
  | |- cstr _ _ _ => repeat (split; [vm_compute; reflexivity|]; split; [discriminate|]); vm_compute; reflexivity
  | |- _ ≤ _ => vm_compute; discriminate
  | |- _ ≠ _ => vm_compute; discriminate
  | |- _ = _ => vm_compute; reflexivity
  end.
Qed.

Lemma demo_fs0_ok : fs_ok demo_fs0 ∅ demo_hs.
Proof.
  split; cbn [demo_fs0 fs_heap fs_nodes fs_tar fs_mem entries entry_count vfs_drives].
  - exists ∅, (replicate 8 []). split; [apply demo_heap_inv|]. intros b. rewrite dom_empty_L. split; [by intros [[? ?] _]|set_solver].
  - set_solver.
  - done.
  - by repeat split.
  - apply demo_archive.
  - apply Forall_forall. repeat constructor; simpl; lia.
  - rewrite length_replicate. lia.
  - intros e [-> _]%elem_of_replicate. split; [done|]. intros c []%not_elem_of_nil.
  - done.
  - intros i d [-> _]%lookup_replicate. done.
Qed.

Definition demo_fs : fs_state (mm_state pmm_state) := state_of demo_fs0 ((tarfs_init ;;; devfs_init) demo_fs0).

Lemma demo_mount : (tarfs_init ;;; devfs_init) demo_fs0 = Ret (tt, demo_fs).
Proof. apply run_value. vm_compute. reflexivity. Qed.

(** The mounted system and its two roots. *)
Lemma demo_fs_ok : fs_ok demo_fs ∅ demo_hs ∧ ∃ r0 r1,
  fs_nodes demo_fs !! r0 = Some (mkNode NODE_DIR (Some tarfs_ops) 0 0 1) ∧
  fs_nodes demo_fs !! r1 = Some (mkNode NODE_DIR (Some devfs_root_ops) 0 0 1) ∧
  vfs_drives demo_fs !! 0%nat = Some (mkDrive r0 (chars "initrd") true) ∧
  vfs_drives demo_fs !! 1%nat = Some (mkDrive r1 (chars "dev") true).
Proof.
  pose proof (mount_both_wp demo_fs0 ∅ demo_hs demo_fs0_ok) as Hw. rewrite demo_mount in Hw.
  destruct Hw as (Hok & r0 & r1 & Hne & H0 & H1 & En & Ed). split; [exact Hok|]. exists r0, r1. rewrite En, Ed. split_and!.
  - rewrite lookup_insert_ne by congruence. apply lookup_insert_eq.
  - apply lookup_insert_eq.
  - reflexivity.
  - reflexivity.
Qed.

Lemma demo_entries : entries demo_fs = entries demo_fs0 ∧ entry_count demo_fs = 0.
Proof. split; vm_compute; reflexivity. Qed.

(** ** Witnesses *)

Lemma vfs_resolve_correct_witness :
  wp (vfs_resolve (chars "0:/bin/ls") demo_fs)
    (resolved demo_fs ∅ demo_hs (target demo_fs demo_hs (chars "0:/bin/ls"))).
Proof.
  apply (vfs_resolve_correct demo_fs ∅ demo_hs (chars "0:/bin/ls")).
  - apply demo_fs_ok.
  - apply Forall_forall. repeat constructor.
  - vm_compute. discriminate.
Defined.

Lemma demo_has_bin : has_dir demo_hs [chars "bin"].
Proof. exists 0%nat, (mkHeader 0 [98; 105; 110; 47] 53 0). split; vm_compute; reflexivity. Qed.

Lemma demo_components : Forall component [chars "bin"; chars "ls"].
Proof.
  repeat constructor; try discriminate; try (apply (bool_decide_unpack _); vm_compute; exact I); simpl; lia.
Qed.

Lemma vfs_resolve_tar_path_witness :
  wp (vfs_resolve (chars "0:/bin/ls") demo_fs) (λ p s', fs_ok s' ∅ demo_hs ∧
    fs_nodes demo_fs !! p = None ∧
    fs_nodes s' = <[p := mkNode NODE_FILE (Some tarfs_ops) 4608 5 1]> (fs_nodes demo_fs)).
Proof.
  destruct demo_fs_ok as (Hok & r0 & r1 & H0 & _ & Hd0 & _).
  apply (vfs_resolve_tar_path demo_fs ∅ demo_hs [chars "bin"; chars "ls"] _ _ Hok Hd0 eq_refl H0 eq_refl eq_refl eq_refl).
  - apply demo_components.
  - repeat constructor.
  - discriminate.
  - vm_compute. lia.
  - intros pre [k Hk] Hne Hx. destruct pre as [|a [|b pre]]; [congruence| |].
    + injection Hk as Ha _. rewrite <- Ha. exact demo_has_bin.
    + exfalso. apply Hx. destruct pre; [|discriminate]. destruct k; [|discriminate].
      rewrite app_nil_r in Hk. symmetry. exact Hk.
Defined.

Lemma path_roundtrip_witness :
  parse_path (chars "1:/bin/ls") = Ret (Some (1, chars "/bin/ls")) ∧
  components (chars "/bin/ls") = [chars "bin"; chars "ls"].
Proof.
  apply (path_roundtrip (chars "1") [chars "bin"; chars "ls"]).
  - repeat constructor; vm_compute; intuition discriminate.
  - vm_compute. discriminate.
  - apply demo_components.
Defined.

Lemma tarfs_readdir_correct_witness : ∃ r0,
  tarfs_readdir r0 1 demo_fs = Ret (Some (mkDirent [98; 105; 110; 97; 114; 121] NODE_FILE 0), demo_fs).
Proof.
  destruct demo_fs_ok as (Hok & r0 & r1 & H0 & _). exists r0.
  rewrite (tarfs_readdir_correct demo_fs ∅ demo_hs r0 1 _ Hok H0); [reflexivity|left; reflexivity|lia].
Defined.

(** The node of "bin/ls", opened. *)
Definition demo_file : fsnode := mkNode NODE_FILE (Some tarfs_ops) 4608 5 1.
Definition demo_fs1 : fs_state (mm_state pmm_state) := set_nodes (<[64 := demo_file]> (fs_nodes demo_fs)) demo_fs.

Lemma tarfs_read_correct_witness :
  ∃ m, tarfs_read 64 100000 10 2 demo_fs1 = Ret (3, set_fs_mem m demo_fs1) ∧
    load8 m 100000 = load8 (fs_mem demo_fs1) 5122.
Proof.
  destruct (tarfs_read_correct demo_fs1 64 100000 10 2 demo_file) as (m & H1 & H2).
  - apply lookup_insert_eq.
  - split; [discriminate|reflexivity].
  - lia.
  - lia.
  - lia.
  - right. vm_compute. discriminate.
  - exists m. split; [exact H1|]. rewrite (H2 100000), decide_True by (vm_compute; split; [discriminate|reflexivity]). reflexivity.
Defined.

Lemma mount_correct_witness : fs_ok demo_fs ∅ demo_hs.
Proof.
  pose proof (mount_correct demo_fs0 ∅ demo_hs demo_fs0_ok) as Hw. rewrite demo_mount in Hw. apply Hw.
Defined.

Lemma devfs_register_resolve_witness :
  wp ((devfs_register (chars "null") (Some null_ops) 0 ;;; vfs_resolve (chars "1:/null")) demo_fs) (λ p s',
    fs_ok s' ∅ demo_hs ∧ fs_nodes demo_fs !! p = None ∧
    fs_nodes s' = <[p := mkNode NODE_DEVICE (Some null_ops) 0 0 1]> (fs_nodes demo_fs)).
Proof.
  destruct demo_fs_ok as (Hok & r0 & r1 & _ & H1 & _ & Hd1). destruct demo_entries as [Ee Ec].
  apply (devfs_register_resolve demo_fs ∅ demo_hs (chars "null") (Some null_ops) 0 _ _ Hok Hd1 eq_refl H1 eq_refl eq_refl).
  - rewrite Ee. reflexivity.
  - rewrite Ec. lia.
  - intros o [= <-]. split; discriminate.
  - split; [discriminate|]. split; [apply (bool_decide_unpack _); vm_compute; exact I|vm_compute; lia].
  - vm_compute. lia.
  - apply Forall_forall. repeat constructor.
  - rewrite Ec. intros e []%not_elem_of_nil.
Defined.

Lemma demo_fs0_typed : fs_typed demo_fs0.
Proof. split; [done|]. intros e [-> _]%elem_of_replicate. done. Qed.

Lemma vfs_types_preserved_witness : fs_typed demo_fs0 ∧ fs_typed demo_fs.
Proof.
  split; [apply demo_fs0_typed|]. pose proof demo_mount as Hm.
  apply bind_Ret_inv in Hm as ([] & s1 & H1 & H2).
  apply (vfs_types_preserved demo_fs0 demo_fs demo_fs0_typed).
  eapply rtc_l; [by apply (st_tarfs_init demo_fs0 s1)|]. apply rtc_once. by apply (st_devfs_init s1 demo_fs).
Defined.

Lemma tarfs_read_len_wraps_witness :
  tarfs_read 64 100000 (W64 - 2) 2 demo_fs1 =
    Ret (-2, set_fs_mem (memcpy (fs_mem demo_fs1) 100000 (4608 + 512 + 2) (W64 - 2)) demo_fs1).
Proof.
  apply (tarfs_read_len_wraps demo_fs1 64 100000 2 demo_file).
  - apply lookup_insert_eq.
  - split; [reflexivity|reflexivity].
  - reflexivity.
Defined.

(** A path below a device returns NULL and leaves a node on the heap: the table
    of a device has no release function. *)
Definition demo_null : fs_state (mm_state pmm_state) :=
  state_of demo_fs (devfs_register (chars "null") (Some null_ops) 0 demo_fs).
Definition demo_leak : fs_state (mm_state pmm_state) :=
  state_of demo_null (vfs_resolve (chars "1:/null/x") demo_null).

Theorem device_path_leaks_node :
  vfs_resolve (chars "1:/null/x") demo_null = Ret (0, demo_leak) ∧
  size (fs_nodes demo_null) = 2%nat ∧ size (fs_nodes demo_leak) = 3%nat.
Proof. split; [apply run_value; vm_compute; reflexivity|]. split; vm_compute; reflexivity. Qed.
