(* ===== verification/Fbcon.v ===== *)
(** * The frame buffer console (src/fb/fb.c, fb.h, font.c, fbcon.c)

    Pixels are 32-bit words of the byte memory, behind the address of the
    frame buffer; the glyphs of the font are bytes of the same memory.  The
    description of the frame buffer comes from the boot loader and never
    changes. *)

From S2P Require Import Prelude ByteMem CStr.

(** The fields of struct limine_framebuffer that the kernel reads. *)
Record framebuffer := mkFb {
  fb_address : Z; fb_width : Z; fb_height : Z; fb_pitch : Z; fb_bpp : Z;
  fb_red_size : Z; fb_red_shift : Z; fb_green_size : Z; fb_green_shift : Z;
  fb_blue_size : Z; fb_blue_shift : Z }.

(** font_t *)
Record font := mkFont {
  ft_width : Z; ft_height : Z; ft_glyph_size : Z; ft_num_glyphs : Z; ft_glyphs : Z }.

Record con_state := mkCon {
  con_mem : mem; con_fb : framebuffer; curr_font : font; bg_color : Z; fg_color : Z;
  con_cx : Z; con_cy : Z }.

Abbreviation CM := (M con_state).

Definition set_con_mem (m : mem) (s : con_state) : con_state :=
  mkCon m (con_fb s) (curr_font s) (bg_color s) (fg_color s) (con_cx s) (con_cy s).
Definition set_cursor (x y : Z) (s : con_state) : con_state :=
  mkCon (con_mem s) (con_fb s) (curr_font s) (bg_color s) (fg_color s) x y.

(** ** font.c *)

Definition PSF1_MAGIC : Z := 0x0436.
Definition PSF2_MAGIC : Z := 0x864ab572.

(** The font in the [size] bytes at [data]; [None] is -1. *)
Definition font_load_psf (m : mem) (data size : Z) : option font :=
  if (32 <=? size) && (load32 m data =? PSF2_MAGIC) then
    Some (mkFont (load32 m (data + 28)) (load32 m (data + 24)) (load32 m (data + 20))
            (load32 m (data + 16)) (data + load32 m (data + 8)))
  else if (4 <=? size) && (load_le 2 m data =? PSF1_MAGIC) then
    let charsize := load8 m (data + 3) in
    Some (mkFont 8 charsize charsize
            (if negb (Z.land (load8 m (data + 2)) 1 =? 0) then 512 else 256) (data + 4))
  else None.

(** ** fb.h and fb.c *)

(** [pitch / (bpp / 8)]; a zero divisor is undefined. *)
Definition pix_per_row (f : framebuffer) : Z := fb_pitch f / (fb_bpp f / 8).

Definition pixel_addr (f : framebuffer) (x y : Z) : Z :=
  fb_address f + 4 * ((y *64 pix_per_row f) +64 x).

Definition fb_put (x y color : Z) : CM unit :=
  f <- gets con_fb ;;
  if fb_bpp f / 8 =? 0 then fault
  else modify (λ s, set_con_mem (store32 (con_mem s) (pixel_addr f x y) color) s).

Definition fb_clear (color : Z) : CM unit :=
  f <- gets con_fb ;;
  for_n (fb_height f) (λ y, for_n (fb_width f) (λ x, fb_put x y color)).

(** ** fbcon.c *)

Definition fbcon_scroll : CM unit :=
  f <- gets con_fb ;;
  ft <- gets curr_font ;;
  bg <- gets bg_color ;;
  let row_bytes := fb_pitch f *64 ft_height ft in
  let total_bytes := fb_pitch f *64 fb_height f in
  let base := fb_address f in
  modify (λ s, set_con_mem (memmove (con_mem s) base (base + row_bytes) (total_bytes -64 row_bytes)) s) ;;;
  let bottom := base + (total_bytes -64 row_bytes) in
  let pixels := row_bytes / 4 in
  for_n pixels (λ i, modify (λ s, set_con_mem (store32 (con_mem s) (bottom + 4 * i) bg) s)).

Definition fbcon_newline : CM unit :=
  modify (λ s, set_cursor 0 (con_cy s +64 1) s) ;;;
  f <- gets con_fb ;;
  ft <- gets curr_font ;;
  cy <- gets con_cy ;;
  if fb_height f <=? cy *64 ft_height ft then
    fbcon_scroll ;;;
    modify (λ s, set_cursor (con_cx s) (con_cy s -64 1) s)
  else ret tt.

(** The loop over the pixels of the cell under the cursor: [color m row col] is
    the color of a pixel, given the memory at that moment. *)
Definition draw_cell (color : mem → Z → Z → Z) : CM unit :=
  ft <- gets curr_font ;;
  cx <- gets con_cx ;;
  cy <- gets con_cy ;;
  let ox := cx *64 ft_width ft in
  let oy := cy *64 ft_height ft in
  for_n (ft_height ft) (λ row, for_n (ft_width ft) (λ col,
    m <- gets con_mem ;; fb_put (ox +64 col) (oy +64 row) (color m row col))).

Definition fbcon_clear_cursor : CM unit := bg <- gets bg_color ;; draw_cell (λ _ _ _, bg).
Definition fbcon_draw_cursor : CM unit := fg <- gets fg_color ;; draw_cell (λ _ _ _, fg).

(** [row_data[col / 8] & (0x80 >> (col % 8))] *)
Definition glyph_bit (m : mem) (glyph bytes_per_row row col : Z) : Z :=
  Z.land (load8 m (glyph + row * bytes_per_row + col / 8)) (Z.shiftr 0x80 (col mod 8)).

(** The glyph of a character: the first one when the font has no other. *)
Definition glyph_addr (ft : font) (c : Z) : Z :=
  let idx := u8 c in
  let idx := if ft_num_glyphs ft <=? idx then 0 else idx in
  ft_glyphs ft + idx * ft_glyph_size ft.

(** The backspace branch: [false] is its early return. *)
Definition step_back : CM bool :=
  cx <- gets con_cx ;;
  cy <- gets con_cy ;;
  if 0 <? cx then modify (set_cursor (cx - 1) cy) ;;; ret true
  else if 0 <? cy then
    f <- gets con_fb ;;
    ft <- gets curr_font ;;
    if ft_width ft =? 0 then fault
    else modify (set_cursor (fb_width f / ft_width ft -64 1) (cy - 1)) ;;; ret true
  else ret false.

Definition draw_char (c : Z) : CM unit :=
  ft <- gets curr_font ;;
  fg <- gets fg_color ;;
  bg <- gets bg_color ;;
  let glyph := glyph_addr ft c in
  let bytes_per_row := u32 (ft_width ft + 7) / 8 in
  draw_cell (λ m row col, if negb (glyph_bit m glyph bytes_per_row row col =? 0) then fg else bg).

Definition fbcon_putchar (c : Z) : CM unit :=
  fbcon_clear_cursor ;;;
  if c =? 10 then fbcon_newline ;;; fbcon_draw_cursor
  else if c =? 13 then modify (λ s, set_cursor 0 (con_cy s) s)
  else if c =? 8 then
    moved <- step_back ;;
    if moved then fbcon_clear_cursor ;;; fbcon_draw_cursor else ret tt
  else
    draw_char c ;;;
    modify (λ s, set_cursor (con_cx s +64 1) (con_cy s) s) ;;;
    f <- gets con_fb ;;
    ft <- gets curr_font ;;
    cx <- gets con_cx ;;
    (if fb_width f <=? cx *64 ft_width ft then fbcon_newline else ret tt) ;;;
    fbcon_draw_cursor.

(** The characters of [str] up to its terminator. *)
Fixpoint fbcon_write (str : list Z) : CM unit :=
  match str with
  | [] => ret tt
  | c :: str' => fbcon_putchar c ;;; fbcon_write str'
  end.

Definition fbcon_clear : CM unit :=
  bg <- gets bg_color ;;
  fb_clear bg ;;;
  modify (set_cursor 0 0).
