(* ===== verification/FbconThms.v ===== *)
(** * Theorems about the frame buffer console

    The console is a grid of characters: fbcon_write changes the pixels exactly as
    a text screen would, and touches no memory outside the frame buffer, provided
    the screen is a whole number of character cells wide and high. *)

From S2P Require Import Prelude ByteMem CStr Fbcon.

(** ** The geometry of the screen *)

(** A 32-bit frame buffer of [cols] by [rows] cells, and a font whose glyphs lie
    outside of it. *)
Record geometry (f : framebuffer) (ft : font) (cols rows : Z) : Prop := {
  g_bpp : fb_bpp f = 32;
  g_pitch : fb_pitch f = 4 * pix_per_row f;
  g_w : 0 < ft_width ft < 2 ^ 31;
  g_h : 0 < ft_height ft < 2 ^ 31;
  g_cols : 0 < cols ∧ fb_width f = cols * ft_width ft ∧ fb_width f ≤ pix_per_row f;
  g_rows : 0 < rows ∧ fb_height f = rows * ft_height ft;
  g_mem : 0 < fb_address f ∧ fb_address f + fb_pitch f * fb_height f ≤ W64;
  g_glyphs : 0 < ft_num_glyphs ft ∧ ft_height ft * ((ft_width ft + 7) / 8) ≤ ft_glyph_size ft ∧
    (ft_glyphs ft + ft_num_glyphs ft * ft_glyph_size ft ≤ fb_address f ∨
     fb_address f + fb_pitch f * fb_height f ≤ ft_glyphs ft);
}.

Definition in_fb (f : framebuffer) (a : Z) : Prop :=
  fb_address f ≤ a < fb_address f + fb_pitch f * fb_height f.

Definition pix (f : framebuffer) (m : mem) (x y : Z) : Z :=
  load32 m (fb_address f + 4 * (y * pix_per_row f + x)).

Definition on_screen (f : framebuffer) (x y : Z) : Prop := 0 ≤ x < pix_per_row f ∧ 0 ≤ y < fb_height f.

(** [m'] is [m] with the pixels repainted as [q] says. *)
Definition paints (f : framebuffer) (m m' : mem) (q : Z → Z → option Z) : Prop :=
  (∀ a, ¬ in_fb f a → load8 m' a = load8 m a) ∧
  ∀ x y, on_screen f x y → pix f m' x y = default (pix f m x y) (q x y).

Lemma paints_trans f m1 m2 m3 q1 q2 q :
  paints f m1 m2 q1 → paints f m2 m3 q2 →
  (∀ x y, on_screen f x y → q x y = match q2 x y with Some c => Some c | None => q1 x y end) →
  paints f m1 m3 q.
Proof.
  intros [H1 H2] [H3 H4] Hq. split; [intros a Ha; by rewrite H3, H1|].
  intros x y Hs. rewrite H4, Hq by done. destruct (q2 x y); [done|]. by rewrite H2.
Qed.

Lemma paints_ext f m m' q q' :
  paints f m m' q → (∀ x y, on_screen f x y → q x y = q' x y) → paints f m m' q'.
Proof. intros [H1 H2] Hq. split; [done|]. intros x y Hs. by rewrite H2, Hq. Qed.

Lemma paints_refl f m : paints f m m (λ _ _, None).
Proof. done. Qed.

Section Console.
Context {f : framebuffer} {ft : font} {cols rows : Z} (G : geometry f ft cols rows).

Local Abbreviation P := (pix_per_row f).
Local Abbreviation w := (ft_width ft).
Local Abbreviation h := (ft_height ft).

(** The sizes fit a word. *)
Lemma screen_bounds : cols ≤ cols * w ∧ cols * w < W64 ∧ rows ≤ rows * h ∧ rows * h < W64.
Proof.
  destruct (g_cols _ _ _ _ G) as (Hc0 & Hwd & Hfit). pose proof (g_w _ _ _ _ G) as Hw.
  destruct (g_rows _ _ _ _ G) as [Hr0 HH]. pose proof (g_h _ _ _ _ G) as Hh. destruct (g_mem _ _ _ _ G) as [Ha Hm].
  rewrite (g_pitch _ _ _ _ G), HH in Hm. assert (cols ≤ cols * w ∧ rows ≤ rows * h) as [? ?] by nia.
  assert (cols * w ≤ P) by lia. assert (P * 1 ≤ P * (rows * h)) by (apply Z.mul_le_mono_nonneg_l; lia).
  assert (1 * (rows * h) ≤ P * (rows * h)) by (apply Z.mul_le_mono_nonneg_r; lia). lia.
Qed.

Lemma idx_range x y : on_screen f x y → 0 ≤ y * P + x ∧ 4 * (y * P + x) + 4 ≤ fb_pitch f * fb_height f.
Proof. intros [Hx Hy]. rewrite (g_pitch _ _ _ _ G). nia. Qed.

Lemma idx_inj x y x' y' : on_screen f x y → on_screen f x' y' → y * P + x = y' * P + x' → x = x' ∧ y = y'.
Proof. intros [Hx Hy] [Hx' Hy'] E. assert (y = y') by nia. nia. Qed.

(** Pixels of cells are on the screen. *)
Lemma cell_on_screen i j col row :
  0 ≤ i < cols → 0 ≤ j < rows → 0 ≤ col < w → 0 ≤ row < h → on_screen f (i * w + col) (j * h + row).
Proof.
  intros Hi Hj Hc Hr. destruct (g_cols _ _ _ _ G) as (_ & Hw & Hfit). destruct (g_rows _ _ _ _ G) as (_ & Hh).
  unfold on_screen. rewrite Hh. split; nia.
Qed.

Lemma pixel_addr_eq x y : on_screen f x y → pixel_addr f x y = fb_address f + 4 * (y * P + x).
Proof.
  intros Hs. destruct (idx_range x y Hs) as [H0 H1]. destruct (g_mem _ _ _ _ G). destruct Hs as [Hx Hy]. unfold pixel_addr.
  assert (0 ≤ y * P) by nia. by rewrite (u64_small (y * P)), u64_small by lia.
Qed.

Lemma fb_put_run s x y c :
  con_fb s = f → on_screen f x y → 0 ≤ c < W32 →
  ∃ m, fb_put x y c s = Ret (tt, set_con_mem m s) ∧
    paints f (con_mem s) m (λ x' y', if decide (x' = x ∧ y' = y) then Some c else None).
Proof.
  intros Ef Hs Hc. unfold fb_put. rewrite bind_gets, Ef, (g_bpp _ _ _ _ G). change (32 / 8 =? 0) with false. cbv iota.
  rewrite (pixel_addr_eq x y Hs). eexists. split; [done|]. destruct (idx_range x y Hs) as [H0 H1]. split.
  - intros a Ha. unfold store32. rewrite load8_store_le, decide_False; [done|]. unfold in_fb in Ha. simpl. lia.
  - intros x' y' Hs'. unfold pix, load32, store32. destruct (decide (x' = x ∧ y' = y)) as [[-> ->]|Hne].
    + rewrite load_le_store_le_eq. by apply Z.mod_small.
    + rewrite load_le_store_le_ne; [done|]. simpl.
      destruct (Z.lt_trichotomy (y * P + x) (y' * P + x')) as [?|[E|?]]; [lia| |lia].
      destruct (idx_inj _ _ _ _ Hs Hs' E). naive_solver.
Qed.

(** The pixels of the cell at column [i] and row [j]. *)
Definition in_cell (i j x y : Z) : Prop := i * w ≤ x < i * w + w ∧ j * h ≤ y < j * h + h.

#[local] Instance in_cell_dec i j x y : Decision (in_cell i j x y).
Proof. unfold in_cell. apply _. Defined.

Lemma con_mem_set m s : con_mem (set_con_mem m s) = m.
Proof. done. Qed.

(** The loop over a cell: [col m row c] must not depend on the frame buffer. *)
Lemma draw_cell_run s color :
  con_fb s = f → curr_font s = ft → 0 ≤ con_cx s < cols → 0 ≤ con_cy s < rows →
  (∀ m r c, 0 ≤ r < h → 0 ≤ c < w → (∀ a, ¬ in_fb f a → load8 m a = load8 (con_mem s) a) →
    color m r c = color (con_mem s) r c ∧ 0 ≤ color (con_mem s) r c < W32) →
  ∃ m, draw_cell color s = Ret (tt, set_con_mem m s) ∧
    paints f (con_mem s) m (λ x y, if decide (in_cell (con_cx s) (con_cy s) x y)
      then Some (color (con_mem s) (y - con_cy s * h) (x - con_cx s * w)) else None).
Proof.
  intros Ef Et Hx Hy Hcol. unfold draw_cell. rewrite !bind_gets, Et. cbv zeta.
  set (i := con_cx s) in *. set (j := con_cy s) in *. set (m0 := con_mem s) in *.
  pose proof (g_w _ _ _ _ G) as Hw. pose proof (g_h _ _ _ _ G) as Hh. change (2 ^ 31) with 2147483648 in *.
  assert (∀ r c, 0 ≤ r < h → 0 ≤ c < w → on_screen f (i * w + c) (j * h + r)) as Hon by (intros; by apply cell_on_screen).
  assert (0 ≤ i * w ∧ i * w + w ≤ W64 ∧ 0 ≤ j * h ∧ j * h + h ≤ W64) as (Hw1 & Hw2 & Hh1 & Hh2).
  { destruct (idx_range _ _ (Hon (h - 1) (w - 1) ltac:(lia) ltac:(lia))) as [_ Hr].
    destruct (Hon (h - 1) (w - 1) ltac:(lia) ltac:(lia)) as [? ?]. pose proof (g_mem _ _ _ _ G). nia. }
  rewrite (u64_small (i * w)), (u64_small (j * h)) by lia.
  pose (q := λ (r c : Z) x y, if decide (i * w ≤ x < i * w + w ∧ j * h ≤ y < j * h + r ∨
    y = j * h + r ∧ i * w ≤ x < i * w + c) then Some (color m0 (y - j * h) (x - i * w)) else None).
  destruct (for_n_total (λ r s', ∃ m, s' = set_con_mem m s ∧ paints f m0 m (q r 0))
    (λ row, for_n w (λ col, m <- gets con_mem ;; fb_put (i * w +64 col) (j * h +64 row) (color m row col))) h s)
    as (s' & Hrun & m & -> & Hp); [lia| | |].
  - intros r s1 Hr (m1 & -> & Hp1).
    destruct (for_n_total (λ c s', ∃ m, s' = set_con_mem m s ∧ paints f m0 m (q r c))
      (λ col, m <- gets con_mem ;; fb_put (i * w +64 col) (j * h +64 r) (color m r col)) w (set_con_mem m1 s))
      as (s' & Hrun & m & -> & Hp); [lia| |by exists m1|].
    + intros c s2 Hc (m2 & -> & Hp2). rewrite bind_gets, con_mem_set, !u64_small by lia.
      destruct (Hcol m2 r c Hr Hc (proj1 Hp2)) as [-> Hrange].
      destruct (fb_put_run (set_con_mem m2 s) (i * w + c) (j * h + r) (color m0 r c) Ef (Hon r c Hr Hc) Hrange)
        as (m3 & Hrun & Hp3). exists (set_con_mem m3 s). split; [exact Hrun|]. exists m3. split; [done|].
      eapply paints_trans; [exact Hp2|exact Hp3|]. intros x y _. unfold q.
      destruct (decide (x = i * w + c ∧ y = j * h + r)) as [[-> ->]|Hne].
      * rewrite decide_True by lia. do 2 f_equal; lia.
      * repeat case_decide; try done; exfalso; lia.
    + exists (set_con_mem m s). split; [exact Hrun|]. exists m. split; [done|].
      eapply paints_ext; [exact Hp|]. intros x y _. unfold q. repeat case_decide; try done; exfalso; lia.
  - exists m0. split; [by destruct s|]. eapply paints_ext; [apply paints_refl|]. intros x y _. unfold q.
    rewrite decide_False; [done|]. lia.
  - exists m. split; [exact Hrun|]. eapply paints_ext; [exact Hp|]. intros x y _. unfold q, in_cell.
    repeat case_decide; try done; exfalso; lia.
Qed.

(** ** Scrolling *)

Lemma fill_run s base n c :
  0 ≤ n < W64 → 0 ≤ c < W32 →
  ∃ m, for_n n (λ i, modify (λ s, set_con_mem (store32 (con_mem s) (base + 4 * i) c) s)) s =
         Ret (tt, set_con_mem m s) ∧
    (∀ a, ¬ (base ≤ a < base + 4 * n) → load8 m a = load8 (con_mem s) a) ∧
    (∀ i, 0 ≤ i < n → load32 m (base + 4 * i) = c).
Proof.
  intros Hn Hc. destruct (for_n_total (λ k s', ∃ m, s' = set_con_mem m s ∧
      (∀ a, ¬ (base ≤ a < base + 4 * k) → load8 m a = load8 (con_mem s) a) ∧
      (∀ i, 0 ≤ i < k → load32 m (base + 4 * i) = c))
    (λ i, modify (λ s, set_con_mem (store32 (con_mem s) (base + 4 * i) c) s)) n s)
    as (s' & Hrun & m & -> & H1 & H2); [lia| | |by exists m].
  - intros k s1 Hk (m1 & -> & H1 & H2). eexists. split; [done|]. eexists. split; [done|]. cbn [set_con_mem con_mem].
    unfold load32, store32 in *. split.
    + intros a Ha. rewrite load8_store_le, decide_False by (simpl; lia). apply H1. lia.
    + intros i Hi. destruct (decide (i = k)) as [->|].
      * rewrite load_le_store_le_eq. by apply Z.mod_small.
      * rewrite load_le_store_le_ne by (simpl; lia). apply H2. lia.
  - exists (con_mem s). split; [by destruct s|]. split; [done|lia].
Qed.

Lemma fbcon_scroll_run s :
  con_fb s = f → curr_font s = ft → 0 ≤ bg_color s < W32 →
  ∃ m, fbcon_scroll s = Ret (tt, set_con_mem m s) ∧
    paints f (con_mem s) m (λ x y, Some (if decide (y + h < fb_height f) then pix f (con_mem s) x (y + h) else bg_color s)).
Proof.
  intros Ef Et Hbg. unfold fbcon_scroll. rewrite !bind_gets, Ef, Et. cbv zeta.
  pose proof (g_h _ _ _ _ G) as Hh. destruct (g_mem _ _ _ _ G) as [Ha Hmem]. destruct (g_rows _ _ _ _ G) as [Hr HH].
  pose proof (g_pitch _ _ _ _ G) as Hp. destruct (g_cols _ _ _ _ G) as (Hc0 & Hwd & Hfit). pose proof (g_w _ _ _ _ G) as Hw.
  assert (h ≤ fb_height f) as HhH by nia. assert (0 < P) as HP by nia.
  assert (0 ≤ fb_pitch f * h ∧ fb_pitch f * h ≤ fb_pitch f * fb_height f) as [Hrb Hrb2] by nia.
  rewrite (u64_small (fb_pitch f * h)), (u64_small (fb_pitch f * fb_height f)) by lia.
  rewrite (u64_small (fb_pitch f * fb_height f - fb_pitch f * h)) by lia. rewrite bind_modify.
  assert (fb_pitch f * h / 4 = P * h) as -> by (rewrite Hp, <- Z.mul_assoc, Z.mul_comm; by apply Z.div_mul).
  set (n := fb_pitch f * fb_height f - fb_pitch f * h). set (base := fb_address f) in *.
  assert (n = 4 * (P * (fb_height f - h))) as En by (unfold n; rewrite Hp; lia).
  assert (4 * (P * h) + n = fb_pitch f * fb_height f) as Etot by (rewrite En, Hp; lia).
  set (m1 := memmove (con_mem s) base (base + fb_pitch f * h) n).
  destruct (fill_run (set_con_mem m1 s) (base + n) (P * h) (bg_color s)) as (m & Hrun & Hout & Hin); [nia|done|].
  exists m. split; [exact Hrun|]. cbn [set_con_mem con_mem] in Hout.
  assert (0 ≤ n) as Hn by (unfold n; lia). split.
  - intros a Hna. unfold in_fb in Hna. fold base in Hna. rewrite Hout by lia. unfold m1. rewrite load8_memmove by done.
    unfold copy_spec. rewrite decide_False; [done|]. lia.
  - intros x y [Hx Hy]. unfold default, id, pix. fold base. case_decide as Hy2.
    + assert (4 * (y * P + x) + 4 ≤ n ∧ 0 ≤ y * P + x) as [Hk Hk0] by (rewrite En; nia).
      transitivity (load32 m1 (base + 4 * (y * P + x))).
      { apply load_le_ext. intros a Hia. apply Hout. simpl in Hia. lia. }
      assert (4 * ((y + h) * P + x) = fb_pitch f * h + 4 * (y * P + x)) as E2 by (rewrite Hp; lia).
      rewrite E2. apply load_le_shift. intros k Hk'. unfold m1. rewrite load8_memmove by done. unfold copy_spec.
      rewrite decide_True by (simpl in Hk'; lia). f_equal. lia.
    + assert (y * P + x = P * (fb_height f - h) + ((y - (fb_height f - h)) * P + x)) as -> by lia.
      rewrite Z.mul_add_distr_l, <- En, Z.add_assoc. apply Hin. nia.
Qed.

(** ** The text screen *)

(** The characters of the cells ([None] is blank), the cursor and whether it is
    drawn. *)
Record tscreen := mkT { t_grid : Z → Z → option Z; t_x : Z; t_y : Z; t_shown : bool }.

Definition t_set (i j : Z) (v : option Z) (g : Z → Z → option Z) : Z → Z → option Z :=
  λ i' j', if decide (i' = i ∧ j' = j) then v else g i' j'.

Definition t_newline (T : tscreen) : tscreen :=
  if t_y T + 1 =? rows
  then mkT (λ i j, if j + 1 <? rows then t_grid T i (j + 1) else None) 0 (t_y T) (t_shown T)
  else mkT (t_grid T) 0 (t_y T + 1) (t_shown T).

Definition t_show (T : tscreen) : tscreen := mkT (t_grid T) (t_x T) (t_y T) true.

(** What one character does to the screen.  The cell under the cursor is always
    blanked first. *)
Definition t_put (T : tscreen) (c : Z) : tscreen :=
  let g := t_set (t_x T) (t_y T) None (t_grid T) in
  if c =? 10 then t_show (t_newline (mkT g (t_x T) (t_y T) false))
  else if c =? 13 then mkT g 0 (t_y T) false
  else if c =? 8 then
    if 0 <? t_x T then mkT (t_set (t_x T - 1) (t_y T) None g) (t_x T - 1) (t_y T) true
    else if 0 <? t_y T then mkT (t_set (cols - 1) (t_y T - 1) None g) (cols - 1) (t_y T - 1) true
    else mkT g (t_x T) (t_y T) false
  else
    let T' := mkT (t_set (t_x T) (t_y T) (Some c) g) (t_x T + 1) (t_y T) false in
    t_show (if t_x T + 1 =? cols then t_newline T' else T').

(** The color of a pixel of a cell that shows [v]. *)
Definition cell_color (fg bg : Z) (m : mem) (v : option Z) (row col : Z) : Z :=
  match v with
  | None => bg
  | Some c => if negb (glyph_bit m (glyph_addr ft c) (u32 (w + 7) / 8) row col =? 0) then fg else bg
  end.

Definition displays (fg bg : Z) (m : mem) (T : tscreen) : Prop :=
  ∀ i j row col, 0 ≤ i < cols → 0 ≤ j < rows → 0 ≤ row < h → 0 ≤ col < w →
    pix f m (i * w + col) (j * h + row) =
      if decide (t_shown T = true ∧ i = t_x T ∧ j = t_y T) then fg
      else cell_color fg bg m (t_grid T i j) row col.

Lemma in_cell_iff i j i' j' row col :
  0 ≤ row < h → 0 ≤ col < w → in_cell i j (i' * w + col) (j' * h + row) ↔ i' = i ∧ j' = j.
Proof. intros Hr Hc. unfold in_cell. split; [|intros [-> ->]; lia]. intros [H1 H2]. split; nia. Qed.

(** Glyphs are outside the frame buffer. *)
Lemma cell_color_frame fg bg m m' v row col :
  (∀ a, ¬ in_fb f a → load8 m' a = load8 m a) → 0 ≤ row < h → 0 ≤ col < w →
  cell_color fg bg m' v row col = cell_color fg bg m v row col.
Proof.
  intros Hfr Hr Hc. destruct v as [c|]; [|done]. unfold cell_color, glyph_bit. rewrite Hfr; [done|].
  destruct (g_glyphs _ _ _ _ G) as (Hn & Hsz & Hd). pose proof (g_w _ _ _ _ G) as Hw.
  change (2 ^ 31) with 2147483648 in *. rewrite u32_small by lia. unfold in_fb, glyph_addr. cbv zeta.
  pose proof (u8_range c) as Hu. set (idx := if ft_num_glyphs ft <=? u8 c then 0 else u8 c).
  assert (0 ≤ idx < ft_num_glyphs ft) as Hidx by (unfold idx; destruct (Z.leb_spec (ft_num_glyphs ft) (u8 c)); lia).
  set (b := (w + 7) / 8) in *. assert (0 ≤ col / 8 < b) as Hcb.
  { pose proof (Z.div_mod (w + 7) 8 ltac:(lia)). pose proof (Z.mod_pos_bound (w + 7) 8 ltac:(lia)).
    pose proof (Z.div_mod col 8 ltac:(lia)). pose proof (Z.mod_pos_bound col 8 ltac:(lia)). unfold b. lia. }
  assert (0 ≤ row * b + col / 8 < ft_glyph_size ft) as Hin by nia.
  assert (0 ≤ idx * ft_glyph_size ft ∧ idx * ft_glyph_size ft + ft_glyph_size ft ≤ ft_num_glyphs ft * ft_glyph_size ft) as Hg by nia.
  lia.
Qed.

Section Display.
Context (fg bg : Z) (Hfg : 0 ≤ fg < W32) (Hbg : 0 ≤ bg < W32).

Lemma cell_color_range m v row col : 0 ≤ cell_color fg bg m v row col < W32.
Proof using Hfg Hbg. unfold cell_color. destruct v; [|done]. by destruct (negb _). Qed.

(** Painting the cell under the cursor as a character, blank or the cursor. *)
Lemma displays_cell m m' T v :
  displays fg bg m T → paints f m m' (λ x y, if decide (in_cell (t_x T) (t_y T) x y)
    then Some (cell_color fg bg m v (y - t_y T * h) (x - t_x T * w)) else None) →
  displays fg bg m' (mkT (t_set (t_x T) (t_y T) v (t_grid T)) (t_x T) (t_y T) false).
Proof.
  intros HD [Hfr Hp] i j row col Hi Hj Hr Hc. rewrite Hp by by apply cell_on_screen.
  cbn [t_shown t_grid t_x t_y]. rewrite (decide_False (P := false = true ∧ _)) by (by intros [? _]).
  rewrite (cell_color_frame fg bg m m') by done. unfold t_set.
  destruct (decide (in_cell (t_x T) (t_y T) (i * w + col) (j * h + row))) as [Hin|Hout].
  - apply in_cell_iff in Hin as [-> ->]; [|done..]. rewrite decide_True by done. unfold default, id. f_equal; lia.
  - rewrite (in_cell_iff _ _ i j row col) in Hout by done. rewrite (decide_False (P := i = t_x T ∧ j = t_y T)) by done.
    unfold default. rewrite HD by done. rewrite decide_False; [done|]. tauto.
Qed.

Lemma displays_cursor m m' T :
  displays fg bg m T → t_shown T = false → paints f m m' (λ x y, if decide (in_cell (t_x T) (t_y T) x y)
    then Some fg else None) → displays fg bg m' (t_show T).
Proof.
  intros HD Hs [Hfr Hp] i j row col Hi Hj Hr Hc. rewrite Hp by by apply cell_on_screen.
  cbn [t_show t_shown t_grid t_x t_y]. rewrite (cell_color_frame fg bg m m') by done.
  destruct (decide (in_cell (t_x T) (t_y T) (i * w + col) (j * h + row))) as [Hin|Hout].
  - apply in_cell_iff in Hin as [-> ->]; [|done..]. by rewrite decide_True.
  - rewrite (in_cell_iff _ _ i j row col) in Hout by done. unfold default. rewrite HD by done.
    rewrite decide_False by (rewrite Hs; by intros [? _]). rewrite decide_False; [done|]. tauto.
Qed.

Lemma displays_scroll m m' T x y :
  displays fg bg m T → t_shown T = false →
  paints f m m' (λ x y, Some (if decide (y + h < fb_height f) then pix f m x (y + h) else bg)) →
  displays fg bg m' (mkT (λ i j, if j + 1 <? rows then t_grid T i (j + 1) else None) x y false).
Proof.
  intros HD Hs [Hfr Hp] i j row col Hi Hj Hr Hc. rewrite Hp by by apply cell_on_screen.
  cbn [t_shown t_grid t_x t_y]. rewrite (decide_False (P := false = true ∧ _)) by (by intros [? _]).
  rewrite (cell_color_frame fg bg m m') by done. unfold default, id.
  destruct (g_rows _ _ _ _ G) as [_ HH]. rewrite HH.
  destruct (Z.ltb_spec (j + 1) rows) as [Hlt|Hge].
  - rewrite decide_True by nia. replace (j * h + row + h) with ((j + 1) * h + row) by lia.
    rewrite HD by (done || lia). rewrite decide_False; [done|]. rewrite Hs. by intros [? _].
  - rewrite decide_False by nia. done.
Qed.

(** A cursor that is not drawn can move. *)
Lemma displays_move m T x y : displays fg bg m T → t_shown T = false → displays fg bg m (mkT (t_grid T) x y false).
Proof.
  intros HD Hs i j row col Hi Hj Hr Hc. rewrite HD by done. cbn [t_shown t_grid].
  rewrite Hs. rewrite !decide_False by (by intros [? _]). done.
Qed.

(** The console in state [s] shows [T]. *)
Record shows (s : con_state) (T : tscreen) : Prop := {
  sh_fb : con_fb s = f;
  sh_font : curr_font s = ft;
  sh_bg : bg_color s = bg;
  sh_fg : fg_color s = fg;
  sh_cx : con_cx s = t_x T;
  sh_cy : con_cy s = t_y T;
  sh_x : 0 ≤ t_x T < cols;
  sh_y : 0 ≤ t_y T < rows;
  sh_disp : displays fg bg (con_mem s) T;
}.

(** [s'] shows [T'] and differs from [s] in the frame buffer only. *)
Definition shown s T' s' : Prop :=
  shows s' T' ∧ ∀ a, ¬ in_fb f a → load8 (con_mem s') a = load8 (con_mem s) a.

Lemma shows_mem s m T T' :
  shows s T → displays fg bg m T' → t_x T' = t_x T → t_y T' = t_y T → shows (set_con_mem m s) T'.
Proof. intros [] HD E1 E2. split; cbn; try done; congruence. Qed.

Lemma shows_cursor s T x y :
  shows s T → t_shown T = false → 0 ≤ x < cols → 0 ≤ y < rows → shows (set_cursor x y s) (mkT (t_grid T) x y false).
Proof. intros [] Hs Hx Hy. split; cbn; try done. by apply displays_move. Qed.

Lemma draw_run s T v :
  shows s T → ∃ s', draw_cell (λ m r c, cell_color fg bg m v r c) s = Ret (tt, s') ∧
    shown s (mkT (t_set (t_x T) (t_y T) v (t_grid T)) (t_x T) (t_y T) false) s'.
Proof using G Hfg Hbg.
  intros Hs. pose proof Hs as [H1 H2 H3 H4 H5 H6 H7 H8 H9].
  destruct (draw_cell_run s (λ m r c, cell_color fg bg m v r c) H1 H2) as (m & Hrun & Hp).
  - by rewrite H5.
  - by rewrite H6.
  - intros m r c Hr Hc Hm. split; [by apply cell_color_frame|apply cell_color_range].
  - exists (set_con_mem m s). split; [exact Hrun|]. split; [|apply (proj1 Hp)].
    rewrite H5, H6 in Hp. eapply shows_mem; [done| |done|done]. by eapply displays_cell.
Qed.

Lemma clear_cursor_run s T :
  shows s T → ∃ s', fbcon_clear_cursor s = Ret (tt, s') ∧
    shown s (mkT (t_set (t_x T) (t_y T) None (t_grid T)) (t_x T) (t_y T) false) s'.
Proof using G Hfg Hbg.
  intros Hs. unfold fbcon_clear_cursor. rewrite bind_gets, (sh_bg _ _ Hs). by apply (draw_run s T None).
Qed.

Lemma draw_char_run s T c :
  shows s T → ∃ s', draw_char c s = Ret (tt, s') ∧
    shown s (mkT (t_set (t_x T) (t_y T) (Some c) (t_grid T)) (t_x T) (t_y T) false) s'.
Proof using G Hfg Hbg.
  intros Hs. unfold draw_char. rewrite !bind_gets, (sh_font _ _ Hs), (sh_bg _ _ Hs), (sh_fg _ _ Hs).
  by apply (draw_run s T (Some c)).
Qed.

Lemma draw_cursor_run s T :
  shows s T → t_shown T = false → ∃ s', fbcon_draw_cursor s = Ret (tt, s') ∧ shown s (t_show T) s'.
Proof using G Hfg Hbg.
  intros Hs Hf. pose proof Hs as [H1 H2 H3 H4 H5 H6 H7 H8 H9]. unfold fbcon_draw_cursor. rewrite bind_gets, H4.
  destruct (draw_cell_run s (λ _ _ _, fg) H1 H2) as (m & Hrun & Hp).
  - by rewrite H5.
  - by rewrite H6.
  - done.
  - exists (set_con_mem m s). split; [exact Hrun|]. split; [|apply (proj1 Hp)].
    rewrite H5, H6 in Hp. eapply shows_mem; [done| |done|done]. by eapply displays_cursor.
Qed.

Lemma newline_run s T :
  shows s T → t_shown T = false → ∃ s', fbcon_newline s = Ret (tt, s') ∧ shown s (t_newline T) s'.
Proof using G Hfg Hbg.
  intros Hs Hf. pose proof Hs as [H1 H2 H3 H4 H5 H6 H7 H8 H9]. unfold fbcon_newline, t_newline. rewrite Hf.
  destruct (g_rows _ _ _ _ G) as [Hr HH]. destruct (g_cols _ _ _ _ G) as (Hc0 & _). pose proof (g_h _ _ _ _ G) as Hh.
  pose proof screen_bounds as (_ & _ & Hrh0 & Hrh).
  rewrite bind_modify, !bind_gets. cbn [set_cursor con_fb curr_font con_cy con_cx]. rewrite H1, H2, H6.
  destruct (Z.eqb_spec (t_y T + 1) rows) as [E|E].
  - rewrite (u64_small (t_y T + 1)), E by lia. rewrite (u64_small (rows * h)) by lia.
    replace (fb_height f <=? rows * h) with true by lia.
    destruct (fbcon_scroll_run (set_cursor 0 rows s)) as (m & Hrun & Hp); [done|done|by cbn; rewrite H3|].
    rewrite (bind_Ret _ _ _ _ _ Hrun). cbn [modify set_con_mem set_cursor con_cx con_cy con_mem bg_color con_fb curr_font fg_color] in *.
    exists (set_cursor 0 (u64 (rows - 1)) (set_con_mem m (set_cursor 0 rows s))). split; [done|].
    split; [|apply (proj1 Hp)]. rewrite (u64_small (rows - 1)) by lia. split; cbn [set_cursor con_fb curr_font con_cy con_cx bg_color fg_color t_x t_y con_mem]; try done; try lia.
    rewrite H3 in Hp. by apply (displays_scroll (con_mem s) m T).
  - rewrite (u64_small (t_y T + 1)) by lia.
    assert ((t_y T + 1) * h < rows * h) by nia. rewrite u64_small by nia.
    replace (fb_height f <=? (t_y T + 1) * h) with false by lia.
    eexists. split; [done|]. split; [|done].
    apply (shows_cursor s T 0 (t_y T + 1)); try done; lia.
Qed.

Lemma shown_trans s s1 s2 T1 T2 : shown s T1 s1 → shown s1 T2 s2 → shown s T2 s2.
Proof. intros [_ H1] [H2 H3]. split; [done|]. intros a Ha. by rewrite H3, H1. Qed.

Lemma newline_shown T : t_shown (t_newline T) = t_shown T.
Proof. unfold t_newline. by destruct (_ =? rows). Qed.

(** The backspace, from a screen whose cursor is not drawn. *)
Lemma backspace_run s g x y :
  shows s (mkT g x y false) →
  ∃ s', (moved <- step_back ;; if moved then fbcon_clear_cursor ;;; fbcon_draw_cursor else ret tt) s = Ret (tt, s') ∧
    shown s (if 0 <? x then mkT (t_set (x - 1) y None g) (x - 1) y true
             else if 0 <? y then mkT (t_set (cols - 1) (y - 1) None g) (cols - 1) (y - 1) true
             else mkT g x y false) s'.
Proof using G Hfg Hbg.
  intros Hs. pose proof Hs as [H1 H2 H3 H4 H5 H6 H7 H8 H9]. cbn [t_x t_y] in *.
  unfold step_back. destruct (g_cols _ _ _ _ G) as (Hc0 & Hwd & Hfit). pose proof (g_w _ _ _ _ G) as Hw.
  assert (∀ x' y', 0 ≤ x' < cols → 0 ≤ y' < rows → ∃ s', (fbcon_clear_cursor ;;; fbcon_draw_cursor) (set_cursor x' y' s) = Ret (tt, s') ∧
    shown s (mkT (t_set x' y' None g) x' y' true) s') as Hback.
  { intros x' y' Hx' Hy'. pose proof (shows_cursor s _ x' y' Hs eq_refl Hx' Hy') as Hs1. cbn [t_grid] in Hs1.
    destruct (clear_cursor_run _ _ Hs1) as (s2 & Hr2 & Hsh2). rewrite (bind_Ret _ _ _ _ _ Hr2). cbn [t_x t_y t_grid] in Hsh2.
    destruct (draw_cursor_run _ _ (proj1 Hsh2) eq_refl) as (s3 & Hr3 & Hsh3). exists s3. split; [exact Hr3|].
    pose proof (shown_trans _ _ _ _ _ Hsh2 Hsh3) as [Ha Hb]. by split. }
  destruct (Z.ltb_spec 0 x) as [Hx|Hx].
  - destruct (Hback (x - 1) y) as (s' & Hrun & Hsh); [lia|done|]. exists s'. split; [|done].
    rewrite (bind_Ret _ _ _ true (set_cursor (x - 1) y s)); [exact Hrun|]. rewrite !bind_gets, H5, H6. by replace (0 <? x) with true by lia.
  - destruct (Z.ltb_spec 0 y) as [Hy|Hy].
    + destruct (Hback (cols - 1) (y - 1)) as (s' & Hrun & Hsh); [lia|lia|]. exists s'. split; [|done].
      rewrite (bind_Ret _ _ _ true (set_cursor (cols - 1) (y - 1) s)); [exact Hrun|]. rewrite !bind_gets, H5, H6.
      replace (0 <? x) with false by lia. replace (0 <? y) with true by lia. rewrite !bind_gets, H1, H2.
      destruct (Z.eqb_spec (ft_width ft) 0); [lia|]. rewrite Hwd, Z.div_mul by lia.
      rewrite u64_small; [done|]. pose proof screen_bounds. lia.
    + exists s. split; [|by split]. rewrite (bind_Ret _ _ _ false s); [done|].
      rewrite !bind_gets, H5, H6. replace (0 <? x) with false by lia. by replace (0 <? y) with false by lia.
Qed.

(** An ordinary character, from a screen whose cursor is not drawn. *)
Lemma ordinary_run s g x y c :
  shows s (mkT g x y false) →
  ∃ s', (draw_char c ;;;
         modify (λ s, set_cursor (con_cx s +64 1) (con_cy s) s) ;;;
         f <- gets con_fb ;; ft <- gets curr_font ;; cx <- gets con_cx ;;
         (if fb_width f <=? cx *64 ft_width ft then fbcon_newline else ret tt) ;;;
         fbcon_draw_cursor) s = Ret (tt, s') ∧
    shown s (t_show (let T := mkT (t_set x y (Some c) g) (x + 1) y false in if x + 1 =? cols then t_newline T else T)) s'.
Proof using G Hfg Hbg.
  intros Hs. destruct (draw_char_run s _ c Hs) as (s1 & Hr1 & Hsh1). rewrite (bind_Ret _ _ _ _ _ Hr1), bind_modify, !bind_gets.
  cbn [t_x t_y t_grid] in Hsh1. pose proof Hsh1 as [[H1 H2 H3 H4 H5 H6 H7 H8 H9] Hfr]. cbn [t_x t_y] in *.
  destruct (g_cols _ _ _ _ G) as (Hc0 & Hwd & Hfit). pose proof (g_w _ _ _ _ G) as Hw.
  pose proof screen_bounds as (Hcw0 & Hcw & _). cbn [set_cursor con_fb curr_font con_cx]. rewrite H1, H2, H5, H6.
  rewrite (u64_small (x + 1)) by lia. assert (0 ≤ (x + 1) * w < W64) as Hxw by nia. rewrite (u64_small ((x + 1) * w)) by lia.
  assert ((fb_width f <=? (x + 1) * w) = (x + 1 =? cols)) as -> by (rewrite Hwd; destruct (Z.eqb_spec (x + 1) cols); nia).
  cbv zeta. destruct (Z.eqb_spec (x + 1) cols) as [E|E].
  - (* the cursor column does not matter to the new line *)
    set (s2 := set_cursor (x + 1) y s1).
    assert (fbcon_newline s2 = fbcon_newline s1) as En.
    { unfold fbcon_newline. rewrite !bind_modify. unfold s2. cbn. by rewrite H6. }
    destruct (newline_run s1 _ (proj1 Hsh1) eq_refl) as (s3 & Hr3 & Hsh3). rewrite <- En in Hr3.
    rewrite (bind_Ret _ _ _ _ _ Hr3).
    destruct (draw_cursor_run s3 _ (proj1 Hsh3)) as (s4 & Hr4 & Hsh4); [by rewrite newline_shown|]. exists s4. split; [exact Hr4|].
    exact (shown_trans _ _ _ _ _ Hsh1 (shown_trans _ _ _ _ _ Hsh3 Hsh4)).
  - rewrite bind_ret. pose proof (shows_cursor s1 _ (x + 1) y (proj1 Hsh1) eq_refl ltac:(lia) H8) as Hs2.
    destruct (draw_cursor_run _ _ Hs2 eq_refl) as (s4 & Hr4 & Hsh4). exists s4. split; [exact Hr4|].
    pose proof (shown_trans _ _ _ _ _ Hsh1 Hsh4) as [Hq1 Hq2]. by split.
Qed.

Lemma putchar_run s T c :
  shows s T → ∃ s', fbcon_putchar c s = Ret (tt, s') ∧ shown s (t_put T c) s'.
Proof using G Hfg Hbg.
  intros Hs. unfold fbcon_putchar, t_put. destruct (clear_cursor_run s T Hs) as (s1 & Hr1 & Hsh1).
  rewrite (bind_Ret _ _ _ _ _ Hr1). pose proof (proj1 Hsh1) as Hs1. cbv zeta.
  set (g := t_set (t_x T) (t_y T) None (t_grid T)) in *.
  destruct (Z.eqb_spec c 10) as [_|_]; [|destruct (Z.eqb_spec c 13) as [_|_]; [|destruct (Z.eqb_spec c 8) as [_|_]]].
  - destruct (newline_run s1 _ Hs1 eq_refl) as (s2 & Hr2 & Hsh2). rewrite (bind_Ret _ _ _ _ _ Hr2).
    destruct (draw_cursor_run s2 _ (proj1 Hsh2)) as (s3 & Hr3 & Hsh3); [by rewrite newline_shown|].
    exists s3. split; [exact Hr3|]. exact (shown_trans _ _ _ _ _ Hsh1 (shown_trans _ _ _ _ _ Hsh2 Hsh3)).
  - exists (set_cursor 0 (con_cy s1) s1). split; [done|]. destruct (g_cols _ _ _ _ G) as [Hc0 _].
    split; [|apply Hsh1]. rewrite (sh_cy _ _ Hs1). apply (shows_cursor s1 _ 0 (t_y T) Hs1 eq_refl); [lia|apply (sh_y _ _ Hs)].
  - destruct (backspace_run s1 g (t_x T) (t_y T) Hs1) as (s2 & Hr2 & Hsh2). exists s2. split; [exact Hr2|].
    by eapply shown_trans.
  - destruct (ordinary_run s1 g (t_x T) (t_y T) c Hs1) as (s2 & Hr2 & Hsh2). exists s2. split; [exact Hr2|].
    by eapply shown_trans.
Qed.

(** C22. fbcon_write refines the text screen: on a screen that is a whole number of
    cells, the pixels after writing [str] are those of the text screen to which the
    characters of [str] were put, the cursor is where the text screen has it, and no
    byte outside the frame buffer has changed. *)
Theorem fbcon_write_correct (str : list Z) (s : con_state) (T : tscreen) :
  shows s T → ∃ s', fbcon_write str s = Ret (tt, s') ∧ shows s' (foldl t_put T str) ∧
    ∀ a, ¬ in_fb f a → load8 (con_mem s') a = load8 (con_mem s) a.
Proof using G Hfg Hbg.
  revert s T. induction str as [|c str IH]; intros s T Hs; cbn [fbcon_write foldl].
  { exists s. split; [done|]. by split. }
  destruct (putchar_run s T c Hs) as (s1 & Hr1 & Hsh1 & Hf1). rewrite (bind_Ret _ _ _ _ _ Hr1).
  destruct (IH s1 _ Hsh1) as (s2 & Hr2 & Hsh2 & Hf2). exists s2. split; [exact Hr2|]. split; [done|].
  intros a Ha. by rewrite Hf2, Hf1.
Qed.

Lemma fb_clear_run s c :
  con_fb s = f → 0 ≤ c < W32 →
  ∃ m, fb_clear c s = Ret (tt, set_con_mem m s) ∧
    paints f (con_mem s) m (λ x y, if decide (x < fb_width f) then Some c else None).
Proof using G.
  intros Ef Hc. unfold fb_clear. rewrite bind_gets, Ef. destruct (g_cols _ _ _ _ G) as (Hc0 & Hwd & Hfit).
  destruct (g_rows _ _ _ _ G) as [Hr0 HH]. pose proof screen_bounds as (? & ? & ? & ?).
  pose (q := λ (y0 x0 x y : Z), if decide (x < fb_width f ∧ y < y0 ∨ y = y0 ∧ x < x0) then Some c else None).
  destruct (for_n_total (λ y s', ∃ m, s' = set_con_mem m s ∧ paints f (con_mem s) m (q y 0))
    (λ y, for_n (fb_width f) (λ x, fb_put x y c)) (fb_height f) s) as (s' & Hrun & m & -> & Hp); [lia| | |].
  - intros y s1 Hy (m1 & -> & Hp1).
    destruct (for_n_total (λ x s', ∃ m, s' = set_con_mem m s ∧ paints f (con_mem s) m (q y x))
      (λ x, fb_put x y c) (fb_width f) (set_con_mem m1 s)) as (s' & Hrun & m & -> & Hp); [lia| |by exists m1|].
    + intros x s2 Hx (m2 & -> & Hp2).
      destruct (fb_put_run (set_con_mem m2 s) x y c Ef) as (m3 & Hrun & Hp3); [unfold on_screen; lia|done|].
      exists (set_con_mem m3 s). split; [exact Hrun|]. exists m3. split; [done|].
      eapply paints_trans; [exact Hp2|exact Hp3|]. intros x' y' _. unfold q. repeat case_decide; try done; exfalso; lia.
    + exists (set_con_mem m s). split; [exact Hrun|]. exists m. split; [done|].
      eapply paints_ext; [exact Hp|]. intros x y' [Hx Hy']. unfold q. repeat case_decide; try done; exfalso; lia.
  - exists (con_mem s). split; [by destruct s|]. eapply paints_ext; [apply paints_refl|]. intros x y [Hx Hy]. unfold q.
    rewrite decide_False; [done|]. lia.
  - exists m. split; [exact Hrun|]. eapply paints_ext; [exact Hp|]. intros x y [Hx Hy]. unfold q.
    repeat case_decide; try done; exfalso; lia.
Qed.

(** fbcon_clear makes the console a blank text screen with the cursor, not yet
    drawn, in the upper left corner, whatever was on it. *)
Theorem fbcon_clear_correct (s : con_state) :
  con_fb s = f → curr_font s = ft → bg_color s = bg → fg_color s = fg →
  ∃ s', fbcon_clear s = Ret (tt, s') ∧ shows s' (mkT (λ _ _, None) 0 0 false) ∧
    ∀ a, ¬ in_fb f a → load8 (con_mem s') a = load8 (con_mem s) a.
Proof using G Hbg Hfg.
  intros H1 H2 H3 H4. unfold fbcon_clear. rewrite bind_gets, H3.
  destruct (fb_clear_run s bg H1 Hbg) as (m & Hrun & Hp). rewrite (bind_Ret _ _ _ _ _ Hrun).
  eexists. split; [done|]. split; [|apply (proj1 Hp)].
  destruct (g_cols _ _ _ _ G) as (Hc0 & Hwd & Hfit). destruct (g_rows _ _ _ _ G) as [Hr0 _].
  split; cbn; try done; try lia. intros i j row col Hi Hj Hr Hc.
  destruct Hp as [_ Hp]. rewrite Hp by by apply cell_on_screen. rewrite !decide_True by nia. done.
Qed.

End Display.
End Console.

(** ** A concrete screen: two by two cells of 8 by 16 pixels *)

Definition demo_fb : framebuffer := mkFb 0x200000 16 32 64 32 8 16 8 8 8 0.
Definition demo_font : font := mkFont 8 16 16 256 0x100000.
Definition demo_con : con_state := mkCon ∅ demo_fb demo_font 0xff000000 0xffffffff 0 0.

Lemma demo_geometry : geometry demo_fb demo_font 2 2.
Proof. split; vm_compute; intuition (try discriminate). Qed.

Lemma fbcon_clear_correct_witness :
  ∃ s', fbcon_clear demo_con = Ret (tt, s') ∧
    shows (f := demo_fb) (ft := demo_font) (cols := 2) (rows := 2) 0xffffffff 0xff000000 s' (mkT (λ _ _, None) 0 0 false).
Proof.
  destruct (fbcon_clear_correct demo_geometry 0xffffffff 0xff000000 ltac:(lia) ltac:(lia) demo_con eq_refl eq_refl eq_refl eq_refl)
    as (s' & H1 & H2 & _). exists s'. split; [exact H1|exact H2].
Defined.

(** The console of a blank black screen, shown by black memory. *)
Definition demo_con0 : con_state := mkCon ∅ demo_fb demo_font 0 0xffffffff 0 0.

Lemma demo_con0_shows :
  shows (f := demo_fb) (ft := demo_font) (cols := 2) (rows := 2) 0xffffffff 0 demo_con0 (mkT (λ _ _, None) 0 0 false).
Proof. split; done. Qed.

Lemma fbcon_write_correct_witness :
  ∃ s', fbcon_write [97; 10; 98; 99; 8] demo_con0 = Ret (tt, s') ∧ con_cx s' = 1 ∧ con_cy s' = 0.
Proof.
  destruct (fbcon_write_correct demo_geometry 0xffffffff 0 ltac:(lia) ltac:(lia) [97; 10; 98; 99; 8] demo_con0 _ demo_con0_shows)
    as (s' & H1 & H2 & _). exists s'. split; [exact H1|]. destruct H2 as [_ _ _ _ Hx Hy _ _ _].
  split; [rewrite Hx; reflexivity|rewrite Hy; reflexivity].
Defined.

(** ** A screen that is not a whole number of cells high

    1080 rows of pixels are 67 and a half rows of a 16-pixel font: the comparison in
    fbcon_newline lets the cursor into the half row, and drawing it there writes
    past the end of the frame buffer. *)
Definition hd_fb : framebuffer := mkFb 0x10000000 1920 1080 7680 32 8 16 8 8 8 0.
Definition hd_con : con_state := mkCon ∅ hd_fb demo_font 0xff000000 0xffffffff 0 66.

Theorem fbcon_writes_past_frame_buffer :
  let a := fb_address hd_fb + fb_pitch hd_fb * fb_height hd_fb in
  match fbcon_putchar 10 hd_con with
  | Ret (_, s') => load8 (con_mem hd_con) a = 0 ∧ load8 (con_mem s') a = 255
  | _ => False
  end.
Proof. vm_compute. split; reflexivity. Qed.
