(* ===== verification/Files.v ===== *)
(** * Files: devices, descriptors and the file system calls
    (src/fs/dev/console.c, src/fs/dev/fb.c, and the file calls of
    src/userspace/syscall.c)

    A descriptor is an index into the table of the current process; it names a
    file_t on the kernel heap, which points to a node of the virtual file system.
    Reads and writes go through the table of functions of the node; calling through
    a NULL entry is a fault.  User pointers are addresses of the one memory. *)

From S2P Require Import Prelude ByteMem FrameAlloc CStr Tar Vfs Kbd Fbcon Thread.

Definition MAX_FDS : Z := 64.
Definition FD_RESERVED : Z := 2.
Definition VFS_READ : Z := 1.
Definition VFS_WRITE : Z := 2.

(** file_t *)
Record file := mkFile { f_node : Z; f_offset : Z; f_flags : Z }.
Definition SIZEOF_FILE : Z := 24.

(** The state of the file calls.  The memory is that of [sy_fs]; the memory field
    of [sy_con] is not used.  [sy_pending] are the scancodes that keyboard interrupts
    will deliver. *)
Record sys_state (H : Type) := mkSys {
  sy_fs : fs_state H; sy_files : gmap Z file; sy_con : con_state; sy_kbd : kbd_state;
  sy_pending : list Z; sy_sched : sched; sy_procs : gmap Z process }.
Arguments mkSys {H} _ _ _ _ _ _ _.
Arguments sy_fs {H} _.
Arguments sy_files {H} _.
Arguments sy_con {H} _.
Arguments sy_kbd {H} _.
Arguments sy_pending {H} _.
Arguments sy_sched {H} _.
Arguments sy_procs {H} _.

(** Bytes written at [p]. *)
Fixpoint write_bytes (m : mem) (p : Z) (l : list Z) : mem :=
  match l with
  | [] => m
  | b :: l' => write_bytes (store8 m p b) (p + 1) l'
  end.

(** The bytes of an unsigned integer, least significant first. *)
Definition le_bytes (n : nat) (v : Z) : list Z := (λ k, u8 (v / 256 ^ k)) <$> seqZ 0 (Z.of_nat n).

(** fb_info_t as it lies in memory: 32 bytes. *)
Definition fb_info (f : framebuffer) : list Z :=
  le_bytes 8 (fb_width f) ++ le_bytes 8 (fb_height f) ++ le_bytes 8 (fb_pitch f) ++ le_bytes 2 (fb_bpp f) ++
  [u8 (fb_red_size f); u8 (fb_red_shift f); u8 (fb_green_size f); u8 (fb_green_shift f);
   u8 (fb_blue_size f); u8 (fb_blue_shift f)].
Definition SIZEOF_FB_INFO : Z := 32.

Section Files.
Context {H : Type} `{OH : ObjHeap H}.

Abbreviation SYM := (M (sys_state H)).

Definition set_fs (v : fs_state H) (s : sys_state H) : sys_state H :=
  mkSys v (sy_files s) (sy_con s) (sy_kbd s) (sy_pending s) (sy_sched s) (sy_procs s).
Definition set_files (v : gmap Z file) (s : sys_state H) : sys_state H :=
  mkSys (sy_fs s) v (sy_con s) (sy_kbd s) (sy_pending s) (sy_sched s) (sy_procs s).
Definition set_kbd (v : kbd_state) (p : list Z) (s : sys_state H) : sys_state H :=
  mkSys (sy_fs s) (sy_files s) (sy_con s) v p (sy_sched s) (sy_procs s).
Definition set_procs (v : gmap Z process) (s : sys_state H) : sys_state H :=
  mkSys (sy_fs s) (sy_files s) (sy_con s) (sy_kbd s) (sy_pending s) (sy_sched s) v.

Definition in_fs {A} (m : M (fs_state H) A) : SYM A := zoom sy_fs set_fs m.
Definition upd_memory (g : mem → mem) : SYM unit :=
  modify (λ s, set_fs (set_fs_mem (g (fs_mem (sy_fs s))) (sy_fs s)) s).

(** The console works on the same memory. *)
Definition get_con (s : sys_state H) : con_state := set_con_mem (fs_mem (sy_fs s)) (sy_con s).
Definition put_con (c : con_state) (s : sys_state H) : sys_state H :=
  mkSys (set_fs_mem (con_mem c) (sy_fs s)) (sy_files s) (set_con_mem ∅ c) (sy_kbd s) (sy_pending s)
    (sy_sched s) (sy_procs s).
Definition in_con {A} (m : M con_state A) : SYM A := zoom get_con put_con m.

(** ** console.c *)

(** The loop from index [i], [n] characters to go; [None] is a reader that waits
    for the keyboard.  kbd_getchar looks at no more events than are queued (255 at
    most) and to come. *)
Fixpoint stdin_loop (n : nat) (buf i : Z) : SYM (option Z) :=
  match n with
  | O => ret (Some (s32 i))
  | S n' =>
      k <- gets sy_kbd ;;
      pending <- gets sy_pending ;;
      r <- lift (kbd_getchar (256 + length pending) pending k) ;;
      match r with
      | (None, k') => modify (set_kbd k' []) ;;; ret None
      | (Some (c, pending'), k') =>
          modify (set_kbd k' pending') ;;;
          upd_memory (λ m, store8 m (buf + i) c) ;;;
          if (c =? 10) || (c =? 13) then ret (Some (s32 (i + 1))) else stdin_loop n' buf (i + 1)
      end
  end.

Definition stdin_read (node buf len off : Z) : SYM (option Z) := stdin_loop (Z.to_nat len) buf 0.

(** The bytes to print are read one by one. *)
Fixpoint stdout_loop (n : nat) (buf : Z) : SYM unit :=
  match n with
  | O => ret tt
  | S n' =>
      c <- gets (λ s, load8 (fs_mem (sy_fs s)) buf) ;;
      in_con (fbcon_putchar c) ;;;
      stdout_loop n' (buf + 1)
  end.
Definition stdout_write (node buf len off : Z) : SYM Z := stdout_loop (Z.to_nat len) buf ;;; ret (s32 len).

Definition null_read (node buf len off : Z) : SYM Z := ret 0.
Definition null_write (node buf len off : Z) : SYM Z := ret (s32 len).
Definition zero_read (node buf len off : Z) : SYM Z := upd_memory (λ m, memset m buf 0 len) ;;; ret (s32 len).

Definition console_dev_init : SYM unit :=
  in_fs (devfs_register (chars "stdin") (Some stdin_ops) 0) ;;;
  in_fs (devfs_register (chars "stdout") (Some stdout_ops) 0) ;;;
  in_fs (devfs_register (chars "null") (Some null_ops) 0) ;;;
  in_fs (devfs_register (chars "zero") (Some zero_ops) 0).

(** ** fb.c *)

Definition fb_read (node buf len off : Z) : SYM Z :=
  f <- gets (λ s, con_fb (sy_con s)) ;;
  let info_size := SIZEOF_FB_INFO in
  if off <? info_size then
    let to_copy := info_size - off in
    let to_copy := if len <? to_copy then len else to_copy in
    upd_memory (λ m, write_bytes m buf (take (Z.to_nat to_copy) (drop (Z.to_nat off) (fb_info f)))) ;;;
    ret (s32 to_copy)
  else
    let fb_size := fb_pitch f *64 fb_height f in
    let fb_off := off - info_size in
    if fb_size <=? fb_off then ret 0
    else
      let to_copy := fb_size - fb_off in
      let to_copy := if len <? to_copy then len else to_copy in
      upd_memory (λ m, memcpy m buf (fb_address f + fb_off) to_copy) ;;;
      ret (s32 to_copy).

Definition fb_write (node buf len off : Z) : SYM Z :=
  f <- gets (λ s, con_fb (sy_con s)) ;;
  let info_size := SIZEOF_FB_INFO in
  if off <? info_size then ret (-1)
  else
    let fb_off := off - info_size in
    let fb_size := fb_pitch f *64 fb_height f in
    if fb_size <=? fb_off then ret 0
    else
      let to_write := fb_size - fb_off in
      let to_write := if len <? to_write then len else to_write in
      upd_memory (λ m, memcpy m (fb_address f + fb_off) buf to_write) ;;;
      ret (s32 to_write).

Definition fb_dev_init : SYM unit := in_fs (devfs_register (chars "fb") (Some fb_ops) 0).

(** ** The read and write entries of the tables *)

(** A read that waits forever is [None]. *)
Definition ops_read (o : ops_table) : option (Z → Z → Z → Z → SYM (option Z)) :=
  let done f := Some (λ node buf len off, n <- f node buf len off ;; ret (Some n)) in
  match o with
  | tarfs_ops => done (λ node buf len off, in_fs (tarfs_read node buf len off))
  | stdin_ops => Some stdin_read
  | null_ops => done null_read
  | zero_ops => done zero_read
  | fb_ops => done fb_read
  | devfs_root_ops | stdout_ops => None
  end.

Definition ops_write (o : ops_table) : option (Z → Z → Z → Z → SYM Z) :=
  match o with
  | stdout_ops => Some stdout_write
  | null_ops | zero_ops => Some null_write
  | fb_ops => Some fb_write
  | tarfs_ops | devfs_root_ops | stdin_ops => None
  end.

(** ** Descriptors *)

(** curr_thread->process *)
Definition curr_process : SYM Z :=
  c <- gets sy_sched ;; t <- of_opt (threads c !! curr_thread c) ;; ret (th_process t).
Definition get_proc (p : Z) : SYM process := ps <- gets sy_procs ;; of_opt (ps !! p).
Definition put_proc (p : Z) (v : process) : SYM unit := modify (λ s, set_procs (<[p := v]> (sy_procs s)) s).
Definition with_fds (fds : list Z) (p : process) : process :=
  mkProcess (p_pid p) (p_name p) (p_addr_space p) (p_thread p) (p_heap_top p) (p_regions p) fds (p_ports p)
    (p_cwd p) (p_next p).
Definition with_cwd (cwd : list Z) (p : process) : process :=
  mkProcess (p_pid p) (p_name p) (p_addr_space p) (p_thread p) (p_heap_top p) (p_regions p) (p_fds p) (p_ports p)
    cwd (p_next p).

Definition get_file (p : Z) : SYM file := fs <- gets sy_files ;; of_opt (fs !! p).
Definition put_file (p : Z) (v : file) : SYM unit := modify (λ s, set_files (<[p := v]> (sy_files s)) s).
Definition new_file (v : file) : SYM Z :=
  p <- in_fs (zoom fs_heap set_fs_heap (oh_malloc SIZEOF_FILE)) ;; put_file p v ;;; ret p.
Definition free_file (p : Z) : SYM unit :=
  in_fs (zoom fs_heap set_fs_heap (oh_free p)) ;;; modify (λ s, set_files (delete p (sy_files s)) s).

(** The guard of the calls on a descriptor, an int: the file, or [None] for the
    early return of -1.  A table shorter than MAX_FDS is a fault. *)
Definition fd_file (fd : Z) : SYM (option Z) :=
  p <- curr_process ;;
  proc <- get_proc p ;;
  if (fd <? 0) || (MAX_FDS <=? fd) then ret None
  else f <- of_opt (p_fds proc !! Z.to_nat fd) ;; ret (if f =? 0 then None else Some f).

(** The first free descriptor from [i] on, [n] to go; -1 when there is none. *)
Fixpoint find_fd (n : nat) (fds : list Z) (i : Z) : outcome Z :=
  match n with
  | O => Ret (-1)
  | S n' =>
      match fds !! Z.to_nat i with
      | None => Fault
      | Some f => if f =? 0 then Ret i else find_fd n' fds (i + 1)
      end
  end.

Definition sys_open (path : list Z) : SYM Z :=
  p <- curr_process ;;
  proc <- get_proc p ;;
  fd <- lift (find_fd (Z.to_nat (MAX_FDS - FD_RESERVED)) (p_fds proc) FD_RESERVED) ;;
  if fd =? -1 then ret (-1)
  else
    node <- in_fs (vfs_resolve path) ;;
    if node =? 0 then ret (-1)
    else
      file <- new_file (mkFile node 0 VFS_READ) ;;
      proc <- get_proc p ;;
      put_proc p (with_fds (<[Z.to_nat fd := file]> (p_fds proc)) proc) ;;;
      ret fd.

(** [if (n > 0) file->offset += n] *)
Definition advance (f n : Z) : SYM unit :=
  if 0 <? n then fl <- get_file f ;; put_file f (mkFile (f_node fl) (f_offset fl +64 n) (f_flags fl)) else ret tt.

(** [None] is a call that waits; the result is an int64_t. *)
Definition sys_read (fd buf size : Z) : SYM (option Z) :=
  r <- fd_file fd ;;
  match r with
  | None => ret (Some (-1))
  | Some f =>
      fl <- get_file f ;;
      nd <- in_fs (get_node (f_node fl)) ;;
      match nd_ops nd ≫= ops_read with
      | None => fault
      | Some rd =>
          r <- rd (f_node fl) buf size (f_offset fl) ;;
          match r with
          | None => ret None
          | Some n => advance f n ;;; ret (Some n)
          end
      end
  end.

Definition sys_write (fd buf size : Z) : SYM Z :=
  r <- fd_file fd ;;
  match r with
  | None => ret (-1)
  | Some f =>
      fl <- get_file f ;;
      nd <- in_fs (get_node (f_node fl)) ;;
      match nd_ops nd ≫= ops_write with
      | None => fault
      | Some wr => n <- wr (f_node fl) buf size (f_offset fl) ;; advance f n ;;; ret n
      end
  end.

(** [f->node->refcount--; if (f->node->refcount == 0 && ops->release) release; kfree(f)] *)
Definition close_file (f : Z) : SYM unit :=
  fl <- get_file f ;;
  let node := f_node fl in
  nd <- in_fs (get_node node) ;;
  in_fs (put_node node (with_refcount (u32 (nd_refcount nd - 1)) nd)) ;;;
  nd <- in_fs (get_node node) ;;
  (if nd_refcount nd =? 0 then
     match nd_ops nd with
     | None => fault
     | Some o => match ops_release o with Some rel => in_fs (rel node) | None => ret tt end
     end
   else ret tt) ;;;
  free_file f.

Definition sys_close (fd : Z) : SYM Z :=
  r <- fd_file fd ;;
  match r with
  | None => ret (-1)
  | Some f =>
      close_file f ;;;
      p <- curr_process ;;
      proc <- get_proc p ;;
      put_proc p (with_fds (<[Z.to_nat fd := 0]> (p_fds proc)) proc) ;;;
      ret 0
  end.

(** [offset] is an int64_t; sums that leave its range are undefined. *)
Definition fits_int64 (z : Z) : bool := (- 9223372036854775808 <=? z) && (z <=? 9223372036854775807).

Definition sys_seek (fd offset whence : Z) : SYM Z :=
  r <- fd_file fd ;;
  match r with
  | None => ret (-1)
  | Some f =>
      fl <- get_file f ;;
      new_off <- (if whence =? 0 then ret (Some offset)
                  else if whence =? 1 then ret (Some (s64 (f_offset fl) + offset))
                  else if whence =? 2 then
                    nd <- in_fs (get_node (f_node fl)) ;; ret (Some (s64 (nd_size nd) + offset))
                  else ret None) ;;
      match new_off with
      | None => ret (-1)
      | Some n =>
          if negb (fits_int64 n) then fault
          else if n <? 0 then ret (-1)
          else put_file f (mkFile (f_node fl) n (f_flags fl)) ;;; ret n
      end
  end.

(** The loop of sys_listdir: the entries from [count] on, [n] at most. *)
Fixpoint listdir_calls (n : nat) (rd : Z → Z → M (fs_state H) (option dirent)) (dir count : Z) : SYM (list dirent) :=
  match n with
  | O => ret []
  | S n' =>
      e <- in_fs (rd dir (u32 count)) ;;
      match e with
      | None => ret []
      | Some e => rest <- listdir_calls n' rd dir (count + 1) ;; ret (e :: rest)
      end
  end.

(** The entries written, whose number is the result; [None] is -1. *)
Definition sys_listdir (path : list Z) (max : Z) : SYM (option (list dirent)) :=
  dir <- in_fs (vfs_resolve path) ;;
  if dir =? 0 then ret None
  else
    nd <- in_fs (get_node dir) ;;
    if negb (bool_decide (nd_type nd = NODE_DIR)) then in_fs (release dir) ;;; ret None
    else
      es <- (if 0 <? max then
               match nd_ops nd ≫= ops_readdir with
               | None => fault
               | Some rd => listdir_calls (Z.to_nat max) rd dir 0
               end
             else ret []) ;;
      in_fs (release dir) ;;;
      ret (Some es).

(** The drives present, in order and up to [max]: their numbers and labels. *)
Definition sys_listdrives (max : Z) : SYM (list (Z * list Z)) :=
  ds <- gets (λ s, vfs_drives (sy_fs s)) ;;
  ret (take (Z.to_nat max) (omap (λ '(i, d), if dr_present d then Some (u8 (Z.of_nat i), take 63 (dr_label d)) else None)
    (imap pair ds))).

(** ** The working directory *)

(** The bytes sys_get_cwd copies to the user, and its result; [copied] says
    whether copy_to_user succeeds for that many bytes. *)
Definition sys_get_cwd (copied : Z → bool) (buf_size : Z) : SYM (Z * list Z) :=
  p <- curr_process ;;
  proc <- get_proc p ;;
  let len := Z.of_nat (length (p_cwd proc)) in
  if buf_size =? 0 then ret (-1, [])
  else
    let to_copy := if len <? buf_size - 1 then len else buf_size - 1 in
    if negb (copied to_copy) then ret (-1, [])
    else if negb (copied (to_copy + 1)) then ret (-1, take (Z.to_nat to_copy) (p_cwd proc))
    else ret (s32 to_copy, take (Z.to_nat to_copy) (p_cwd proc) ++ [0]).

(** The C string in an array of bytes that a terminator follows. *)
Definition cstring (l : list Z) : list Z := match first_index 0 l with Some i => take i l | None => l end.

(** [copied n] are the [n] bytes copy_from_user delivers, [None] is its -1. *)
Definition sys_set_cwd (copied : Z → option (list Z)) (buf_size : Z) : SYM Z :=
  p <- curr_process ;;
  proc <- get_proc p ;;
  if buf_size =? 0 then ret (-1)
  else
    let to_copy := if buf_size <? 255 then buf_size else 255 in
    match copied to_copy with
    | None => ret (-1)
    | Some tmp =>
        node <- in_fs (vfs_resolve (cstring tmp)) ;;
        if node =? 0 then ret (-1)
        else
          nd <- in_fs (get_node node) ;;
          if negb (bool_decide (nd_type nd = NODE_DIR)) then in_fs (release node) ;;; ret (-1)
          else
            in_fs (release node) ;;;
            proc <- get_proc p ;;
            put_proc p (with_cwd (cstring tmp) proc) ;;;
            ret (s32 to_copy)
    end.

End Files.
