(* ===== verification/FilesThms.v ===== *)
(** * Theorems about descriptors and the file system calls *)

From S2P Require Import Prelude ByteMem FrameAlloc Pmm Heap HeapThms CStr Printf Tar Vfs VfsThms Kbd Fbcon Thread Files.

Section FilesTheorems.
Context {H : Type} `{OH : ObjHeap H}.
Implicit Types s : sys_state H.

(** [p] is the current process, with the struct [proc]. *)
Record running s (p : Z) (proc : process) : Prop := {
  ru_thread : ∃ t, threads (sy_sched s) !! curr_thread (sy_sched s) = Some t ∧ th_process t = p;
  ru_proc : sy_procs s !! p = Some proc;
  ru_fds : length (p_fds proc) = 64%nat;
}.

(** The file system is in order, the files are blocks of the heap of their own,
    and an open descriptor names a file and a node that exist. *)
Record files_ok s (X : gset Z) (hs : list header) (proc : process) : Prop := {
  fi_fs : fs_ok (sy_fs s) (X ∪ dom (sy_files s)) hs;
  fi_disj : X ## dom (sy_files s);
  fi_null : sy_files s !! 0 = None;
  fi_open : ∀ i f, p_fds proc !! i = Some f → f ≠ 0 →
    ∃ fl nd, sy_files s !! f = Some fl ∧ fs_nodes (sy_fs s) !! f_node fl = Some nd;
}.

Lemma curr_process_run s p proc : running s p proc → curr_process s = Ret (p, s).
Proof. intros [(t & Ht & <-) _ _]. unfold curr_process. rewrite bind_gets, Ht. done. Qed.

Lemma get_proc_run s p proc : sy_procs s !! p = Some proc → get_proc p s = Ret (proc, s).
Proof. intros E. unfold get_proc. by rewrite bind_gets, E. Qed.

Lemma get_file_run s p fl : sy_files s !! p = Some fl → get_file p s = Ret (fl, s).
Proof. intros E. unfold get_file. by rewrite bind_gets, E. Qed.

Lemma in_fs_run {A} (m : M (fs_state H) A) s a t : m (sy_fs s) = Ret (a, t) → in_fs m s = Ret (a, set_fs t s).
Proof. intros E. by apply zoom_Ret. Qed.

Lemma set_fs_id s : set_fs (sy_fs s) s = s.
Proof. by destruct s. Qed.

Lemma in_fs_node s p nd : fs_nodes (sy_fs s) !! p = Some nd → in_fs (get_node p) s = Ret (nd, s).
Proof. intros E. rewrite (in_fs_run _ s nd (sy_fs s)), set_fs_id; [done|]. by apply get_node_run. Qed.

(** What the guard on a descriptor finds. *)
Definition fd_entry (proc : process) (fd : Z) : option Z :=
  if decide (0 ≤ fd < 64) then f ← p_fds proc !! Z.to_nat fd; if f =? 0 then None else Some f else None.

Lemma fd_file_run s p proc fd : running s p proc → fd_file fd s = Ret (fd_entry proc fd, s).
Proof.
  intros Hr. unfold fd_file, fd_entry. rewrite (bind_Ret _ _ _ _ _ (curr_process_run _ _ _ Hr)).
  rewrite (bind_Ret _ _ _ _ _ (get_proc_run _ _ _ (ru_proc _ _ _ Hr))). change MAX_FDS with 64.
  destruct (decide (0 ≤ fd < 64)) as [Hfd|Hfd].
  - replace ((fd <? 0) || (64 <=? fd)) with false by lia.
    destruct (lookup_lt_is_Some_2 (p_fds proc) (Z.to_nat fd)) as [f Hf]; [rewrite (ru_fds _ _ _ Hr); lia|].
    rewrite Hf. done.
  - by replace ((fd <? 0) || (64 <=? fd)) with true by lia.
Qed.

Lemma find_fd_spec fds n : ∀ i,
  (i + n ≤ length fds)%nat →
  find_fd n fds (Z.of_nat i) = Ret (match list_find (λ f, f = 0) (take n (drop i fds)) with
                                    | Some (k, _) => Z.of_nat (i + k) | None => -1 end).
Proof.
  induction n as [|n IH]; intros i Hi; [done|]. cbn [find_fd]. rewrite Nat2Z.id.
  destruct (lookup_lt_is_Some_2 fds i) as [f Hf]; [lia|]. rewrite Hf, (drop_S _ _ _ Hf). cbn [take list_find].
  destruct (Z.eqb_spec f 0) as [->|Hne].
  - rewrite decide_True by done. by rewrite Nat.add_0_r.
  - rewrite decide_False by done. replace (Z.of_nat i + 1) with (Z.of_nat (S i)) by lia. rewrite IH by lia.
    destruct (list_find _ _) as [[k x]|]; [|done]. cbn. do 2 f_equal. lia.
Qed.

(** The lowest free descriptor above the reserved ones. *)
Definition free_fd (proc : process) : option nat :=
  (λ '(k, _), (2 + k)%nat) <$> list_find (λ f, f = 0) (drop 2 (p_fds proc)).

Lemma find_fd_free proc : length (p_fds proc) = 64%nat →
  find_fd (Z.to_nat (MAX_FDS - FD_RESERVED)) (p_fds proc) FD_RESERVED = Ret (from_option Z.of_nat (-1) (free_fd proc)).
Proof.
  intros Hl. change FD_RESERVED with (Z.of_nat 2). rewrite find_fd_spec by (rewrite Hl; done).
  rewrite take_ge by (rewrite length_drop, Hl; done). unfold free_fd. destruct (list_find _ _) as [[k x]|]; done.
Qed.

Lemma free_fd_lookup proc fd : free_fd proc = Some fd → length (p_fds proc) = 64%nat →
  p_fds proc !! fd = Some 0 ∧ (2 ≤ fd < 64)%nat.
Proof.
  unfold free_fd. intros E Hl. destruct (list_find _ _) as [[k x]|] eqn:Ef; [|done]. injection E as <-.
  apply list_find_Some in Ef as (Hk & -> & _). rewrite lookup_drop in Hk. split; [done|].
  apply lookup_lt_Some in Hk. lia.
Qed.

(** A descriptor that is not open: every call on it returns -1 and changes
    nothing. *)
Theorem bad_descriptor_error (s : sys_state H) (p : Z) (proc : process) (fd : Z) :
  running s p proc → fd_entry proc fd = None →
  (∀ buf size, sys_read fd buf size s = Ret (Some (-1), s)) ∧
  (∀ buf size, sys_write fd buf size s = Ret (-1, s)) ∧
  sys_close fd s = Ret (-1, s) ∧
  (∀ offset whence, sys_seek fd offset whence s = Ret (-1, s)).
Proof.
  intros Hr Hf. pose proof (fd_file_run s p proc fd Hr) as E. rewrite Hf in E.
  split_and!; intros; unfold sys_read, sys_write, sys_close, sys_seek; rewrite (bind_Ret _ _ _ _ _ E); done.
Qed.

(** A new file on the heap. *)
Lemma new_file_wp s X hs proc v :
  files_ok s X hs proc → wp (new_file v s) (λ f s', f ≠ 0 ∧ sy_files s !! f = None ∧
    s' = set_files (<[f := v]> (sy_files s)) (set_fs (set_fs_heap (fs_heap (sy_fs s')) (sy_fs s)) s) ∧
    fs_ok (sy_fs s') (X ∪ dom (sy_files s')) hs ∧ X ## dom (sy_files s')).
Proof.
  intros Hok. pose proof (fi_fs _ _ _ _ Hok) as Hfs. unfold new_file. apply wp_bind, wp_zoom, wp_zoom.
  assert (0 < SIZEOF_FILE ≤ 2 ^ 40) as Hsz by done.
  apply wp_safe; [by eapply oh_malloc_safe; [apply (fo_heap _ _ _ Hfs)|]|]. intros f h Hm.
  destruct (oh_malloc_ok _ _ _ _ _ (fo_heap _ _ _ Hfs) Hsz Hm) as (Hf0 & HfL & Hrep).
  cbn [wp]. unfold put_file. split; [done|]. split; [apply not_elem_of_dom; set_solver|]. split; [done|].
  cbn [set_files set_fs sy_fs sy_files]. rewrite dom_insert_L. pose proof (fi_disj _ _ _ _ Hok). split; [|set_solver].
  destruct Hfs as [G1 G2 G3 G4 G5 G6 G7 G8 G9 G10]. split; try done; cbn.
  - eapply oh_rep_ext; [exact Hrep|]. set_solver.
  - set_solver.
Qed.

(** sys_open, when a descriptor above the reserved ones is free: the result of
    the path's resolution as a new file with offset 0 under the lowest such
    descriptor; -1, with no file added, when the path leads nowhere. *)
Lemma sys_open_wp s X hs p proc path fd :
  running s p proc → files_ok s X hs proc → (∀ x, x ∈ path → 0 < x) → parse_path path ≠ Fault →
  free_fd proc = Some fd →
  wp (sys_open path s) (λ r s',
    match (target (sy_fs s) hs path).2 with
    | WNull | WLeak _ => r = -1 ∧ sy_files s' = sy_files s ∧ sy_procs s' = sy_procs s
    | WRoot | WNode _ => r = Z.of_nat fd ∧ ∃ f nd fs1 h, f ≠ 0 ∧ sy_files s !! f = None ∧
        resolved (sy_fs s) (X ∪ dom (sy_files s)) hs (target (sy_fs s) hs path) nd fs1 ∧
        s' = set_procs (<[p := with_fds (<[fd := f]> (p_fds proc)) proc]> (sy_procs s))
               (set_files (<[f := mkFile nd 0 VFS_READ]> (sy_files s)) (set_fs (set_fs_heap h fs1) s)) ∧
        fs_ok (sy_fs s') (X ∪ dom (sy_files s')) hs ∧ X ## dom (sy_files s')
    end).
Proof.
  intros Hr Hok Hpos Hpf Hfd. unfold sys_open. rewrite (bind_Ret _ _ _ _ _ (curr_process_run _ _ _ Hr)).
  rewrite (bind_Ret _ _ _ _ _ (get_proc_run _ _ _ (ru_proc _ _ _ Hr))).
  rewrite (bind_lift _ _ _ _ (find_fd_free proc (ru_fds _ _ _ Hr))), Hfd. cbn [from_option].
  destruct (free_fd_lookup _ _ Hfd (ru_fds _ _ _ Hr)) as [_ Hrange].
  destruct (Z.eqb_spec (Z.of_nat fd) (-1)); [lia|]. apply wp_bind, wp_zoom.
  eapply wp_mono; [by apply (vfs_resolve_wp (sy_fs s) (X ∪ dom (sy_files s)) hs path (fi_fs _ _ _ _ Hok))|].
  intros nd fs1 Hres. pose proof (proj1 Hres) as Hok1.
  assert (nd = 0 ↔ match (target (sy_fs s) hs path).2 with WNull | WLeak _ => True | _ => False end) as Hnull.
  { destruct Hres as [_ Hw]. destruct (target (sy_fs s) hs path) as [root w]. cbn [fst snd] in *. destruct w.
    - tauto.
    - destruct Hw as (-> & n0 & Hn & _). split; [|done]. intros ->. by rewrite (fo_null _ _ _ (fi_fs _ _ _ _ Hok)) in Hn.
    - tauto.
    - tauto. }
  destruct (Z.eqb_spec nd 0) as [->|Hnd].
  { destruct (target (sy_fs s) hs path).2; destruct Hnull as [Hn _]; specialize (Hn eq_refl); done. }
  assert (files_ok (set_fs fs1 s) X hs (with_fds [] proc)) as Hokf.
  { destruct Hok. by split. }
  apply wp_bind. eapply wp_mono; [by apply (new_file_wp _ X hs (with_fds [] proc))|].
  intros f s2 (Hf0 & Hfn & Es2 & Hfs2 & Hd2). set (h := fs_heap (sy_fs s2)) in *.
  assert (sy_procs s2 !! p = Some proc) as Hp2 by (rewrite Es2; apply (ru_proc _ _ _ Hr)).
  rewrite (bind_Ret _ _ _ _ _ (get_proc_run _ _ _ Hp2)).
  destruct (target (sy_fs s) hs path) as [root [| |n'|n']] eqn:Et; cbn [snd fst] in *; try (destruct Hnull as [_ Hn]; specialize (Hn I); done).
  all: cbn [wp put_proc modify bind ret]; rewrite Nat2Z.id; split; [done|]; exists f, nd, fs1, h;
    split_and!; try done; rewrite Es2 at 1; try done; rewrite Es2; done.
Qed.

(** The nodes after one reference to [n] at [p] was dropped by closing a file:
    the last reference to a node of the archive frees it. *)
Definition closed_nodes (N : gmap Z fsnode) (p : Z) (n : fsnode) : gmap Z fsnode :=
  let c := u32 (nd_refcount n - 1) in
  if decide (c = 0 ∧ nd_ops n = Some tarfs_ops) then delete p N else <[p := with_refcount c n]> N.

(** Nodes whose table has a release function other than the root's, or none. *)
Definition closable (n : fsnode) : Prop :=
  nd_ops n = Some tarfs_ops ∨ u32 (nd_refcount n - 1) ≠ 0 ∨ (∃ o, nd_ops n = Some o) ∧ device_table (nd_ops n).

Lemma free_file_run s f L :
  oh_rep (fs_heap (sy_fs s)) L → L f →
  ∃ h, free_file f s = Ret (tt, set_files (delete f (sy_files s)) (set_fs (set_fs_heap h (sy_fs s)) s)) ∧
    oh_rep h (λ q, L q ∧ q ≠ f).
Proof.
  intros Hrep Hf. destruct (oh_free_ok _ _ f Hrep Hf) as (h & Hrun & Hrep'). exists h. split; [|done].
  unfold free_file. erewrite bind_Ret by (apply in_fs_run, zoom_Ret, Hrun). done.
Qed.

Lemma close_file_run s X f fl n :
  oh_rep (fs_heap (sy_fs s)) (λ q, q ∈ X ∪ dom (sy_files s) ∪ dom (fs_nodes (sy_fs s))) →
  X ∪ dom (sy_files s) ## dom (fs_nodes (sy_fs s)) → X ## dom (sy_files s) → sy_files s !! f = Some fl →
  fs_nodes (sy_fs s) !! f_node fl = Some n → closable n →
  ∃ h, close_file f s = Ret (tt, set_files (delete f (sy_files s))
         (set_fs (set_nodes (closed_nodes (fs_nodes (sy_fs s)) (f_node fl) n) (set_fs_heap h (sy_fs s))) s)) ∧
    oh_rep h (λ q, q ∈ X ∪ dom (delete f (sy_files s)) ∪ dom (closed_nodes (fs_nodes (sy_fs s)) (f_node fl) n)).
Proof.
  intros Hrep Hd Hdis Hf Hn Hcl. unfold close_file. rewrite (bind_Ret _ _ _ _ _ (get_file_run s f fl Hf)). cbv zeta.
  rewrite (bind_Ret _ _ _ _ _ (in_fs_node s _ n Hn)). set (nd := f_node fl) in *. set (c := u32 (nd_refcount n - 1)).
  set (fs1 := set_nodes (<[nd := with_refcount c n]> (fs_nodes (sy_fs s))) (sy_fs s)).
  rewrite (bind_Ret _ _ _ tt (set_fs fs1 s)) by done.
  rewrite (bind_Ret _ _ _ _ _ (in_fs_node (set_fs fs1 s) nd (with_refcount c n) (lookup_insert_eq _ _ _))).
  cbn [with_refcount nd_refcount nd_ops]. change (mkNode _ _ _ _ c) with (with_refcount c n).
  assert (f ∈ dom (sy_files s)) as Hfd by (apply elem_of_dom; eauto).
  assert (nd ∈ dom (fs_nodes (sy_fs s))) as Hndd by (apply elem_of_dom; eauto).
  unfold closed_nodes. fold c. destruct (decide (c = 0 ∧ nd_ops n = Some tarfs_ops)) as [[Hc0 Ho]|Hno].
  - rewrite Hc0, Ho. cbn [Z.eqb ops_release].
    destruct (oh_free_ok _ _ nd Hrep) as (h1 & Hrun1 & Hrep1); [set_solver|].
    assert (tarfs_release nd fs1 = Ret (tt, set_nodes (delete nd (fs_nodes (sy_fs s))) (set_fs_heap h1 (sy_fs s)))) as Hrel.
    { unfold tarfs_release, drop_reference.
      rewrite (bind_Ret _ _ _ _ _ (get_node_run fs1 nd (with_refcount c n) (lookup_insert_eq _ _ _))).
      cbn [with_refcount nd_refcount]. rewrite Hc0. change (0 <? 0) with false. cbv iota. rewrite bind_ret.
      rewrite (bind_Ret _ _ _ _ _ (get_node_run fs1 nd (with_refcount c n) (lookup_insert_eq _ _ _))).
      cbn [with_refcount nd_refcount]. rewrite Hc0. change (0 =? 0) with true. cbv iota. unfold free_node.
      erewrite bind_Ret by (apply zoom_Ret; exact Hrun1). unfold modify. cbn. by rewrite delete_insert_eq. }
    rewrite (bind_Ret _ _ _ _ _ (in_fs_run _ (set_fs fs1 s) _ _ Hrel)).
    destruct (free_file_run (set_fs (set_nodes (delete nd (fs_nodes (sy_fs s))) (set_fs_heap h1 (sy_fs s))) (set_fs fs1 s)) f
      (λ q, q ∈ X ∪ dom (sy_files s) ∪ dom (fs_nodes (sy_fs s)) ∧ q ≠ nd)) as (h & Hrun & Hrep2); [exact Hrep1|set_solver|].
    exists h. split; [exact Hrun|]. eapply oh_rep_ext; [exact Hrep2|]. intros q. rewrite !dom_delete_L. set_solver.
  - assert ((if c =? 0 then match nd_ops n with None => fault | Some o =>
        match ops_release o with Some rel => in_fs (rel nd) | None => ret tt end end else ret tt) (set_fs fs1 s) = Ret (tt, set_fs fs1 s)) as Hif.
    { destruct (Z.eqb_spec c 0) as [E0|]; [|done]. destruct Hcl as [Ho|[?|[[o Ho] Hdev]]]; [tauto|done|].
      rewrite Ho. destruct (Hdev o Ho). by destruct o. }
    rewrite (bind_Ret _ _ _ _ _ Hif).
    destruct (free_file_run (set_fs fs1 s) f (λ q, q ∈ X ∪ dom (sy_files s) ∪ dom (fs_nodes (sy_fs s)))) as (h & Hrun & Hrep2); [exact Hrep|set_solver|].
    exists h. split; [exact Hrun|]. eapply oh_rep_ext; [exact Hrep2|]. intros q. rewrite dom_delete_L, dom_insert_L. set_solver.
Qed.

Lemma with_fds_id fds proc : fds = p_fds proc → with_fds fds proc = proc.
Proof. intros ->. by destruct proc. Qed.

(** Closing the descriptor of a file. *)
Lemma sys_close_run s X hs p proc fd f fl n :
  running s p proc → fs_ok (sy_fs s) (X ∪ dom (sy_files s)) hs → X ## dom (sy_files s) →
  p_fds proc !! fd = Some f → (fd < 64)%nat → f ≠ 0 → sy_files s !! f = Some fl →
  fs_nodes (sy_fs s) !! f_node fl = Some n → closable n →
  ∃ h, sys_close (Z.of_nat fd) s = Ret (0,
         set_procs (<[p := with_fds (<[fd := 0]> (p_fds proc)) proc]> (sy_procs s)) (set_files (delete f (sy_files s))
         (set_fs (set_nodes (closed_nodes (fs_nodes (sy_fs s)) (f_node fl) n) (set_fs_heap h (sy_fs s))) s))) ∧
    oh_rep h (λ q, q ∈ X ∪ dom (delete f (sy_files s)) ∪ dom (closed_nodes (fs_nodes (sy_fs s)) (f_node fl) n)).
Proof.
  intros Hr Hok Hdis Hfd Hlt Hf0 Hf Hn Hcl.
  destruct (close_file_run s X f fl n (fo_heap _ _ _ Hok) (fo_disj _ _ _ Hok) Hdis Hf Hn Hcl) as (h & Hrun & Hrep).
  exists h. split; [|done]. unfold sys_close. rewrite (bind_Ret _ _ _ _ _ (fd_file_run s p proc (Z.of_nat fd) Hr)).
  unfold fd_entry. rewrite decide_True by lia. rewrite Nat2Z.id, Hfd. cbn [mbind option_bind]. destruct (Z.eqb_spec f 0); [done|].
  rewrite (bind_Ret _ _ _ _ _ Hrun). set (s1 := set_files _ _).
  assert (running s1 p proc) as Hr1 by (destruct Hr; by split).
  rewrite (bind_Ret _ _ _ _ _ (curr_process_run s1 p proc Hr1)).
  rewrite (bind_Ret _ _ _ _ _ (get_proc_run s1 p proc (ru_proc _ _ _ Hr1))). done.
Qed.

(** C21. Opening a file of the archive, or the root of a drive, and closing it again
    succeeds and restores everything: the same nodes with the same reference
    counts, the same files, the same descriptors. *)
Theorem open_close_roundtrip (s : sys_state H) (X : gset Z) (hs : list header) (p : Z) (proc : process)
    (path : list Z) (fd : nat) :
  running s p proc → files_ok s X hs proc → (∀ x, x ∈ path → 0 < x) → parse_path path ≠ Fault →
  free_fd proc = Some fd →
  match target (sy_fs s) hs path with
  | (_, WNode n) => nd_ops n = Some tarfs_ops ∧ nd_refcount n = 1
  | (root, WRoot) => ∃ n, fs_nodes (sy_fs s) !! root = Some n ∧ 1 ≤ nd_refcount n < W32 - 1
  | _ => False
  end →
  wp ((r <- sys_open path ;; sys_close r) s) (λ r s', r = 0 ∧ fs_nodes (sy_fs s') = fs_nodes (sy_fs s) ∧
    sy_files s' = sy_files s ∧ sy_procs s' = sy_procs s).
Proof.
  intros Hr Hok Hpos Hpf Hfd Ht. apply wp_bind. eapply wp_mono; [by eapply sys_open_wp|]. intros r s1 Ho.
  destruct (free_fd_lookup _ _ Hfd (ru_fds _ _ _ Hr)) as [Hz Hrange].
  assert (∃ f nd fs1 h n, r = Z.of_nat fd ∧ f ≠ 0 ∧ sy_files s !! f = None ∧
    s1 = set_procs (<[p := with_fds (<[fd := f]> (p_fds proc)) proc]> (sy_procs s))
               (set_files (<[f := mkFile nd 0 VFS_READ]> (sy_files s)) (set_fs (set_fs_heap h fs1) s)) ∧
    fs_ok (sy_fs s1) (X ∪ dom (sy_files s1)) hs ∧ X ## dom (sy_files s1) ∧
    fs_nodes fs1 !! nd = Some n ∧ closable n ∧ closed_nodes (fs_nodes fs1) nd n = fs_nodes (sy_fs s)) as
    (f & nd & fs1 & h & n & -> & Hf0 & Hfn & Es1 & Hok1 & Hd1 & Hn & Hcl & Ecl).
  { destruct (target (sy_fs s) hs path) as [root [| |n|n]]; try done; cbn [snd] in Ho;
      destruct Ho as (-> & f & nd & fs1 & h & Hf0 & Hfn & [_ Hres] & Es & Hok1 & Hd1); exists f, nd, fs1, h; cbn [snd fst] in Hres.
    - destruct Ht as (n & Hn & Hc). destruct Hres as (-> & n' & Hn' & ->). rewrite Hn in Hn'. injection Hn' as <-.
      assert (u32 (u32 (nd_refcount n + 1) - 1) = nd_refcount n) as Eu by (rewrite (u32_small (nd_refcount n + 1)), u32_small; lia).
      exists (with_refcount (u32 (nd_refcount n + 1)) n). split_and!; try done.
      + cbn. apply lookup_insert_eq.
      + right. left. cbn [with_refcount nd_refcount]. rewrite Eu. lia.
      + unfold closed_nodes. cbn [with_refcount nd_refcount nd_ops set_nodes fs_nodes]. rewrite Eu.
        rewrite decide_False by lia. rewrite insert_insert_eq. apply insert_id. rewrite Hn. by destruct n.
    - destruct Ht as [Hop Hc]. destruct Hres as (Hnd0 & Hnf & Efs).
      assert (fs_nodes fs1 = <[nd := n]> (fs_nodes (sy_fs s))) as En by (by rewrite Efs).
      exists n. rewrite En. split_and!; try done.
      + apply lookup_insert_eq.
      + by left.
      + unfold closed_nodes. rewrite Hc, Hop. change (u32 (1 - 1)) with 0. rewrite decide_True by done.
        by apply delete_insert_id. }
  assert (running s1 p (with_fds (<[fd := f]> (p_fds proc)) proc)) as Hr1.
  { destruct Hr as [Q1 Q2 Q3]. rewrite Es1. split; [done|apply lookup_insert_eq|by cbn; rewrite length_insert]. }
  destruct (sys_close_run s1 X hs p _ fd f (mkFile nd 0 VFS_READ) n Hr1 Hok1 Hd1) as (h2 & Hrun & _).
  - cbn. apply list_lookup_insert_eq. rewrite (ru_fds _ _ _ Hr). lia.
  - lia.
  - done.
  - rewrite Es1. apply lookup_insert_eq.
  - by rewrite Es1.
  - done.
  - rewrite Hrun. cbn [wp]. split; [done|]. split_and!; rewrite Es1; cbn.
    + done.
    + by apply delete_insert_id.
    + rewrite insert_insert_eq. rewrite list_insert_insert_eq. change (with_fds _ (with_fds _ proc)) with (with_fds (<[fd := 0]> (p_fds proc)) proc).
      rewrite with_fds_id by (by apply list_insert_id). apply insert_id. apply (ru_proc _ _ _ Hr).
Qed.

(** ** Reading and seeking *)

(** The descriptor [fd] is open on the file [f] with the struct [fl], whose node is [n]. *)
Record opened s (p : Z) (proc : process) (fd f : Z) (fl : file) (n : fsnode) : Prop := {
  op_run : running s p proc;
  op_fd : fd_entry proc fd = Some f;
  op_file : sy_files s !! f = Some fl;
  op_node : fs_nodes (sy_fs s) !! f_node fl = Some n;
}.

(** The state after a read of [k] bytes that left the memory [m]. *)
Definition after_read (f : Z) (fl : file) (k : Z) (m : mem) s : sys_state H :=
  set_files (<[f := mkFile (f_node fl) (f_offset fl + k) (f_flags fl)]> (sy_files s))
    (set_fs (set_fs_mem m (sy_fs s)) s).

Lemma sys_read_tar_run s p proc fd f fl n buf len :
  opened s p proc fd f fl n → nd_ops n = Some tarfs_ops → 0 ≤ nd_size n < 2 ^ 31 → 0 ≤ f_offset fl → 0 ≤ len →
  f_offset fl + len < W64 → buf + len ≤ nd_data n ∨ nd_data n + 512 + nd_size n ≤ buf →
  let k := Z.max 0 (Z.min len (nd_size n - f_offset fl)) in
  ∃ m, sys_read fd buf len s = Ret (Some k, after_read f fl k m s) ∧
    has_part n (f_offset fl) (fs_mem (sy_fs s)) m buf k.
Proof.
  intros [Hr Hfd Hf Hn] Ho Hsz Hof Hl Hw Hdisj k. unfold sys_read.
  rewrite (bind_Ret _ _ _ _ _ (fd_file_run s p proc fd Hr)), Hfd.
  rewrite (bind_Ret _ _ _ _ _ (get_file_run s f fl Hf)), (bind_Ret _ _ _ _ _ (in_fs_node s _ n Hn)), Ho.
  cbn [mbind option_bind ops_read].
  destruct (tarfs_read_run (sy_fs s) (f_node fl) buf len (f_offset fl) n Hn Hsz Hof Hl Hw Hdisj) as (m & Hrun & Hm). fold k in Hrun, Hm.
  exists m. split; [|done]. rewrite (bind_Ret _ _ _ (Some k) (set_fs (set_fs_mem m (sy_fs s)) s)).
  2:{ by rewrite (bind_Ret _ _ _ _ _ (in_fs_run _ s _ _ Hrun)). }
  unfold advance, after_read. destruct (Z.ltb_spec 0 k).
  - rewrite (bind_Ret _ _ _ tt (after_read f fl k m s)); [done|].
    rewrite (bind_Ret _ _ _ _ _ (get_file_run (set_fs (set_fs_mem m (sy_fs s)) s) f fl Hf)).
    unfold put_file, modify, after_read. cbn. rewrite u64_small; [done|]. unfold k in *. lia.
  - assert (k = 0) as -> by (unfold k in *; lia). rewrite bind_ret. unfold ret. rewrite Z.add_0_r.
    replace (<[f := mkFile (f_node fl) (f_offset fl) (f_flags fl)]> (sy_files s)) with (sy_files s); [done|].
    symmetry. apply insert_id. rewrite Hf. by destruct fl.
Qed.

(** C20. sys_read on a file of the archive: the bytes from the file's offset on, as
    many as asked for and there, arrive in the buffer; the offset advances by their
    number, which is the result; nothing else changes. *)
Theorem sys_read_correct (s : sys_state H) (p : Z) (proc : process) (fd f : Z) (fl : file) (n : fsnode) (buf len : Z) :
  opened s p proc fd f fl n → nd_ops n = Some tarfs_ops → 0 ≤ nd_size n < 2 ^ 31 → 0 ≤ f_offset fl → 0 ≤ len →
  f_offset fl + len < W64 → buf + len ≤ nd_data n ∨ nd_data n + 512 + nd_size n ≤ buf →
  let k := Z.max 0 (Z.min len (nd_size n - f_offset fl)) in
  ∃ m, sys_read fd buf len s = Ret (Some k, after_read f fl k m s) ∧
    has_part n (f_offset fl) (fs_mem (sy_fs s)) m buf k.
Proof. apply sys_read_tar_run. Qed.

(** Reading in two pieces is reading at once: when the first piece is in the
    file, both leave the same offset and the same memory, and the counts add up. *)
Theorem sys_read_pieces (s : sys_state H) (p : Z) (proc : process) (fd f : Z) (fl : file) (n : fsnode) (buf a b : Z) :
  opened s p proc fd f fl n → nd_ops n = Some tarfs_ops → 0 ≤ nd_size n < 2 ^ 31 → 0 ≤ f_offset fl → 0 ≤ a → 0 ≤ b →
  f_offset fl + a ≤ nd_size n → f_offset fl + a + b < W64 →
  buf + a + b ≤ nd_data n ∨ nd_data n + 512 + nd_size n ≤ buf →
  ∃ k m1 m2, sys_read fd buf (a + b) s = Ret (Some (a + k), after_read f fl (a + k) m1 s) ∧
    (sys_read fd buf a ;;; sys_read fd (buf + a) b) s = Ret (Some k, after_read f fl (a + k) m2 s) ∧ mem_eq m1 m2.
Proof.
  intros Hop Ho Hsz Hof Ha Hb Hin Hw Hdisj. exists (Z.max 0 (Z.min b (nd_size n - (f_offset fl + a)))).
  destruct (sys_read_tar_run s p proc fd f fl n buf (a + b) Hop Ho Hsz Hof ltac:(lia) ltac:(lia) ltac:(lia)) as (m1 & Hrun1 & Hm1).
  destruct (sys_read_tar_run s p proc fd f fl n buf a Hop Ho Hsz Hof Ha ltac:(lia) ltac:(lia)) as (m2 & Hrun2 & Hm2).
  replace (Z.max 0 (Z.min a (nd_size n - f_offset fl))) with a in * by lia.
  set (k := Z.max 0 (Z.min b (nd_size n - (f_offset fl + a)))).
  replace (Z.max 0 (Z.min (a + b) (nd_size n - f_offset fl))) with (a + k) in * by lia.
  set (fl2 := mkFile (f_node fl) (f_offset fl + a) (f_flags fl)).
  assert (opened (after_read f fl a m2 s) p proc fd f fl2 n) as Hop2.
  { destruct Hop as [[Q1 Q2 Q3] Hfd Hf Hn]. split; [by split|done|apply lookup_insert_eq|done]. }
  destruct (sys_read_tar_run _ p proc fd f fl2 n (buf + a) b Hop2 Ho Hsz ltac:(cbn; lia) Hb ltac:(cbn; lia) ltac:(lia)) as (m3 & Hrun3 & Hm3).
  cbn [fl2 f_offset] in Hrun3, Hm3. fold k in Hrun3, Hm3. exists m1, m3. split; [exact Hrun1|]. split.
  - rewrite (bind_Ret _ _ _ _ _ Hrun2), Hrun3. unfold after_read. cbn. rewrite insert_insert_eq, Z.add_assoc. done.
  - intros x. rewrite Hm1, Hm3. unfold after_read. cbn [set_files set_fs sy_fs set_fs_mem fs_mem].
    assert (0 ≤ k) by lia. assert (f_offset fl + a + k ≤ nd_size n ∨ k = 0) by lia.
    rewrite !Hm2. repeat case_decide; try lia; try done; f_equal; lia.
Qed.

(** sys_seek: from the start, the current offset or the end of the file; a
    negative target, like any other value of whence, is refused with the offset
    unchanged. *)
Theorem sys_seek_correct (s : sys_state H) (p : Z) (proc : process) (fd f : Z) (fl : file) (n : fsnode) (offset whence : Z) :
  opened s p proc fd f fl n → 0 ≤ f_offset fl < 2 ^ 62 → 0 ≤ nd_size n < 2 ^ 62 → - 2 ^ 62 ≤ offset < 2 ^ 62 →
  let base := if whence =? 0 then Some 0 else if whence =? 1 then Some (f_offset fl)
              else if whence =? 2 then Some (nd_size n) else None in
  sys_seek fd offset whence s =
    match base with
    | Some b => if b + offset <? 0 then Ret (-1, s)
                else Ret (b + offset, set_files (<[f := mkFile (f_node fl) (b + offset) (f_flags fl)]> (sy_files s)) s)
    | None => Ret (-1, s)
    end.
Proof.
  intros [Hr Hfd Hf Hn] Ho Hsz Hoff base. change (2 ^ 62) with 4611686018427387904 in *. unfold sys_seek.
  rewrite (bind_Ret _ _ _ _ _ (fd_file_run s p proc fd Hr)), Hfd, (bind_Ret _ _ _ _ _ (get_file_run s f fl Hf)).
  assert ((if whence =? 0 then ret (Some offset) else if whence =? 1 then ret (Some (s64 (f_offset fl) + offset))
    else if whence =? 2 then nd <- in_fs (get_node (f_node fl)) ;; ret (Some (s64 (nd_size nd) + offset)) else ret None) s
    = Ret ((λ b, b + offset) <$> base, s)) as Hnew.
  { unfold base. destruct (whence =? 0); [done|]. destruct (whence =? 1); [by assert (s64 (f_offset fl) = f_offset fl) as -> by word|].
    destruct (whence =? 2); [|done]. rewrite (bind_Ret _ _ _ _ _ (in_fs_node s _ n Hn)).
    by assert (s64 (nd_size n) = nd_size n) as -> by word. }
  rewrite (bind_Ret _ _ _ _ _ Hnew).
  assert (∀ b, base = Some b → 0 ≤ b < 4611686018427387904) as Hb.
  { unfold base. intros b. destruct (whence =? 0); [intros [= <-]; lia|]. destruct (whence =? 1); [by intros [= <-]|].
    destruct (whence =? 2); [by intros [= <-]|done]. }
  destruct base as [b|]; [|done]. specialize (Hb b eq_refl). cbn [fmap option_fmap option_map].
  unfold fits_int64. replace (_ && _) with true by lia. cbn [negb]. destruct (Z.ltb_spec (b + offset) 0); done.
Qed.

(** Writing to a file of the archive or to standard input, and reading from
    standard output or the directory of devices, call through a NULL pointer: the
    calls do not check that the table has the function. *)
Theorem missing_function_faults (s : sys_state H) (p : Z) (proc : process) (fd f : Z) (fl : file) (n : fsnode) (buf len : Z) :
  opened s p proc fd f fl n →
  (nd_ops n = Some tarfs_ops ∨ nd_ops n = Some stdin_ops → sys_write fd buf len s = Fault) ∧
  (nd_ops n = Some stdout_ops ∨ nd_ops n = Some devfs_root_ops → sys_read fd buf len s = Fault).
Proof.
  intros [Hr Hfd Hf Hn]. split; intros Ho; unfold sys_write, sys_read;
    rewrite (bind_Ret _ _ _ _ _ (fd_file_run s p proc fd Hr)), Hfd, (bind_Ret _ _ _ _ _ (get_file_run s f fl Hf)),
      (bind_Ret _ _ _ _ _ (in_fs_node s _ n Hn)); by destruct Ho as [-> | ->].
Qed.

(** Closing a device leaves its node on the heap with no reference to it: the
    tables of the devices have no release function. *)
Theorem device_close_leaks (s : sys_state H) (X : gset Z) (hs : list header) (p : Z) (proc : process)
    (fd : nat) (f : Z) (fl : file) (n : fsnode) (o : ops_table) :
  opened s p proc (Z.of_nat fd) f fl n → fs_ok (sy_fs s) (X ∪ dom (sy_files s)) hs → X ## dom (sy_files s) →
  nd_ops n = Some o → device_table (Some o) → nd_refcount n = 1 →
  ∃ s', sys_close (Z.of_nat fd) s = Ret (0, s') ∧
    fs_nodes (sy_fs s') = <[f_node fl := with_refcount 0 n]> (fs_nodes (sy_fs s)) ∧
    sy_files s' = delete f (sy_files s).
Proof.
  intros [Hr Hfd Hf Hn] Hok Hd Ho Hdev Hc. unfold fd_entry in Hfd. rewrite Nat2Z.id in Hfd. case_decide as Hlt; [|done].
  destruct (p_fds proc !! fd) as [f'|] eqn:Ef; [|done]. cbn in Hfd. destruct (Z.eqb_spec f' 0); [done|]. injection Hfd as ->.
  destruct (sys_close_run s X hs p proc fd f fl n Hr Hok Hd Ef ltac:(lia)) as (h & Hrun & _); try done.
  { right. right. rewrite Ho. split; [by eexists|done]. }
  eexists. split; [exact Hrun|]. split; [|done]. cbn. unfold closed_nodes. rewrite Hc, Ho.
  change (u32 (1 - 1)) with 0. rewrite decide_False; [done|]. intros [_ E]. by destruct (Hdev o eq_refl) as [? _]; congruence.
Qed.

(** ** Directories *)

Lemma listdir_calls_run s rd dir (L : list dirent) :
  (∀ i, 0 ≤ i < W32 → rd dir i (sy_fs s) = Ret (L !! Z.to_nat i, sy_fs s)) →
  ∀ n count, 0 ≤ count → count + Z.of_nat n < W32 →
    listdir_calls n rd dir count s = Ret (take n (drop (Z.to_nat count) L), s).
Proof.
  intros Hrd. induction n as [|n IH]; intros count Hc Hn; [done|]. cbn [listdir_calls].
  rewrite u32_small by lia. rewrite (bind_Ret _ _ _ _ _ (in_fs_run _ s _ _ (Hrd count ltac:(lia)))), set_fs_id.
  destruct (L !! Z.to_nat count) as [e|] eqn:E.
  - rewrite (bind_Ret _ _ _ _ _ (IH (count + 1) ltac:(lia) ltac:(lia))). rewrite (drop_S _ _ _ E). cbn [take].
    by replace (Z.to_nat (count + 1)) with (S (Z.to_nat count)) by lia.
  - apply lookup_ge_None in E. by rewrite drop_ge by lia.
Qed.

(** Dropping one of several references. *)
Lemma drop_reference_run (t : fs_state H) p n :
  fs_nodes t !! p = Some n → 1 < nd_refcount n →
  drop_reference p t = Ret (tt, set_nodes (<[p := with_refcount (nd_refcount n - 1) n]> (fs_nodes t)) t).
Proof.
  intros Hn Hc. unfold drop_reference. rewrite (bind_Ret _ _ _ _ _ (get_node_run t p n Hn)).
  replace (0 <? nd_refcount n) with true by lia. unfold put_node. rewrite bind_modify.
  rewrite (bind_Ret _ _ _ _ _ (get_node_run (set_nodes (<[p := with_refcount (nd_refcount n - 1) n]> (fs_nodes t)) t) p _ (lookup_insert_eq _ _ _))).
  cbn [with_refcount nd_refcount]. by replace (nd_refcount n - 1 =? 0) with false by lia.
Qed.

(** Releasing what vfs_resolve returned for a node of the archive or the root of
    the archive. *)
Lemma release_resolved (t t1 : fs_state H) X hs root w p :
  fs_ok t X hs → resolved t X hs (root, w) p t1 →
  match w with
  | WNode n => nd_ops n = Some tarfs_ops ∧ nd_refcount n = 1
  | WRoot => ∃ n, fs_nodes t !! root = Some n ∧ nd_ops n = Some tarfs_ops ∧ 1 ≤ nd_refcount n < W32 - 1
  | _ => False
  end →
  ∃ t2, release p t1 = Ret (tt, t2) ∧ fs_nodes t2 = fs_nodes t.
Proof.
  intros Hok [Hok1 Hres] Hw. cbn [fst snd] in Hres. unfold release. destruct w as [| |n|n]; try done.
  - destruct Hw as (n & Hn & Ho & Hc). destruct Hres as (-> & n' & Hn' & ->). rewrite Hn in Hn'. injection Hn' as <-.
    rewrite (u32_small (nd_refcount n + 1)) by lia. set (n1 := with_refcount (nd_refcount n + 1) n).
    rewrite (bind_Ret _ _ _ _ _ (get_node_run (set_nodes (<[root := n1]> (fs_nodes t)) t) root n1 (lookup_insert_eq _ _ _))).
    change (nd_ops n1) with (nd_ops n). rewrite Ho. cbn [mbind option_bind ops_release]. unfold tarfs_release.
    rewrite (drop_reference_run (set_nodes (<[root := n1]> (fs_nodes t)) t) root n1 (lookup_insert_eq _ _ _)) by (cbn; lia).
    eexists. split; [done|]. cbn. rewrite insert_insert_eq. apply insert_id. rewrite Hn. do 2 f_equal.
    destruct n. unfold with_refcount. cbn. f_equal. lia.
  - destruct Hw as (Ho & Hc). destruct Hres as (Hp0 & Hf & Et).
    assert (fs_nodes t1 = <[p := n]> (fs_nodes t)) as En by (by rewrite Et).
    assert (fs_nodes t1 !! p = Some n) as Hn by (rewrite En; apply lookup_insert_eq).
    rewrite (bind_Ret _ _ _ _ _ (get_node_run t1 p n Hn)), Ho.
    destruct (drop_last_run t1 X hs p n Hok1 Hn Hc) as (h & Hrun & _). eexists. split; [exact Hrun|].
    cbn. rewrite En. by apply delete_insert_id.
Qed.

(** sys_listdir on a directory of the archive: the first [max] entries of the
    listing, in archive order, and the file system's nodes and reference counts as
    before. *)
Theorem sys_listdir_correct (s : sys_state H) (X : gset Z) (hs : list header) (path : list Z) (max : Z) (n : fsnode) :
  fs_ok (sy_fs s) X hs → (∀ x, x ∈ path → 0 < x) → parse_path path ≠ Fault → 0 ≤ max < 2 ^ 31 →
  nd_type n = NODE_DIR → nd_ops n = Some tarfs_ops → short_name (sy_fs s) n →
  match target (sy_fs s) hs path with
  | (_, WNode n') => n' = n ∧ nd_refcount n = 1
  | (root, WRoot) => fs_nodes (sy_fs s) !! root = Some n ∧ 1 ≤ nd_refcount n < W32 - 1
  | _ => False
  end →
  wp (sys_listdir path max s) (λ r s',
    r = Some (take (Z.to_nat max) (omap (child_dirent (dir_path (sy_fs s) n)) hs)) ∧
    fs_nodes (sy_fs s') = fs_nodes (sy_fs s) ∧ sy_files s' = sy_files s ∧ sy_procs s' = sy_procs s).
Proof.
  intros Hok Hpos Hpf Hmax Ht Ho Hsn Htar. change (2 ^ 31) with 2147483648 in *. unfold sys_listdir. apply wp_bind, wp_zoom.
  eapply wp_mono; [by apply (vfs_resolve_wp (sy_fs s) X hs path Hok)|]. intros p t1 Hres.
  destruct (target (sy_fs s) hs path) as [root w].
  assert (p ≠ 0 ∧ fs_mem t1 = fs_mem (sy_fs s) ∧ ∃ n1, fs_nodes t1 !! p = Some n1 ∧ nd_type n1 = nd_type n ∧
    nd_ops n1 = nd_ops n ∧ nd_data n1 = nd_data n) as (Hp0 & Em & n1 & Hn1 & Et1 & Eo1 & Ed1).
  { destruct Hres as [Hok1 Hw]. destruct w as [| |n'|n']; try done; cbn [fst snd] in Hw.
    - destruct Htar as [Hn _]. destruct Hw as (-> & n' & Hn' & ->). rewrite Hn in Hn'. injection Hn' as <-. split_and!; try done.
      + intros ->. by rewrite (fo_null _ _ _ Hok) in Hn.
      + eexists. split; [apply lookup_insert_eq|done].
    - destruct Htar as [-> _]. destruct Hw as (Hp0 & _ & ->). split_and!; try done. exists n. split; [apply lookup_insert_eq|done]. }
  destruct (Z.eqb_spec p 0); [done|]. rewrite (bind_Ret _ _ _ _ _ (in_fs_node (set_fs t1 s) p n1 Hn1)).
  rewrite bool_decide_true by congruence. cbn [negb]. rewrite Eo1, Ho. cbn [mbind option_bind ops_readdir].
  set (L := omap (child_dirent (dir_path (sy_fs s) n)) hs).
  assert ((if 0 <? max then listdir_calls (Z.to_nat max) tarfs_readdir p 0 else ret []) (set_fs t1 s) =
    Ret (take (Z.to_nat max) L, set_fs t1 s)) as Hls.
  { destruct (Z.ltb_spec 0 max) as [|]; [|by replace max with 0 by lia]. apply (listdir_calls_run (set_fs t1 s) _ p L); [|lia|lia].
    intros i Hi. cbn [set_fs sy_fs]. rewrite (tarfs_readdir_run t1 X hs p i n1 (proj1 Hres) Hn1); [|unfold short_name in *; by rewrite Em, Ed1|done].
    unfold L, dir_path. by rewrite Em, Ed1. }
  rewrite (bind_Ret _ _ _ _ _ Hls).
  destruct (release_resolved (sy_fs s) t1 X hs root w p Hok Hres) as (t2 & Hrel & En2).
  { destruct w as [| |n'|n']; try done; [destruct Htar as [? ?]; eauto|by destruct Htar as [-> ?]]. }
  rewrite (bind_Ret _ _ _ _ _ (in_fs_run _ (set_fs t1 s) _ _ Hrel)). by split_and!.
Qed.

(** The directory a path leads to, in the archive. *)
Definition leads_to_dir (t : fs_state H) (tw : Z * walk_result) : Prop :=
  match tw with
  | (_, WNode n) => nd_type n = NODE_DIR
  | (root, WRoot) => nd_type <$> fs_nodes t !! root = Some NODE_DIR
  | _ => False
  end.

#[local] Instance leads_to_dir_dec t tw : Decision (leads_to_dir t tw).
Proof. destruct tw as [r []]; unfold leads_to_dir; apply _. Defined.

Lemma cstring_pos l : (∀ x, x ∈ l → 0 ≤ x) → ∀ x, x ∈ cstring l → 0 < x.
Proof.
  intros Hl x Hx. unfold cstring in Hx.
  assert (x ∈ l ∧ x ≠ 0) as [Hin Hne]; [|specialize (Hl x Hin); lia].
  destruct (first_index 0 l) as [i|] eqn:E.
  - apply first_index_Some in E as [Hi Hmin]. apply elem_of_take in Hx as (j & Hj & Hlt).
    split; [by eapply list_elem_of_lookup_2|]. intros ->. by apply (Hmin j Hlt).
  - apply first_index_None in E. split; [done|]. by intros ->.
Qed.

(** sys_set_cwd, for a path into the archive: the working directory becomes the
    path exactly when the path leads to a directory, and is unchanged, with result
    -1, otherwise; no node is left behind. *)
Theorem sys_set_cwd_correct (s : sys_state H) (X : gset Z) (hs : list header) (p : Z) (proc : process)
    (copied : Z → option (list Z)) (size : Z) (tmp : list Z) :
  running s p proc → fs_ok (sy_fs s) X hs → 0 < size →
  copied (Z.min size 255) = Some tmp → (∀ x, x ∈ tmp → 0 ≤ x) → parse_path (cstring tmp) ≠ Fault →
  match target (sy_fs s) hs (cstring tmp) with
  | (_, WNode n) => nd_ops n = Some tarfs_ops ∧ nd_refcount n = 1
  | (root, WRoot) => ∃ n, fs_nodes (sy_fs s) !! root = Some n ∧ nd_ops n = Some tarfs_ops ∧ 1 ≤ nd_refcount n < W32 - 1
  | (_, WNull) => True
  | _ => False
  end →
  wp (sys_set_cwd copied size s) (λ r s', fs_nodes (sy_fs s') = fs_nodes (sy_fs s) ∧
    if decide (leads_to_dir (sy_fs s) (target (sy_fs s) hs (cstring tmp)))
    then r = Z.min size 255 ∧ sy_procs s' = <[p := with_cwd (cstring tmp) proc]> (sy_procs s)
    else r = -1 ∧ sy_procs s' = sy_procs s).
Proof.
  intros Hr Hok Hs Hcp Hpos Hpf Htar. unfold sys_set_cwd.
  rewrite (bind_Ret _ _ _ _ _ (curr_process_run _ _ _ Hr)), (bind_Ret _ _ _ _ _ (get_proc_run _ _ _ (ru_proc _ _ _ Hr))).
  destruct (Z.eqb_spec size 0); [lia|]. cbv zeta.
  replace (if size <? 255 then size else 255) with (Z.min size 255) by (destruct (Z.ltb_spec size 255); lia). rewrite Hcp.
  apply wp_bind, wp_zoom. eapply wp_mono; [apply (vfs_resolve_wp (sy_fs s) X hs (cstring tmp) Hok); [by apply cstring_pos|done]|].
  intros nd t1 Hres. destruct (target (sy_fs s) hs (cstring tmp)) as [root w] eqn:Et.
  assert (w = WNull ∨ w ≠ WNull) as [->|Hw] by (destruct w; auto; by right).
  { destruct Hres as [_ (-> & E)]. cbn [fst snd] in *. change (0 =? 0) with true. cbv iota. cbn [wp ret sy_fs set_fs].
    rewrite decide_False by (intros []). by rewrite E. }
  destruct (release_resolved (sy_fs s) t1 X hs root w nd Hok Hres) as (t2 & Hrel & En2); [by destruct w|].
  assert (nd ≠ 0 ∧ ∃ n1, fs_nodes t1 !! nd = Some n1 ∧ (nd_type n1 = NODE_DIR ↔ leads_to_dir (sy_fs s) (root, w))) as (Hnd0 & n1 & Hn1 & Hdir).
  { destruct Hres as [Hok1 Hv]. destruct w as [| |n'|n']; try done; cbn [fst snd] in Hv.
    - destruct Htar as (n' & Hn & _). destruct Hv as (-> & n2 & Hn2 & ->). rewrite Hn in Hn2. injection Hn2 as <-. split.
      + intros ->. by rewrite (fo_null _ _ _ Hok) in Hn.
      + eexists. split; [apply lookup_insert_eq|]. cbn. rewrite Hn. cbn. split; [by intros ->|by intros [=]].
    - destruct Hv as (Hp0 & _ & ->). split; [done|]. exists n'. split; [apply lookup_insert_eq|done]. }
  destruct (Z.eqb_spec nd 0); [done|]. rewrite (bind_Ret _ _ _ _ _ (in_fs_node (set_fs t1 s) nd n1 Hn1)).
  destruct (decide (leads_to_dir (sy_fs s) (root, w))) as [Hd|Hd].
  - rewrite bool_decide_true by (by apply Hdir). cbn [negb]. rewrite (bind_Ret _ _ _ _ _ (in_fs_run _ (set_fs t1 s) _ _ Hrel)).
    rewrite (bind_Ret _ _ _ _ _ (get_proc_run (set_fs t2 (set_fs t1 s)) p proc (ru_proc _ _ _ Hr))). cbn.
    assert (s32 (Z.min size 255) = Z.min size 255) as -> by word. done.
  - rewrite bool_decide_false by (by rewrite Hdir). cbn [negb]. rewrite (bind_Ret _ _ _ _ _ (in_fs_run _ (set_fs t1 s) _ _ Hrel)). done.
Qed.

(** C39. Writing to the frame buffer device stays inside the frame buffer: at most the
    bytes from the offset behind the information block to the end of the screen are
    written, whatever offset and length the program asks for. *)
Theorem fb_write_in_bounds (s : sys_state H) (node buf len off : Z) :
  let f := con_fb (sy_con s) in
  0 ≤ len < W64 → 0 ≤ off < W64 → 0 ≤ fb_pitch f * fb_height f < 2 ^ 31 →
  fb_address f + fb_pitch f * fb_height f ≤ buf ∨ buf + len ≤ fb_address f →
  ∃ r s', fb_write node buf len off s = Ret (r, s') ∧
    r = (if off <? 32 then -1 else Z.max 0 (Z.min len (fb_pitch f * fb_height f - (off - 32)))) ∧
    ∀ a, load8 (fs_mem (sy_fs s')) a =
      if decide (0 ≤ a - (fb_address f + (off - 32)) < r) then load8 (fs_mem (sy_fs s)) (buf + (a - (fb_address f + (off - 32))))
      else load8 (fs_mem (sy_fs s)) a.
Proof.
  intros f Hl Ho Hsz Hdis. change (2 ^ 31) with 2147483648 in *. unfold fb_write. rewrite bind_gets. fold f. cbv zeta. unfold SIZEOF_FB_INFO.
  destruct (Z.ltb_spec off 32) as [Hlt|Hge].
  { exists (-1), s. split; [done|]. split; [done|]. intros a. by rewrite decide_False by lia. }
  rewrite (u64_small (fb_pitch f * fb_height f)) by lia. set (sz := fb_pitch f * fb_height f) in *.
  destruct (Z.leb_spec sz (off - 32)) as [Hpast|Hin].
  { exists 0, s. split; [done|]. split; [lia|]. intros a. by rewrite decide_False by lia. }
  set (k := Z.max 0 (Z.min len (sz - (off - 32)))).
  replace (if len <? sz - (off - 32) then len else sz - (off - 32)) with k by (unfold k; destruct (Z.ltb_spec len (sz - (off - 32))); lia).
  unfold upd_memory. rewrite bind_modify. eexists k, _. assert (s32 k = k) as -> by (unfold k in *; word).
  split; [done|]. split; [done|]. intros a. cbn. rewrite load8_memcpy by (unfold k; lia). unfold copy_spec.
  repeat case_decide; try done; lia.
Qed.

End FilesTheorems.

(** ** A concrete process on the file system of VfsThms.v *)

Definition demo_proc : process := mkProcess 1 (chars "sh") 0 4096 0 0 (replicate 64 0) (replicate 64 0) (chars "0:/") 0.
Definition demo_thread : thread := mkThread 0 0 0 0 THREAD_RUNNING 1 0 0 0 0 8192 0 0 4096.
Definition demo_sched : sched := mkSched {[4096 := demo_thread]} 4096 4096 4096 2 0 0.
Definition demo_screen : con_state :=
  mkCon ∅ (mkFb 0x200000 16 32 64 32 8 16 8 8 8 0) (mkFont 8 16 16 256 0x100000) 0 0xffffffff 0 0.
Definition demo_sys : sys_state (mm_state pmm_state) :=
  mkSys demo_fs ∅ demo_screen kbd_boot [] demo_sched {[8192 := demo_proc]}.

Lemma demo_sys_fs : sy_fs demo_sys = demo_fs.
Proof. unfold demo_sys. cbn [sy_fs]. reflexivity. Qed.

Lemma demo_running : running demo_sys 8192 demo_proc.
Proof. split; [by exists demo_thread|done|done]. Qed.

Lemma demo_files_ok : files_ok demo_sys ∅ demo_hs demo_proc.
Proof.
  split; cbn [demo_sys sy_fs sy_files].
  - rewrite dom_empty_L, union_empty_l_L. apply demo_fs_ok.
  - set_solver.
  - done.
  - intros i f [-> _]%lookup_replicate. done.
Qed.

Lemma demo_target : ∃ root, target demo_fs demo_hs (chars "0:/bin/ls") = (root, WNode demo_file).
Proof.
  destruct demo_fs_ok as (Hok & r0 & r1 & H0 & _ & Hd0 & _). exists r0. unfold target.
  change (parse_path (chars "0:/bin/ls")) with (Ret (Some (0, chars "/bin/ls"))). cbv iota beta.
  change (Z.to_nat 0) with 0%nat. rewrite Hd0. cbn [dr_root]. rewrite H0. vm_compute. reflexivity.
Qed.

Lemma demo_path_pos : ∀ x, x ∈ chars "0:/bin/ls" → 0 < x.
Proof. apply Forall_forall. repeat constructor. Qed.

Lemma bad_descriptor_error_witness : sys_close 5 demo_sys = Ret (-1, demo_sys) ∧ sys_seek (-1) 0 0 demo_sys = Ret (-1, demo_sys).
Proof.
  split.
  - apply (bad_descriptor_error demo_sys 8192 demo_proc 5 demo_running). reflexivity.
  - apply (bad_descriptor_error demo_sys 8192 demo_proc (-1) demo_running). reflexivity.
Defined.

Lemma open_close_roundtrip_witness :
  wp ((r <- sys_open (chars "0:/bin/ls") ;; sys_close r) demo_sys) (λ r s', r = 0 ∧
    fs_nodes (sy_fs s') = fs_nodes (sy_fs demo_sys) ∧ sy_files s' = ∅ ∧ sy_procs s' = {[8192 := demo_proc]}).
Proof.
  apply (open_close_roundtrip demo_sys ∅ demo_hs 8192 demo_proc (chars "0:/bin/ls") 2 demo_running demo_files_ok demo_path_pos).
  - vm_compute. discriminate.
  - reflexivity.
  - rewrite demo_sys_fs. destruct demo_target as [root ->]. split; reflexivity.
Defined.

(** The same process with "bin/ls" open as descriptor 2, at offset 2. *)
Definition demo_proc1 : process := with_fds (<[2%nat := 128]> (replicate 64 0)) demo_proc.
Definition demo_sys1 : sys_state (mm_state pmm_state) :=
  mkSys demo_fs1 {[128 := mkFile 64 2 1]} demo_screen kbd_boot [] demo_sched {[8192 := demo_proc1]}.

Lemma demo_opened : opened demo_sys1 8192 demo_proc1 2 128 (mkFile 64 2 1) demo_file.
Proof.
  split; [split; [by exists demo_thread|done|done]|done|done|]. cbn [demo_sys1 sy_fs f_node]. unfold demo_fs1. apply lookup_insert_eq.
Qed.

Lemma sys_read_correct_witness :
  ∃ m, sys_read 2 100000 10 demo_sys1 = Ret (Some 3, after_read 128 (mkFile 64 2 1) 3 m demo_sys1) ∧
    has_part demo_file 2 (fs_mem demo_fs1) m 100000 3.
Proof.
  apply (sys_read_correct demo_sys1 8192 demo_proc1 2 128 (mkFile 64 2 1) demo_file 100000 10 demo_opened);
    [reflexivity|split; [discriminate|reflexivity]|discriminate|lia|reflexivity|right; discriminate].
Defined.

Lemma sys_read_pieces_witness :
  ∃ k m1 m2, sys_read 2 100000 (1 + 10) demo_sys1 = Ret (Some (1 + k), after_read 128 (mkFile 64 2 1) (1 + k) m1 demo_sys1) ∧
    (sys_read 2 100000 1 ;;; sys_read 2 (100000 + 1) 10) demo_sys1 = Ret (Some k, after_read 128 (mkFile 64 2 1) (1 + k) m2 demo_sys1) ∧
    mem_eq m1 m2.
Proof.
  apply (sys_read_pieces demo_sys1 8192 demo_proc1 2 128 (mkFile 64 2 1) demo_file 100000 1 10 demo_opened);
    [reflexivity|split; [discriminate|reflexivity]|discriminate|lia|lia|discriminate|reflexivity|right; discriminate].
Defined.

Lemma sys_seek_correct_witness :
  sys_seek 2 (-1) 2 demo_sys1 = Ret (4, set_files (<[128 := mkFile 64 4 1]> (sy_files demo_sys1)) demo_sys1) ∧
  sys_seek 2 (-3) 1 demo_sys1 = Ret (-1, demo_sys1).
Proof.
  split.
  - rewrite (sys_seek_correct demo_sys1 8192 demo_proc1 2 128 (mkFile 64 2 1) demo_file (-1) 2 demo_opened)
      by (split; [discriminate|reflexivity]). reflexivity.
  - rewrite (sys_seek_correct demo_sys1 8192 demo_proc1 2 128 (mkFile 64 2 1) demo_file (-3) 1 demo_opened)
      by (split; [discriminate|reflexivity]). reflexivity.
Defined.

Lemma missing_function_faults_witness : sys_write 2 100000 10 demo_sys1 = Fault.
Proof.
  apply (missing_function_faults demo_sys1 8192 demo_proc1 2 128 (mkFile 64 2 1) demo_file 100000 10 demo_opened).
  left. reflexivity.
Defined.

Lemma sys_listdir_correct_witness :
  wp (sys_listdir (chars "0:/") 10 demo_sys) (λ r s',
    r = Some [mkDirent (chars "bin") NODE_DIR 0; mkDirent (chars "binary") NODE_FILE 0] ∧
    fs_nodes (sy_fs s') = fs_nodes demo_fs ∧ sy_files s' = ∅ ∧ sy_procs s' = {[8192 := demo_proc]}).
Proof.
  destruct demo_fs_ok as (Hok & r0 & r1 & H0 & _ & Hd0 & _).
  assert (target demo_fs demo_hs (chars "0:/") = (r0, WRoot)) as Et.
  { unfold target. change (parse_path (chars "0:/")) with (Ret (Some (0, chars "/"))). cbv iota beta.
    change (Z.to_nat 0) with 0%nat. rewrite Hd0. cbn [dr_root dr_present]. rewrite H0. reflexivity. }
  pose proof (sys_listdir_correct demo_sys ∅ demo_hs (chars "0:/") 10 (mkNode NODE_DIR (Some tarfs_ops) 0 0 1)) as Hw.
  rewrite demo_sys_fs, Et in Hw. specialize (Hw Hok). eapply wp_mono; [apply Hw|].
  - apply Forall_forall. repeat constructor.
  - vm_compute. discriminate.
  - split; [discriminate|reflexivity].
  - reflexivity.
  - reflexivity.
  - left. reflexivity.
  - split; [exact H0|]. split; [discriminate|reflexivity].
  - intros r s' (H1 & H2 & H3 & H4). split; [rewrite H1; vm_compute; reflexivity|]. split; [exact H2|]. split; [exact H3|exact H4].
Defined.

Lemma sys_set_cwd_correct_witness :
  wp (sys_set_cwd (λ _, Some (chars "0:/")) 3 demo_sys) (λ r s', fs_nodes (sy_fs s') = fs_nodes demo_fs ∧
    r = 3 ∧ sy_procs s' = <[8192 := with_cwd (chars "0:/") demo_proc]> {[8192 := demo_proc]}).
Proof.
  destruct demo_fs_ok as (Hok & r0 & r1 & H0 & _ & Hd0 & _).
  assert (target demo_fs demo_hs (chars "0:/") = (r0, WRoot)) as Et.
  { unfold target. change (parse_path (chars "0:/")) with (Ret (Some (0, chars "/"))). cbv iota beta.
    change (Z.to_nat 0) with 0%nat. rewrite Hd0. cbn [dr_root dr_present]. rewrite H0. reflexivity. }
  pose proof (sys_set_cwd_correct demo_sys ∅ demo_hs 8192 demo_proc (λ _, Some (chars "0:/")) 3 (chars "0:/") demo_running) as Hw.
  assert (cstring (chars "0:/") = chars "0:/") as Ec by reflexivity. rewrite demo_sys_fs, Ec, Et in Hw.
  eapply wp_mono; [apply Hw|].
  - exact Hok.
  - lia.
  - reflexivity.
  - apply Forall_forall. repeat constructor; discriminate.
  - vm_compute. discriminate.
  - exists (mkNode NODE_DIR (Some tarfs_ops) 0 0 1). split; [exact H0|]. split; [reflexivity|]. split; [discriminate|reflexivity].
  - intros r s' [H1 H2]. rewrite decide_True in H2 by (cbn [leads_to_dir]; rewrite H0; reflexivity). split; [exact H1|exact H2].
Defined.

Lemma fb_write_in_bounds_witness :
  ∃ r s', fb_write 0 100000 4096 1000 demo_sys = Ret (r, s') ∧ r = 1080.
Proof.
  destruct (fb_write_in_bounds demo_sys 0 100000 4096 1000) as (r & s' & H1 & H2 & _);
    [split; [discriminate|reflexivity]|split; [discriminate|reflexivity]|split; [discriminate|reflexivity]|right; discriminate|].
  exists r, s'. split; [exact H1|]. rewrite H2. reflexivity.
Defined.
