(* ===== verification/UserCopy.v ===== *)
(** * Copying between the kernel and a user address space
    (copy_to_user and copy_from_user of src/userspace/syscall.c)

    The copy goes page by page: each page of the user range is looked up in the
    page tables of the process, and reached through the direct map. *)

From S2P Require Import Prelude ByteMem FrameAlloc Pmm Heap HeapThms Vmm VmmThms.

Definition USER_SPACE_TOP : Z := 0x0000800000000000.

Section UserCopy.
Context {P : Type} `{FA : FrameAllocator P} `{B : Boot}.

Abbreviation MM := (M (mm_state P)).
Implicit Types s : mm_state P.

(** [flags & bit] as a condition. *)
Definition has_flag (flags bit : Z) : bool := negb (Z.land flags bit =? 0).

(** The loop of both functions.  [need] is the test of the page's flags and
    [move] the memcpy: from the address in the direct map, the kernel's address and
    the length.  [user], [kern] and [len] are what is left to copy. *)
Fixpoint copy_loop (fuel : nat) (need : Z → bool) (move : Z → Z → Z → mem → mem)
    (space : addr_space) (user kern len : Z) : MM Z :=
  if 0 <? len then
    match fuel with
    | O => diverge
    | S f =>
        let va := user in
        let page_base := Z.land va (not64 0xfff) in
        let page_off := va -64 page_base in
        let chunk := 4096 -64 page_off in
        let chunk := if len <? chunk then len else chunk in
        if USER_SPACE_TOP <=? va then ret (-1)
        else
          r <- vmm_get_mapping space page_base ;;
          match r with
          | None => ret (-1)
          | Some (phys, flags) =>
              if negb (need flags) then ret (-1)
              else
                let k := (phys +64 page_off) +64 hhdm_offset in
                upd_mem (move k kern chunk) ;;;
                copy_loop f need move space (user +64 chunk) (kern +64 chunk) (len - chunk)
          end
    end
  else ret 0.

(** Each iteration but the first and the last copies a whole page. *)
Definition copy_fuel (len : Z) : nat := Z.to_nat (len / 4096 + 2).

Definition to_user_flags (flags : Z) : bool :=
  has_flag flags PAGE_PRESENT && has_flag flags PAGE_USER && has_flag flags PAGE_WRITE.
Definition from_user_flags (flags : Z) : bool := has_flag flags PAGE_PRESENT && has_flag flags PAGE_USER.

(** 0, or -1 for a page that is not mapped for the user. *)
Definition copy_to_user (space : addr_space) (user_dst kernel_src len : Z) : MM Z :=
  copy_loop (copy_fuel len) to_user_flags (λ kdst src chunk m, memcpy m kdst src chunk) space user_dst kernel_src len.

Definition copy_from_user (space : addr_space) (kernel_dst user_src len : Z) : MM Z :=
  copy_loop (copy_fuel len) from_user_flags (λ ksrc dst chunk m, memcpy m dst ksrc chunk) space user_src kernel_dst len.

(** ** The user range in the direct map *)

(** The physical page of a user address, if the page is mapped with the flags. *)
Definition user_phys s (T : gmap (Z * Z * Z) Z) (r : Z) (need : Z → bool) (va : Z) : option Z :=
  if va <? USER_SPACE_TOP then
    e ← pte_of s T r (va / 4096);
    if need (Z.land e 0xfff) then Some (ENTRY_TO_PHYS e) else None
  else None.

(** The address of the byte in the direct map. *)
Definition user_addr (phys va : Z) : Z := phys + va mod 4096 + hhdm_offset.

Lemma user_page_split va : 0 ≤ va < W64 → Z.land va (not64 0xfff) = va / 4096 * 4096 ∧ va -64 (va / 4096 * 4096) = va mod 4096.
Proof.
  intros Hv. split; [by apply land_page_mask|]. pose proof (Z.div_mod va 4096 ltac:(lia)).
  pose proof (Z.mod_pos_bound va 4096 ltac:(lia)). rewrite u64_small; lia.
Qed.

(** Addresses of one page have the same physical page. *)
Lemma user_phys_page s T r need va c :
  0 ≤ va → 0 ≤ c < 4096 - va mod 4096 →
  user_phys s T r need (va + c) = user_phys s T r need va ∧ (va + c) mod 4096 = va mod 4096 + c.
Proof.
  intros Hva Hc. pose proof (Z.div_mod va 4096 ltac:(lia)) as Hdm. pose proof (Z.mod_pos_bound va 4096 ltac:(lia)).
  assert ((va + c) / 4096 = va / 4096) as Ed by (symmetry; apply (Z.div_unique _ _ _ (va mod 4096 + c)); lia).
  split; [|symmetry; apply (Z.mod_unique _ _ (va / 4096)); lia]. unfold user_phys. rewrite Ed.
  replace (va + c <? USER_SPACE_TOP) with (va <? USER_SPACE_TOP); [done|].
  unfold USER_SPACE_TOP. pose proof (Z.div_mod (va + c) 4096 ltac:(lia)). pose proof (Z.mod_pos_bound (va + c) 4096 ltac:(lia)).
  destruct (Z.ltb_spec va 0x800000000000), (Z.ltb_spec (va + c) 0x800000000000); lia.
Qed.

(** What a copy in one direction needs, for the bytes [0 <= i < len]: [w i] and
    [r i] are the addresses byte [i] is written to and read from. *)
Record copy_ok s (T : gmap (Z * Z * Z) Z) (root : Z) (need : Z → bool) (to_user : bool) (va kern len : Z) : Prop := {
  ck_range : 0 ≤ va ∧ 0 ≤ kern ∧ 0 ≤ len ∧ va + len ≤ W64 ∧ kern + len < W64;
  ck_phys : ∀ i p, 0 ≤ i < len → user_phys s T root need (va + i) = Some p → 0 ≤ p ∧ p + 4096 + hhdm_offset ≤ W64;
  ck_tables : ∀ i p k, 0 ≤ i < len → user_phys s T root need (va + i) = Some p →
    T !! k ≠ Some (frame_of (if to_user then user_addr p (va + i) else kern + i));
  ck_apart : ∀ i j p, 0 ≤ i < len → 0 ≤ j < len → user_phys s T root need (va + i) = Some p → user_addr p (va + i) ≠ kern + j;
  ck_inj : ∀ i j p q, 0 ≤ i < len → 0 ≤ j < len → user_phys s T root need (va + i) = Some p →
    user_phys s T root need (va + j) = Some q → i ≠ j → user_addr p (va + i) ≠ user_addr q (va + j);
}.

(** The written address of byte [i], when it is written. *)
Definition writes s T root need (to_user : bool) va kern i a : Prop :=
  ∃ p, user_phys s T root need (va + i) = Some p ∧ a = if to_user then user_addr p (va + i) else kern + i.

(** The outcome of a copy. *)
Record copied s T root need (to_user : bool) va kern len (c : Z) s' : Prop := {
  cp_tables : tables_ok s' T;
  cp_pte : ∀ r vpn, pte_of s' T r vpn = pte_of s T r vpn;
  cp_state : s' = set_mem (mm_mem s') s;
  cp_code : c = (if bool_decide (Forall (λ i, is_Some (user_phys s T root need (va + i))) (seqZ 0 len)) then 0 else -1);
  cp_frame : ∀ a, (∀ i, 0 ≤ i < len → ¬ writes s T root need to_user va kern i a) → load8 (mm_mem s') a = load8 (mm_mem s) a;
  cp_data : c = 0 → ∀ i p, 0 ≤ i < len → user_phys s T root need (va + i) = Some p →
    load8 (mm_mem s') (if to_user then user_addr p (va + i) else kern + i) =
    load8 (mm_mem s) (if to_user then kern + i else user_addr p (va + i));
}.

Definition mover (to_user : bool) (k kern chunk : Z) (m : mem) : mem :=
  if to_user then memcpy m k kern chunk else memcpy m kern k chunk.

(** One chunk, up to the end of the page or of the range. *)
Lemma move_chunk s T root need to_user va kern len p c :
  tables_ok s T → copy_ok s T root need to_user va kern len → 0 < c ≤ len → c ≤ 4096 - va mod 4096 →
  user_phys s T root need va = Some p →
  let s1 := set_mem (mover to_user (user_addr p va) kern c (mm_mem s)) s in
  tables_ok s1 T ∧ (∀ r vpn, pte_of s1 T r vpn = pte_of s T r vpn) ∧
  (∀ i, 0 ≤ i < c → load8 (mm_mem s1) (if to_user then user_addr p va + i else kern + i) =
     load8 (mm_mem s) (if to_user then kern + i else user_addr p va + i)) ∧
  (∀ a, ¬ ((if to_user then user_addr p va else kern) ≤ a < (if to_user then user_addr p va else kern) + c) →
     load8 (mm_mem s1) a = load8 (mm_mem s) a).
Proof.
  intros Hok Hck Hc Hpage Hp s1. destruct (ck_range _ _ _ _ _ _ _ _ Hck) as (Hva & Hk & Hl & Hvl & Hkl).
  pose proof (Z.mod_pos_bound va 4096 ltac:(lia)) as Hm.
  assert (∀ i, 0 ≤ i < c → user_phys s T root need (va + i) = Some p ∧ user_addr p (va + i) = user_addr p va + i) as Hin.
  { intros i Hi. destruct (user_phys_page s T root need va i Hva ltac:(lia)) as [E1 E2]. rewrite E1. split; [done|].
    unfold user_addr. rewrite E2. lia. }
  set (w := if to_user then user_addr p va else kern). set (rd := if to_user then kern else user_addr p va).
  assert (w + c ≤ rd ∨ rd + c ≤ w) as Hdis.
  { assert (∀ i j, 0 ≤ i < c → 0 ≤ j < c → user_addr p va + i ≠ kern + j) as Hne.
    { intros i j Hi Hj. destruct (Hin i Hi) as [E1 E2]. rewrite <- E2. apply (ck_apart _ _ _ _ _ _ _ _ Hck); [lia|lia|done]. }
    unfold w, rd. pose proof (Hne (Z.max 0 (kern - user_addr p va)) (Z.max 0 (user_addr p va - kern))). destruct to_user; lia. }
  assert (∀ a, load8 (mm_mem s1) a = copy_spec (mm_mem s) w rd c a) as Hmem.
  { intros a. unfold s1, mover, w, rd in *. cbn [set_mem mm_mem]. destruct to_user; apply load8_memcpy; lia. }
  assert (∀ a, ¬ (w ≤ a < w + c) → load8 (mm_mem s1) a = load8 (mm_mem s) a) as Hout.
  { intros a Ha. rewrite Hmem. unfold copy_spec. by rewrite decide_False. }
  destruct (tables_frame s s1 T Hok (vt_wf _ _ Hok) eq_refl ltac:(done)) as (Hok1 & Hpte & _).
  { intros a k HT. apply Hout. intros Ha. destruct (Hin (a - w) ltac:(lia)) as [E1 E2].
    apply (ck_tables _ _ _ _ _ _ _ _ Hck (a - w) p k); [lia|done|]. rewrite HT. f_equal. f_equal. unfold w in *. destruct to_user; lia. }
  split_and!; [done|done| |exact Hout]. intros i Hi. rewrite Hmem. unfold copy_spec. rewrite decide_True by (unfold w; destruct to_user; lia).
  f_equal. unfold w, rd. destruct to_user; lia.
Qed.

Lemma user_phys_ext s s1 T root need va :
  (∀ r vpn, pte_of s1 T r vpn = pte_of s T r vpn) → user_phys s1 T root need va = user_phys s T root need va.
Proof. intros Hpte. unfold user_phys. by rewrite Hpte. Qed.

(** The rest of the range after the first chunk. *)
Lemma copy_ok_rest s s1 T root need to_user va kern len c :
  copy_ok s T root need to_user va kern len → 0 ≤ c ≤ len → (∀ r vpn, pte_of s1 T r vpn = pte_of s T r vpn) →
  copy_ok s1 T root need to_user (va + c) (kern + c) (len - c).
Proof.
  intros [H1 H2 H3 H4 H5] Hc Hpte.
  assert (∀ i, user_phys s1 T root need (va + c + i) = user_phys s T root need (va + (c + i))) as Hu.
  { intros i. rewrite (user_phys_ext s s1) by done. f_equal. lia. }
  split.
  - lia.
  - intros i p Hi Hp. rewrite Hu in Hp. apply (H2 (c + i)); [lia|done].
  - intros i p k Hi Hp. rewrite Hu in Hp. specialize (H3 (c + i) p k ltac:(lia) Hp).
    by rewrite <- Z.add_assoc, <- (Z.add_assoc kern).
  - intros i j p Hi Hj Hp. rewrite Hu in Hp. specialize (H4 (c + i) (c + j) p ltac:(lia) ltac:(lia) Hp).
    by rewrite <- Z.add_assoc, <- (Z.add_assoc kern).
  - intros i j p q Hi Hj Hp Hq Hne. rewrite Hu in Hp, Hq. specialize (H5 (c + i) (c + j) p q ltac:(lia) ltac:(lia) Hp Hq ltac:(lia)).
    by rewrite <- !Z.add_assoc.
Qed.

(** The first chunk and the rest make the whole. *)
Lemma copied_step s s1 s' T root need to_user va kern len c p code :
  copy_ok s T root need to_user va kern len → 0 < c ≤ len → c ≤ 4096 - va mod 4096 →
  user_phys s T root need va = Some p → s1 = set_mem (mm_mem s1) s →
  (∀ r vpn, pte_of s1 T r vpn = pte_of s T r vpn) →
  (∀ i, 0 ≤ i < c → load8 (mm_mem s1) (if to_user then user_addr p va + i else kern + i) =
     load8 (mm_mem s) (if to_user then kern + i else user_addr p va + i)) →
  (∀ a, ¬ ((if to_user then user_addr p va else kern) ≤ a < (if to_user then user_addr p va else kern) + c) →
     load8 (mm_mem s1) a = load8 (mm_mem s) a) →
  copied s1 T root need to_user (va + c) (kern + c) (len - c) code s' →
  copied s T root need to_user va kern len code s'.
Proof.
  intros Hck Hc Hpage Hp Es1 Hpte Hdata Hout [C1 C2 C3 C4 C5 C6].
  destruct (ck_range _ _ _ _ _ _ _ _ Hck) as (Hva & _). pose proof (Z.mod_pos_bound va 4096 ltac:(lia)).
  assert (∀ i, user_phys s1 T root need (va + c + i) = user_phys s T root need (va + (c + i))) as Hu.
  { intros i. rewrite (user_phys_ext s s1) by done. f_equal. lia. }
  assert (∀ i, 0 ≤ i < c → user_phys s T root need (va + i) = Some p ∧ user_addr p (va + i) = user_addr p va + i) as Hin.
  { intros i Hi. destruct (user_phys_page s T root need va i Hva ltac:(lia)) as [E1 E2]. rewrite E1. split; [done|].
    unfold user_addr. rewrite E2. lia. }
  split.
  - done.
  - intros r vpn. by rewrite C2.
  - rewrite C3, Es1. done.
  - rewrite C4. apply (f_equal (λ b : bool, if b then 0 else -1)). apply bool_decide_ext. rewrite !Forall_forall. split.
    + intros Hf i Hi%elem_of_seqZ. destruct (Z.lt_ge_cases i c) as [|Hge]; [destruct (Hin i ltac:(lia)) as [-> _]; eauto|].
      specialize (Hf (i - c) ltac:(apply elem_of_seqZ; lia)). rewrite Hu in Hf. by replace (c + (i - c)) with i in Hf by lia.
    + intros Hf i Hi%elem_of_seqZ. rewrite Hu. apply Hf, elem_of_seqZ. lia.
  - intros a Ha. rewrite C5, Hout; [done| |].
    + intros Hr. set (w := if to_user then user_addr p va else kern) in *. destruct (Hin (a - w) ltac:(lia)) as [E1 E2].
      apply (Ha (a - w) ltac:(lia)). exists p. split; [done|]. unfold w in *. destruct to_user; lia.
    + intros i Hi (q & Hq & ->). rewrite Hu in Hq. apply (Ha (c + i) ltac:(lia)). exists q. split; [done|].
      destruct to_user; [f_equal; lia|lia].
  - intros Hc0 i q Hi Hq. destruct (Z.lt_ge_cases i c) as [Hlt|Hge].
    + destruct (Hin i ltac:(lia)) as [E1 E2]. rewrite E1 in Hq. injection Hq as <-. rewrite E2.
      rewrite C5; [apply Hdata; lia|]. intros j Hj (q & Hq & Ea). rewrite Hu in Hq.
      destruct to_user; [|lia]. rewrite <- Z.add_assoc, <- E2 in Ea. revert Ea. apply (ck_inj _ _ _ _ _ _ _ _ Hck i (c + j) p q); [lia|lia|done|done|lia].
    + specialize (C6 Hc0 (i - c) q ltac:(lia)). rewrite Hu in C6.
      replace (c + (i - c)) with i in C6 by lia. replace (va + c + (i - c)) with (va + i) in C6 by lia.
      replace (kern + c + (i - c)) with (kern + i) in C6 by lia. rewrite (C6 Hq). apply Hout. intros Hr.
      set (w := if to_user then user_addr p va else kern) in *. destruct (Hin (if to_user then kern + i - w else user_addr q (va + i) - w) ltac:(destruct to_user; lia)) as [E1 E2].
      destruct to_user; unfold w in *.
      * apply (ck_apart _ _ _ _ _ _ _ _ Hck (kern + i - user_addr p va) i p); [lia|lia|done|]. lia.
      * apply (ck_apart _ _ _ _ _ _ _ _ Hck i (user_addr q (va + i) - kern) q); [lia|lia|done|]. lia.
Qed.

(** A copy that stops at its first byte. *)
Lemma copied_none s T root need to_user va kern len :
  tables_ok s T → 0 < len → user_phys s T root need va = None → copied s T root need to_user va kern len (-1) s.
Proof.
  intros Hok Hl Hn. split; try done; [by destruct s|]. rewrite bool_decide_false; [done|]. rewrite Forall_forall. intros Hf.
  specialize (Hf 0 ltac:(apply elem_of_seqZ; lia)). rewrite Z.add_0_r, Hn in Hf. by destruct Hf.
Qed.

Lemma copied_nil s T root need to_user va kern : tables_ok s T → copied s T root need to_user va kern 0 0 s.
Proof. intros Hok. split; try done; [by destruct s|]. intros _ i p Hi. lia. Qed.

Lemma copy_loop_spec T root need to_user fuel : ∀ s va kern len,
  tables_ok s T → T !! (root, 3, 0) = Some root → copy_ok s T root need to_user va kern len →
  len ≤ 0 ∨ va mod 4096 + len ≤ 4096 * Z.of_nat fuel →
  ∃ c s', copy_loop fuel need (mover to_user) (space_at root) va kern len s = Ret (c, s') ∧
    copied s T root need to_user va kern len c s'.
Proof.
  induction fuel as [|fuel IH]; intros s va kern len Hok HT Hck Hf;
    destruct (ck_range _ _ _ _ _ _ _ _ Hck) as (Hva & Hk & Hl & Hvl & Hkl); pose proof (Z.mod_pos_bound va 4096 ltac:(lia)) as Hm;
    (destruct (decide (len = 0)) as [->|Hl0]; [exists 0, s; split; [done|by apply copied_nil]|]).
  { destruct Hf as [?|?]; lia. }
  cbn [copy_loop]. destruct (Z.ltb_spec 0 len) as [Hpos|]; [|lia]. cbv zeta.
  destruct (user_page_split va ltac:(lia)) as [-> ->]. rewrite (u64_small (4096 - va mod 4096)) by lia.
  set (c := if len <? 4096 - va mod 4096 then len else 4096 - va mod 4096).
  assert (0 < c ≤ len ∧ c ≤ 4096 - va mod 4096) as [Hc Hc2] by (unfold c; destruct (Z.ltb_spec len (4096 - va mod 4096)); lia).
  destruct (Z.leb_spec USER_SPACE_TOP va) as [Htop|Htop].
  { exists (-1), s. split; [done|]. apply copied_none; [done|lia|]. unfold user_phys. by destruct (Z.ltb_spec va USER_SPACE_TOP); [lia|]. }
  unfold USER_SPACE_TOP in Htop. pose proof (Z.div_mod va 4096 ltac:(lia)) as Hdm.
  pose proof (Z.div_pos va 4096 ltac:(lia) ltac:(lia)) as Hdp.
  rewrite (bind_Ret _ _ _ _ _ (get_mapping_spec s T root (va / 4096 * 4096) Hok HT ltac:(change (2 ^ 47) with 0x800000000000; lia))).
  rewrite Z.div_mul by lia.
  assert (user_phys s T root need va = (e ← pte_of s T root (va / 4096); if need (Z.land e 0xfff) then Some (ENTRY_TO_PHYS e) else None)) as Eu.
  { unfold user_phys, USER_SPACE_TOP. by destruct (Z.ltb_spec va 0x800000000000); [|lia]. }
  destruct (pte_of s T root (va / 4096)) as [e|]; cbn [fmap option_fmap option_map mbind option_bind] in *.
  2:{ exists (-1), s. split; [done|]. by apply copied_none. }
  destruct (need (Z.land e 0xfff)); cbn [negb].
  2:{ exists (-1), s. split; [done|]. by apply copied_none. }
  destruct (ck_phys _ _ _ _ _ _ _ _ Hck 0 (ENTRY_TO_PHYS e)) as [Hp0 Hp1]; [lia|by rewrite Z.add_0_r|].
  destruct (vt_hhdm _ _ Hok) as [Hh0 _].
  rewrite (u64_small (ENTRY_TO_PHYS e + va mod 4096)), (u64_small (_ + hhdm_offset)) by lia. fold (user_addr (ENTRY_TO_PHYS e) va).
  unfold upd_mem. rewrite bind_modify.
  destruct (move_chunk s T root need to_user va kern len _ c Hok Hck Hc Hc2 Eu) as (Hok1 & Hpte & Hdata & Hout).
  set (s1 := set_mem _ s) in *. rewrite (u64_small (va + c)), (u64_small (kern + c)) by lia.
  destruct (IH s1 (va + c) (kern + c) (len - c) Hok1 HT) as (code & s' & Hrun & Hcp).
  - eapply copy_ok_rest; [exact Hck|lia|done].
  - unfold c in *. destruct (Z.ltb_spec len (4096 - va mod 4096)); [left; lia|]. right.
    replace (va + (4096 - va mod 4096)) with (0 + (va / 4096 + 1) * 4096) by lia. rewrite Z.mod_add by lia.
    change (0 mod 4096) with 0. lia.
  - exists code, s'. split; [exact Hrun|]. by apply (copied_step s s1 s' T root need to_user va kern len c (ENTRY_TO_PHYS e) code Hck Hc Hc2 Eu).
Qed.

Lemma copy_fuel_enough va len : 0 ≤ va → 0 ≤ len → va mod 4096 + len ≤ 4096 * Z.of_nat (copy_fuel len).
Proof.
  intros Hv Hl. unfold copy_fuel. pose proof (Z.div_pos len 4096 ltac:(lia) ltac:(lia)).
  pose proof (Z.div_mod len 4096 ltac:(lia)). pose proof (Z.mod_pos_bound len 4096 ltac:(lia)).
  pose proof (Z.mod_pos_bound va 4096 ltac:(lia)). lia.
Qed.

(** C6. copy_from_user ends, and succeeds exactly when every page of the user range
    is below the top of user space and mapped for the user.  Then byte [i] of the
    kernel's buffer is the byte the user's page tables show at [src + i]; in either
    case nothing outside the buffer changes, and no page table. *)
Theorem copy_from_user_correct s (T : gmap (Z * Z * Z) Z) (root dst src len : Z) :
  tables_ok s T → T !! (root, 3, 0) = Some root → copy_ok s T root from_user_flags false src dst len →
  ∃ c s', copy_from_user (space_at root) dst src len s = Ret (c, s') ∧
    copied s T root from_user_flags false src dst len c s'.
Proof.
  intros Hok HT Hck. apply (copy_loop_spec T root from_user_flags false); try done. right.
  destruct (ck_range _ _ _ _ _ _ _ _ Hck) as (? & ? & ? & _). by apply copy_fuel_enough.
Qed.

(** C30. copy_to_user ends, and succeeds exactly when every page of the user range is
    below the top of user space, mapped for the user and writable.  Then the user's
    page tables show byte [i] of the kernel's buffer at [dst + i]; in either case
    nothing outside the pages of the range changes, and no page table. *)
Theorem copy_to_user_correct s (T : gmap (Z * Z * Z) Z) (root dst src len : Z) :
  tables_ok s T → T !! (root, 3, 0) = Some root → copy_ok s T root to_user_flags true dst src len →
  ∃ c s', copy_to_user (space_at root) dst src len s = Ret (c, s') ∧
    copied s T root to_user_flags true dst src len c s'.
Proof.
  intros Hok HT Hck. apply (copy_loop_spec T root to_user_flags true); try done. right.
  destruct (ck_range _ _ _ _ _ _ _ _ Hck) as (? & ? & ? & _). by apply copy_fuel_enough.
Qed.

(** A range inside one page mapped to [p] meets the conditions when the kernel's
    buffer is apart from the page in the direct map and what is written is in no
    table's frame. *)
Lemma copy_ok_one_page s T root need (to_user : bool) va kern len p :
  0 ≤ va → 0 ≤ kern → 0 ≤ len ≤ 4096 - va mod 4096 → va + len ≤ W64 → kern + len < W64 →
  0 ≤ p → p mod 4096 = 0 → p + 4096 + hhdm_offset ≤ W64 → hhdm_offset mod 4096 = 0 →
  kern mod 4096 + len ≤ 4096 → kern / 4096 ≠ (p + hhdm_offset) / 4096 →
  user_phys s T root need va = Some p →
  (∀ k, T !! k ≠ Some (if to_user then p / 4096 else frame_of kern)) →
  copy_ok s T root need to_user va kern len.
Proof.
  intros Hva Hk Hl Hvl Hkl Hp Hpa Hp2 Hha Hkm Hne Hu HT.
  pose proof (Z.mod_pos_bound va 4096 ltac:(lia)) as Hm. pose proof (Z.mod_pos_bound kern 4096 ltac:(lia)) as Hmk.
  pose proof (Z.div_mod kern 4096 ltac:(lia)) as Dk. pose proof (Z.div_mod p 4096 ltac:(lia)) as Dp.
  pose proof (Z.div_mod hhdm_offset 4096 ltac:(lia)) as Dh.
  assert ((p + hhdm_offset) / 4096 = p / 4096 + hhdm_offset / 4096) as Eph
    by (symmetry; apply (Z.div_unique _ _ _ 0); lia). rewrite Eph in Hne.
  assert (∀ i q, 0 ≤ i < len → user_phys s T root need (va + i) = Some q → q = p ∧ user_addr q (va + i) = p + va mod 4096 + i + hhdm_offset) as Hin.
  { intros i q Hi Hq. destruct (user_phys_page s T root need va i Hva ltac:(lia)) as [E1 E2].
    rewrite E1, Hu in Hq. injection Hq as <-. split; [done|]. unfold user_addr. rewrite E2. lia. }
  split.
  - lia.
  - intros i q Hi Hq. destruct (Hin i q Hi Hq) as [-> _]. lia.
  - intros i q k Hi Hq HTk. destruct (Hin i q Hi Hq) as [_ E]. apply (HT k). rewrite HTk. f_equal. unfold frame_of.
    destruct to_user; [rewrite E; symmetry; apply (Z.div_unique _ _ _ (va mod 4096 + i)); lia|].
    transitivity (kern / 4096 - hhdm_offset / 4096); [symmetry; apply (Z.div_unique _ _ _ (kern mod 4096 + i)); lia|].
    apply (Z.div_unique _ _ _ (kern mod 4096)); lia.
  - intros i j q Hi Hj Hq. destruct (Hin i q Hi Hq) as [_ ->]. intros E.
    assert (kern / 4096 < p / 4096 + hhdm_offset / 4096 ∨ p / 4096 + hhdm_offset / 4096 < kern / 4096) as [?|?]; lia.
  - intros i j q q' Hi Hj Hq Hq' Hij. destruct (Hin i q Hi Hq) as [_ ->]. destruct (Hin j q' Hj Hq') as [_ ->]. lia.
Qed.

End UserCopy.

(** ** A concrete copy: a page mapped for the user, and a buffer in another frame *)

Definition demo_mm5 : mm_state pmm_state :=
  state_of (vm_mm demo_vm3) (vmm_map_page (space_at 4) demo_page 0x21000 7 (vm_mm demo_vm3)).

Lemma demo_map5_run : vmm_map_page (space_at 4) demo_page 0x21000 7 (vm_mm demo_vm3) = Ret (tt, demo_mm5).
Proof. apply run_value. vm_compute. reflexivity. Qed.

Lemma demo_mm5_ok : ∃ T, tables_ok demo_mm5 T ∧ T !! (4, 3, 0) = Some 4 ∧ (∀ k, T !! k ≠ Some 0x20 ∧ T !! k ≠ Some 0x21) ∧
  pte_of demo_mm5 T 4 (demo_page / 4096) = Some (leaf_entry 0x21000 7).
Proof.
  destruct demo_vm3_ok as [_ Hok3].
  destruct (map_page_spec (vm_mm demo_vm3) demo_tables 4 demo_page 0x21000 7 demo_mm5 Hok3 demo_user_root) as (T & Hup);
    [split; [discriminate|reflexivity]|split; [discriminate|reflexivity]|split; [discriminate|reflexivity]|apply demo_map5_run|].
  exists T. destruct Hup as [Hok Hext Hnew Hpte _ _]. split; [exact Hok|]. split; [exact (lookup_weaken _ _ _ _ demo_user_root Hext)|]. split.
  - intros [[r' l] pre]. split; intros HT; (destruct (Hnew _ _ _ _ HT) as [H|(H & _)];
      [unfold demo_tables in H; apply lookup_insert_Some in H as [[_ ?]|[_ H]]; [done|]; apply lookup_singleton_Some in H as [_ ?]; done
      |revert H; apply (bool_decide_unpack _); vm_compute; exact I]).
  - rewrite Hpte, decide_True; [reflexivity|split; reflexivity].
Qed.

Lemma copy_from_user_correct_witness : ∃ T c s',
  copy_from_user (space_at 4) (hhdm_offset + 0x20000) (demo_page + 0x10) 16 demo_mm5 = Ret (c, s') ∧
  copied demo_mm5 T 4 from_user_flags false (demo_page + 0x10) (hhdm_offset + 0x20000) 16 c s' ∧ c = 0.
Proof.
  destruct demo_mm5_ok as (T & Hok & Hroot & Hno & Hpte). exists T.
  assert (user_phys demo_mm5 T 4 from_user_flags (demo_page + 0x10) = Some 0x21000) as Hu.
  { unfold user_phys. change ((demo_page + 0x10) / 4096) with (demo_page / 4096). by rewrite Hpte. }
  destruct (copy_from_user_correct demo_mm5 T 4 (hhdm_offset + 0x20000) (demo_page + 0x10) 16 Hok Hroot) as (c & s' & Hrun & Hcp).
  { apply (copy_ok_one_page _ _ _ _ _ _ _ _ 0x21000); try exact Hu; try (vm_compute; intuition discriminate).
    intros k. apply (proj1 (Hno k)). }
  exists c, s'. split; [exact Hrun|]. split; [exact Hcp|].
  rewrite (cp_code _ _ _ _ _ _ _ _ _ _ Hcp), bool_decide_true; [reflexivity|]. apply Forall_forall. intros i Hi%elem_of_seqZ.
  destruct (user_phys_page demo_mm5 T 4 from_user_flags (demo_page + 0x10) i) as [-> _]; [by vm_compute|vm_compute (_ mod _); lia|].
  rewrite Hu. eauto.
Defined.

Lemma copy_to_user_correct_witness : ∃ T c s',
  copy_to_user (space_at 4) (demo_page + 0x10) (hhdm_offset + 0x20000) 16 demo_mm5 = Ret (c, s') ∧
  copied demo_mm5 T 4 to_user_flags true (demo_page + 0x10) (hhdm_offset + 0x20000) 16 c s'.
Proof.
  destruct demo_mm5_ok as (T & Hok & Hroot & Hno & Hpte). exists T.
  assert (user_phys demo_mm5 T 4 to_user_flags (demo_page + 0x10) = Some 0x21000) as Hu.
  { unfold user_phys. change ((demo_page + 0x10) / 4096) with (demo_page / 4096). by rewrite Hpte. }
  apply (copy_to_user_correct demo_mm5 T 4 (demo_page + 0x10) (hhdm_offset + 0x20000) 16 Hok Hroot).
  apply (copy_ok_one_page _ _ _ _ _ _ _ _ 0x21000); try exact Hu; try (vm_compute; intuition discriminate).
  intros k. apply (proj2 (Hno k)).
Defined.
