(* ===== verification/SysMem.v ===== *)
(** * sys_mmap and sys_munmap (src/userspace/syscall.c, vm_region_t of
    src/multi/process.h)

    The two calls work on the memory managers, the current process and the list of
    its regions, whose structs are on the kernel heap. *)

From S2P Require Import Prelude ByteMem FrameAlloc Pmm Heap HeapThms Vmm VmmThms Thread.

Record vm_region := mkRegion { rg_base : Z; rg_size : Z; rg_next : Z }.
Definition SIZEOF_VM_REGION : Z := 24.

(** [vs_proc] is the process of the current thread. *)
Record vmem (P : Type) := mkVmem { vs_mm : mm_state P; vs_proc : process; vs_regions : gmap Z vm_region }.
Arguments mkVmem {P} _ _ _.
Arguments vs_mm {P} _.
Arguments vs_proc {P} _.
Arguments vs_regions {P} _.

Definition with_heap_top (t : Z) (p : process) : process :=
  mkProcess (p_pid p) (p_name p) (p_addr_space p) (p_thread p) t (p_regions p) (p_fds p) (p_ports p) (p_cwd p) (p_next p).
Definition with_regions (r : Z) (p : process) : process :=
  mkProcess (p_pid p) (p_name p) (p_addr_space p) (p_thread p) (p_heap_top p) r (p_fds p) (p_ports p) (p_cwd p) (p_next p).

Section SysMem.
Context {P : Type} `{FA : FrameAllocator P} `{B : Boot}.

Abbreviation MM := (M (mm_state P)).
Abbreviation VSM := (M (vmem P)).

Definition set_vs_mm (m : mm_state P) (v : vmem P) : vmem P := mkVmem m (vs_proc v) (vs_regions v).
Definition set_vs_proc (p : process) (v : vmem P) : vmem P := mkVmem (vs_mm v) p (vs_regions v).
Definition set_vs_regions (r : gmap Z vm_region) (v : vmem P) : vmem P := mkVmem (vs_mm v) (vs_proc v) r.
Definition in_vs_mm {A} (m : MM A) : VSM A := zoom vs_mm set_vs_mm m.

(** proc->addr_space, read where it is used. *)
Definition proc_space : VSM addr_space := gets (λ v, read_space (mm_mem (vs_mm v)) (p_addr_space (vs_proc v))).

(** The body of the loop of sys_mmap. *)
Definition mmap_page (va : Z) : VSM unit :=
  phys <- in_vs_mm (pg fa_alloc) ;;
  space <- proc_space ;;
  in_vs_mm (vmm_map_page space va phys (Z.lor (Z.lor PAGE_PRESENT PAGE_WRITE) PAGE_USER)).

(** [for (i = 0; i < pages; i++)], [n] iterations to go. *)
Fixpoint page_loop (n : nat) (body : Z → VSM unit) (base i : Z) : VSM unit :=
  match n with
  | O => ret tt
  | S n' => body (base +64 (i *64 4096)) ;;; page_loop n' body base (i + 1)
  end.

Definition page_count (size : Z) : Z := (size +64 4095) / 4096.

Definition sys_mmap (addr size : Z) : VSM Z :=
  let pages := page_count size in
  proc <- gets vs_proc ;;
  let vaddr := if addr =? 0 then p_heap_top proc else addr in
  page_loop (Z.to_nat pages) mmap_page vaddr 0 ;;;
  modify (λ v, set_vs_proc (with_heap_top (vaddr +64 (pages *64 4096)) (vs_proc v)) v) ;;;
  region <- in_vs_mm (kmalloc SIZEOF_VM_REGION) ;;
  (if region =? 0 then fault
   else modify (λ v, set_vs_regions (<[region := mkRegion vaddr (pages *64 4096) (p_regions (vs_proc v))]> (vs_regions v)) v)) ;;;
  modify (λ v, set_vs_proc (with_regions region (vs_proc v)) v) ;;;
  ret vaddr.

(** The region at [p], or NULL dereferenced. *)
Definition get_region (p : Z) : VSM vm_region := r <- gets vs_regions ;; of_opt (r !! p).

(** [*curr = next], where [curr] points to the list head ([prev] = 0) or to the
    next field of the region [prev]. *)
Definition set_link (prev next : Z) : VSM unit :=
  if prev =? 0 then modify (λ v, set_vs_proc (with_regions next (vs_proc v)) v)
  else
    r <- get_region prev ;;
    modify (λ v, set_vs_regions (<[prev := mkRegion (rg_base r) (rg_size r) next]> (vs_regions v)) v).

(** The search of sys_munmap: the first region with the base is unlinked and freed. *)
Fixpoint unlink_loop (fuel : nat) (addr prev curr : Z) : VSM unit :=
  if curr =? 0 then ret tt
  else
    match fuel with
    | O => diverge
    | S f =>
        r <- get_region curr ;;
        if rg_base r =? addr then
          set_link prev (rg_next r) ;;;
          in_vs_mm (kfree curr) ;;;
          modify (λ v, set_vs_regions (delete curr (vs_regions v)) v)
        else unlink_loop f addr curr (rg_next r)
    end.

(** The body of the loop of sys_munmap. *)
Definition munmap_page (va : Z) : VSM unit :=
  space <- proc_space ;;
  pte <- in_vs_mm (vmm_get_pte space va false) ;;
  if pte =? 0 then ret tt
  else
    e <- in_vs_mm (rd64 pte) ;;
    if Z.land e PAGE_PRESENT =? 0 then ret tt
    else
      let phys := Z.land e (not64 0xfff) in
      in_vs_mm (pg (fa_free_1 phys)) ;;;
      space <- proc_space ;;
      in_vs_mm (vmm_unmap_page space va).

Definition sys_munmap (addr size : Z) : VSM Z :=
  let pages := page_count size in
  head <- gets (λ v, p_regions (vs_proc v)) ;;
  fuel <- gets (λ v, stdpp.base.size (vs_regions v)) ;;
  unlink_loop fuel addr 0 head ;;;
  page_loop (Z.to_nat pages) munmap_page addr 0 ;;;
  ret 0.

End SysMem.
