(* ===== verification/SysMemThms.v ===== *)
(** * Anonymous memory: sys_mmap and sys_munmap

    The pages of a process are mapped to frames of their own: in range, not free, not
    used for a page table or a heap block, and no frame twice.  Both calls keep that,
    and change the address space only in the range they are called for. *)

From S2P Require Import Prelude ByteMem FrameAlloc Pmm Heap HeapThms Vmm VmmThms Thread SysMem.

Section SysMemThms.
Context {P : Type} `{FA : FrameAllocator P} `{B : Boot}.
Implicit Types s : mm_state P.
Implicit Types v : vmem P.

Definition entry_frame (e : Z) : Z := ENTRY_TO_PHYS e / 4096.

(** The invariant of the space rooted at [r]. *)
Record vspace s (G : gmap Z (Z * Z)) (fls : list (list Z)) (T : gmap (Z * Z * Z) Z) (r : Z) : Prop := {
  vp_mm : mm_inv s G fls T;
  vp_root : T !! (r, 3, 0) = Some r;
  vp_zero : 0 ∉ fa_free (mm_pg s);
  vp_entry : ∀ vpn e, pte_of s T r vpn = Some e → ENTRY_TO_PHYS e = entry_frame e * 4096 ∧ 0 < entry_frame e < fa_count (mm_pg s) ∧ (entry_frame e ∉ fa_free (mm_pg s));
  vp_table : ∀ vpn e k, pte_of s T r vpn = Some e → T !! k ≠ Some (entry_frame e);
  vp_heap : ∀ vpn e b c n a, pte_of s T r vpn = Some e → G !! b = Some (c, n) → b - 8 ≤ a < b - 8 + n → frame_of a ≠ entry_frame e;
  vp_inj : ∀ x1 x2 e1 e2, pte_of s T r x1 = Some e1 → pte_of s T r x2 = Some e2 → entry_frame e1 = entry_frame e2 → x1 = x2;
}.

(** The heap does not see what happens in frames that are not its own. *)
Lemma heap_frame s s' G fls :
  heap_inv s G fls → fa_wf (mm_pg s') → fa_count (mm_pg s') = fa_count (mm_pg s) → mm_caches s' = mm_caches s →
  (∀ b c n a, G !! b = Some (c, n) → b - 8 ≤ a < b - 8 + n → frame_of a ∉ fa_free (mm_pg s')) →
  (∀ b c n a, G !! b = Some (c, n) → b - 8 ≤ a < b - 8 + n → load8 (mm_mem s') a = load8 (mm_mem s) a) →
  heap_inv s' G fls.
Proof.
  intros [Hc Hcnt] Hwf Hn Hca Hfr Hm. pose proof (core_mem_outside s G fls (mm_mem s') Hc Hm) as [C1 C2 C3 C4 C5 C6 C7 C8 C9].
  split; [|intros i c fl; rewrite Hca; apply Hcnt]. cbn [mm_caches set_mem mm_mem mm_pg] in *.
  split; rewrite ?Hca, ?Hn; try done. intros b c n Hb. destruct (C8 b c n Hb) as (E1 & E2 & E3 & E4). split; [done|]. split; [|done].
  intros x Hx. destruct (E2 x Hx) as (F1 & F2 & F3). rewrite Hn. split; [done|]. split; [done|by apply (Hfr b c n)].
Qed.

Lemma leaf_frame f flags : 0 ≤ f → f * 4096 < W64 → 0 ≤ flags < 4096 → ENTRY_TO_PHYS (leaf_entry (f * 4096) flags) = f * 4096 ∧ entry_frame (leaf_entry (f * 4096) flags) = f.
Proof.
  intros Hf Hw Hfl. unfold entry_frame. destruct (leaf_entry_low (f * 4096) flags ltac:(lia) Hfl) as [-> _]. by rewrite !Z.div_mul by lia.
Qed.

(** *** One page mapped *)

Record mapped s (T : gmap (Z * Z * Z) Z) (r vpn : Z) s' (T' : gmap (Z * Z * Z) Z) (f : Z) : Prop := {
  mp_frame : f ∈ fa_free (mm_pg s);
  mp_pte : ∀ r' x, pte_of s' T' r' x = if decide (r' = r ∧ x = vpn) then Some (leaf_entry (f * 4096) 7) else pte_of s T r' x;
  mp_free : fa_free (mm_pg s') ⊆ fa_free (mm_pg s) ∖ {[f]};
}.

Lemma map_anon s G fls T r va :
  vspace s G fls T r → 0 ≤ va < 2 ^ 47 →
  wp ((phys <- pg fa_alloc ;; vmm_map_page (space_at r) va phys 7) s) (λ _ s', ∃ T' f, vspace s' G fls T' r ∧ mapped s T r (va / 4096) s' T' f ∧
    ∀ b c n a, G !! b = Some (c, n) → b - 8 ≤ a < b - 8 + n → load8 (mm_mem s') a = load8 (mm_mem s) a).
Proof.
  intros [[Hheap Htab Hsep] Hroot H0 Hent Htbl Hhp Hinj] Hva. apply wp_bind. unfold pg. apply wp_zoom. apply wp_safe; [apply fa_alloc_safe, (vt_wf _ _ Htab)|].
  intros phys p' Hal. destruct (fa_alloc_ok _ _ _ (vt_wf _ _ Htab) Hal) as (f & -> & Hf & Hwf & Hcnt & Hfr). pose proof (fa_free_bound _ _ (vt_wf _ _ Htab) Hf) as Hfb.
  assert (f ≠ 0) as Hf0 by (by intros ->). pose proof (vt_hhdm _ _ Htab) as [Hh0 Hh1].
  set (s1 := set_pg p' s). destruct (tables_frame s s1 T Htab Hwf Hcnt) as (Htab1 & Hpte1 & _); [cbn; rewrite Hfr; set_solver|done|].
  apply wp_safe; [by apply map_page_safe|]. intros [] s2 Hmap.
  destruct (map_page_spec s1 T r va (f * 4096) 7 s2 Htab1 Hroot Hva ltac:(lia) ltac:(lia) Hmap) as (T' & Hup). exists T', f.
  destruct Hup as [U1 U2 U3 U4 U5 _ U7 U8 U9]. cbn [mm_pg mm_mem mm_caches set_pg s1] in *.
  destruct (leaf_frame f 7 ltac:(lia) ltac:(lia) ltac:(lia)) as [El1 El2].
  assert (∀ b c n a, G !! b = Some (c, n) → b - 8 ≤ a < b - 8 + n → frame_of a ∉ fa_free (mm_pg s)) as Hbf.
  { intros b c n a Hb Ha. destruct (hc_block _ _ _ (proj1 Hheap) _ _ _ Hb) as (_ & Htk & _). by destruct (Htk a Ha) as (_ & _ & ?). }
  assert (∀ b c n a, G !! b = Some (c, n) → b - 8 ≤ a < b - 8 + n → load8 (mm_mem s2) a = load8 (mm_mem s) a) as Hbm.
  { intros b c n a Hb Ha. apply U5; [pose proof (Hbf b c n a Hb Ha); set_solver|]. intros l pre. by apply (Hsep b c n a). }
  assert (∀ r' x, pte_of s2 T' r' x = if decide (r' = r ∧ x = va / 4096) then Some (leaf_entry (f * 4096) 7) else pte_of s T r' x) as Hpte.
  { intros r' x. rewrite U4. case_decide; [done|apply Hpte1]. }
  assert (∀ k g, T' !! k = Some g → T !! k = Some g ∨ g ∈ fa_free (mm_pg s) ∖ {[f]}) as Hnew.
  { intros [[r' l] pre] g HT. destruct (U3 _ _ _ _ HT) as [?|(? & _)]; [by left|right; set_solver]. }
  split; [|split; [by split; [done|done|set_solver]|done]]. split.
  - split; [apply (heap_frame s s2); try done; [apply (vt_wf _ _ U1)|by rewrite U8|]|done|].
    + intros b c n a Hb Ha. pose proof (Hbf b c n a Hb Ha). set_solver.
    + intros b c n a k Hb Ha HT. destruct (Hnew k _ HT) as [HT'|Hin]; [by apply (Hsep b c n a k Hb Ha)|]. pose proof (Hbf b c n a Hb Ha). set_solver.
  - by eapply lookup_weaken.
  - set_solver.
  - intros x e. rewrite Hpte, U8. case_decide as Hd; [intros [= <-]; rewrite El1, El2; split; [done|split; [lia|set_solver]]|].
    intros He. destruct (Hent x e He) as (E1 & E2 & E3). rewrite Hcnt. split; [done|split; [done|set_solver]].
  - intros x e k. rewrite Hpte. case_decide as Hd; [intros [= <-]; rewrite El2|intros He]; intros HT; destruct (Hnew k _ HT) as [HT'|Hin].
    + by destruct (vt_taken _ _ Htab _ _ HT').
    + set_solver.
    + by apply (Htbl x e k He).
    + destruct (Hent x e He) as (_ & _ & ?). set_solver.
  - intros x e b c n a. rewrite Hpte. case_decide as Hd; [intros [= <-]|intros He]; intros Hb Ha; [|by apply (Hhp x e b c n a)].
    rewrite El2. intros <-. by apply (Hbf b c n a Hb Ha).
  - intros x1 x2 e1 e2. rewrite !Hpte. repeat case_decide; [naive_solver|intros [= <-] He2|intros He1 [= <-]|by apply Hinj]; rewrite El2; intros E.
    + destruct (Hent x2 e2 He2) as (_ & _ & Hn). by rewrite <- E in Hn.
    + destruct (Hent x1 e1 He1) as (_ & _ & Hn). by rewrite E in Hn.
Qed.

(** *** The kernel heap and the space *)

Lemma vspace_kmalloc s G fls T r s1 G1 fls1 :
  vspace s G fls T r → heap_inv s1 G1 fls1 → alloc_frame s s1 G G1 →
  vspace s1 G1 fls1 T r ∧ ∀ r' x, pte_of s1 T r' x = pte_of s T r' x.
Proof.
  intros [Hmm Hroot H0 Hent Htbl Hhp Hinj] Hh1 Hfr. destruct (tables_after_kmalloc s G fls T s1 G1 fls1 Hmm Hh1 Hfr) as (Ht1 & Hpte & _ & Hsep1).
  destruct Hfr as [F1 F2 F3 F4]. split; [|done]. split; [by split|done|set_solver| | | |].
  - intros x e. rewrite Hpte, F3. intros He. destruct (Hent x e He) as (E1 & E2 & E3). split; [done|split; [done|set_solver]].
  - intros x e k. rewrite Hpte. apply Htbl.
  - intros x e b c n a. rewrite Hpte. intros He Hb Ha. destruct (F4 b c n a Hb Ha) as [Hb0|Hin]; [by apply (Hhp x e b c n a)|].
    intros E. rewrite E in Hin. by destruct (Hent x e He) as (_ & _ & ?).
  - intros x1 x2 e1 e2. rewrite !Hpte. apply Hinj.
Qed.

Lemma vspace_kfree s G fls T r b s1 G1 fls1 :
  vspace s G fls T r → is_Some (G !! b) → heap_inv s1 G1 fls1 → free_effect s G b s1 G1 →
  vspace s1 G1 fls1 T r ∧ ∀ r' x, pte_of s1 T r' x = pte_of s T r' x.
Proof.
  intros [[Hh Ht Hsep] Hroot H0 Hent Htbl Hhp Hinj] [[cb nb] Hb] Hh1 [F1 F2 F3 F4 F5 _].
  destruct (tables_frame_kept s s1 T Ht (hc_wf _ _ _ (proj1 Hh1)) F2) as (Ht1 & Hpte & _).
  - intros k f HT Hin. destruct (F4 f Hin) as [?|(c & n & a & HG & Ha & <-)]; [by destruct (vt_taken _ _ Ht _ _ HT)|]. by apply (Hsep b c n a k).
  - intros a k HT. apply F3. intros c n HG Ha. by apply (Hsep b c n a k).
  - split; [|done]. split; [split; [done|done|]|done|by apply F5| | | |].
    + intros b' c n a k Hb' Ha. apply (Hsep b' c n a k); [|done]. by eapply lookup_weaken.
    + intros x e. rewrite Hpte, F2. intros He. destruct (Hent x e He) as (E1 & E2 & E3). split; [done|split; [done|]].
      intros Hin. destruct (F4 _ Hin) as [?|(c & n & a & HG & Ha & E)]; [done|]. by apply (Hhp x e b c n a).
    + intros x e k. rewrite Hpte. apply Htbl.
    + intros x e b' c n a. rewrite Hpte. intros He Hb'. apply (Hhp x e b' c n a He). by eapply lookup_weaken.
    + intros x1 x2 e1 e2. rewrite !Hpte. apply Hinj.
Qed.

(** *** The process *)

(** The regions from [p] on up to the pointer [q]. *)
Fixpoint rseg (R : gmap Z vm_region) (p : Z) (l : list Z) (q : Z) : Prop :=
  match l with
  | [] => p = q
  | x :: l' => p = x ∧ x ≠ 0 ∧ ∃ rg, R !! x = Some rg ∧ rseg R (rg_next rg) l' q
  end.

Record vmem_ok v (G : gmap Z (Z * Z)) (fls : list (list Z)) (T : gmap (Z * Z * Z) Z) (r : Z) (l : list Z) : Prop := {
  vo_space : vspace (vs_mm v) G fls T r;
  vo_struct : read_space (mm_mem (vs_mm v)) (p_addr_space (vs_proc v)) = space_at r;
  vo_block : live G fls (p_addr_space (vs_proc v)) ∧ p_addr_space (vs_proc v) ∉ l;
  vo_chain : rseg (vs_regions v) (p_regions (vs_proc v)) l 0;
  vo_nodup : NoDup l;
  vo_dom : ∀ x, is_Some (vs_regions v !! x) ↔ x ∈ l;
  vo_live : ∀ x, x ∈ l → live G fls x;
}.

(** The struct of the address space is 16 bytes of a heap block. *)
Lemma struct_kept s G fls p m' : heap_inv s G fls → live G fls p →
  (∀ c n a, G !! p = Some (c, n) → p - 8 ≤ a < p - 8 + n → load8 m' a = load8 (mm_mem s) a) → read_space m' p = read_space (mm_mem s) p.
Proof.
  intros [Hc _] [[[c n] Hb] _] Hm. destruct (block_min _ _ _ _ _ _ Hc Hb) as [Hn _]. unfold read_space.
  f_equal; apply load_le_ext; intros a Ha; apply (Hm c n a Hb); lia.
Qed.

Lemma mmap_page_wp v G fls T r l va :
  vmem_ok v G fls T r l → 0 ≤ va < 2 ^ 47 →
  wp (mmap_page va v) (λ _ v', ∃ m' T' f, v' = set_vs_mm m' v ∧ vmem_ok v' G fls T' r l ∧ mapped (vs_mm v) T r (va / 4096) m' T' f).
Proof.
  intros [Hsp Hst Hbl Hch Hnd Hdom Hlv] Hva. pose proof (map_anon (vs_mm v) G fls T r va Hsp Hva) as Hmap.
  unfold mmap_page. apply wp_bind. apply wp_zoom. unfold bind in Hmap.
  unfold pg, zoom in Hmap |- *. destruct (fa_alloc (mm_pg (vs_mm v))) as [[phys p']| | |] eqn:Ea; try done. cbn [wp].
  unfold proc_space. rewrite bind_gets. cbn [vs_mm vs_proc set_vs_mm mm_mem set_pg]. rewrite Hst. apply wp_zoom. cbn [vs_mm set_vs_mm].
  change (Z.lor (Z.lor PAGE_PRESENT PAGE_WRITE) PAGE_USER) with 7. eapply wp_mono; [exact Hmap|]. intros [] s' (T' & f & Hsp' & Hmp & Hbm).
  exists s', T', f. split; [done|]. split; [|done]. split; try done. cbn [vs_mm set_vs_mm vs_proc].
  rewrite <- Hst. apply (struct_kept (vs_mm v) G fls); [apply Hsp|apply Hbl|]. intros c n a. apply Hbm.
Qed.

(** [n] pages from page [first] on have frames of their own that were free before;
    nothing else is translated differently. *)
Record mapped_range s (T : gmap (Z * Z * Z) Z) (r first n : Z) s' (T' : gmap (Z * Z * Z) Z) : Prop := {
  mr_new : ∀ x, first ≤ x < first + n → ∃ f, f ∈ fa_free (mm_pg s) ∧ pte_of s' T' r x = Some (leaf_entry (f * 4096) 7);
  mr_old : ∀ r' x, ¬ (r' = r ∧ first ≤ x < first + n) → pte_of s' T' r' x = pte_of s T r' x;
  mr_free : fa_free (mm_pg s') ⊆ fa_free (mm_pg s);
}.

Lemma mapped_range_step s T r first n s1 T1 f s2 T2 :
  0 ≤ n → mapped s T r first s1 T1 f → mapped_range s1 T1 r (first + 1) n s2 T2 → mapped_range s T r first (n + 1) s2 T2.
Proof.
  intros Hn [M1 M2 M3] [R1 R2 R3]. split.
  - intros x Hx. destruct (decide (x = first)) as [->|Hne].
    + exists f. split; [done|]. rewrite R2 by lia. by rewrite M2, decide_True.
    + destruct (R1 x ltac:(lia)) as (g & Hg & Hp). exists g. split; [set_solver|done].
  - intros r' x Hx. rewrite R2, M2, decide_False; [done| |]; naive_solver lia.
  - set_solver.
Qed.

Lemma page_addr base i : 0 ≤ base → 0 ≤ i → base + i * 4096 < 2 ^ 47 → base +64 (i *64 4096) = base + i * 4096 ∧ (base + i * 4096) / 4096 = base / 4096 + i.
Proof. intros Hb Hi Ht. change (2 ^ 47) with 140737488355328 in Ht. rewrite !u64_small by (rewrite ?u64_small by lia; lia). split; [done|]. by rewrite Z.div_add by lia. Qed.

Lemma mmap_loop_wp G fls r l base n : ∀ v T i,
  vmem_ok v G fls T r l → 0 ≤ base → 0 ≤ i → base + (i + Z.of_nat n) * 4096 ≤ 2 ^ 47 →
  wp (page_loop n mmap_page base i v) (λ _ v', ∃ m' T', v' = set_vs_mm m' v ∧ vmem_ok v' G fls T' r l ∧
    mapped_range (vs_mm v) T r (base / 4096 + i) (Z.of_nat n) m' T').
Proof.
  induction n as [|n IH]; intros v T i Hok Hb Hi Ht; cbn [page_loop].
  - exists (vs_mm v), T. split; [by destruct v|]. split; [done|]. split; [lia|done|done].
  - destruct (page_addr base i Hb Hi ltac:(lia)) as [-> Ed]. apply wp_bind. eapply wp_mono; [apply (mmap_page_wp v G fls T r l _ Hok); lia|].
    intros [] v1 (m1 & T1 & f & -> & Hok1 & Hmp). rewrite Ed in Hmp. eapply wp_mono; [apply (IH _ T1 (i + 1) Hok1 Hb); lia|].
    intros [] v2 (m2 & T2 & -> & Hok2 & Hmr). exists m2, T2. split; [done|]. split; [done|]. cbn [vs_mm set_vs_mm] in Hmr.
    replace (Z.of_nat (S n)) with (Z.of_nat n + 1) by lia. apply (mapped_range_step _ _ _ _ _ m1 T1 f); [lia|done|]. by replace (base / 4096 + i + 1) with (base / 4096 + (i + 1)) by lia.
Qed.

Lemma rseg_ext R R' l q : ∀ p, rseg R p l q → (∀ x, x ∈ l → R' !! x = R !! x) → rseg R' p l q.
Proof.
  induction l as [|y l IH]; intros p; cbn [rseg]; [done|]. intros (-> & Hy & rg & Hr & Hc) Hx. split; [done|]. split; [done|]. exists rg.
  rewrite Hx by (by left). split; [done|]. apply IH; [done|]. intros x ?. apply Hx. by right.
Qed.

Lemma rseg_app R l1 l2 q : ∀ p, rseg R p (l1 ++ l2) q ↔ ∃ m, rseg R p l1 m ∧ rseg R m l2 q.
Proof.
  induction l1 as [|x l1 IH]; intros p; cbn [rseg app]; [naive_solver|]. split.
  - intros (-> & Hx & rg & Hr & (m & H1 & H2)%IH). exists m. split; [|done]. split; [done|]. split; [done|]. by exists rg.
  - intros (m & (-> & Hx & rg & Hr & H1) & H2). split; [done|]. split; [done|]. exists rg. split; [done|]. apply IH. by exists m.
Qed.

(** A new region at the head of the list. *)
Lemma add_region v G fls T r l b m' base sz :
  vmem_ok v G fls T r l → malloc_post (vs_mm v) G fls SIZEOF_VM_REGION b m' → b ≠ 0 →
  ∃ G' fls', vmem_ok (mkVmem m' (with_regions b (vs_proc v)) (<[b := mkRegion base sz (p_regions (vs_proc v))]> (vs_regions v))) G' fls' T r (b :: l) ∧
    (∀ r' x, pte_of m' T r' x = pte_of (vs_mm v) T r' x) ∧ fa_free (mm_pg m') ⊆ fa_free (mm_pg (vs_mm v)).
Proof.
  intros [Hsp Hst [Hbl1 Hbl2] Hch Hnd Hdom Hlv] (G1 & fls1 & c & n & Hinv1 & Hb & Hn & Hnl & Hlive & Hold & Hfr) Hb0. exists G1, fls1.
  destruct (vspace_kmalloc _ _ _ _ _ _ _ _ Hsp Hinv1 Hfr) as [Hsp1 Hpte]. split; [|split; [done|apply Hfr]].
  assert (b ∉ l) as Hbl by (intros Hin; by apply Hnl, Hlv).
  split; cbn [vs_mm vs_proc vs_regions with_regions p_regions p_addr_space].
  - done.
  - rewrite <- Hst. apply (struct_kept (vs_mm v) G fls); [apply Hsp|done|]. intros c' n' a HG Ha.
    apply (alloc_frame_blocks _ _ _ _ _ _ _ _ _ (proj1 (mi_heap _ _ _ _ (vp_mm _ _ _ _ _ Hsp))) Hfr HG Ha).
  - split; [apply Hlive; by left|]. intros [E|?]%elem_of_cons; [|done]. apply Hnl. by rewrite <- E.
  - split; [done|]. split; [done|]. eexists. split; [apply lookup_insert_eq|]. cbn [rg_next]. apply (rseg_ext (vs_regions v)); [done|].
    intros x Hx. apply lookup_insert_ne. by intros <-.
  - by apply NoDup_cons.
  - intros x. rewrite lookup_insert, elem_of_cons. case_decide as E; [subst; naive_solver|]. rewrite Hdom. naive_solver.
  - intros x [->|Hx]%elem_of_cons; apply Hlive; [by right|left; auto].
Qed.

Lemma page_count_small size : 0 ≤ size → size + 4096 ≤ 2 ^ 47 → 0 ≤ page_count size ∧ size ≤ page_count size * 4096 < size + 4096.
Proof.
  intros Hs Ht. change (2 ^ 47) with 140737488355328 in Ht. unfold page_count. rewrite u64_small by lia.
  pose proof (Z.div_mod (size + 4095) 4096 ltac:(lia)). pose proof (Z.mod_pos_bound (size + 4095) 4096 ltac:(lia)). lia.
Qed.

Lemma sys_mmap_wp v G fls T r l addr size :
  vmem_ok v G fls T r l → 0 ≤ size →
  let base := if addr =? 0 then p_heap_top (vs_proc v) else addr in
  0 ≤ base → base + size + 4096 ≤ 2 ^ 47 →
  wp (sys_mmap addr size v) (λ a v', a = base ∧ ∃ G' fls' T' b,
    vmem_ok v' G' fls' T' r (b :: l) ∧ (b ∉ l) ∧ vs_regions v' !! b = Some (mkRegion base (page_count size * 4096) (p_regions (vs_proc v))) ∧
    vs_proc v' = with_regions b (with_heap_top (base + page_count size * 4096) (vs_proc v)) ∧
    mapped_range (vs_mm v) T r (base / 4096) (page_count size) (vs_mm v') T').
Proof.
  intros Hok Hs base Hb Ht. destruct (page_count_small size Hs ltac:(lia)) as [Hp0 Hp1]. unfold sys_mmap. cbv zeta. rewrite bind_gets. fold base.
  apply wp_bind. eapply wp_mono; [apply (mmap_loop_wp G fls r l base _ v T 0 Hok Hb); lia|]. intros [] v1 (m1 & T1 & -> & Hok1 & Hmr).
  rewrite bind_modify. cbn [vs_proc set_vs_mm]. change (2 ^ 47) with 140737488355328 in Ht. rewrite (u64_small (page_count size * 4096)), (u64_small (base + _)) by lia.
  set (v2 := set_vs_proc _ _). assert (vmem_ok v2 G fls T1 r l) as Hok2 by (destruct Hok1; by split).
  pose proof (mi_heap _ _ _ _ (vp_mm _ _ _ _ _ (vo_space _ _ _ _ _ _ Hok2))) as Hheap.
  apply wp_bind. apply wp_zoom. apply wp_safe; [by eapply kmalloc_safe|]. intros b m3 Hrun.
  assert (0 < SIZEOF_VM_REGION ≤ 2 ^ 40) as Hsz by (unfold SIZEOF_VM_REGION; lia). pose proof (kmalloc_spec _ G fls _ b m3 Hheap Hsz Hrun) as Hpost.
  assert (b ≠ 0) as Hb0.
  { destruct Hpost as (G1 & fls1 & c & n & Hinv1 & HG & _). destruct (block_min _ _ _ _ _ _ (proj1 Hinv1) HG). pose proof (hc_hhdm _ _ _ (proj1 Hinv1)). lia. }
  apply wp_bind. destruct (Z.eqb_spec b 0) as [?|_]; [done|]. apply (wp_Ret _ tt _ _ eq_refl). rewrite bind_modify. split; [done|].
  destruct (add_region v2 G fls T1 r l b m3 base (page_count size * 4096) Hok2 Hpost Hb0) as (G' & fls' & Hok3 & Hpte & Hfree).
  exists G', fls', T1, b. split; [exact Hok3|]. split; [by pose proof (vo_nodup _ _ _ _ _ _ Hok3) as [? _]%NoDup_cons|]. split; [apply lookup_insert_eq|]. split; [done|].
  rewrite Z2Nat.id, Z.add_0_r in Hmr by done. destruct Hmr as [R1 R2 R3]. cbn [vs_mm]. split.
  - intros x Hx. rewrite Hpte. by apply R1.
  - intros r' x Hx. rewrite Hpte. by apply R2.
  - cbn [vs_mm v2 set_vs_proc set_vs_mm] in Hfree. set_solver.
Qed.

(** *** Unmapping *)

Record unmapped s (T : gmap (Z * Z * Z) Z) (r vpn : Z) s' : Prop := {
  un_pte : ∀ r' x, pte_of s' T r' x = if decide (r' = r ∧ x = vpn) then None else pte_of s T r' x;
  un_free : ∀ g, g ∈ fa_free (mm_pg s') ↔ g ∈ fa_free (mm_pg s) ∨ ∃ e, pte_of s T r vpn = Some e ∧ g = entry_frame e;
}.

Lemma unmap_pg s T r va s' :
  tables_ok s T → T !! (r, 3, 0) = Some r → 0 ≤ va < 2 ^ 47 → vmm_unmap_page (space_at r) va s = Ret (tt, s') → mm_pg s' = mm_pg s.
Proof.
  intros Hok HT Hv Hrun. destruct (get_pte_read s T r va Hok HT Hv) as (pte & Hg & _). unfold vmm_unmap_page in Hrun.
  rewrite (bind_Ret _ _ _ _ _ Hg) in Hrun. destruct (pte =? 0); [done|]. unfold rd64 in Hrun. rewrite bind_gets in Hrun. destruct (negb _); [done|]. by injection Hrun as <-.
Qed.

(** Releasing the frame of a page and removing its entry. *)
Lemma unmap_anon s G fls T r va e :
  vspace s G fls T r → 0 ≤ va < 2 ^ 47 → pte_of s T r (va / 4096) = Some e →
  ∃ p' s', pg (fa_free_1 (ENTRY_TO_PHYS e)) s = Ret (tt, set_pg p' s) ∧ vmm_unmap_page (space_at r) va (set_pg p' s) = Ret (tt, s') ∧
    vspace s' G fls T r ∧ unmapped s T r (va / 4096) s' ∧
    ∀ b c n a, G !! b = Some (c, n) → b - 8 ≤ a < b - 8 + n → load8 (mm_mem s') a = load8 (mm_mem s) a.
Proof.
  intros [[Hheap Htab Hsep] Hroot H0 Hent Htbl Hhp Hinj] Hva He. destruct (Hent _ e He) as (E1 & E2 & E3). set (f := entry_frame e) in *. rewrite E1.
  destruct (fa_free_1_ok _ f (vt_wf _ _ Htab) E2 E3) as (p' & Hfr & Hwf & Hcnt & Hfree). set (s1 := set_pg p' s).
  destruct (tables_frame_kept s s1 T Htab Hwf Hcnt) as (Htab1 & Hpte1 & _); [|done|].
  { intros k g HT. cbn. rewrite Hfree. destruct (vt_taken _ _ Htab _ _ HT) as [_ ?]. intros [?|Hg%elem_of_singleton]%elem_of_union; [done|]. subst g. by apply (Htbl _ e k He). }
  pose proof (unmap_page_spec s1 T r va Htab1 Hroot Hva) as Hun. rewrite Hpte1, He in Hun.
  destruct (vmm_unmap_page (space_at r) va s1) as [[[] s2]| | |] eqn:Hrun; try done. destruct Hun as [_ Hup]. destruct Hup as [U1 _ _ U4 U5 _ _ U8 U9].
  pose proof (unmap_pg s1 T r va s2 Htab1 Hroot Hva Hrun) as Epg. cbn [s1 mm_pg set_pg mm_mem mm_caches] in *. rewrite Hcnt in U8.
  exists p', s2. split; [by apply zoom_Ret|]. split; [exact Hrun|].
  assert (∀ b c n a, G !! b = Some (c, n) → b - 8 ≤ a < b - 8 + n → frame_of a ∉ fa_free p') as Hbf.
  { intros b c n a Hb Ha. rewrite Hfree. destruct (hc_block _ _ _ (proj1 Hheap) _ _ _ Hb) as (_ & Htk & _). destruct (Htk a Ha) as (_ & _ & ?).
    pose proof (Hhp _ e b c n a He Hb Ha). fold f in H1. set_solver. }
  assert (∀ b c n a, G !! b = Some (c, n) → b - 8 ≤ a < b - 8 + n → load8 (mm_mem s2) a = load8 (mm_mem s) a) as Hbm.
  { intros b c n a Hb Ha. apply U5; [by apply (Hbf b c n)|]. intros l pre. by apply (Hsep b c n a). }
  assert (∀ r' x, pte_of s2 T r' x = if decide (r' = r ∧ x = va / 4096) then None else pte_of s T r' x) as Hpte.
  { intros r' x. rewrite U4. case_decide; [done|apply Hpte1]. }
  split; [|split; [split; [done|]|done]].
  2:{ intros g. rewrite Epg, Hfree, elem_of_union, elem_of_singleton. split; [intros [?| ->]; eauto|intros [?|(e' & He' & ->)]; [by left|]]. right. rewrite He in He'. by injection He' as <-. }
  split; [split; [|done|done]|done| | | | |].
  - apply (heap_frame s s2 G fls Hheap); [apply (vt_wf _ _ U1)|done|done| |done]. intros b c n a. rewrite Epg. apply Hbf.
  - rewrite Epg, Hfree. intros [?|Hz%elem_of_singleton]%elem_of_union; [done|]. lia.
  - intros x e'. rewrite Hpte. case_decide as Hd; [done|]. intros He'. destruct (Hent x e' He') as (F1 & F2 & F3). rewrite U8. split; [done|split; [done|]].
    rewrite Epg, Hfree. intros [?|Hg%elem_of_singleton]%elem_of_union; [done|]. apply Hd. split; [done|]. by apply (Hinj x (va / 4096) e' e).
  - intros x e' k. rewrite Hpte. case_decide; [done|apply Htbl].
  - intros x e' b c n a. rewrite Hpte. case_decide; [done|apply Hhp].
  - intros x1 x2 e1 e2. rewrite !Hpte. repeat case_decide; try done. apply Hinj.
Qed.

Lemma munmap_page_run v G fls T r l va :
  vmem_ok v G fls T r l → 0 ≤ va < 2 ^ 47 →
  ∃ m', munmap_page va v = Ret (tt, set_vs_mm m' v) ∧ vmem_ok (set_vs_mm m' v) G fls T r l ∧ unmapped (vs_mm v) T r (va / 4096) m'.
Proof.
  intros Hok Hva. pose proof Hok as [Hsp Hst Hbl Hch Hnd Hdom Hlv]. pose proof (mi_tables _ _ _ _ (vp_mm _ _ _ _ _ Hsp)) as Htab. unfold munmap_page, proc_space. rewrite bind_gets, Hst.
  destruct (get_pte_read (vs_mm v) T r va Htab (vp_root _ _ _ _ _ Hsp) Hva) as (pte & Hg & Hpte & _).
  unfold in_vs_mm. rewrite (bind_Ret _ _ _ _ _ (zoom_Ret vs_mm set_vs_mm _ v _ _ Hg)). assert (set_vs_mm (vs_mm v) v = v) as Ev by (by destruct v). rewrite Ev.
  assert (pte_of (vs_mm v) T r (va / 4096) = None → vmem_ok (set_vs_mm (vs_mm v) v) G fls T r l ∧ unmapped (vs_mm v) T r (va / 4096) (vs_mm v)) as Hnone.
  { intros Hn. rewrite Ev. split; [done|]. split; [|intros g; rewrite Hn; naive_solver]. intros r' x. case_decide as Hd; [|done]. by destruct Hd as [-> ->]. }
  destruct (Z.eqb_spec pte 0) as [->|Hp0].
  { exists (vs_mm v). split; [by rewrite Ev|]. by apply Hnone. }
  rewrite (bind_Ret _ _ v (load64 (mm_mem (vs_mm v)) pte) v) by (unfold zoom, rd64, gets; by rewrite Ev). unfold present in Hpte.
  destruct (Z.land (load64 (mm_mem (vs_mm v)) pte) PAGE_PRESENT =? 0); cbn [negb] in Hpte.
  { exists (vs_mm v). split; [by rewrite Ev|]. by apply Hnone. }
  symmetry in Hpte. cbv zeta. destruct (unmap_anon (vs_mm v) G fls T r va _ Hsp Hva Hpte) as (p' & m' & Hfr & Hun & Hsp' & Hum & Hbm). unfold ENTRY_TO_PHYS in Hfr.
  rewrite (bind_Ret _ _ _ _ _ (zoom_Ret vs_mm set_vs_mm _ v _ _ Hfr)), bind_gets. cbn [vs_mm vs_proc set_vs_mm mm_mem set_pg]. rewrite Hst.
  exists m'. split; [exact (zoom_Ret vs_mm set_vs_mm _ (set_vs_mm (set_pg p' (vs_mm v)) v) _ _ Hun)|]. split; [|done]. split; try done. cbn [vs_mm set_vs_mm vs_proc].
  rewrite <- Hst. apply (struct_kept (vs_mm v) G fls); [apply Hsp|apply Hbl|]. intros c n a. apply Hbm.
Qed.

(** *** The list of regions *)

(** The regions after [*curr = found->next], and then kfree(found). *)
Definition relinked (R : gmap Z vm_region) (prev next : Z) : gmap Z vm_region :=
  if prev =? 0 then R else alter (λ g, mkRegion (rg_base g) (rg_size g) next) prev R.
Definition unlinked (R : gmap Z vm_region) (prev x next : Z) : gmap Z vm_region :=
  delete x (relinked R prev next).

Lemma rseg_unlink R p l1 x l2 rg :
  rseg R p (l1 ++ x :: l2) 0 → NoDup (l1 ++ x :: l2) → R !! x = Some rg →
  let prev := default 0 (last l1) in
  rseg (unlinked R prev x (rg_next rg)) (if prev =? 0 then rg_next rg else p) (l1 ++ l2) 0.
Proof.
  intros Hs Hnd Hx prev. apply rseg_app in Hs as (m & H1 & (-> & Hx0 & rg' & Hx' & H2)). rewrite Hx in Hx'. injection Hx' as <-.
  apply NoDup_app in Hnd as (Hnd1 & Hd & Hnd2). apply NoDup_cons in Hnd2 as [Hx2 Hnd2].
  destruct l1 as [|y l1 _] using rev_ind.
  { cbn in *. unfold unlinked, relinked, prev. cbn. apply (rseg_ext R); [done|]. intros z Hz. apply lookup_delete_ne. by intros <-. }
  apply rseg_app in H1 as (m & H1 & (-> & Hy0 & ry & Hy & Ey)). cbn in Ey.
  assert (prev = y) as -> by (unfold prev; by rewrite last_snoc). unfold unlinked, relinked. destruct (Z.eqb_spec y 0) as [?|_]; [done|].
  apply NoDup_app in Hnd1 as (Hnd3 & Hd1 & _).
  assert (∀ z, z ≠ y → z ≠ x → delete x (alter (λ g, mkRegion (rg_base g) (rg_size g) (rg_next rg)) y R) !! z = R !! z) as Hz.
  { intros z Hzy Hzx. rewrite lookup_delete_ne, lookup_alter_ne by done. done. }
  assert (x ≠ y) as Hxy by (intros ->; apply (Hd y); [apply elem_of_app; right; by left|by left]).
  apply rseg_app. exists (rg_next rg). split.
  - apply rseg_app. exists y. split.
    + apply (rseg_ext R); [done|]. intros z Hzl. apply Hz; intros ->; [by apply (Hd1 y Hzl); left|by apply (Hd x); [apply elem_of_app; left|left]].
    + split; [done|]. split; [done|]. eexists. rewrite lookup_delete_ne by done. rewrite lookup_alter_eq, Hy. done.
  - apply (rseg_ext R); [done|]. intros z Hzl. apply Hz; intros ->; [by apply (Hd y); [apply elem_of_app; right; left|right]|done].
Qed.

(** The outcome of the search for the region with base [addr]. *)
Definition region_gone v (addr : Z) (l : list Z) v' (l' : list Z) : Prop :=
  (l' = l ∧ v' = v ∧ ∀ y rg, y ∈ l → vs_regions v !! y = Some rg → rg_base rg ≠ addr) ∨
  ∃ l1 x l2 rg, l = l1 ++ x :: l2 ∧ l' = l1 ++ l2 ∧ vs_regions v !! x = Some rg ∧ rg_base rg = addr ∧
    ∀ y rg', y ∈ l1 → vs_regions v !! y = Some rg' → rg_base rg' ≠ addr.

Lemma set_link_run v prev next :
  (prev ≠ 0 → is_Some (vs_regions v !! prev)) →
  set_link prev next v = Ret (tt, mkVmem (vs_mm v) (if prev =? 0 then with_regions next (vs_proc v) else vs_proc v) (relinked (vs_regions v) prev next)).
Proof.
  intros Hprev. unfold set_link, relinked. destruct (Z.eqb_spec prev 0) as [_|Hp]; [done|]. destruct (Hprev Hp) as (g & Hg).
  assert (alter (λ g, mkRegion (rg_base g) (rg_size g) next) prev (vs_regions v) = <[prev := mkRegion (rg_base g) (rg_size g) next]> (vs_regions v)) as ->.
  { apply map_eq. intros z. rewrite lookup_insert, lookup_alter. repeat case_decide; subst; rewrite ?Hg; done. }
  unfold get_region, bind, gets, of_opt. by rewrite Hg.
Qed.

(** Unlinking and releasing the region [x]. *)
Lemma unlink_found v G fls T r l1 x l2 rg :
  vmem_ok v G fls T r (l1 ++ x :: l2) → vs_regions v !! x = Some rg →
  ∃ v' G' fls', (set_link (default 0 (last l1)) (rg_next rg) ;;; in_vs_mm (kfree x) ;;; modify (λ v, set_vs_regions (delete x (vs_regions v)) v)) v = Ret (tt, v') ∧
    vmem_ok v' G' fls' T r (l1 ++ l2) ∧ (∀ r' y, pte_of (vs_mm v') T r' y = pte_of (vs_mm v) T r' y) ∧
    vs_proc v' = with_regions (p_regions (vs_proc v')) (vs_proc v).
Proof.
  intros Hok Hx. pose proof Hok as [Hsp Hst [Hb1 Hb2] Hch Hnd Hdom Hlv]. set (prev := default 0 (last l1)).
  assert (x ∈ l1 ++ x :: l2) as Hxl by (apply elem_of_app; right; by left). pose proof (Hlv x Hxl) as Hxlive.
  destruct (kfree_live _ _ _ x (mi_heap _ _ _ _ (vp_mm _ _ _ _ _ Hsp)) Hxlive) as (m' & Hfree & G' & fls' & Hinv' & Hlive' & _ & Hbm & Heff).
  destruct (vspace_kfree _ _ _ _ _ x _ _ _ Hsp (proj1 Hxlive) Hinv' Heff) as [Hsp' Hpte].
  set (pr := if prev =? 0 then with_regions (rg_next rg) (vs_proc v) else vs_proc v). set (R' := unlinked (vs_regions v) prev x (rg_next rg)).
  assert (prev ≠ 0 → ∃ g, vs_regions v !! prev = Some g) as Hprev.
  { intros Hp. apply (Hdom prev). unfold prev in *. destruct (last l1) as [y|] eqn:El; [|done]. apply elem_of_app. left. by apply last_Some_elem_of. }
  exists (mkVmem m' pr R'), G', fls'.
  assert (∀ y, y ∈ l1 ++ l2 → y ∈ l1 ++ x :: l2 ∧ y ≠ x) as Hin.
  { intros y Hy. apply NoDup_app in Hnd as (_ & Hd & Hnd2). apply NoDup_cons in Hnd2 as [? _]. apply elem_of_app in Hy as [Hy|Hy]; (split; [apply elem_of_app|intros ->]); [by left|by apply (Hd x Hy); left|right; by right|done]. }
  split_and!.
  - rewrite (bind_Ret _ _ _ _ _ (set_link_run v prev (rg_next rg) Hprev)). fold pr.
    rewrite (bind_Ret _ _ _ tt (mkVmem m' pr (relinked (vs_regions v) prev (rg_next rg)))) by (unfold in_vs_mm, zoom; cbn [vs_mm]; by rewrite Hfree). done.
  - assert (p_addr_space pr = p_addr_space (vs_proc v)) as Epr by (unfold pr; by case_match).
    assert (p_addr_space (vs_proc v) ≠ x) as Hpx by (intros E; apply Hb2; by rewrite E).
    split; cbn [vs_mm vs_proc vs_regions]; rewrite ?Epr.
    + done.
    + rewrite <- Hst. apply (struct_kept (vs_mm v) G fls); [apply Hsp|done|]. intros c n a HG Ha. by apply (Hbm (p_addr_space (vs_proc v)) c n a).
    + split; [apply Hlive'; done|]. intros [Hy _]%Hin. done.
    + pose proof (rseg_unlink _ _ _ _ _ _ Hch Hnd Hx) as Hu. cbv zeta in Hu. fold prev in Hu. unfold pr, R'. by destruct (prev =? 0).
    + apply NoDup_app in Hnd as (N1 & Hd & N2). apply NoDup_cons in N2 as [_ N2]. apply NoDup_app. split_and!; [done| |done]. intros y Hy Hy2. apply (Hd y Hy). by right.
    + intros y. unfold R', unlinked. rewrite lookup_delete. case_decide as E.
      { subst y. split; [by intros []|]. intros Hy. by destruct (Hin x Hy). }
      assert (is_Some (relinked (vs_regions v) prev (rg_next rg) !! y) ↔ is_Some (vs_regions v !! y)) as ->.
      { unfold relinked. destruct (prev =? 0); [done|]. rewrite lookup_alter. case_decide; [subst; by rewrite fmap_is_Some|done]. }
      rewrite Hdom, !elem_of_app, elem_of_cons. naive_solver.
    + intros y [Hy Hne]%Hin. apply Hlive'. split; [by apply Hlv|done].
  - done.
  - unfold pr. case_match; [done|by destruct (vs_proc v)].
Qed.

Lemma region_unlink_run addr v G fls T r : ∀ l2 l1 fuel,
  vmem_ok v G fls T r (l1 ++ l2) → (∀ y rg, y ∈ l1 → vs_regions v !! y = Some rg → rg_base rg ≠ addr) → (length l2 ≤ fuel)%nat →
  ∀ curr, rseg (vs_regions v) curr l2 0 →
  ∃ v' G' fls' l', unlink_loop fuel addr (default 0 (last l1)) curr v = Ret (tt, v') ∧ vmem_ok v' G' fls' T r l' ∧
    (∀ r' y, pte_of (vs_mm v') T r' y = pte_of (vs_mm v) T r' y) ∧ vs_proc v' = with_regions (p_regions (vs_proc v')) (vs_proc v) ∧ region_gone v addr (l1 ++ l2) v' l'.
Proof.
  induction l2 as [|x l2 IH]; intros l1 fuel Hok Hno Hf curr Hc.
  - cbn in Hc. subst curr. exists v, G, fls, (l1 ++ []). split; [by destruct fuel|]. split; [done|]. split; [done|]. split; [by destruct v as [? [] ?]|].
    left. split; [done|]. split; [done|]. intros y rg Hy. rewrite app_nil_r in Hy. by apply Hno.
  - destruct Hc as (-> & Hx0 & rg & Hx & Hc). destruct fuel as [|fuel]; [cbn in Hf; lia|]. cbn [unlink_loop]. destruct (Z.eqb_spec x 0) as [?|_]; [done|].
    unfold get_region at 1. rewrite (bind_Ret _ _ v rg v) by (unfold bind, gets; by rewrite Hx). destruct (Z.eqb_spec (rg_base rg) addr) as [Eb|Hb].
    + destruct (unlink_found v G fls T r l1 x l2 rg Hok Hx) as (v' & G' & fls' & Hrun & Hok' & Hpte & Hpr). exists v', G', fls', (l1 ++ l2).
      split; [exact Hrun|]. split; [done|]. split; [done|]. split; [done|]. right. by exists l1, x, l2, rg.
    + assert (l1 ++ x :: l2 = (l1 ++ [x]) ++ l2) as El by (by rewrite <- app_assoc). rewrite El in *.
      assert (∀ y rg', y ∈ l1 ++ [x] → vs_regions v !! y = Some rg' → rg_base rg' ≠ addr) as Hno'.
      { intros y rg' [Hy|Hy%list_elem_of_singleton]%elem_of_app Hr; [by eapply Hno|]. subst y. rewrite Hx in Hr. by injection Hr as <-. }
      pose proof (IH (l1 ++ [x]) fuel Hok Hno' ltac:(cbn in Hf; lia) _ Hc) as Hrec. rewrite last_snoc in Hrec. exact Hrec.
Qed.

(** The pages from [first] on are gone and their frames are free. *)
Record unmapped_range s (T : gmap (Z * Z * Z) Z) (r first n : Z) s' : Prop := {
  ur_gone : ∀ x, first ≤ x < first + n → pte_of s' T r x = None;
  ur_old : ∀ r' x, ¬ (r' = r ∧ first ≤ x < first + n) → pte_of s' T r' x = pte_of s T r' x;
  ur_free : ∀ g, g ∈ fa_free (mm_pg s') ↔ g ∈ fa_free (mm_pg s) ∨ ∃ x e, first ≤ x < first + n ∧ pte_of s T r x = Some e ∧ g = entry_frame e;
}.

Lemma munmap_loop_run G fls T r l base n : ∀ v i,
  vmem_ok v G fls T r l → 0 ≤ base → 0 ≤ i → base + (i + Z.of_nat n) * 4096 ≤ 2 ^ 47 →
  ∃ m', page_loop n munmap_page base i v = Ret (tt, set_vs_mm m' v) ∧ vmem_ok (set_vs_mm m' v) G fls T r l ∧
    unmapped_range (vs_mm v) T r (base / 4096 + i) (Z.of_nat n) m'.
Proof.
  induction n as [|n IH]; intros v i Hok Hb Hi Ht; cbn [page_loop].
  - exists (vs_mm v). assert (set_vs_mm (vs_mm v) v = v) as -> by (by destruct v). split; [done|]. split; [done|]. split; [lia|done|].
    intros g. split; [by left|]. intros [?|(x & e & ? & _)]; [done|lia].
  - destruct (page_addr base i Hb Hi ltac:(lia)) as [-> Ed]. destruct (munmap_page_run v G fls T r l (base + i * 4096) Hok ltac:(lia)) as (m1 & Hrun & Hok1 & [N1 N2]).
    rewrite Ed in N1, N2. rewrite (bind_Ret _ _ _ _ _ Hrun). destruct (IH _ (i + 1) Hok1 Hb) as (m2 & Hrun2 & Hok2 & [U1 U2 U3]); [lia|lia|]. cbn [vs_mm set_vs_mm] in *.
    set (first := base / 4096 + i) in *. replace (base / 4096 + (i + 1)) with (first + 1) in * by lia.
    exists m2. split; [exact Hrun2|]. split; [exact Hok2|]. split.
    + intros x Hx. destruct (decide (x = first)) as [->|]; [|apply U1; lia]. rewrite U2 by lia. by rewrite N1, decide_True.
    + intros r' x Hx. rewrite U2 by naive_solver lia. rewrite N1, decide_False by naive_solver lia. done.
    + intros g. rewrite U3, N2. split.
      * intros [[?|(e & He & ->)]|(x & e & Hx & He & ->)]; [by left|right; exists first, e; split; [lia|done]|].
        right. exists x, e. rewrite N1, decide_False in He by lia. split; [lia|done].
      * intros [?|(x & e & Hx & He & ->)]; [by left; left|]. destruct (decide (x = first)) as [->|Hne]; [left; right; by exists e|].
        right. exists x, e. rewrite N1, decide_False by lia. split; [lia|done].
Qed.

(** ** The properties *)

(** C4. sys_mmap, for a range in user space: it ends and never faults; each page of the
    range is mapped for the user to a frame of its own that was free, nothing else is
    translated differently in any address space, the region is recorded at the head of
    the list, and the invariant holds again: no frame of the process is free, a page
    table, part of the heap, or mapped twice. *)
Theorem sys_mmap_correct v (G : gmap Z (Z * Z)) (fls : list (list Z)) (T : gmap (Z * Z * Z) Z) (r : Z) (l : list Z) (addr size : Z) :
  vmem_ok v G fls T r l → 0 ≤ size →
  let base := if addr =? 0 then p_heap_top (vs_proc v) else addr in
  0 ≤ base → base + size + 4096 ≤ 2 ^ 47 →
  wp (sys_mmap addr size v) (λ a v', a = base ∧ ∃ G' fls' T' b,
    vmem_ok v' G' fls' T' r (b :: l) ∧ (b ∉ l) ∧ vs_regions v' !! b = Some (mkRegion base (page_count size * 4096) (p_regions (vs_proc v))) ∧
    vs_proc v' = with_regions b (with_heap_top (base + page_count size * 4096) (vs_proc v)) ∧
    mapped_range (vs_mm v) T r (base / 4096) (page_count size) (vs_mm v') T').
Proof. exact (sys_mmap_wp v G fls T r l addr size). Qed.

(** C29. sys_munmap, for a range in user space: it always returns 0; no page of the range is
    mapped afterwards and every other translation is as before; the frames of the pages
    that were mapped are free again; the first region with the address as base, if there
    is one, is off the list. *)
Theorem sys_munmap_correct v (G : gmap Z (Z * Z)) (fls : list (list Z)) (T : gmap (Z * Z * Z) Z) (r : Z) (l : list Z) (addr size : Z) :
  vmem_ok v G fls T r l → 0 ≤ size → 0 ≤ addr → addr + size + 4096 ≤ 2 ^ 47 →
  ∃ v' G' fls' l', sys_munmap addr size v = Ret (0, v') ∧ vmem_ok v' G' fls' T r l' ∧
    (∀ x, addr / 4096 ≤ x < addr / 4096 + page_count size → pte_of (vs_mm v') T r x = None) ∧
    (∀ r' x, ¬ (r' = r ∧ addr / 4096 ≤ x < addr / 4096 + page_count size) → pte_of (vs_mm v') T r' x = pte_of (vs_mm v) T r' x) ∧
    (∀ x e, addr / 4096 ≤ x < addr / 4096 + page_count size → pte_of (vs_mm v) T r x = Some e → entry_frame e ∈ fa_free (mm_pg (vs_mm v'))) ∧
    ∃ v1, region_gone v addr l v1 l' ∧ vs_regions v' = vs_regions v1.
Proof.
  intros Hok Hs Ha Ht. destruct (page_count_small size Hs ltac:(lia)) as [Hp0 Hp1]. unfold sys_munmap. cbv zeta. rewrite !bind_gets.
  assert (length l ≤ stdpp.base.size (vs_regions v))%nat as Hfuel.
  { rewrite <- (size_list_to_set (C := gset Z) l) by apply Hok. rewrite <- (size_dom (D := gset Z) (vs_regions v)). apply subseteq_size.
    intros x Hx%elem_of_list_to_set. apply elem_of_dom. by apply (vo_dom _ _ _ _ _ _ Hok). }
  destruct (region_unlink_run addr v G fls T r l [] _ Hok ltac:(by intros ? ? ?%not_elem_of_nil) Hfuel _ (vo_chain _ _ _ _ _ _ Hok)) as (v1 & G1 & fls1 & l1 & Hrun & Hok1 & Hpte & Hpr & Hgone).
  cbn [last default] in Hrun. rewrite (bind_Ret _ _ _ _ _ Hrun).
  destruct (munmap_loop_run G1 fls1 T r l1 addr (Z.to_nat (page_count size)) v1 0 Hok1 Ha) as (m2 & Hrun2 & Hok2 & [U1 U2 U3]); [lia|lia|].
  rewrite (bind_Ret _ _ _ _ _ Hrun2). rewrite Z2Nat.id, Z.add_0_r in * by done. exists (set_vs_mm m2 v1), G1, fls1, l1. cbn [vs_mm set_vs_mm vs_regions] in *.
  split_and!; [done|done|done| | |by exists v1].
  - intros r' x Hx. rewrite U2 by done. apply Hpte.
  - intros x e Hx He. apply U3. right. exists x, e. by rewrite Hpte.
Qed.

End SysMemThms.

(** ** A concrete process, with an empty address space *)

Definition demo_uproc : process := mkProcess 1 [] demo_space 0 0x10000000 0 [] [] [] 0.
Definition demo_vmem : vmem pmm_state := mkVmem (vm_mm demo_vm3) demo_uproc ∅.

Lemma demo_vmem_ok : ∃ G fls, vmem_ok demo_vmem G fls demo_tables 4 [].
Proof.
  destruct demo_vm2_ok as [Hk Hinv].
  destruct (create_user_space_spec demo_vm2 _ _ _ 2 demo_space demo_vm3 Hinv Hk (lookup_singleton_eq _ _) demo_space_run) as (_ & G' & fls' & f & Hns).
  pose proof (ns_space _ _ _ _ _ _ _ _ _ _ Hns) as Hsp.
  assert (f = 4) as ->.
  { assert (as_pml4_phys (read_space (mm_mem (vm_mm demo_vm3)) demo_space) = 4 * 4096) as E by (vm_compute; reflexivity).
    rewrite Hsp in E. cbn [space_at as_pml4_phys] in E. clear -E. lia. }
  exists G', fls'. pose proof (ns_empty _ _ _ _ _ _ _ _ _ _ Hns) as Hemp.
  split; cbn [vs_mm vs_proc vs_regions demo_vmem demo_uproc p_addr_space p_regions].
  - split; [exact (ns_inv _ _ _ _ _ _ _ _ _ _ Hns)|exact demo_user_root| | | | |].
    + apply (bool_decide_unpack _). vm_compute. exact I.
    + intros vpn e H. unfold demo_tables in H. rewrite Hemp in H. discriminate H.
    + intros vpn e k H. unfold demo_tables in H. rewrite Hemp in H. discriminate H.
    + intros vpn e b c n a H. unfold demo_tables in H. rewrite Hemp in H. discriminate H.
    + intros v1 v2 e1 e2 H. unfold demo_tables in H. rewrite Hemp in H. discriminate H.
  - exact Hsp.
  - split; [apply (ns_live _ _ _ _ _ _ _ _ _ _ Hns); right; reflexivity|apply not_elem_of_nil].
  - reflexivity.
  - constructor.
  - intros x. rewrite lookup_empty. split; [intros [? [=]]|intros H%not_elem_of_nil; destruct H].
  - intros x H%not_elem_of_nil. destruct H.
Qed.

Lemma sys_mmap_correct_witness :
  let base := if 0 =? 0 then p_heap_top (vs_proc demo_vmem) else 0 in
  wp (sys_mmap 0 10000 demo_vmem) (λ a v', a = base ∧ ∃ G' fls' T' b,
    vmem_ok v' G' fls' T' 4 [b] ∧ (b ∉ []) ∧ vs_regions v' !! b = Some (mkRegion base (page_count 10000 * 4096) (p_regions (vs_proc demo_vmem))) ∧
    vs_proc v' = with_regions b (with_heap_top (base + page_count 10000 * 4096) (vs_proc demo_vmem)) ∧
    mapped_range (vs_mm demo_vmem) demo_tables 4 (base / 4096) (page_count 10000) (vs_mm v') T').
Proof.
  destruct demo_vmem_ok as (G & fls & Hok).
  refine (sys_mmap_correct demo_vmem G fls demo_tables 4 [] 0 10000 Hok _ _ _); vm_compute; discriminate.
Defined.

Lemma sys_munmap_correct_witness : ∃ G' fls' l' v',
  sys_munmap 0x10000000 10000 demo_vmem = Ret (0, v') ∧ vmem_ok v' G' fls' demo_tables 4 l'.
Proof.
  destruct demo_vmem_ok as (G & fls & Hok).
  destruct (sys_munmap_correct demo_vmem G fls demo_tables 4 [] 0x10000000 10000 Hok) as (v' & G' & fls' & l' & Hrun & Hok' & _); [vm_compute; discriminate..|].
  exists G', fls', l', v'. split; [exact Hrun|exact Hok'].
Defined.

(** sys_mmap does not check its address: a program can map pages it may write into the
    kernel's half of the address space. *)
Theorem sys_mmap_maps_kernel_half :
  match sys_mmap 0xffffffff80000000 4096 demo_vmem with
  | Ret (a, v') =>
      match vmm_get_mapping (space_at 4) 0xffffffff80000000 (vs_mm v') with
      | Ret (Some (_, flags), _) => a = 0xffffffff80000000 ∧ flags = 7
      | _ => False
      end
  | _ => False
  end.
Proof. vm_compute. split; reflexivity. Qed.
