(* ===== verification/UserMalloc.v ===== *)
(** * The user-space allocator (user/lib/malloc.c)

    malloc keeps one list of blocks in the order of their addresses; each block
    starts with a header of 24 bytes in the memory of the program.  The memory comes
    from mmap, which is the kernel's sys_mmap: [MmapService] states what the
    allocator relies on, and is discharged at the end of the file by the address
    arithmetic of sys_mmap.  Pure operations on the headers take and return the
    memory; the others thread the allocator's state. *)

From S2P Require Import Prelude ByteMem UserCopy SysMem.

(** ** The kernel's side *)

(** [mmap addr size] runs on the kernel's state and the memory of the program.  Asked
    for address 0, it gives the pages from [mm_top] on, whose contents may be
    anything, and moves [mm_top] behind them; it touches nothing else, or the kernel
    panics for want of memory. *)
Class MmapService (K : Type) := {
  mmap : Z → Z → M (K * mem) Z;
  mm_top : K → Z;
  mmap_ok k m size a k' m' :
    0 < mm_top k → 0 < size → mm_top k + size + 4096 ≤ USER_SPACE_TOP → mmap 0 size (k, m) = Ret (a, (k', m')) →
    a = mm_top k ∧ a + size ≤ mm_top k' < a + size + 4096 ∧
    ∀ x, ¬ (a ≤ x < mm_top k') → load8 m' x = load8 m x;
  mmap_safe k m size :
    0 < mm_top k → 0 < size → mm_top k + size + 4096 ≤ USER_SPACE_TOP → safe (mmap 0 size (k, m));
}.

(** ** The state *)

Record um_state (K : Type) := mkUm {
  um_kern : K; um_mem : mem;
  um_heap_ptr : Z; um_heap_end : Z; um_head : Z }.
Arguments mkUm {K} _ _ _ _ _.
Arguments um_kern {K} _.
Arguments um_mem {K} _.
Arguments um_heap_ptr {K} _.
Arguments um_heap_end {K} _.
Arguments um_head {K} _.

(** sizeof(block_t): a size, a bool padded to 8 bytes, a pointer. *)
Definition HEADER_SIZE : Z := 24.
Definition MIN_SPLIT : Z := HEADER_SIZE + 16.

Definition blk_size (m : mem) (b : Z) : Z := load64 m b.
Definition blk_free (m : mem) (b : Z) : bool := negb (load8 m (b + 8) =? 0).
Definition blk_next (m : mem) (b : Z) : Z := load64 m (b + 16).
Definition set_size (b v : Z) (m : mem) : mem := store64 m b v.
Definition set_free (b : Z) (v : bool) (m : mem) : mem := store8 m (b + 8) (Z.b2z v).
Definition set_next (b v : Z) (m : mem) : mem := store64 m (b + 16) v.

(** ** The operations on headers *)

Fixpoint coalesce (fuel : nat) (blk : Z) (m : mem) : outcome mem :=
  let next := blk_next m blk in
  if negb (next =? 0) && blk_free m next then
    match fuel with
    | O => Diverge
    | S f =>
        let m1 := set_size blk (blk_size m blk +64 (HEADER_SIZE +64 blk_size m next)) m in
        coalesce f blk (set_next blk (blk_next m1 (blk_next m1 blk)) m1)
    end
  else Ret m.

Definition split (blk size : Z) (m : mem) : mem :=
  if blk_size m blk <? size +64 MIN_SPLIT then m
  else
    let new_blk := (blk +64 HEADER_SIZE) +64 size in
    let m1 := set_size new_blk ((blk_size m blk -64 size) -64 HEADER_SIZE) m in
    let m2 := set_free new_blk true m1 in
    let m3 := set_next new_blk (blk_next m2 blk) m2 in
    set_next blk new_blk (set_size blk size m3).

(** [while (curr->next) curr = curr->next;] *)
Fixpoint last_block (fuel : nat) (m : mem) (curr : Z) : outcome Z :=
  if blk_next m curr =? 0 then Ret curr
  else match fuel with O => Diverge | S f => last_block f m (blk_next m curr) end.

(** The search of malloc: the block's payload and the new memory, or nothing when
    the list ends. *)
Fixpoint malloc_loop (fuel cfuel : nat) (size cur : Z) (m : mem) : outcome (option Z * mem) :=
  if cur =? 0 then Ret (None, m)
  else
    match fuel with
    | O => Diverge
    | S f =>
        if blk_free m cur && (size <=? blk_size m cur) then
          m1 <~ coalesce cfuel cur m ;;
          if size <=? blk_size m1 cur then
            Ret (Some (cur +64 HEADER_SIZE), set_free cur false (split cur size m1))
          else malloc_loop f cfuel size (blk_next m1 cur) m1
        else malloc_loop f cfuel size (blk_next m cur) m
    end.

Section Malloc.
Context {K : Type} `{MS : MmapService K}.

Abbreviation UM := (M (um_state K)).
Implicit Types s : um_state K.

Definition set_um_mem (m : mem) s : um_state K := mkUm (um_kern s) m (um_heap_ptr s) (um_heap_end s) (um_head s).
Definition set_heap (p e : Z) s : um_state K := mkUm (um_kern s) (um_mem s) p e (um_head s).
Definition set_um_head (h : Z) s : um_state K := mkUm (um_kern s) (um_mem s) (um_heap_ptr s) (um_heap_end s) h.
Definition put_kern (km : K * mem) s : um_state K := mkUm (fst km) (snd km) (um_heap_ptr s) (um_heap_end s) (um_head s).

(** A pure operation on the memory. *)
Definition on_mem {A} (f : mem → outcome (A * mem)) : UM A := zoom um_mem set_um_mem f.
Definition edit (f : mem → mem) : UM unit := modify (λ s, set_um_mem (f (um_mem s)) s).

(** The list cannot have more blocks than headers fit below the end of the heap. *)
Definition list_fuel s : nat := Z.to_nat ((um_heap_end s - um_head s) / HEADER_SIZE + 1).

Definition sbrk (size : Z) : UM Z :=
  hp <- gets um_heap_ptr ;;
  he <- gets um_heap_end ;;
  (if (hp =? 0) || (he <? hp +64 size) then
     page <- zoom (λ s, (um_kern s, um_mem s)) put_kern (mmap 0 (size +64 4096)) ;;
     modify (set_heap page ((page +64 size) +64 4096))
   else ret tt) ;;;
  ptr <- gets um_heap_ptr ;;
  modify (λ s, set_heap (um_heap_ptr s +64 size) (um_heap_end s) s) ;;;
  ret ptr.

Definition extend_heap (size : Z) : UM Z :=
  let total := HEADER_SIZE +64 size in
  blk <- sbrk total ;;
  if blk =? 0 then ret 0
  else
    edit (set_size blk size) ;;;
    edit (set_free blk false) ;;;
    edit (set_next blk 0) ;;;
    head <- gets um_head ;;
    (if head =? 0 then modify (set_um_head blk)
     else
       fuel <- gets list_fuel ;;
       m <- gets um_mem ;;
       curr <- lift (last_block fuel m head) ;;
       edit (set_next curr blk)) ;;;
    ret blk.

Definition malloc (size : Z) : UM Z :=
  if size =? 0 then ret 0
  else
    let size := Z.land (size +64 7) (not64 7) in
    head <- gets um_head ;;
    fuel <- gets list_fuel ;;
    r <- on_mem (malloc_loop fuel fuel size head) ;;
    match r with
    | Some p => ret p
    | None =>
        blk <- extend_heap size ;;
        if blk =? 0 then ret 0 else ret (blk +64 HEADER_SIZE)
    end.

Definition free (ptr : Z) : UM unit :=
  if ptr =? 0 then ret tt
  else
    let blk := ptr -64 HEADER_SIZE in
    edit (set_free blk true) ;;;
    fuel <- gets list_fuel ;;
    on_mem (λ m, m1 <~ coalesce fuel blk m ;; Ret (tt, m1)).

Definition realloc (ptr size : Z) : UM Z :=
  if ptr =? 0 then malloc size
  else if size =? 0 then free ptr ;;; ret 0
  else
    let blk := ptr -64 HEADER_SIZE in
    let size := Z.land (size +64 7) (not64 7) in
    m <- gets um_mem ;;
    if size <=? blk_size m blk then edit (split blk size) ;;; ret ptr
    else
      fuel <- gets list_fuel ;;
      on_mem (λ m, m1 <~ coalesce fuel blk m ;; Ret (tt, m1)) ;;;
      m <- gets um_mem ;;
      if size <=? blk_size m blk then edit (split blk size) ;;; ret ptr
      else
        new_ptr <- malloc size ;;
        if new_ptr =? 0 then ret 0
        else
          m <- gets um_mem ;;
          let copy_size := if blk_size m blk <? size then blk_size m blk else size in
          edit (λ m, copy_up (Z.to_nat copy_size) m new_ptr ptr) ;;;
          free ptr ;;;
          ret new_ptr.

Definition calloc (nmemb size : Z) : UM Z :=
  let total := nmemb *64 size in
  ptr <- malloc total ;;
  (if ptr =? 0 then ret tt else edit (λ m, memset m ptr 0 total)) ;;;
  ret ptr.

End Malloc.

(** ** The address arithmetic of sys_mmap

    The next free address of the process is [heap_top]; the pages asked for start
    there, or at the address given. *)
Definition mmap_addresses (addr size : Z) : M (Z * mem) Z := λ '(heap_top, m),
  let vaddr := if addr =? 0 then heap_top else addr in
  Ret (vaddr, (vaddr +64 (page_count size *64 4096), m)).

Lemma page_count_bound size :
  0 < size → size + 4096 ≤ USER_SPACE_TOP → size ≤ page_count size * 4096 < size + 4096.
Proof.
  intros Hs Ht. unfold page_count, USER_SPACE_TOP in *. rewrite u64_small by lia.
  pose proof (Z.div_mod (size + 4095) 4096 ltac:(lia)). pose proof (Z.mod_pos_bound (size + 4095) 4096 ltac:(lia)). lia.
Qed.

#[export] Program Instance heap_top_mmap : MmapService Z := {| mmap := mmap_addresses; mm_top := λ k, k |}.
Next Obligation.
  intros k m size a k' m' Hk Hs Ht Hrun. cbn in Hrun, Hk, Ht. pose proof (page_count_bound size Hs ltac:(lia)). unfold USER_SPACE_TOP in *.
  injection Hrun as <- <- <-. rewrite (u64_small (_ * _)), u64_small by lia. split; [done|]. split; [lia|done].
Qed.
Next Obligation. intros k m size Hk Hs Ht. exact I. Qed.
