(* ===== verification/UserMallocThms.v ===== *)
(** * The user-space allocator: the list of blocks and what malloc promises

    The headers in memory represent a list of blocks in the order of addresses.
    coalesce, split and the search of malloc are related to functions on that list;
    from those follow the contracts of malloc, free, realloc and calloc. *)

From S2P Require Import Prelude ByteMem UserCopy UserMalloc.

Record block := mkBlock { b_addr : Z; b_size : Z; b_free : bool }.

Definition b_end (b : block) : Z := b_addr b + HEADER_SIZE + b_size b.

(** The headers from [p] on up to the pointer [q] are those of the blocks [l]. *)
Fixpoint seg (m : mem) (p : Z) (l : list block) (q : Z) : Prop :=
  match l with
  | [] => p = q
  | b :: l' =>
      p = b_addr b ∧ load64 m p = b_size b ∧ load8 m (p + 8) = Z.b2z (b_free b) ∧ seg m (load64 m (p + 16)) l' q
  end.

(** The blocks lie one behind the other between [lo] and [hi]. *)
Fixpoint laid (lo : Z) (l : list block) (hi : Z) : Prop :=
  match l with
  | [] => lo ≤ hi
  | b :: l' => lo ≤ b_addr b ∧ 0 ≤ b_size b ∧ laid (b_end b) l' hi
  end.

(** ** The operations on the list *)

Fixpoint acoalesce (b : block) (l : list block) : list block :=
  match l with
  | b2 :: l' => if b_free b2 then acoalesce (mkBlock (b_addr b) (b_size b + (HEADER_SIZE + b_size b2)) (b_free b)) l' else b :: l
  | [] => [b]
  end.

Definition asplit (b : block) (size : Z) (rest : list block) : list block :=
  if b_size b <? size + MIN_SPLIT then b :: rest
  else mkBlock (b_addr b) size (b_free b) ::
    mkBlock (b_addr b + HEADER_SIZE + size) (b_size b - size - HEADER_SIZE) true :: rest.

(** Splitting the first block of a list. *)
Definition asplit_head (size : Z) (l : list block) : list block :=
  match l with b :: rest => asplit b size rest | [] => [] end.

Definition mark (v : bool) (b : block) : block := mkBlock (b_addr b) (b_size b) v.
Definition mark_head (v : bool) (l : list block) : list block :=
  match l with b :: rest => mark v b :: rest | [] => [] end.

(** First fit. *)
Fixpoint afind (size : Z) (l : list block) : option (Z * list block) :=
  match l with
  | [] => None
  | b :: l' =>
      if b_free b && (size <=? b_size b) then Some (b_addr b, mark_head false (asplit_head size (acoalesce b l')))
      else r ← afind size l'; Some (r.1, b :: r.2)
  end.

(** ** Segments and layouts *)

Lemma seg_app m p l1 l2 q : seg m p (l1 ++ l2) q ↔ ∃ r, seg m p l1 r ∧ seg m r l2 q.
Proof.
  revert p. induction l1 as [|b l1 IH]; intros p; cbn.
  - split; [intros; by exists p|by intros (? & -> & ?)].
  - rewrite IH. naive_solver.
Qed.

Lemma laid_app lo l1 l2 hi : laid lo (l1 ++ l2) hi ↔ ∃ mid, laid lo l1 mid ∧ laid mid l2 hi.
Proof.
  revert lo. induction l1 as [|b l1 IH]; intros lo; cbn.
  - split; [exists lo; done|]. intros (mid & H1 & H2). destruct l2; cbn in *; [lia|]. destruct H2 as (? & ? & ?). split_and!; [lia|done..].
  - rewrite IH. naive_solver.
Qed.

Lemma laid_le lo l hi : laid lo l hi → lo ≤ hi.
Proof.
  revert lo. induction l as [|b l IH]; intros lo; cbn; [done|]. intros (? & ? & H%IH). unfold b_end, HEADER_SIZE in H. lia.
Qed.

Lemma laid_in lo l hi b : laid lo l hi → b ∈ l → lo ≤ b_addr b ∧ 0 ≤ b_size b ∧ b_end b ≤ hi.
Proof.
  revert lo. induction l as [|c l IH]; intros lo; [by intros _ ?%not_elem_of_nil|]. intros (H1 & H2 & H3).
  pose proof (laid_le _ _ _ H3). intros [->|Hb]%elem_of_cons; [done|]. destruct (IH _ H3 Hb) as (? & ? & ?).
  unfold b_end, HEADER_SIZE in *. lia.
Qed.

Lemma laid_weaken lo lo' l hi hi' : laid lo l hi → lo' ≤ lo → hi ≤ hi' → laid lo' l hi'.
Proof.
  revert lo lo'. induction l as [|b l IH]; intros lo lo'; cbn; [lia|]. intros (? & ? & H3) ? ?. split_and!; [lia|done|]. by eapply IH.
Qed.

(** The headers are all that matters. *)
Lemma seg_ext m m' p l q :
  seg m p l q → (∀ b x, b ∈ l → b_addr b ≤ x < b_addr b + HEADER_SIZE → load8 m' x = load8 m x) → seg m' p l q.
Proof.
  revert p. induction l as [|b l IH]; intros p; cbn [seg]; [done|]. intros (-> & H1 & H2 & H3) Hx.
  assert (∀ x, b_addr b ≤ x < b_addr b + 24 → load8 m' x = load8 m x) as Hb by (intros x ?; apply (Hx b); [by left|done]).
  assert (load64 m' (b_addr b + 16) = load64 m (b_addr b + 16)) as En by (apply load_le_ext; intros; apply Hb; lia).
  split_and!; [done| | |].
  - rewrite <- H1. apply load_le_ext. intros; apply Hb; lia.
  - rewrite <- H2. apply Hb. lia.
  - rewrite En. apply IH; [done|]. intros c x Hc. apply (Hx c). by right.
Qed.

Lemma seg_free m p b l q : seg m p (b :: l) q → p = b_addr b ∧ blk_free m p = b_free b ∧ blk_size m p = b_size b ∧ seg m (blk_next m p) l q.
Proof. intros (-> & H1 & H2 & H3). unfold blk_free. rewrite H2. by destruct (b_free b). Qed.

(** Pointers to blocks are not NULL. *)
Lemma seg_null m p l lo hi : seg m p l 0 → laid lo l hi → 0 < lo → p = 0 ↔ l = [].
Proof. destruct l as [|b l]; cbn; [naive_solver|]. intros (-> & _) (? & _) ?. split; [lia|done]. Qed.

(** ** Writing headers *)

Lemma load8_set_size m a v x : ¬ (a ≤ x < a + HEADER_SIZE) → load8 (set_size a v m) x = load8 m x.
Proof. unfold HEADER_SIZE, set_size, store64. intros. rewrite load8_store_le. by rewrite decide_False by lia. Qed.
Lemma load8_set_next m a v x : ¬ (a ≤ x < a + HEADER_SIZE) → load8 (set_next a v m) x = load8 m x.
Proof. unfold HEADER_SIZE, set_next, store64. intros. rewrite load8_store_le. by rewrite decide_False by lia. Qed.
Lemma load8_set_free m a v x : ¬ (a ≤ x < a + HEADER_SIZE) → load8 (set_free a v m) x = load8 m x.
Proof. unfold HEADER_SIZE, set_free. intros. rewrite load8_store8. by rewrite decide_False by lia. Qed.

(** Size and next of one block rewritten; the rest of the list is elsewhere. *)
Lemma seg_write m a v f n l q :
  0 ≤ v < W64 → 0 ≤ n < W64 → load8 m (a + 8) = Z.b2z f → seg m n l q → (∀ b, b ∈ l → a + HEADER_SIZE ≤ b_addr b) →
  seg (set_next a n (set_size a v m)) a (mkBlock a v f :: l) q.
Proof.
  intros Hv Hn Hf Hs Hl. unfold HEADER_SIZE in *. cbn [seg b_addr b_size b_free]. split_and!; [done| | |].
  - unfold set_next, set_size. rewrite load64_store64_ne by lia. by apply load64_store64_eq.
  - rewrite <- Hf. unfold set_next, set_size, store64. by rewrite !load8_store_le, !decide_False by lia.
  - unfold set_next at 2. rewrite load64_store64_eq by done. apply (seg_ext m); [done|]. unfold HEADER_SIZE. intros b x Hb Hx.
    pose proof (Hl b Hb).
    rewrite load8_set_next, load8_set_size by (unfold HEADER_SIZE; lia). done.
Qed.

(** *** coalesce *)

Lemma coalesce_spec l : ∀ fuel b m lo hi,
  seg m (b_addr b) (b :: l) 0 → laid lo (b :: l) hi → 0 < lo → hi ≤ USER_SPACE_TOP → (length l ≤ fuel)%nat →
  ∃ m', coalesce fuel (b_addr b) m = Ret m' ∧ seg m' (b_addr b) (acoalesce b l) 0 ∧
    ∀ x, ¬ (b_addr b ≤ x < b_addr b + HEADER_SIZE) → load8 m' x = load8 m x.
Proof.
  induction l as [|b2 l IH]; intros fuel b m lo hi Hs Hl Hlo Hhi Hf.
  - destruct (seg_free _ _ _ _ _ Hs) as (_ & _ & _ & Hn). cbn [seg] in Hn. exists m. split_and!; [|done|done].
    destruct fuel; cbn [coalesce]; cbv zeta; rewrite Hn; done.
  - destruct (seg_free _ _ _ _ _ Hs) as (_ & _ & Esz & Hs2). destruct (seg_free _ _ _ _ _ Hs2) as (En & Efr2 & Esz2 & Hs3).
    destruct Hl as (Hl1 & Hl2 & Hl3 & Hl4 & Hl5). unfold b_end, HEADER_SIZE, USER_SPACE_TOP in *. pose proof (laid_le _ _ _ Hl5) as Hle.
    cbn [acoalesce]. destruct fuel as [|fuel]; [cbn in Hf; lia|]. cbn [coalesce]. cbv zeta. rewrite En in *.
    destruct (Z.eqb_spec (b_addr b2) 0) as [?|_]; [lia|]. rewrite Efr2. cbn [negb andb].
    destruct (b_free b2); [|by exists m].
    rewrite Esz, Esz2. unfold HEADER_SIZE. rewrite (u64_small (24 + _)), (u64_small (b_size b + _)) by lia.
    set (m1 := set_size (b_addr b) (b_size b + (24 + b_size b2)) m).
    assert (blk_next m1 (b_addr b) = b_addr b2) as -> by (unfold m1, blk_next, set_size; by rewrite load64_store64_ne by lia).
    assert (blk_next m1 (b_addr b2) = blk_next m (b_addr b2)) as -> by (unfold m1, blk_next, set_size; by rewrite load64_store64_ne by lia).
    set (nb := mkBlock (b_addr b) (b_size b + (24 + b_size b2)) (b_free b)).
    destruct (IH fuel nb (set_next (b_addr b) (blk_next m (b_addr b2)) m1) lo hi) as (m' & H1 & H2 & H3).
    + apply seg_write; [lia|apply load64_range|by destruct Hs as (_ & _ & -> & _)|done|]. intros c Hc. destruct (laid_in _ _ _ _ Hl5 Hc). unfold HEADER_SIZE. lia.
    + cbn [laid]. split_and!; [done|cbn; lia|]. eapply laid_weaken; [exact Hl5| |lia]. unfold b_end, nb, HEADER_SIZE. cbn. lia.
    + lia.
    + done.
    + cbn in Hf. lia.
    + exists m'. split_and!; [exact H1|exact H2|]. intros x Hx. rewrite H3 by done. unfold m1. by rewrite load8_set_next, load8_set_size by done.
Qed.

Lemma acoalesce_shape b l :
  ∃ mid rest n, l = mid ++ rest ∧ Forall (λ c, b_free c = true) mid ∧ acoalesce b l = mkBlock (b_addr b) n (b_free b) :: rest ∧
    (∀ lo hi, laid lo (b :: l) hi → laid lo (acoalesce b l) hi ∧ b_size b ≤ n).
Proof.
  revert b. induction l as [|b2 l IH]; intros b; cbn [acoalesce].
  - exists [], [], (b_size b). split_and!; [done|constructor|by destruct b|]. done.
  - destruct (b_free b2) eqn:Ef.
    + destruct (IH (mkBlock (b_addr b) (b_size b + (HEADER_SIZE + b_size b2)) (b_free b))) as (mid & rest & n & -> & Hm & Ha & Hl).
      exists (b2 :: mid), rest, n. split_and!; [done|by constructor|done|]. intros lo hi (H1 & H2 & H3 & H4 & H5). unfold b_end, HEADER_SIZE in *.
      destruct (Hl lo hi) as [HL Hn].
      { cbn [laid b_addr b_size]. split_and!; [done|lia|]. eapply laid_weaken; [exact H5| |lia]. unfold b_end, HEADER_SIZE. cbn. lia. }
      split; [done|]. cbn in Hn. lia.
    + exists [], (b2 :: l), (b_size b). split_and!; [done|constructor|by destruct b|]. done.
Qed.

(** *** split *)

Lemma split_spec m b rest size lo hi :
  seg m (b_addr b) (b :: rest) 0 → laid lo (b :: rest) hi → 0 < lo → hi ≤ USER_SPACE_TOP → 0 ≤ size ≤ b_size b →
  seg (split (b_addr b) size m) (b_addr b) (asplit b size rest) 0 ∧ laid lo (asplit b size rest) hi ∧
  ∀ x, ¬ (b_addr b ≤ x < b_addr b + HEADER_SIZE) → ¬ (b_addr b + HEADER_SIZE + size ≤ x < b_end b) →
    load8 (split (b_addr b) size m) x = load8 m x.
Proof.
  intros Hs Hl Hlo Hhi Hsz. destruct (seg_free _ _ _ _ _ Hs) as (_ & _ & Esz & Hs2). destruct Hl as (Hl1 & Hl2 & Hl3).
  pose proof (laid_le _ _ _ Hl3) as Hle. unfold split, asplit, MIN_SPLIT, b_end, HEADER_SIZE, USER_SPACE_TOP in *. rewrite Esz.
  rewrite (u64_small (size + _)) by lia. destruct (Z.ltb_spec (b_size b) (size + (24 + 16))) as [Hlt|Hge]; [done|].
  rewrite (u64_small (b_addr b + 24)), (u64_small (_ + size)), (u64_small (b_size b - size)), (u64_small (_ - 24)) by lia.
  set (a := b_addr b) in *. set (na := a + 24 + size). set (m1 := set_size na _ m).
  assert (blk_next (set_free na true m1) a = blk_next m a) as ->.
  { apply load_le_ext. intros x Hx. unfold m1. rewrite load8_set_free, load8_set_size by (unfold na, HEADER_SIZE; lia). done. }
  split_and!.
  - apply seg_write; [lia|unfold na; lia| |apply (seg_ext (set_next na (blk_next m a) (set_size na (b_size b - size - 24) (set_free na true m)))); [apply seg_write|]|].
    + destruct Hs as (_ & _ & <- & _). unfold m1. rewrite load8_set_next, load8_set_free, load8_set_size by (unfold na, HEADER_SIZE; lia). done.
    + lia.
    + apply load64_range.
    + unfold set_free. rewrite load8_store8, decide_True by done. done.
    + apply (seg_ext m); [done|]. intros c x Hc Hx. destruct (laid_in _ _ _ _ Hl3 Hc).
      rewrite load8_set_free by (unfold na, HEADER_SIZE; lia). done.
    + intros c Hc. destruct (laid_in _ _ _ _ Hl3 Hc). unfold na, HEADER_SIZE. lia.
    + intros c x _ _. unfold m1, set_next, set_size, set_free, store64. rewrite !load8_store_le, !load8_store8, !load8_store_le.
      repeat case_decide; try done; lia.
    + intros c [->|Hc]%elem_of_cons; [cbn; unfold HEADER_SIZE; lia|]. destruct (laid_in _ _ _ _ Hl3 Hc). unfold HEADER_SIZE. lia.
  - unfold na. cbn [laid b_addr b_size]. unfold b_end, HEADER_SIZE. cbn. split_and!; [done|lia|lia|lia|]. eapply laid_weaken; [exact Hl3| |]; lia.
  - intros x H1 H2. unfold m1. rewrite load8_set_next, load8_set_size, load8_set_next, load8_set_free, load8_set_size by (unfold na, HEADER_SIZE in *; lia). done.
Qed.

Lemma seg_mark m a b l q v :
  seg m a (b :: l) q → (∀ c, c ∈ l → b_addr b + HEADER_SIZE ≤ b_addr c) → seg (set_free a v m) a (mark v b :: l) q.
Proof.
  intros (-> & H1 & H2 & H3) Hl. unfold HEADER_SIZE in *. cbn [seg mark b_addr b_size b_free].
  assert (∀ x, x ≠ b_addr b + 8 → load8 (set_free (b_addr b) v m) x = load8 m x) as Hx.
  { intros x ?. unfold set_free. by rewrite load8_store8, decide_False. }
  assert (∀ d, d = 0 ∨ d = 16 → load64 (set_free (b_addr b) v m) (b_addr b + d) = load64 m (b_addr b + d)) as H64.
  { intros d Hd. apply load_le_ext. intros x ?. apply Hx. lia. }
  split_and!; [done| | |].
  - rewrite <- H1. rewrite <- (Z.add_0_r (b_addr b)) at 2 3. by apply H64; left.
  - unfold set_free. rewrite load8_store8, decide_True by done. by destruct v.
  - rewrite H64 by lia. apply (seg_ext m); [done|]. intros c x Hc ?. apply Hx. pose proof (Hl c Hc). lia.
Qed.

Lemma laid_mark lo b l hi v : laid lo (b :: l) hi → laid lo (mark v b :: l) hi.
Proof. done. Qed.

(** *** The search of malloc *)

Definition used (l : list block) (b : block) : Prop := b ∈ l ∧ b_free b = false.

(** Bytes of blocks in use, with their headers. *)
Definition prot (l : list block) (x : Z) : Prop := ∃ b, used l b ∧ b_addr b ≤ x < b_end b.

Definition first (l : list block) (hi : Z) : Z := match l with b :: _ => b_addr b | [] => hi end.

(** Taking the block [b] at the front of the list. *)
Lemma take_spec m b l size lo hi fuel :
  seg m (b_addr b) (b :: l) 0 → laid lo (b :: l) hi → 0 < lo → hi ≤ USER_SPACE_TOP → 0 ≤ size ≤ b_size b → (length l ≤ fuel)%nat →
  ∃ m1, coalesce fuel (b_addr b) m = Ret m1 ∧ size ≤ blk_size m1 (b_addr b) ∧
    (let m2 := set_free (b_addr b) false (split (b_addr b) size m1) in
     let l2 := mark_head false (asplit_head size (acoalesce b l)) in
     seg m2 (b_addr b) l2 0 ∧ laid lo l2 hi ∧
     ∀ x, prot l x ∨ x < b_addr b ∨ hi ≤ x → load8 m2 x = load8 m x).
Proof.
  intros Hs Hl Hlo Hhi Hsz Hf. destruct (coalesce_spec l fuel b m lo hi Hs Hl Hlo Hhi Hf) as (m1 & Hrun & Hs1 & Hx1).
  destruct (acoalesce_shape b l) as (mid & rest & n & El & Hmid & Ea & HL). destruct (HL lo hi Hl) as [Hl1 Hn]. rewrite Ea in Hs1, Hl1 |- *.
  set (b' := mkBlock (b_addr b) n (b_free b)) in *. exists m1. split; [exact Hrun|].
  destruct (seg_free _ _ _ _ _ Hs1) as (_ & _ & Esz & _). split; [rewrite Esz; cbn; lia|]. cbv zeta.
  destruct (split_spec m1 b' rest size lo hi Hs1 Hl1 Hlo Hhi ltac:(cbn; lia)) as (Hs2 & Hl2 & Hx2). cbn [b_addr b'] in Hs2, Hx2.
  cbn [asplit_head]. assert (∃ c r2, asplit b' size rest = c :: r2 ∧ b_addr c = b_addr b) as (c & r2 & E2 & Hc)
    by (unfold asplit; case_match; eauto). rewrite E2 in Hs2, Hl2 |- *. cbn [mark_head]. split_and!.
  - apply seg_mark; [done|]. destruct Hl2 as (_ & ? & Hl2). intros d Hd. destruct (laid_in _ _ _ _ Hl2 Hd) as [Hd1 _].
    unfold b_end in Hd1. unfold HEADER_SIZE in *. lia.
  - by apply laid_mark.
  - assert (laid (b_end b') rest hi) as Hlr by apply Hl1. pose proof (laid_le _ _ _ Hlr) as Hle.
    intros x Hx. assert (x < b_addr b ∨ b_end b' ≤ x) as Hout.
    { destruct Hx as [(d & [Hd Hdu] & Hdx)|[Hx|Hx]]; [|lia|lia]. right. rewrite El in Hd. apply elem_of_app in Hd as [Hd|Hd].
      - rewrite Forall_forall in Hmid. by rewrite (Hmid d Hd) in Hdu.
      - destruct (laid_in _ _ _ _ Hlr Hd). lia. }
    destruct Hl1 as (_ & Hn0 & _). unfold b_end, HEADER_SIZE in *. cbn in Hout, Hn0.
    rewrite load8_set_free by (unfold HEADER_SIZE; lia). rewrite Hx2 by (cbn; unfold HEADER_SIZE; lia). apply Hx1. unfold HEADER_SIZE. lia.
Qed.

Lemma prot_cons_inv b l x : prot (b :: l) x → (b_free b = false ∧ b_addr b ≤ x < b_end b) ∨ prot l x.
Proof. intros (c & [[->|Hc]%elem_of_cons Hu] & Hx); [by left|]. right. by exists c. Qed.

Lemma malloc_loop_spec size cfuel l : ∀ fuel cur m lo hi,
  seg m cur l 0 → laid lo l hi → 0 < lo → hi ≤ USER_SPACE_TOP → 0 ≤ size → (length l ≤ fuel)%nat → (length l ≤ cfuel)%nat →
  ∃ m', malloc_loop fuel cfuel size cur m = Ret ((λ r, r.1 +64 HEADER_SIZE) <$> afind size l, m') ∧
    match afind size l with
    | None => m' = m
    | Some (a, l') => seg m' cur l' 0 ∧ laid lo l' hi ∧ ∀ x, prot l x ∨ x < first l hi ∨ hi ≤ x → load8 m' x = load8 m x
    end.
Proof.
  induction l as [|b l IH]; intros fuel cur m lo hi Hs Hl Hlo Hhi Hsz Hf Hcf.
  { cbn in Hs. subst cur. exists m. by destruct fuel. }
  destruct (seg_free _ _ _ _ _ Hs) as (-> & Efr & Esz & Hs2). destruct fuel as [|fuel]; [cbn in Hf; lia|].
  pose proof (proj1 Hl) as Hl1. cbn [malloc_loop afind]. destruct (Z.eqb_spec (b_addr b) 0) as [?|_]; [lia|]. rewrite Efr, Esz.
  cbn in Hf, Hcf. destruct (b_free b && (size <=? b_size b)) eqn:Et.
  - apply andb_prop in Et as [Eb Ele%Z.leb_le].
    destruct (take_spec m b l size lo hi cfuel Hs Hl Hlo Hhi ltac:(lia) ltac:(lia)) as (m1 & -> & Hle & Hs' & Hl' & Hx').
    cbn [obind]. destruct (Z.leb_spec size (blk_size m1 (b_addr b))); [|lia]. eexists. split; [reflexivity|]. cbn. split_and!; [done..|].
    intros x Hx. apply Hx'. destruct Hx as [[[? _]|?]%prot_cons_inv|?]; [congruence|tauto..].
  - destruct Hl as (_ & Hb0 & Hl3). destruct (IH fuel _ m (b_end b) hi Hs2 Hl3) as (m' & Hrun & Hres); [unfold b_end, HEADER_SIZE; lia|done|done|lia|lia|].
    exists m'. rewrite Hrun. destruct (afind size l) as [[a l']|]; cbn [fmap option_fmap option_map mbind option_bind fst snd first]; [|done]. split; [done|]. destruct Hres as (Hs' & Hl' & Hx').
    pose proof (laid_le _ _ _ Hl') as Hle'.
    assert (b_end b ≤ first l hi) as Hfst by (destruct l; [done|apply Hl3]).
    assert (∀ x, prot (b :: l) x ∨ x < b_addr b ∨ hi ≤ x → load8 m' x = load8 m x) as Hx.
    { intros x Hx. apply Hx'. unfold b_end, HEADER_SIZE in *. destruct Hx as [[[_ ?]|?]%prot_cons_inv|?]; [right; left; unfold b_end, HEADER_SIZE in *; lia|by left|right; lia]. }
    split; [|split; [by split_and!|exact Hx]].
    assert (∀ x, b_addr b ≤ x < b_addr b + HEADER_SIZE → load8 m' x = load8 m x) as Hh.
    { intros x ?. apply Hx'. unfold b_end, HEADER_SIZE in *. right. left. lia. }
    cbn [seg]. destruct Hs as (_ & <- & <- & _). unfold HEADER_SIZE in Hh.
    split_and!; [done|apply load_le_ext; intros; apply Hh; lia|apply Hh; lia|].
    replace (load64 m' (b_addr b + 16)) with (load64 m (b_addr b + 16)); [done|]. symmetry. apply load_le_ext. intros. apply Hh. lia.
Qed.

(** First fit takes a free block and leaves the blocks in use alone. *)
Lemma afind_used size l : ∀ a l' lo hi, laid lo l hi → 0 ≤ size → afind size l = Some (a, l') →
  ∃ n b, size ≤ n ∧ b ∈ l ∧ b_free b = true ∧ b_addr b = a ∧ ∀ c, used l' c ↔ used l c ∨ c = mkBlock a n false.
Proof.
  induction l as [|b l IH]; intros a l' lo hi Hl Hsz; cbn [afind]; [done|].
  destruct (b_free b && (size <=? b_size b)) eqn:Et.
  - intros [= <- <-]. apply andb_prop in Et as [Eb Ele%Z.leb_le].
    destruct (acoalesce_shape b l) as (mid & rest & n & -> & Hmid & -> & HL). destruct (HL lo hi Hl) as [_ Hn]. rewrite Forall_forall in Hmid.
    assert (∃ n' tl, mark_head false (asplit_head size (mkBlock (b_addr b) n (b_free b) :: rest)) = mkBlock (b_addr b) n' false :: tl ∧
      size ≤ n' ∧ ∀ c, used tl c ↔ used rest c) as (n' & tl & -> & Hn' & Htl).
    { cbn [asplit_head]. unfold asplit. cbn [b_size b_addr b_free]. case_match; cbn; do 2 eexists; (split; [reflexivity|]); (split; [cbn; lia|]); [done|].
      intros c. unfold used. rewrite elem_of_cons. split; [intros [[->|?] ?]; done|tauto]. }
    exists n', b. split_and!; [done|by left|done|done|]. intros c. specialize (Htl c). unfold used in *. rewrite !elem_of_cons, elem_of_app.
    split.
    + intros [[->|Hc] Hu]; [by right|]. left. split; [tauto|done].
    + intros [[[-> | [Hc|Hc]] Hu] | ->]; [congruence|by rewrite (Hmid c Hc) in Hu| |by split; [left|]]. split; [right; apply Htl; done|done].
  - destruct (afind size l) as [[a2 l2]|] eqn:Ef; cbn; [|done]. intros [= <- <-]. destruct Hl as (_ & _ & Hl3).
    destruct (IH a2 l2 _ _ Hl3 Hsz eq_refl) as (n & b2 & Hn & Hb & Hfr & Ha & Hu). exists n, b2. split_and!; [done|by right|done|done|].
    intros c. specialize (Hu c). unfold used in *. rewrite !elem_of_cons. split; [intros [[->|Hc] Hcu]; [tauto|]|]; naive_solver.
Qed.

Lemma laid_length lo l hi : laid lo l hi → HEADER_SIZE * Z.of_nat (length l) ≤ hi - lo.
Proof.
  revert lo. induction l as [|b l IH]; intros lo; cbn [laid length]; [lia|]. intros (? & ? & H3%IH). unfold b_end, HEADER_SIZE in *. lia.
Qed.

(** Two blocks of the list with a byte in common are the same. *)
Lemma laid_disjoint lo l hi b c x :
  laid lo l hi → b ∈ l → c ∈ l → b_addr b ≤ x < b_end b → b_addr c ≤ x < b_end c → b = c.
Proof.
  revert lo. induction l as [|d l IH]; intros lo; [by intros _ ?%not_elem_of_nil|]. intros (_ & _ & Hl) Hb Hc Hbx Hcx.
  apply elem_of_cons in Hb as [->|Hb], Hc as [->|Hc]; [done| | |by eapply IH].
  - destruct (laid_in _ _ _ _ Hl Hc). lia.
  - destruct (laid_in _ _ _ _ Hl Hb). lia.
Qed.

(** ** The invariant *)

Section MallocThms.
Context {K : Type} `{MS : MmapService K}.
Implicit Types s : um_state K.

Record um_inv s (l : list block) : Prop := {
  ui_seg : seg (um_mem s) (um_head s) l 0;
  ui_laid : laid 1 l (Z.max 1 (um_heap_ptr s));
  ui_ptr : 0 ≤ um_heap_ptr s ≤ um_heap_end s;
  ui_top : 0 < mm_top (um_kern s) ≤ USER_SPACE_TOP ∧ um_heap_end s ≤ mm_top (um_kern s);
}.

(** Where the heap starts, or will start. *)
Definition heap_low s (l : list block) : Z := first l (if um_heap_ptr s =? 0 then mm_top (um_kern s) else um_heap_ptr s).

(** The payload of blocks in use, and memory outside the heap. *)
Definition program_byte s (l : list block) s' (x : Z) : Prop :=
  (∃ b, used l b ∧ b_addr b + HEADER_SIZE ≤ x < b_end b) ∨ x < heap_low s l ∨ mm_top (um_kern s') ≤ x.

Lemma list_fuel_enough s l : um_inv s l → (length l ≤ list_fuel s)%nat.
Proof.
  intros [Hs Hl Hp Ht]. unfold list_fuel, HEADER_SIZE. destruct l as [|b l]; [cbn; lia|].
  assert (um_head s = b_addr b) as -> by apply Hs. pose proof (laid_length (b_addr b) (b :: l) (Z.max 1 (um_heap_ptr s))) as Hlen.
  destruct Hl as (H1 & H2 & H3). pose proof (laid_le _ _ _ H3). specialize (Hlen ltac:(cbn [laid]; split_and!; [lia|done|done])). unfold b_end, HEADER_SIZE in *.
  assert (Z.of_nat (length (b :: l)) ≤ (um_heap_end s - b_addr b) / 24) by (apply Z.div_le_lower_bound; lia). lia.
Qed.

Lemma sbrk_spec s l total :
  um_inv s l → 0 < total → mm_top (um_kern s) + total + 8192 ≤ USER_SPACE_TOP →
  safe (sbrk total s) ∧ ∀ p s', sbrk total s = Ret (p, s') →
    Z.max 1 (um_heap_ptr s) ≤ p ∧ heap_low s l ≤ p ∧ um_heap_ptr s' = p + total ∧ p + total ≤ um_heap_end s' ≤ mm_top (um_kern s') ∧
    mm_top (um_kern s) ≤ mm_top (um_kern s') ≤ USER_SPACE_TOP ∧ um_head s' = um_head s ∧
    ∀ x, ¬ (p ≤ x < mm_top (um_kern s')) → load8 (um_mem s') x = load8 (um_mem s) x.
Proof.
  intros [Hs Hl Hp [Ht Hte]] Htot Hroom. unfold sbrk. rewrite !bind_gets. unfold USER_SPACE_TOP in *.
  rewrite (u64_small (um_heap_ptr s + total)) by lia.
  assert (first l (um_heap_ptr s) ≤ Z.max 1 (um_heap_ptr s)) as Hlow.
  { destruct l as [|b l]; cbn [first]; [lia|]. destruct (laid_in _ _ _ b Hl) as (_ & ? & ?); [by left|]. unfold b_end, HEADER_SIZE in *. lia. }
  destruct ((um_heap_ptr s =? 0) || (um_heap_end s <? um_heap_ptr s + total)) eqn:Ec.
  - rewrite (u64_small (total + 4096)) by lia.
    assert (0 < total + 4096 ∧ mm_top (um_kern s) + (total + 4096) + 4096 ≤ USER_SPACE_TOP) as [H1 H2] by (unfold USER_SPACE_TOP; lia).
    pose proof (mmap_safe (um_kern s) (um_mem s) (total + 4096) (proj1 Ht) H1 H2) as Hsafe.
    unfold bind, zoom, modify, gets, ret. destruct (mmap 0 (total + 4096) (um_kern s, um_mem s)) as [[a [k' m']]| | |] eqn:Em; try done.
    destruct (mmap_ok _ _ _ _ _ _ (proj1 Ht) H1 H2 Em) as (-> & Htop & Hx).
    cbn [um_heap_ptr um_heap_end set_heap put_kern um_kern fst snd]. rewrite (u64_small (_ + 4096)), !(u64_small (_ + total)) by (rewrite ?(u64_small (_ + total)) by lia; lia). split; [done|]. intros p s' [= <- <-]. cbn.
    split_and!; try lia; [|exact Hx]. unfold heap_low. destruct (Z.eqb_spec (um_heap_ptr s) 0) as [E0|]; [|lia].
    destruct l as [|b l]; cbn [first] in *; lia.
  - apply orb_false_iff in Ec as [E0%Z.eqb_neq Ee%Z.ltb_ge]. rewrite bind_ret, bind_gets, bind_modify. cbn. rewrite u64_small by lia.
    split; [done|]. intros p s' [= <- <-]. cbn. split_and!; try lia; try done.
    unfold heap_low. destruct (Z.eqb_spec (um_heap_ptr s) 0); [lia|]. lia.
Qed.

Lemma last_block_spec m l : ∀ fuel b lo hi,
  seg m (b_addr b) (b :: l) 0 → laid lo (b :: l) hi → 0 < lo → (length l ≤ fuel)%nat →
  ∃ pre c, b :: l = pre ++ [c] ∧ last_block fuel m (b_addr b) = Ret (b_addr c).
Proof.
  induction l as [|b2 l IH]; intros fuel b lo hi Hs Hl Hlo Hf.
  - exists [], b. split; [done|]. destruct (seg_free _ _ _ _ _ Hs) as (_ & _ & _ & Hn). cbn [seg] in Hn. destruct fuel; cbn [last_block]; by rewrite Hn.
  - destruct (seg_free _ _ _ _ _ Hs) as (_ & _ & _ & Hs2). destruct (seg_free _ _ _ _ _ Hs2) as (En & _). rewrite En in Hs2.
    destruct Hl as (H1 & H2 & H3). pose proof (proj1 H3) as H4. destruct fuel as [|fuel]; [cbn in Hf; lia|]. unfold b_end, HEADER_SIZE in *.
    destruct (IH fuel b2 _ hi Hs2 H3 ltac:(lia) ltac:(cbn in Hf; lia)) as (pre & c & El & Hrun).
    exists (b :: pre), c. split; [by rewrite El|]. cbn [last_block]. rewrite En. destruct (Z.eqb_spec (b_addr b2) 0); [lia|done].
Qed.

(** Appending a block behind the last one. *)
Lemma seg_append m p pre c nb :
  seg m p (pre ++ [c]) 0 → seg m (b_addr nb) [nb] 0 → laid 1 (pre ++ [c; nb]) USER_SPACE_TOP →
  seg (set_next (b_addr c) (b_addr nb) m) p (pre ++ [c; nb]) 0.
Proof.
  intros Hs Hn Hl. apply seg_app in Hs as (r & Hs1 & Hs2). destruct Hs2 as (-> & H1 & H2 & _). unfold USER_SPACE_TOP in Hl.
  apply laid_app in Hl as (mid & Hl1 & Hc1 & Hc2 & Hn1 & Hn2 & Hn3). pose proof (laid_le _ _ _ Hl1). unfold b_end, HEADER_SIZE in *. cbn [laid] in Hn3.
  apply seg_app. exists (b_addr c). split.
  - apply (seg_ext m); [done|]. intros d x Hd Hx. destruct (laid_in _ _ _ _ Hl1 Hd) as (_ & ? & ?). unfold b_end, HEADER_SIZE in *.
    apply load8_set_next. unfold HEADER_SIZE. lia.
  - split; [done|]. unfold set_next. rewrite load64_store64_ne, load64_store64_eq by lia. split; [done|]. split.
    + rewrite <- H2. unfold store64. by rewrite load8_store_le, decide_False by lia.
    + apply (seg_ext m); [done|]. intros d x ->%list_elem_of_singleton Hx. unfold HEADER_SIZE in *. unfold store64. by rewrite load8_store_le, decide_False by lia.
Qed.

(** Program bytes are outside every header of the list. *)
Lemma program_byte_header s l s' x c :
  um_inv s l → mm_top (um_kern s) ≤ mm_top (um_kern s') → program_byte s l s' x → c ∈ l → ¬ (b_addr c ≤ x < b_addr c + HEADER_SIZE).
Proof.
  intros [Hs Hl Hp Ht] Htop Hx Hc Hh. destruct (laid_in _ _ _ _ Hl Hc) as (Hc1 & Hc2 & Hc3). unfold b_end, HEADER_SIZE in *.
  destruct Hx as [(b & [Hb Hu] & Hbx)|[Hx|Hx]]; [|destruct l as [|d l]; [by apply not_elem_of_nil in Hc|]|lia].
  - assert (b = c) as -> by (apply (laid_disjoint _ _ _ b c x Hl Hb Hc); unfold b_end, HEADER_SIZE in *; lia). unfold b_end, HEADER_SIZE in *. lia.
  - unfold heap_low in Hx. cbn [first] in Hx. apply elem_of_cons in Hc as [->|Hc]; [lia|]. destruct Hl as (_ & ? & Hl).
    destruct (laid_in _ _ _ _ Hl Hc). unfold b_end, HEADER_SIZE in *. lia.
Qed.

Lemma new_header m blk size :
  0 ≤ size < W64 → seg (set_next blk 0 (set_free blk false (set_size blk size m))) blk [mkBlock blk size false] 0.
Proof.
  intros Hsz. apply (seg_ext (set_next blk 0 (set_size blk size (set_free blk false m)))).
  - apply seg_write; [lia|lia| |done|by intros ? ?%not_elem_of_nil]. unfold set_free. by rewrite load8_store8, decide_True.
  - intros c x _ _. unfold set_next, set_size, set_free, store64. rewrite !load8_store_le, !load8_store8, !load8_store_le. repeat case_decide; try done; lia.
Qed.

(** The walk to the last block has enough fuel once the heap has grown. *)
Lemma walk_fuel s b l hi : um_head s = b_addr b → laid 1 (b :: l) hi → hi ≤ um_heap_end s → (length l ≤ list_fuel s)%nat.
Proof.
  intros Eh Hl Hhi. unfold list_fuel. rewrite Eh. pose proof (laid_length (b_addr b) (b :: l) hi) as HL.
  specialize (HL ltac:(split; [lia|apply Hl])). unfold HEADER_SIZE in *. cbn [length] in HL.
  assert (Z.of_nat (length l) ≤ (um_heap_end s - b_addr b) / 24) by (apply Z.div_le_lower_bound; lia). lia.
Qed.

Lemma extend_heap_spec s l size :
  um_inv s l → 0 ≤ size → mm_top (um_kern s) + size + 16384 ≤ USER_SPACE_TOP →
  wp (extend_heap size s) (λ blk s', 0 < blk ∧ Z.max 1 (um_heap_ptr s) ≤ blk ∧ um_inv s' (l ++ [mkBlock blk size false]) ∧
    mm_top (um_kern s) ≤ mm_top (um_kern s') ∧ heap_low s l ≤ heap_low s' (l ++ [mkBlock blk size false]) ∧
    ∀ x, program_byte s l s' x → load8 (um_mem s') x = load8 (um_mem s) x).
Proof.
  intros Hinv Hsz Hroom. pose proof Hinv as [Hs Hl Hp [Ht Hte]]. unfold USER_SPACE_TOP in *. unfold extend_heap, HEADER_SIZE. cbv zeta.
  rewrite (u64_small (24 + size)) by lia.
  destruct (sbrk_spec s l (24 + size) Hinv ltac:(lia) ltac:(unfold USER_SPACE_TOP; lia)) as [Hsafe Hsb].
  apply wp_bind. apply wp_safe; [done|]. intros blk s1 Hrun. destruct (Hsb _ _ Hrun) as (Hblk & Hlow & Ehp & Ehe & Htop & Ehd & Hx1). unfold USER_SPACE_TOP in *.
  destruct (Z.eqb_spec blk 0) as [?|_]; [lia|]. unfold edit. do 3 (rewrite bind_modify; cbn [um_mem set_um_mem]). rewrite bind_gets. cbn [um_head set_um_mem]. rewrite Ehd.
  set (nb := mkBlock blk size false). set (m2 := set_next blk 0 (set_free blk false (set_size blk size (um_mem s1)))).
  assert (∀ x, ¬ (blk ≤ x < mm_top (um_kern s1)) → load8 m2 x = load8 (um_mem s) x) as Hx2.
  { intros x Hx. unfold m2. rewrite load8_set_next, load8_set_free, load8_set_size by (unfold HEADER_SIZE; lia). by apply Hx1. }
  assert (seg m2 blk [nb] 0) as Hnb by (apply new_header; lia).
  assert (laid 1 (l ++ [nb]) (blk + (24 + size))) as Hl2.
  { apply laid_app. exists (Z.max 1 (um_heap_ptr s)). split; [done|]. cbn. unfold b_end, HEADER_SIZE. cbn. lia. }
  assert (seg m2 (um_head s) l 0) as Hsl.
  { apply (seg_ext (um_mem s)); [done|]. intros c x Hc Hx. destruct (laid_in _ _ _ _ Hl Hc) as (? & ? & ?). unfold b_end, HEADER_SIZE in *. apply Hx2. lia. }
  assert (∀ x s', mm_top (um_kern s') = mm_top (um_kern s1) → program_byte s l s' x → ¬ (blk ≤ x < mm_top (um_kern s1))) as Hpb.
  { intros x s' Es' [(b & [Hb _] & Hbx)|[Hx|Hx]]; [destruct (laid_in _ _ _ _ Hl Hb)|..]; lia. }
  assert (∀ s', um_heap_ptr s' = um_heap_ptr s1 → heap_low s l ≤ heap_low s' (l ++ [nb])) as Hlw.
  { intros s' Es'. unfold heap_low in *. destruct l; cbn [first app] in *; [unfold nb; cbn|]; lia. }
  destruct l as [|b l].
  - cbn in Hs. rewrite Hs. apply wp_bind. cbn [Z.eqb wp modify ret]. split_and!; [lia|lia| |cbn; lia|by apply Hlw|].
    + split; cbn [um_mem set_um_head set_um_mem um_head um_heap_ptr um_heap_end um_kern]; [exact Hnb|rewrite Ehp, Z.max_r by lia; exact Hl2|lia|unfold USER_SPACE_TOP; lia].
    + intros x Hx. apply Hx2. by eapply Hpb; [|exact Hx].
  - assert (um_head s = b_addr b) as Eh by apply Hs. rewrite Eh in *. destruct (Z.eqb_spec (b_addr b) 0) as [?|_]; [pose proof (proj1 Hl); lia|].
    pose proof (walk_fuel (set_um_mem m2 s1) b l _ ltac:(by cbn; rewrite Ehd) Hl ltac:(cbn; lia)) as Hfuel.
    destruct (last_block_spec m2 l _ b 1 _ Hsl Hl ltac:(lia) Hfuel) as (pre & c & El & Hlast). fold m2.
    apply wp_bind. rewrite !bind_gets. cbn [um_mem set_um_mem] in *. rewrite (bind_lift _ _ _ _ Hlast). cbn [wp modify ret].
    assert (pre ++ [c; nb] = (b :: l) ++ [nb]) as Eapp by (rewrite El, <- app_assoc; done).
    split_and!; [lia|lia| |cbn; lia|by apply Hlw|].
    + split; cbn [um_mem set_um_head set_um_mem um_head um_heap_ptr um_heap_end um_kern]; [|rewrite Ehp, Z.max_r by lia; exact Hl2|lia|unfold USER_SPACE_TOP; lia].
      assert (laid 1 (pre ++ [c; nb]) USER_SPACE_TOP) as HL by (rewrite Eapp; eapply laid_weaken; [exact Hl2|lia|unfold USER_SPACE_TOP; lia]).
      pose proof (seg_append m2 (b_addr b) pre c nb ltac:(by rewrite <- El) Hnb HL) as HS. rewrite Eapp in HS. rewrite Ehd. exact HS.
    + intros x Hx. cbn [um_mem set_um_mem]. rewrite load8_set_next; [apply Hx2; by eapply Hpb; [|exact Hx]|].
      eapply program_byte_header; [exact Hinv| |exact Hx|rewrite El; apply elem_of_app; right; by left]. cbn. lia.
Qed.

(** What malloc promises: a block of at least the requested size, apart from all
    blocks in use, which stay in use with their contents; memory outside the heap is
    not touched; the heap grows only when no free block fits. *)
Record malloc_post s (l : list block) (size p : Z) s' (l' : list block) (n : Z) : Prop := {
  mp_inv : um_inv s' l';
  mp_size : size ≤ n;
  mp_ptr : HEADER_SIZE < p;
  mp_used : ∀ c, used l' c ↔ used l c ∨ c = mkBlock (p - HEADER_SIZE) n false;
  mp_apart : ∀ c x, used l c → b_addr c ≤ x < b_end c → ¬ (p - HEADER_SIZE ≤ x < p + n);
  mp_top : mm_top (um_kern s) ≤ mm_top (um_kern s');
  mp_low : heap_low s l ≤ heap_low s' l';
  mp_frame : ∀ x, program_byte s l s' x → load8 (um_mem s') x = load8 (um_mem s) x;
  mp_reuse : (∃ b, b ∈ l ∧ b_free b = true ∧ size + 7 ≤ b_size b) → um_kern s' = um_kern s ∧ um_heap_ptr s' = um_heap_ptr s;
}.

Lemma round8 size : 0 ≤ size < W64 - 7 → Z.land (size +64 7) (not64 7) = (size + 7) / 8 * 8 ∧ size ≤ (size + 7) / 8 * 8 ≤ size + 7.
Proof.
  intros Hs. rewrite u64_small by lia. change 7 with (Z.ones 3) at 2. rewrite land_not_ones by lia. change (2 ^ 3) with 8.
  pose proof (Z.div_mod (size + 7) 8 ltac:(lia)). pose proof (Z.mod_pos_bound (size + 7) 8 ltac:(lia)). lia.
Qed.

Lemma afind_none size l b : afind size l = None → b ∈ l → b_free b = true → b_size b < size.
Proof.
  induction l as [|c l IH]; [by intros _ ?%not_elem_of_nil|]. cbn [afind]. destruct (b_free c && (size <=? b_size c)) eqn:E; [done|].
  destruct (afind size l) as [[??]|]; [done|]. intros _ [->|Hb]%elem_of_cons Hf; [|by apply IH]. rewrite Hf in E. by apply Z.leb_gt in E.
Qed.

(** The search succeeds: the list changes, nothing else does. *)
Lemma malloc_found s l size r a l' m' :
  um_inv s l → 0 < size ≤ r → afind r l = Some (a, l') → seg m' (um_head s) l' 0 → laid 1 l' (Z.max 1 (um_heap_ptr s)) →
  (∀ x, prot l x ∨ x < first l (Z.max 1 (um_heap_ptr s)) ∨ Z.max 1 (um_heap_ptr s) ≤ x → load8 m' x = load8 (um_mem s) x) →
  0 < a < USER_SPACE_TOP ∧ ∃ n, malloc_post s l size (a + HEADER_SIZE) (set_um_mem m' s) l' n.
Proof.
  intros [Hs Hl Hp Ht] Hsz Hf Hs' Hl' Hx. destruct (afind_used r l a l' _ _ Hl ltac:(lia) Hf) as (n & b & Hn & Hb & Hbf & <- & Hu).
  destruct (laid_in _ _ _ _ Hl Hb) as (Hb1 & Hb2 & Hb3). unfold b_end, HEADER_SIZE in Hb3. pose proof Ht as [Ht1 Ht2]. unfold USER_SPACE_TOP in *.
  split; [lia|]. exists n. assert (b_addr b + HEADER_SIZE - HEADER_SIZE = b_addr b) as Ea by lia.
  assert (∃ d dl, l = d :: dl) as (d & dl & El) by (destruct l; [by apply not_elem_of_nil in Hb|eauto]).
  split; cbn [um_kern set_um_mem um_heap_ptr um_mem]; rewrite ?Ea; try done; try lia.
  - intros c x Hc Hcx Hax. assert (c = mkBlock (b_addr b) n false) as Ec.
    { apply (laid_disjoint _ _ _ _ _ x Hl'); [by apply (Hu c); left|by apply (Hu (mkBlock _ n false)); right|done|].
      unfold b_end. cbn. lia. }
    assert (c = b) as -> by (apply (laid_disjoint _ _ _ c b (b_addr b) Hl); [apply Hc|done|..]; rewrite ?Ec; unfold b_end, HEADER_SIZE; cbn; lia).
    destruct Hc as [_ Hc]. congruence.
  - unfold heap_low. cbn [um_heap_ptr set_um_mem um_kern]. rewrite El in Hs |- *. cbn [first]. assert (um_head s = b_addr d) as Eh by apply Hs.
    destruct l' as [|e l']; cbn [first]; [|destruct Hs' as [<- _]; lia].
    exfalso. apply (not_elem_of_nil (mkBlock (b_addr b) n false)). by apply (Hu (mkBlock (b_addr b) n false)); right.
  - intros x [(c & Hc & Hcx)|[Hxl|Hxt]]; apply Hx.
    + left. exists c. unfold HEADER_SIZE in *. split; [done|lia].
    + right. left. unfold heap_low in Hxl. rewrite El in *. done.
    + right. right. cbn in Hxt. lia.
Qed.

Lemma malloc_wp s l size :
  um_inv s l → 0 < size → mm_top (um_kern s) + size + 20000 ≤ USER_SPACE_TOP →
  wp (malloc size s) (λ p s', ∃ l' n, malloc_post s l size p s' l' n).
Proof.
  intros Hinv Hsz Hroom. pose proof Hinv as [Hs Hl Hp Ht]. pose proof Ht as [Ht1 Ht2]. unfold malloc.
  destruct (Z.eqb_spec size 0) as [?|_]; [lia|]. cbv zeta.
  destruct (round8 size) as [-> Hr]; [unfold USER_SPACE_TOP in *; lia|]. set (r := (size + 7) / 8 * 8) in *.
  rewrite !bind_gets. pose proof (list_fuel_enough s l Hinv) as Hfuel.
  destruct (malloc_loop_spec r (list_fuel s) l (list_fuel s) (um_head s) (um_mem s) 1 (Z.max 1 (um_heap_ptr s)) Hs Hl) as (m' & Hrun & Hres);
    [lia|unfold USER_SPACE_TOP in *; lia|lia|done|done|].
  unfold on_mem. rewrite (bind_Ret _ _ _ _ _ (zoom_Ret um_mem set_um_mem _ _ _ _ Hrun)).
  destruct (afind r l) as [[a l']|] eqn:Ef; cbn [fmap option_fmap option_map fst].
  - destruct Hres as (Hs' & Hl' & Hx). destruct (malloc_found s l size r a l' m' Hinv ltac:(lia) Ef Hs' Hl' Hx) as (Ha & n & Hpost).
    unfold USER_SPACE_TOP, HEADER_SIZE in *. rewrite u64_small by lia. exists l', n. exact Hpost.
  - subst m'. assert (set_um_mem (um_mem s) s = s) as -> by (by destruct s). apply wp_bind.
    eapply wp_mono; [apply (extend_heap_spec s l r Hinv); [lia|lia]|]. intros blk s' (Hb0 & Hb1 & Hinv' & Htop & Hlow & Hfr).
    destruct (Z.eqb_spec blk 0) as [?|_]; [lia|]. exists (l ++ [mkBlock blk r false]), r.
    destruct (laid_in _ _ _ (mkBlock blk r false) (ui_laid _ _ Hinv')) as (_ & _ & Hend); [apply elem_of_app; right; by left|].
    pose proof (ui_top _ _ Hinv'). pose proof (ui_ptr _ _ Hinv'). unfold b_end, USER_SPACE_TOP, HEADER_SIZE in *. cbn in Hend.
    rewrite u64_small by lia. assert (blk + 24 - 24 = blk) as Eb by lia.
    split; unfold HEADER_SIZE; rewrite ?Eb; try done; try lia.
    + intros c. unfold used. rewrite elem_of_app, list_elem_of_singleton. naive_solver.
    + intros c x [Hc _] Hcx. destruct (laid_in _ _ _ _ Hl Hc). lia.
    + intros (b & Hb & Hbf & Hbs). pose proof (afind_none _ _ _ Ef Hb Hbf). lia.
Qed.

(** *** Changes in the middle of the list *)

Lemma seg_in m p l b : seg m p l 0 → b ∈ l → blk_size m (b_addr b) = b_size b ∧ ∃ pre post, l = pre ++ b :: post ∧ seg m (b_addr b) (b :: post) 0.
Proof.
  intros Hs (pre & post & ->)%list_elem_of_split. pose proof Hs as (r & _ & Hs2)%seg_app. destruct (seg_free _ _ _ _ _ Hs2) as (-> & _ & Hsz & _).
  split; [done|]. by exists pre, post.
Qed.

(** A block's place in the list, and what replacing the list from there on does. *)
Record at_block s (l pre : list block) (c : block) (post : list block) : Prop := {
  ab_list : l = pre ++ c :: post;
  ab_seg : seg (um_mem s) (b_addr c) (c :: post) 0;
  ab_mid : ∃ mid, 1 ≤ mid ∧ laid 1 pre mid ∧ laid mid (c :: post) (Z.max 1 (um_heap_ptr s));
}.

Lemma at_block_intro s l c : um_inv s l → c ∈ l → ∃ pre post, at_block s l pre c post.
Proof.
  intros [Hs Hl _ _] Hc. destruct (seg_in _ _ _ _ Hs Hc) as (_ & pre & post & -> & Hsc). exists pre, post. split; [done|done|].
  apply laid_app in Hl as (mid & H1 & H2). exists mid. by pose proof (laid_le _ _ _ H1).
Qed.

Lemma replace_inv s l pre c post newl m' :
  um_inv s l → at_block s l pre c post → seg m' (b_addr c) newl 0 →
  (∀ mid, laid mid (c :: post) (Z.max 1 (um_heap_ptr s)) → laid mid newl (Z.max 1 (um_heap_ptr s))) →
  (∀ x, x < b_addr c → load8 m' x = load8 (um_mem s) x) →
  um_inv (set_um_mem m' s) (pre ++ newl) ∧ heap_low (set_um_mem m' s) (pre ++ newl) = heap_low s l.
Proof.
  intros [Hs Hl Hp Ht] [-> Hsc (mid & Hm & H1 & H2)] Hn Hln Hx. split.
  - split; cbn [um_mem set_um_mem um_head um_heap_ptr um_heap_end um_kern]; try done.
    + apply seg_app in Hs as (r & Hs1 & Hs2). destruct Hs2 as [-> _]. apply seg_app. exists (b_addr c). split; [|done].
      apply (seg_ext (um_mem s)); [done|]. intros d x Hd Hdx. apply Hx. destruct (laid_in _ _ _ _ H1 Hd) as (_ & ? & ?).
      pose proof (proj1 H2). unfold b_end in *. lia.
    + apply laid_app. exists mid. split; [done|by apply Hln].
  - unfold heap_low. cbn [um_heap_ptr set_um_mem um_kern]. destruct pre; [|done]. cbn [app first].
    destruct newl as [|d newl]; cbn [first]; [|by destruct Hn]. cbn in Hn. pose proof (proj1 H2). lia.
Qed.

Lemma used_replace s l pre c post newl (Q : block → Prop) :
  at_block s l pre c post → (∀ d, used newl d ↔ used post d ∨ Q d) → ∀ d, used (pre ++ newl) d ↔ (used l d ∧ d ≠ c) ∨ Q d.
Proof.
  intros [-> _ (mid & Hm & H1 & H2)] Hn d. specialize (Hn d). unfold used in *. rewrite !elem_of_app, elem_of_cons.
  assert (d ∈ pre → d ≠ c) as Hd1.
  { intros Hd ->. destruct (laid_in _ _ _ _ H1 Hd) as (_ & ? & ?). pose proof (proj1 H2). unfold b_end, HEADER_SIZE in *. lia. }
  assert (d ∈ post → d ≠ c) as Hd2.
  { intros Hd ->. destruct H2 as (_ & ? & H2). destruct (laid_in _ _ _ _ H2 Hd). unfold b_end, HEADER_SIZE in *. lia. }
  naive_solver.
Qed.

(** coalesce at a block of the list. *)
Lemma coalesce_at s l pre c post :
  um_inv s l → at_block s l pre c post →
  ∃ m' n rest, coalesce (list_fuel s) (b_addr c) (um_mem s) = Ret m' ∧ b_size c ≤ n ∧
    at_block (set_um_mem m' s) (pre ++ mkBlock (b_addr c) n (b_free c) :: rest) pre (mkBlock (b_addr c) n (b_free c)) rest ∧
    um_inv (set_um_mem m' s) (pre ++ mkBlock (b_addr c) n (b_free c) :: rest) ∧
    heap_low (set_um_mem m' s) (pre ++ mkBlock (b_addr c) n (b_free c) :: rest) = heap_low s l ∧
    (∀ d, used rest d ↔ used post d) ∧
    ∀ x, ¬ (b_addr c ≤ x < b_addr c + HEADER_SIZE) → load8 m' x = load8 (um_mem s) x.
Proof.
  intros Hinv Hat. pose proof Hat as [El Hsc (mid & Hm & H1 & H2)]. pose proof Hinv as [Hs Hl Hp [Ht Hte]].
  pose proof (list_fuel_enough s l Hinv) as Hfuel. rewrite El, length_app in Hfuel. cbn in Hfuel.
  destruct (coalesce_spec post (list_fuel s) c (um_mem s) mid _ Hsc H2 ltac:(lia) ltac:(unfold USER_SPACE_TOP in *; lia) ltac:(lia)) as (m' & Hrun & Hs' & Hx).
  destruct (acoalesce_shape c post) as (md & rest & n & Ep & Hmd & Ea & HL). destruct (HL mid _ H2) as [Hl' Hn]. rewrite Ea in Hs', Hl'.
  exists m', n, rest. split; [done|]. split; [done|].
  destruct (replace_inv s l pre c post (mkBlock (b_addr c) n (b_free c) :: rest) m' Hinv Hat Hs') as [Hinv' Hlow].
  { intros mid' Hmid'. destruct (HL mid' _ Hmid') as [HL' _]. by rewrite Ea in HL'. }
  { intros x ?. apply Hx. lia. }
  split_and!; [split; [done|exact Hs'|by exists mid]|done|done| |done].
  intros d. rewrite Ep. unfold used. rewrite elem_of_app. rewrite Forall_forall in Hmd. split; [tauto|]. intros [[Hd|Hd] Hu]; [|done]. by rewrite (Hmd d Hd) in Hu.
Qed.

Record free_post s (l : list block) (c : block) s' (l' : list block) : Prop := {
  fp_inv : um_inv s' l';
  fp_state : s' = set_um_mem (um_mem s') s;
  fp_low : heap_low s' l' = heap_low s l;
  fp_used : ∀ d, used l' d ↔ used l d ∧ d ≠ c;
  fp_frame : ∀ x, ¬ (b_addr c ≤ x < b_addr c + HEADER_SIZE) → load8 (um_mem s') x = load8 (um_mem s) x;
}.

Lemma free_run s l c :
  um_inv s l → used l c → ∃ s' l', free (b_addr c + HEADER_SIZE) s = Ret (tt, s') ∧ free_post s l c s' l'.
Proof.
  intros Hinv [Hc Hcu]. destruct (at_block_intro s l c Hinv Hc) as (pre & post & Hat). pose proof Hat as [El Hsc (mid & Hm & H1 & H2)].
  pose proof (laid_in _ _ _ c H2 ltac:(by left)) as (Hc1 & Hc2 & Hc3). pose proof (ui_top _ _ Hinv) as [Ht Hte]. pose proof (ui_ptr _ _ Hinv).
  unfold free. unfold b_end, HEADER_SIZE, USER_SPACE_TOP in *. destruct (Z.eqb_spec (b_addr c + 24) 0) as [?|_]; [lia|]. cbv zeta.
  rewrite u64_small by lia. replace (b_addr c + 24 - 24) with (b_addr c) by lia. unfold edit. rewrite bind_modify, bind_gets.
  set (m1 := set_free (b_addr c) true (um_mem s)). set (s1 := set_um_mem m1 s). set (c1 := mark true c).
  assert (seg m1 (b_addr c) (c1 :: post) 0) as Hs1.
  { apply seg_mark; [done|]. intros d Hd. destruct H2 as (_ & ? & H2). destruct (laid_in _ _ _ _ H2 Hd). unfold b_end, HEADER_SIZE in *. lia. }
  destruct (replace_inv s l pre c post (c1 :: post) m1 Hinv Hat Hs1) as [Hinv1 Hlow1]; [done|intros x ?; apply load8_set_free; lia|]. fold s1 in Hinv1, Hlow1.
  assert (at_block s1 (pre ++ c1 :: post) pre c1 post) as Hat1 by (split; [done|done|by exists mid]).
  destruct (coalesce_at s1 _ pre c1 post Hinv1 Hat1) as (m2 & n & rest & Hrun & Hn & Hat2 & Hinv2 & Hlow2 & Hu2 & Hx2).
  exists (set_um_mem m2 s1), (pre ++ mkBlock (b_addr c1) n true :: rest). split.
  - unfold on_mem, zoom. change (b_addr c) with (b_addr c1). change (um_mem s1) with m1 in Hrun |- *. by rewrite Hrun.
  - split; [done|done|exact (eq_trans Hlow2 Hlow1)| |].
    + intros d. rewrite (used_replace s l pre c post _ (λ _, False) Hat); [tauto|]. intros e. specialize (Hu2 e). unfold used in *. rewrite elem_of_cons.
      split; [intros [[->|?] ?]; [done|]|]; tauto.
    + intros x Hx. rewrite Hx2 by done. cbn. by apply load8_set_free.
Qed.

(** *** realloc *)

(** Like [program_byte], without the block [c] that is resized. *)
Definition other_byte s (l : list block) (c : block) s' (x : Z) : Prop :=
  (∃ b, used l b ∧ b ≠ c ∧ b_addr b + HEADER_SIZE ≤ x < b_end b) ∨ x < heap_low s l ∨ mm_top (um_kern s') ≤ x.

Record realloc_post s (l : list block) (c : block) (size q : Z) s' (l' : list block) (n : Z) : Prop := {
  rp_inv : um_inv s' l';
  rp_size : size ≤ n;
  rp_ptr : q ≠ 0;
  rp_used : ∀ d, used l' d ↔ (used l d ∧ d ≠ c) ∨ d = mkBlock (q - HEADER_SIZE) n false;
  rp_data : ∀ i, 0 ≤ i < Z.min (b_size c) size →
    load8 (um_mem s') (q + i) = load8 (um_mem s) (b_addr c + HEADER_SIZE + i);
  rp_frame : ∀ x, other_byte s l c s' x → load8 (um_mem s') x = load8 (um_mem s) x;
}.

(** The other program bytes are away from the block. *)
Lemma other_byte_away s l c s' x :
  um_inv s l → used l c → mm_top (um_kern s) ≤ mm_top (um_kern s') → other_byte s l c s' x → ¬ (b_addr c ≤ x < b_end c).
Proof.
  intros [Hs Hl Hp Ht] [Hc Hcu] Htop Hx Hcx. destruct (laid_in _ _ _ _ Hl Hc) as (Hc1 & Hc2 & Hc3).
  destruct Hx as [(b & [Hb Hu] & Hne & Hbx)|[Hx|Hx]].
  - apply Hne. apply (laid_disjoint _ _ _ b c x Hl Hb Hc); [|done]. unfold HEADER_SIZE in *. lia.
  - unfold heap_low in Hx. destruct l as [|d l]; [by apply not_elem_of_nil in Hc|]. cbn [first] in Hx.
    apply elem_of_cons in Hc as [->|Hc]; [lia|]. destruct Hl as (_ & ? & Hl). destruct (laid_in _ _ _ _ Hl Hc). unfold b_end, HEADER_SIZE in *. lia.
  - lia.
Qed.

(** Cutting a block in use down to [r] bytes. *)
Lemma split_at s l pre c post r :
  um_inv s l → at_block s l pre c post → b_free c = false → 0 ≤ r ≤ b_size c →
  ∃ l' n, r ≤ n ∧ um_inv (set_um_mem (split (b_addr c) r (um_mem s)) s) l' ∧
    (∀ d, used l' d ↔ (used l d ∧ d ≠ c) ∨ d = mkBlock (b_addr c) n false) ∧
    ∀ x, ¬ (b_addr c ≤ x < b_addr c + HEADER_SIZE) → ¬ (b_addr c + HEADER_SIZE + r ≤ x < b_end c) →
      load8 (split (b_addr c) r (um_mem s)) x = load8 (um_mem s) x.
Proof.
  intros Hinv Hat Hcu Hr. pose proof Hat as [El Hsc (mid & Hm & H1 & H2)]. pose proof Hinv as [Hs Hl Hp [Ht Hte]].
  assert (Z.max 1 (um_heap_ptr s) ≤ USER_SPACE_TOP) as Htop by (unfold USER_SPACE_TOP in *; lia).
  destruct (split_spec (um_mem s) c post r mid _ Hsc H2 ltac:(lia) Htop Hr) as (Hs' & _ & Hx).
  pose proof (laid_in _ _ _ c H2 ltac:(by left)) as (Hc1 & Hc2 & Hc3).
  destruct (replace_inv s l pre c post (asplit c r post) _ Hinv Hat Hs') as [Hinv' _].
  { intros mid' Hmid'. destruct (decide (0 < mid')) as [Hp'|]; [by apply (split_spec (um_mem s) c post r mid' _ Hsc Hmid' Hp' Htop Hr)|].
    eapply laid_weaken; [apply (split_spec (um_mem s) c post r mid _ Hsc H2 ltac:(lia) Htop Hr)|lia|lia]. }
  { intros x ?. apply Hx; unfold HEADER_SIZE in *; lia. }
  exists (pre ++ asplit c r post), (if b_size c <? r + MIN_SPLIT then b_size c else r).
  split_and!; [case_match; lia|exact Hinv'| |exact Hx].
  apply (used_replace s l pre c post _ (λ d, d = _) Hat). intros d. unfold asplit, used.
  destruct (b_size c <? r + MIN_SPLIT); rewrite !elem_of_cons, ?Hcu; destruct c as [ca cs cf]; cbn in *; subst cf; naive_solver.
Qed.

(** The block [c0] in use has become [c], in place, by taking free blocks behind it. *)
Record grown s0 (l0 : list block) (c0 : block) s (l : list block) (c : block) : Prop := {
  gr_inv0 : um_inv s0 l0;
  gr_used0 : used l0 c0;
  gr_inv : um_inv s l;
  gr_state : s = set_um_mem (um_mem s) s0;
  gr_addr : b_addr c = b_addr c0;
  gr_size : b_size c0 ≤ b_size c;
  gr_low : heap_low s l = heap_low s0 l0;
  gr_used : ∀ d, used l d ↔ (used l0 d ∧ d ≠ c0) ∨ d = c;
  gr_frame : ∀ x, ¬ (b_addr c ≤ x < b_addr c + HEADER_SIZE) → load8 (um_mem s) x = load8 (um_mem s0) x;
}.

(** Two blocks of the list at the same address are the same. *)
Lemma same_addr s l b c : um_inv s l → b ∈ l → c ∈ l → b_addr b = b_addr c → b = c.
Proof.
  intros Hinv Hb Hc E. pose proof (laid_in _ _ _ _ (ui_laid _ _ Hinv) Hb) as (_ & ? & _). pose proof (laid_in _ _ _ _ (ui_laid _ _ Hinv) Hc) as (_ & ? & _).
  apply (laid_disjoint _ _ _ b c (b_addr c) (ui_laid _ _ Hinv)); [done|done|..]; unfold b_end, HEADER_SIZE; lia.
Qed.

Lemma grown_refl s l c : um_inv s l → used l c → grown s l c s l c.
Proof.
  intros Hinv Hc. split; try done; [by destruct s|]. intros d. split; [|intros [[? _]| ->]; done].
  intros Hd. destruct (decide (b_addr d = b_addr c)) as [E|E]; [|left; split; [done|congruence]]. right.
  by apply (same_addr s l); [|apply Hd|apply Hc|].
Qed.

Lemma grown_other s0 l0 c0 s l c s' x : grown s0 l0 c0 s l c → other_byte s0 l0 c0 s' x → other_byte s l c s' x.
Proof.
  intros [Hi0 Hu0 Hi Es Ha Hsz Hlow Hu Hx] [(b & Hb & Hne & Hbx)|Hx']; [|right; by rewrite Hlow]. left. exists b.
  split; [apply Hu; by left|]. split; [|done]. intros ->. apply Hne. by apply (same_addr s0 l0); [|apply Hb|apply Hu0|].
Qed.

Lemma coalesce_grown s l c :
  um_inv s l → used l c → ∃ m' l' c', coalesce (list_fuel s) (b_addr c) (um_mem s) = Ret m' ∧ grown s l c (set_um_mem m' s) l' c' ∧ c' ∈ l' ∧ b_free c' = false.
Proof.
  intros Hinv Hc. destruct (at_block_intro s l c Hinv (proj1 Hc)) as (pre & post & Hat). pose proof (proj2 Hc) as Hcf.
  destruct (coalesce_at s l pre c post Hinv Hat) as (m' & n & rest & Hrun & Hn & Hat' & Hinv' & Hlow & Hu & Hx).
  exists m', (pre ++ mkBlock (b_addr c) n (b_free c) :: rest), (mkBlock (b_addr c) n (b_free c)). split; [done|]. split; [|split; [apply elem_of_app; right; by left|done]].
  split; try done. apply (used_replace s l pre c post _ (λ d, d = mkBlock (b_addr c) n (b_free c)) Hat). intros d. specialize (Hu d). unfold used in *. rewrite elem_of_cons, Hcf. naive_solver.
Qed.

(** The new size fits the block. *)
Lemma realloc_in_place s0 l0 c0 s l c size r :
  grown s0 l0 c0 s l c → 0 ≤ size ≤ r → r ≤ b_size c →
  ∃ l' n, realloc_post s0 l0 c0 size (b_addr c0 + HEADER_SIZE) (set_um_mem (split (b_addr c0) r (um_mem s)) s) l' n.
Proof.
  intros Hg Hsz Hr. pose proof Hg as [Hinv0 Hu0 Hinv Es Ha Hc0 Hlow Hu Hx]. assert (used l c) as Hc by (apply Hu; by right).
  destruct (at_block_intro s l c Hinv (proj1 Hc)) as (pre & post & Hat). rewrite <- Ha.
  destruct (split_at s l pre c post r Hinv Hat (proj2 Hc) ltac:(lia)) as (l' & n & Hn & Hinv' & Hu' & Hx'). exists l', n.
  pose proof (laid_in _ _ _ c0 (ui_laid _ _ Hinv0) (proj1 Hu0)) as (Hc1 & Hc2 & _).
  assert (b_addr c + HEADER_SIZE - HEADER_SIZE = b_addr c) as Ea by lia. unfold b_end, HEADER_SIZE in *.
  split; rewrite ?Ea; cbn [um_mem set_um_mem]; [done|lia|unfold HEADER_SIZE; lia| | |].
  - unfold HEADER_SIZE. rewrite Ea. intros d. rewrite Hu', Hu. split; [naive_solver|]. intros [[Hd Hne]| ->]; [left|by right].
    split; [by left|]. intros ->. apply Hne. by apply (same_addr s0 l0); [|apply Hd|apply Hu0|].
  - intros i Hi. unfold HEADER_SIZE. rewrite Hx', Hx by lia. by rewrite Ha.
  - intros x Hox%(grown_other _ _ _ _ _ _ _ _ Hg). pose proof (other_byte_away s l c _ x Hinv Hc ltac:(done) Hox) as Hax.
    unfold b_end, HEADER_SIZE in Hax. rewrite Hx', Hx by lia. done.
Qed.

(** Writing the payload of a block keeps the list. *)
Lemma inv_payload s l m' d :
  um_inv s l → d ∈ l → (∀ x, ¬ (b_addr d + HEADER_SIZE ≤ x < b_end d) → load8 m' x = load8 (um_mem s) x) → um_inv (set_um_mem m' s) l.
Proof.
  intros [Hs Hl Hp Ht] Hd Hx. split; try done. apply (seg_ext (um_mem s)); [done|]. intros b x Hb Hbx. apply Hx. intros Hdx.
  destruct (laid_in _ _ _ _ Hl Hb) as (_ & ? & _). unfold b_end, HEADER_SIZE in *.
  assert (b = d) as -> by (apply (laid_disjoint _ _ _ b d x Hl Hb Hd); unfold b_end, HEADER_SIZE; lia). lia.
Qed.

Lemma heap_low_le s l b : um_inv s l → b ∈ l → heap_low s l ≤ b_addr b.
Proof.
  intros Hinv Hb. unfold heap_low. pose proof (ui_laid _ _ Hinv) as Hl. destruct l as [|d l]; [by apply not_elem_of_nil in Hb|]. cbn [first].
  apply elem_of_cons in Hb as [->|Hb]; [done|]. destruct Hl as (_ & ? & Hl). destruct (laid_in _ _ _ _ Hl Hb). unfold b_end, HEADER_SIZE in *. lia.
Qed.

(** After malloc, the copy and free: what realloc promises. *)
Lemma realloc_moved s0 l0 c0 s l c size r p s2 l2 n m3 s4 l4 :
  grown s0 l0 c0 s l c → 0 < size ≤ r → b_size c < r → malloc_post s l r p s2 l2 n →
  (∀ x, load8 m3 x = copy_spec (um_mem s2) p (b_addr c + HEADER_SIZE) (b_size c) x) →
  free_post (set_um_mem m3 s2) l2 c s4 l4 → realloc_post s0 l0 c0 size p s4 l4 n.
Proof.
  intros Hg Hsz Hr Hmp Hm3 Hfp. pose proof Hg as [Hinv0 Hu0 Hinv Es Ha Hc0 Hlow Hu Hx]. assert (used l c) as Hc by (apply Hu; by right).
  pose proof Hmp as [Hinv2 Hn Hp Hu2 Hapart Htop Hlow2 Hfr2 _]. pose proof Hfp as [Hinv4 Es4 _ Hu4 Hfr4].
  assert (used l2 (mkBlock (p - HEADER_SIZE) n false)) as Hnew by (apply Hu2; by right).
  destruct (laid_in _ _ _ _ (ui_laid _ _ Hinv) (proj1 Hc)) as (Hc1 & Hc2 & _).
  destruct (laid_in _ _ _ _ (ui_laid _ _ Hinv2) (proj1 Hnew)) as (Hp1 & _ & Hp2). pose proof (ui_ptr _ _ Hinv2). pose proof (ui_top _ _ Hinv2).
  assert (∀ x, b_addr c ≤ x < b_end c → ¬ (p - HEADER_SIZE ≤ x < p + n)) as Hapc by (intros x; by apply (Hapart c)).
  unfold b_end, HEADER_SIZE in *. cbn [b_addr b_size b_free um_mem set_um_mem] in *. assert (um_kern s4 = um_kern s2) as Ek by (by rewrite Es4).
  split; [done|lia|lia| | |].
  - intros d. unfold HEADER_SIZE. rewrite Hu4, Hu2, Hu. split; [naive_solver|]. intros [[Hd Hne]| ->].
    + split; [by left; left|]. intros ->. apply Hne. by apply (same_addr s0 l0); [|apply Hd|apply Hu0|].
    + split; [by right|]. intros E. apply (Hapc (b_addr c)); [lia|]. rewrite <- E. cbn. lia.
  - intros i Hi. unfold HEADER_SIZE. rewrite <- Ha. rewrite Hfr4 by (intros ?; apply (Hapc (p + i)); lia). rewrite Hm3. unfold copy_spec. rewrite decide_True by lia.
    replace (b_addr c + 24 + (p + i - p)) with (b_addr c + 24 + i) by lia. rewrite Hfr2; [apply Hx; lia|]. left. exists c. unfold b_end, HEADER_SIZE. split; [done|lia].
  - intros x Hox%(grown_other _ _ _ _ _ _ _ _ Hg). pose proof (other_byte_away s l c _ x Hinv Hc ltac:(rewrite Ek; done) Hox) as Hax. unfold b_end, HEADER_SIZE in Hax.
    pose proof (heap_low_le s2 l2 _ Hinv2 (proj1 Hnew)) as Hlow3. cbn in Hlow3.
    assert (program_byte s l s2 x ∧ ¬ (p ≤ x < p + n)) as [Hpb Hout].
    { destruct Hox as [(b & Hb & Hne & Hbx)|[Hox|Hox]]; unfold b_end, HEADER_SIZE in *.
      - split; [left; exists b; unfold b_end, HEADER_SIZE; done|]. intros ?. apply (Hapart b x Hb); lia.
      - split; [by right; left|lia].
      - rewrite Ek in Hox. split; [by right; right|lia]. }
    rewrite Hfr4, Hm3 by lia. unfold copy_spec. rewrite decide_False by lia. rewrite Hfr2 by done. apply Hx. lia.
Qed.

Lemma realloc_wp s l c size :
  um_inv s l → used l c → 0 < size → mm_top (um_kern s) + size + 20008 ≤ USER_SPACE_TOP →
  wp (realloc (b_addr c + HEADER_SIZE) size s) (λ q s', ∃ l' n, realloc_post s l c size q s' l' n).
Proof.
  intros Hinv Hc Hsz Hroom. pose proof (laid_in _ _ _ _ (ui_laid _ _ Hinv) (proj1 Hc)) as (Hc1 & Hc2 & Hc3).
  pose proof (ui_top _ _ Hinv) as [Ht Hte]. pose proof (ui_ptr _ _ Hinv) as Hptr. unfold realloc.
  assert (b_addr c + HEADER_SIZE ≠ 0 ∧ (b_addr c + HEADER_SIZE) -64 HEADER_SIZE = b_addr c) as [Hp0 Eblk].
  { unfold b_end, HEADER_SIZE, USER_SPACE_TOP in *. split; [lia|]. rewrite u64_small; lia. }
  destruct (Z.eqb_spec (b_addr c + HEADER_SIZE) 0) as [?|_]; [lia|]. destruct (Z.eqb_spec size 0) as [?|_]; [lia|]. cbv zeta. rewrite Eblk.
  destruct (round8 size) as [-> Hr]; [unfold USER_SPACE_TOP in *; lia|]. set (r := (size + 7) / 8 * 8) in *.
  rewrite bind_gets. destruct (seg_in _ _ _ _ (ui_seg _ _ Hinv) (proj1 Hc)) as [Esz _]. rewrite Esz.
  destruct (Z.leb_spec r (b_size c)) as [Hle|Hgt].
  { unfold edit. rewrite bind_modify. apply (realloc_in_place s l c s l c size r (grown_refl s l c Hinv Hc)); lia. }
  rewrite bind_gets. destruct (coalesce_grown s l c Hinv Hc) as (m1 & l1 & c1 & Hrun & Hg & Hc1l & Hc1f).
  rewrite (bind_Ret _ _ s tt (set_um_mem m1 s)) by (unfold on_mem, zoom; by rewrite Hrun). rewrite bind_gets.
  pose proof (gr_inv _ _ _ _ _ _ Hg) as Hinv1. pose proof (gr_addr _ _ _ _ _ _ Hg) as Ha. destruct (seg_in _ _ _ _ (ui_seg _ _ Hinv1) Hc1l) as [Esz1 _]. rewrite Ha in Esz1. rewrite Esz1.
  destruct (Z.leb_spec r (b_size c1)) as [Hle1|Hgt1].
  { unfold edit. rewrite bind_modify. apply (realloc_in_place s l c _ l1 c1 size r Hg); lia. }
  apply wp_bind. eapply wp_mono; [apply (malloc_wp _ l1 r Hinv1); [lia|cbn; lia]|]. intros p s2 (l2 & n & Hmp). pose proof Hmp as [Hinv2 Hn Hp Hu2 Hapart _ _ _ _].
  assert (used l2 c1) as Hc2u by (apply Hu2; left; by split). destruct (seg_in _ _ _ _ (ui_seg _ _ Hinv2) (proj1 Hc2u)) as [Esz2 _]. rewrite Ha in Esz2.
  assert (p ≠ 0) as Hpn by (unfold HEADER_SIZE in Hp; lia). destruct (Z.eqb_spec p 0) as [?|_]; [done|]. rewrite bind_gets, Esz2.
  destruct (Z.ltb_spec (b_size c1) r) as [_|]; [|lia]. unfold edit. rewrite bind_modify.
  pose proof (gr_size _ _ _ _ _ _ Hg) as Hgs. set (m3 := copy_up _ _ _ _).
  assert (∀ x, load8 m3 x = copy_spec (um_mem s2) p (b_addr c1 + HEADER_SIZE) (b_size c1) x) as Hm3.
  { intros x. unfold m3. rewrite Ha. pose proof (Hapart c1 (Z.max (b_addr c1) (p - HEADER_SIZE)) (conj Hc1l Hc1f)).
    unfold b_end, HEADER_SIZE in *. apply (load8_memcpy (um_mem s2)); lia. }
  assert (um_inv (set_um_mem m3 s2) l2) as Hinv3.
  { apply (inv_payload s2 l2 m3 (mkBlock (p - HEADER_SIZE) n false) Hinv2); [apply (Hu2 (mkBlock (p - HEADER_SIZE) n false)); by right|].
    intros x Hx. rewrite Hm3. unfold copy_spec, b_end, HEADER_SIZE in *. cbn in Hx. rewrite decide_False by lia. done. }
  destruct (free_run (set_um_mem m3 s2) l2 c1 Hinv3 Hc2u) as (s4 & l4 & Hfree & Hfp). rewrite Ha in Hfree. rewrite (bind_Ret _ _ _ _ _ Hfree).
  exists l4, n. apply (realloc_moved s l c (set_um_mem m1 s) l1 c1 size r p s2 l2 n m3 s4 l4); [done|lia|lia|done..].
Qed.

(** ** The properties *)

(** C18. malloc, for every request that fits the address space: it ends, faults never,
    and returns a block of at least the requested size that is apart from every block
    in use; the blocks in use stay in use with the contents they had, memory outside
    the heap is untouched, and the heap grows only when no free block is large
    enough. *)
Theorem malloc_correct s (l : list block) (size : Z) :
  um_inv s l → 0 < size → mm_top (um_kern s) + size + 20000 ≤ USER_SPACE_TOP →
  wp (malloc size s) (λ p s', ∃ l' n, malloc_post s l size p s' l' n).
Proof. exact (malloc_wp s l size). Qed.

(** free of a block in use succeeds: exactly that block is no longer in use, and no
    byte outside its header changes. *)
Theorem free_correct s (l : list block) (c : block) :
  um_inv s l → used l c → ∃ s' l', free (b_addr c + HEADER_SIZE) s = Ret (tt, s') ∧ free_post s l c s' l'.
Proof. exact (free_run s l c). Qed.

(** C19. realloc of a block in use gives a block of at least the new size with the old
    contents, as many bytes as both sizes have; the old block is no longer in use
    (unless it is the same), and all others keep their contents. *)
Theorem realloc_correct s (l : list block) (c : block) (size : Z) :
  um_inv s l → used l c → 0 < size → mm_top (um_kern s) + size + 20008 ≤ USER_SPACE_TOP →
  wp (realloc (b_addr c + HEADER_SIZE) size s) (λ q s', ∃ l' n, realloc_post s l c size q s' l' n).
Proof. exact (realloc_wp s l c size). Qed.

(** calloc, when the product of its arguments does not overflow: a new block all of
    whose requested bytes are zero, with what malloc promises about the others. *)
Theorem calloc_correct s (l : list block) (nmemb size : Z) :
  um_inv s l → 0 < nmemb * size → mm_top (um_kern s) + nmemb * size + 20000 ≤ USER_SPACE_TOP →
  wp (calloc nmemb size s) (λ p s', ∃ l' n s1, malloc_post s l (nmemb * size) p s1 l' n ∧ um_inv s' l' ∧
    (∀ i, 0 ≤ i < nmemb * size → load8 (um_mem s') (p + i) = 0) ∧
    ∀ x, ¬ (p ≤ x < p + nmemb * size) → load8 (um_mem s') x = load8 (um_mem s1) x).
Proof.
  intros Hinv Hpos Hroom. unfold calloc. cbv zeta. pose proof (ui_top _ _ Hinv) as [Ht _]. rewrite u64_small by (unfold USER_SPACE_TOP in *; lia).
  apply wp_bind. eapply wp_mono; [apply (malloc_wp s l _ Hinv Hpos Hroom)|]. intros p s1 (l' & n & Hmp). pose proof Hmp as [Hinv1 Hn Hp Hu _ _ _ _ _].
  assert (p ≠ 0) as Hp0 by (unfold HEADER_SIZE in Hp; lia). destruct (Z.eqb_spec p 0) as [?|_]; [done|]. unfold edit. rewrite bind_modify.
  set (m2 := memset _ _ _ _). assert (∀ x, load8 m2 x = if decide (p ≤ x < p + nmemb * size) then 0 else load8 (um_mem s1) x) as Hm2.
  { intros x. unfold m2. rewrite load8_memset by lia. done. }
  exists l', n, s1. split_and!; [done| | |].
  - apply (inv_payload s1 l' m2 (mkBlock (p - HEADER_SIZE) n false) Hinv1); [apply (Hu (mkBlock _ n false)); by right|].
    intros x Hx. rewrite Hm2, decide_False; [done|]. unfold b_end, HEADER_SIZE in *. cbn in Hx. lia.
  - intros i Hi. cbn [um_mem set_um_mem]. by rewrite Hm2, decide_True by lia.
  - intros x Hx. cbn [um_mem set_um_mem]. by rewrite Hm2, decide_False.
Qed.

End MallocThms.

(** ** A concrete heap: one block of 100 bytes *)

Definition demo_um0 : um_state Z := mkUm 0x10000000 ∅ 0 0 0.
Definition demo_um1 : um_state Z := state_of demo_um0 (malloc 100 demo_um0).
Definition demo_block : block := mkBlock 0x10000000 104 false.

Lemma demo_um0_inv : um_inv demo_um0 [].
Proof. split; vm_compute; intuition discriminate. Qed.

Lemma demo_um1_inv : um_inv demo_um1 [demo_block].
Proof. split; vm_compute; intuition (try discriminate; try reflexivity). Qed.

Lemma demo_block_used : used [demo_block] demo_block.
Proof. split; [by left|done]. Qed.

Lemma malloc_correct_witness : wp (malloc 100 demo_um0) (λ p s', ∃ l' n, malloc_post demo_um0 [] 100 p s' l' n).
Proof. apply (malloc_correct demo_um0 [] 100 demo_um0_inv); [lia|vm_compute; discriminate]. Defined.

Lemma free_correct_witness : ∃ s' l', free (b_addr demo_block + HEADER_SIZE) demo_um1 = Ret (tt, s') ∧ free_post demo_um1 [demo_block] demo_block s' l'.
Proof. exact (free_correct demo_um1 [demo_block] demo_block demo_um1_inv demo_block_used). Defined.

Lemma realloc_correct_witness :
  wp (realloc (b_addr demo_block + HEADER_SIZE) 200 demo_um1) (λ q s', ∃ l' n, realloc_post demo_um1 [demo_block] demo_block 200 q s' l' n).
Proof. apply (realloc_correct demo_um1 [demo_block] demo_block 200 demo_um1_inv demo_block_used); [lia|vm_compute; discriminate]. Defined.

Lemma calloc_correct_witness :
  wp (calloc 4 25 demo_um0) (λ p s', ∃ l' n s1, malloc_post demo_um0 [] (4 * 25) p s1 l' n ∧ um_inv s' l' ∧
    (∀ i, 0 ≤ i < 4 * 25 → load8 (um_mem s') (p + i) = 0) ∧ ∀ x, ¬ (p ≤ x < p + 4 * 25) → load8 (um_mem s') x = load8 (um_mem s1) x).
Proof. apply (calloc_correct demo_um0 [] 4 25 demo_um0_inv); [lia|vm_compute; discriminate]. Defined.

(** ** Arithmetic that wraps

    calloc does not check its product, and malloc does not check the rounding: both
    return blocks smaller than asked for. *)
Theorem calloc_product_wraps :
  match calloc (2 ^ 61 + 1) 8 demo_um0 with
  | Ret (p, s') => p ≠ 0 ∧ blk_size (um_mem s') (p - HEADER_SIZE) = 8
  | _ => False
  end ∧
  match malloc (2 ^ 64 - 1) demo_um0 with
  | Ret (p, s') => p ≠ 0 ∧ blk_size (um_mem s') (p - HEADER_SIZE) = 0
  | _ => False
  end.
Proof. vm_compute. intuition discriminate. Qed.
