(* ===== verification/ElfLoader.v ===== *)
(** * The ELF loader (loader/elf.c, loader/elf.h)

    elf_load checks the header of an executable in kernel memory and maps the pages
    of its loadable segments into an address space, each to a fresh frame with the
    bytes of the file and zeroes around them.  It runs on the state of the memory
    managers; a message for the console is part of the result. *)

From S2P Require Import Prelude ByteMem FrameAlloc Pmm Heap Vmm.

Definition ELF_MAGIC : Z := 0x464c457f.
Definition ET_EXEC : Z := 2.
Definition EM_X86_64 : Z := 62.
Definition PT_LOAD : Z := 1.
Definition PF_W : Z := 2.

Definition load16 := load_le 2.

(** The fields of the packed headers that are used. *)
Record elf64_hdr := mkEhdr {
  eh_magic : Z; eh_bits : Z; eh_type : Z; eh_machine : Z; eh_entry : Z;
  eh_phoff : Z; eh_phentsize : Z; eh_phnum : Z }.
Definition SIZEOF_EHDR : Z := 64.
Definition read_ehdr (m : mem) (p : Z) : elf64_hdr :=
  mkEhdr (load32 m p) (load8 m (p + 4)) (load16 m (p + 16)) (load16 m (p + 18)) (load64 m (p + 24))
    (load64 m (p + 32)) (load16 m (p + 54)) (load16 m (p + 56)).

Record elf64_phdr := mkPhdr {
  ph_type : Z; ph_flags : Z; ph_offset : Z; ph_vaddr : Z; ph_filesz : Z; ph_memsz : Z }.
Definition SIZEOF_PHDR : Z := 56.
Definition read_phdr (m : mem) (p : Z) : elf64_phdr :=
  mkPhdr (load32 m p) (load32 m (p + 4)) (load64 m (p + 8)) (load64 m (p + 16)) (load64 m (p + 32)) (load64 m (p + 40)).

Section Elf.
Context {P : Type} `{FA : FrameAllocator P} `{B : Boot}.

Abbreviation MM := (M (mm_state P)).

(** One page of a segment, at [va]; false when there is no frame. *)
Definition load_page (space : addr_space) (data phdr vmm_flags va : Z) : MM bool :=
  phys <- pg fa_alloc ;;
  if phys =? 0 then ret false
  else
    upd_mem (λ m, memset m (phys +64 hhdm_offset) 0 4096) ;;;
    ph <- gets (λ s, read_phdr (mm_mem s) phdr) ;;
    (if va <? ph_vaddr ph +64 ph_filesz ph then
       let file_offset := if va <? ph_vaddr ph then ph_offset ph else ph_offset ph +64 (va -64 ph_vaddr ph) in
       let copy_offset := if va <? ph_vaddr ph then ph_vaddr ph -64 va else 0 in
       let copy_size := 4096 -64 copy_offset in
       let remaining := (ph_vaddr ph +64 ph_filesz ph) -64 va in
       let copy_size := if remaining <? copy_size then remaining else copy_size in
       upd_mem (λ m, memcpy m ((phys +64 hhdm_offset) +64 copy_offset) (data +64 file_offset) copy_size)
     else ret tt) ;;;
    vmm_map_page space va phys vmm_flags ;;;
    ret true.

(** The pages [va], [va + 4096], ... below [vaddr_end]; both are multiples of 4096,
    so the addition does not wrap. *)
Fixpoint load_pages (fuel : nat) (space : addr_space) (data phdr vmm_flags va vaddr_end : Z) : MM bool :=
  if va <? vaddr_end then
    match fuel with
    | O => diverge
    | S f =>
        ok <- load_page space data phdr vmm_flags va ;;
        if ok then load_pages f space data phdr vmm_flags (va +64 4096) vaddr_end else ret false
    end
  else ret true.

Definition load_segment (space : addr_space) (data phdr : Z) : MM bool :=
  ph <- gets (λ s, read_phdr (mm_mem s) phdr) ;;
  if negb (ph_type ph =? PT_LOAD) then ret true
  else
    let vaddr_start := Z.land (ph_vaddr ph) (not64 0xfff) in
    let vaddr_end := Z.land ((ph_vaddr ph +64 ph_memsz ph) +64 0xfff) (not64 0xfff) in
    let vmm_flags := Z.lor PAGE_PRESENT PAGE_USER in
    let vmm_flags := if negb (Z.land (ph_flags ph) PF_W =? 0) then Z.lor vmm_flags PAGE_WRITE else vmm_flags in
    load_pages (Z.to_nat ((vaddr_end - vaddr_start) / 4096)) space data phdr vmm_flags vaddr_start vaddr_end.

(** [i] counts up to [phnum], a 16-bit number; [i * phentsize] is an int. *)
Fixpoint load_segments (fuel : nat) (space : addr_space) (data i : Z) : MM bool :=
  hdr <- gets (λ s, read_ehdr (mm_mem s) data) ;;
  if i <? eh_phnum hdr then
    match fuel with
    | O => diverge
    | S f =>
        if 2147483647 <? i * eh_phentsize hdr then fault
        else
          ok <- load_segment space data ((data +64 eh_phoff hdr) +64 (i * eh_phentsize hdr)) ;;
          if ok then load_segments f space data (i + 1) else ret false
    end
  else ret true.

(** The entry point, or 0 and the message that is printed. *)
Definition elf_load (space : addr_space) (data size : Z) : MM (Z * string) :=
  if size <? SIZEOF_EHDR then ret (0, ""%string)
  else
    hdr <- gets (λ s, read_ehdr (mm_mem s) data) ;;
    if negb (eh_magic hdr =? ELF_MAGIC) then ret (0, "[E] elf.c: elf_load() -> bad magic"%string)
    else if negb (eh_bits hdr =? 2) then ret (0, "[E] elf.c: elf_load() -> not 64-bit"%string)
    else if negb (eh_machine hdr =? EM_X86_64) then ret (0, "[E] elf.c: elf_load() -> not x86-64"%string)
    else if negb (eh_type hdr =? ET_EXEC) then ret (0, "[E] elf.c: elf_load() -> not an executable"%string)
    else
      ok <- load_segments (Z.to_nat 65535) space data 0 ;;
      if ok then
        hdr <- gets (λ s, read_ehdr (mm_mem s) data) ;;
        ret (eh_entry hdr, ""%string)
      else ret (0, "[E] elf.c: elf_load() -> out of memory"%string).

End Elf.
