(* ===== verification/ElfThms.v ===== *)
(** * The ELF loader: what the program finds in its address space

    The abstract address space gives for each page its flags and what is known of
    its bytes.  elf_load refines the function that adds the pages of the loadable
    segments to it. *)

From S2P Require Import Prelude ByteMem FrameAlloc Pmm Heap HeapThms Vmm VmmThms Thread SysMem SysMemThms ElfLoader.

(** A page: the flags of its entry, and the bytes that are known. *)
Record upage := mkPage { up_flags : Z; up_byte : Z → option Z }.
Abbreviation uspace := (Z → option upage).

Definition uset (vpn : Z) (g : upage) (A : uspace) : uspace := λ v, if decide (v = vpn) then Some g else A v.

Section ElfThms.
Context {P : Type} `{FA : FrameAllocator P} `{B : Boot}.
Implicit Types s : mm_state P.

(** Memory that mapping pages into the space of [r] does not touch: not in a free
    frame and not in a table of that space. *)
Definition stable s (T : gmap (Z * Z * Z) Z) (r a : Z) : Prop :=
  (frame_of a ∉ fa_free (mm_pg s)) ∧ ∀ l pre, T !! (r, l, pre) ≠ Some (frame_of a).

(** The space of [r] is [A]. *)
Definition space_is s (T : gmap (Z * Z * Z) Z) (r : Z) (A : uspace) : Prop :=
  ∀ vpn, match A vpn with
  | None => pte_of s T r vpn = None
  | Some pg => ∃ f, pte_of s T r vpn = Some (leaf_entry (f * 4096) (up_flags pg)) ∧ 0 < f < fa_count (mm_pg s) ∧
      (∀ o, 0 ≤ o < 4096 → stable s T r (hhdm_offset + f * 4096 + o)) ∧
      ∀ o v, 0 ≤ o < 4096 → up_byte pg o = Some v → load8 (mm_mem s) (hhdm_offset + f * 4096 + o) = v
  end.

(** The pages of the space of [r] have frames of their own, none free or a table. *)
Record pages_ok s (T : gmap (Z * Z * Z) Z) (r : Z) : Prop := {
  pk_entry : ∀ vpn e, pte_of s T r vpn = Some e →
    ENTRY_TO_PHYS e = entry_frame e * 4096 ∧ 0 < entry_frame e < fa_count (mm_pg s) ∧ (entry_frame e ∉ fa_free (mm_pg s));
  pk_table : ∀ vpn e k, pte_of s T r vpn = Some e → T !! k ≠ Some (entry_frame e);
  pk_inj : ∀ x1 x2 e1 e2, pte_of s T r x1 = Some e1 → pte_of s T r x2 = Some e2 → entry_frame e1 = entry_frame e2 → x1 = x2;
}.

(** What mapping pages into the space of [r] does to the rest: frames are taken,
    stable memory and the other spaces stay, new pages have frames that were free. *)
Record grows (r : Z) s (T : gmap (Z * Z * Z) Z) s' (T' : gmap (Z * Z * Z) Z) : Prop := {
  gr_free : fa_free (mm_pg s') ⊆ fa_free (mm_pg s);
  gr_count : fa_count (mm_pg s') = fa_count (mm_pg s);
  gr_caches : mm_caches s' = mm_caches s;
  gr_mem : ∀ a, stable s T r a → load8 (mm_mem s') a = load8 (mm_mem s) a;
  gr_upper : ∀ f i, T !! (r, 3, 0) = Some f → 256 ≤ i < 512 → load64 (mm_mem s') (slot f i) = load64 (mm_mem s) (slot f i);
  gr_ext : T ⊆ T';
  gr_new : ∀ r' l pre f, T' !! (r', l, pre) = Some f → T !! (r', l, pre) = Some f ∨ (f ∈ fa_free (mm_pg s) ∧ r' = r ∧ l < 3);
  gr_others : ∀ r' v, r' ≠ r → pte_of s' T' r' v = pte_of s T r' v;
  gr_pages : ∀ v e, pte_of s' T' r v = Some e → pte_of s T r v = Some e ∨ entry_frame e ∈ fa_free (mm_pg s);
}.

Lemma grows_refl r s T : grows r s T s T.
Proof. split; try done; eauto. Qed.

Lemma grows_stable r s T s' T' a : grows r s T s' T' → stable s T r a → stable s' T' r a.
Proof.
  intros Hg [H1 H2]. split; [intros H; by apply H1, (gr_free _ _ _ _ _ Hg)|].
  intros l pre HT. destruct (gr_new _ _ _ _ _ Hg _ _ _ _ HT) as [HT'|(Hf & _)]; [by apply (H2 l pre)|done].
Qed.

(** A frame that is nobody's but ours, and was free in [s0]. *)
Record owned s0 s (T : gmap (Z * Z * Z) Z) (r f : Z) : Prop := {
  ow_range : 0 < f < fa_count (mm_pg s);
  ow_taken : (f ∉ fa_free (mm_pg s)) ∧ f ∈ fa_free (mm_pg s0);
  ow_table : ∀ k, T !! k ≠ Some f;
  ow_page : ∀ v e, pte_of s T r v = Some e → entry_frame e ≠ f;
}.

Lemma frame_page f o : 0 ≤ o < 4096 → frame_of (hhdm_offset + f * 4096 + o) = f.
Proof. intros Ho. unfold frame_of. symmetry. apply (Z.div_unique _ _ _ o); lia. Qed.

Lemma frame_page_inv f b : frame_of b = f → hhdm_offset + f * 4096 ≤ b < hhdm_offset + f * 4096 + 4096.
Proof. unfold frame_of. intros <-. pose proof (Z.div_mod (b - hhdm_offset) 4096 ltac:(lia)). pose proof (Z.mod_pos_bound (b - hhdm_offset) 4096 ltac:(lia)). lia. Qed.

Lemma owned_stable s0 s T r f o : owned s0 s T r f → 0 ≤ o < 4096 → stable s T r (hhdm_offset + f * 4096 + o).
Proof. intros [_ [H1 _] H2 _] Ho. unfold stable. rewrite frame_page by done. eauto. Qed.

(** One page mapped to a frame that is ours. *)
Lemma update_pages s0 s T r vpn f fl s' T' :
  pages_ok s T r → owned s0 s T r f → 0 ≤ f * 4096 < W64 → 0 ≤ fl < 4096 →
  update_post s T r vpn (Some (leaf_entry (f * 4096) fl)) s' T' → pages_ok s' T' r.
Proof.
  intros [K1 K2 K3] [O1 [O2 _] O3 O4] Hf Hfl [U1 U2 U3 U4 _ _ U7 U8 _].
  destruct (leaf_frame f fl ltac:(lia) ltac:(lia) Hfl) as [El1 El2]. split.
  - intros x e. rewrite U4, U8. case_decide; [intros [= <-]; rewrite El1, El2; split_and!; [done|lia|lia|set_solver]|].
    intros He. destruct (K1 x e He) as (E1 & E2 & E3). split; [done|]. split; [done|set_solver].
  - intros x e [[r' l] pre]. rewrite U4. intros He HT. destruct (U3 _ _ _ _ HT) as [HT'|(Hin & _)]; revert He.
    + case_decide; [intros [= <-]; rewrite El2 in HT'; by apply (O3 (r', l, pre))|intros He; by apply (K2 x e (r', l, pre))].
    + case_decide; [intros [= <-]; by rewrite El2 in Hin|]. intros He. by destruct (K1 x e He) as (_ & _ & ?).
  - intros x1 x2 e1 e2. rewrite !U4. repeat case_decide; [naive_solver|intros [= <-] He2|intros He1 [= <-]|by apply K3]; rewrite El2; intros E.
    + by destruct (O4 x2 e2 He2).
    + by destruct (O4 x1 e1 He1).
Qed.

Lemma owned_update s0 s T r vpn f fl s' T' g :
  owned s0 s T r g → f ≠ g → 0 ≤ f → f * 4096 < W64 → 0 ≤ fl < 4096 →
  update_post s T r vpn (Some (leaf_entry (f * 4096) fl)) s' T' → owned s0 s' T' r g.
Proof.
  intros [O1 [O2 O2'] O3 O4] Hne Hf Hw Hfl [U1 U2 U3 U4 _ _ U7 U8 _]. destruct (leaf_frame f fl Hf Hw Hfl) as [_ El2]. split.
  - by rewrite U8.
  - split; [set_solver|done].
  - intros [[r' l] pre] HT. destruct (U3 _ _ _ _ HT) as [HT'|(Hin & _)]; [by apply (O3 (r', l, pre))|done].
  - intros v e. rewrite U4. case_decide; [intros [= <-]; by rewrite El2|apply O4].
Qed.

Lemma grows_update s0 T0 s T r vpn f fl s' T' :
  grows r s0 T0 s T → owned s0 s T r f → 0 ≤ f * 4096 < W64 → 0 ≤ fl < 4096 →
  update_post s T r vpn (Some (leaf_entry (f * 4096) fl)) s' T' → grows r s0 T0 s' T'.
Proof.
  intros Hg [_ [_ O2] _ _] Hf Hfl [U1 U2 U3 U4 U5 U6 U7 U8 U9]. destruct (leaf_frame f fl ltac:(lia) ltac:(lia) Hfl) as [_ El2].
  pose proof Hg as [G1 G2 G3 G4 G5 G6 G7 G8 G9]. split.
  - set_solver.
  - congruence.
  - congruence.
  - intros a Ha. rewrite <- (G4 a Ha). apply (grows_stable _ _ _ _ _ _ Hg) in Ha as [A1 A2]. by apply U5.
  - intros g i HT Hi. rewrite <- (G5 g i HT Hi). apply U6; [by eapply lookup_weaken|done].
  - by etrans.
  - intros r' l pre g HT. destruct (U3 _ _ _ _ HT) as [HT'|(Hin & ? & ?)]; [by apply G7|right; set_solver].
  - intros r' v Hr. rewrite U4, decide_False by naive_solver. by apply G8.
  - intros v e. rewrite U4. case_decide; [intros [= <-]; right; by rewrite El2|apply G9].
Qed.

(** *** One page *)

Lemma load8_copy_up_out n : ∀ m d src b, ¬ (d ≤ b < d + Z.of_nat n) → load8 (copy_up n m d src) b = load8 m b.
Proof.
  induction n as [|n IH]; intros m d src b Hb; cbn [copy_up]; [done|]. rewrite IH, load8_store8, decide_False by lia. done.
Qed.

(** A byte of a forward copy whose source is outside the destination. *)
Lemma load8_copy_up_part n : ∀ m d src i,
  0 ≤ i < Z.of_nat n → ¬ (d ≤ src + i < d + Z.of_nat n) → load8 (copy_up n m d src) (d + i) = load8 m (src + i).
Proof.
  induction n as [|n IH]; intros m d src i Hi Hs; [lia|]. cbn [copy_up]. destruct (decide (i = 0)) as [->|Hi0].
  - rewrite !Z.add_0_r. rewrite load8_copy_up_out, load8_store8, decide_True by lia. apply u8_load8.
  - replace (d + i) with (d + 1 + (i - 1)) by lia. rewrite IH by lia. replace (src + 1 + (i - 1)) with (src + i) by lia.
    rewrite load8_store8, decide_False by lia. done.
Qed.

(** ** The abstract loader *)

Section Image.
Context (s0 : mm_state P) (T0 : gmap (Z * Z * Z) Z) (m0 : mem) (data size : Z).

(** A program header whose segment is in user space and whose bytes are in the file. *)
Record seg_ok (ph : elf64_phdr) : Prop := {
  sk_addr : 0 ≤ ph_vaddr ph ∧ 0 ≤ ph_filesz ph ≤ ph_memsz ph ∧ ph_vaddr ph + ph_memsz ph + 8192 ≤ 2 ^ 47;
  sk_file : 0 ≤ ph_offset ph ∧ ph_offset ph + ph_filesz ph ≤ size;
}.

(** What is known of the byte of the segment at [x] on the page [va]: the file's byte,
    or zero; when the segment does not start on a page boundary, as many bytes
    behind the file's part as its start is into the page may be anything. *)
Definition seg_byte (ph : elf64_phdr) (va x : Z) : option Z :=
  if decide (ph_vaddr ph ≤ x < ph_vaddr ph + ph_filesz ph) then Some (load8 m0 (data + ph_offset ph + (x - ph_vaddr ph)))
  else if decide (va < ph_vaddr ph ∧ ph_vaddr ph + ph_filesz ph ≤ x < ph_vaddr ph + ph_filesz ph + (ph_vaddr ph - va)) then None
  else Some 0.

Definition seg_flags (ph : elf64_phdr) : Z :=
  if negb (Z.land (ph_flags ph) PF_W =? 0) then 7 else 5.

Definition seg_page (ph : elf64_phdr) (va : Z) : upage := mkPage (seg_flags ph) (λ o, seg_byte ph va (va + o)).

(** The state of a load: the image is as in [m0] and safe from being overwritten. *)
Record loading (r : Z) s (T : gmap (Z * Z * Z) Z) (A : uspace) : Prop := {
  ld_tables : tables_ok s T;
  ld_root : T !! (r, 3, 0) = Some r;
  ld_zero : 0 ∉ fa_free (mm_pg s);
  ld_stable : ∀ a, data ≤ a < data + size → stable s T r a;
  ld_image : ∀ a, data ≤ a < data + size → load8 (mm_mem s) a = load8 m0 a;
  ld_space : space_is s T r A;
  ld_grows : grows r s0 T0 s T;
  ld_pages : pages_ok s T r;
}.

Lemma read_phdr_image m p : data ≤ p → p + SIZEOF_PHDR ≤ data + size → (∀ a, data ≤ a < data + size → load8 m a = load8 m0 a) → read_phdr m p = read_phdr m0 p.
Proof.
  unfold SIZEOF_PHDR. intros Hp He Hm. unfold read_phdr, load32, load64. by rewrite !(load_le_ext _ m m0) by (intros; apply Hm; lia).
Qed.

(** Filling the fresh frame at [d]. *)
Definition fill_page (ph : elf64_phdr) (d va : Z) (m : mem) : mem :=
  let co := if va <? ph_vaddr ph then ph_vaddr ph - va else 0 in
  let fo := if va <? ph_vaddr ph then ph_offset ph else ph_offset ph + (va - ph_vaddr ph) in
  let m1 := memset m d 0 4096 in
  if va <? ph_vaddr ph + ph_filesz ph then memcpy m1 (d + co) (data + fo) (Z.min (4096 - co) (ph_vaddr ph + ph_filesz ph - va)) else m1.

Lemma fill_page_spec ph d va m :
  seg_ok ph → va mod 4096 = 0 → ph_vaddr ph / 4096 * 4096 ≤ va → (∀ a, data ≤ a < data + size → ¬ (d ≤ a < d + 4096)) →
  (∀ a, data ≤ a < data + size → load8 m a = load8 m0 a) →
  (∀ o v, 0 ≤ o < 4096 → seg_byte ph va (va + o) = Some v → load8 (fill_page ph d va m) (d + o) = v) ∧
  (∀ b, ¬ (d ≤ b < d + 4096) → load8 (fill_page ph d va m) b = load8 m b).
Proof.
  intros [(H1 & H2 & H3) (H4 & H5)] Hva Hpg Hdis Hm. pose proof (Z.div_mod (ph_vaddr ph) 4096 ltac:(lia)). pose proof (Z.mod_pos_bound (ph_vaddr ph) 4096 ltac:(lia)).
  unfold fill_page, memcpy. cbv zeta. set (co := if va <? _ then _ else 0). set (fo := if va <? ph_vaddr ph then ph_offset ph else _).
  assert (0 ≤ co < 4096 ∧ (va < ph_vaddr ph ∧ co = ph_vaddr ph - va ∧ fo = ph_offset ph ∨ ph_vaddr ph ≤ va ∧ co = 0 ∧ fo = ph_offset ph + (va - ph_vaddr ph))) as [Hco Hcase].
  { unfold co, fo. destruct (Z.ltb_spec va (ph_vaddr ph)); lia. }
  clearbody co fo. destruct (Z.ltb_spec va (ph_vaddr ph + ph_filesz ph)) as [Hlt|Hge].
  - set (cs := Z.min (4096 - co) (ph_vaddr ph + ph_filesz ph - va)). assert (0 ≤ cs ≤ 4096 - co) as Hcs by lia. split.
    + intros o v Ho. unfold seg_byte. destruct (decide (ph_vaddr ph ≤ va + o < _)) as [Hf|Hf]; [|case_decide as Hg; [done|]]; intros [= <-].
      * replace (d + o) with (d + co + (o - co)) by lia. assert (data + fo + (o - co) = data + ph_offset ph + (va + o - ph_vaddr ph)) as Ea by lia.
        rewrite load8_copy_up_part; [rewrite Ea|lia|rewrite Ea; intros ?; apply (Hdis (data + ph_offset ph + (va + o - ph_vaddr ph))); lia].
        rewrite load8_memset by lia. rewrite decide_False; [apply Hm; lia|apply Hdis; lia].
      * rewrite load8_copy_up_out by lia. by rewrite load8_memset, decide_True by lia.
    + intros b Hb. rewrite load8_copy_up_out by lia. by rewrite load8_memset, decide_False by lia.
  - split; [|intros b Hb; by rewrite load8_memset, decide_False by lia]. intros o v Ho. unfold seg_byte.
    destruct (decide (ph_vaddr ph ≤ va + o < _)); [lia|]. case_decide; [done|]. intros [= <-]. by rewrite load8_memset, decide_True by lia.
Qed.
Lemma stable_update s T r vpn o s' T' a : update_post s T r vpn o s' T' → stable s T r a → stable s' T' r a ∧ load8 (mm_mem s') a = load8 (mm_mem s) a.
Proof.
  intros Hup [H1 H2]. split; [|by apply (up_mem _ _ _ _ _ _ _ Hup)]. split.
  - intros Hf. apply H1. by apply (up_free _ _ _ _ _ _ _ Hup).
  - intros l pre HT. destruct (up_new _ _ _ _ _ _ _ Hup _ _ _ _ HT) as [HT'|(Hf & _)]; [by apply (H2 l pre)|done].
Qed.

(** Taking the free frames [F] and writing into them touches nothing stable. *)
Lemma take_fresh r s T A (F : Z → Prop) p' m' :
  loading r s T A → (∀ f, F f → f ∈ fa_free (mm_pg s)) → fa_wf p' → fa_count p' = fa_count (mm_pg s) →
  (∀ f, f ∈ fa_free p' ↔ f ∈ fa_free (mm_pg s) ∧ ¬ F f) → (∀ b, ¬ F (frame_of b) → load8 m' b = load8 (mm_mem s) b) →
  loading r (mkMm p' m' (mm_caches s)) T A ∧ ∀ f, F f → owned s0 (mkMm p' m' (mm_caches s)) T r f.
Proof.
  intros [Hok HT H0 Hst Him Hsp Hgr Hpk] HF Hwf Hcnt Hfr Hne. set (s1 := mkMm p' m' (mm_caches s)).
  assert (∀ k f, F f → T !! k ≠ Some f) as Hnt by (intros k f Hf Hk; destruct (vt_taken _ _ Hok _ _ Hk) as [_ Hn]; by apply Hn, HF).
  assert (fa_free (mm_pg s1) ⊆ fa_free (mm_pg s)) as Hsub by (intros g Hg; by apply Hfr in Hg as [??]).
  destruct (tables_frame s s1 T Hok Hwf Hcnt Hsub) as (Hok1 & Hpte & _).
  { intros a k Hk. apply Hne. intros Hf. by apply (Hnt k _ Hf). }
  assert (∀ a, stable s T r a → stable s1 T r a ∧ load8 m' a = load8 (mm_mem s) a) as Hkeep.
  { intros a [Ha1 Ha2]. split; [split; [set_solver|done]|]. apply Hne. intros Hf. by apply Ha1, HF. }
  split; [split; try done|].
  - set_solver.
  - intros a Ha. by apply Hkeep, Hst.
  - intros a Ha. cbn. rewrite (proj2 (Hkeep a (Hst a Ha))). by apply Him.
  - intros vpn. specialize (Hsp vpn). destruct (A vpn) as [g|]; [|by rewrite Hpte]. destruct Hsp as (f' & E1 & E2 & E3 & E4). exists f'. rewrite Hpte.
    split; [done|]. split; [cbn; rewrite Hcnt; exact E2|]. split.
    + intros o Ho. by apply Hkeep, E3.
    + intros o v Ho Hv. cbn. rewrite (proj2 (Hkeep _ (E3 o Ho))). by apply E4.
  - pose proof Hgr as [G1 G2 G3 G4 G5 G6 G7 G8 G9]. split; cbn [mm_pg mm_mem mm_caches s1]; try done.
    + set_solver.
    + congruence.
    + intros a Ha. rewrite <- (G4 a Ha). by apply Hkeep, (grows_stable _ _ _ _ _ _ Hgr).
    + intros g i HTg Hi. rewrite <- (G5 g i HTg Hi). apply load_le_ext. intros a Ha. apply Hne.
      rewrite (slot_frame g i a) by lia. intros Hg. by apply (Hnt (r, 3, 0) g Hg); eapply lookup_weaken.
    + intros r' v Hr. rewrite Hpte. by apply G8.
    + intros v e. rewrite Hpte. apply G9.
  - destruct Hpk as [K1 K2 K3]. split.
    + intros v e. rewrite Hpte. cbn [mm_pg s1]. rewrite Hcnt. intros He. destruct (K1 v e He) as (E1 & E2 & E3). split; [done|]. split; [done|set_solver].
    + intros v e k. rewrite Hpte. apply K2.
    + intros x1 x2 e1 e2. rewrite !Hpte. apply K3.
  - intros f Hf. split; cbn [mm_pg s1]; [|split; [|by apply (gr_free _ _ _ _ _ Hgr), HF]|by intros k; apply Hnt|].
    + rewrite Hcnt. pose proof (fa_free_bound _ _ (vt_wf _ _ Hok) (HF f Hf)). assert (f ≠ 0) by (intros ->; by apply H0, HF). lia.
    + rewrite Hfr. tauto.
    + intros v e. rewrite Hpte. intros He <-. destruct (pk_entry _ _ _ Hpk v e He) as (_ & _ & Hn). by apply Hn, HF.
Qed.

(** Mapping a page whose frame holds what [g] says. *)
Lemma map_loaded r s T A va f g s' :
  loading r s T A → 0 ≤ va < 2 ^ 47 → owned s0 s T r f → 0 ≤ up_flags g < 4096 →
  (∀ o v, 0 ≤ o < 4096 → up_byte g o = Some v → load8 (mm_mem s) (hhdm_offset + f * 4096 + o) = v) →
  vmm_map_page (space_at r) va (f * 4096) (up_flags g) s = Ret (tt, s') →
  ∃ T', loading r s' T' (uset (va / 4096) g A) ∧ update_post s T r (va / 4096) (Some (leaf_entry (f * 4096) (up_flags g))) s' T'.
Proof.
  intros [Hok HT H0 Hst Him Hsp Hgr Hpk] Hva How Hfl Hfb Hrun. pose proof (vt_hhdm _ _ Hok) as [Hh0 Hh1]. pose proof (ow_range _ _ _ _ _ How) as Hf.
  pose proof (λ o, owned_stable s0 s T r f o How) as Hfs.
  destruct (map_page_spec s T r va (f * 4096) (up_flags g) s' Hok HT Hva ltac:(lia) ltac:(lia) Hrun) as (T' & Hup). exists T'. split; [|exact Hup].
  pose proof (λ a, stable_update _ _ _ _ _ _ _ a Hup) as Hkeep. split.
  - apply (up_ok _ _ _ _ _ _ _ Hup).
  - eapply lookup_weaken; [exact HT|apply (up_ext _ _ _ _ _ _ _ Hup)].
  - intros H. apply H0. by apply (up_free _ _ _ _ _ _ _ Hup).
  - intros a Ha. by apply Hkeep, Hst.
  - intros a Ha. rewrite (proj2 (Hkeep a (Hst a Ha))). by apply Him.
  - intros vpn. unfold uset. rewrite (up_pte _ _ _ _ _ _ _ Hup). rewrite (up_count _ _ _ _ _ _ _ Hup). destruct (decide (vpn = va / 4096)) as [->|Hne].
    + rewrite decide_True by done. exists f. split_and!; [done|lia|lia| |].
      * intros o Ho. by apply Hkeep, Hfs.
      * intros o v Ho Hv. rewrite (proj2 (Hkeep _ (Hfs o Ho))). by apply Hfb.
    + rewrite decide_False by naive_solver. specialize (Hsp vpn). destruct (A vpn) as [g'|]; [|done]. destruct Hsp as (f' & E1 & E2 & E3 & E4). exists f'.
      split_and!; [done|lia|lia| |].
      * intros o Ho. by apply Hkeep, E3.
      * intros o v Ho Hv. rewrite (proj2 (Hkeep _ (E3 o Ho))). by apply E4.
  - by apply (grows_update s0 T0 s T r (va / 4096) f (up_flags g)); [|done|lia| |].
  - by apply (update_pages s0 s T r (va / 4096) f (up_flags g)); [| |lia| |].
Qed.

Lemma load_page_wp r s T A p va :
  loading r s T A → 0 ≤ data → data + size < W64 → data ≤ p → p + SIZEOF_PHDR ≤ data + size →
  let ph := read_phdr m0 p in
  seg_ok ph → va mod 4096 = 0 → ph_vaddr ph / 4096 * 4096 ≤ va < ph_vaddr ph + ph_memsz ph + 4096 →
  wp (load_page (space_at r) data p (seg_flags ph) va s) (λ ok s', ok = true ∧ ∃ T', loading r s' T' (uset (va / 4096) (seg_page ph va) A)).
Proof.
  intros Hld Hd0 Hd1 Hp0 Hp1 ph Hseg Hva Hrange. pose proof Hseg as [(H1 & H2 & H3) (H4 & H5)]. pose proof Hld as [Hok HT H0 Hst Him Hsp Hgr Hpk].
  assert (0 ≤ va) as Hva0 by (pose proof (Z.div_pos (ph_vaddr ph) 4096 H1 ltac:(lia)); lia).
  change (2 ^ 47) with 140737488355328 in *. unfold load_page. apply wp_bind. unfold pg. apply wp_zoom. apply wp_safe; [apply fa_alloc_safe, (vt_wf _ _ Hok)|]. intros phys p' Hal.
  destruct (fa_alloc_ok _ _ _ (vt_wf _ _ Hok) Hal) as (f & -> & Hf & Hwf & Hcnt & Hfr). pose proof (fa_free_bound _ _ (vt_wf _ _ Hok) Hf) as Hfb.
  pose proof (vt_hhdm _ _ Hok) as [Hh0 Hh1]. destruct (Z.eqb_spec (f * 4096) 0) as [E0|_]; [replace f with 0 in Hf by lia; done|].
  assert (f ≠ 0) as Hf0 by (intros ->; done).
  rewrite (u64_small (f * 4096 + hhdm_offset)) by lia. replace (f * 4096 + hhdm_offset) with (hhdm_offset + f * 4096) by lia. set (d := hhdm_offset + f * 4096) in *.
  assert (∀ a, data ≤ a < data + size → ¬ (d ≤ a < d + 4096)) as Hdis.
  { intros a Ha Hin. destruct (Hst a Ha) as [Hn _]. apply Hn. replace a with (hhdm_offset + f * 4096 + (a - d)) by lia. by rewrite frame_page by lia. }
  destruct (fill_page_spec ph d va (mm_mem s) Hseg Hva (proj1 Hrange) Hdis Him) as [Hfill Hout].
  destruct (take_fresh r s T A (eq f) p' (fill_page ph d va (mm_mem s)) Hld) as [Hld2 Hst2].
  { by intros g <-. } { done. } { done. } { intros g. rewrite Hfr. set_solver. } { intros b Hb. apply Hout. intros Hin. apply Hb. symmetry.
    replace b with (hhdm_offset + f * 4096 + (b - d)) by lia. apply frame_page. lia. }
  set (s2 := mkMm p' (fill_page ph d va (mm_mem s)) (mm_caches s)) in *.
  unfold upd_mem at 1. rewrite bind_modify, bind_gets. cbn [mm_mem set_mem set_pg].
  rewrite (read_phdr_image _ p Hp0 Hp1) by (intros a Ha; rewrite load8_memset, decide_False by (lia || by apply Hdis); by apply Him). fold ph.
  apply wp_bind. apply (wp_Ret _ tt s2).
  { unfold s2, fill_page. rewrite (u64_small (ph_vaddr ph + ph_filesz ph)) by lia. destruct (Z.ltb_spec va (ph_vaddr ph + ph_filesz ph)) as [Hlt|]; [|done].
    unfold upd_mem, modify. cbv zeta. f_equal. f_equal. unfold set_mem, set_pg. cbn [mm_pg mm_mem mm_caches]. f_equal.
    pose proof (Z.div_mod (ph_vaddr ph) 4096 ltac:(lia)). pose proof (Z.mod_pos_bound (ph_vaddr ph) 4096 ltac:(lia)). rewrite (u64_small (ph_vaddr ph + ph_filesz ph - va)) by lia.
    destruct (Z.ltb_spec va (ph_vaddr ph)).
    - rewrite (u64_small (ph_vaddr ph - va)), (u64_small (4096 - _)), (u64_small (d + _)), (u64_small (data + _)) by lia. f_equal. case_match; lia.
    - rewrite (u64_small (va - _)), (u64_small (ph_offset ph + _)), (u64_small (4096 - _)), (u64_small (d + _)), (u64_small (data + _)) by lia. f_equal. case_match; lia. }
  apply wp_bind. apply wp_safe; [by apply map_page_safe|]. intros [] s3 Hmap. split; [done|].
  destruct (map_loaded r s2 T A va f (seg_page ph va) s3 Hld2) as (T' & Hld3 & _); [lia|by apply Hst2| |exact Hfill|exact Hmap|by exists T'].
  cbn. unfold seg_flags. case_match; lia.
Qed.

(** *** Segments *)

Fixpoint add_pages (ph : elf64_phdr) (n : nat) (va : Z) (A : uspace) : uspace :=
  match n with
  | O => A
  | S n' => add_pages ph n' (va + 4096) (uset (va / 4096) (seg_page ph va) A)
  end.

Definition seg_start (ph : elf64_phdr) : Z := ph_vaddr ph / 4096 * 4096.
Definition seg_pages (ph : elf64_phdr) : Z := (ph_vaddr ph + ph_memsz ph + 4095) / 4096 - ph_vaddr ph / 4096.

Definition add_segment (A : uspace) (ph : elf64_phdr) : uspace :=
  if ph_type ph =? PT_LOAD then add_pages ph (Z.to_nat (seg_pages ph)) (seg_start ph) A else A.

Lemma load_pages_wp r p : ∀ n fuel s T A va,
  let ph := read_phdr m0 p in
  loading r s T A → 0 ≤ data → data + size < W64 → data ≤ p → p + SIZEOF_PHDR ≤ data + size → seg_ok ph → va mod 4096 = 0 →
  ph_vaddr ph / 4096 * 4096 ≤ va → va + 4096 * Z.of_nat n ≤ ph_vaddr ph + ph_memsz ph + 4095 → (n ≤ fuel)%nat →
  wp (load_pages fuel (space_at r) data p (seg_flags ph) va (va + 4096 * Z.of_nat n) s)
    (λ ok s', ok = true ∧ ∃ T', loading r s' T' (add_pages ph n va A)).
Proof.
  induction n as [|n IH]; intros fuel s T A va ph Hld Hd0 Hd1 Hp0 Hp1 Hseg Hva Hlo Hhi Hf.
  - destruct fuel; cbn [load_pages]; (destruct (Z.ltb_spec va (va + 4096 * Z.of_nat 0)); [lia|]); split; eauto.
  - destruct fuel as [|fuel]; [lia|]. cbn [load_pages]. destruct (Z.ltb_spec va (va + 4096 * Z.of_nat (S n))) as [_|]; [|lia].
    apply wp_bind. eapply wp_mono; [apply (load_page_wp r s T A p va Hld Hd0 Hd1 Hp0 Hp1 Hseg Hva); fold ph; lia|]. intros ok s1 (-> & T1 & Hld1).
    pose proof (sk_addr _ Hseg) as (H1 & H2 & H3). change (2 ^ 47) with 140737488355328 in H3. pose proof (Z.div_pos (ph_vaddr ph) 4096 H1 ltac:(lia)).
    rewrite u64_small by lia. replace (va + 4096 * Z.of_nat (S n)) with (va + 4096 + 4096 * Z.of_nat n) by lia. cbn [add_pages].
    apply (IH fuel s1 T1 (uset (va / 4096) (seg_page ph va) A) (va + 4096) Hld1); try done; try (fold ph; lia). by rewrite <- Z.add_mod_idemp_r, Z.add_0_r by done.
Qed.

Lemma seg_pages_bound ph : seg_ok ph → 0 ≤ seg_pages ph ∧ seg_start ph + 4096 * seg_pages ph ≤ ph_vaddr ph + ph_memsz ph + 4095 ∧ ph_vaddr ph + ph_memsz ph ≤ seg_start ph + 4096 * seg_pages ph.
Proof.
  intros [(H1 & H2 & H3) _]. unfold seg_pages, seg_start. pose proof (Z.div_mod (ph_vaddr ph) 4096 ltac:(lia)). pose proof (Z.mod_pos_bound (ph_vaddr ph) 4096 ltac:(lia)).
  set (e := ph_vaddr ph + ph_memsz ph + 4095). pose proof (Z.div_mod e 4096 ltac:(lia)). pose proof (Z.mod_pos_bound e 4096 ltac:(lia)).
  pose proof (Z.div_le_mono (ph_vaddr ph) e 4096 ltac:(lia) ltac:(lia)). lia.
Qed.

Lemma load_segment_wp r s T A p :
  let ph := read_phdr m0 p in
  loading r s T A → 0 ≤ data → data + size < W64 → data ≤ p → p + SIZEOF_PHDR ≤ data + size → (ph_type ph = PT_LOAD → seg_ok ph) →
  wp (load_segment (space_at r) data p s) (λ ok s', ok = true ∧ ∃ T', loading r s' T' (add_segment A ph)).
Proof.
  intros ph Hld Hd0 Hd1 Hp0 Hp1 Hseg. unfold load_segment, add_segment. rewrite bind_gets.
  rewrite (read_phdr_image _ p Hp0 Hp1 (ld_image _ _ _ _ Hld)). fold ph. destruct (Z.eqb_spec (ph_type ph) PT_LOAD) as [E|_]; cbn [negb]; [|split; eauto].
  specialize (Hseg E). pose proof (sk_addr _ Hseg) as (H1 & H2 & H3). change (2 ^ 47) with 140737488355328 in H3.
  destruct (seg_pages_bound ph Hseg) as (Hn & Hend & _). cbv zeta.
  rewrite (u64_small (ph_vaddr ph + ph_memsz ph)), (u64_small (_ + 0xfff)), !land_page_mask by lia. change 0xfff with 4095.
  replace ((ph_vaddr ph + ph_memsz ph + 4095) / 4096 * 4096) with (seg_start ph + 4096 * Z.of_nat (Z.to_nat (seg_pages ph))) by (unfold seg_start, seg_pages in *; lia).
  fold (seg_start ph). replace (seg_start ph + 4096 * Z.of_nat (Z.to_nat (seg_pages ph)) - seg_start ph) with (seg_pages ph * 4096) by lia. rewrite Z.div_mul by lia.
  replace (if negb (Z.land (ph_flags ph) PF_W =? 0) then _ else _) with (seg_flags ph) by (unfold seg_flags; by case_match).
  apply (load_pages_wp r p _ _ s T A (seg_start ph) Hld); try done; fold ph; unfold seg_start in *; try lia. by apply Z_mod_mult.
Qed.

(** The program headers of the image. *)
Definition ehdr : elf64_hdr := read_ehdr m0 data.
Definition phdr_addr (i : Z) : Z := data + eh_phoff ehdr + i * eh_phentsize ehdr.
Definition phdrs : list elf64_phdr := (λ i, read_phdr m0 (phdr_addr i)) <$> seqZ 0 (eh_phnum ehdr).

(** A well-formed executable: the table of program headers lies in the file, and
    every loadable segment is well formed. *)
Record image_ok : Prop := {
  im_range : 0 ≤ data ∧ SIZEOF_EHDR ≤ size ∧ data + size < W64;
  im_magic : eh_magic ehdr = ELF_MAGIC ∧ eh_bits ehdr = 2 ∧ eh_machine ehdr = EM_X86_64 ∧ eh_type ehdr = ET_EXEC;
  im_table : SIZEOF_PHDR ≤ eh_phentsize ehdr ∧ eh_phoff ehdr + eh_phnum ehdr * eh_phentsize ehdr ≤ size ∧ eh_phnum ehdr * eh_phentsize ehdr ≤ 2147483647;
  im_segs : ∀ ph, ph ∈ phdrs → ph_type ph = PT_LOAD → seg_ok ph;
}.

Lemma read_ehdr_image m : SIZEOF_EHDR ≤ size → (∀ a, data ≤ a < data + size → load8 m a = load8 m0 a) → read_ehdr m data = ehdr.
Proof.
  unfold SIZEOF_EHDR. intros Hs Hm. unfold ehdr, read_ehdr, load32, load64, load16.
  rewrite !(load_le_ext _ m m0) by (intros; apply Hm; lia). by rewrite Hm by lia.
Qed.

Lemma ehdr_ranges : 0 ≤ eh_phoff ehdr ∧ 0 ≤ eh_phentsize ehdr ∧ 0 ≤ eh_phnum ehdr < 65536.
Proof.
  split_and!; [apply (load_le_range 8)|apply (load_le_range 2)|apply (load_le_range 2)|]. apply (load_le_range 2 m0 (data + 56)).
Qed.

Lemma load_segments_wp r : image_ok → ∀ n fuel s T A i,
  loading r s T A → 0 ≤ i → i + Z.of_nat n = eh_phnum ehdr → (n ≤ fuel)%nat →
  wp (load_segments fuel (space_at r) data i s)
    (λ ok s', ok = true ∧ ∃ T', loading r s' T' (foldl add_segment A ((λ i, read_phdr m0 (phdr_addr i)) <$> seqZ i (Z.of_nat n)))).
Proof.
  intros [(Hd0 & Hsz & Hd1) _ (He & Ht & Hov) Hsegs]. pose proof ehdr_ranges as (Ho & He0 & Hn). unfold SIZEOF_EHDR, SIZEOF_PHDR in *.
  induction n as [|n IH]; intros fuel s T A i Hld Hi Hin Hf.
  - destruct fuel; cbn [load_segments]; rewrite bind_gets, (read_ehdr_image _ Hsz (ld_image _ _ _ _ Hld));
      (destruct (Z.ltb_spec i (eh_phnum ehdr)); [lia|]); split; eauto.
  - destruct fuel as [|fuel]; [lia|]. cbn [load_segments]. rewrite bind_gets, (read_ehdr_image _ Hsz (ld_image _ _ _ _ Hld)).
    destruct (Z.ltb_spec i (eh_phnum ehdr)) as [Hlt|]; [|lia].
    assert (0 ≤ i * eh_phentsize ehdr ∧ i * eh_phentsize ehdr + eh_phentsize ehdr ≤ eh_phnum ehdr * eh_phentsize ehdr) as [Hm1 Hm2] by nia.
    destruct (Z.ltb_spec 2147483647 (i * eh_phentsize ehdr)) as [?|_]; [lia|]. rewrite (u64_small (data + eh_phoff ehdr)), (u64_small (_ + i * _)) by lia. fold (phdr_addr i).
    apply wp_bind. eapply wp_mono; [apply (load_segment_wp r s T A (phdr_addr i) Hld Hd0 Hd1)|].
    + unfold phdr_addr. lia.
    + unfold phdr_addr, SIZEOF_PHDR. lia.
    + apply Hsegs. apply list_elem_of_fmap. exists i. split; [done|]. apply elem_of_seqZ. lia.
    + intros ok s1 (-> & T1 & Hld1). rewrite seqZ_cons by lia. replace (Z.pred (Z.of_nat (S n))) with (Z.of_nat n) by lia. cbn [fmap list_fmap foldl].
      change (Z.succ i) with (i + 1). apply (IH fuel s1 T1 _ (i + 1) Hld1); lia.
Qed.

Lemma elf_load_wp r s T A :
  image_ok → loading r s T A →
  wp (elf_load (space_at r) data size s)
    (λ res s', res = (eh_entry ehdr, ""%string) ∧ ∃ T', loading r s' T' (foldl add_segment A phdrs)).
Proof.
  intros Hiok Hld. pose proof Hiok as [(Hd0 & Hsz & Hd1) (E1 & E2 & E3 & E4) _ _]. pose proof ehdr_ranges as (_ & _ & Hn). unfold elf_load.
  destruct (Z.ltb_spec size SIZEOF_EHDR) as [?|_]; [lia|]. rewrite bind_gets, (read_ehdr_image _ Hsz (ld_image _ _ _ _ Hld)).
  rewrite E1, E2, E3, E4. cbn [negb]. rewrite !Z.eqb_refl. cbn [negb]. apply wp_bind.
  eapply wp_mono; [apply (load_segments_wp r Hiok (Z.to_nat (eh_phnum ehdr)) _ s T A 0 Hld); lia|]. intros ok s' (-> & T' & Hld').
  rewrite bind_gets, (read_ehdr_image _ Hsz (ld_image _ _ _ _ Hld')). split; [done|]. exists T'. by rewrite Z2Nat.id in Hld' by lia.
Qed.

(** ** Reading the result *)

(** The byte a program in the space of [r] reads at [x]. *)
Definition user_read s (T : gmap (Z * Z * Z) Z) (r x : Z) : option Z :=
  e ← pte_of s T r (x / 4096); Some (load8 (mm_mem s) (ENTRY_TO_PHYS e + x mod 4096 + hhdm_offset)).

Lemma user_read_page r s T A x g v :
  tables_ok s T → space_is s T r A → A (x / 4096) = Some g → 0 ≤ up_flags g < 4096 → up_byte g (x mod 4096) = Some v → user_read s T r x = Some v.
Proof.
  intros Hok Hs HA Hfl Hv. pose proof (Hs (x / 4096)) as Hsp. rewrite HA in Hsp. destruct Hsp as (f & E1 & E2 & _ & E4).
  pose proof (vt_hhdm _ _ Hok) as [Hh0 Hh1]. pose proof (Z.mod_pos_bound x 4096 ltac:(lia)).
  unfold user_read. rewrite E1. cbn. rewrite (proj1 (leaf_entry_low (f * 4096) (up_flags g) ltac:(lia) Hfl)), Z.div_mul by lia.
  f_equal. rewrite <- (E4 (x mod 4096) v) by done. f_equal. lia.
Qed.

(** The pages of a segment. *)
Definition in_pages (ph : elf64_phdr) (v : Z) : Prop := seg_start ph / 4096 ≤ v < seg_start ph / 4096 + seg_pages ph.

Lemma add_pages_lookup ph n : ∀ va A v, va mod 4096 = 0 →
  add_pages ph n va A v = if decide (va / 4096 ≤ v < va / 4096 + Z.of_nat n) then Some (seg_page ph (v * 4096)) else A v.
Proof.
  induction n as [|n IH]; intros va A v Hva; cbn [add_pages]; [by rewrite decide_False by lia|].
  assert ((va + 4096) / 4096 = va / 4096 + 1) as Ed by (rewrite <- (Z.div_add va 1 4096) by lia; f_equal; lia).
  rewrite IH by (by rewrite <- Z.add_mod_idemp_r, Z.add_0_r by done). rewrite Ed. unfold uset.
  pose proof (Z.div_mod va 4096 ltac:(lia)). repeat case_decide; try lia; try done. subst v. f_equal. f_equal. lia.
Qed.

Lemma add_segment_lookup A ph v : (ph_type ph = PT_LOAD → seg_ok ph) →
  add_segment A ph v = if decide (ph_type ph = PT_LOAD ∧ in_pages ph v) then Some (seg_page ph (v * 4096)) else A v.
Proof.
  intros Hok. unfold add_segment, in_pages. destruct (Z.eqb_spec (ph_type ph) PT_LOAD) as [E|E]; [|by rewrite decide_False by tauto].
  destruct (seg_pages_bound ph (Hok E)) as (Hn & _). rewrite add_pages_lookup by (apply Z_mod_mult).
  rewrite Z2Nat.id by done. repeat case_decide; try done; naive_solver.
Qed.

Lemma foldl_none l : ∀ A v, (∀ q, q ∈ l → ph_type q = PT_LOAD → seg_ok q) →
  (∀ q, q ∈ l → ph_type q = PT_LOAD → ¬ in_pages q v) → foldl add_segment A l v = A v.
Proof.
  induction l as [|q l IH]; intros A v Hok Hno; cbn [foldl]; [done|]. rewrite IH, add_segment_lookup, decide_False; [done| | | |].
  - intros [Hty Hv]. by apply (Hno q); [left|..].
  - apply Hok. by left.
  - intros; apply Hok; [by right|done].
  - intros; apply Hno; [by right|done].
Qed.

(** A page that belongs to one segment only has that segment's contents. *)
Lemma foldl_lookup l : ∀ A ph v, (∀ q, q ∈ l → ph_type q = PT_LOAD → seg_ok q) → ph ∈ l → ph_type ph = PT_LOAD → in_pages ph v →
  (∀ q, q ∈ l → ph_type q = PT_LOAD → in_pages q v → q = ph) → foldl add_segment A l v = Some (seg_page ph (v * 4096)).
Proof.
  induction l as [|q l IH] using rev_ind; intros A ph v Hok Hin Hty Hv Huniq; [by apply not_elem_of_nil in Hin|].
  rewrite foldl_snoc, add_segment_lookup by (apply Hok, elem_of_app; right; by left). case_decide as Hd.
  - by rewrite (Huniq q) by (tauto || apply elem_of_app; right; by left).
  - apply IH; [intros; apply Hok; [apply elem_of_app; by left|done]| |done|done|intros; apply Huniq; [apply elem_of_app; by left|done|done]].
    apply elem_of_app in Hin as [?|Hq%list_elem_of_singleton]; [done|]. subst q. exfalso. by apply Hd.
Qed.
End Image.

(** ** The properties *)

(** The part of a segment behind the file's bytes that elf_load clears: all of it when
    the segment starts on a page boundary, and otherwise what is far enough behind
    the file's bytes or not on the first page. *)
Definition cleared (ph : elf64_phdr) (i : Z) : Prop :=
  ph_vaddr ph mod 4096 = 0 ∨ ph_filesz ph + ph_vaddr ph mod 4096 ≤ i ∨ 4096 ≤ ph_vaddr ph mod 4096 + i.

Lemma seg_byte_at m0 data ph i :
  0 ≤ ph_vaddr ph → 0 ≤ i → 0 ≤ ph_filesz ph →
  let x := ph_vaddr ph + i in
  (i < ph_filesz ph → seg_byte m0 data ph (x / 4096 * 4096) x = Some (load8 m0 (data + ph_offset ph + i))) ∧
  (ph_filesz ph ≤ i → cleared ph i → seg_byte m0 data ph (x / 4096 * 4096) x = Some 0).
Proof.
  intros Hv Hi Hf x. unfold seg_byte, cleared. split; intros Hlt.
  - rewrite decide_True by lia. do 3 f_equal. unfold x. lia.
  - intros Hc. rewrite decide_False by lia. rewrite decide_False; [done|]. intros [Hlow Hx].
    pose proof (Z.div_mod (ph_vaddr ph) 4096 ltac:(lia)). pose proof (Z.mod_pos_bound (ph_vaddr ph) 4096 ltac:(lia)).
    pose proof (Z.div_mod x 4096 ltac:(lia)). pose proof (Z.mod_pos_bound x 4096 ltac:(lia)).
    pose proof (Z.div_le_mono (ph_vaddr ph) x 4096 ltac:(lia) ltac:(lia)).
    assert (x / 4096 = ph_vaddr ph / 4096) as Ex by nia. lia.
Qed.

(** No two loadable segments share a page. *)
Definition segs_apart (m0 : mem) (data : Z) : Prop :=
  ∀ ph q v, ph ∈ phdrs m0 data → q ∈ phdrs m0 data → ph_type ph = PT_LOAD → ph_type q = PT_LOAD →
    in_pages ph v → in_pages q v → ph = q.

(** What the abstract space of the loaded program has at byte [i] of a segment. *)
Lemma segment_at m0 data size ph i :
  image_ok m0 data size → segs_apart m0 data → ph ∈ phdrs m0 data → ph_type ph = PT_LOAD → 0 ≤ i < ph_memsz ph →
  let x := ph_vaddr ph + i in
  in_pages ph (x / 4096) ∧ ∃ g, foldl (add_segment m0 data) (λ _, None) (phdrs m0 data) (x / 4096) = Some g ∧ up_flags g = seg_flags ph ∧
    (i < ph_filesz ph → up_byte g (x mod 4096) = Some (load8 m0 (data + ph_offset ph + i))) ∧
    (ph_filesz ph ≤ i → cleared ph i → up_byte g (x mod 4096) = Some 0).
Proof.
  intros Him Hdisj Hph Hty Hi x. pose proof (im_segs _ _ _ Him) as Hsegs. destruct (Hsegs ph Hph Hty) as [(H1 & H2 & H3) _].
  destruct (seg_pages_bound _ ph (Hsegs ph Hph Hty)) as (Hn & _ & Hend).
  pose proof (Z.div_mod x 4096 ltac:(lia)) as Hx. pose proof (Z.mod_pos_bound x 4096 ltac:(lia)).
  assert (in_pages ph (x / 4096)) as Hin.
  { unfold in_pages. unfold seg_start in *. rewrite Z.div_mul by lia.
    pose proof (Z.div_le_mono (ph_vaddr ph) x 4096 ltac:(lia) ltac:(lia)). lia. }
  split; [done|]. exists (seg_page m0 data ph (x / 4096 * 4096)). split.
  { apply (foldl_lookup m0 data size); try done. intros q Hq Hqt Hqv. by apply (Hdisj q ph (x / 4096)). }
  split; [done|]. cbn [seg_page up_byte]. replace (x / 4096 * 4096 + x mod 4096) with x by lia. apply seg_byte_at; lia.
Qed.

(** C5. elf_load of a well-formed executable into an empty address space, when no two
    loadable segments share a page: it returns the entry point, and the program finds
    the bytes of the file where the program headers say, zeroes in the part of each
    segment behind them that [cleared] describes, and nothing mapped outside the
    pages of the segments. *)
Theorem elf_load_correct s (T : gmap (Z * Z * Z) Z) (r data size : Z) :
  tables_ok s T → T !! (r, 3, 0) = Some r → 0 ∉ fa_free (mm_pg s) → (∀ v, pte_of s T r v = None) →
  (∀ a, data ≤ a < data + size → stable s T r a) → image_ok (mm_mem s) data size →
  segs_apart (mm_mem s) data →
  wp (elf_load (space_at r) data size s) (λ res s', res = (eh_entry (ehdr (mm_mem s) data), ""%string) ∧
    ∃ T', tables_ok s' T' ∧ T' !! (r, 3, 0) = Some r ∧
    (∀ ph, ph ∈ phdrs (mm_mem s) data → ph_type ph = PT_LOAD → ∀ i, 0 ≤ i < ph_memsz ph →
       (i < ph_filesz ph → user_read s' T' r (ph_vaddr ph + i) = Some (load8 (mm_mem s) (data + ph_offset ph + i))) ∧
       (ph_filesz ph ≤ i → cleared ph i → user_read s' T' r (ph_vaddr ph + i) = Some 0)) ∧
    (∀ v, (∀ ph, ph ∈ phdrs (mm_mem s) data → ph_type ph = PT_LOAD → ¬ in_pages ph v) → pte_of s' T' r v = None)).
Proof.
  intros Hok HT H0 Hempty Hst Him Hdisj. eapply wp_mono; [apply (elf_load_wp s T (mm_mem s) data size r s T (λ _, None) Him)|].
  { split; try done; [apply grows_refl|split; intros *; by rewrite Hempty]. }
  intros res s' (-> & T' & Hld). split; [done|]. exists T'. split; [apply Hld|]. split; [apply Hld|]. split.
  - intros ph Hph Hty i Hi. destruct (segment_at _ _ _ ph i Him Hdisj Hph Hty Hi) as (_ & g & HA & Hfl & Hb1 & Hb2).
    assert (0 ≤ up_flags g < 4096) by (rewrite Hfl; unfold seg_flags; case_match; lia).
    split; intros; (eapply user_read_page; [apply Hld|apply Hld|exact HA|done|eauto]).
  - intros v Hv. pose proof (ld_space _ _ _ _ _ _ _ _ _ Hld v) as Hsp. rewrite (foldl_none (mm_mem s) data size) in Hsp; [done|apply Him|done].
Qed.

(** A file that is too short or whose header is not that of an x86-64 executable is
    refused: the result is 0 and nothing has changed, whatever the bytes are. *)
Theorem elf_load_rejects s (space : addr_space) (data size : Z) :
  (size < SIZEOF_EHDR ∨ eh_magic (ehdr (mm_mem s) data) ≠ ELF_MAGIC ∨ eh_bits (ehdr (mm_mem s) data) ≠ 2 ∨
   eh_machine (ehdr (mm_mem s) data) ≠ EM_X86_64 ∨ eh_type (ehdr (mm_mem s) data) ≠ ET_EXEC) →
  ∃ msg, elf_load space data size s = Ret ((0, msg), s).
Proof.
  intros Hbad. unfold elf_load. destruct (Z.ltb_spec size SIZEOF_EHDR); [by eexists|]. rewrite bind_gets. unfold ehdr in Hbad.
  set (h := read_ehdr (mm_mem s) data) in *. destruct (Z.eqb_spec (eh_magic h) ELF_MAGIC); cbn [negb]; [|by eexists].
  destruct (Z.eqb_spec (eh_bits h) 2); cbn [negb]; [|by eexists]. destruct (Z.eqb_spec (eh_machine h) EM_X86_64); cbn [negb]; [|by eexists].
  destruct (Z.eqb_spec (eh_type h) ET_EXEC); cbn [negb]; [|by eexists]. exfalso. destruct Hbad as [?|[?|[?|[?|?]]]]; (lia || contradiction).
Qed.

Lemma tables_set_mem s T m :
  tables_ok s T → (∀ a k, T !! k = Some (frame_of a) → load8 m a = load8 (mm_mem s) a) → tables_ok (set_mem m s) T.
Proof. intros Hok Hm. by apply (tables_frame s (set_mem m s) T Hok (vt_wf _ _ Hok)). Qed.

End ElfThms.

(** ** A concrete executable

    One segment of 4 file bytes and 8 bytes in memory, in the file at offset 120
    behind the two headers. *)

Definition demo_image (vaddr : Z) : list (nat * Z * Z) :=
  [(4%nat, 0, ELF_MAGIC); (1%nat, 4, 2); (2%nat, 16, ET_EXEC); (2%nat, 18, EM_X86_64); (8%nat, 24, 0x400000); (8%nat, 32, 64);
   (2%nat, 54, SIZEOF_PHDR); (2%nat, 56, 1);
   (4%nat, 64, PT_LOAD); (4%nat, 68, 7); (8%nat, 72, 120); (8%nat, 80, vaddr); (8%nat, 96, 4); (8%nat, 104, 8);
   (8%nat, 120, 0x1122334455667788)].

Definition demo_data : Z := hhdm_offset + 0x20000.
Definition demo_elf_mem (vaddr : Z) : mem :=
  foldl (λ m '(n, o, v), store_le n m (demo_data + o) v) (mm_mem (vm_mm demo_vm3)) (demo_image vaddr).
Definition demo_elf (vaddr : Z) : mm_state pmm_state := set_mem (demo_elf_mem vaddr) (vm_mm demo_vm3).

(** When the segment does not start on a page boundary, the byte behind its file part
    is not cleared: the program finds the next byte of the file in its bss. *)
Theorem elf_bss_not_cleared :
  match elf_load (space_at 4) demo_data 128 (demo_elf 0x400100) with
  | Ret ((entry, _), s') =>
      match vmm_get_mapping (space_at 4) 0x400000 s' with
      | Ret (Some (phys, _), _) => entry = 0x400000 ∧ load8 (mm_mem s') (phys + hhdm_offset + 0x104) = 0x44
      | _ => False
      end
  | _ => False
  end.
Proof. vm_compute. split; reflexivity. Qed.

Abbreviation demo_exe := (demo_elf 0x400000).

Lemma demo_elf_frame a : frame_of a ≠ 0x20 → load8 (demo_elf_mem 0x400000) a = load8 (mm_mem (vm_mm demo_vm3)) a.
Proof.
  intros Ha. unfold demo_elf_mem, demo_image. cbn [foldl].
  assert (∀ n o m v, 0 ≤ o → o + Z.of_nat n ≤ 4096 → load8 (store_le n m (demo_data + o) v) a = load8 m a) as H.
  { intros n o m v Ho Hn. rewrite load8_store_le, decide_False; [done|]. intros Hin. apply Ha. unfold frame_of. symmetry.
    apply (Z.div_unique _ _ _ (a - demo_data)); unfold demo_data in *; lia. }
  rewrite !H by lia. done.
Qed.

Lemma demo_elf_tables : tables_ok demo_exe demo_tables.
Proof.
  unfold demo_elf. apply tables_set_mem; [exact (proj2 demo_vm3_ok)|].
  intros a k Hk. apply (demo_elf_frame a). intros E. rewrite E in Hk. unfold demo_tables in Hk.
  apply lookup_insert_Some in Hk as [[_ ?]|[_ Hk]]; [done|]. apply lookup_singleton_Some in Hk as [_ ?]. done.
Qed.

Lemma demo_phdrs : phdrs (mm_mem demo_exe) demo_data = [mkPhdr PT_LOAD 7 120 0x400000 4 8].
Proof. vm_compute. reflexivity. Qed.

Lemma demo_image_ok : image_ok (mm_mem demo_exe) demo_data 128.
Proof.
  split; try (vm_compute; intuition discriminate). intros ph. rewrite demo_phdrs. intros ->%list_elem_of_singleton _. split; vm_compute; intuition discriminate.
Qed.

Lemma demo_image_stable a : demo_data ≤ a < demo_data + 128 → stable demo_exe demo_tables 4 a.
Proof.
  intros Ha. assert (frame_of a = 0x20) as E by (unfold frame_of; symmetry; apply (Z.div_unique _ _ _ (a - demo_data)); unfold demo_data in *; lia).
  split; rewrite E.
  - apply (bool_decide_unpack _). vm_compute. exact I.
  - intros l pre H. unfold demo_tables in H. apply lookup_insert_Some in H as [[_ ?]|[_ H]]; [done|]. apply lookup_singleton_Some in H as [_ ?]. done.
Qed.

Lemma elf_load_correct_witness :
  wp (elf_load (space_at 4) demo_data 128 demo_exe) (λ res s', ∃ T',
    user_read s' T' 4 (0x400000 + 3) = Some (load8 (mm_mem demo_exe) (demo_data + 120 + 3)) ∧ user_read s' T' 4 (0x400000 + 4) = Some 0).
Proof.
  eapply wp_mono; [apply (elf_load_correct demo_exe demo_tables 4 demo_data 128 demo_elf_tables demo_user_root)|].
  - apply (bool_decide_unpack _). vm_compute. exact I.
  - intros v. unfold pte_of, demo_tables. rewrite lookup_insert_ne, lookup_singleton_ne by done. reflexivity.
  - exact demo_image_stable.
  - exact demo_image_ok.
  - intros ph q v. rewrite demo_phdrs. intros ->%list_elem_of_singleton ->%list_elem_of_singleton _ _ _ _. reflexivity.
  - intros res s' (_ & T' & _ & _ & Hread & _). exists T'. rewrite demo_phdrs in Hread.
    specialize (Hread _ ltac:(by left) eq_refl). split; [apply (Hread 3)|apply (Hread 4)]; cbn; try lia. by left.
Defined.

Lemma elf_load_rejects_witness : ∃ msg, elf_load (space_at 4) demo_data 10 demo_exe = Ret ((0, msg), demo_exe).
Proof. apply elf_load_rejects. left. reflexivity. Defined.
