(* ===== verification/UserPath.v ===== *)
(** * Paths in user space (user/lib/fs.c, spawn of user/lib/proc.c, and the copies
    of join in user/bin/ls.c and user/bin/cat.c)

    join makes an absolute path "drive:/a/b" from the working directory and what the
    user typed.  Strings are the lists of their bytes before the terminator. *)

From S2P Require Import Prelude ByteMem FrameAlloc CStr Printf UserLib Vfs VfsThms.

(** PUSH_TOK: the token onto the components; [None] is the return of -1. *)
Definition PUSH_TOK (tok : list Z) (cs : list (list Z)) : option (list (list Z)) :=
  if 0 <? Z.of_nat (length tok) then
    if str_diff tok (chars ".") =? 0 then Some cs
    else if str_diff tok (chars "..") =? 0 then Some (take (pred (length cs)) cs)
    else if 32 <=? Z.of_nat (length cs) then None
    else Some (cs ++ [take 63 tok])
  else Some cs.

(** The loop over a path and the PUSH_TOK after it; [tok] has 64 bytes. *)
Fixpoint scan_path (p tok : list Z) (cs : list (list Z)) : option (list (list Z)) :=
  match p with
  | [] => PUSH_TOK tok cs
  | c :: p' =>
      if c =? 47 then cs' ← PUSH_TOK tok cs; scan_path p' [] cs'
      else if Z.of_nat (length tok) <? 63 then scan_path p' (tok ++ [c]) cs
      else scan_path p' tok cs
  end.

(** The loop that prints the components; [out] is in the buffer already. *)
Fixpoint print_comps (out_size : Z) (out : list Z) (cs : list (list Z)) : outcome (option (list Z)) :=
  match cs with
  | [] => Ret (Some out)
  | c :: cs' =>
      let room := out_size -64 Z.of_nat (length out) in
      s <~ UserPrintf.vsnprintf room (chars "%s%s")
             [VaStr (Some c); VaStr (Some (match cs' with [] => [] | _ => [47] end))] ;;
      let n := s32 (Z.of_nat (length s)) in
      if (n <? 0) || (room <=? n) then Ret None else print_comps out_size (out ++ s) cs'
  end.

(** What join leaves in [out]; [None] is -1. *)
Definition join (out_size : Z) (cwd input : list Z) : outcome (option (list Z)) :=
  match first_index 58 input with
  | Some _ => Ret (Some (take (Z.to_nat (out_size -64 1)) input))
  | None =>
      match first_index 58 cwd with
      | None => Ret None
      | Some colon =>
          let drive_len := Z.of_nat colon + 1 in
          if 8 <=? drive_len then Ret None
          else
            let drive := take (Z.to_nat drive_len) cwd in
            let cs := cs ← (if bool_decide (head input = Some 47) then Some []
                            else scan_path (drop (S colon) cwd) [] []);
                      scan_path input [] cs in
            match cs with
            | None => Ret None
            | Some cs =>
                out <~ UserPrintf.vsnprintf out_size (chars "%s/") [VaStr (Some drive)] ;;
                let n := s32 (Z.of_nat (length out)) in
                if (n <? 0) || (out_size <=? n) then Ret None else print_comps out_size out cs
            end
      end
  end.

(** The copies in the programs. *)
Definition ls_path_join := join.
Definition cat_path_join := join.

(** The path that open, listdir and spawn hand to the kernel; [cwd] is what getcwd
    gives, [None] its failure. *)
Definition resolve_user_path (cwd : option (list Z)) (path : list Z) : outcome (option (list Z)) :=
  match first_index 58 path with
  | Some _ => Ret (Some path)
  | None => match cwd with None => Ret None | Some cwd => join 256 cwd path end
  end.

(** The system calls that open, listdir and spawn make: the number, and the strings
    the registers point to.  [None] is their early return of -1. *)
Definition open (cwd : option (list Z)) (path : list Z) : outcome (option (Z * list Z)) :=
  p <~ resolve_user_path cwd path ;; Ret (pair 11 <$> p).
Definition listdir (cwd : option (list Z)) (path : list Z) : outcome (option (Z * list Z)) :=
  p <~ resolve_user_path cwd path ;; Ret (pair 7 <$> p).
Definition spawn (cwd : option (list Z)) (name : list Z) (argv : list (list Z)) :
    outcome (option (Z * list Z * list (list Z))) :=
  p <~ resolve_user_path cwd name ;; Ret ((λ name, (4, name, name :: argv)) <$> p).

(** ** The reference: "." stays, ".." goes up, and not above the root *)

Definition norm_step (cs : list (list Z)) (c : list Z) : list (list Z) :=
  if decide (c = chars ".") then cs
  else if decide (c = chars "..") then take (pred (length cs)) cs
  else cs ++ [c].
Definition normalize (cs : list (list Z)) : list (list Z) := foldl norm_step [] cs.

(** An absolute path on a drive. *)
Definition abs_path (cs : list (list Z)) : list Z := match cs with [] => [47] | _ => join_path cs end.

(** The components that a command line argument means in a working directory. *)
Definition meant (rel input : list Z) : list (list Z) :=
  (if bool_decide (head input = Some 47) then [] else components rel) ++ components input.

(** ** Tokens and components *)

Lemma push_nil cs : PUSH_TOK [] cs = Some cs.
Proof. done. Qed.

Lemma push_norm tok cs :
  tok ≠ [] → Forall (λ c, 0 < c) tok → (length tok < 64)%nat → (length cs < 32)%nat →
  PUSH_TOK tok cs = Some (norm_step cs tok).
Proof.
  intros Hne Hpos Hl Hcs. unfold PUSH_TOK, norm_step.
  rewrite Forall_forall in Hpos.
  rewrite (str_diff_eqb tok (chars ".")), (str_diff_eqb tok (chars ".."))
    by (intros c [?|Hc]%elem_of_app; [auto|]; cbn in Hc; set_unfold in Hc; naive_solver lia).
  destruct (Z.ltb_spec 0 (Z.of_nat (length tok))); [|destruct tok; [done|simpl in *; lia]].
  rewrite !bool_decide_decide. repeat case_decide; try done.
  destruct (Z.leb_spec 32 (Z.of_nat (length cs))); [lia|]. by rewrite take_ge by lia.
Qed.

Lemma scan_token c : ∀ p tok cs,
  (47 ∉ c) → (length tok + length c < 64)%nat → scan_path (c ++ p) tok cs = scan_path p (tok ++ c) cs.
Proof.
  induction c as [|d c IH]; intros p tok cs Hs Hl; cbn [app]; [by rewrite app_nil_r|].
  apply not_elem_of_cons in Hs as [Hd Hs]. cbn [scan_path length] in *. destruct (Z.eqb_spec d 47); [congruence|].
  destruct (Z.ltb_spec (Z.of_nat (length tok)) 63); [|lia].
  rewrite IH by (done || rewrite length_app; simpl; lia). by rewrite <- app_assoc.
Qed.

(** A token that a slash or the end follows. *)
Lemma scan_push p tok cs :
  (p = [] ∨ ∃ q, p = 47 :: q) → scan_path p tok cs = cs' ← PUSH_TOK tok cs; scan_path p [] cs'.
Proof.
  intros [->|[q ->]]; cbn [scan_path].
  - by destruct (PUSH_TOK tok cs).
  - rewrite Z.eqb_refl. by destruct (PUSH_TOK tok cs).
Qed.

Lemma scan_slashes p cs : scan_path p [] cs = scan_path (skip_slashes p) [] cs.
Proof.
  induction p as [|c p IH]; cbn [skip_slashes]; [done|]. destruct (Z.eqb_spec c 47) as [->|]; [|done].
  cbn [scan_path]. rewrite Z.eqb_refl, push_nil. done.
Qed.

Lemma copy_component_stop n : ∀ p out rest,
  copy_component n p = (out, rest) → (length out < n)%nat → rest = [] ∨ ∃ q, rest = 47 :: q.
Proof.
  induction n as [|n IH]; intros [|c p] out rest E Hl; cbn [copy_component] in E;
    try (injection E as <- <-; first [by left | simpl in Hl; lia]).
  destruct (Z.eqb_spec c 47) as [->|]; [injection E as <- <-; eauto|].
  destruct (copy_component n p) as [o r] eqn:E'. injection E as <- <-. eapply IH; [done|simpl in Hl; lia].
Qed.

(** One component of the path. *)
Lemma scan_next p c p' cs :
  next_component p = Some (c, p') → (length c < 64)%nat →
  scan_path p [] cs = cs' ← PUSH_TOK c cs; scan_path p' [] cs'.
Proof.
  intros E Hl. destruct (next_component_spec _ _ _ E) as [(_ & Hs & _) _]. rewrite scan_slashes.
  unfold next_component in E. destruct (skip_slashes p) as [|d q]; [done|]. apply (inj Some) in E.
  change (Z.to_nat (MAX_NAME - 1)) with 255%nat in E.
  destruct (copy_component_spec _ _ _ _ E) as (-> & _ & _).
  rewrite scan_token by (done || simpl; lia). apply scan_push. eapply copy_component_stop; [exact E|lia].
Qed.

Lemma next_component_none p : next_component p = None → skip_slashes p = [].
Proof. unfold next_component. by destruct (skip_slashes p). Qed.

(** The whole loop, on a path whose components fit. *)
Lemma scan_components n : ∀ p cs,
  (length p < n)%nat → Forall (λ c, 0 < c) p → Forall (λ c : list Z, (length c < 64)%nat) (components p) →
  (length cs + length (components p) ≤ 32)%nat →
  scan_path p [] cs = Some (foldl norm_step cs (components p)).
Proof.
  induction n as [|n IH]; intros p cs Hn Hpos Hlen Hd; [lia|].
  destruct (next_component p) as [[c p']|] eqn:E.
  2:{ rewrite components_nil by done. by rewrite scan_slashes, next_component_none. }
  destruct (next_component_spec _ _ _ E) as [(Hne & _ & _) Hl]. destruct (next_component_chars _ _ _ E) as [Hc Hp'].
  rewrite (components_step _ _ _ E) in *. apply Forall_cons in Hlen as [Hlc Hlen]. cbn [length foldl] in *.
  rewrite Forall_forall in Hpos. rewrite (scan_next _ _ _ _ E Hlc), push_norm; [|done|by apply Forall_forall; auto|done|lia].
  cbn [mbind option_bind]. apply IH; [lia|apply Forall_forall; auto|done|].
  assert (length (norm_step cs c) ≤ S (length cs))%nat; [|lia].
  unfold norm_step. repeat case_decide; rewrite ?length_app, ?length_take; simpl; lia.
Qed.

(** ** Printing *)

Lemma put_plain size out c : Z.of_nat (length out) < size - 1 → 1 ≤ size < W64 → PUT size out c = out ++ [c].
Proof.
  intros H1 H2. unfold PUT. rewrite u64_small by lia. by destruct (Z.ltb_spec (Z.of_nat (length out)) (size - 1)); [|lia].
Qed.

(** "%s/" and "%s%s" in a buffer of [size] bytes, cut to fit. *)
Lemma vsnprintf_slash a size :
  1 ≤ size → size + Z.of_nat (length a) ≤ 2147483640 →
  vsnprintf size (chars "%s/") [VaStr (Some a)] = Ret (take (Z.to_nat (size - 1)) (a ++ [47])).
Proof.
  intros H1 H2. set (big := size + Z.of_nat (length a) + 3).
  rewrite (vsnprintf_prefix_eq size big) by (unfold big; lia).
  assert (vsnprintf big (chars "%s/") [VaStr (Some a)] = Ret (a ++ [47])) as ->; [|done].
  unfold vsnprintf. change (chars "%s/") with [37; 115; 47]. cbn [length vsnprintf_loop].
  change (negb (37 =? 37)) with false. change (negb (47 =? 37)) with true. cbv iota.
  change (parse_spec [115; 47] ?args) with (Ret (plain, [115; 47], args)).
  change (convert 115 ?sz) with (conv_s sz). cbn [obind].
  rewrite conv_s_plain by (unfold big; simpl; lia). cbn [obind app]. by rewrite put_plain by (unfold big; lia).
Qed.

Lemma vsnprintf_two a b size :
  1 ≤ size → size + Z.of_nat (length a) + Z.of_nat (length b) ≤ 2147483640 →
  vsnprintf size (chars "%s%s") [VaStr (Some a); VaStr (Some b)] = Ret (take (Z.to_nat (size - 1)) (a ++ b)).
Proof.
  intros H1 H2. set (big := size + Z.of_nat (length a) + Z.of_nat (length b) + 2).
  rewrite (vsnprintf_prefix_eq size big) by (unfold big; lia).
  assert (vsnprintf big (chars "%s%s") [VaStr (Some a); VaStr (Some b)] = Ret (a ++ b)) as ->; [|done].
  unfold vsnprintf. change (chars "%s%s") with [37; 115; 37; 115]. cbn [length vsnprintf_loop].
  change (negb (37 =? 37)) with false. cbv iota.
  change (parse_spec [115; 37; 115] ?args) with (Ret (plain, [115; 37; 115], args)).
  change (convert 115 ?sz) with (conv_s sz). cbn [obind].
  rewrite conv_s_plain by (unfold big; simpl; lia). cbn [obind app].
  change (parse_spec [115] ?args) with (Ret (plain, [115], args)). cbn [obind].
  rewrite conv_s_plain by (unfold big; simpl; lia). done.
Qed.

(** What the loop appends: the components with slashes between them. *)
Fixpoint with_slashes (cs : list (list Z)) : list Z :=
  match cs with
  | [] => []
  | c :: cs' => c ++ match cs' with [] => [] | _ => 47 :: with_slashes cs' end
  end.

Lemma join_with_slashes cs : abs_path cs = 47 :: with_slashes cs.
Proof.
  destruct cs as [|c cs]; [done|]. unfold abs_path, join_path. cbn [fmap list_fmap concat]. cbn [with_slashes app].
  f_equal. f_equal. clear c. induction cs as [|d cs IH]; [done|].
  cbn [fmap list_fmap concat with_slashes app]. f_equal. f_equal. exact IH.
Qed.

Lemma take_app_cut n (out x y : list Z) :
  (length out ≤ n)%nat → take n ((out ++ take (n - length out) x) ++ y) = take n (out ++ x ++ y).
Proof.
  intros Hl. rewrite <- app_assoc. rewrite !(take_app_ge out) by done. f_equal.
  set (k := (n - length out)%nat). destruct (decide (length x ≤ k)%nat) as [Hk|Hk]; [by rewrite (take_ge x) by done|].
  rewrite take_app_ge, length_take by (rewrite length_take; lia). rewrite (take_app_le x) by lia.
  replace (k - k `min` length x)%nat with 0%nat by lia. by rewrite take_0, app_nil_r.
Qed.

(** The tests of a result of snprintf never find a cut. *)
Lemma cut_fits room (x : list Z) :
  1 ≤ room ≤ 65536 →
  (s32 (Z.of_nat (length (take (Z.to_nat (room - 1)) x))) <? 0) ||
    (room <=? s32 (Z.of_nat (length (take (Z.to_nat (room - 1)) x)))) = false.
Proof.
  intros Hr. rewrite length_take. set (k := Z.of_nat (Z.to_nat (room - 1) `min` length x)).
  assert (0 ≤ k < room) as Hk by lia. clearbody k. unfold s32. rewrite Z.mod_small by lia. lia.
Qed.

Lemma print_comps_spec size cs : ∀ out,
  1 ≤ size ≤ 65536 → Z.of_nat (length out) < size → Forall (λ c : list Z, (length c < 64)%nat) cs →
  print_comps size out cs = Ret (Some (take (Z.to_nat (size - 1)) (out ++ with_slashes cs))).
Proof.
  induction cs as [|c cs IH]; intros out Hs Ho Hcs; cbn [print_comps with_slashes].
  - by rewrite app_nil_r, take_ge by lia.
  - apply Forall_cons in Hcs as [Hc Hcs]. rewrite u64_small by lia. cbv zeta.
    change UserPrintf.vsnprintf with vsnprintf.
    rewrite vsnprintf_two by (destruct cs; simpl; lia). cbn [obind].
    set (sep := match cs with [] => [] | _ => [47] end).
    rewrite cut_fits by lia.
    rewrite IH; [|done|rewrite length_app, length_take; lia|done]. do 2 f_equal.
    replace (Z.to_nat (size - Z.of_nat (length out) - 1)) with (Z.to_nat (size - 1) - length out)%nat by lia.
    rewrite take_app_cut by lia. f_equal. f_equal. unfold sep. destruct cs; [by rewrite app_nil_r|]. by rewrite <- app_assoc.
Qed.

(** ** Normal paths *)

Lemma normalize_sub cs c : c ∈ normalize cs → c ∈ cs ∧ c ≠ chars "." ∧ c ≠ chars "..".
Proof.
  unfold normalize. assert (∀ c, c ∈ ([] : list (list Z)) → c ≠ chars "." ∧ c ≠ chars "..") as H0 by (intros ? []%not_elem_of_nil).
  enough (∀ acc, (∀ c, c ∈ acc → c ≠ chars "." ∧ c ≠ chars "..") → c ∈ foldl norm_step acc cs →
    (c ∈ acc ∨ c ∈ cs) ∧ c ≠ chars "." ∧ c ≠ chars "..") as Hacc.
  { intros Hc. destruct (Hacc [] H0 Hc) as ([Hc'%not_elem_of_nil|?] & ?); [done|done]. }
  clear H0. induction cs as [|d cs IH]; intros acc Hacc Hc; cbn [foldl] in Hc; [split; [by left|by apply Hacc]|].
  assert (∀ x, x ∈ norm_step acc d → (x ∈ acc ∨ x = d) ∧ x ≠ chars "." ∧ x ≠ chars "..") as Hstep.
  { intros x. unfold norm_step. repeat case_decide.
    - intros Hx. split; [by left|by apply Hacc].
    - intros Hx. apply elem_of_take in Hx as (i & Hx%list_elem_of_lookup_2 & _). split; [by left|by apply Hacc].
    - intros [Hx| ->%list_elem_of_singleton]%elem_of_app; [split; [by left|by apply Hacc]|]. by split; [right|]. }
  destruct (IH (norm_step acc d)) as [[H1|H1] H2]; [intros x Hx; by apply Hstep|done| |].
  - destruct (Hstep _ H1) as [[?| ->] _]; (split; [|done]); [by left|right; by left].
  - split; [right; by right|done].
Qed.

Lemma normalize_forall (P : list Z → Prop) cs : Forall P cs → Forall P (normalize cs).
Proof. rewrite !Forall_forall. intros H c [Hc _]%normalize_sub. by apply H. Qed.

Lemma components_component p : Forall component (components p).
Proof.
  unfold components. generalize (S (length p)) as f. intros f. revert p.
  induction f as [|f IH]; intros p; cbn [comps]; [constructor|].
  destruct (next_component p) as [[c p']|] eqn:E; [|constructor].
  constructor; [by apply next_component_spec in E as [? _]|done].
Qed.

Lemma components_abs cs : Forall component cs → components (abs_path cs) = cs.
Proof. destruct cs; [done|]. apply components_join. Qed.

Lemma meant_component rel input : Forall component (meant rel input).
Proof.
  unfold meant. rewrite Forall_app. split; [|apply components_component].
  case_bool_decide; [constructor|apply components_component].
Qed.

(** Both loops of join. *)
Lemma join_scan rel input :
  Forall (λ c, 0 < c) (rel ++ input) → Forall (λ c : list Z, (length c < 64)%nat) (meant rel input) →
  (length (meant rel input) ≤ 32)%nat →
  (cs ← (if bool_decide (head input = Some 47) then Some [] else scan_path rel [] []); scan_path input [] cs) =
    Some (normalize (meant rel input)).
Proof.
  intros [Hr Hi]%Forall_app Hl Hn. unfold meant, normalize in *. rewrite foldl_app, length_app in *.
  apply Forall_app in Hl as [Hl1 Hl2]. case_bool_decide.
  - cbn [mbind option_bind]. eapply scan_components; [apply Nat.lt_succ_diag_r|done|done|]. simpl in *. lia.
  - rewrite (scan_components (S (length rel))) by (done || simpl; lia). cbn [mbind option_bind].
    eapply scan_components; [apply Nat.lt_succ_diag_r|done|done|].
    assert (∀ l acc, (length (foldl norm_step acc l) ≤ length acc + length l)%nat) as Hle.
    { induction l as [|d l IH]; intros acc; cbn [foldl length]; [lia|]. etrans; [apply IH|].
      unfold norm_step. repeat case_decide; rewrite ?length_app, ?length_take; simpl; lia. }
    specialize (Hle (components rel) []). simpl in Hle. lia.
Qed.

Lemma join_run size ds rel input :
  2 ≤ size ≤ 65536 → (58 ∉ ds) → (length ds ≤ 6)%nat → (58 ∉ input) → Forall (λ c, 0 < c) (rel ++ input) →
  Forall (λ c : list Z, (length c < 64)%nat) (meant rel input) → (length (meant rel input) ≤ 32)%nat →
  join size (ds ++ 58 :: rel) input =
    Ret (Some (take (Z.to_nat (size - 1)) (ds ++ 58 :: abs_path (normalize (meant rel input))))).
Proof.
  intros Hs Hds Hdl Hin Hpos Hl Hn. unfold join.
  apply first_index_None in Hin as ->. rewrite first_index_app by done. cbv zeta.
  destruct (Z.leb_spec 8 (Z.of_nat (length ds) + 1)); [lia|].
  replace (drop (S (length ds)) (ds ++ 58 :: rel)) with rel.
  2:{ rewrite drop_app_ge by lia. by replace (S (length ds) - length ds)%nat with 1%nat by lia. }
  rewrite join_scan by done. replace (take (Z.to_nat (Z.of_nat (length ds) + 1)) (ds ++ 58 :: rel)) with (ds ++ [58]).
  2:{ rewrite take_app_ge by lia. by replace (Z.to_nat (Z.of_nat (length ds) + 1) - length ds)%nat with 1%nat by lia. }
  change UserPrintf.vsnprintf with vsnprintf. rewrite vsnprintf_slash by (rewrite ?length_app; simpl; lia).
  cbn [obind]. rewrite cut_fits by lia.
  rewrite print_comps_spec; [|lia|rewrite length_take; lia|by apply normalize_forall].
  do 2 f_equal. rewrite join_with_slashes.
  replace (take _ ((ds ++ [58]) ++ [47])) with ([] ++ take (Z.to_nat (size - 1) - length (@nil Z)) ((ds ++ [58]) ++ [47]))
    by (cbn [app length]; by rewrite Nat.sub_0_r).
  rewrite take_app_cut by (simpl; lia). cbn [app]. by rewrite <- !app_assoc.
Qed.

(** A drive number of six digits is an int. *)
Lemma six_digits ds : Forall (is_digit 10) ds → (length ds ≤ 6)%nat → num_value 10 ds ≤ 2147483647.
Proof.
  intros Hd Hl. unfold num_value.
  enough (∀ n, 0 ≤ n → foldl (λ v c, v * 10 + digit_value c) n ds < (n + 1) * 10 ^ Z.of_nat (length ds)) as H.
  { specialize (H 0 ltac:(lia)). assert (10 ^ Z.of_nat (length ds) ≤ 10 ^ 6) by (apply Z.pow_le_mono_r; lia). lia. }
  clear Hl. induction Hd as [|c ds Hc _ IH]; intros n Hn; cbn [foldl length]; [lia|].
  destruct Hc as [_ Hc]. specialize (IH (n * 10 + digit_value c) ltac:(lia)).
  rewrite Nat2Z.inj_succ, Z.pow_succ_r by lia. nia.
Qed.

(** ** The properties *)

(** C26. The path that join makes from the working directory and what was typed,
    when it fits the buffer: the kernel takes it apart into the drive of the working
    directory and the components that were meant, with every "." gone and every ".."
    one directory up (and not above the root). *)
Theorem join_correct (size : Z) (ds rel input : list Z) :
  2 ≤ size ≤ 65536 → Forall (is_digit 10) ds → (length ds ≤ 6)%nat → (58 ∉ input) →
  Forall (λ c, 0 < c) (rel ++ input) →
  Forall (λ c : list Z, (length c < 64)%nat) (meant rel input) → (length (meant rel input) ≤ 32)%nat →
  Z.of_nat (length (ds ++ 58 :: abs_path (normalize (meant rel input)))) < size →
  ∃ out path, join size (ds ++ 58 :: rel) input = Ret (Some out) ∧
    parse_path out = Ret (Some (num_value 10 ds, path)) ∧ components path = normalize (meant rel input) ∧
    (∀ c, c ∈ components path → c ∈ meant rel input ∧ c ≠ chars "." ∧ c ≠ chars "..") ∧
    (∀ cwd, join size cwd out = Ret (Some out)).
Proof.
  intros Hs Hds Hdl Hin Hpos Hl Hn Hfit.
  set (cs := normalize (meant rel input)) in *. set (out := ds ++ 58 :: abs_path cs) in *.
  assert (58 ∉ ds) as Hnc.
  { intros Hc. rewrite Forall_forall in Hds. destruct (Hds _ Hc) as [? Hv]. unfold digit_value in Hv. cbn in Hv. lia. }
  assert (take (Z.to_nat (size - 1)) out = out) as Htake by (apply take_ge; lia).
  assert (components (abs_path cs) = cs) as Hcs.
  { apply components_abs. apply normalize_forall, meant_component. }
  exists out, (abs_path cs). split_and!.
  - rewrite join_run by done. by fold cs out; rewrite Htake.
  - apply parse_path_drive; [done|]. by apply six_digits.
  - done.
  - rewrite Hcs. intros c. apply normalize_sub.
  - intros cwd. unfold join. unfold out at 1. rewrite first_index_app by done. fold out.
    rewrite u64_small by lia. by rewrite Htake.
Qed.

Lemma join_correct_witness : ∃ out path,
  join 256 (chars "0:/bin/tools") (chars "../../etc/./motd") = Ret (Some out) ∧
  parse_path out = Ret (Some (0, path)) ∧ components path = [chars "etc"; chars "motd"].
Proof.
  destruct (join_correct 256 (chars "0") (chars "/bin/tools") (chars "../../etc/./motd")) as (out & path & H1 & H2 & H3 & _).
  - lia.
  - repeat constructor; vm_compute; intuition congruence.
  - cbn. lia.
  - refine (bool_decide_unpack _ _). by vm_compute.
  - vm_compute. repeat constructor.
  - vm_compute. repeat constructor.
  - vm_compute. repeat constructor.
  - by vm_compute.
  - exists out, path. split; [exact H1|]. split; [exact H2|]. rewrite H3. by vm_compute.
Defined.

(** A path that does not fit is cut and handed over as if it did: the result of
    snprintf is the number of characters it wrote, so the tests of join never see
    that characters were lost. *)
Theorem join_cuts_silently (size : Z) (ds rel input : list Z) :
  2 ≤ size ≤ 65536 → (58 ∉ ds) → (length ds ≤ 6)%nat → (58 ∉ input) → Forall (λ c, 0 < c) (rel ++ input) →
  Forall (λ c : list Z, (length c < 64)%nat) (meant rel input) → (length (meant rel input) ≤ 32)%nat →
  size ≤ Z.of_nat (length (ds ++ 58 :: abs_path (normalize (meant rel input)))) →
  ∃ out, join size (ds ++ 58 :: rel) input = Ret (Some out) ∧ Z.of_nat (length out) = size - 1 ∧
    out ≠ ds ++ 58 :: abs_path (normalize (meant rel input)).
Proof.
  intros Hs Hds Hdl Hin Hpos Hl Hn Hfull. eexists. rewrite join_run by done. split; [done|].
  assert (∀ l : list Z, size ≤ Z.of_nat (length l) → Z.of_nat (length (take (Z.to_nat (size - 1)) l)) = size - 1) as Hlen
    by (intros l Hl'; rewrite length_take; lia).
  rewrite Hlen by done. split; [done|]. intros E. apply (f_equal length) in E. specialize (Hlen _ Hfull). lia.
Qed.
