(* ===== verification/Shell.v ===== *)
(** * The shell (user/init/shell.c)

    Reading a line with its echo, splitting it in place into words, and what the
    shell does with the words: change directory, set the directory of programs, or
    spawn a program.  The line is split in memory, since the words are pointers into
    it; the other strings are the lists of their bytes. *)

From S2P Require Import Prelude ByteMem FrameAlloc CStr Printf UserLib Vfs VfsThms UserPath.

(** ** readline

    [input] are the characters that read(STDIN) will deliver; the result is the
    line, what was printed and the characters left, or [None] while it waits. *)
Fixpoint readline (max : Z) (out echo input : list Z) : option (list Z * list Z * list Z) :=
  let i := Z.of_nat (length out) in
  if i <? max - 1 then
    match input with
    | [] => None
    | c :: input' =>
        if (c =? 13) || (c =? 10) then Some (out, echo ++ [10], input')
        else if (c =? 8) || (c =? 127) then
          if 0 <? i then readline max (take (pred (length out)) out) (echo ++ [8; 32; 8]) input'
          else readline max out echo input'
        else readline max (out ++ [c]) (echo ++ (if c =? 0 then [] else [c])) input'
    end
  else Some (out, echo, input).

(** ** parse_args *)

Fixpoint skip_spaces (fuel : nat) (m : mem) (p : Z) : outcome Z :=
  match fuel with
  | O => Diverge
  | S f => if load8 m p =? 32 then skip_spaces f m (p + 1) else Ret p
  end.

Fixpoint skip_word (fuel : nat) (m : mem) (p : Z) : outcome Z :=
  match fuel with
  | O => Diverge
  | S f => if negb (load8 m p =? 0) && negb (load8 m p =? 32) then skip_word f m (p + 1) else Ret p
  end.

(** The outer loop; [args] are the pointers stored so far in the array of 32. *)
Fixpoint parse_loop (fuel : nat) (m : mem) (p : Z) (args : list Z) : outcome (mem * list Z) :=
  match fuel with
  | O => Diverge
  | S f =>
      if load8 m p =? 0 then Ret (m, args)
      else
        p <~ skip_spaces (str_fuel m) m p ;;
        if load8 m p =? 0 then Ret (m, args)
        else if 32 <=? Z.of_nat (length args) then Fault
        else
          let args := args ++ [p] in
          p <~ skip_word (str_fuel m) m p ;;
          if load8 m p =? 32 then parse_loop f (store8 m p 0) (p + 1) args else parse_loop f m p args
  end.

(** The memory with the words cut apart, and args[0..arg_count). *)
Definition parse_args (m : mem) (input : Z) : outcome (mem * list Z) := parse_loop (str_fuel m) m input [].

(** ** Commands *)

(** The call of SYS_SPAWN that spawn_search makes; [None] is -1. *)
Definition spawn_search (cwd bin_dir name : list Z) (argv : list (list Z)) :
    outcome (option (Z * list Z * list (list Z))) :=
  if bool_decide (take 2 name = chars "./") || bool_decide (take 3 name = chars "../") then
    let rel := if bool_decide (name !! 1%nat = Some 47) then drop 2 name else name in
    candidate <~ join 256 cwd rel ;;
    match candidate with None => Ret None | Some c => spawn (Some cwd) c argv end
  else if bool_decide (47 ∈ name) || bool_decide (58 ∈ name) then spawn (Some cwd) name argv
  else
    candidate <~ UserPrintf.vsnprintf 256 (chars "%s/%s") [VaStr (Some bin_dir); VaStr (Some name)] ;;
    spawn (Some cwd) candidate argv.

(** What a turn of the main loop does with the words: the message it prints, the
    call of setcwd, the new bin_dir, or the call of SYS_SPAWN with its arguments. *)
Inductive action :=
| Message (text : list Z)
| SetCwd (path : list Z)
| SetBinDir (dir : list Z)
| Spawn (path : list Z) (argv : list (list Z)).

Definition message (fmt : list Z) (args : list va) : outcome (option action) :=
  out <~ UserPrintf.vsnprintf 1024 fmt args ;; Ret (Some (Message out)).

Definition shell_command (cwd bin_dir : list Z) (args : list (list Z)) : outcome (option action) :=
  match args with
  | [] => Ret None
  | name :: rest =>
      if bool_decide (name = chars "cd") then
        match rest with
        | [] => message (chars "cd: missing argument" ++ [10]) []
        | arg :: _ =>
            candidate <~ join 256 cwd arg ;;
            match candidate with
            | None => message (chars "cd: %s: invalid path" ++ [10]) [VaStr (Some arg)]
            | Some c => Ret (Some (SetCwd c))
            end
        end
      else if bool_decide (name = chars "bindir") then
        match rest with
        | [] => message (chars "bindir: missing argument" ++ [10]) []
        | arg :: _ =>
            candidate <~ join 256 cwd arg ;;
            match candidate with
            | None => message (chars "bindir: %s: invalid path" ++ [10]) [VaStr (Some arg)]
            | Some c => Ret (Some (SetBinDir (take 255 c)))
            end
        end
      else
        call <~ spawn_search cwd bin_dir name rest ;;
        match call with
        | None => message (chars "command not found..." ++ [10]) []
        | Some (_, path, argv) => Ret (Some (Spawn path argv))
        end
  end.

(** ** The reference *)

(** A line being edited: a backspace takes back the last character. *)
Definition edit (l : list Z) (c : Z) : list Z :=
  if (c =? 8) || (c =? 127) then take (pred (length l)) l else l ++ [c].

(** The words of a line: what lies between its spaces. *)
Fixpoint words_from (w : list Z) (s : list Z) : list (list Z) :=
  match s with
  | [] => match w with [] => [] | _ => [w] end
  | c :: s' =>
      if c =? 32 then match w with [] => words_from [] s' | _ => w :: words_from [] s' end
      else words_from (w ++ [c]) s'
  end.
Definition words (s : list Z) : list (list Z) := words_from [] s.

(** ** Words *)

Fixpoint span_word (s : list Z) : list Z * list Z :=
  match s with
  | [] => ([], [])
  | c :: s' => if c =? 32 then ([], s) else let '(w, r) := span_word s' in (c :: w, r)
  end.

Lemma span_word_spec s w r :
  span_word s = (w, r) → s = w ++ r ∧ (32 ∉ w) ∧ (r = [] ∨ ∃ r', r = 32 :: r').
Proof.
  revert w r. induction s as [|c s IH]; intros w r E; cbn [span_word] in E.
  - injection E as <- <-. split_and!; [done|apply not_elem_of_nil|by left].
  - destruct (Z.eqb_spec c 32) as [->|Hc].
    + injection E as <- <-. split_and!; [done|apply not_elem_of_nil|eauto].
    + destruct (span_word s) as [w' r'] eqn:E'. injection E as <- <-. destruct (IH _ _ eq_refl) as (-> & Hw & Hr).
      split_and!; [done| |done]. apply not_elem_of_cons. split; [congruence|done].
Qed.

Lemma words_from_span s : ∀ w v r,
  span_word s = (v, r) → w ++ v ≠ [] → words_from w s = (w ++ v) :: words r.
Proof.
  induction s as [|c s IH]; intros w v r E Hne; cbn [span_word words_from] in *.
  - injection E as <- <-. rewrite app_nil_r in *. by destruct w.
  - destruct (c =? 32) eqn:Ec.
    + injection E as <- <-. rewrite app_nil_r in *. unfold words. cbn [words_from]. rewrite Ec. by destruct w.
    + destruct (span_word s) as [v' r'] eqn:E'. injection E as <- <-. rewrite (IH _ v' r'); [|done|by destruct w].
      by rewrite <- app_assoc.
Qed.

Lemma words_step c s v r :
  c ≠ 32 → span_word (c :: s) = (v, r) → words (c :: s) = v :: words r ∧ v ≠ [].
Proof.
  intros Hc E. assert (v ≠ []) as Hne.
  { cbn [span_word] in E. destruct (Z.eqb_spec c 32); [done|]. destruct (span_word s). by injection E as <- _. }
  split; [|done]. by apply (words_from_span (c :: s) []).
Qed.

Lemma cstr_app m s : ∀ p r, cstr m p (s ++ r) → cstr m (p + Z.of_nat (length s)) r.
Proof.
  induction s as [|c s IH]; intros p r H; cbn [app length]; [by rewrite Z.add_0_r|].
  destruct H as (_ & _ & H). apply IH in H. by replace (p + Z.of_nat (S (length s))) with (p + 1 + Z.of_nat (length s)) by lia.
Qed.

Lemma skip_spaces_spec m s : ∀ fuel p, cstr m p s → (length s < fuel)%nat →
  ∃ k s', s = replicate k 32 ++ s' ∧ skip_spaces fuel m p = Ret (p + Z.of_nat k) ∧ head s' ≠ Some 32 ∧ words s = words s'.
Proof.
  induction s as [|c s IH]; intros [|fuel] p H Hf; cbn [skip_spaces cstr length] in *; try lia.
  - rewrite H. exists 0%nat, []. split_and!; [done|by rewrite Z.add_0_r|done|done].
  - destruct H as (-> & Hc0 & H). destruct (Z.eqb_spec c 32) as [->|Hc].
    + destruct (IH fuel (p + 1) H) as (k & s' & -> & Hr & Hh & Hw); [lia|]. exists (S k), s'.
      split_and!; [done| |done|done]. rewrite Hr. f_equal. lia.
    + exists 0%nat, (c :: s). split_and!; [done|by rewrite Z.add_0_r| |done]. intros E. injection E. done.
Qed.

Lemma skip_word_spec m w : ∀ fuel p r,
  cstr m p (w ++ r) → (32 ∉ w) → (r = [] ∨ ∃ r', r = 32 :: r') → (length w < fuel)%nat →
  skip_word fuel m p = Ret (p + Z.of_nat (length w)).
Proof.
  induction w as [|c w IH]; intros [|fuel] p r H Hw Hr Hf; cbn [skip_word app length] in *; try lia.
  - rewrite Z.add_0_r. destruct Hr as [->|[r' ->]]; [cbn in H; by rewrite H|by destruct H as (-> & _)].
  - destruct H as (-> & Hc0 & H). apply not_elem_of_cons in Hw as [Hc Hw].
    destruct (Z.eqb_spec c 0); [done|]. destruct (Z.eqb_spec c 32); [congruence|]. cbn [negb andb].
    rewrite (IH fuel (p + 1) r) by (done || lia). f_equal. lia.
Qed.

(** The end of a word becomes its terminator. *)
Lemma cut_word m w r p :
  cstr m p (w ++ 32 :: r) → let m1 := store8 m (p + Z.of_nat (length w)) 0 in
  cstr m1 p w ∧ cstr m1 (p + Z.of_nat (length w) + 1) r.
Proof.
  intros H m1. split.
  - apply cstr_intro.
    + intros c Hc. pose proof (cstr_bytes m _ p c H ltac:(set_solver)). lia.
    + intros i c Hi. unfold m1. rewrite load8_store8. case_decide.
      * rewrite lookup_app_r in Hi by lia. replace (i - length w)%nat with 0%nat in Hi by lia. by injection Hi as <-.
      * assert (i < length w)%nat by (apply lookup_lt_Some in Hi; rewrite length_app in Hi; simpl in Hi; lia).
        eapply cstr_lookup; [exact H|]. rewrite lookup_app_l in Hi by done.
        rewrite lookup_app_l; [by rewrite lookup_app_l|rewrite length_app; lia].
  - change (w ++ 32 :: r) with (w ++ [32] ++ r) in H. rewrite app_assoc in H. apply cstr_app in H.
    rewrite length_app in H. cbn [length] in H.
    apply (cstr_frame m); [|by replace (p + Z.of_nat (length w) + 1) with (p + Z.of_nat (length w + 1)) by lia].
    intros i Hi. unfold m1. rewrite load8_store8. by case_decide; [lia|].
Qed.

(** One turn of the outer loop: the line has no more words, or the next word is cut
    off and the rest of the line follows it. *)
Record turn (m : mem) (p : Z) (s : list Z) (m1 : mem) (q : Z) (w : list Z) (p1 : Z) (s1 : list Z) : Prop := {
  tn_word : cstr m1 q w;
  tn_rest : cstr m1 p1 s1;
  tn_less : (length s1 < length s)%nat;
  tn_range : p ≤ q ∧ p1 + Z.of_nat (length s1) ≤ p + Z.of_nat (length s);
  tn_apart : q + Z.of_nat (length w) < p1 ∨ s1 = [];
  tn_frame : ∀ a, a < p ∨ p + Z.of_nat (length s) ≤ a → load8 m1 a = load8 m a }.

Lemma parse_turn m p s args f :
  cstr m p s →
  (words s = [] ∧ parse_loop (S f) m p args = Ret (m, args)) ∨
  ∃ m1 q w p1 s1, words s = w :: words s1 ∧ turn m p s m1 q w p1 s1 ∧
    parse_loop (S f) m p args =
      if 32 <=? Z.of_nat (length args) then Fault else parse_loop f m1 p1 (args ++ [q]).
Proof.
  intros H. cbn [parse_loop]. destruct s as [|c0 s0]; [left; split; [done|]; cbn in H; by rewrite H|].
  remember (c0 :: s0) as s eqn:Es. assert (load8 m p ≠ 0) as Hp0 by (rewrite Es in H; destruct H as (-> & ? & _); done).
  destruct (Z.eqb_spec (load8 m p) 0); [done|]. pose proof (cstr_fuel _ _ _ H) as Hfuel.
  destruct (skip_spaces_spec m s _ p H Hfuel) as (k & s' & Hs & -> & Hh & ->). cbn [obind]. clear Es.
  rewrite Hs in H. pose proof (cstr_app _ _ _ _ H) as H'. rewrite length_replicate in H'.
  set (q := p + Z.of_nat k) in *. destruct s' as [|c s']; [left; split; [done|]; cbn in H'; by rewrite H'|].
  destruct (Z.eqb_spec (load8 m q) 0); [destruct H' as (? & ? & _); congruence|]. right.
  destruct (span_word (c :: s')) as [w r] eqn:Espan.
  destruct (words_step c s' w r) as [Hw Hne]; [intros ->; by apply Hh|done|].
  destruct (span_word_spec _ _ _ Espan) as (Ecs & Hw32 & Hr). rewrite Ecs in H', Hs.
  assert (length s = k + length w + length r)%nat as Hlen by (rewrite Hs, !length_app, length_replicate; lia).
  assert (0 < length w)%nat by (destruct w; [done|simpl; lia]).
  rewrite (skip_word_spec m w _ q r H' Hw32 Hr) by lia. cbn [obind].
  destruct Hr as [->|[r' ->]].
  - pose proof (cstr_app _ _ _ _ H') as Hend. cbn [cstr] in Hend. rewrite Hend. rewrite app_nil_r in H'.
    exists m, q, w, (q + Z.of_nat (length w)), []. split; [done|]. split; [|done].
    cbn [length] in *. split; cbn [length]; [done|done|lia|lia|by right|done].
  - destruct (cut_word m w r' q H') as [H1 H2]. pose proof (cstr_app _ _ _ _ H') as Hend. destruct Hend as (-> & _).
    change (32 =? 32) with true. cbv iota. cbn [length] in Hlen.
    eexists _, q, w, _, r'. split; [done|]. split; [|done].
    split; [exact H1|exact H2|lia|lia|lia|]. intros a Ha. rewrite load8_store8. case_decide; [lia|done].
Qed.

(** The whole loop. *)
Lemma parse_loop_spec fuel : ∀ m p s args,
  cstr m p s → (length s < fuel)%nat → (length args ≤ 32)%nat →
  if decide (length args + length (words s) ≤ 32)%nat then
    ∃ m' ps, parse_loop fuel m p args = Ret (m', args ++ ps) ∧ Forall2 (cstr m') ps (words s) ∧
      (∀ a, a < p ∨ p + Z.of_nat (length s) ≤ a → load8 m' a = load8 m a)
  else parse_loop fuel m p args = Fault.
Proof.
  induction fuel as [|f IH]; intros m p s args H Hf Ha; [lia|].
  destruct (parse_turn m p s args f H) as [[-> ->]|(m1 & q & w & p1 & s1 & -> & Ht & ->)].
  - rewrite decide_True by (simpl; lia). exists m, []. rewrite app_nil_r. split_and!; [done|constructor|done].
  - cbn [length]. destruct (Z.leb_spec 32 (Z.of_nat (length args))).
    { rewrite decide_False by lia. done. }
    specialize (IH m1 p1 s1 (args ++ [q]) (tn_rest _ _ _ _ _ _ _ _ Ht)). rewrite length_app in IH. cbn [length] in IH.
    pose proof (tn_less _ _ _ _ _ _ _ _ Ht). specialize (IH ltac:(lia) ltac:(lia)).
    destruct (decide _) as [Hd|Hd]; [rewrite decide_True by lia|by rewrite decide_False by lia].
    destruct IH as (m' & ps & Hrun & Hps & Hfr). exists m', (q :: ps). rewrite Hrun, <- app_assoc.
    pose proof (tn_range _ _ _ _ _ _ _ _ Ht). pose proof (tn_apart _ _ _ _ _ _ _ _ Ht) as Hap.
    assert (q + Z.of_nat (length w) < p1 ∨ length s1 = 0%nat) as Hap' by (destruct Hap as [?| ->]; [by left|by right]).
    split_and!; [done| |].
    + constructor; [|done]. apply (cstr_frame m1); [|by eapply tn_word]. intros i Hi. apply Hfr. lia.
    + intros a Hout. rewrite Hfr by (destruct Hap; [lia|]; lia). by eapply tn_frame.
Qed.

(** ** readline and edit *)

Lemma readline_keys max rest : ∀ keys out echo,
  Forall (λ c, c ≠ 10 ∧ c ≠ 13) keys →
  (∀ k, (k ≤ length keys)%nat → Z.of_nat (length (foldl edit out (take k keys))) < max - 1) →
  ∃ echo', ∀ nl, nl = 10 ∨ nl = 13 →
    readline max out echo (keys ++ nl :: rest) = Some (foldl edit out keys, echo' ++ [10], rest).
Proof.
  induction keys as [|c keys IH]; intros out echo Hk Hfit.
  - exists echo. intros nl Hnl. specialize (Hfit 0%nat (le_n _)). cbn [take foldl app] in *. cbn [readline]. cbv zeta.
    destruct (Z.ltb_spec (Z.of_nat (length out)) (max - 1)); [|lia]. by destruct Hnl as [->| ->].
  - apply Forall_cons in Hk as [[H10 H13] Hk].
    assert (∃ echo1, ∀ input, readline max out echo (c :: input) = readline max (edit out c) echo1 input) as [echo1 Hstep].
    { specialize (Hfit 0%nat (Nat.le_0_l _)). cbn [take foldl] in Hfit. cbn [readline]. cbv zeta.
      destruct (Z.ltb_spec (Z.of_nat (length out)) (max - 1)); [|lia].
      destruct (Z.eqb_spec c 13); [done|]. destruct (Z.eqb_spec c 10); [done|]. cbn [orb]. unfold edit.
      destruct ((c =? 8) || (c =? 127)); [|by eexists].
      destruct out as [|o out]; [by eexists|]. destruct (Z.ltb_spec 0 (Z.of_nat (length (o :: out)))); [by eexists|cbn [length] in *; lia]. }
    destruct (IH (edit out c) echo1 Hk) as [echo' Hrun].
    { intros k Hle. apply (Hfit (S k)). simpl. lia. }
    exists echo'. intros nl Hnl. cbn [app]. by rewrite Hstep, (Hrun nl Hnl).
Qed.

Lemma readline_length max input : ∀ out echo line e rest,
  Z.of_nat (length out) < max → readline max out echo input = Some (line, e, rest) → Z.of_nat (length line) < max.
Proof.
  induction input as [|c input IH]; intros out echo line e rest Hl; cbn [readline]; cbv zeta;
    destruct (Z.ltb_spec (Z.of_nat (length out)) (max - 1)); try done; try (intros [= <- <- <-]; lia).
  destruct ((c =? 13) || (c =? 10)); [intros [= <- <- <-]; lia|].
  destruct ((c =? 8) || (c =? 127)); [destruct (0 <? Z.of_nat (length out))|]; apply IH;
    rewrite ?length_take, ?length_app; simpl; lia.
Qed.

Lemma edited_chars keys c : c ∈ foldl edit [] keys → c ∈ keys.
Proof.
  enough (∀ out, c ∈ foldl edit out keys → c ∈ out ∨ c ∈ keys) as H.
  { intros [?%not_elem_of_nil|?]%H; done. }
  induction keys as [|k keys IH]; intros out Hc; cbn [foldl] in Hc; [by left|].
  destruct (IH _ Hc) as [Ho|?]; [|right; by right]. unfold edit in Ho. destruct (_ || _).
  - apply elem_of_take in Ho as (i & Ho%list_elem_of_lookup_2 & _). by left.
  - apply elem_of_app in Ho as [?| ->%list_elem_of_singleton]; [by left|]. right. left.
Qed.

(** ** Paths of programs *)

Lemma copy_component_slash n : ∀ p out rest q,
  copy_component n p = (out, rest) → copy_component n (p ++ 47 :: q) = (out, rest ++ 47 :: q).
Proof.
  induction n as [|n IH]; intros [|c p] out rest q E; cbn [copy_component app] in *; try (by injection E as <- <-).
  destruct (Z.eqb_spec c 47) as [->|]; [by injection E as <- <-|].
  destruct (copy_component n p) as [o r] eqn:E'. injection E as <- <-. by rewrite (IH _ _ _ q E').
Qed.

Lemma skip_slashes_app p q : skip_slashes p ≠ [] → skip_slashes (p ++ q) = skip_slashes p ++ q.
Proof. induction p as [|c p IH]; cbn [skip_slashes app]; [done|]. by destruct (c =? 47). Qed.

Lemma skip_all_slashes p q : skip_slashes p = [] → skip_slashes (p ++ q) = skip_slashes q.
Proof. induction p as [|c p IH]; cbn [skip_slashes app]; [done|]. by destruct (c =? 47). Qed.

Lemma components_skip p q : skip_slashes p = skip_slashes q → components p = components q.
Proof.
  intros E. assert (next_component p = next_component q) as E' by (unfold next_component; by rewrite E).
  destruct (next_component q) as [[c r]|] eqn:Eq; [by rewrite (components_step p c r), (components_step q c r)|].
  by rewrite (components_nil p), (components_nil q).
Qed.

Lemma components_slash n : ∀ p q, (length p < n)%nat → components (p ++ 47 :: q) = components p ++ components q.
Proof.
  induction n as [|n IH]; intros p q Hn; [lia|].
  destruct (next_component p) as [[c r]|] eqn:E.
  - rewrite (components_step p c r E). destruct (next_component_spec _ _ _ E) as [_ Hl]. cbn [app].
    rewrite <- (IH r q) by lia. apply components_step.
    unfold next_component in *. destruct (skip_slashes p) as [|d p1] eqn:Es; [done|]. apply (inj Some) in E.
    rewrite skip_slashes_app by (by rewrite Es). rewrite Es. cbn [app]. f_equal.
    by apply (copy_component_slash _ (d :: p1)).
  - rewrite (components_nil p E). cbn [app]. apply components_skip. apply next_component_none in E.
    rewrite skip_all_slashes by done. cbn [skip_slashes]. by rewrite Z.eqb_refl.
Qed.

(** ** The properties *)

(** C27. A command line, from the keys to the arguments: when the edited line always
    fits the buffer and has at most 32 words, readline ends at the newline and
    parse_args leaves in args a pointer to each word of the line as it was edited,
    each a string of its own, and writes nothing outside the line. *)
Theorem command_line_correct (m : mem) (buf : Z) (keys rest : list Z) (nl : Z) :
  nl = 10 ∨ nl = 13 → Forall (λ c, 0 < c < 256 ∧ c ≠ 10 ∧ c ≠ 13) keys →
  (∀ k, (k ≤ length keys)%nat → (length (foldl edit [] (take k keys)) < 255)%nat) →
  (length (words (foldl edit [] keys)) ≤ 32)%nat →
  ∃ line echo m' ps, readline 256 [] [] (keys ++ nl :: rest) = Some (line, echo, rest) ∧
    parse_args (put_string m buf line) buf = Ret (m', ps) ∧
    Forall2 (cstr m') ps (words (foldl edit [] keys)) ∧
    (∀ a, a < buf ∨ buf + 256 ≤ a → load8 m' a = load8 m a).
Proof.
  intros Hnl Hkeys Hfit Hn. set (line := foldl edit [] keys) in *.
  destruct (readline_keys 256 rest keys [] []) as [echo Hread].
  { eapply Forall_impl; [exact Hkeys|]. tauto. }
  { intros k Hk. specialize (Hfit k Hk). lia. }
  specialize (Hfit (length keys) (le_n _)). rewrite firstn_all in Hfit. fold line in Hfit.
  assert (cstr (put_string m buf line) buf line) as Hc.
  { apply put_string_cstr. intros c Hc. apply edited_chars in Hc. rewrite Forall_forall in Hkeys.
    destruct (Hkeys c Hc). lia. }
  pose proof (parse_loop_spec _ _ _ _ [] Hc (cstr_fuel _ _ _ Hc) (Nat.le_0_l _)) as Hparse.
  rewrite decide_True in Hparse by (simpl; lia). destruct Hparse as (m' & ps & Hrun & Hps & Hfr).
  exists line, (echo ++ [10]), m', ps. split; [by apply Hread|]. split; [exact Hrun|]. split; [exact Hps|].
  intros a Ha. rewrite Hfr by lia. apply put_string_frame. lia.
Qed.

Lemma command_line_correct_witness : ∃ line echo m' ps,
  readline 256 [] [] (chars "ls  xx" ++ [8; 8; 47; 98] ++ 10 :: chars "next") = Some (line, echo, chars "next") ∧
  parse_args (put_string ∅ 4096 line) 4096 = Ret (m', ps) ∧ Forall2 (cstr m') ps [chars "ls"; chars "/b"].
Proof.
  destruct (command_line_correct ∅ 4096 (chars "ls  xx" ++ [8; 8; 47; 98]) (chars "next") 10)
    as (line & echo & m' & ps & H1 & H2 & H3 & _).
  - by left.
  - refine (bool_decide_unpack _ _). by vm_compute.
  - intros k Hk. cbn in Hk. do 11 (destruct k as [|k]; [vm_compute; lia|]). lia.
  - vm_compute. lia.
  - exists line, echo, m', ps. split; [exact H1|]. split; [exact H2|exact H3].
Defined.

(** parse_args does not look at the size of args: a line of more than 32 words makes
    it write past the end. *)
Theorem parse_args_past_args (m : mem) (p : Z) (s : list Z) :
  cstr m p s → (32 < length (words s))%nat → parse_args m p = Fault.
Proof.
  intros Hc Hn. pose proof (parse_loop_spec _ _ _ _ [] Hc (cstr_fuel _ _ _ Hc) (Nat.le_0_l _)) as H.
  by rewrite decide_False in H by (simpl; lia).
Qed.

(** A command that is a plain name runs the program of that name in bin_dir:
    the kernel takes the path that spawn_search makes apart into the drive of
    bin_dir, its components and the name. *)
Theorem spawn_search_correct (cwd ds rel name : list Z) (argv : list (list Z)) :
  Forall (is_digit 10) ds → (length ds ≤ 6)%nat → component name → (58 ∉ name) →
  (length ds + length rel + length name < 254)%nat →
  ∃ path rel', spawn_search cwd (ds ++ 58 :: rel) name argv = Ret (Some (4, path, path :: argv)) ∧
    parse_path path = Ret (Some (num_value 10 ds, rel')) ∧ components rel' = components rel ++ [name].
Proof.
  intros Hd Hl Hname Hcol Hlen. exists ((ds ++ 58 :: rel) ++ 47 :: name), (rel ++ 47 :: name). split_and!.
  - unfold spawn_search. destruct Hname as (Hne & Hs & _).
    assert (∀ k pre, 47 ∈ pre → take k name ≠ pre) as Hpre.
    { intros k pre Hin <-. apply elem_of_take in Hin as (i & Hi%list_elem_of_lookup_2 & _). done. }
    rewrite (bool_decide_eq_false_2 (take 2 name = _)), (bool_decide_eq_false_2 (take 3 name = _))
      by (apply Hpre; cbn; set_solver).
    rewrite (bool_decide_eq_false_2 (47 ∈ name)), (bool_decide_eq_false_2 (58 ∈ name)) by done. cbn [orb]. change UserPrintf.vsnprintf with vsnprintf.
    rewrite vsnprintf_join by (rewrite ?length_app; cbn [length]; lia). cbn [obind].
    rewrite take_ge by (rewrite !length_app; cbn [length]; lia).
    unfold spawn, resolve_user_path. destruct (first_index 58 _) eqn:E; [done|]. apply first_index_None in E. set_solver.
  - rewrite <- app_assoc. apply parse_path_drive; [done|]. by apply six_digits.
  - rewrite (components_slash (S (length rel))) by lia. f_equal.
    change [name] with ([name] : list (list Z)). rewrite <- (components_join [name]) by (by constructor).
    apply components_skip. unfold join_path. cbn [fmap list_fmap concat app skip_slashes]. rewrite app_nil_r. done.
Qed.

Lemma spawn_search_correct_witness : ∃ path rel',
  spawn_search (chars "0:/etc") (chars "0:/bin") (chars "ls") [chars "-a"] = Ret (Some (4, path, [path; chars "-a"])) ∧
  parse_path path = Ret (Some (0, rel')) ∧ components rel' = [chars "bin"; chars "ls"].
Proof.
  destruct (spawn_search_correct (chars "0:/etc") (chars "0") (chars "/bin") (chars "ls") [chars "-a"]) as (path & rel' & H1 & H2 & H3).
  - repeat constructor; vm_compute; intuition congruence.
  - cbn. lia.
  - split; [done|]. split; [refine (bool_decide_unpack _ _); by vm_compute|cbn; lia].
  - refine (bool_decide_unpack _ _). by vm_compute.
  - cbn. lia.
  - exists path, rel'. split; [exact H1|]. split; [exact H2|exact H3].
Defined.
