(* ===== verification/Proc.v ===== *)
(** * Processes (src/multi/process.c and the process and port calls of
    src/userspace/syscall.c)

    The state of the whole kernel: files, scheduler and processes ([Files]), ports
    ([Port]) and page tables ([Vmm]) over one kernel heap.  Each call runs the
    components on their part of it.  A call that ends in schedule() is modelled up to
    the switch; what the thread does when it is switched in again is not part of it. *)

From S2P Require Import Prelude ByteMem FrameAlloc Heap HeapThms Vmm CStr Tar Vfs Kbd Fbcon Thread Port Files.

Definition MAX_PORTS : Z := 64.

(** The file system state holds the heap; the scheduler and the processes are those
    of [os_sys].  [proc_list] is the first process. *)
Record os_state (P : Type) := mkOs {
  os_sys : sys_state (mm_state P); os_kspace : addr_space; os_cr3 : Z;
  os_ports : gmap Z port; os_msgs : gmap Z msg_node; os_bufs : gmap Z (list Z);
  os_table : list Z; os_table_count : Z; proc_list : Z; proc_needs_cleanup : bool }.
Arguments mkOs {P} _ _ _ _ _ _ _ _ _ _.
Arguments os_sys {P} _.
Arguments os_kspace {P} _.
Arguments os_cr3 {P} _.
Arguments os_ports {P} _.
Arguments os_msgs {P} _.
Arguments os_bufs {P} _.
Arguments os_table {P} _.
Arguments os_table_count {P} _.
Arguments proc_list {P} _.
Arguments proc_needs_cleanup {P} _.

(** proc_info_t as sys_listprocs fills it in: 63 of the 64 bytes of the name. *)
Record proc_info := mkInfo { pi_pid : Z; pi_name : list Z; pi_state : Z }.

(** The value of the enumeration in C. *)
Definition state_number (st : thread_state) : Z :=
  match st with THREAD_READY => 0 | THREAD_RUNNING => 1 | THREAD_BLOCKED => 2 | THREAD_DEAD => 3 end.

Section Proc.
Context {P : Type} `{FA : FrameAllocator P} `{B : Boot}.

Abbreviation OM := (M (os_state P)).

(** ** The parts of the state *)

Definition set_sys (v : sys_state (mm_state P)) (s : os_state P) : os_state P :=
  mkOs v (os_kspace s) (os_cr3 s) (os_ports s) (os_msgs s) (os_bufs s) (os_table s) (os_table_count s)
    (proc_list s) (proc_needs_cleanup s).
Definition set_cleanup (v : bool) (s : os_state P) : os_state P :=
  mkOs (os_sys s) (os_kspace s) (os_cr3 s) (os_ports s) (os_msgs s) (os_bufs s) (os_table s) (os_table_count s)
    (proc_list s) v.

Definition os_heap (s : os_state P) : mm_state P := fs_heap (sy_fs (os_sys s)).
Definition os_sched (s : os_state P) : sched := sy_sched (os_sys s).
Definition os_procs (s : os_state P) : gmap Z process := sy_procs (os_sys s).
Definition set_core (h : mm_state P) (c : sched) (s : os_state P) : sys_state (mm_state P) :=
  mkSys (set_fs_heap h (sy_fs (os_sys s))) (sy_files (os_sys s)) (sy_con (os_sys s)) (sy_kbd (os_sys s))
    (sy_pending (os_sys s)) c (sy_procs (os_sys s)).

Definition ports_view (s : os_state P) : port_state (mm_state P) :=
  mkPs (os_heap s) (os_ports s) (os_msgs s) (os_bufs s) (os_table s) (os_table_count s) (os_sched s) (os_procs s).
Definition put_ports (v : port_state (mm_state P)) (s : os_state P) : os_state P :=
  mkOs (set_core (ps_heap v) (ps_sched v) s) (os_kspace s) (os_cr3 s) (ps_ports v) (ps_msgs v) (ps_bufs v)
    (port_table v) (port_table_count v) (proc_list s) (proc_needs_cleanup s).

Definition kernel_view (s : os_state P) : kernel P :=
  mkKernel (mkVm (os_heap s) (os_kspace s) (os_cr3 s)) (os_sched s) (os_procs s).
Definition put_kernel (k : kernel P) (s : os_state P) : os_state P :=
  mkOs (set_core (vm_mm (k_vm k)) (k_sched k) s) (kernel_addr_space (k_vm k)) (cr3 (k_vm k)) (os_ports s)
    (os_msgs s) (os_bufs s) (os_table s) (os_table_count s) (proc_list s) (proc_needs_cleanup s).

Definition in_sys {A} (m : M (sys_state (mm_state P)) A) : OM A := zoom os_sys set_sys m.
Definition in_ports {A} (m : M (port_state (mm_state P)) A) : OM A := zoom ports_view put_ports m.
Definition in_kernel {A} (m : M (kernel P) A) : OM A := zoom kernel_view put_kernel m.
Definition on_sched {A} (m : M sched A) : OM A := in_kernel (in_sched m).

(** ** proc_find *)

Fixpoint find_loop (fuel : nat) (p pid : Z) : OM Z :=
  if p =? 0 then ret 0
  else
    match fuel with
    | O => diverge
    | S f =>
        proc <- in_sys (get_proc p) ;;
        if p_pid proc =? pid then ret p else find_loop f (p_next proc) pid
    end.

(** The processes form a list: their number is fuel enough. *)
Definition proc_find (pid : Z) : OM Z :=
  p <- gets proc_list ;;
  fuel <- gets (λ s, size (os_procs s)) ;;
  find_loop fuel p pid.

(** ** Ending a process *)

Definition with_ports (l : list Z) (p : process) : process :=
  mkProcess (p_pid p) (p_name p) (p_addr_space p) (p_thread p) (p_heap_top p) (p_regions p) (p_fds p) l
    (p_cwd p) (p_next p).

(** The loop over the ports of process [p] from index [i], [n] to go. *)
Fixpoint close_ports (n : nat) (i : nat) (p : Z) : OM unit :=
  match n with
  | O => ret tt
  | S n' =>
      proc <- in_sys (get_proc p) ;;
      q <- of_opt (p_ports proc !! i) ;;
      (if q =? 0 then ret tt
       else
         in_ports (port_destroy q) ;;;
         proc <- in_sys (get_proc p) ;;
         in_sys (put_proc p (with_ports (<[i := 0]> (p_ports proc)) proc))) ;;;
      close_ports n' (S i) p
  end.

(** The loop over its descriptors. *)
Fixpoint close_fds (n : nat) (i : nat) (p : Z) : OM unit :=
  match n with
  | O => ret tt
  | S n' =>
      proc <- in_sys (get_proc p) ;;
      f <- of_opt (p_fds proc !! i) ;;
      (if f =? 0 then ret tt
       else
         in_sys (close_file f) ;;;
         proc <- in_sys (get_proc p) ;;
         in_sys (put_proc p (with_fds (<[i := 0]> (p_fds proc)) proc))) ;;;
      close_fds n' (S i) p
  end.

(** The lines that sys_exit and sys_kill share. *)
Definition close_all (p : Z) : OM unit :=
  close_ports (Z.to_nat MAX_PORTS) 0 p ;;;
  close_fds (Z.to_nat (MAX_FDS - FD_RESERVED)) (Z.to_nat FD_RESERVED) p.

(** [mov idle_thread->kernel_rsp_top, %rsp; call schedule; ud2]: schedule must not
    come back. *)
Definition leave (ticks : Z) : OM unit :=
  c <- gets (λ s, curr_thread (os_sched s)) ;;
  idle <- gets (λ s, idle_thread (os_sched s)) ;;
  _ <- on_sched (get_thread idle) ;;
  in_kernel (schedule ticks) ;;;
  c' <- gets (λ s, curr_thread (os_sched s)) ;;
  if c' =? c then fault else ret tt.

Definition sys_exit (ticks code : Z) : OM unit :=
  p <- in_sys curr_process ;;
  proc <- in_sys (get_proc p) ;;
  let dying_pid := p_pid proc in
  close_all p ;;;
  c <- gets (λ s, curr_thread (os_sched s)) ;;
  on_sched (runqueue_remove c) ;;;
  on_sched (upd_thread c (with_state THREAD_DEAD)) ;;;
  modify (set_cleanup true) ;;;
  on_sched (thread_wake_pid dying_pid) ;;;
  leave ticks.

(** [None]: the caller killed itself and does not return. *)
Definition sys_kill (ticks pid : Z) : OM (option Z) :=
  p <- proc_find pid ;;
  if p =? 0 then ret (Some (-1))
  else
    close_all p ;;;
    proc <- in_sys (get_proc p) ;;
    on_sched (runqueue_remove (p_thread proc)) ;;;
    on_sched (upd_thread (p_thread proc) (with_state THREAD_DEAD)) ;;;
    modify (set_cleanup true) ;;;
    c <- gets (λ s, curr_thread (os_sched s)) ;;
    if p_thread proc =? c then leave ticks ;;; ret None else ret (Some 0).

(** ** Waiting *)

Definition sys_getpid : OM Z :=
  p <- in_sys curr_process ;; proc <- in_sys (get_proc p) ;; ret (p_pid proc).

Definition sys_wait_pid (ticks pid : Z) : OM unit :=
  target <- proc_find pid ;;
  if target =? 0 then ret tt
  else
    c <- gets (λ s, curr_thread (os_sched s)) ;;
    on_sched (upd_thread c (with_state THREAD_BLOCKED)) ;;;
    proc <- in_sys (get_proc target) ;;
    on_sched (upd_thread c (with_waiting (p_pid proc))) ;;;
    in_kernel (schedule ticks).

(** [now] is the value of apic_timer_ticks() in the call. *)
Definition sys_sleep (now ticks ms : Z) : OM unit :=
  c <- gets (λ s, curr_thread (os_sched s)) ;;
  on_sched (upd_thread c (with_sleep (now +64 ms))) ;;;
  on_sched (upd_thread c (with_state THREAD_BLOCKED)) ;;;
  in_kernel (schedule ticks).

(** ** sys_listprocs *)

(** strncpy(buf[count].name, proc->name, 63): 63 bytes, padded with zeros. *)
Definition info_name (proc : process) : list Z :=
  take 63 (p_name proc) ++ replicate (63 - length (p_name proc)) 0.

(** The entries written, from process [p] on and [n] at most. *)
Fixpoint list_loop (n : nat) (p : Z) : OM (list proc_info) :=
  match n with
  | O => ret []
  | S n' =>
      if p =? 0 then ret []
      else
        proc <- in_sys (get_proc p) ;;
        t <- on_sched (get_thread (p_thread proc)) ;;
        let name := match p_name proc with [] => [0] | _ => info_name proc end in
        rest <- list_loop n' (p_next proc) ;;
        ret (mkInfo (p_pid proc) name (state_number (th_state t)) :: rest)
  end.
Definition sys_listprocs (max : Z) : OM (list proc_info) := p <- gets proc_list ;; list_loop (Z.to_nat max) p.

(** ** Ports of a process *)

(** The first free entry from [i] on gets the port; the token, or 0. *)
Fixpoint store_port (n i : nat) (p port : Z) : OM Z :=
  match n with
  | O => ret 0
  | S n' =>
      proc <- in_sys (get_proc p) ;;
      q <- of_opt (p_ports proc !! i) ;;
      if q =? 0 then
        in_sys (put_proc p (with_ports (<[i := port]> (p_ports proc)) proc)) ;;;
        pt <- in_ports (get_port port) ;; ret (pt_token pt)
      else store_port n' (S i) p port
  end.

(** [hi:lo] is the time stamp counter. *)
Definition sys_port_create (hi lo : Z) : OM Z :=
  p <- in_sys curr_process ;;
  port <- in_ports (port_create hi lo) ;;
  store_port (Z.to_nat MAX_PORTS) 0 p port.

(** The index of the process's port with the token, from [i] on. *)
Fixpoint own_port (n i : nat) (p token : Z) : OM (option nat) :=
  match n with
  | O => ret None
  | S n' =>
      proc <- in_sys (get_proc p) ;;
      q <- of_opt (p_ports proc !! i) ;;
      if q =? 0 then own_port n' (S i) p token
      else
        pt <- in_ports (get_port q) ;;
        if pt_token pt =? token then ret (Some i) else own_port n' (S i) p token
  end.

(** The result and the bytes received: -1 for a port that is not the caller's;
    [None] while it waits.  [others] is what runs in between. *)
Definition sys_port_receive (others : list (M (port_state (mm_state P)) unit)) (token len : Z) : OM (option (Z * list Z)) :=
  p <- in_sys curr_process ;;
  r <- own_port (Z.to_nat MAX_PORTS) 0 p token ;;
  match r with
  | None => ret (Some (-1, []))
  | Some _ =>
      r <- in_ports (port_receive others token len) ;;
      ret ((λ bytes, (s32 (Z.of_nat (length bytes)), bytes)) <$> r)
  end.

Definition sys_port_destroy (token : Z) : OM Z :=
  p <- in_sys curr_process ;;
  r <- own_port (Z.to_nat MAX_PORTS) 0 p token ;;
  match r with
  | None => ret (-1)
  | Some i =>
      proc <- in_sys (get_proc p) ;;
      q <- of_opt (p_ports proc !! i) ;;
      in_ports (port_destroy q) ;;;
      proc <- in_sys (get_proc p) ;;
      in_sys (put_proc p (with_ports (<[i := 0]> (p_ports proc)) proc)) ;;;
      ret 0
  end.

End Proc.
