(* ===== verification/ProcThms.v ===== *)
(** * Theorems about processes

    Ending a process gives back its ports and files, takes its thread out of the run
    queue and, for sys_exit, wakes who waits for it; waiting and sleeping leave the
    processor to another thread. *)

From S2P Require Import Prelude ByteMem FrameAlloc Pmm Heap HeapThms Vmm CStr Tar Vfs VfsThms Kbd Fbcon Thread Port Files FilesThms Proc.

Section ProcTheorems.
Context {P : Type} `{FA : FrameAllocator P} `{B : Boot}.
Implicit Types s : os_state P.

Definition os_files s : gmap Z file := sy_files (os_sys s).
Definition os_nodes s : gmap Z fsnode := fs_nodes (sy_fs (os_sys s)).

(** The blocks of the heap that belong to the file system. *)
Definition fs_blocks s : gset Z := dom (os_files s) ∪ dom (os_nodes s).

(** Ports, files and nodes are blocks of one heap, all different; [X] are the
    other blocks in use, [Q] and [C] the queues and messages of the ports. *)
Record os_ok s (X : gset Z) (Q C : gmap Z (list Z)) : Prop := {
  ok_ports : ports_ok (ports_view s) (X ∪ fs_blocks s) Q C;
  ok_table : table_ok (ports_view s);
  ok_tokens : tokens_unique (ports_view s);
  ok_disj : X ## dom (os_files s) ∧ X ## dom (os_nodes s) ∧ dom (os_files s) ## dom (os_nodes s);
}.

(** What ending a process never touches. *)
Definition fixed s : addr_space * Z * Z * bool := (os_kspace s, os_cr3 s, proc_list s, proc_needs_cleanup s).

(** The scheduler while the ports of a process are closed: its thread may be woken. *)
Definition sched_closing (th : Z) (c c' : sched) : Prop :=
  ∃ t, threads c !! th = Some t ∧ (c' = c ∨ c' = set_threads (<[th := unblocked t]> (threads c)) c).

Lemma unblocked_idem t : unblocked (unblocked t) = unblocked t.
Proof. unfold unblocked. by destruct t as [? ? ? ? [] ? ? ? ? ? ? ? ? ?]. Qed.

Lemma sched_closing_trans th c1 c2 c3 : sched_closing th c1 c2 → sched_closing th c2 c3 → sched_closing th c1 c3.
Proof.
  intros (t & Ht & H1) (t2 & Ht2 & H2). exists t. split; [done|].
  destruct H1 as [->| ->]; [assert (t2 = t) as -> by congruence; done|].
  cbn [set_threads threads] in Ht2. rewrite lookup_insert_eq in Ht2. injection Ht2 as <-.
  destruct H2 as [->| ->]; right; [done|]. cbn [set_threads threads]. rewrite insert_insert_eq, unblocked_idem. done.
Qed.

(** Processes with the same threads as before. *)
Lemma os_ok_proc s X Q C p proc proc' :
  os_ok s X Q C → os_procs s !! p = Some proc → p_thread proc' = p_thread proc →
  os_ok (set_sys (set_procs (<[p := proc']> (os_procs s)) (os_sys s)) s) X Q C.
Proof.
  intros [Hp Ht Hk Hd] E Eth. split; [|by destruct Ht|done|done].
  destruct Hp. split; try done. intros q pt Hq. destruct (po_owner _ _ Hq) as (o & Ho & Hth).
  cbn [ports_view ps_procs os_procs os_sys set_sys set_procs sy_procs].
  destruct (decide (pt_owner pt = p)) as [Eo|Hne].
  - exists proc'. rewrite Eo in Ho |- *. split; [apply lookup_insert_eq|].
    change (os_procs s !! p = Some o) in Ho. rewrite E in Ho. injection Ho as <-. by rewrite Eth.
  - exists o. split; [by rewrite lookup_insert_ne|done].
Qed.

(** ** Closing ports *)

Lemma in_sys_run {A} (m : M (sys_state (mm_state P)) A) s a v :
  m (os_sys s) = Ret (a, v) → in_sys m s = Ret (a, set_sys v s).
Proof. intros E. by apply zoom_Ret. Qed.

Lemma in_sys_read {A} (m : M (sys_state (mm_state P)) A) s a :
  m (os_sys s) = Ret (a, os_sys s) → in_sys m s = Ret (a, s).
Proof. intros E. rewrite (in_sys_run _ _ _ _ E). by destruct s. Qed.

Lemma os_get_proc s p proc : os_procs s !! p = Some proc → in_sys (get_proc p) s = Ret (proc, s).
Proof. intros E. by apply in_sys_read, get_proc_run. Qed.

(** port_destroy leaves the processes as they are. *)
Lemma port_destroy_procs (pr : gmap Z process) q :
  preserves (λ v : port_state (mm_state P), ps_procs v = pr) (port_destroy q).
Proof.
  assert (∀ fuel node, preserves (λ v : port_state (mm_state P), ps_procs v = pr) (free_messages fuel node)) as Hfree.
  { induction fuel as [|f IH]; intros node; cbn [free_messages];
      unfold get_msg, free_buf, free_msg, free; pres_auto. }
  assert (∀ n i, preserves (λ v : port_state (mm_state P), ps_procs v = pr) (clear_entry n i q)) as Hclear.
  { induction n as [|n IH]; intros i; cbn [clear_entry]; unfold table_get, table_set; pres_auto. }
  unfold port_destroy, wake_owner, get_port, free_port, free, in_threads. pres_auto.
Qed.

(** One port of process [p]. *)
Lemma destroy_run s X Q C q pt proc :
  os_ok s X Q C → os_ports s !! q = Some pt → os_procs s !! pt_owner pt = Some proc →
  ∃ s', in_ports (port_destroy q) s = Ret (tt, s') ∧ os_ok s' X (delete q Q) C ∧
    os_ports s' = delete q (os_ports s) ∧ os_procs s' = os_procs s ∧ os_files s' = os_files s ∧
    os_nodes s' = os_nodes s ∧ fixed s' = fixed s ∧ sched_closing (p_thread proc) (os_sched s) (os_sched s').
Proof.
  intros [Hp Ht Hk Hd] Hq Ho.
  destruct (port_destroy_spec (ports_view s) _ Q C q pt Ht Hk Hp Hq) as (v & v1 & Hrun & Hv & Htv & Hkv & HP & Hw & Hs).
  assert (ps_procs v = os_procs s) as Hprocs.
  { by apply (port_destroy_procs (os_procs s) q (ports_view s) tt). }
  destruct Hw as (o & t & Ho' & Hth & ->). cbn [ports_view ps_procs ps_sched] in Ho', Hth.
  assert (o = proc) as -> by congruence.
  exists (put_ports v s). split; [by apply zoom_Ret|].
  assert (ports_view (put_ports v s) = v) as Ev by (destruct v; cbn in *; by subst).
  split_and!; try done.
  - split; rewrite ?Ev; done.
  - exists t. split; [done|]. right. exact Hs.
Qed.

(** Ports of process [p], each listed once. *)
Definition own_ports s (p : Z) (l : list Z) : Prop :=
  (∀ q, q ∈ l → q ≠ 0 → ∃ pt, os_ports s !! q = Some pt ∧ pt_owner pt = p) ∧
  (∀ i j q, l !! i = Some q → l !! j = Some q → q ≠ 0 → i = j).

Lemma own_ports_tail s s' p q l :
  own_ports s p (q :: l) → (∀ r, r ≠ q ∨ q = 0 → os_ports s' !! r = os_ports s !! r) → own_ports s' p l.
Proof.
  intros [H1 H2] Hsame. split.
  - intros r Hr Hr0. destruct (H1 r) as (pt & Hpt & Ho); [by right|done|]. exists pt. rewrite Hsame; [done|].
    destruct (decide (q = 0)) as [->|Hq0]; [by right|]. left. intros ->. apply list_elem_of_lookup in Hr as [j Hj].
    by specialize (H2 0%nat (S j) q eq_refl Hj Hq0).
  - intros i j r Hi Hj Hr. specialize (H2 (S i) (S j) r Hi Hj Hr). lia.
Qed.

Lemma with_ports_id l proc : l = p_ports proc → with_ports l proc = proc.
Proof. intros ->. by destruct proc. Qed.

Lemma take_zeros i n (l : list Z) :
  (i < length l)%nat → take (S i) (<[i := 0]> l) ++ replicate n 0 = take i l ++ replicate (S n) 0.
Proof.
  intros Hi. assert (<[i := 0]> l !! i = Some 0) as E by (by apply list_lookup_insert_eq).
  rewrite (take_S_r _ _ _ E), take_insert_ge, <- app_assoc by lia. done.
Qed.

(** What closing ports leaves alone. *)
Record ports_closed s s' (p : Z) (proc proc' : process) (th : Z) : Prop := {
  pc_procs : os_procs s' = <[p := proc']> (os_procs s);
  pc_files : os_files s' = os_files s;
  pc_nodes : os_nodes s' = os_nodes s;
  pc_fixed : fixed s' = fixed s;
  pc_sched : sched_closing th (os_sched s) (os_sched s');
}.

Lemma sched_closing_dom th c c' x : sched_closing th c c' → is_Some (threads c !! x) → is_Some (threads c' !! x).
Proof.
  intros (t & Ht & [->| ->]); [done|]. intros Hx. cbn [set_threads threads]. apply lookup_insert_is_Some'. by right.
Qed.

Lemma ports_closed_trans s1 s2 s3 p proc1 proc2 proc3 th :
  ports_closed s1 s2 p proc1 proc2 th → ports_closed s2 s3 p proc2 proc3 th → ports_closed s1 s3 p proc1 proc3 th.
Proof.
  intros [A1 A2 A3 A4 A5] [B1 B2 B3 B4 B5]. split; try congruence.
  - rewrite B1, A1. apply insert_insert_eq.
  - by eapply sched_closing_trans.
Qed.

(** One turn of the loop, at a port. *)
Lemma close_port_run s X Q C p proc i q pt :
  os_ok s X Q C → os_procs s !! p = Some proc → os_ports s !! q = Some pt → pt_owner pt = p →
  ∃ s', (in_ports (port_destroy q) ;;; proc <- in_sys (get_proc p) ;;
         in_sys (put_proc p (with_ports (<[i := 0]> (p_ports proc)) proc))) s = Ret (tt, s') ∧
    os_ok s' X (delete q Q) C ∧ os_ports s' = delete q (os_ports s) ∧
    ports_closed s s' p proc (with_ports (<[i := 0]> (p_ports proc)) proc) (p_thread proc).
Proof.
  intros Hok Hp Hpt Ho. rewrite <- Ho in Hp.
  destruct (destroy_run s X Q C q pt proc Hok Hpt Hp) as (s1 & Hrun1 & Hok1 & HP1 & Hpr1 & Hf1 & Hn1 & Hfx1 & Hs1).
  rewrite Ho in Hp. rewrite (bind_Ret _ _ _ _ _ Hrun1).
  assert (os_procs s1 !! p = Some proc) as Hp1 by (by rewrite Hpr1).
  rewrite (bind_Ret _ _ _ _ _ (os_get_proc s1 p proc Hp1)).
  set (proc1 := with_ports (<[i := 0]> (p_ports proc)) proc).
  exists (set_sys (set_procs (<[p := proc1]> (os_procs s1)) (os_sys s1)) s1).
  split; [by apply in_sys_run|]. split; [by apply (os_ok_proc s1 X _ C p proc)|]. split; [done|].
  split; try done. rewrite <- Hpr1. done.
Qed.

(** The loop from index [i]: every port from there on is destroyed. *)
Lemma close_ports_run X C p n : ∀ i s Q proc,
  os_ok s X Q C → os_procs s !! p = Some proc → is_Some (threads (os_sched s) !! p_thread proc) →
  length (p_ports proc) = (i + n)%nat → own_ports s p (drop i (p_ports proc)) →
  ∃ s' Q', close_ports n i p s = Ret (tt, s') ∧ os_ok s' X Q' C ∧
    ports_closed s s' p proc (with_ports (take i (p_ports proc) ++ replicate n 0) proc) (p_thread proc) ∧
    (∀ q, os_ports s' !! q = if decide (q ∈ drop i (p_ports proc)) then None else os_ports s !! q).
Proof.
  induction n as [|n IH]; intros i s Q proc Hok Hp [t Ht] Hlen Hown; cbn [close_ports].
  - exists s, Q. rewrite take_ge, app_nil_r by lia. rewrite with_ports_id by done.
    split_and!; [done|done| |].
    + split; try done; [by rewrite insert_id|]. exists t. split; [done|by left].
    + intros q. rewrite drop_ge by lia. by rewrite decide_False by apply not_elem_of_nil.
  - destruct (lookup_lt_is_Some_2 (p_ports proc) i) as [q Hq]; [lia|].
    rewrite (bind_Ret _ _ _ _ _ (os_get_proc s p proc Hp)), Hq. cbn [of_opt]. rewrite bind_ret.
    rewrite (drop_S _ _ _ Hq) in Hown |- *. pose proof (po_null _ _ _ _ (ok_ports _ _ _ _ Hok)) as H0.
    assert (os_ports s !! 0 = None) as H0p.
    { apply not_elem_of_dom. intros Hin. apply H0. cbn [ports_view ps_ports]. set_solver. }
    destruct (Z.eqb_spec q 0) as [->|Hq0].
    + rewrite bind_ret. destruct (IH (S i) s Q proc Hok Hp ltac:(eauto)) as (s' & Q' & Hrun & Hok' & Hcl & HP).
      { lia. } { by eapply own_ports_tail. }
      exists s', Q'. split; [done|]. split; [done|]. rewrite <- take_zeros, list_insert_id by (done || lia). split; [done|].
      intros r. rewrite HP. repeat case_decide; try done; [set_solver|].
      destruct (decide (r = 0)) as [->|]; [done|set_solver].
    + destruct (proj1 Hown q) as (pt & Hpt & Ho); [by left|done|].
      destruct (close_port_run s X Q C p proc i q pt Hok Hp Hpt Ho) as (s2 & Hrun2 & Hok2 & HP2 & Hcl2).
      rewrite (bind_Ret _ _ _ _ _ Hrun2). set (proc1 := with_ports (<[i := 0]> (p_ports proc)) proc) in *.
      destruct (IH (S i) s2 (delete q Q) proc1) as (s' & Q' & Hrun & Hok' & Hcl & HP); [done| | | | |].
      { rewrite (pc_procs _ _ _ _ _ _ Hcl2). apply lookup_insert_eq. }
      { eapply sched_closing_dom; [apply (pc_sched _ _ _ _ _ _ Hcl2)|eauto]. }
      { cbn [proc1 with_ports p_ports]. rewrite length_insert. lia. }
      { cbn [proc1 with_ports p_ports]. rewrite drop_insert_lt by lia. eapply own_ports_tail; [exact Hown|].
        intros r [Hr|?]; [|done]. rewrite HP2. by rewrite lookup_delete_ne. }
      exists s', Q'. split; [done|]. split; [done|].
      cbn [proc1 with_ports p_ports p_thread] in Hcl, HP. rewrite drop_insert_lt in HP by lia.
      rewrite take_zeros in Hcl by lia. split; [by eapply ports_closed_trans|].
      intros r. rewrite HP, HP2. destruct (decide (r = q)) as [->|Hr].
      * rewrite lookup_delete_eq, (decide_True (P := q ∈ q :: _)) by left. by case_decide.
      * rewrite lookup_delete_ne by done. repeat case_decide; set_solver.
Qed.

(** ** Closing descriptors *)

(** Open files, each with a node of its own. *)
Definition own_files s (l : list Z) : Prop :=
  (∀ f, f ∈ l → f ≠ 0 → ∃ fl n, os_files s !! f = Some fl ∧ os_nodes s !! f_node fl = Some n ∧ closable n) ∧
  (∀ i j f g fl gl, l !! i = Some f → l !! j = Some g → os_files s !! f = Some fl → os_files s !! g = Some gl →
     f_node fl = f_node gl → i = j).

(** The nodes that no file of [l] refers to. *)
Definition unreferenced s (l : list Z) (nd : Z) : Prop := ∀ f fl, f ∈ l → os_files s !! f = Some fl → f_node fl ≠ nd.

(** The state after closing: files and nodes differ, and the process. *)
Record fds_closed s s' (p : Z) (proc' : process) (l : list Z) : Prop := {
  fc_procs : os_procs s' = <[p := proc']> (os_procs s);
  fc_ports : os_ports s' = os_ports s;
  fc_fixed : fixed s' = fixed s;
  fc_sched : os_sched s' = os_sched s;
  fc_files : ∀ f, os_files s' !! f = if decide (f ∈ l) then None else os_files s !! f;
  fc_nodes : ∀ nd, unreferenced s l nd → os_nodes s' !! nd = os_nodes s !! nd;
}.

Lemma closed_nodes_ne N p n q : q ≠ p → closed_nodes N p n !! q = N !! q.
Proof. intros Hq. unfold closed_nodes. case_decide; [by rewrite lookup_delete_ne|by rewrite lookup_insert_ne]. Qed.

Lemma closed_nodes_dom N p n : N !! p = Some n → dom (closed_nodes N p n) ⊆ dom N.
Proof.
  intros Hp. unfold closed_nodes. pose proof (elem_of_dom_2 _ _ _ Hp). case_decide; rewrite ?dom_delete_L, ?dom_insert_L; set_solver.
Qed.

(** Fewer files and nodes, on a heap without their blocks. *)
Lemma os_ok_fewer s s' X Q C :
  os_ok s X Q C → os_ports s' = os_ports s → os_msgs s' = os_msgs s → os_bufs s' = os_bufs s →
  os_table s' = os_table s → os_table_count s' = os_table_count s → os_sched s' = os_sched s →
  os_procs s' = os_procs s → dom (os_files s') ⊆ dom (os_files s) → dom (os_nodes s') ⊆ dom (os_nodes s) →
  oh_rep (os_heap s') (λ q, q ∈ X ∪ fs_blocks s' ∪ dom (os_ports s') ∪ dom (os_msgs s') ∪ dom (os_bufs s')) →
  os_ok s' X Q C.
Proof.
  intros [Hp Ht Hk Hd] E1 E2 E3 E4 E5 E6 E7 D1 D2 Hrep.
  assert (ports_view s' = set_heap (os_heap s') (ports_view s)) as Ev.
  { unfold ports_view, set_heap. cbn [ps_heap ps_ports ps_msgs ps_bufs port_table port_table_count ps_sched ps_procs].
    by rewrite E1, E2, E3, E4, E5, E6, E7. }
  rewrite E1, E2, E3 in Hrep.
  assert (fs_blocks s' ⊆ fs_blocks s) as Hsub by (unfold fs_blocks; set_solver).
  split; [|rewrite Ev; by destruct Ht|by rewrite Ev|set_solver].
  rewrite Ev. destruct Hp as [_ Hdis Hnull ? ? ? ? ? ? ?]. split; try done.
  - cbn [set_heap ports_view ps_heap ps_ports ps_msgs ps_bufs] in *. clear - Hdis Hsub. set_solver.
  - cbn [set_heap ports_view ps_heap ps_ports ps_msgs ps_bufs] in *. clear - Hnull Hsub. set_solver.
Qed.

(** One turn of the loop, at an open file. *)
Lemma close_fd_run s X Q C p proc i f fl n :
  os_ok s X Q C → os_procs s !! p = Some proc → os_files s !! f = Some fl → os_nodes s !! f_node fl = Some n →
  closable n →
  ∃ s', (in_sys (close_file f) ;;; proc <- in_sys (get_proc p) ;;
         in_sys (put_proc p (with_fds (<[i := 0]> (p_fds proc)) proc))) s = Ret (tt, s') ∧
    os_ok s' X Q C ∧ os_files s' = delete f (os_files s) ∧
    os_nodes s' = closed_nodes (os_nodes s) (f_node fl) n ∧
    os_procs s' = <[p := with_fds (<[i := 0]> (p_fds proc)) proc]> (os_procs s) ∧
    os_ports s' = os_ports s ∧ fixed s' = fixed s ∧ os_sched s' = os_sched s.
Proof.
  intros Hok Hp Hf Hn Hcl. destruct (ok_disj _ _ _ _ Hok) as (D1 & D2 & D3).
  pose proof (po_disj _ _ _ _ (ok_ports _ _ _ _ Hok)) as Hdis.
  pose proof (po_heap _ _ _ _ (ok_ports _ _ _ _ Hok)) as Hrep.
  cbn [ports_view ps_heap ps_ports ps_msgs ps_bufs] in Hdis, Hrep. unfold fs_blocks in Hdis, Hrep.
  set (Y := X ∪ dom (os_ports s) ∪ dom (os_msgs s) ∪ dom (os_bufs s)).
  destruct (close_file_run (os_sys s) Y f fl n) as (h & Hrun & Hrep'); try done.
  { eapply oh_rep_ext; [exact Hrep|]. intros q. unfold Y. clear. unfold os_files, os_nodes. set_solver. }
  { unfold Y. clear - Hdis D1 D2 D3. unfold os_files, os_nodes in *. set_solver. }
  { unfold Y. clear - Hdis D1. unfold os_files, os_nodes in *. set_solver. }
  rewrite (bind_Ret _ _ _ _ _ (in_sys_run _ _ _ _ Hrun)). set (v1 := set_files _ _). set (s1 := set_sys v1 s).
  assert (os_procs s1 !! p = Some proc) as Hp1 by done.
  rewrite (bind_Ret _ _ _ _ _ (os_get_proc s1 p proc Hp1)). eexists. split; [by apply in_sys_run|].
  split_and!; try done. apply (os_ok_proc s1 X Q C p proc); [|done|done].
  apply (os_ok_fewer s); try done.
  - change (os_files s1) with (delete f (os_files s)). rewrite dom_delete_L. set_solver.
  - change (os_nodes s1) with (closed_nodes (os_nodes s) (f_node fl) n). by apply closed_nodes_dom.
  - eapply oh_rep_ext; [exact Hrep'|]. intros q. unfold Y, fs_blocks.
    change (os_nodes s1) with (closed_nodes (os_nodes s) (f_node fl) n).
    change (os_files s1) with (delete f (os_files s)). clear. unfold os_nodes, os_files. set_solver.
Qed.

Lemma own_files_skip s l : own_files s (0 :: l) → own_files s l.
Proof.
  intros [H1 H2]. split; [intros f Hf; apply H1; by right|].
  intros i j f g fl gl Hi Hj Hfl Hgl E. specialize (H2 (S i) (S j) f g fl gl Hi Hj Hfl Hgl E). lia.
Qed.

Lemma own_files_tail s s' f fl n l :
  own_files s (f :: l) → os_files s !! f = Some fl → os_files s' = delete f (os_files s) →
  os_nodes s' = closed_nodes (os_nodes s) (f_node fl) n → own_files s' l.
Proof.
  intros [H1 H2] Hf EF EN. split.
  - intros g Hg Hg0. destruct (H1 g) as (gl & m & Hgl & Hm & Hcl); [by right|done|].
    apply list_elem_of_lookup in Hg as [j Hj].
    assert (f_node gl ≠ f_node fl) as Hne by (intros E; by specialize (H2 (S j) 0%nat g f gl fl Hj eq_refl Hgl Hf E)).
    exists gl, m. rewrite EF, EN. split_and!; [|by rewrite closed_nodes_ne|done].
    rewrite lookup_delete_ne; [done|]. intros ->. congruence.
  - intros i j g g' gl gl' Hi Hj. rewrite EF. intros [_ Hg]%lookup_delete_Some [_ Hg']%lookup_delete_Some E.
    specialize (H2 (S i) (S j) g g' gl gl' Hi Hj Hg Hg' E). lia.
Qed.

Lemma fds_closed_trans s1 s2 s3 p proc2 proc3 f fl n l :
  own_files s1 (f :: l) → os_files s1 !! f = Some fl →
  os_files s2 = delete f (os_files s1) → os_nodes s2 = closed_nodes (os_nodes s1) (f_node fl) n →
  os_procs s2 = <[p := proc2]> (os_procs s1) → os_ports s2 = os_ports s1 → fixed s2 = fixed s1 →
  os_sched s2 = os_sched s1 → fds_closed s2 s3 p proc3 l → fds_closed s1 s3 p proc3 (f :: l).
Proof.
  intros Hown Hf EF EN EP E1 E2 E3 [B1 B2 B3 B4 B5 B6]. split; try congruence.
  - rewrite B1, EP. apply insert_insert_eq.
  - intros g. rewrite B5, EF. destruct (decide (g = f)) as [->|Hg].
    + rewrite lookup_delete_eq, (decide_True (P := f ∈ f :: _)) by left. by case_decide.
    + rewrite lookup_delete_ne by done. repeat case_decide; set_solver.
  - intros nd Hnd. rewrite B6.
    + rewrite EN. apply closed_nodes_ne. intros ->. apply (Hnd f fl); [left|done|done].
    + intros g gl Hg. rewrite EF. intros [_ Hgl]%lookup_delete_Some. apply (Hnd g gl); [by right|done].
Qed.

Lemma close_fds_run X Q C p n : ∀ i s proc,
  os_ok s X Q C → os_procs s !! p = Some proc → os_files s !! 0 = None →
  length (p_fds proc) = (i + n)%nat → own_files s (drop i (p_fds proc)) →
  ∃ s', close_fds n i p s = Ret (tt, s') ∧ os_ok s' X Q C ∧
    fds_closed s s' p (with_fds (take i (p_fds proc) ++ replicate n 0) proc) (drop i (p_fds proc)).
Proof.
  induction n as [|n IH]; intros i s proc Hok Hp H0 Hlen Hown; cbn [close_fds].
  - exists s. rewrite take_ge, app_nil_r, drop_ge by lia. rewrite with_fds_id by done. split_and!; [done|done|].
    split; try done. by rewrite insert_id.
  - destruct (lookup_lt_is_Some_2 (p_fds proc) i) as [f Hf]; [lia|].
    rewrite (bind_Ret _ _ _ _ _ (os_get_proc s p proc Hp)), Hf. cbn [of_opt]. rewrite bind_ret.
    rewrite (drop_S _ _ _ Hf) in Hown |- *. destruct (Z.eqb_spec f 0) as [->|Hf0].
    + rewrite bind_ret. destruct (IH (S i) s proc Hok Hp H0) as (s' & Hrun & Hok' & Hcl); [lia|by apply own_files_skip|].
      exists s'. split; [done|]. split; [done|]. rewrite <- take_zeros, list_insert_id by (done || lia).
      destruct Hcl as [A1 A2 A3 A4 A5 A6]. split; try done.
      * intros g. rewrite A5. destruct (decide (g = 0)) as [->|]; [rewrite H0; by repeat case_decide|].
        repeat case_decide; set_solver.
      * intros nd Hnd. apply A6. intros g gl Hg. apply Hnd. by right.
    + destruct (proj1 Hown f) as (fl & nd & Hfl & Hnd & Hcl); [by left|done|].
      destruct (close_fd_run s X Q C p proc i f fl nd Hok Hp Hfl Hnd Hcl)
        as (s2 & Hrun2 & Hok2 & EF & EN & EP & E1 & E2 & E3).
      rewrite (bind_Ret _ _ _ _ _ Hrun2). set (proc1 := with_fds (<[i := 0]> (p_fds proc)) proc) in *.
      destruct (IH (S i) s2 proc1) as (s' & Hrun & Hok' & Hcl'); [done| | | | |].
      { rewrite EP. apply lookup_insert_eq. }
      { rewrite EF. apply lookup_delete_None. by right. }
      { cbn [proc1 with_fds p_fds]. rewrite length_insert. lia. }
      { cbn [proc1 with_fds p_fds]. rewrite drop_insert_lt by lia. by eapply own_files_tail. }
      exists s'. split; [done|]. split; [done|]. cbn [proc1 with_fds p_fds] in Hcl'.
      rewrite drop_insert_lt in Hcl' by lia. rewrite take_zeros in Hcl' by lia.
      eapply (fds_closed_trans s s2 s' p proc1); try done.
Qed.

(** ** Both loops *)

(** A process in order: tables of 64 entries, ports and files of its own. *)
Record proc_ok s (p : Z) (proc : process) : Prop := {
  pr_proc : os_procs s !! p = Some proc;
  pr_thread : is_Some (threads (os_sched s) !! p_thread proc);
  pr_nports : length (p_ports proc) = 64%nat;
  pr_nfds : length (p_fds proc) = 64%nat;
  pr_ports : own_ports s p (p_ports proc);
  pr_files : own_files s (drop 2 (p_fds proc));
}.

(** The process struct when both loops are through. *)
Definition emptied (proc : process) : process :=
  with_fds (take 2 (p_fds proc) ++ replicate 62 0) (with_ports (replicate 64 0) proc).

(** Everything the process held is given back; everything else is as before. *)
Record released s s' (p : Z) (proc : process) : Prop := {
  re_procs : os_procs s' = <[p := emptied proc]> (os_procs s);
  re_ports : ∀ q, os_ports s' !! q = if decide (q ∈ p_ports proc) then None else os_ports s !! q;
  re_files : ∀ f, os_files s' !! f = if decide (f ∈ drop 2 (p_fds proc)) then None else os_files s !! f;
  re_nodes : ∀ nd, unreferenced s (drop 2 (p_fds proc)) nd → os_nodes s' !! nd = os_nodes s !! nd;
}.

Lemma close_all_run s X Q C p proc :
  os_ok s X Q C → proc_ok s p proc →
  ∃ s' Q', close_all p s = Ret (tt, s') ∧ os_ok s' X Q' C ∧ released s s' p proc ∧ fixed s' = fixed s ∧
    sched_closing (p_thread proc) (os_sched s) (os_sched s').
Proof.
  intros Hok [Hp Hth Hnp Hnf Hports Hfiles].
  assert (os_files s !! 0 = None) as H0.
  { apply not_elem_of_dom. intros Hin. apply (po_null _ _ _ _ (ok_ports _ _ _ _ Hok)). unfold fs_blocks. set_solver. }
  destruct (close_ports_run X C p 64 0 s Q proc Hok Hp Hth Hnp Hports) as (s1 & Q' & Hrun1 & Hok1 & Hc1 & HP1).
  unfold close_all. change (Z.to_nat MAX_PORTS) with 64%nat. rewrite (bind_Ret _ _ _ _ _ Hrun1).
  change (Z.to_nat (MAX_FDS - FD_RESERVED)) with 62%nat. change (Z.to_nat FD_RESERVED) with 2%nat.
  set (proc1 := with_ports (take 0 (p_ports proc) ++ replicate 64 0) proc) in *. destruct Hc1 as [C1 C2 C3 C4 C5].
  assert (own_files s1 (drop 2 (p_fds proc1))) as Hfiles1.
  { change (p_fds proc1) with (p_fds proc). unfold own_files. by rewrite C2, C3. }
  destruct (close_fds_run X Q' C p 62 2 s1 proc1 Hok1) as (s2 & Hrun2 & Hok2 & Hc2).
  { rewrite C1. apply lookup_insert_eq. } { by rewrite C2. } { exact Hnf. } { exact Hfiles1. }
  exists s2, Q'. split; [exact Hrun2|]. split; [done|].
  change (p_fds proc1) with (p_fds proc) in Hc2. destruct Hc2 as [D1 D2 D3 D4 D5 D6].
  split; [|split; [congruence|by rewrite D4]]. split.
  - rewrite D1, C1. apply insert_insert_eq.
  - intros q. by rewrite D2, HP1.
  - intros f. by rewrite D5, C2.
  - intros nd Hnd. rewrite D6; [by rewrite C3|]. unfold unreferenced. by rewrite C2.
Qed.

(** ** The scheduler *)

Definition put_sched (c : sched) s : os_state P := set_sys (set_core (os_heap s) c s) s.

Lemma on_sched_run {A} (m : M sched A) s a c : m (os_sched s) = Ret (a, c) → on_sched m s = Ret (a, put_sched c s).
Proof. intros E. unfold on_sched, in_kernel, in_sched, zoom. cbn [kernel_view k_sched]. rewrite E. done. Qed.

(** Threads that are what they were, or closer to rest. *)
Definition calmer (c c' : sched) : Prop := ∀ x t', threads c' !! x = Some t' →
  ∃ t, threads c !! x = Some t ∧ th_process t' = th_process t ∧ (th_state t' = THREAD_RUNNING → th_state t = THREAD_RUNNING).

Lemma sched_ok_step k l c' l' pr :
  sched_ok k l → ring c' l' → curr_thread c' = curr_thread (k_sched k) → idle_thread c' = idle_thread (k_sched k) →
  calmer (k_sched k) c' → (∀ x, is_Some (threads (k_sched k) !! x) → is_Some (threads c' !! x)) →
  (∀ x, is_Some (k_procs k !! x) → is_Some (pr !! x)) → sched_ok (mkKernel (P := P) (k_vm k) c' pr) l'.
Proof.
  intros [Hr Hc Hi Hrun Hproc] Hr' Ec Ei Hcalm Hdom Hpr. split; cbn [k_sched k_procs].
  - done.
  - rewrite Ec. by apply Hdom.
  - rewrite Ei. by apply Hdom.
  - intros x t' Hx Hs. destruct (Hcalm x t' Hx) as (t & Ht & _ & Hst). rewrite Ec. by eapply Hrun; [|apply Hst].
  - intros x t' Hx Hp. destruct (Hcalm x t' Hx) as (t & Ht & E & _). apply Hpr. rewrite E in *. by eapply Hproc.
Qed.

Lemma core_lookup (o o' : option thread) t' :
  core <$> o' = core <$> o → o' = Some t' → ∃ t, o = Some t ∧ core t' = core t.
Proof. intros H ->. symmetry in H. apply fmap_Some_1 in H as (t & -> & E). by exists t. Qed.

Lemma same_core_calmer c c' : same_core (threads c) (threads c') → calmer c c'.
Proof.
  intros H x t' Hx. destruct (core_lookup _ _ _ (H x) Hx) as (t & Ht & E). exists t. split; [done|].
  split; [exact (f_equal th_process E)|]. intros <-. symmetry. exact (f_equal th_state E).
Qed.

Lemma same_core_dom T T' x : same_core T T' → is_Some (T !! x) → is_Some (T' !! x).
Proof. intros H [t Ht]. specialize (H x). rewrite Ht in H. apply fmap_Some_1 in H as (t' & -> & _). eauto. Qed.

(** A change of a thread that is not one of its links keeps the ring. *)
Lemma ring_same_next c l p t t' : ring c l → threads c !! p = Some t → th_next t' = th_next t →
  ring (set_threads (<[p := t']> (threads c)) c) l.
Proof.
  intros [[-> Hh]|(Hne & Hnd & Hch)] Ht En; [by left|right]. split; [done|]. split; [done|].
  cbn [set_threads threads runqueue_head]. eapply chain_frame; [|exact Hch].
  intros x _. rewrite lookup_insert. case_decide; [|done]. subst. rewrite Ht. cbn. by rewrite En.
Qed.

(** While the ports close, the invariant of the scheduler stays. *)
Lemma closing_sched_ok s s' l th pr :
  sched_ok (kernel_view s) l → sched_closing th (os_sched s) (os_sched s') → os_procs s' = pr →
  (∀ x, is_Some (os_procs s !! x) → is_Some (pr !! x)) → sched_ok (kernel_view s') l.
Proof.
  intros Hok (t & Ht & Hc) Epr Hpr.
  assert (calmer (os_sched s) (os_sched s') ∧ ring (os_sched s') l ∧ curr_thread (os_sched s') = curr_thread (os_sched s) ∧
    idle_thread (os_sched s') = idle_thread (os_sched s) ∧
    ∀ x, is_Some (threads (os_sched s) !! x) → is_Some (threads (os_sched s') !! x)) as (H1 & H2 & H3 & H4 & H5).
  { destruct Hc as [-> | ->].
    - split_and!; try done; [|apply (so_ring _ _ Hok)]. intros x t' Hx. by exists t'.
    - split_and!; try done.
      + intros x t'. cbn [set_threads threads]. intros [[<- <-]|[_ Hx]]%lookup_insert_Some; [|by exists t']. exists t. split; [done|].
        unfold unblocked. case_bool_decide; done.
      + unfold unblocked. case_bool_decide; [by eapply ring_same_next; [apply (so_ring _ _ Hok)| |]|].
        rewrite insert_id by done. replace (set_threads _ _) with (os_sched s) by (by destruct (os_sched s)).
        apply (so_ring _ _ Hok).
      + intros x Hx. apply lookup_insert_is_Some'. by right. }
  pose proof (sched_ok_step (kernel_view s) l (os_sched s') l pr Hok H2 H3 H4 H1 H5 Hpr) as [? ? ? ? Hp].
  split; try done. cbn [kernel_view k_procs]. by rewrite Epr.
Qed.

(** Taking a thread out of the queue for good. *)
Record retired (c c' : sched) (th : Z) (t : thread) : Prop := {
  rt_dead : ∃ t', threads c' !! th = Some t' ∧ core t' = with_state THREAD_DEAD (core t);
  rt_others : ∀ x, x ≠ th → core <$> threads c' !! x = core <$> threads c !! x;
  rt_curr : curr_thread c' = curr_thread c;
  rt_idle : idle_thread c' = idle_thread c;
}.

Lemma retire_run s l1 th l2 t :
  sched_ok (kernel_view s) (l1 ++ th :: l2) → threads (os_sched s) !! th = Some t →
  ∃ c, (on_sched (runqueue_remove th) ;;; on_sched (upd_thread th (with_state THREAD_DEAD))) s = Ret (tt, put_sched c s) ∧
    sched_ok (kernel_view (put_sched c s)) (l1 ++ l2) ∧ retired (os_sched s) c th t.
Proof.
  intros Hok Ht.
  destruct (runqueue_remove_spec _ _ _ _ (so_ring _ _ Hok)) as (c1 & Hrun1 & Hr1 & Hcore & Ec1).
  cbn [kernel_view k_sched] in Hrun1, Hcore, Ec1. rewrite (bind_Ret _ _ _ _ _ (on_sched_run _ _ _ _ Hrun1)).
  destruct (same_core_dom _ _ th Hcore ltac:(eauto)) as [t1 Ht1].
  assert (core t1 = core t) as Et1.
  { destruct (core_lookup _ _ _ (Hcore th) Ht1) as (t0 & Ht0 & E). congruence. }
  set (c2 := set_threads (<[th := with_state THREAD_DEAD t1]> (threads c1)) c1).
  assert (curr_thread c1 = curr_thread (os_sched s) ∧ idle_thread c1 = idle_thread (os_sched s)) as [Ecu Eid]
    by (by rewrite Ec1). exists c2. split_and!.
  - assert (on_sched (upd_thread th (with_state THREAD_DEAD)) (put_sched c1 s) = Ret (tt, put_sched c2 (put_sched c1 s))) as ->.
    { apply on_sched_run. by apply upd_thread_run. } done.
  - apply (sched_ok_step (kernel_view s) (l1 ++ th :: l2) c2 (l1 ++ l2) (os_procs s)); try done.
    + by eapply ring_same_next.
    + intros x t'. cbn [c2 set_threads threads]. intros [[<- <-]|[_ Hx]]%lookup_insert_Some.
      * destruct (same_core_calmer _ _ Hcore th t1 Ht1) as (t0 & Ht0 & Ep & _). exists t0. by split_and!.
      * by apply (same_core_calmer _ _ Hcore).
    + intros x Hx. apply lookup_insert_is_Some'. right. by eapply same_core_dom.
  - split; try done.
    + exists (with_state THREAD_DEAD t1). split; [apply lookup_insert_eq|]. rewrite <- Et1. done.
    + intros x Hx. cbn [c2 set_threads threads]. rewrite lookup_insert_ne by done. apply Hcore.
Qed.

Lemma wake_run s l pid :
  sched_ok (kernel_view s) l →
  ∃ T, on_sched (thread_wake_pid pid) s = Ret (tt, put_sched (set_threads T (os_sched s)) s) ∧
    sched_ok (kernel_view (put_sched (set_threads T (os_sched s)) s)) l ∧
    ∀ x, T !! x = (if decide (x ∈ l) then wake_one pid else id) <$> threads (os_sched s) !! x.
Proof.
  intros Hok. destruct (wake_pid_spec (os_sched s) l pid (so_ring _ _ Hok)) as (T & Hrun & Hr & HT). exists T.
  split; [by apply on_sched_run|]. split; [|done].
  apply (sched_ok_step (kernel_view s) l (set_threads T (os_sched s)) l (os_procs s)); try done.
  - intros x t' Hx. change (T !! x = Some t') in Hx. rewrite HT in Hx.
    apply fmap_Some_1 in Hx as (t & Ht & ->). exists t. split; [done|].
    case_decide; [|done]. unfold wake_one. by destruct (_ && _).
  - intros x [t Hx]. change (is_Some (T !! x)). rewrite HT. change (os_sched s) with (k_sched (kernel_view s)). rewrite Hx. eauto.
Qed.

(** A switch from thread [c] to another one. *)
Record switched s s' (c c' : Z) : Prop := {
  sw_curr : curr_thread (os_sched s') = c';
  sw_other : ∀ x, x ≠ c → x ≠ c' → threads (os_sched s') !! x = threads (os_sched s) !! x;
  sw_old : threads (os_sched s') !! c = preempted <$> threads (os_sched s) !! c;
  sw_new : ∃ t u, threads (os_sched s) !! c' = Some t ∧
    threads (os_sched s') !! c' = Some (with_state THREAD_RUNNING (with_sleep u t)) ∧
    os_cr3 s' = space_of (kernel_view s) (with_sleep u t);
  sw_view : ports_view s' = set_ps_sched (os_sched s') (ports_view s);
  sw_rest : os_files s' = os_files s ∧ os_nodes s' = os_nodes s ∧ proc_list s' = proc_list s ∧
    proc_needs_cleanup s' = proc_needs_cleanup s;
}.

Lemma schedule_procs (pr : gmap Z process) ticks : preserves (λ k : kernel P, k_procs k = pr) (schedule ticks).
Proof. unfold schedule, switch_to_process, in_sched, in_vm. pres_auto. Qed.

Lemma kernel_view_put (k : kernel P) s : k_procs k = os_procs s → kernel_view (put_kernel k s) = k.
Proof. destruct k as [[] ? ?]. cbn. intros ->. done. Qed.

Lemma space_of_woken (k : kernel P) t ticks : space_of k (woken ticks t) = space_of k t.
Proof. unfold space_of, woken. by destruct (wakes ticks t). Qed.

(** What runqueue_next leaves of the threads. *)
Lemma picks_threads c l ticks n c1 : picks c ticks l n c1 → n ≠ curr_thread c →
  (n = idle_thread c ∨ n ∈ l) ∧ (∀ x, x ≠ n → threads c1 !! x = threads c !! x) ∧
  (∀ t, threads c !! n = Some t → ∃ u, threads c1 !! n = Some (with_state (th_state (woken ticks t)) (with_sleep u t)) ∨ threads c1 !! n = Some t).
Proof.
  intros [(_ & -> & _)|(_ & [(-> & -> & _)|(l1 & l2 & t & -> & _ & Ht & _ & _ & ->)])] Hn; [done| |].
  - split_and!; [by left|done|]. intros t Ht. exists 0. by right.
  - split_and!; [right; set_solver| |].
    + intros x Hx. cbn [set_head set_threads threads]. by rewrite lookup_insert_ne.
    + intros t' Ht'. assert (t' = t) as -> by congruence. cbn [set_head set_threads threads]. rewrite lookup_insert_eq.
      unfold woken. destruct (wakes ticks t); [exists 0; by left|exists 0; by right].
Qed.

Lemma schedule_run s l ticks :
  sched_ok (kernel_view s) l →
  ∃ c' c1 s' l', in_kernel (schedule ticks) s = Ret (tt, s') ∧ picks (os_sched s) ticks l c' c1 ∧
    l' ≡ₚ l ∧ sched_ok (kernel_view s') l' ∧ curr_thread (os_sched s') = c' ∧
    (c' ≠ curr_thread (os_sched s) → (c' = idle_thread (os_sched s) ∨ c' ∈ l) ∧ switched s s' (curr_thread (os_sched s)) c').
Proof.
  intros Hok. destruct (schedule_spec (kernel_view s) l ticks Hok) as (c & c1 & k' & Hp & Hrun & Ecur & (l' & Hperm & Hok') & _ & Hne).
  pose proof (schedule_procs (os_procs s) ticks (kernel_view s) tt k' eq_refl Hrun) as Epr. cbn beta in Epr.
  exists c, c1, (put_kernel k' s), l'. rewrite kernel_view_put by done. split_and!; try done; [by apply zoom_Ret|].
  intros Hc. destruct (Hne Hc) as (tc & tp & Htc & Htp & HT & _ & _ & Hcr & Hmm).
  destruct (picks_threads _ _ _ _ _ Hp Hc) as (Hin & Hsame & Hnew). split; [done|].
  cbn [kernel_view k_sched] in *. change (os_sched (put_kernel k' s)) with (k_sched k') in *.
  assert (is_Some (threads (os_sched s) !! c)) as [t Ht].
  { destruct Hp as [(_ & -> & _)|(_ & [(_ & -> & _)|(? & ? & t & _ & _ & Ht & _)])]; [done|apply (so_idle _ _ Hok)|eauto]. }
  assert (∃ u, tc = with_sleep u t ∨ tc = with_state (th_state (woken ticks t)) (with_sleep u t)) as [u Hu].
  { destruct (Hnew t Ht) as (u & [E|E]); rewrite Htc in E; injection E as ->; [exists u; by right|].
    exists (th_sleep_until t). left. by destruct t. }
  split; change (os_sched (put_kernel k' s)) with (k_sched k').
  - done.
  - intros x Hx1 Hx2. rewrite HT, !lookup_insert_ne by done. by apply Hsame.
  - rewrite HT, lookup_insert_ne, lookup_insert_eq by done. rewrite <- (Hsame (curr_thread (os_sched s))) by done. by rewrite Htp.
  - exists t, u. split; [done|]. rewrite HT, lookup_insert_eq. change (os_cr3 (put_kernel k' s)) with (cr3 (k_vm k')).
    rewrite Hcr. by destruct Hu as [->| ->].
  - unfold ports_view at 1. change (os_heap (put_kernel k' s)) with (vm_mm (k_vm k')). by rewrite Hmm.
  - done.
Qed.

Lemma os_ok_sched s s' X Q C :
  os_ok s X Q C → ports_view s' = set_ps_sched (os_sched s') (ports_view s) → os_files s' = os_files s →
  os_nodes s' = os_nodes s → (∀ x, is_Some (threads (os_sched s) !! x) → is_Some (threads (os_sched s') !! x)) →
  os_ok s' X Q C.
Proof.
  intros [Hp Ht Hk Hd] Ev EF EN Hdom. unfold fs_blocks in *.
  split; unfold fs_blocks; rewrite ?Ev, ?EF, ?EN; try done; [|by destruct Ht].
  destruct Hp. split; try done. intros q pt Hq. destruct (po_owner _ _ Hq) as (o & Ho & Hth). exists o. split; [done|by apply Hdom].
Qed.

Lemma released_sched s1 s2 s3 p proc :
  released s1 s2 p proc → ports_view s3 = set_ps_sched (os_sched s3) (ports_view s2) → os_files s3 = os_files s2 →
  os_nodes s3 = os_nodes s2 → released s1 s3 p proc.
Proof.
  intros [A1 A2 A3 A4] Ev EF EN.
  assert (os_procs s3 = os_procs s2) as EP by exact (f_equal ps_procs Ev).
  assert (os_ports s3 = os_ports s2) as EO by exact (f_equal ps_ports Ev).
  split; rewrite ?EP, ?EO, ?EF, ?EN; done.
Qed.

(** The end of sys_exit: another thread takes over. *)
Lemma leave_run s l ticks :
  sched_ok (kernel_view s) l → (curr_thread (os_sched s) ∉ l) → idle_thread (os_sched s) ∈ l →
  ∃ s' l', leave ticks s = Ret (tt, s') ∧ l' ≡ₚ l ∧ sched_ok (kernel_view s') l' ∧ curr_thread (os_sched s') ∈ l ∧
    switched s s' (curr_thread (os_sched s)) (curr_thread (os_sched s')).
Proof.
  intros Hok Hc Hi. destruct (schedule_run s l ticks Hok) as (c' & c1 & s' & l' & Hrun & Hp & Hperm & Hok' & Ec & Hsw).
  assert (c' ≠ curr_thread (os_sched s)) as Hne.
  { destruct Hp as [(-> & _ & _)|(_ & [(_ & -> & _)|(la & lb & t & -> & _)])].
    - by apply not_elem_of_nil in Hi.
    - intros E. by rewrite E in Hi.
    - intros ->. apply Hc. set_solver. }
  destruct (Hsw Hne) as [Hin Hs]. exists s', l'. rewrite Ec. split_and!; try done; [|destruct Hin as [->|?]; done].
  unfold leave. rewrite !bind_gets. destruct (so_idle _ _ Hok) as [ti Hti].
  rewrite (bind_Ret _ _ _ _ _ (on_sched_run _ _ _ _ (get_thread_run _ _ _ Hti))).
  assert (put_sched (k_sched (kernel_view s)) s = s) as -> by (by destruct s as [[[] ? ? ? ? ? ?] ? ? ? ? ? ? ? ? ?]).
  rewrite (bind_Ret _ _ _ _ _ Hrun), bind_gets, Ec. by destruct (Z.eqb_spec c' (curr_thread (os_sched s))).
Qed.

Lemma switched_dom s s' c c' x : switched s s' c c' → is_Some (threads (os_sched s) !! x) → is_Some (threads (os_sched s') !! x).
Proof.
  intros [_ Ho Hold (t & u & _ & Hn & _) _ _] [tx Hx].
  destruct (decide (x = c')) as [->|H1]; [rewrite Hn; eauto|].
  destruct (decide (x = c)) as [->|H2]; [rewrite Hold, Hx; eauto|]. rewrite Ho by done. eauto.
Qed.

(** ** Ending a process *)

(** Closing everything and taking the thread out of the queue. *)
Lemma close_retire_run s X Q C p proc th l1 l2 :
  os_ok s X Q C → proc_ok s p proc → th = p_thread proc → sched_ok (kernel_view s) (l1 ++ th :: l2) →
  ∃ s1 Q' c t, close_all p s = Ret (tt, s1) ∧
    (on_sched (runqueue_remove th) ;;; on_sched (upd_thread th (with_state THREAD_DEAD))) s1 = Ret (tt, put_sched c s1) ∧
    os_ok (put_sched c s1) X Q' C ∧ released s (put_sched c s1) p proc ∧ fixed (put_sched c s1) = fixed s ∧
    sched_ok (kernel_view (put_sched c s1)) (l1 ++ l2) ∧ threads (os_sched s) !! th = Some t ∧
    curr_thread (os_sched s1) = curr_thread (os_sched s) ∧ retired (os_sched s) c th t.
Proof.
  intros Hok Hpr -> Hso.
  destruct (close_all_run s X Q C p proc Hok Hpr) as (s1 & Q' & Hrun1 & Hok1 & Hrel & Hfix & Hcl).
  assert (sched_ok (kernel_view s1) (l1 ++ p_thread proc :: l2)) as Hso1.
  { eapply (closing_sched_ok s s1); [exact Hso|exact Hcl|apply (re_procs _ _ _ _ Hrel)|].
    intros x Hx. apply lookup_insert_is_Some'. by right. }
  destruct Hcl as (t & Ht & Hc).
  assert (∃ t1, threads (os_sched s1) !! p_thread proc = Some t1 ∧ with_state THREAD_DEAD (core t1) = with_state THREAD_DEAD (core t) ∧
    curr_thread (os_sched s1) = curr_thread (os_sched s) ∧ idle_thread (os_sched s1) = idle_thread (os_sched s) ∧
    ∀ x, x ≠ p_thread proc → threads (os_sched s1) !! x = threads (os_sched s) !! x) as (t1 & Ht1 & Et1 & Ecu & Eid & Hsame).
  { destruct Hc as [->| ->]; [by exists t|]. exists (unblocked t). cbn [set_threads threads]. rewrite lookup_insert_eq.
    split_and!; try done; [unfold unblocked; by case_bool_decide|]. intros x Hx. by rewrite lookup_insert_ne. }
  destruct (retire_run s1 l1 (p_thread proc) l2 t1 Hso1 Ht1) as (c & Hrun2 & Hso2 & [(t' & Ht' & Edead) Hoth Ecu2 Eid2]).
  exists s1, Q', c, t. split_and!; try done.
  - apply (os_ok_sched s1); try done. intros x Hx. change (is_Some (threads c !! x)).
    destruct (decide (x = p_thread proc)) as [->|Hne]; [eauto|]. specialize (Hoth x Hne).
    destruct Hx as [tx Hx]. rewrite Hx in Hoth. apply fmap_Some_1 in Hoth as (? & -> & _). eauto.
  - by apply (released_sched s s1).
  - split; [exists t'; split; [done|by rewrite Edead]| |congruence|congruence].
    intros x Hx. rewrite Hoth by done. by rewrite Hsame.
Qed.

(** A thread that waited is woken, whether it is switched to or not. *)
Lemma exit_wakes s s3 s' c th t0 T (l : list Z) pid x t :
  retired (os_sched s) c th t0 → (∀ x, T !! x = (if decide (x ∈ l) then wake_one pid else id) <$> threads c !! x) →
  threads (os_sched s3) = T → switched s3 s' th (curr_thread (os_sched s')) → x ∈ l → x ≠ th →
  threads (os_sched s) !! x = Some t → th_state t = THREAD_BLOCKED → th_waiting_for t = pid →
  ∃ t', threads (os_sched s') !! x = Some t' ∧
    th_state t' = (if decide (x = curr_thread (os_sched s')) then THREAD_RUNNING else THREAD_READY) ∧
    th_waiting_for t' = W64 - 1.
Proof.
  intros Hret HT E3 Hsw Hx Hne Ht Hblk Hwait. specialize (HT x). rewrite decide_True in HT by done.
  destruct (core_lookup _ _ _ (eq_sym (rt_others _ _ _ _ Hret x Hne)) Ht) as (tc & Htc & Ec).
  assert (th_state tc = THREAD_BLOCKED ∧ th_waiting_for tc = pid) as [Hb Hw].
  { split; [rewrite <- Hblk; symmetry; exact (f_equal th_state Ec)|rewrite <- Hwait; symmetry; exact (f_equal th_waiting_for Ec)]. }
  rewrite Htc in HT. cbn [fmap option_fmap option_map] in HT. unfold wake_one in HT.
  rewrite Hb, Hw, bool_decide_eq_true_2, Z.eqb_refl in HT by done. cbn [andb] in HT. rewrite <- E3 in HT.
  destruct (decide (x = curr_thread (os_sched s'))) as [E|Hc].
  - destruct (sw_new _ _ _ _ Hsw) as (tn & u & Htn & Hn & _). rewrite <- E in Htn, Hn. rewrite HT in Htn.
    injection Htn as <-. eexists. split; [exact Hn|]. done.
  - eexists. rewrite (sw_other _ _ _ _ Hsw) by done. split; [exact HT|]. done.
Qed.

(** C14. sys_exit: the ports and the files of the process are closed and nothing of
    other processes is, its thread is dead and out of the run queue, every thread of
    the queue that waited for the process can run again, and another thread of the
    queue is running. *)
Theorem sys_exit_correct (s : os_state P) (X : gset Z) (Q C : gmap Z (list Z)) (p : Z) (proc : process)
    (th : Z) (l1 l2 : list Z) (ticks code : Z) :
  os_ok s X Q C → proc_ok s p proc → sched_ok (kernel_view s) (l1 ++ th :: l2) →
  curr_thread (os_sched s) = th → p_thread proc = th → th_process <$> threads (os_sched s) !! th = Some p →
  idle_thread (os_sched s) ∈ l1 ++ l2 →
  ∃ s' Q' l', sys_exit ticks code s = Ret (tt, s') ∧ os_ok s' X Q' C ∧ released s s' p proc ∧
    l' ≡ₚ l1 ++ l2 ∧ sched_ok (kernel_view s') l' ∧ curr_thread (os_sched s') ∈ l1 ++ l2 ∧
    th_state <$> threads (os_sched s') !! th = Some THREAD_DEAD ∧ proc_needs_cleanup s' = true ∧
    (∀ x t, x ∈ l1 ++ l2 → threads (os_sched s) !! x = Some t → th_state t = THREAD_BLOCKED →
       th_waiting_for t = p_pid proc → ∃ t', threads (os_sched s') !! x = Some t' ∧
       th_state t' = (if decide (x = curr_thread (os_sched s')) then THREAD_RUNNING else THREAD_READY) ∧
       th_waiting_for t' = W64 - 1).
Proof.
  intros Hok Hpr Hso Ecur Eth Hproc Hidle.
  destruct (close_retire_run s X Q C p proc th l1 l2 Hok Hpr (eq_sym Eth) Hso)
    as (s1 & Q' & c & t0 & Hrun1 & Hrun2 & Hok2 & Hrel2 & Hfix2 & Hso2 & Ht0 & Ec1 & Hret).
  assert (th ∉ l1 ++ l2) as Hthl.
  { pose proof (so_ring _ _ Hso) as Hr. destruct Hr as [[E _]|(_ & Hnd & _)]; [by destruct l1|].
    apply NoDup_app in Hnd as (_ & Hd & Hnd). apply NoDup_cons in Hnd as [Hnd _].
    intros [Hin|Hin]%elem_of_app; [by apply (Hd th Hin); left|done]. }
  set (s2 := set_cleanup true (put_sched c s1)).
  destruct (wake_run s2 (l1 ++ l2) (p_pid proc) Hso2) as (T & Hrun3 & Hso3 & HT). set (s3 := put_sched _ s2) in *.
  assert (curr_thread (os_sched s3) = th) as Ec3 by (change (curr_thread c = th); by rewrite (rt_curr _ _ _ _ Hret)).
  destruct (leave_run s3 (l1 ++ l2) ticks Hso3) as (s' & l' & Hrun4 & Hperm & Hso4 & Hin4 & Hsw).
  { by rewrite Ec3. } { change (idle_thread c ∈ l1 ++ l2). by rewrite (rt_idle _ _ _ _ Hret). }
  rewrite Ec3 in Hsw. destruct (sw_rest _ _ _ _ Hsw) as (EF & EN & _ & EC).
  assert (os_ok s3 X Q' C) as Hok3.
  { apply (os_ok_sched (put_sched c s1)); try done. intros x [tx Hx]. change (is_Some (T !! x)). rewrite HT.
    change (threads (os_sched s2) !! x) with (threads (os_sched (put_sched c s1)) !! x). rewrite Hx. eauto. }
  exists s', Q', l'. split_and!; try done.
  - unfold sys_exit. destruct (pr_proc _ _ _ Hpr). rewrite <- Ecur in Hproc.
    apply fmap_Some_1 in Hproc as (t & Ht & ->).
    rewrite (bind_Ret _ _ _ (th_process t) s).
    2:{ apply in_sys_read. unfold curr_process. rewrite bind_gets. change (sy_sched (os_sys s)) with (os_sched s). by rewrite Ht. }
    rewrite (bind_Ret _ _ _ _ _ (os_get_proc s _ proc (pr_proc _ _ _ Hpr))), (bind_Ret _ _ _ _ _ Hrun1), bind_gets.
    rewrite Ec1, Ecur, <- bind_assoc, (bind_Ret _ _ _ _ _ Hrun2), bind_modify.
    rewrite (bind_Ret _ _ _ _ _ Hrun3). exact Hrun4.
  - apply (os_ok_sched s3); [done|apply (sw_view _ _ _ _ Hsw)|done|done|]. intros x. by eapply switched_dom.
  - apply (released_sched s s3); [|apply (sw_view _ _ _ _ Hsw)|done|done]. by apply (released_sched s (put_sched c s1)).
  - rewrite (sw_old _ _ _ _ Hsw). destruct (rt_dead _ _ _ _ Hret) as (td & Htd & Ed). change (threads (os_sched s3)) with T.
    rewrite HT, decide_False by done. change (threads (os_sched s2)) with (threads c). rewrite Htd. cbn [fmap option_fmap option_map id].
    assert (th_state td = THREAD_DEAD) as Es by exact (f_equal th_state Ed). unfold preempted.
    rewrite bool_decide_eq_false_2 by (by rewrite Es). cbn [fmap option_fmap option_map]. by rewrite Es.
  - intros x t Hx Ht Hblk Hwait. eapply (exit_wakes s s3 s' c th t0 T); try done. by intros ->.
Qed.

(** ** The list of processes *)

Fixpoint plist (pr : gmap Z process) (p : Z) (l : list Z) : Prop :=
  match l with
  | [] => p = 0
  | x :: l' => p = x ∧ x ≠ 0 ∧ ∃ proc, pr !! x = Some proc ∧ plist pr (p_next proc) l'
  end.

(** The first process of the list with the number [pid]. *)
Definition find_pid (pr : gmap Z process) (pid : Z) (l : list Z) : option Z :=
  snd <$> list_find (λ x, p_pid <$> pr !! x = Some pid) l.

Lemma find_loop_run s pid l : ∀ fuel p,
  plist (os_procs s) p l → (length l ≤ fuel)%nat →
  find_loop fuel p pid s = Ret (default 0 (find_pid (os_procs s) pid l), s).
Proof.
  induction l as [|x l IH]; intros fuel p Hp Hf; cbn [plist] in Hp.
  - rewrite Hp. by destruct fuel.
  - destruct Hp as (-> & Hx & proc & Hproc & Hp). destruct fuel as [|fuel]; [simpl in Hf; lia|]. cbn [find_loop].
    destruct (Z.eqb_spec x 0); [done|]. rewrite (bind_Ret _ _ _ _ _ (os_get_proc s x proc Hproc)).
    unfold find_pid. cbn [list_find]. rewrite Hproc. cbn [fmap option_fmap option_map].
    destruct (Z.eqb_spec (p_pid proc) pid) as [->|Hne].
    + rewrite decide_True by done. done.
    + rewrite decide_False by congruence. rewrite (IH fuel _ Hp) by (simpl in Hf; lia).
      unfold find_pid. by destruct (list_find _ l) as [[? ?]|].
Qed.

Lemma plist_dom pr l : ∀ p x, plist pr p l → x ∈ l → x ≠ 0 ∧ is_Some (pr !! x).
Proof.
  induction l as [|y l IH]; intros p x Hp Hx; [by apply not_elem_of_nil in Hx|].
  destruct Hp as (-> & Hy & proc & Hproc & Hp). apply elem_of_cons in Hx as [->|Hx]; [eauto|by eapply IH].
Qed.

Lemma proc_find_run s pid l :
  plist (os_procs s) (proc_list s) l → NoDup l →
  proc_find pid s = Ret (default 0 (find_pid (os_procs s) pid l), s).
Proof.
  intros Hp Hnd. unfold proc_find. rewrite !bind_gets. apply find_loop_run; [done|].
  rewrite <- size_dom, <- (size_list_to_set (C := gset Z)) by done. apply subseteq_size.
  intros x Hx%elem_of_list_to_set. apply elem_of_dom. by eapply plist_dom.
Qed.

Lemma find_pid_Some pr pid l p : find_pid pr pid l = Some p →
  p ∈ l ∧ ∃ proc, pr !! p = Some proc ∧ p_pid proc = pid.
Proof.
  unfold find_pid. intros ([i x] & E & ->)%fmap_Some. apply list_find_Some in E as (Hi & Hpid & _).
  apply fmap_Some in Hpid as (proc & Hproc & ->). split; [by eapply list_elem_of_lookup_2|eauto].
Qed.

Lemma sys_kill_run s X Q C l ticks pid :
  os_ok s X Q C → plist (os_procs s) (proc_list s) l → NoDup l →
  match find_pid (os_procs s) pid l with
  | None => sys_kill ticks pid s = Ret (Some (-1), s)
  | Some p => ∀ proc l1 l2, proc_ok s p proc → sched_ok (kernel_view s) (l1 ++ p_thread proc :: l2) →
      p_thread proc ≠ curr_thread (os_sched s) →
      ∃ s' Q' t, sys_kill ticks pid s = Ret (Some 0, s') ∧ os_ok s' X Q' C ∧ released s s' p proc ∧
        sched_ok (kernel_view s') (l1 ++ l2) ∧ retired (os_sched s) (os_sched s') (p_thread proc) t ∧
        proc_needs_cleanup s' = true
  end.
Proof.
  intros Hok Hpl Hnd. pose proof (proc_find_run s pid l Hpl Hnd) as Hfind.
  destruct (find_pid _ pid l) as [p|] eqn:E; cbn [default from_option id] in Hfind.
  2:{ unfold sys_kill. rewrite (bind_Ret _ _ _ _ _ Hfind). done. }
  intros proc l1 l2 Hpr Hso Hne. destruct (find_pid_Some _ _ _ _ E) as (Hin & _).
  destruct (close_retire_run s X Q C p proc (p_thread proc) l1 l2 Hok Hpr eq_refl Hso)
    as (s1 & Q' & c & t0 & Hrun1 & Hrun2 & Hok2 & Hrel2 & Hfix2 & Hso2 & Ht0 & Ec1 & Hret).
  assert (os_procs s1 !! p = Some (emptied proc)) as Hp1.
  { change (os_procs (put_sched c s1) !! p = Some (emptied proc)). rewrite (re_procs _ _ _ _ Hrel2). apply lookup_insert_eq. }
  exists (set_cleanup true (put_sched c s1)), Q', t0. split; [|split_and!; try done].
  - unfold sys_kill. rewrite (bind_Ret _ _ _ _ _ Hfind).
    destruct (Z.eqb_spec p 0) as [->|_]; [by destruct (plist_dom _ _ _ _ Hpl Hin)|].
    rewrite (bind_Ret _ _ _ _ _ Hrun1), (bind_Ret _ _ _ _ _ (os_get_proc s1 p _ Hp1)).
    change (p_thread (emptied proc)) with (p_thread proc).
    rewrite <- bind_assoc, (bind_Ret _ _ _ _ _ Hrun2), bind_modify, bind_gets.
    change (curr_thread (os_sched (set_cleanup true (put_sched c s1)))) with (curr_thread c).
    rewrite (rt_curr _ _ _ _ Hret). by destruct (Z.eqb_spec (p_thread proc) (curr_thread (os_sched s))).
  - by apply (os_ok_sched (put_sched c s1)).
  - by apply (released_sched s (put_sched c s1)).
Qed.

(** C15. sys_kill of another process: -1 and no change when no process has the
    number; otherwise its ports and files are closed, its thread is dead and out of
    the run queue, and no other thread is touched. *)
Theorem sys_kill_correct (s : os_state P) (X : gset Z) (Q C : gmap Z (list Z)) (l : list Z) (ticks pid : Z) :
  os_ok s X Q C → plist (os_procs s) (proc_list s) l → NoDup l →
  match find_pid (os_procs s) pid l with
  | None => sys_kill ticks pid s = Ret (Some (-1), s)
  | Some p => ∀ proc l1 l2, proc_ok s p proc → sched_ok (kernel_view s) (l1 ++ p_thread proc :: l2) →
      p_thread proc ≠ curr_thread (os_sched s) →
      ∃ s' Q' t, sys_kill ticks pid s = Ret (Some 0, s') ∧ os_ok s' X Q' C ∧ released s s' p proc ∧
        sched_ok (kernel_view s') (l1 ++ l2) ∧ retired (os_sched s) (os_sched s') (p_thread proc) t ∧
        proc_needs_cleanup s' = true
  end.
Proof. apply sys_kill_run. Qed.

(** sys_kill does not wake the threads that wait for the process it ends: they stay
    blocked, waiting for a number that nobody will signal. *)
Theorem sys_kill_leaves_waiters (s : os_state P) (X : gset Z) (Q C : gmap Z (list Z)) (l : list Z) (ticks pid p : Z)
    (proc : process) (l1 l2 : list Z) (x : Z) (t : thread) :
  os_ok s X Q C → plist (os_procs s) (proc_list s) l → NoDup l → find_pid (os_procs s) pid l = Some p →
  proc_ok s p proc → sched_ok (kernel_view s) (l1 ++ p_thread proc :: l2) → p_thread proc ≠ curr_thread (os_sched s) →
  x ≠ p_thread proc → threads (os_sched s) !! x = Some t → th_state t = THREAD_BLOCKED → th_waiting_for t = pid →
  ∃ s' t', sys_kill ticks pid s = Ret (Some 0, s') ∧ threads (os_sched s') !! x = Some t' ∧
    th_state t' = THREAD_BLOCKED ∧ th_waiting_for t' = pid.
Proof.
  intros Hok Hpl Hnd E Hpr Hso Hne Hx Ht Hb Hw.
  pose proof (sys_kill_run s X Q C l ticks pid Hok Hpl Hnd) as Hk. rewrite E in Hk.
  destruct (Hk proc l1 l2 Hpr Hso Hne) as (s' & Q' & t0 & Hrun & _ & _ & _ & Hret & _).
  destruct (core_lookup _ _ _ (eq_sym (rt_others _ _ _ _ Hret x Hx)) Ht) as (t' & Ht' & Ec).
  exists s', t'. split_and!; [done|done| |].
  - rewrite <- Hb. symmetry. exact (f_equal th_state Ec).
  - rewrite <- Hw. symmetry. exact (f_equal th_waiting_for Ec).
Qed.

(** ** Waiting *)

(** The current thread blocks and another one is chosen. *)
Lemma block_run s l c t t' ticks :
  sched_ok (kernel_view s) l → curr_thread (os_sched s) = c → threads (os_sched s) !! c = Some t →
  th_next t' = th_next t → th_process t' = th_process t → th_state t' = THREAD_BLOCKED → wakes ticks t' = false →
  idle_thread (os_sched s) ≠ c → l ≠ [] →
  ∃ s' l', in_kernel (schedule ticks) (put_sched (set_threads (<[c := t']> (threads (os_sched s))) (os_sched s)) s) = Ret (tt, s') ∧
    l' ≡ₚ l ∧ sched_ok (kernel_view s') l' ∧ curr_thread (os_sched s') ≠ c ∧ threads (os_sched s') !! c = Some t' ∧
    (∀ x, x ≠ c → x ≠ curr_thread (os_sched s') → threads (os_sched s') !! x = threads (os_sched s) !! x).
Proof.
  intros Hok Ec Ht En Ep Est Hw Hidle Hne. set (c1 := set_threads _ _). set (s1 := put_sched c1 s).
  assert (sched_ok (kernel_view s1) l) as Hok1.
  { apply (sched_ok_step (kernel_view s) l c1 l (os_procs s)); try done.
    - eapply ring_same_next; [apply (so_ring _ _ Hok)|exact Ht|done].
    - intros x tx. cbn [c1 set_threads threads]. intros [[<- <-]|[_ Hx]]%lookup_insert_Some; [|by exists tx].
      exists t. split_and!; [done|done|by rewrite Est].
    - intros x Hx. apply lookup_insert_is_Some'. by right. }
  destruct (schedule_run s1 l ticks Hok1) as (c' & c2 & s' & l' & Hrun & Hp & Hperm & Hok' & Ec' & Hsw).
  assert (c' ≠ c) as Hcc.
  { destruct Hp as [(-> & _ & _)|(_ & [(_ & -> & _)|(la & lb & tx & _ & _ & Hx & Hr & _)])]; [done|done|].
    intros ->. change (os_sched s1) with c1 in Hx. cbn [c1 set_threads threads] in Hx. rewrite lookup_insert_eq in Hx. injection Hx as <-.
    unfold runnable in Hr. rewrite Est, Hw in Hr. done. }
  assert (curr_thread (os_sched s1) = c) as Ec1 by done. rewrite Ec1 in Hsw. destruct (Hsw Hcc) as [_ Hs].
  exists s', l'. rewrite Ec'. split_and!; try done.
  - rewrite (sw_old _ _ _ _ Hs). change (threads (os_sched s1)) with (<[c := t']> (threads (os_sched s))).
    rewrite lookup_insert_eq. cbn [fmap option_fmap option_map]. unfold preempted. by rewrite bool_decide_eq_false_2 by (by rewrite Est).
  - intros x Hx Hx'. rewrite (sw_other _ _ _ _ Hs) by done. change (threads (os_sched s1)) with (<[c := t']> (threads (os_sched s))).
    by rewrite lookup_insert_ne.
Qed.

Lemma upd_twice s c t f g :
  threads (os_sched s) !! c = Some t →
  ∀ {A} (k : M (os_state P) A),
  (on_sched (upd_thread c f) ;;; on_sched (upd_thread c g) ;;; k) s =
    k (put_sched (set_threads (<[c := g (f t)]> (threads (os_sched s))) (os_sched s)) s).
Proof.
  intros Ht A k. rewrite (bind_Ret _ _ _ _ _ (on_sched_run _ s _ _ (upd_thread_run _ _ _ f Ht))).
  set (s1 := put_sched _ s). assert (threads (os_sched s1) !! c = Some (f t)) as Ht1 by apply lookup_insert_eq.
  rewrite (bind_Ret _ _ _ _ _ (on_sched_run _ s1 _ _ (upd_thread_run _ _ _ g Ht1))). f_equal.
  unfold s1, put_sched. cbn. by rewrite insert_insert_eq.
Qed.

(** sys_wait_pid: nothing happens when no process has the number; otherwise the
    caller is blocked until that process signals, and another thread runs.  (Whether
    the process is dead already is not looked at.) *)
Theorem sys_wait_pid_correct (s : os_state P) (lp l : list Z) (c : Z) (t : thread) (ticks pid : Z) :
  plist (os_procs s) (proc_list s) lp → NoDup lp → sched_ok (kernel_view s) l → curr_thread (os_sched s) = c →
  threads (os_sched s) !! c = Some t → th_sleep_until t = 0 → idle_thread (os_sched s) ≠ c → l ≠ [] →
  match find_pid (os_procs s) pid lp with
  | None => sys_wait_pid ticks pid s = Ret (tt, s)
  | Some _ => ∃ s' l', sys_wait_pid ticks pid s = Ret (tt, s') ∧ l' ≡ₚ l ∧ sched_ok (kernel_view s') l' ∧
      curr_thread (os_sched s') ≠ c ∧
      threads (os_sched s') !! c = Some (with_waiting pid (with_state THREAD_BLOCKED t)) ∧
      (∀ x, x ≠ c → x ≠ curr_thread (os_sched s') → threads (os_sched s') !! x = threads (os_sched s) !! x)
  end.
Proof.
  intros Hpl Hnd Hok Ec Ht Hsl Hi Hne. pose proof (proc_find_run s pid lp Hpl Hnd) as Hfind.
  destruct (find_pid _ pid lp) as [p|] eqn:E; cbn [default from_option id] in Hfind.
  2:{ unfold sys_wait_pid. rewrite (bind_Ret _ _ _ _ _ Hfind). done. }
  destruct (find_pid_Some _ _ _ _ E) as (Hin & proc & Hproc & Epid).
  destruct (block_run s l c t (with_waiting pid (with_state THREAD_BLOCKED t)) ticks)
    as (s' & l' & Hrun & Hrest); try done.
  { unfold wakes. cbn [with_waiting with_state th_state th_sleep_until]. rewrite Hsl. cbn. by rewrite andb_false_r. }
  exists s', l'. split; [|done]. unfold sys_wait_pid. rewrite (bind_Ret _ _ _ _ _ Hfind).
  destruct (Z.eqb_spec p 0) as [->|_]; [by destruct (plist_dom _ _ _ _ Hpl Hin)|]. rewrite bind_gets, Ec.
  rewrite (bind_Ret _ _ _ _ _ (on_sched_run _ s _ _ (upd_thread_run _ _ _ (with_state THREAD_BLOCKED) Ht))).
  set (s1 := put_sched _ s). assert (threads (os_sched s1) !! c = Some (with_state THREAD_BLOCKED t)) as Ht1 by apply lookup_insert_eq.
  rewrite (bind_Ret _ _ _ _ _ (os_get_proc s1 p proc Hproc)), Epid.
  rewrite (bind_Ret _ _ _ _ _ (on_sched_run _ s1 _ _ (upd_thread_run _ _ _ (with_waiting pid) Ht1))).
  rewrite <- Hrun. f_equal. unfold s1, put_sched. cbn. by rewrite insert_insert_eq.
Qed.

(** sys_sleep: the caller is blocked, another thread runs, and from then on the
    scheduler may pick the caller exactly when the clock has reached its deadline. *)
Theorem sys_sleep_correct (s : os_state P) (l : list Z) (c : Z) (t : thread) (now ticks ms : Z) :
  sched_ok (kernel_view s) l → curr_thread (os_sched s) = c → threads (os_sched s) !! c = Some t →
  idle_thread (os_sched s) ≠ c → l ≠ [] → 0 ≤ ticks < now + ms → now + ms < W64 →
  ∃ s' l' t', sys_sleep now ticks ms s = Ret (tt, s') ∧ l' ≡ₚ l ∧ sched_ok (kernel_view s') l' ∧
    curr_thread (os_sched s') ≠ c ∧ threads (os_sched s') !! c = Some t' ∧ th_state t' = THREAD_BLOCKED ∧
    (∀ later, runnable later t' = (now + ms <=? later)) ∧
    (∀ x, x ≠ c → x ≠ curr_thread (os_sched s') → threads (os_sched s') !! x = threads (os_sched s) !! x).
Proof.
  intros Hok Ec Ht Hi Hne Htk Hlt. set (t' := with_state THREAD_BLOCKED (with_sleep (now + ms) t)).
  assert (∀ later, wakes later t' = (now + ms <=? later)) as Hw.
  { intros later. unfold wakes, t'. cbn [with_state with_sleep th_state th_sleep_until].
    rewrite bool_decide_eq_true_2 by done. destruct (Z.ltb_spec 0 (now + ms)); [done|lia]. }
  destruct (block_run s l c t t' ticks) as (s' & l' & Hrun & H1 & H2 & H3 & H4 & H5); try done.
  { rewrite Hw. lia. }
  exists s', l', t'. split_and!; try done.
  - unfold sys_sleep. rewrite bind_gets, Ec, (upd_twice s c t _ _ Ht), u64_small by lia. exact Hrun.
Qed.

(** ** sys_listprocs *)

(** The entry of process [x]. *)
Definition info_of s (x : Z) : option proc_info :=
  proc ← os_procs s !! x; t ← threads (os_sched s) !! p_thread proc;
  Some (mkInfo (p_pid proc) (match p_name proc with [] => [0] | _ => info_name proc end) (state_number (th_state t))).

Lemma list_loop_run s l : ∀ n p,
  plist (os_procs s) p l → (∀ x, x ∈ l → is_Some (info_of s x)) →
  ∃ es, list_loop n p s = Ret (es, s) ∧ Some <$> es = info_of s <$> take n l.
Proof.
  induction l as [|x l IH]; intros [|n] p Hp Hall; cbn [list_loop take]; try (exists []; split; [|done]).
  - done.
  - cbn in Hp. by rewrite Hp.
  - done.
  - destruct Hp as (-> & Hx & proc & Hproc & Hp). destruct (Z.eqb_spec x 0); [done|].
    rewrite (bind_Ret _ _ _ _ _ (os_get_proc s x proc Hproc)).
    destruct (Hall x) as [e He]; [left|]. unfold info_of in He. rewrite Hproc in He. cbn [mbind option_bind] in He.
    destruct (threads (os_sched s) !! p_thread proc) as [t|] eqn:Ht; [|done]. cbn [mbind option_bind] in He. injection He as <-.
    rewrite (bind_Ret _ _ _ t s).
    2:{ rewrite (on_sched_run _ s _ _ (get_thread_run _ _ _ Ht)). by destruct s as [[[] ? ? ? ? ? ?] ? ? ? ? ? ? ? ? ?]. }
    destruct (IH n (p_next proc) Hp) as (es & Hrun & Hes); [intros y Hy; apply Hall; by right|].
    cbv zeta. rewrite (bind_Ret _ _ _ _ _ Hrun). eexists. split; [done|]. cbn [fmap list_fmap]. f_equal; [|exact Hes].
    unfold info_of. rewrite Hproc. cbn [mbind option_bind]. by rewrite Ht.
Qed.

(** The entries of sys_listprocs are those of the first [max] processes, in the
    order of the list; nothing changes. *)
Theorem sys_listprocs_correct (s : os_state P) (l : list Z) (max : Z) :
  plist (os_procs s) (proc_list s) l → (∀ x, x ∈ l → is_Some (info_of s x)) →
  ∃ es, sys_listprocs max s = Ret (es, s) ∧ Some <$> es = info_of s <$> take (Z.to_nat max) l.
Proof. intros Hp Hall. unfold sys_listprocs. rewrite bind_gets. by apply list_loop_run. Qed.

(** A name of 63 characters is copied without a terminator: the 63 bytes written
    are all of the name, and the 64th of the caller's array stays what it was. *)
Theorem listprocs_unterminated_name (s : os_state P) (x : Z) (proc : process) (t : thread) :
  os_procs s !! x = Some proc → threads (os_sched s) !! p_thread proc = Some t → length (p_name proc) = 63%nat →
  pi_name <$> info_of s x = Some (p_name proc).
Proof.
  intros Hp Ht Hl. unfold info_of. rewrite Hp. cbn [mbind option_bind]. rewrite Ht.
  cbn [mbind option_bind fmap option_fmap option_map pi_name]. destruct (p_name proc) eqn:E; [done|].
  unfold info_name. rewrite E. rewrite take_ge by lia. rewrite Hl. change (63 - 63)%nat with 0%nat. by rewrite app_nil_r.
Qed.

(** ** The ports of a process *)

(** The index under which the process has a port with the token. *)
Definition token_index s (ports : list Z) (token : Z) : option nat :=
  fst <$> list_find (λ q, q ≠ 0 ∧ pt_token <$> os_ports s !! q = Some token) ports.

Lemma in_ports_get s q pt : os_ports s !! q = Some pt → in_ports (get_port q) s = Ret (pt, s).
Proof.
  intros Hq. unfold in_ports, zoom. rewrite (get_port_run (ports_view s) q pt Hq).
  by destruct s as [[[] ? ? ? ? ? ?] ? ? ? ? ? ? ? ? ?].
Qed.

Lemma own_port_run s p proc token n : ∀ i,
  os_procs s !! p = Some proc → length (p_ports proc) = (i + n)%nat →
  (∀ q, q ∈ drop i (p_ports proc) → q ≠ 0 → is_Some (os_ports s !! q)) →
  own_port n i p token s = Ret (Nat.add i <$> token_index s (drop i (p_ports proc)) token, s).
Proof.
  induction n as [|n IH]; intros i Hp Hlen Hall; cbn [own_port]; [by rewrite drop_ge by lia|].
  destruct (lookup_lt_is_Some_2 (p_ports proc) i) as [q Hq]; [lia|].
  rewrite (bind_Ret _ _ _ _ _ (os_get_proc s p proc Hp)), Hq. cbn [of_opt]. rewrite bind_ret.
  rewrite (drop_S _ _ _ Hq) in Hall |- *.
  assert (own_port n (S i) p token s = Ret (Nat.add i <$> (S <$> token_index s (drop (S i) (p_ports proc)) token), s)) as Hrest.
  { rewrite IH; [|done|lia|intros r Hr; apply Hall; by right]. do 2 f_equal.
    destruct (token_index _ _ _) as [k|]; [|done]. cbn. f_equal. lia. }
  assert (∀ P0 : Prop, (q ≠ 0 ∧ pt_token <$> os_ports s !! q = Some token) = P0 → ¬ P0 →
    token_index s (q :: drop (S i) (p_ports proc)) token = S <$> token_index s (drop (S i) (p_ports proc)) token) as Hskip.
  { intros P0 <- Hno. unfold token_index. cbn [list_find]. rewrite decide_False by done. by destruct (list_find _ _) as [[? ?]|]. }
  destruct (Z.eqb_spec q 0) as [->|Hq0]; [rewrite (Hskip _ eq_refl) by tauto; exact Hrest|].
  destruct (Hall q) as [pt Hpt]; [left|done|]. rewrite (bind_Ret _ _ _ _ _ (in_ports_get s q pt Hpt)).
  destruct (Z.eqb_spec (pt_token pt) token) as [Et|Hne].
  - unfold token_index. cbn [list_find]. rewrite decide_True by (split; [done|rewrite Hpt; cbn; by rewrite Et]).
    cbn. by rewrite Nat.add_0_r.
  - rewrite (Hskip _ eq_refl); [exact Hrest|]. intros [_ E]. rewrite Hpt in E. cbn in E. congruence.
Qed.

Lemma curr_process_os s p : th_process <$> threads (os_sched s) !! curr_thread (os_sched s) = Some p → in_sys curr_process s = Ret (p, s).
Proof.
  intros (t & Ht & ->)%fmap_Some_1. apply in_sys_read. unfold curr_process. rewrite bind_gets.
  change (sy_sched (os_sys s)) with (os_sched s). by rewrite Ht.
Qed.

Lemma own_port_find s p proc token : proc_ok s p proc →
  own_port (Z.to_nat MAX_PORTS) 0 p token s = Ret (token_index s (p_ports proc) token, s).
Proof.
  intros Hpr. change (Z.to_nat MAX_PORTS) with 64%nat. rewrite (own_port_run s p proc token 64 0); [|apply (pr_proc _ _ _ Hpr)|apply (pr_nports _ _ _ Hpr)|].
  - rewrite drop_0. by destruct (token_index _ _ _).
  - rewrite drop_0. intros q Hq Hq0. destruct (proj1 (pr_ports _ _ _ Hpr) q Hq Hq0) as (pt & Hpt & _). eauto.
Qed.

(** C28. A port belongs to the process that made it: with the token of another
    process's port, or of no port, sys_port_receive and sys_port_destroy return -1 and
    change nothing. *)
Theorem foreign_port_refused (s : os_state P) (p : Z) (proc : process) (token len : Z)
    (others : list (M (port_state (mm_state P)) unit)) :
  proc_ok s p proc → th_process <$> threads (os_sched s) !! curr_thread (os_sched s) = Some p →
  (∀ q pt, os_ports s !! q = Some pt → pt_token pt = token → pt_owner pt ≠ p) →
  sys_port_receive others token len s = Ret (Some (-1, []), s) ∧ sys_port_destroy token s = Ret (-1, s).
Proof.
  intros Hpr Hc Hno. pose proof (own_port_find s p proc token Hpr) as Hfind.
  assert (token_index s (p_ports proc) token = None) as E.
  { unfold token_index. destruct (list_find _ _) as [[k q]|] eqn:Ef; [|done].
    apply list_find_Some in Ef as (Hk & [Hq0 Htok] & _). apply fmap_Some_1 in Htok as (pt & Hpt & Et).
    destruct (proj1 (pr_ports _ _ _ Hpr) q) as (pt' & Hpt' & Ho); [by eapply list_elem_of_lookup_2|done|].
    assert (pt' = pt) as -> by congruence. by destruct (Hno q pt Hpt (eq_sym Et)). }
  rewrite E in Hfind. unfold sys_port_receive, sys_port_destroy.
  by rewrite !(bind_Ret _ _ _ _ _ (curr_process_os s p Hc)), !(bind_Ret _ _ _ _ _ Hfind).
Qed.

(** sys_port_destroy with a token of the caller's: the port is gone, the entry is
    free again, nothing else changed but that a blocked owner was woken. *)
Theorem sys_port_destroy_correct (s : os_state P) (X : gset Z) (Q C : gmap Z (list Z)) (p : Z) (proc : process)
    (token : Z) (i : nat) (q : Z) :
  os_ok s X Q C → proc_ok s p proc → th_process <$> threads (os_sched s) !! curr_thread (os_sched s) = Some p →
  token_index s (p_ports proc) token = Some i → p_ports proc !! i = Some q →
  ∃ s', sys_port_destroy token s = Ret (0, s') ∧ os_ok s' X (delete q Q) C ∧ os_ports s' = delete q (os_ports s) ∧
    ports_closed s s' p proc (with_ports (<[i := 0]> (p_ports proc)) proc) (p_thread proc).
Proof.
  intros Hok Hpr Hc Ei Hi. pose proof (own_port_find s p proc token Hpr) as Hfind. rewrite Ei in Hfind.
  assert (q ≠ 0) as Hq0.
  { unfold token_index in Ei. destruct (list_find _ _) as [[k r]|] eqn:Ef; [|done]. injection Ei as <-.
    apply list_find_Some in Ef as (Hk & [Hr _] & _). congruence. }
  destruct (proj1 (pr_ports _ _ _ Hpr) q) as (pt & Hpt & Ho); [by eapply list_elem_of_lookup_2|done|].
  destruct (close_port_run s X Q C p proc i q pt Hok (pr_proc _ _ _ Hpr) Hpt Ho) as (s' & Hrun & Hrest).
  exists s'. split; [|exact Hrest]. unfold sys_port_destroy.
  rewrite (bind_Ret _ _ _ _ _ (curr_process_os s p Hc)), (bind_Ret _ _ _ _ _ Hfind).
  rewrite (bind_Ret _ _ _ _ _ (os_get_proc s p proc (pr_proc _ _ _ Hpr))), Hi. cbn [of_opt]. rewrite bind_ret.
  apply bind_Ret_inv in Hrun as (u & s1 & H1 & H2). rewrite (bind_Ret _ _ _ _ _ H1).
  apply bind_Ret_inv in H2 as (pr1 & s2 & H2 & H3). rewrite (bind_Ret _ _ _ _ _ H2).
  by rewrite (bind_Ret _ _ _ _ _ H3).
Qed.

Lemma store_port_run s p proc q pt n : ∀ i,
  os_procs s !! p = Some proc → length (p_ports proc) = (i + n)%nat → os_ports s !! q = Some pt →
  store_port n i p q s =
    match list_find (λ r, r = 0) (drop i (p_ports proc)) with
    | Some (k, _) => Ret (pt_token pt,
        set_sys (set_procs (<[p := with_ports (<[(i + k)%nat := q]> (p_ports proc)) proc]> (os_procs s)) (os_sys s)) s)
    | None => Ret (0, s)
    end.
Proof.
  induction n as [|n IH]; intros i Hp Hlen Hq; cbn [store_port]; [by rewrite drop_ge by lia|].
  destruct (lookup_lt_is_Some_2 (p_ports proc) i) as [r Hr]; [lia|].
  rewrite (bind_Ret _ _ _ _ _ (os_get_proc s p proc Hp)), Hr. cbn [of_opt]. rewrite bind_ret, (drop_S _ _ _ Hr).
  cbn [list_find]. destruct (Z.eqb_spec r 0) as [->|Hne].
  - rewrite decide_True, Nat.add_0_r by done. erewrite bind_Ret by (by apply in_sys_run).
    set (s1 := set_sys _ s). assert (os_ports s1 !! q = Some pt) as Hq1 by exact Hq.
    rewrite (bind_Ret _ _ _ _ _ (in_ports_get s1 q pt Hq1)). done.
  - rewrite decide_False by done. rewrite IH by (done || lia). destruct (list_find _ _) as [[k x]|]; [|done].
    cbn. by replace (i + S k)%nat with (S (i + k)) by lia.
Qed.

(** Kernel memory for the new port. *)
Lemma create_port_wp s X Q C p proc hi lo :
  os_ok s X Q C → proc_ok s p proc → th_process <$> threads (os_sched s) !! curr_thread (os_sched s) = Some p →
  os_table_count s < 1024 → (∀ q pt, os_ports s !! q = Some pt → pt_token pt ≠ port_token hi lo) →
  wp (in_ports (port_create hi lo) s) (λ q s', q ≠ 0 ∧ os_ports s !! q = None ∧ os_ok s' X (<[q := []]> Q) C ∧
    os_ports s' = <[q := mkPort (port_token hi lo) 0 0 p]> (os_ports s) ∧ os_procs s' = os_procs s ∧
    os_files s' = os_files s ∧ os_nodes s' = os_nodes s ∧ os_sched s' = os_sched s ∧ fixed s' = fixed s).
Proof.
  intros [Hp Ht Hk Hd] Hpr (t & Hth & ->)%fmap_Some_1 Hlt Htok. apply wp_zoom.
  assert (0 < SIZEOF_PORT ≤ 2 ^ 40) as Hsz by done. pose proof (po_heap _ _ _ _ Hp) as Hrep.
  assert (wp (oh_malloc SIZEOF_PORT (os_heap s)) (λ q h, port_create hi lo (ports_view s) =
    Ret (q, created (ports_view s) h q (port_token hi lo) (th_process t)))) as Hm.
  { apply wp_safe; [by eapply oh_malloc_safe|]. intros q h Hm.
    rewrite (port_create_run (ports_view s) hi lo q h t (to_len _ Ht) (to_count _ Ht) Hm Hth).
    cbn [ports_view port_table_count]. by destruct (Z.ltb_spec (os_table_count s) 1024); [|lia]. }
  destruct (oh_malloc SIZEOF_PORT (os_heap s)) as [[q h]| | |] eqn:Em; cbn [wp] in Hm; try done.
  2:{ unfold port_create, malloc, bind, zoom. cbn [ports_view ps_heap]. by rewrite Em. }
  rewrite Hm. cbn [wp]. destruct (oh_malloc_ok _ _ _ _ _ Hrep Hsz Em) as (Hq0 & HqL & Hrep').
  assert (os_ports s !! q = None) as Hfresh.
  { apply not_elem_of_dom. intros Hin. apply HqL. cbn [ports_view ps_ports]. set_solver. }
  destruct (created_table (ports_view s) h q (port_token hi lo) (th_process t) Ht Hk Hq0 Hfresh Hlt Htok) as [Ht' Hk'].
  pose proof (created_ok (ports_view s) _ Q C h q (port_token hi lo) (th_process t) proc Hp Hq0 HqL Hrep'
    (pr_proc _ _ _ Hpr) (pr_thread _ _ _ Hpr)) as Hp'.
  split_and!; try done.
Qed.

(** sys_port_create: a new port with an empty queue, owned by the caller.  Its
    token is returned and the first free entry of the process names it; when the
    process has 64 ports already the result is 0, and the port stays behind without an
    entry: no call can ever destroy it. *)
Theorem sys_port_create_correct (s : os_state P) (X : gset Z) (Q C : gmap Z (list Z)) (p : Z) (proc : process) (hi lo : Z) :
  os_ok s X Q C → proc_ok s p proc → th_process <$> threads (os_sched s) !! curr_thread (os_sched s) = Some p →
  os_table_count s < 1024 → (∀ q pt, os_ports s !! q = Some pt → pt_token pt ≠ port_token hi lo) →
  wp (sys_port_create hi lo s) (λ r s', ∃ q, q ≠ 0 ∧ os_ports s !! q = None ∧ os_ok s' X (<[q := []]> Q) C ∧
    os_ports s' = <[q := mkPort (port_token hi lo) 0 0 p]> (os_ports s) ∧
    os_files s' = os_files s ∧ os_nodes s' = os_nodes s ∧ os_sched s' = os_sched s ∧
    match list_find (λ e, e = 0) (p_ports proc) with
    | Some (i, _) => r = port_token hi lo ∧
        os_procs s' = <[p := with_ports (<[i := q]> (p_ports proc)) proc]> (os_procs s)
    | None => r = 0 ∧ os_procs s' = os_procs s
    end).
Proof.
  intros Hok Hpr Hc Hlt Htok. unfold sys_port_create. rewrite (bind_Ret _ _ _ _ _ (curr_process_os s p Hc)).
  apply wp_bind. eapply wp_mono; [by apply (create_port_wp s X Q C p proc)|].
  intros q s1 (Hq0 & Hfresh & Hok1 & HP & Hpr1 & HF & HN & HS & _).
  assert (os_procs s1 !! p = Some proc) as Hp1 by (rewrite Hpr1; apply (pr_proc _ _ _ Hpr)).
  assert (os_ports s1 !! q = Some (mkPort (port_token hi lo) 0 0 p)) as Hq1 by (rewrite HP; apply lookup_insert_eq).
  change (Z.to_nat MAX_PORTS) with 64%nat.
  rewrite (store_port_run s1 p proc q _ 64 0 Hp1 (pr_nports _ _ _ Hpr) Hq1), drop_0.
  destruct (list_find _ _) as [[i x]|]; cbn [wp]; exists q; split_and!; try done.
  - by apply (os_ok_proc s1 X _ C p proc).
  - cbn. by rewrite <- Hpr1.
Qed.

End ProcTheorems.
