(* ===== verification/ProcDemo.v ===== *)
(** * A concrete machine with two processes

    Process 7 (struct at 7000, thread 16) is running, has one port and one open file;
    process 8 (struct at 8000, thread 48) waits for it; thread 32 is the idle thread.
    The theorems about processes applied to it. *)

From S2P Require Import Prelude ByteMem FrameAlloc Pmm Heap HeapThms Vmm VmmThms CStr Tar Vfs VfsThms Kbd Fbcon FbconThms Thread Port PortThms Files FilesThms Proc ProcThms.

Definition os_thread (st : thread_state) (proc wait next : Z) : thread :=
  mkThread 0 0 0x1000 0x4000 st 0 0 0 0 0 proc wait 0 next.
Definition os_demo_sched : sched :=
  mkSched (<[16 := os_thread THREAD_RUNNING 7000 (W64 - 1) 32]> (<[32 := os_thread THREAD_READY 0 (W64 - 1) 48]>
    {[48 := os_thread THREAD_BLOCKED 8000 7 16]})) 16 16 32 4 0 0.

(** The blocks of the port, the file and its node. *)
Definition os_h2 : mm_state pmm_state := state_of demo_h1 (oh_malloc SIZEOF_FILE demo_h1).
Definition os_h3 : mm_state pmm_state := state_of os_h2 (oh_malloc SIZEOF_FSNODE os_h2).
Definition os_file : Z := 0xffff800000002fa8.
Definition os_node : Z := 0xffff800000003f80.

Lemma os_malloc2 : oh_malloc SIZEOF_FILE demo_h1 = Ret (os_file, os_h2).
Proof. apply run_value. vm_compute. reflexivity. Qed.
Lemma os_malloc3 : oh_malloc SIZEOF_FSNODE os_h2 = Ret (os_node, os_h3).
Proof. apply run_value. vm_compute. reflexivity. Qed.

Definition os_proc7 : process :=
  mkProcess 7 (chars "shell") 0 16 0 0 (<[2%nat := os_file]> (replicate 64 0)) (<[0%nat := demo_port]> (replicate 64 0)) [] 8000.
Definition os_proc8 : process := mkProcess 8 (chars "init") 0 48 0 0 (replicate 64 0) (replicate 64 0) [] 0.
Definition os_demo_fs : fs_state (mm_state pmm_state) :=
  mkFs os_h3 ∅ (mkTar 4096 0) {[os_node := mkNode NODE_FILE (Some tarfs_ops) 4096 5 1]} [] 0 [] 0 0.
Definition os_demo : os_state pmm_state :=
  mkOs (mkSys os_demo_fs {[os_file := mkFile os_node 0 1]} demo_screen kbd_boot [] os_demo_sched
          (<[7000 := os_proc7]> {[8000 := os_proc8]}))
    (mkSpace 0 0) 0 {[demo_port := mkPort (port_token 1 2) 0 0 7000]} ∅ ∅ (<[0%nat := demo_port]> (replicate 1024 0)) 1 7000 false.

#[local] Opaque demo_heap demo_h1 os_h2 os_h3.

Lemma os_demo_threads p t : threads os_demo_sched !! p = Some t →
  (th_state t = THREAD_RUNNING → p = 16) ∧ (th_process t ≠ 0 → th_process t = 7000 ∨ th_process t = 8000).
Proof.
  unfold os_demo_sched. cbn [threads]. rewrite !lookup_insert_Some, lookup_singleton_Some.
  intros [[<- <-]|[_ [[<- <-]|[_ [<- <-]]]]]; split; cbn; auto; done.
Qed.

Lemma os_demo_sched_ok : sched_ok (kernel_view os_demo) [16; 32; 48].
Proof.
  split; cbn [kernel_view k_sched k_procs].
  - right. split; [discriminate|]. split; [apply (bool_decide_unpack _); vm_compute; exact I|].
    repeat (split; [reflexivity|]; split; [discriminate|]; eexists; split; [reflexivity|]). reflexivity.
  - eexists. reflexivity.
  - eexists. reflexivity.
  - intros p t Ht Hs. by apply (os_demo_threads p t).
  - intros p t Ht Hp. destruct (os_demo_threads p t Ht) as [_ H]. destruct (H Hp) as [-> | ->]; eexists; reflexivity.
Qed.

(** The three blocks are all that is in use. *)
Lemma os_demo_heap : oh_rep os_h3 (λ q, ((q ∈ (∅ : gset Z) ∨ q = demo_port) ∨ q = os_file) ∨ q = os_node) ∧
  NoDup [0; demo_port; os_file; os_node].
Proof.
  destruct demo_ports0 as (Hok & _).
  assert (oh_rep demo_heap (λ q, q ∈ (∅ : gset Z))) as H0.
  { eapply oh_rep_ext; [apply (po_heap _ _ _ _ Hok)|]. intros q. cbn [demo_ps0 ps_ports ps_msgs ps_bufs]. rewrite !dom_empty_L. set_solver. }
  destruct (oh_malloc_ok demo_heap _ SIZEOF_PORT demo_port demo_h1 H0) as (_ & _ & H1); [done|exact demo_malloc1|].
  destruct (oh_malloc_ok demo_h1 _ SIZEOF_FILE os_file os_h2 H1) as (_ & _ & H2); [done|exact os_malloc2|].
  destruct (oh_malloc_ok os_h2 _ SIZEOF_FSNODE os_node os_h3 H2) as (_ & _ & H3); [done|exact os_malloc3|].
  split; [exact H3|]. apply (bool_decide_unpack _). by vm_compute.
Qed.

Lemma os_demo_ok : os_ok os_demo ∅ {[demo_port := []]} ∅.
Proof.
  destruct os_demo_heap as [Hrep Hnd].
  apply NoDup_cons in Hnd as [N0 Hnd]. apply NoDup_cons in Hnd as [N1 Hnd]. apply NoDup_cons in Hnd as [N2 _].
  rewrite !not_elem_of_cons in N0, N1, N2.
  assert (∀ q ns, ({[demo_port := []]} : gmap Z (list Z)) !! q = Some ns → q = demo_port ∧ ns = []) as HQ.
  { intros q ns [<- <-]%lookup_singleton_Some. done. }
  assert (fs_blocks os_demo = {[os_file; os_node]}) as Hblk.
  { unfold fs_blocks, os_files, os_nodes. cbn [os_demo os_sys sy_files sy_fs os_demo_fs fs_nodes]. by rewrite !dom_singleton_L. }
  split; [split|split| |].
  - rewrite Hblk. cbn [ports_view ps_heap ps_ports ps_msgs ps_bufs os_heap os_demo os_sys sy_fs os_demo_fs fs_heap os_ports os_msgs os_bufs].
    rewrite dom_singleton_L, !dom_empty_L. eapply oh_rep_ext; [exact Hrep|]. set_solver.
  - rewrite Hblk. cbn [ports_view ps_ports ps_msgs ps_bufs os_demo os_ports os_msgs os_bufs].
    rewrite dom_singleton_L, !dom_empty_L. clear - N1. set_solver.
  - rewrite Hblk. cbn [ports_view ps_ports ps_msgs ps_bufs os_demo os_ports os_msgs os_bufs].
    rewrite dom_singleton_L, !dom_empty_L. clear - N0. set_solver.
  - intros q. cbn [ports_view ps_ports os_demo os_ports]. rewrite !lookup_singleton_is_Some. done.
  - intros q pt ns. cbn [ports_view ps_ports os_demo os_ports]. intros [<- <-]%lookup_singleton_Some [_ ->]%HQ. done.
  - intros q ns n [_ ->]%HQ ?%not_elem_of_nil. done.
  - intros q ns [_ ->]%HQ. constructor.
  - intros q r ns ms n [-> _]%HQ [-> _]%HQ. done.
  - intros q r ns ms n1 n2 m1 m2 [_ ->]%HQ ?%not_elem_of_nil. done.
  - intros q pt. cbn [ports_view ps_ports os_demo os_ports]. intros [<- <-]%lookup_singleton_Some.
    exists os_proc7. split; [reflexivity|eexists; reflexivity].
  - done.
  - cbn. lia.
  - intros i q Hi Hlt Hq. cbn [ports_view port_table port_table_count os_demo os_table os_table_count] in *.
    apply list_lookup_insert_Some in Hi as [(_ & <- & _)|[_ [-> _]%lookup_replicate]]; [|done].
    cbn [ports_view ps_ports os_demo os_ports]. rewrite lookup_singleton_eq. eauto.
  - intros q. cbn [ports_view ps_ports os_demo os_ports]. rewrite lookup_singleton_is_Some. intros <-.
    exists 0%nat. split; [reflexivity|done].
  - intros i j q Hi Hj Hq. cbn [ports_view port_table os_demo os_table] in *.
    apply list_lookup_insert_Some in Hi as [(<- & _ & _)|[_ [-> _]%lookup_replicate]]; [|done].
    by apply list_lookup_insert_Some in Hj as [(<- & _ & _)|[_ [-> _]%lookup_replicate]].
  - intros q r a b. cbn [ports_view ps_ports os_demo os_ports]. intros [<- _]%lookup_singleton_Some [<- _]%lookup_singleton_Some. done.
  - unfold os_files, os_nodes. cbn [os_demo os_sys sy_files sy_fs os_demo_fs fs_nodes]. rewrite !dom_singleton_L. clear - N2. set_solver.
Qed.

Lemma os_demo_proc7 : proc_ok os_demo 7000 os_proc7.
Proof.
  split; [reflexivity|eexists; reflexivity|reflexivity|reflexivity| |].
  - split.
    + intros q (i & [(_ & <- & _)|[_ [-> _]%lookup_replicate]]%list_lookup_insert_Some)%list_elem_of_lookup Hq; [|done].
      eexists. split; [apply lookup_singleton_eq|done].
    + intros i j q Hi Hj Hq. cbn [os_proc7 p_ports] in Hi, Hj.
      apply list_lookup_insert_Some in Hi as [(<- & _ & _)|[_ [-> _]%lookup_replicate]]; [|done].
      by apply list_lookup_insert_Some in Hj as [(<- & _ & _)|[_ [-> _]%lookup_replicate]].
  - cbn [os_proc7 p_fds]. rewrite drop_insert_ge by lia. change (2 - 2)%nat with 0%nat. change (drop 2 (replicate 64 0)) with (replicate 62 0).
    assert (∀ (i : nat) f fl, <[0%nat := os_file]> (replicate 62 0) !! i = Some f → os_files os_demo !! f = Some fl → i = 0%nat) as Hone.
    { intros i f fl [(<- & _ & _)|[_ [-> _]%lookup_replicate]]%list_lookup_insert_Some; [done|].
      unfold os_files. cbn [os_demo os_sys sy_files]. by intros [? _]%lookup_singleton_Some. }
    split.
    + intros f (i & [(_ & <- & _)|[_ [-> _]%lookup_replicate]]%list_lookup_insert_Some)%list_elem_of_lookup Hf; [|done].
      eexists _, _. split; [apply lookup_singleton_eq|]. split; [apply lookup_singleton_eq|by left].
    + intros i j f g fl gl Hi Hj Hfl Hgl _. by rewrite (Hone i f fl Hi Hfl), (Hone j g gl Hj Hgl).
Qed.

Lemma os_demo_proc8 : proc_ok os_demo 8000 os_proc8.
Proof.
  assert (∀ n (q : Z), q ∈ replicate n 0 → q = 0) as Hz by (intros n q Hq; by apply elem_of_replicate in Hq as [? _]).
  split; [reflexivity|eexists; reflexivity|reflexivity|reflexivity| |].
  - split; [intros q Hq%Hz; done|]. intros i j q [-> _]%lookup_replicate. done.
  - change (drop 2 (p_fds os_proc8)) with (replicate 62 0). split; [intros f Hf%Hz; done|].
    intros i j f g fl gl [-> _]%lookup_replicate _. unfold os_files. cbn [os_demo os_sys sy_files].
    by intros [? _]%lookup_singleton_Some.
Qed.

Lemma os_demo_list : plist (os_procs os_demo) (proc_list os_demo) [7000; 8000].
Proof. repeat (split; [reflexivity|]; split; [discriminate|]; eexists; split; [reflexivity|]). reflexivity. Qed.

Lemma sys_exit_correct_witness : ∃ s', sys_exit 100 0 os_demo = Ret (tt, s') ∧ os_ports s' !! demo_port = None ∧
  (∃ t', threads (os_sched s') !! 48 = Some t' ∧ th_waiting_for t' = W64 - 1).
Proof.
  destruct (sys_exit_correct os_demo ∅ {[demo_port := []]} ∅ 7000 os_proc7 16 [] [32; 48] 100 0)
    as (s' & Q' & l' & H1 & _ & H3 & _ & _ & _ & _ & _ & H9).
  - exact os_demo_ok.
  - exact os_demo_proc7.
  - exact os_demo_sched_ok.
  - reflexivity.
  - reflexivity.
  - reflexivity.
  - apply (bool_decide_unpack _). by vm_compute.
  - exists s'. split; [exact H1|]. split.
    + rewrite (re_ports _ _ _ _ H3). apply decide_True. apply (bool_decide_unpack _). by vm_compute.
    + destruct (H9 48 (os_thread THREAD_BLOCKED 8000 7 16)) as (t' & H & _ & Hw);
        [apply (bool_decide_unpack _); by vm_compute|reflexivity|reflexivity|reflexivity|].
      exists t'. split; [exact H|exact Hw].
Defined.

Lemma sys_kill_correct_witness : (∃ s', sys_kill 100 8 os_demo = Ret (Some 0, s')) ∧ sys_kill 100 9 os_demo = Ret (Some (-1), os_demo).
Proof.
  assert (NoDup [7000; 8000]) as Hnd by (apply (bool_decide_unpack _); by vm_compute). split.
  - pose proof (sys_kill_correct os_demo ∅ {[demo_port := []]} ∅ [7000; 8000] 100 8 os_demo_ok os_demo_list Hnd) as H.
    change (find_pid (os_procs os_demo) 8 [7000; 8000]) with (Some 8000) in H.
    destruct (H os_proc8 [16; 32] [] os_demo_proc8 os_demo_sched_ok) as (s' & Q' & t & H1 & _); [discriminate|]. exists s'. exact H1.
  - exact (sys_kill_correct os_demo ∅ {[demo_port := []]} ∅ [7000; 8000] 100 9 os_demo_ok os_demo_list Hnd).
Defined.

Lemma sys_wait_pid_correct_witness : ∃ s', sys_wait_pid 100 8 os_demo = Ret (tt, s') ∧ curr_thread (os_sched s') ≠ 16.
Proof.
  assert (NoDup [7000; 8000]) as Hnd by (apply (bool_decide_unpack _); by vm_compute).
  pose proof (sys_wait_pid_correct os_demo [7000; 8000] [16; 32; 48] 16 (os_thread THREAD_RUNNING 7000 (W64 - 1) 32) 100 8
    os_demo_list Hnd os_demo_sched_ok eq_refl eq_refl eq_refl) as H.
  change (find_pid (os_procs os_demo) 8 [7000; 8000]) with (Some 8000) in H.
  destruct H as (s' & l' & H1 & _ & _ & H4 & _); [discriminate|discriminate|]. exists s'. split; [exact H1|exact H4].
Defined.

Lemma sys_sleep_correct_witness : ∃ s' t', sys_sleep 100 100 50 os_demo = Ret (tt, s') ∧
  threads (os_sched s') !! 16 = Some t' ∧ runnable 149 t' = false ∧ runnable 150 t' = true.
Proof.
  destruct (sys_sleep_correct os_demo [16; 32; 48] 16 (os_thread THREAD_RUNNING 7000 (W64 - 1) 32) 100 100 50)
    as (s' & l' & t' & H1 & _ & _ & _ & H5 & _ & H7 & _); [exact os_demo_sched_ok|reflexivity|reflexivity|discriminate|discriminate|lia|lia|].
  exists s', t'. rewrite !H7. split; [exact H1|]. split; [exact H5|]. split; reflexivity.
Defined.

Lemma foreign_port_refused_witness :
  sys_port_receive [] 5 16 os_demo = Ret (Some (-1, []), os_demo) ∧ sys_port_destroy 5 os_demo = Ret (-1, os_demo).
Proof.
  apply (foreign_port_refused os_demo 7000 os_proc7 5 16 []); [exact os_demo_proc7|reflexivity|].
  intros q pt. cbn [os_demo os_ports]. intros [_ <-]%lookup_singleton_Some E. vm_compute in E. discriminate E.
Defined.

Lemma sys_port_destroy_correct_witness : ∃ s', sys_port_destroy (port_token 1 2) os_demo = Ret (0, s') ∧ os_ports s' !! demo_port = None.
Proof.
  destruct (sys_port_destroy_correct os_demo ∅ {[demo_port := []]} ∅ 7000 os_proc7 (port_token 1 2) 0 demo_port)
    as (s' & H1 & _ & H3 & _); [exact os_demo_ok|exact os_demo_proc7|reflexivity|reflexivity|reflexivity|].
  exists s'. rewrite H3. split; [exact H1|apply lookup_delete_eq].
Defined.

Lemma sys_port_create_correct_witness : wp (sys_port_create 3 4 os_demo) (λ r s', ∃ q, q ≠ 0 ∧
  os_ports s' = <[q := mkPort (port_token 3 4) 0 0 7000]> (os_ports os_demo) ∧ r = port_token 3 4).
Proof.
  eapply wp_mono; [apply (sys_port_create_correct os_demo ∅ {[demo_port := []]} ∅ 7000 os_proc7 3 4);
    [exact os_demo_ok|exact os_demo_proc7|reflexivity|reflexivity|]|].
  - intros q pt. cbn [os_demo os_ports]. intros [_ <-]%lookup_singleton_Some E. vm_compute in E. discriminate E.
  - intros r s' (q & Hq & _ & _ & HP & _ & _ & _ & Hm). exists q. split; [exact Hq|]. split; [exact HP|].
    change (list_find _ (p_ports os_proc7)) with (Some (1%nat, 0)) in Hm. exact (proj1 Hm).
Defined.
