(* ===== verification/Spawn.v ===== *)
(** * Making and reaping processes (proc_create and proc_cleanup of
    src/multi/process.c, sys_spawn of src/userspace/syscall.c)

    The state of the kernel with the number of the next process and the regions of
    all processes.  The memory of the file system and that of the heap are one: an
    operation of the files that only reads memory sees the heap's, and the read
    functions write to it. *)

From S2P Require Import Prelude ByteMem FrameAlloc Heap HeapThms Vmm CStr Tar Vfs Kbd Fbcon Thread Port Files SysMem ElfLoader Proc.

Definition SIZEOF_PROCESS : Z := 1392.
Definition STACK_PAGES : Z := 4.
Definition stack_top : Z := 0x7fffff000000.
Definition stack_base : Z := stack_top - STACK_PAGES * 4096.

Record machine (P : Type) := mkMachine { mc_os : os_state P; next_proc_id : Z; mc_regions : gmap Z vm_region }.
Arguments mkMachine {P} _ _ _.
Arguments mc_os {P} _.
Arguments next_proc_id {P} _.
Arguments mc_regions {P} _.

(** ** The arguments on the new stack *)

(** [memcpy] of an array of 64-bit words that is not in the byte memory. *)
Fixpoint write_words (m : mem) (a : Z) (ws : list Z) : mem :=
  match ws with
  | [] => m
  | w :: ws' => write_words (store64 m a w) (a + 8) ws'
  end.

(** The loop from the last argument down; [rargs] are the pointers still to do, last
    one first, [ptrs] those behind.  The stack is at [virt] for the kernel and at
    [base] for the program. *)
Fixpoint push_strings (virt base : Z) (rargs : list Z) (str_off : Z) (ptrs : list Z) (m : mem) :
    outcome (mem * Z * list Z) :=
  match rargs with
  | [] => Ret (m, str_off, ptrs)
  | arg :: rargs' =>
      n <~ strlen m arg ;;
      let len := s32 (n + 1) in
      let str_off := Z.land (str_off -64 len) (not64 0x7) in
      push_strings virt base rargs' str_off ((base +64 str_off) :: ptrs) (memcpy m (virt +64 str_off) arg (u64 len))
  end.

(** The strings, then the array of pointers with its NULL; the offset of the array. *)
Definition push_argv (virt base : Z) (argv : list Z) (m : mem) : outcome (mem * Z) :=
  let bytes := (Z.of_nat (length argv) + 1) * 8 in
  r <~ push_strings virt base (rev argv) (4 * 4096) [] m ;;
  let '(m, str_off, ptrs) := r in
  if 2147483647 <? bytes then Fault
  else
    let str_off := Z.land (str_off -64 bytes) (not64 0xf) in
    Ret (write_words m (virt +64 str_off) (ptrs ++ [0]), str_off).

Section Spawn.
Context {P : Type} `{FA : FrameAllocator P} `{B : Boot}.
Variable thread_userspace_enter_addr : Z.

Abbreviation MM := (M (mm_state P)).
Abbreviation OM := (M (os_state P)).
Abbreviation MC := (M (machine P)).

(** ** The parts of the state *)

Definition set_os (v : os_state P) (s : machine P) : machine P := mkMachine v (next_proc_id s) (mc_regions s).
Definition set_regions (v : gmap Z vm_region) (s : machine P) : machine P := mkMachine (mc_os s) (next_proc_id s) v.
Definition on_os {A} (m : OM A) : MC A := zoom mc_os set_os m.
Definition on_mm {A} (m : MM A) : MC A := on_os (in_kernel (k_mm m)).
Definition mc_mem (s : machine P) : mem := mm_mem (os_heap (mc_os s)).

(** The file system with the heap's memory as its own; what it writes to the heap
    stays there, what it writes to its memory goes there. *)
Definition files_view (s : os_state P) : sys_state (mm_state P) :=
  set_fs (set_fs_mem (mm_mem (os_heap s)) (sy_fs (os_sys s))) (os_sys s).
Definition put_heap (v : sys_state (mm_state P)) (s : os_state P) : os_state P :=
  set_sys (set_fs (set_fs_mem (fs_mem (sy_fs (os_sys s))) (sy_fs v)) v) s.
Definition put_written (v : sys_state (mm_state P)) (s : os_state P) : os_state P :=
  put_heap (set_fs (set_fs_heap (set_mem (fs_mem (sy_fs v)) (fs_heap (sy_fs v))) (sy_fs v)) v) s.
Definition in_files {A} (m : M (sys_state (mm_state P)) A) : OM A := zoom files_view put_heap m.
Definition in_files_write {A} (m : M (sys_state (mm_state P)) A) : OM A := zoom files_view put_written m.

(** ** proc_create *)

(** [for (i = 0; i < 4; i++)], [n] pages to go. *)
Fixpoint map_stack (n : nat) (space : addr_space) (stack_phys i : Z) : MM unit :=
  match n with
  | O => ret tt
  | S n' =>
      vmm_map_page space (stack_base +64 (i *64 4096)) (stack_phys +64 (i *64 4096))
        (Z.lor (Z.lor PAGE_PRESENT PAGE_WRITE) PAGE_USER) ;;;
      map_stack n' space stack_phys (i + 1)
  end.

(** The struct of the process, and the stack with the arguments: the struct and the
    offset of argv. *)
Definition build_stack (space : Z) (argv : list Z) : MM (Z * Z) :=
  proc <- kmalloc SIZEOF_PROCESS ;;
  if proc =? 0 then panic "process.c: proc_create() -> failed to allocate process"
  else
    stack_phys <- pg (fa_alloc_n 4) ;;
    if stack_phys =? 0 then panic "process.c: proc_create() -> failed to allocate user stack"
    else
      sp <- gets (λ s, read_space (mm_mem s) space) ;;
      map_stack 4 sp stack_phys 0 ;;;
      m <- gets mm_mem ;;
      r <- lift (push_argv (stack_phys +64 hhdm_offset) stack_base argv m) ;;
      let '(m', str_off) := r in
      upd_mem (λ _, m') ;;;
      ret (proc, str_off).

(** The program in memory: a new address space with the file's segments and the
    stack; the entry point, the pointer to the space, the process struct and the
    offset of argv on the stack, or the message of elf_load. *)
Definition build_image (elf_data elf_size : Z) (argv : list Z) : M (vm_state P) (string + Z * Z * Z * Z) :=
  space <- vmm_create_user_space ;;
  sp <- gets (λ s, read_space (mm_mem (vm_mm s)) space) ;;
  r <- in_mm (elf_load sp elf_data elf_size) ;;
  let '(entry, msg) := r in
  if entry =? 0 then ret (inl msg)
  else
    r <- in_mm (build_stack space argv) ;;
    let '(proc, str_off) := r in
    ret (inr (entry, space, proc, str_off)).

Definition with_args (argc argv : Z) (t : thread) : thread :=
  mkThread (th_rsp t) (th_kernel_stack t) (th_kernel_rsp_top t) (th_stack_size t) (th_state t) (th_id t)
    (th_user_entry t) (th_user_rsp t) argc argv (th_process t) (th_waiting_for t) (th_sleep_until t) (th_next t).
Definition with_process (p : Z) (t : thread) : thread :=
  mkThread (th_rsp t) (th_kernel_stack t) (th_kernel_rsp_top t) (th_stack_size t) (th_state t) (th_id t)
    (th_user_entry t) (th_user_rsp t) (th_user_argc t) (th_user_argv t) p (th_waiting_for t) (th_sleep_until t) (th_next t).
Definition with_pnext (n : Z) (p : process) : process :=
  mkProcess (p_pid p) (p_name p) (p_addr_space p) (p_thread p) (p_heap_top p) (p_regions p) (p_fds p) (p_ports p)
    (p_cwd p) n.

Definition set_proc_list (p : Z) (s : os_state P) : os_state P :=
  mkOs (os_sys s) (os_kspace s) (os_cr3 s) (os_ports s) (os_msgs s) (os_bufs s) (os_table s) (os_table_count s)
    p (proc_needs_cleanup s).

(** The turns of the loop over std_paths. *)
Definition open_std (proc : Z) (i : nat) (path : list Z) (flags : Z) : OM unit :=
  node <- in_files (in_fs (vfs_resolve path)) ;;
  if node =? 0 then ret tt
  else
    f <- in_files (new_file (mkFile node 0 flags)) ;;
    pr <- in_sys (get_proc proc) ;;
    in_sys (put_proc proc (with_fds (<[i := f]> (p_fds pr)) pr)).

(** The struct of the process: the fields up to fds, the descriptors, then ports
    and the list.  (Fields not set yet are 0.) *)
Definition fill_process (proc pid space thread : Z) (name parent_cwd : list Z) : OM unit :=
  let cwd := match parent_cwd with [] => chars "0:/" | _ => parent_cwd end in
  in_sys (put_proc proc (mkProcess pid (take 63 name) space thread 0x10000000 0
    (replicate (Z.to_nat MAX_FDS) 0) [] (take 255 cwd) 0)) ;;;
  open_std proc 0 (chars "1:/stdin") VFS_READ ;;;
  open_std proc 1 (chars "1:/stdout") VFS_WRITE ;;;
  pr <- in_sys (get_proc proc) ;;
  in_sys (put_proc proc (with_ports (replicate (Z.to_nat MAX_PORTS) 0) pr)) ;;;
  head <- gets proc_list ;;
  pr <- in_sys (get_proc proc) ;;
  in_sys (put_proc proc (with_pnext head pr)) ;;;
  modify (set_proc_list proc).

(** The thread, with the registers of its first instruction. *)
Definition make_thread (garbage : Z → Z) (entry str_off argc : Z) : MC Z :=
  let argv_user := stack_base +64 str_off in
  let user_rsp := (stack_base +64 str_off) -64 16 in
  thread <- on_os (in_kernel (thread_create_user thread_userspace_enter_addr garbage entry user_rsp)) ;;
  on_os (on_sched (upd_thread thread (with_args argc argv_user))) ;;;
  ret thread.

(** [argv] are pointers into the kernel's memory, [parent_cwd] is empty for NULL.
    The result and the messages on the console. *)
Definition proc_create (garbage : Z → Z) (elf_data elf_size : Z) (argv : list Z) (parent_cwd : list Z) :
    MC (Z * list string) :=
  r <- on_os (in_kernel (in_vm (build_image elf_data elf_size argv))) ;;
  match r with
  | inl msg => ret (W64 - 1, [msg; "[E] process.c: proc_create() -> elf load failed"%string])
  | inr (entry, space, proc, str_off) =>
      thread <- make_thread garbage entry str_off (Z.of_nat (length argv)) ;;
      m <- gets mc_mem ;;
      name <- lift (match argv with [] => Ret (chars "unknown") | arg :: _ => str_at m arg end) ;;
      pid <- gets next_proc_id ;;
      modify (λ s, mkMachine (mc_os s) (next_proc_id s +64 1) (mc_regions s)) ;;;
      on_os (fill_process proc pid space thread name parent_cwd) ;;;
      on_os (on_sched (upd_thread thread (with_process proc))) ;;;
      on_os (on_sched (runqueue_push thread)) ;;;
      pr <- on_os (in_sys (get_proc proc)) ;;
      ret (p_pid pr, [])
  end.

(** ** A program from the file system *)

(** vfs_resolve, kmalloc and the read of the whole file, as sys_spawn and
    proc_cleanup do it; [Waiting] for a device that waits. *)
Inductive load_result := NotFound | ReadFailed | Waiting | Loaded (node elf size : Z).

Definition load_file (path : list Z) : MC load_result :=
  node <- on_os (in_files (in_fs (vfs_resolve path))) ;;
  if node =? 0 then ret NotFound
  else
    nd <- on_os (in_files (in_fs (get_node node))) ;;
    let prog_size := nd_size nd in
    prog_elf <- on_mm (kmalloc prog_size) ;;
    match nd_ops nd ≫= ops_read with
    | None => fault
    | Some rd =>
        r <- on_os (in_files_write (rd node prog_elf prog_size 0)) ;;
        match r with
        | None => ret Waiting
        | Some n => if (n <? 0) || negb (n =? prog_size) then ret ReadFailed else ret (Loaded node prog_elf prog_size)
        end
    end.

(** The copies of the arguments, at most 255 characters each. *)
Fixpoint copy_args (arr : Z) (argv : list (list Z)) (i : Z) : MC (list Z) :=
  match argv with
  | [] => ret []
  | arg :: argv' =>
      let s := take 255 arg in
      copy <- on_mm (kmalloc (Z.of_nat (length s) + 1)) ;;
      on_mm (wr64 (arr + i * 8) copy) ;;;
      on_mm (upd_mem (λ m, put_string m copy s)) ;;;
      rest <- copy_args arr argv' (i + 1) ;;
      ret (copy :: rest)
  end.

Fixpoint free_all (ps : list Z) : MC unit :=
  match ps with
  | [] => ret tt
  | p :: ps' => on_mm (kfree p) ;;; free_all ps'
  end.

(** [argv] are the strings of the caller; [None] for a device that waits. *)
Definition sys_spawn (garbage : Z → Z) (path : list Z) (argv : list (list Z)) : MC (option (Z * list string)) :=
  r <- load_file path ;;
  match r with
  | NotFound | ReadFailed => ret (Some (W64 - 1, []))
  | Waiting => ret None
  | Loaded node elf size =>
      arr <- on_mm (kmalloc (8 * Z.of_nat (length argv))) ;;
      copies <- copy_args arr argv 0 ;;
      on_os (in_files (in_fs (release node))) ;;;
      p <- on_os (in_sys curr_process) ;;
      pr <- on_os (in_sys (get_proc p)) ;;
      r <- proc_create garbage elf size copies (p_cwd pr) ;;
      free_all copies ;;;
      on_mm (kfree elf) ;;;
      ret (Some r)
  end.

(** ** proc_cleanup *)

Fixpoint free_regions (fuel : nat) (region : Z) : MC unit :=
  if region =? 0 then ret tt
  else
    match fuel with
    | O => diverge
    | S f =>
        rs <- gets mc_regions ;;
        rg <- of_opt (rs !! region) ;;
        on_mm (kfree region) ;;;
        modify (λ s, set_regions (delete region (mc_regions s)) s) ;;;
        free_regions f (rg_next rg)
    end.

(** [*curr], where [curr] points to proc_list ([prev] = 0) or to the next field of
    [prev]. *)
Definition get_plink (prev : Z) : OM Z :=
  if prev =? 0 then gets proc_list else pr <- in_sys (get_proc prev) ;; ret (p_next pr).
Definition set_plink (prev next : Z) : OM unit :=
  if prev =? 0 then modify (set_proc_list next)
  else pr <- in_sys (get_proc prev) ;; in_sys (put_proc prev (with_pnext next pr)).

Definition drop_thread (t : Z) (c : sched) : sched := set_threads (delete t (threads c)) c.
Definition drop_proc (p : Z) (s : os_state P) : os_state P :=
  set_sys (set_procs (delete p (os_procs s)) (os_sys s)) s.

(** The body of the loop for a dead process. *)
Definition reap (prev p : Z) (proc : process) (t : thread) : MC unit :=
  fuel <- gets (λ s, size (mc_regions s)) ;;
  free_regions fuel (p_regions proc) ;;;
  on_mm (pg (fa_free_n (th_kernel_stack t -64 hhdm_offset) (th_stack_size t / 4096))) ;;;
  on_mm (kfree (p_thread proc)) ;;;
  on_os (on_sched (modify (drop_thread (p_thread proc)))) ;;;
  on_os (set_plink prev (p_next proc)) ;;;
  on_mm (kfree p) ;;;
  on_os (modify (drop_proc p)).

Fixpoint cleanup_loop (fuel : nat) (prev : Z) : MC unit :=
  p <- on_os (get_plink prev) ;;
  if p =? 0 then ret tt
  else
    match fuel with
    | O => diverge
    | S f =>
        proc <- on_os (in_sys (get_proc p)) ;;
        t <- on_os (on_sched (get_thread (p_thread proc))) ;;
        if bool_decide (th_state t = THREAD_DEAD) then reap prev p proc t ;;; cleanup_loop f prev
        else cleanup_loop f p
    end.

Fixpoint count_alive (fuel : nat) (p : Z) (alive : Z) : OM Z :=
  if p =? 0 then ret alive
  else
    match fuel with
    | O => diverge
    | S f =>
        proc <- in_sys (get_proc p) ;;
        t <- on_sched (get_thread (p_thread proc)) ;;
        count_alive f (p_next proc) (if negb (bool_decide (th_state t = THREAD_DEAD)) then alive + 1 else alive)
    end.

(** init again, when no process is alive; [init_name] is the address of the string
    literal; [None] if init were a device that waits. *)
Definition restart_init (garbage : Z → Z) (init_name : Z) : MC (option unit) :=
  r <- load_file (chars "0:/init/init") ;;
  match r with
  | NotFound => panic "process.c: proc_cleanup() -> init not found"
  | ReadFailed => panic "process.c: proc_cleanup() -> unable to read init binary"
  | Waiting => ret None
  | Loaded node elf size =>
      on_os (in_files (in_fs (release node))) ;;;
      _ <- proc_create garbage elf size [init_name] [] ;;
      ret (Some tt)
  end.

Definition proc_cleanup (garbage : Z → Z) (init_name : Z) : MC (option unit) :=
  fuel <- gets (λ s, size (os_procs (mc_os s))) ;;
  cleanup_loop fuel 0 ;;;
  head <- gets (λ s, proc_list (mc_os s)) ;;
  fuel <- gets (λ s, size (os_procs (mc_os s))) ;;
  alive <- on_os (count_alive fuel head 0) ;;
  if alive =? 0 then restart_init garbage init_name else ret (Some tt).

End Spawn.
