(* ===== verification/ImageThms.v ===== *)
(** * The image of a new process

    What build_image of [Spawn] leaves in the new address space: the segments of the
    executable and, on the stack, argv with the strings it points to.  Everything
    else that is in use keeps its contents. *)

From S2P Require Import Prelude ByteMem FrameAlloc Pmm Heap HeapThms Vmm VmmThms CStr Thread SysMem SysMemThms ElfLoader ElfThms Proc Spawn.

(** ** The arguments *)

Definition arg_step (off : Z) (arg : list Z) : Z := (off - (Z.of_nat (length arg) + 1)) / 8 * 8.

(** The offset of the lowest string and of the array. *)
Definition strings_off (args : list (list Z)) : Z := foldl arg_step (4 * 4096) (rev args).
Definition argv_off (args : list (list Z)) : Z := (strings_off args - (Z.of_nat (length args) + 1) * 8) / 16 * 16.

Lemma arg_step_bounds off arg : off - (Z.of_nat (length arg) + 1) - 8 < arg_step off arg ≤ off - (Z.of_nat (length arg) + 1).
Proof.
  unfold arg_step. set (x := off - _). pose proof (Z.div_mod x 8 ltac:(lia)). pose proof (Z.mod_pos_bound x 8 ltac:(lia)). lia.
Qed.

Lemma arg_steps_le rs : ∀ off, foldl arg_step off rs ≤ off.
Proof.
  induction rs as [|r rs IH]; intros off; cbn [foldl]; [lia|]. specialize (IH (arg_step off r)). pose proof (arg_step_bounds off r). lia.
Qed.

(** A string at [p] that the stack of 16384 bytes at [virt] does not touch. *)
Definition outside_stack (virt : Z) (p : Z) (arg : list Z) : Prop :=
  ∀ i, 0 ≤ i ≤ Z.of_nat (length arg) → ¬ (virt ≤ p + i < virt + 16384).

Lemma strings_kept virt m m' ps rs :
  (∀ a, ¬ (virt ≤ a < virt + 16384) → load8 m' a = load8 m a) →
  Forall2 (cstr m) ps rs → Forall2 (outside_stack virt) ps rs → Forall2 (cstr m') ps rs.
Proof.
  intros Hm Hs. induction Hs as [|q s qs ss Hq Hs IH]; intros Ho; [constructor|]. apply Forall2_cons in Ho as [Hoq Ho].
  constructor; [|by apply IH]. apply (cstr_frame m); [|done]. intros i Hi. by apply Hm, Hoq.
Qed.

Lemma push_strings_run virt base rs : ∀ ps off ptrs m,
  0 ≤ virt → virt + 16384 ≤ W64 → 0 ≤ base → base + 16384 < W64 → off ≤ 16384 →
  Forall2 (cstr m) ps rs → Forall2 (outside_stack virt) ps rs → 0 ≤ foldl arg_step off rs →
  ∃ m' new, push_strings virt base ps off ptrs m = Ret (m', foldl arg_step off rs, new ++ ptrs) ∧
    (∀ a, ¬ (virt + foldl arg_step off rs ≤ a < virt + off) → load8 m' a = load8 m a) ∧
    Forall2 (λ p r, ∃ o, p = base + o ∧ foldl arg_step off rs ≤ o ∧ o + Z.of_nat (length r) < off ∧ cstr m' (virt + o) r) new (rev rs).
Proof.
  induction rs as [|r rs IH]; intros ps off ptrs m Hv Hvw Hb Hbw Hoff Hs Ho Hfit; cbn [foldl] in *.
  { apply Forall2_nil_inv_r in Hs as ->. exists m, []. split; [done|]. split; [done|constructor]. }
  apply Forall2_cons_inv_r in Hs as (p & ps' & Hp & Hs & ->). apply Forall2_cons in Ho as [Hop Ho].
  pose proof (arg_step_bounds off r) as Hst. pose proof (arg_steps_le rs (arg_step off r)) as Hle. set (o := arg_step off r) in *.
  cbn [push_strings]. rewrite (strlen_spec _ _ _ Hp). cbn [obind]. set (len := Z.of_nat (length r) + 1).
  assert (s32 len = len) as -> by (unfold s32; rewrite Z.mod_small by lia; lia).
  rewrite (u64_small (off - len)), (u64_small len) by lia. change 0x7 with (Z.ones 3). rewrite land_not_ones by lia.
  change ((off - len) / 2 ^ 3 * 2 ^ 3) with o. rewrite (u64_small (virt + o)), (u64_small (base + o)) by lia.
  set (m1 := memcpy m (virt + o) p len).
  assert (∀ a, ¬ (virt + o ≤ a < virt + o + len) → load8 m1 a = load8 m a) as Hm1.
  { intros a Ha. unfold m1, memcpy. apply load8_copy_up_out. lia. }
  destruct (IH ps' o ((base + o) :: ptrs) m1) as (m' & new & -> & Hmem & Hnew); try done; try lia.
  { apply (strings_kept virt m); [|done|done]. intros a Ha. apply Hm1. lia. }
  exists m', (new ++ [base + o]). split; [by rewrite <- app_assoc|]. split.
  - intros a Ha. rewrite Hmem by lia. apply Hm1. lia.
  - cbn [rev]. apply Forall2_app.
    + eapply Forall2_impl; [exact Hnew|]. intros q s (o' & -> & H1 & H2 & H3). exists o'. split_and!; [done|lia|lia|done].
    + constructor; [|constructor]. exists o. split_and!; [done|lia|lia|]. apply (cstr_frame m1); [intros i Hi; apply Hmem; lia|].
      apply cstr_intro; [intros c Hc; pose proof (cstr_bytes _ _ _ _ Hp Hc); lia|]. intros i c Hi. rewrite <- (cstr_lookup _ _ _ _ _ Hp Hi).
      apply lookup_lt_Some in Hi. rewrite length_app in Hi. cbn [length] in Hi. unfold m1, memcpy.
      apply load8_copy_up_part; [lia|]. intros Hin. apply (Hop (Z.of_nat i)); lia.
Qed.

Lemma write_words_spec ws : ∀ m a,
  (∀ b, ¬ (a ≤ b < a + 8 * Z.of_nat (length ws)) → load8 (write_words m a ws) b = load8 m b) ∧
  (∀ i w, ws !! i = Some w → 0 ≤ w < W64 → load64 (write_words m a ws) (a + 8 * Z.of_nat i) = w).
Proof.
  induction ws as [|w ws IH]; intros m a; cbn [write_words length]; [by split|]. destruct (IH (store64 m a w) (a + 8)) as [H1 H2]. split.
  - intros b Hb. rewrite H1 by lia. unfold store64. rewrite load8_store_le, decide_False by lia. done.
  - intros [|i] w' Hi Hw; cbn [lookup list_lookup] in Hi.
    + injection Hi as ->. rewrite Z.add_0_r. rewrite <- (load64_store64_eq m a w') at 2 by done. apply load_le_ext. intros b Hb. apply H1. lia.
    + rewrite <- (H2 i w' Hi Hw). f_equal. lia.
Qed.

(** The arguments as the kernel sees them on the stack at [virt], for a program that
    has it at [base]: an array of pointers at [off], each to a copy of its string, and a
    NULL behind them. *)
Definition args_at (m : mem) (virt base off : Z) (args : list (list Z)) : Prop :=
  load64 m (virt + off + 8 * Z.of_nat (length args)) = 0 ∧
  ∀ i arg, args !! i = Some arg → ∃ o, load64 m (virt + off + 8 * Z.of_nat i) = base + o ∧
    off + 8 * (Z.of_nat (length args) + 1) ≤ o ∧ o + Z.of_nat (length arg) < 16384 ∧ cstr m (virt + o) arg.

Lemma argv_off_end args : argv_off args + 8 * (Z.of_nat (length args) + 1) ≤ strings_off args ∧ strings_off args ≤ 16384.
Proof.
  split; [|exact (arg_steps_le (rev args) (4 * 4096))]. unfold argv_off. set (x := strings_off args - _).
  pose proof (Z.div_mod x 16 ltac:(lia)). pose proof (Z.mod_pos_bound x 16 ltac:(lia)). lia.
Qed.

Lemma push_argv_run virt base ps args m :
  0 ≤ virt → virt + 16384 ≤ W64 → 0 ≤ base → base + 16384 < W64 →
  Forall2 (cstr m) ps args → Forall2 (outside_stack virt) ps args → 0 ≤ argv_off args →
  ∃ m', push_argv virt base ps m = Ret (m', argv_off args) ∧ args_at m' virt base (argv_off args) args ∧
    ∀ a, ¬ (virt + argv_off args ≤ a < virt + 16384) → load8 m' a = load8 m a.
Proof.
  intros Hv Hvw Hb Hbw Hs Ho Hfit. pose proof (Forall2_length _ _ _ Hs) as Hlen. set (n := Z.of_nat (length args)) in *.
  destruct (argv_off_end args) as [Hao Hle]. fold n in Hao.
  destruct (push_strings_run virt base (rev args) (rev ps) (4 * 4096) [] m) as (m1 & new & Hrun & Hmem & Hnew); try done; try lia.
  { rewrite !rev_alt. by apply Forall2_reverse. } { rewrite !rev_alt. by apply Forall2_reverse. } { fold (strings_off args). lia. }
  rewrite rev_involutive in Hnew. fold (strings_off args) in Hrun, Hmem, Hnew. rewrite app_nil_r in Hrun.
  pose proof (Forall2_length _ _ _ Hnew) as Hlen2. unfold push_argv. rewrite Hrun. cbn [obind]. rewrite Hlen. fold n.
  destruct (Z.ltb_spec 2147483647 ((n + 1) * 8)) as [?|_]; [lia|]. change 0xf with (Z.ones 4). rewrite (u64_small (strings_off args - _)), land_not_ones by lia.
  change (_ / 2 ^ 4 * 2 ^ 4) with (argv_off args). rewrite (u64_small (virt + _)) by lia.
  destruct (write_words_spec (new ++ [0]) m1 (virt + argv_off args)) as [Hout Hin]. rewrite length_app in Hout. cbn [length] in Hout.
  set (m' := write_words _ _ _) in *. exists m'. split; [done|]. split.
  - split.
    + fold n. replace n with (Z.of_nat (length new)) by lia. apply Hin; [|lia]. by rewrite lookup_app_r, Nat.sub_diag by lia.
    + intros i arg Hi. destruct (Forall2_lookup_r _ _ _ _ _ Hnew Hi) as (p & Hp & o & -> & H1 & H2 & H3). exists o. fold n. split_and!; [|lia|lia|].
      * apply Hin; [by apply lookup_app_l_Some|lia].
      * apply (cstr_frame m1); [|done]. intros j Hj. apply Hout. lia.
  - intros a Ha. rewrite Hout, Hmem by lia. done.
Qed.

Section ImageThms.
Context {P : Type} `{FA : FrameAllocator P} `{B : Boot}.
Implicit Types s : mm_state P.

(** ** The steps, on the invariant of the new space *)

Lemma block_taken s G fls T r b c n a :
  vspace s G fls T r → G !! b = Some (c, n) → b - 8 ≤ a < b - 8 + n → stable s T r a.
Proof.
  intros Hv Hb Ha. destruct (hc_block _ _ _ (proj1 (mi_heap _ _ _ _ (vp_mm _ _ _ _ _ Hv))) _ _ _ Hb) as (_ & Htk & _).
  split; [by destruct (Htk a Ha) as (_ & _ & ?)|]. intros l pre. by apply (mi_sep _ _ _ _ (vp_mm _ _ _ _ _ Hv) b c n a).
Qed.

Lemma loading_start s G fls T r A : vspace s G fls T r → space_is s T r A → loading s T (mm_mem s) 0 0 r s T A.
Proof.
  intros [Hmm Hroot H0 He Ht Hh Hi] Hsp. split; try done; [apply Hmm|lia|apply grows_refl].
Qed.

(** Loading a program keeps the invariant. *)
Lemma loading_vspace s0 G fls T0 m0 data size r s T A :
  vspace s0 G fls T0 r → loading s0 T0 m0 data size r s T A → vspace s G fls T r.
Proof.
  intros Hv [Hok Hroot H0 _ _ _ Hg [K1 K2 K3]]. pose proof (λ b c n a, block_taken s0 G fls T0 r b c n a Hv) as Hst.
  pose proof Hv as [[Hheap Htab Hsep] _ _ He Ht Hh Hi]. split; try done.
  - split; [|done|].
    + apply (heap_frame s0 s); [done|apply (vt_wf _ _ Hok)|apply Hg|apply Hg| |].
      * intros b c n a Hb Ha Hin. by apply (Hst b c n a Hb Ha), (gr_free _ _ _ _ _ Hg).
      * intros b c n a Hb Ha. by apply (gr_mem _ _ _ _ _ Hg), (Hst b c n a).
    + intros b c n a [[r' l] pre] Hb Ha HT. destruct (gr_new _ _ _ _ _ Hg _ _ _ _ HT) as [HT'|(Hin & _)]; [by apply (Hsep b c n a (r', l, pre))|].
      by apply (Hst b c n a Hb Ha).
  - intros x e b c n a Hx Hb Ha. destruct (gr_pages _ _ _ _ _ Hg x e Hx) as [Hx'|Hin]; [by apply (Hh x e b c n a)|].
    intros E. rewrite <- E in Hin. by apply (Hst b c n a Hb Ha).
Qed.

(** A block of the heap more. *)
Lemma space_is_kmalloc s G fls T r A s1 G1 fls1 :
  vspace s G fls T r → space_is s T r A → heap_inv s1 G1 fls1 → alloc_frame s s1 G G1 → space_is s1 T r A.
Proof.
  intros Hv Hsp Hh1 Hfr x. destruct (vspace_kmalloc s G fls T r s1 G1 fls1 Hv Hh1 Hfr) as [_ Hpte]. destruct Hfr as [F1 F2 F3 F4].
  specialize (Hsp x). destruct (A x) as [g|]; [|by rewrite Hpte]. destruct Hsp as (f & E1 & E2 & E3 & E4). exists f. rewrite Hpte, F3.
  split; [done|]. split; [done|]. split.
  - intros o Ho. destruct (E3 o Ho) as [S1 S2]. split; [set_solver|done].
  - intros o v Ho Hv'. rewrite F1; [by apply E4|]. by apply (E3 o Ho).
Qed.

(** *** The stack *)

(** Page [x] is one of the stack's. *)
Definition stack_page (x : Z) : Prop := stack_base / 4096 ≤ x < stack_base / 4096 + 4.
#[local] Instance stack_page_dec x : Decision (stack_page x).
Proof. unfold stack_page. apply _. Defined.

Lemma stack_addr i : 0 ≤ i < 4 →
  stack_base +64 (i *64 4096) = stack_base + i * 4096 ∧ (stack_base + i * 4096) / 4096 = stack_base / 4096 + i ∧ 0 ≤ stack_base + i * 4096 < 2 ^ 47.
Proof.
  intros Hi. change stack_base with 140737471561728. change (2 ^ 47) with 140737488355328. rewrite !u64_small by (rewrite ?u64_small by lia; lia).
  split; [done|]. rewrite Z.div_add by lia. split; [done|lia].
Qed.

Lemma map_stack_wp s0 T0 r f : ∀ n i s T A,
  loading s0 T0 (mm_mem s0) 0 0 r s T A → 0 ≤ i → i + Z.of_nat n = 4 → 0 < f → (f + 4) * 4096 ≤ W64 →
  (∀ j, i ≤ j < 4 → owned s0 s T r (f + j)) →
  (∀ j, 0 ≤ j < i → pte_of s T r (stack_base / 4096 + j) = Some (leaf_entry ((f + j) * 4096) 7)) →
  wp (map_stack n (space_at r) (f * 4096) i s) (λ _ s', ∃ T' A', loading s0 T0 (mm_mem s0) 0 0 r s' T' A' ∧
    (∀ x, ¬ stack_page x → A' x = A x) ∧
    ∀ j, 0 ≤ j < 4 → pte_of s' T' r (stack_base / 4096 + j) = Some (leaf_entry ((f + j) * 4096) 7)).
Proof.
  induction n as [|n IH]; intros i s T A Hld Hi Hn Hf Hfw How Hpte; cbn [map_stack].
  - exists T, A. split; [done|]. split; [done|]. intros j Hj. apply Hpte. lia.
  - destruct (stack_addr i ltac:(lia)) as (Ea & Ed & Er). rewrite Ea. rewrite (u64_small (i * 4096)), (u64_small (f * 4096 + _)) by lia.
    replace (f * 4096 + i * 4096) with ((f + i) * 4096) by lia. change (Z.lor (Z.lor PAGE_PRESENT PAGE_WRITE) PAGE_USER) with 7.
    apply wp_bind. apply wp_safe; [apply map_page_safe, (vt_wf _ _ (ld_tables _ _ _ _ _ _ _ _ _ Hld))|]. intros [] s1 Hmap.
    destruct (map_loaded s0 T0 (mm_mem s0) 0 0 r s T A (stack_base + i * 4096) (f + i) (mkPage 7 (λ _, None)) s1 Hld Er (How i ltac:(lia)) ltac:(cbn; lia) ltac:(done) Hmap)
      as (T1 & Hld1 & Hup). rewrite Ed in Hld1, Hup. cbn [up_flags] in Hup.
    eapply wp_mono; [apply (IH (i + 1) s1 T1 _ Hld1)|]; try lia.
    + intros j Hj. apply (owned_update s0 s T r (stack_base / 4096 + i) (f + i) 7 s1 T1); [apply How; lia|lia|lia|lia|lia|done].
    + intros j Hj. rewrite (up_pte _ _ _ _ _ _ _ Hup). destruct (decide (j = i)) as [->|Hne]; [by rewrite decide_True|].
      rewrite decide_False by (intros [_ ?]; lia). apply Hpte. lia.
    + intros [] s2 (T2 & A2 & H1 & H2 & H3). exists T2, A2. split; [done|]. split; [|done]. intros x Hx. rewrite H2 by done.
      unfold uset. rewrite decide_False; [done|]. intros ->. apply Hx. unfold stack_page. lia.
Qed.

(** The space [A] with the stack, at [virt] for the kernel, in the memory [m]. *)
Definition stack_space (m : mem) (virt : Z) (A : uspace) : uspace := λ x,
  if decide (stack_page x) then Some (mkPage 7 (λ o, Some (load8 m (virt + (x - stack_base / 4096) * 4096 + o)))) else A x.

(** Writing to the pages of the stack, mapped to the frames from [f] on. *)
Lemma write_stack s G fls T r A f m' :
  vspace s G fls T r → space_is s T r A → (∀ x g, ¬ stack_page x → A x = Some g → 0 ≤ up_flags g < 4096) →
  (∀ j, 0 ≤ j < 4 → pte_of s T r (stack_base / 4096 + j) = Some (leaf_entry ((f + j) * 4096) 7)) → 0 ≤ f → (f + 4) * 4096 ≤ W64 →
  let virt := hhdm_offset + f * 4096 in
  (∀ a, ¬ (virt ≤ a < virt + 16384) → load8 m' a = load8 (mm_mem s) a) →
  vspace (set_mem m' s) G fls T r ∧ (∀ r' x, pte_of (set_mem m' s) T r' x = pte_of s T r' x) ∧ space_is (set_mem m' s) T r (stack_space m' virt A) ∧
  ∀ k g i, T !! k = Some g → 0 ≤ i < 512 → load64 m' (slot g i) = load64 (mm_mem s) (slot g i).
Proof.
  intros Hv Hsp Hfl Hpte Hf Hfw virt Hm. pose proof Hv as [[Hheap Htab Hsep] Hroot H0 He Ht Hh Hi].
  assert (∀ j, 0 ≤ j < 4 → entry_frame (leaf_entry ((f + j) * 4096) 7) = f + j) as Hef by (intros j Hj; apply leaf_frame; lia).
  assert (∀ a, virt ≤ a < virt + 16384 → ∃ j, 0 ≤ j < 4 ∧ frame_of a = f + j) as Hfr.
  { intros a Ha. exists (frame_of a - f). pose proof (frame_page_inv _ a eq_refl). unfold virt in Ha. lia. }
  assert (∀ a, (∀ j, 0 ≤ j < 4 → frame_of a ≠ f + j) → load8 m' a = load8 (mm_mem s) a) as Hm'.
  { intros a Ha. apply Hm. intros Hin. destruct (Hfr a Hin) as (j & Hj & E). by apply (Ha j Hj). }
  assert (∀ a k, T !! k = Some (frame_of a) → load8 m' a = load8 (mm_mem s) a) as Hmt.
  { intros a k HT. apply Hm'. intros j Hj E. apply (Ht _ _ k (Hpte j Hj)). by rewrite Hef, <- E. }
  assert (∀ b c n a, G !! b = Some (c, n) → b - 8 ≤ a < b - 8 + n → load8 m' a = load8 (mm_mem s) a) as Hmh.
  { intros b c n a Hb Ha. apply Hm'. intros j Hj E. apply (Hh _ _ b c n a (Hpte j Hj) Hb Ha). by rewrite Hef. }
  destruct (tables_frame s (set_mem m' s) T Htab (vt_wf _ _ Htab) eq_refl ltac:(done) Hmt) as (Htab' & Hp' & Hsl).
  split; [|split; [done|split; [|exact Hsl]]].
  - split; try done.
    + split; [|done|done]. apply (heap_frame s); try done; [apply (vt_wf _ _ Htab)|].
      intros b c n a Hb Ha. by apply (block_taken s G fls T r b c n a Hv).
    + intros x e. rewrite Hp'. apply He.
    + intros x e k. rewrite Hp'. apply Ht.
    + intros x e b c n a. rewrite Hp'. apply Hh.
    + intros x1 x2 e1 e2. rewrite !Hp'. apply Hi.
  - intros x. unfold stack_space. case_decide as Hx.
    + set (j := x - stack_base / 4096). assert (0 ≤ j < 4) as Hj by (unfold stack_page in Hx; lia). exists (f + j). rewrite Hp'.
      replace x with (stack_base / 4096 + j) at 1 by lia. destruct (He _ _ (Hpte j Hj)) as (_ & E2 & E3). rewrite Hef in E2, E3 by done.
      split_and!; [by apply Hpte|apply E2|apply E2| |].
      * intros o Ho. split; rewrite frame_page by done; [done|]. intros l pre. rewrite <- (Hef j Hj). by apply (Ht _ _ _ (Hpte j Hj)).
      * intros o v Ho [= <-]. cbn [mm_mem set_mem]. f_equal. unfold virt. lia.
    + specialize (Hsp x). destruct (A x) as [g|] eqn:EA; [|by rewrite Hp']. destruct Hsp as (h & E1 & E2 & E3 & E4). exists h. rewrite Hp'.
      split; [done|]. split; [done|]. split; [exact E3|]. intros o v Ho Hvv. cbn [mm_mem set_mem]. rewrite Hm'; [by apply E4|].
      intros j Hj. rewrite frame_page by done. intros ->. apply Hx.
      assert (x = stack_base / 4096 + j) as ->; [|unfold stack_page; lia]. apply (Hi _ _ _ _ E1 (Hpte j Hj)). rewrite Hef by done.
      by apply leaf_frame; [lia|lia|apply (Hfl x)].
Qed.

(** ** What both halves of build_image keep *)

(** Memory that is in use and no page table. *)
Definition kept s (T : gmap (Z * Z * Z) Z) (a : Z) : Prop :=
  (frame_of a ∉ fa_free (mm_pg s)) ∧ ∀ k, T !! k ≠ Some (frame_of a).

(** From [s] to [s']: the blocks [bs] are new and the others are in use as before,
    memory in use but for [X] keeps its contents, and so do the spaces other than
    the one of [r]. *)
Record built (r : Z) (X : Z → Prop) (bs : list Z) s (G : gmap Z (Z * Z)) (fls : list (list Z)) (T : gmap (Z * Z * Z) Z)
    s' (G' : gmap Z (Z * Z)) (fls' : list (list Z)) (T' : gmap (Z * Z * Z) Z) : Prop := {
  bt_live : ∀ b, live G' fls' b ↔ live G fls b ∨ b ∈ bs;
  bt_new : ∀ b, b ∈ bs → ¬ live G fls b;
  bt_old : ∀ b x, live G fls b → G !! b = Some x → G' !! b = Some x;
  bt_kept : ∀ a, kept s T a → ¬ X a → kept s' T' a ∧ load8 (mm_mem s') a = load8 (mm_mem s) a;
  bt_others : ∀ r' v, r' ≠ r → pte_of s' T' r' v = pte_of s T r' v;
  bt_ext : T ⊆ T' ∧ ∀ r' l pre f, T' !! (r', l, pre) = Some f → T !! (r', l, pre) = Some f ∨ r' = r;
  bt_free : fa_free (mm_pg s') ⊆ fa_free (mm_pg s);
  bt_blocks : ∀ b c n a, G' !! b = Some (c, n) → b - 8 ≤ a < b - 8 + n → G !! b = Some (c, n) ∨ frame_of a ∈ fa_free (mm_pg s);
}.

Lemma built_trans r X bs1 bs2 s1 G1 fls1 T1 s2 G2 fls2 T2 s3 G3 fls3 T3 :
  built r X bs1 s1 G1 fls1 T1 s2 G2 fls2 T2 → built r (λ _, False) bs2 s2 G2 fls2 T2 s3 G3 fls3 T3 →
  built r X (bs1 ++ bs2) s1 G1 fls1 T1 s3 G3 fls3 T3.
Proof.
  intros [A1 A2 A3 A4 A5 [A6 A6'] A7 A8] [B1 B2 B3 B4 B5 [B6 B6'] B7 B8]. split.
  - intros b. rewrite B1, A1, elem_of_app. tauto.
  - intros b [Hb|Hb]%elem_of_app; [by apply A2|]. intros Hl. apply (B2 b Hb). rewrite A1. by left.
  - intros b x Hl Hx. apply B3; [rewrite A1; by left|by apply A3].
  - intros a Ha Hx. destruct (A4 a Ha Hx) as [Ha2 E]. destruct (B4 a Ha2 id) as [Ha3 E']. split; [done|congruence].
  - intros r' v Hr. rewrite B5 by done. by apply A5.
  - split; [by etrans|]. intros r' l pre f HT. destruct (B6' _ _ _ _ HT) as [HT'|?]; [by apply A6'|by right].
  - set_solver.
  - intros b c n a Hb Ha. destruct (B8 b c n a Hb Ha) as [Hb'|?]; [by apply A8|right; set_solver].
Qed.

Lemma held_kept s G fls T b c n a : mm_inv s G fls T → G !! b = Some (c, n) → b - 8 ≤ a < b - 8 + n → kept s T a.
Proof.
  intros [Hh Ht Hsep] Hb Ha. destruct (hc_block _ _ _ (proj1 Hh) _ _ _ Hb) as (_ & Htk & _).
  split; [by destruct (Htk a Ha) as (_ & _ & ?)|]. intros k. by apply (Hsep b c n a k).
Qed.

(** Pages of the space of [r]. *)
Lemma built_grows r s G fls T s' T' : grows r s T s' T' → built r (λ _, False) [] s G fls T s' G fls T'.
Proof.
  intros Hg. split.
  - intros b. split; [by left|intros [?|Hb]; [done|by apply not_elem_of_nil in Hb]].
  - intros b Hb. by apply not_elem_of_nil in Hb.
  - done.
  - intros a [H1 H2] _. split; [|apply Hg; by split]. split; [intros Hin; by apply H1, (gr_free _ _ _ _ _ Hg)|].
    intros [[r' l] pre] HT. destruct (gr_new _ _ _ _ _ Hg _ _ _ _ HT) as [HT'|(Hin & _)]; [by apply (H2 (r', l, pre))|done].
  - apply Hg.
  - split; [apply Hg|]. intros r' l pre f HT. destruct (gr_new _ _ _ _ _ Hg _ _ _ _ HT) as [?|(_ & ? & _)]; [by left|by right].
  - apply Hg.
  - by left.
Qed.

(** A block of the heap. *)
Lemma built_kmalloc r s G fls T size b s' :
  mm_inv s G fls T → 0 < size ≤ 2 ^ 40 → kmalloc size s = Ret (b, s') →
  ∃ G' fls', built r (λ _, False) [b] s G fls T s' G' fls' T ∧ heap_inv s' G' fls' ∧ alloc_frame s s' G G' ∧ b ≠ 0.
Proof.
  intros Hmm Hs Hrun. destruct (kmalloc_spec s G fls size b s' (mi_heap _ _ _ _ Hmm) Hs Hrun) as (G' & fls' & c & n & Hh & Hb & _ & Hnl & Hl & Hold & Hfr).
  destruct (tables_after_kmalloc s G fls T s' G' fls' Hmm Hh Hfr) as (_ & Hpte & _). exists G', fls'.
  split; [|split; [done|split; [done|]]; pose proof (block_addr _ _ _ _ _ _ (proj1 Hh) Hb); lia]. destruct Hfr as [F1 F2 F3 F4]. split; try done.
  - intros x. rewrite Hl. by rewrite list_elem_of_singleton.
  - by intros x ->%list_elem_of_singleton.
  - intros a [H1 H2] _. split; [|by apply F1]. split; [set_solver|done].
  - split; [done|]. by left.
Qed.

(** ** The stack of the new process *)

Lemma take_stack s T r A p' f :
  loading s T (mm_mem s) 0 0 r s T A → fa_alloc_n 4 (mm_pg s) = Ret (f * 4096, p') → (∀ g, f ≤ g < f + 4 → g ∈ fa_free (mm_pg s)) → fa_wf p' →
  fa_count p' = fa_count (mm_pg s) → (∀ g, g ∈ fa_free p' ↔ g ∈ fa_free (mm_pg s) ∧ ¬ (f ≤ g < f + 4)) →
  loading s T (mm_mem s) 0 0 r (set_pg p' s) T A ∧ ∀ j, 0 ≤ j < 4 → owned s (set_pg p' s) T r (f + j).
Proof.
  intros Hld _ Hin Hwf Hcnt Hfr. destruct (take_fresh s T (mm_mem s) 0 0 r s T A (λ g, f ≤ g < f + 4) p' (mm_mem s) Hld Hin Hwf Hcnt Hfr ltac:(done)) as [H1 H2].
  split; [exact H1|]. intros j Hj. apply H2. lia.
Qed.

(** Strings in memory in use stay, and the new stack is elsewhere. *)
Lemma strings_outside s T f ps args :
  (∀ g, f ≤ g < f + 4 → g ∈ fa_free (mm_pg s)) →
  Forall2 (λ p (arg : list Z), ∀ i, 0 ≤ i ≤ Z.of_nat (length arg) → kept s T (p + i)) ps args →
  Forall2 (outside_stack (hhdm_offset + f * 4096)) ps args.
Proof.
  intros Hf H. eapply Forall2_impl; [exact H|]. intros p arg Hk i Hi Hin. destruct (Hk i Hi) as [Hn _]. apply Hn, Hf.
  pose proof (frame_page_inv _ (p + i) eq_refl). lia.
Qed.

Lemma strings_same s s' ps args :
  Forall2 (cstr (mm_mem s)) ps args →
  Forall2 (λ p (arg : list Z), ∀ i, 0 ≤ i ≤ Z.of_nat (length arg) → load8 (mm_mem s') (p + i) = load8 (mm_mem s) (p + i)) ps args →
  Forall2 (cstr (mm_mem s')) ps args.
Proof.
  intros Hs Hm. induction Hs as [|p arg ps args Hp Hs IH]; [constructor|]. apply Forall2_cons in Hm as [Hm1 Hm]. constructor; [|by apply IH].
  by apply (cstr_frame (mm_mem s)).
Qed.

Lemma built_write r X bs s G fls T s' G' fls' T' m' :
  built r X bs s G fls T s' G' fls' T' → (∀ a, kept s T a → load8 m' a = load8 (mm_mem s') a) →
  (∀ r' x, pte_of (set_mem m' s') T' r' x = pte_of s' T' r' x) → built r X bs s G fls T (set_mem m' s') G' fls' T'.
Proof.
  intros [A1 A2 A3 A4 A5 A6 A7 A8] Hm Hp. split; try done.
  - intros a Ha Hx. destruct (A4 a Ha Hx) as [? <-]. split; [done|]. by apply Hm.
  - intros r' v Hr. rewrite Hp. by apply A5.
Qed.

Lemma space_is_ext s T r A A' : (∀ x, A x = A' x) → space_is s T r A → space_is s T r A'.
Proof. intros E H x. rewrite <- E. apply H. Qed.

Lemma build_stack_wp s G fls T r A space ps args :
  vspace s G fls T r → space_is s T r A → (∀ x g, ¬ stack_page x → A x = Some g → 0 ≤ up_flags g < 4096) →
  read_space (mm_mem s) space = space_at r → live G fls space → Forall2 (cstr (mm_mem s)) ps args →
  Forall2 (λ p (arg : list Z), ∀ i, 0 ≤ i ≤ Z.of_nat (length arg) → kept s T (p + i)) ps args → 0 ≤ argv_off args →
  wp (build_stack space ps s) (λ res s', ∃ proc f G' fls' T', res = (proc, argv_off args) ∧ proc ≠ 0 ∧
    built r (λ _, False) [proc] s G fls T s' G' fls' T' ∧ vspace s' G' fls' T' r ∧ read_space (mm_mem s') space = space_at r ∧
    (∀ i, 256 ≤ i < 512 → load64 (mm_mem s') (slot r i) = load64 (mm_mem s) (slot r i)) ∧
    space_is s' T' r (stack_space (mm_mem s') (hhdm_offset + f * 4096) A) ∧
    args_at (mm_mem s') (hhdm_offset + f * 4096) stack_base (argv_off args) args).
Proof.
  intros Hv Hsp Hfl Hst Hlive Hstr Hkept Hfit. pose proof (vp_mm _ _ _ _ _ Hv) as Hmm. unfold build_stack, SIZEOF_PROCESS. apply wp_bind.
  apply wp_safe; [eapply kmalloc_safe; [apply Hmm|lia]|]. intros proc s1 Hmal.
  destruct (built_kmalloc r s G fls T 1392 proc s1 Hmm ltac:(lia) Hmal) as (G1 & fls1 & Hb1 & Hh1 & Hfr1 & Hp0). destruct (Z.eqb_spec proc 0) as [?|_]; [done|].
  destruct (vspace_kmalloc s G fls T r s1 G1 fls1 Hv Hh1 Hfr1) as [Hv1 _]. pose proof (space_is_kmalloc s G fls T r A s1 G1 fls1 Hv Hsp Hh1 Hfr1) as Hsp1.
  pose proof (hc_wf _ _ _ (proj1 Hh1)) as Hwf1. pose proof (hc_hhdm _ _ _ (proj1 Hh1)) as Hh.
  apply wp_bind. unfold pg. apply wp_zoom. apply wp_safe; [apply fa_alloc_n_safe; [done|lia]|]. intros phys p' Hal.
  destruct (fa_alloc_n_ok (mm_pg s1) 4 _ _ Hwf1 ltac:(lia) Hal) as (f & -> & Hin & Hwf2 & Hcnt2 & Hfr2).
  assert (f ≠ 0) as Hf0 by (intros ->; by apply (vp_zero _ _ _ _ _ Hv1), Hin).
  pose proof (fa_free_bound _ _ Hwf1 (Hin f ltac:(lia))). pose proof (fa_free_bound _ _ Hwf1 (Hin (f + 3) ltac:(lia))). pose proof (fa_bound _ Hwf1).
  destruct (Z.eqb_spec (f * 4096) 0) as [?|_]; [lia|].
  destruct (take_stack s1 T r A p' f (loading_start s1 G1 fls1 T r A Hv1 Hsp1) Hal Hin Hwf2 Hcnt2 Hfr2) as [Hld2 How2].
  rewrite bind_gets. cbn [mm_mem set_pg]. assert (read_space (mm_mem s1) space = space_at r) as Hst1.
  { rewrite <- Hst. apply (struct_kept s G fls); [apply Hmm|done|]. intros c n a Hb Ha. apply (af_mem _ _ _ _ Hfr1). by apply (held_kept s G fls T space c n a). }
  rewrite Hst1. apply wp_bind. eapply wp_mono; [apply (map_stack_wp s1 T r f 4 0 (set_pg p' s1) T A Hld2); [lia|lia|lia|lia|exact How2|lia]|].
  intros [] s3 (T3 & A3 & Hld3 & HA3 & Hpte3). pose proof (loading_vspace _ _ _ _ _ _ _ _ _ _ _ Hv1 Hld3) as Hv3.
  pose proof (ld_grows _ _ _ _ _ _ _ _ _ Hld3) as Hg3. rewrite bind_gets. rewrite (u64_small (f * 4096 + hhdm_offset)) by lia.
  replace (f * 4096 + hhdm_offset) with (hhdm_offset + f * 4096) by lia. set (virt := hhdm_offset + f * 4096) in *.
  pose proof (built_trans _ _ _ _ _ _ _ _ _ _ _ _ _ _ _ _ Hb1 (built_grows r s1 G1 fls1 T s3 T3 Hg3)) as Hb3. rewrite app_nil_r in Hb3.
  destruct (push_argv_run virt stack_base ps args (mm_mem s3)) as (m' & Hpush & Hargs & Hout); try done; try (unfold virt; lia).
  { apply (strings_same s); [done|]. eapply Forall2_impl; [exact Hkept|]. intros p arg Hk i Hi. exact (proj2 (bt_kept _ _ _ _ _ _ _ _ _ _ _ Hb3 _ (Hk i Hi) id)). }
  { apply (strings_outside s T); [|done]. intros g Hg. apply (af_free _ _ _ _ Hfr1). by apply Hin. }
  rewrite Hpush. cbn [lift bind]. unfold upd_mem. rewrite bind_modify. cbn [wp ret].
  destruct (write_stack s3 G1 fls1 T3 r A3 f m' Hv3 (ld_space _ _ _ _ _ _ _ _ _ Hld3)) as (Hv4 & Hp4 & Hsp4 & Hsl4); try lia.
  { intros x g Hx HA. rewrite HA3 in HA by done. by apply (Hfl x). } { exact Hpte3. } { intros a Ha. apply Hout. fold virt in Ha. lia. }
  exists proc, f, G1, fls1, T3. split_and!; [done|done| |exact Hv4| | | |exact Hargs].
  - apply built_write; [exact Hb3| |exact Hp4]. intros a [Ha _]. apply Hout. intros Hr. apply Ha, (af_free _ _ _ _ Hfr1), Hin.
    pose proof (frame_page_inv _ a eq_refl). unfold virt in Hr. lia.
  - rewrite <- Hst1. cbn [mm_mem set_mem]. apply (struct_kept s1 G1 fls1); [done|apply (bt_live _ _ _ _ _ _ _ _ _ _ _ Hb1); by left|].
    intros c n a Hb Ha. pose proof (block_taken s1 G1 fls1 T r space c n a Hv1 Hb Ha) as Hs. rewrite <- (gr_mem _ _ _ _ _ Hg3 a Hs).
    apply Hout. intros Hr. apply (proj1 Hs), Hin. pose proof (frame_page_inv _ a eq_refl). unfold virt in Hr. lia.
  - intros i Hi. cbn [mm_mem set_mem]. rewrite (Hsl4 (r, 3, 0) r i) by (lia || apply Hv3). rewrite (gr_upper _ _ _ _ _ Hg3 r i) by (lia || apply Hv).
    apply (tables_after_kmalloc s G fls T s1 G1 fls1 Hmm Hh1 Hfr1) with (k := (r, 3, 0)); [apply Hv|lia].
  - apply (space_is_ext _ _ _ (stack_space m' virt A3)); [|exact Hsp4]. intros x. unfold stack_space. case_decide; [done|by apply HA3].
Qed.

(** ** The whole image *)

Lemma create_space_vm (v v' : vm_state P) p :
  vmm_create_user_space v = Ret (p, v') → v' = set_vm_mm (vm_mm v') v.
Proof.
  intros Hrun. assert (preserves (λ x : vm_state P, kernel_addr_space x = kernel_addr_space v ∧ cr3 x = cr3 v) vmm_create_user_space) as Hpr.
  { unfold vmm_create_user_space, in_mm. pres_auto. }
  destruct (Hpr v p v' (conj eq_refl eq_refl) Hrun) as [E1 E2]. destruct v, v'. unfold set_vm_mm. cbn in *. congruence.
Qed.

Lemma built_create s G fls T kroot p s' G' fls' f :
  tables_ok s T → new_space s G fls T kroot p s' G' fls' f → built f (λ a, p ≤ a < p + 16) [p] s G fls T s' G' fls' (<[(f, 3, 0) := f]> T).
Proof.
  intros Htab [N1 N2 N3 [N4 N4'] N5 N6 N7 N8 N9 [N10 N11] N12]. split; try done.
  - intros b. by rewrite N3, list_elem_of_singleton.
  - by intros b ->%list_elem_of_singleton.
  - intros a [H1 H2] Hx. split; [|by apply N9]. split; [set_solver|]. intros k [[<- E]|[_ HT]]%lookup_insert_Some; [congruence|by apply (H2 k)].
  - split; [apply insert_subseteq; destruct (T !! (f, 3, 0)) as [x|] eqn:E; [|done]|].
    + exfalso. apply (N4' (f, 3, 0)). rewrite E. f_equal. by apply (vt_root _ _ Htab f 0).
    + intros r' l pre g [[[= <- <- <-] <-]|[_ HT]]%lookup_insert_Some; [by right|by left].
Qed.

(** A byte of a block in use. *)
Definition held (G : gmap Z (Z * Z)) (fls : list (list Z)) (a : Z) : Prop :=
  ∃ b c n, live G fls b ∧ G !! b = Some (c, n) ∧ b ≤ a < b - 8 + n.

Lemma held_apart s G fls T kroot p s' G' fls' f a : new_space s G fls T kroot p s' G' fls' f → held G fls a → ¬ (p ≤ a < p + 16).
Proof.
  intros HN (b & c & n & Hl & Hb & Ha) Hin. pose proof (ns_old _ _ _ _ _ _ _ _ _ _ HN b _ Hl Hb) as Hb'.
  pose proof (proj1 (mi_heap _ _ _ _ (ns_inv _ _ _ _ _ _ _ _ _ _ HN))) as Hc.
  destruct (proj2 (ns_live _ _ _ _ _ _ _ _ _ _ HN p) (or_intror eq_refl)) as [[[c' n'] Hp] _].
  destruct (block_min _ _ _ _ _ _ Hc Hp) as [Hn' _]. assert (b ≠ p) as Hne by (intros ->; by apply (ns_new _ _ _ _ _ _ _ _ _ _ HN)).
  destruct (hc_disj _ _ _ Hc _ _ _ _ _ _ Hb' Hp Hne); lia.
Qed.

Lemma new_vspace s G fls T kroot p s' G' fls' f :
  (0 ∉ fa_free (mm_pg s)) → new_space s G fls T kroot p s' G' fls' f → vspace s' G' fls' (<[(f, 3, 0) := f]> T) f.
Proof.
  intros H0 [N1 N2 N3 N4 N5 N6 N7 N8 N9 [N10 N11] N12]. split; [done|apply lookup_insert_eq|set_solver|..]; intros *; rewrite N6; done.
Qed.

Lemma segment_flags m0 data l : ∀ A x g, (∀ y h, A y = Some h → 0 ≤ up_flags h < 4096) →
  foldl (add_segment m0 data) A l x = Some g → 0 ≤ up_flags g < 4096.
Proof.
  assert (∀ ph n va A, (∀ y h, A y = Some h → 0 ≤ up_flags h < 4096) → ∀ y h, add_pages m0 data ph n va A y = Some h → 0 ≤ up_flags h < 4096) as Hpages.
  { intros ph n. induction n as [|n IH]; intros va A HA y h; cbn [add_pages]; [apply HA|]. apply IH. intros z k. unfold uset.
    case_decide; [intros [= <-]; cbn; unfold seg_flags; case_match; lia|apply HA]. }
  induction l as [|ph l IH]; intros A x g HA; cbn [foldl]; [apply HA|]. apply IH. intros y h. unfold add_segment.
  destruct (ph_type ph =? PT_LOAD); [by apply Hpages|apply HA].
Qed.

(** *** What the program sees *)

Fixpoint user_le (n : nat) s (T : gmap (Z * Z * Z) Z) (r p : Z) : option Z :=
  match n with
  | O => Some 0
  | S n' => c ← user_read s T r p; v ← user_le n' s T r (p + 1); Some (c + 256 * v)
  end.

Definition has_string s (T : gmap (Z * Z * Z) Z) (r p : Z) (str : list Z) : Prop :=
  ∀ i c, (str ++ [0]) !! i = Some c → user_read s T r (p + Z.of_nat i) = Some c.

(** argv of a C program at [p]: pointers to the arguments, then NULL. *)
Definition has_argv s (T : gmap (Z * Z * Z) Z) (r p : Z) (args : list (list Z)) : Prop :=
  user_le 8 s T r (p + 8 * Z.of_nat (length args)) = Some 0 ∧
  ∀ i arg, args !! i = Some arg → ∃ q, user_le 8 s T r (p + 8 * Z.of_nat i) = Some q ∧ has_string s T r q arg.

(** The loadable segments of the image that is at [data] in [m0]. *)
Definition has_segments (m0 : mem) (data : Z) s (T : gmap (Z * Z * Z) Z) (r : Z) : Prop :=
  ∀ ph, ph ∈ phdrs m0 data → ph_type ph = PT_LOAD → ∀ i, 0 ≤ i < ph_memsz ph →
    (i < ph_filesz ph → user_read s T r (ph_vaddr ph + i) = Some (load8 m0 (data + ph_offset ph + i))) ∧
    (ph_filesz ph ≤ i → cleared ph i → user_read s T r (ph_vaddr ph + i) = Some 0).

Lemma user_le_load n : ∀ s T r p m a, (∀ i, 0 ≤ i < Z.of_nat n → user_read s T r (p + i) = Some (load8 m (a + i))) →
  user_le n s T r p = Some (load_le n m a).
Proof.
  induction n as [|n IH]; intros s T r p m a H; cbn [user_le load_le]; [done|]. pose proof (H 0 ltac:(lia)) as H0. rewrite !Z.add_0_r in H0. rewrite H0. cbn.
  rewrite (IH s T r (p + 1) m (a + 1)); [done|]. intros i Hi. rewrite <- !Z.add_assoc. apply H. lia.
Qed.

Lemma stack_read s T r A m virt o :
  tables_ok s T → space_is s T r (stack_space m virt A) → 0 ≤ o < 16384 → user_read s T r (stack_base + o) = Some (load8 m (virt + o)).
Proof.
  intros Ht Hsp Ho. assert ((stack_base + o) / 4096 = stack_base / 4096 + o / 4096 ∧ (stack_base + o) mod 4096 = o mod 4096) as [E1 E2].
  { replace (stack_base + o) with (o + stack_base / 4096 * 4096) by (change (stack_base / 4096 * 4096) with stack_base; lia). rewrite Z.div_add, Z_mod_plus_full by lia. split; [lia|done]. }
  pose proof (Z.div_mod o 4096 ltac:(lia)). pose proof (Z.mod_pos_bound o 4096 ltac:(lia)).
  eapply (user_read_page r s T _ _ (mkPage 7 (λ x, Some (load8 m (virt + (o / 4096) * 4096 + x)))) _ Ht Hsp); [|cbn; lia|].
  - unfold stack_space. rewrite E1. rewrite decide_True by (unfold stack_page; lia).
    by replace (stack_base / 4096 + o / 4096 - stack_base / 4096) with (o / 4096) by lia.
  - cbn. rewrite E2. do 2 f_equal. lia.
Qed.

Lemma stack_argv s T r A m virt off args :
  tables_ok s T → space_is s T r (stack_space m virt A) → 0 ≤ off → off + 8 * (Z.of_nat (length args) + 1) ≤ 16384 →
  args_at m virt stack_base off args → has_argv s T r (stack_base + off) args.
Proof.
  intros Ht Hsp Ho Hend [H0 Hargs].
  assert (∀ x, 0 ≤ x → x + 8 ≤ 16384 → user_le 8 s T r (stack_base + x) = Some (load64 m (virt + x))) as Hword.
  { intros x Hx Hx'. apply user_le_load. intros i Hi. rewrite <- !Z.add_assoc. apply (stack_read s T r A m virt); [done|done|lia]. }
  split.
  - rewrite <- Z.add_assoc, Hword by lia. by rewrite Z.add_assoc, H0.
  - intros i arg Hi. destruct (Hargs i arg Hi) as (o & Hp & Hlo & Hhi & Hs). pose proof (lookup_lt_Some _ _ _ Hi). exists (stack_base + o). split.
    + rewrite <- Z.add_assoc, Hword by lia. by rewrite Z.add_assoc, Hp.
    + intros j c Hj. rewrite <- (cstr_lookup _ _ _ _ _ Hs Hj), <- !Z.add_assoc. apply (stack_read s T r A m virt); [done|done|].
      apply lookup_lt_Some in Hj. rewrite length_app in Hj. cbn [length] in Hj. lia.
Qed.

(** A well-formed executable and its arguments in blocks of the heap: the segments
    apart from each other and from the stack, an entry point, and room on the stack
    for the arguments. *)
Record image_pre (v : vm_state P) (G : gmap Z (Z * Z)) (fls : list (list Z)) (T : gmap (Z * Z * Z) Z) (kroot data size : Z)
    (ps : list Z) (args : list (list Z)) : Prop := {
  ip_mm : mm_inv (vm_mm v) G fls T;
  ip_kernel : kernel_addr_space v = space_at kroot ∧ T !! (kroot, 3, 0) = Some kroot;
  ip_zero : 0 ∉ fa_free (mm_pg (vm_mm v));
  ip_image : image_ok (mm_mem (vm_mm v)) data size ∧ segs_apart (mm_mem (vm_mm v)) data;
  ip_entry : eh_entry (ehdr (mm_mem (vm_mm v)) data) ≠ 0;
  ip_stack : ∀ ph x, ph ∈ phdrs (mm_mem (vm_mm v)) data → ph_type ph = PT_LOAD → in_pages ph x → ¬ stack_page x;
  ip_held : ∀ a, data ≤ a < data + size → held G fls a;
  ip_args : Forall2 (cstr (mm_mem (vm_mm v))) ps args;
  ip_strings : Forall2 (λ p (arg : list Z), ∀ i, 0 ≤ i ≤ Z.of_nat (length arg) → held G fls (p + i)) ps args;
  ip_room : 16 ≤ argv_off args;
}.

(** The abstract space of the finished image. *)
Definition image_space (m0 : mem) (data : Z) (m : mem) (virt : Z) : uspace :=
  stack_space m virt (foldl (add_segment m0 data) (λ _, None) (phdrs m0 data)).

(** The space with root [f] of the new program, and what else has changed. *)
Record image_post (v : vm_state P) (G : gmap Z (Z * Z)) (fls : list (list Z)) (T : gmap (Z * Z * Z) Z) (kroot data : Z)
    (args : list (list Z)) (space proc : Z) (v' : vm_state P) (G' : gmap Z (Z * Z)) (fls' : list (list Z)) (T' : gmap (Z * Z * Z) Z) (f : Z) : Prop := {
  io_built : built f (λ a, space ≤ a < space + 16) [space; proc] (vm_mm v) G fls T (vm_mm v') G' fls' T';
  io_space : vspace (vm_mm v') G' fls' T' f ∧ (∀ k, T !! k ≠ Some f) ∧ read_space (mm_mem (vm_mm v')) space = space_at f;
  io_is : ∃ m virt, space_is (vm_mm v') T' f (image_space (mm_mem (vm_mm v)) data m virt) ∧ args_at m virt stack_base (argv_off args) args;
  io_segments : has_segments (mm_mem (vm_mm v)) data (vm_mm v') T' f;
  io_argv : has_argv (vm_mm v') T' f (stack_base + argv_off args) args;
  io_rest : ∀ x, ¬ stack_page x → (∀ ph, ph ∈ phdrs (mm_mem (vm_mm v)) data → ph_type ph = PT_LOAD → ¬ in_pages ph x) →
    pte_of (vm_mm v') T' f x = None;
  io_upper : ∀ i, 256 ≤ i < 512 → load64 (mm_mem (vm_mm v')) (slot f i) = load64 (mm_mem (vm_mm v)) (slot kroot i);
  io_same : v' = set_vm_mm (vm_mm v') v;
  io_blocks : proc ≠ 0 ∧ space ≠ proc;
}.

Lemma held_read (v : vm_state P) G fls T kroot p s' G' fls' f a :
  mm_inv (vm_mm v) G fls T → new_space (vm_mm v) G fls T kroot p s' G' fls' f → held G fls a →
  kept s' (<[(f, 3, 0) := f]> T) a ∧ load8 (mm_mem s') a = load8 (mm_mem (vm_mm v)) a.
Proof.
  intros Hmm HN Ha. apply (bt_kept _ _ _ _ _ _ _ _ _ _ _ (built_create _ _ _ _ _ _ _ _ _ _ (mi_tables _ _ _ _ Hmm) HN)).
  - destruct Ha as (b & c & n & _ & Hb & Hab). apply (held_kept _ _ _ _ b c n a Hmm Hb). lia.
  - by apply (held_apart _ _ _ _ _ _ _ _ _ _ a HN).
Qed.

Lemma image_segments m0 data size s T r m virt :
  tables_ok s T → space_is s T r (image_space m0 data m virt) → image_ok m0 data size → segs_apart m0 data →
  (∀ ph x, ph ∈ phdrs m0 data → ph_type ph = PT_LOAD → in_pages ph x → ¬ stack_page x) →
  has_segments m0 data s T r ∧
  ∀ x, ¬ stack_page x → (∀ ph, ph ∈ phdrs m0 data → ph_type ph = PT_LOAD → ¬ in_pages ph x) → pte_of s T r x = None.
Proof.
  intros Ht Hsp Him Hap Hst. split.
  - intros ph Hph Hty i Hi. destruct (segment_at _ _ _ ph i Him Hap Hph Hty Hi) as (Hin & g & HA & Hfl & Hb1 & Hb2).
    assert (0 ≤ up_flags g < 4096) by (rewrite Hfl; unfold seg_flags; case_match; lia).
    assert (image_space m0 data m virt ((ph_vaddr ph + i) / 4096) = Some g) as HA'
      by (unfold image_space, stack_space; rewrite decide_False; [done|by apply (Hst ph)]).
    split; intros; (eapply user_read_page; [exact Ht|exact Hsp|exact HA'|done|eauto]).
  - intros x Hx Hno. specialize (Hsp x). unfold image_space, stack_space in Hsp. rewrite decide_False in Hsp by done.
    rewrite (foldl_none m0 data size) in Hsp; [done|apply Him|done].
Qed.

Lemma build_image_wp v G fls T kroot data size ps args :
  image_pre v G fls T kroot data size ps args →
  wp (build_image data size ps v) (λ res v', ∃ space proc G' fls' T' f,
    res = inr (eh_entry (ehdr (mm_mem (vm_mm v)) data), space, proc, argv_off args) ∧
    image_post v G fls T kroot data args space proc v' G' fls' T' f).
Proof.
  intros [Hmm [Hk HTk] H0 [Him Hap] Hent Hstk Hheld Hargs Hstrs Hroom]. set (m0 := mm_mem (vm_mm v)) in *. unfold build_image. apply wp_bind.
  apply wp_safe; [by eapply create_user_space_safe|]. intros space v1 Hcr. pose proof (create_space_vm _ _ _ Hcr) as Ev1.
  destruct (create_user_space_spec v G fls T kroot space v1 Hmm Hk HTk Hcr) as (_ & G1 & fls1 & f & HN).
  pose proof (built_create _ _ _ _ _ _ _ _ _ _ (mi_tables _ _ _ _ Hmm) HN) as Hb1. pose proof (new_vspace _ _ _ _ _ _ _ _ _ _ H0 HN) as Hv1.
  pose proof (λ a, held_read v G fls T kroot space (vm_mm v1) G1 fls1 f a Hmm HN) as Hrd. set (T1 := <[(f, 3, 0) := f]> T) in *.
  rewrite bind_gets, (ns_space _ _ _ _ _ _ _ _ _ _ HN). apply wp_bind. apply wp_zoom.
  eapply wp_mono; [apply (elf_load_wp (vm_mm v1) T1 m0 data size f (vm_mm v1) T1 (λ _, None) Him)|].
  { split; [apply Hv1|apply Hv1|apply Hv1| | |intros x; apply (ns_empty _ _ _ _ _ _ _ _ _ _ HN)|apply grows_refl|by destruct Hv1].
    - intros a Ha. destruct (Hrd a (Hheld a Ha)) as [[K1 K2] _]. split; [done|]. intros l pre. apply K2.
    - intros a Ha. apply (Hrd a (Hheld a Ha)). }
  intros res s2 (-> & T2 & Hld). destruct (Z.eqb_spec (eh_entry (ehdr m0 data)) 0) as [?|_]; [done|]. pose proof (loading_vspace _ _ _ _ _ _ _ _ _ _ _ Hv1 Hld) as Hv2.
  pose proof (ld_grows _ _ _ _ _ _ _ _ _ Hld) as Hg2. pose proof (built_trans _ _ _ _ _ _ _ _ _ _ _ _ _ _ _ _ Hb1 (built_grows f (vm_mm v1) G1 fls1 T1 s2 T2 Hg2)) as Hb2.
  rewrite app_nil_r in Hb2. assert (live G1 fls1 space) as Hlsp by (apply (ns_live _ _ _ _ _ _ _ _ _ _ HN); by right).
  assert (∀ a, held G fls a → kept s2 T2 a ∧ load8 (mm_mem s2) a = load8 m0 a) as Hrd2.
  { intros a Ha. apply (bt_kept _ _ _ _ _ _ _ _ _ _ _ Hb2); [|by apply (held_apart _ _ _ _ _ _ _ _ _ _ a HN)].
    destruct Ha as (b & c & n & _ & Hb & Hab). apply (held_kept _ _ _ _ b c n a Hmm Hb). lia. }
  apply wp_bind. apply wp_zoom. cbn [vm_mm set_vm_mm]. eapply wp_mono.
  { apply (build_stack_wp s2 G1 fls1 T2 f _ space ps args Hv2 (ld_space _ _ _ _ _ _ _ _ _ Hld)); [| |done| | |lia].
    - intros x g _. by apply segment_flags.
    - rewrite <- (ns_space _ _ _ _ _ _ _ _ _ _ HN). apply (struct_kept (vm_mm v1) G1 fls1); [apply Hv1|done|].
      intros c n a Hb Ha. apply (gr_mem _ _ _ _ _ Hg2). by apply (block_taken (vm_mm v1) G1 fls1 T1 f space c n a).
    - apply (strings_same (vm_mm v)); [done|]. eapply Forall2_impl; [exact Hstrs|]. intros p arg Hp i Hi. by apply Hrd2, Hp.
    - eapply Forall2_impl; [exact Hstrs|]. intros p arg Hp i Hi. by apply Hrd2, Hp. }
  intros res s3 (proc & g & G3 & fls3 & T3 & -> & Hp0 & Hb3 & Hv3 & Hst3 & Hup3 & Hsp3 & Hat3). cbn [wp ret]. exists space, proc, G3, fls3, T3, f. split; [done|].
  pose proof (mi_tables _ _ _ _ (vp_mm _ _ _ _ _ Hv3)) as Ht3. destruct (image_segments m0 data size s3 T3 f _ _ Ht3 Hsp3 Him Hap Hstk) as [Hseg3 Hrest3].
  split; cbn [vm_mm set_vm_mm]; try done.
  - apply (built_trans _ _ [space] [proc] _ _ _ _ _ _ _ _ _ _ _ _ Hb2 Hb3).
  - split; [done|]. split; [apply HN|done].
  - eexists _, _. split; [exact Hsp3|exact Hat3].
  - pose proof (argv_off_end args). eapply stack_argv; [done|exact Hsp3|lia|lia|done].
  - intros i Hi. rewrite Hup3 by done. rewrite (gr_upper _ _ _ _ _ Hg2 f i) by (done || apply lookup_insert_eq). by apply HN.
  - rewrite Ev1. done.
  - split; [done|]. intros <-. by apply (bt_new _ _ _ _ _ _ _ _ _ _ _ Hb3 space); [left|].
Qed.
End ImageThms.
