(* ===== verification/SpawnThms.v ===== *)
(** * A new process

    While the rest of proc_create runs, the finished image of the program has to
    stay: the kernel heap with an image in the frames beside it is an instance of the
    interface the file system uses, so vfs_resolve is known to keep it. *)

From S2P Require Import Prelude ByteMem FrameAlloc Pmm Heap HeapThms Vmm VmmThms CStr Tar Vfs VfsThms Kbd Fbcon Thread Port Files FilesThms SysMem SysMemThms ElfLoader ElfThms Proc ProcThms Spawn ImageThms.

(** ** The archive is a matter of its bytes *)

Lemma octal_loop_ext n : ∀ m m' p v, (∀ i, 0 ≤ i < Z.of_nat n → load8 m' (p + i) = load8 m (p + i)) → octal_loop n m' p v = octal_loop n m p v.
Proof.
  induction n as [|n IH]; intros m m' p v H; cbn [octal_loop]; [done|]. pose proof (H 0 ltac:(lia)) as H0. rewrite Z.add_0_r in H0. rewrite H0. case_match; [done|].
  apply IH. intros i Hi. rewrite <- !Z.add_assoc. apply H. lia.
Qed.

Lemma archive_ext t m m' hs : ∀ off,
  0 ≤ off → (∀ a, tar_data t ≤ a < tar_data t + tar_size t → load8 m' a = load8 m a) → (∀ h, h ∈ hs → (length (hd_name h) < 256)%nat) →
  archive t m off hs → archive t m' off hs.
Proof.
  induction hs as [|h hs IH]; intros off Ho Hm Hn; cbn [archive].
  - intros [?|H]; [by left|]. destruct (decide (tar_size t < off + 512)); [by left|right]. rewrite Hm by lia. done.
  - intros (H1 & H2 & H3 & H4 & H5 & H6 & H7). pose proof (Hn h ltac:(by left)). unfold HDR_TYPE_FIELD, HDR_SIZE_FIELD in *.
    assert (0 ≤ hd_size h) by (rewrite H6; apply parse_octal_range).
    split_and!; [done|by rewrite Hm by lia|done| | | |].
    + apply (cstr_frame m); [|done]. intros i Hi. apply Hm. lia.
    + by rewrite Hm by lia.
    + rewrite H6. symmetry. apply octal_loop_ext. intros i Hi. apply Hm. lia.
    + apply IH; [|done|intros; apply Hn; by right|done]. unfold after. pose proof (Z.div_pos (hd_size h + 511) 512 ltac:(lia) ltac:(lia)). lia.
Qed.

Section Ambient.
Context {P : Type} `{FA : FrameAllocator P} `{B : Boot}.

(** The page tables, the root of the new space and its struct, what the space
    holds, the translations of all spaces, the kernel's half of the new one, the
    frames whose contents matter and their contents, and the blocks of the heap that
    are not the file system's. *)
Record surroundings := mkSurr {
  su_tables : gmap (Z * Z * Z) Z; su_root : Z; su_struct : Z; su_space : uspace; su_pte : Z → Z → option Z;
  su_upper : Z → Z; su_frames : Z → Prop; su_byte : Z → Z; su_blocks : gset Z }.

Record ambient (e : surroundings) (s : mm_state P) (G : gmap Z (Z * Z)) (fls : list (list Z)) : Prop := {
  am_inv : vspace s G fls (su_tables e) (su_root e);
  am_space : space_is s (su_tables e) (su_root e) (su_space e);
  am_struct : read_space (mm_mem s) (su_struct e) = space_at (su_root e);
  am_pte : ∀ r v, pte_of s (su_tables e) r v = su_pte e r v;
  am_upper : ∀ i, 256 ≤ i < 512 → load64 (mm_mem s) (slot (su_root e) i) = su_upper e i;
  am_frames : ∀ g, su_frames e g → (g ∉ fa_free (mm_pg s)) ∧ ∀ b c n a, G !! b = Some (c, n) → b - 8 ≤ a < b - 8 + n → frame_of a ≠ g;
  am_flags : ∀ x g, su_space e x = Some g → 0 ≤ up_flags g < 4096;
  am_byte : ∀ a, su_frames e (frame_of a) → load8 (mm_mem s) a = su_byte e a;
}.

Lemma ambient_kmalloc e s G fls size p s' :
  ambient e s G fls → live G fls (su_struct e) → 0 < size ≤ 2 ^ 40 → kmalloc size s = Ret (p, s') →
  ∃ G' fls', ambient e s' G' fls' ∧ p ≠ 0 ∧ ¬ live G fls p ∧ (∀ b, live G' fls' b ↔ live G fls b ∨ b = p) ∧ alloc_frame s s' G G'.
Proof.
  intros [A1 A2 A3 A4 A5 A6 A8 A7] Hl Hs Hrun. pose proof (vp_mm _ _ _ _ _ A1) as Hmm.
  destruct (kmalloc_spec s G fls size p s' (mi_heap _ _ _ _ Hmm) Hs Hrun) as (G' & fls' & c & n & Hh & Hb & _ & Hnl & Hlive & Hold & Hfr).
  destruct (vspace_kmalloc _ _ _ _ _ _ _ _ A1 Hh Hfr) as [A1' Hpte]. pose proof (space_is_kmalloc _ _ _ _ _ _ _ _ _ A1 A2 Hh Hfr) as A2'.
  destruct (tables_after_kmalloc _ _ _ _ _ _ _ Hmm Hh Hfr) as (_ & _ & Hsl & _). exists G', fls'.
  split; [|split; [pose proof (block_addr _ _ _ _ _ _ (proj1 Hh) Hb); lia|done]]. pose proof Hfr as [F1 F2 F3 F4]. split; try done.
  - rewrite <- A3. apply (struct_kept s G fls); [apply Hmm|done|]. intros c' n' a Hc Ha. apply F1. by apply (held_kept s G fls (su_tables e) _ c' n' a Hmm Hc).
  - intros r v. by rewrite Hpte.
  - intros i Hi. rewrite <- (A5 i Hi). apply (Hsl (su_root e, 3, 0)); [apply A1|lia].
  - intros g Hg. destruct (A6 g Hg) as [K1 K2]. split; [set_solver|]. intros b c' n' a Hc Ha. destruct (F4 b c' n' a Hc Ha) as [?|Hin]; [by apply (K2 b c' n')|].
    intros <-. done.
  - intros a Ha. rewrite <- (A7 a Ha). by apply F1, A6.
Qed.

Lemma ambient_kfree e s G fls p :
  ambient e s G fls → live G fls (su_struct e) → live G fls p → p ≠ su_struct e →
  ∃ s' G' fls', kfree p s = Ret (tt, s') ∧ ambient e s' G' fls' ∧ ∀ b, live G' fls' b ↔ live G fls b ∧ b ≠ p.
Proof.
  intros [A1 A2 A3 A4 A5 A6 A8 A7] Hl Hp Hne. pose proof (vp_mm _ _ _ _ _ A1) as Hmm.
  destruct (kfree_live s G fls p (mi_heap _ _ _ _ Hmm) Hp) as (s' & Hrun & G' & fls' & Hh & Hlive & Hold & Hbytes & Hfe).
  destruct (vspace_kfree _ _ _ _ _ p _ _ _ A1 (proj1 Hp) Hh Hfe) as [A1' Hpte]. exists s', G', fls'. split; [done|]. split; [|done].
  destruct Hfe as [F1 F2 F3 F4 F5 _]. destruct Hp as [[[c n] Hpb] _].
  assert (∀ g, (g ∉ fa_free (mm_pg s)) → (∀ b c n a, G !! b = Some (c, n) → b - 8 ≤ a < b - 8 + n → frame_of a ≠ g) → g ∉ fa_free (mm_pg s')) as Hfree.
  { intros g Hg Hg' Hin. destruct (F4 g Hin) as [?|(c' & n' & a & Hc & Ha & E)]; [done|]. by apply (Hg' p c' n' a). }
  assert (∀ a, (∀ b c n a', G !! b = Some (c, n) → b - 8 ≤ a' < b - 8 + n → frame_of a' ≠ frame_of a) → load8 (mm_mem s') a = load8 (mm_mem s) a) as Hmem.
  { intros a Ha. apply F3. intros c' n' Hc Hin. by apply (Ha p c' n' a). }
  assert (∀ k b c n a, su_tables e !! k = Some (frame_of a) → G !! b = Some (c, n) → ∀ a', b - 8 ≤ a' < b - 8 + n → frame_of a' ≠ frame_of a) as Htab.
  { intros k b c' n' a HT Hb a' Ha' E. apply (mi_sep _ _ _ _ Hmm b c' n' a' k Hb Ha'). by rewrite E. }
  split; try done.
  - intros x. specialize (A2 x). destruct (su_space e x) as [g|] eqn:Eg; [|by rewrite Hpte]. destruct A2 as (h & E1 & E2 & E3 & E4). exists h. rewrite Hpte, F2.
    assert (∀ b c n a', G !! b = Some (c, n) → b - 8 ≤ a' < b - 8 + n → frame_of a' ≠ h) as Hap.
    { intros b c' n' a' Hb Ha'. pose proof (vp_heap _ _ _ _ _ A1 x _ b c' n' a' E1 Hb Ha') as Hv. pose proof (vt_hhdm _ _ (mi_tables _ _ _ _ Hmm)).
      by rewrite (proj2 (leaf_frame h (up_flags g) ltac:(lia) ltac:(lia) (A8 x g Eg))) in Hv. }
    split; [done|]. split; [done|]. split.
    + intros o Ho. destruct (E3 o Ho) as [S1 S2]. split; [|done]. rewrite frame_page in S1 |- * by done. by apply Hfree.
    + intros o v Ho Hv. rewrite Hmem; [by apply E4|]. intros b c' n' a' Hb Ha'. rewrite frame_page by done. by apply (Hap b c' n').
  - rewrite <- A3. apply (struct_kept s G fls); [apply Hmm|done|]. intros c' n' a Hc Ha. by apply (Hbytes (su_struct e) c' n' a).
  - intros r v. by rewrite Hpte.
  - intros i Hi. rewrite <- (A5 i Hi). apply load_le_ext. intros a Ha. apply Hmem. intros b c' n' a' Hb. apply (Htab (su_root e, 3, 0) b c' n' a); [|done].
    rewrite (slot_frame (su_root e) i a) by lia. apply A1.
  - intros g Hg. destruct (A6 g Hg) as [K1 K2]. split; [by apply Hfree|]. intros b c' n' a Hb. apply (K2 b c' n'). by eapply lookup_weaken.
  - intros a Ha. rewrite <- (A7 a Ha). apply Hmem, A6, Ha.
Qed.

(** Taking free frames for something else and writing into them. *)
Lemma ambient_fresh e s G fls (F : Z → Prop) p' m' :
  ambient e s G fls → live G fls (su_struct e) → (∀ f, F f → f ∈ fa_free (mm_pg s)) → fa_wf p' → fa_count p' = fa_count (mm_pg s) →
  (∀ f, f ∈ fa_free p' ↔ f ∈ fa_free (mm_pg s) ∧ ¬ F f) → (∀ b, ¬ F (frame_of b) → load8 m' b = load8 (mm_mem s) b) →
  ambient e (mkMm p' m' (mm_caches s)) G fls.
Proof.
  intros [A1 A2 A3 A4 A5 A6 A8 A7] Hl HF Hwf Hcnt Hfr Hm. pose proof (vp_mm _ _ _ _ _ A1) as Hmm. pose proof (mi_tables _ _ _ _ Hmm) as Ht.
  destruct (take_fresh _ _ _ _ _ _ _ _ _ F p' m' (loading_start _ _ _ _ _ _ A1 A2) HF Hwf Hcnt Hfr Hm) as [Hld _].
  pose proof (loading_vspace _ _ _ _ _ _ _ _ _ _ _ A1 Hld) as A1'. pose proof (ld_grows _ _ _ _ _ _ _ _ _ Hld) as Hg. set (s1 := mkMm p' m' (mm_caches s)) in *.
  assert (∀ a, (frame_of a ∉ fa_free (mm_pg s)) → load8 m' a = load8 (mm_mem s) a) as Hm' by (intros a Ha; apply Hm; intros Hf; by apply Ha, HF).
  destruct (tables_frame s s1 _ Ht Hwf Hcnt) as (_ & Hpte & _); [apply Hg|intros a k HT; apply Hm'; by destruct (vt_taken _ _ Ht _ _ HT)|].
  split; try done.
  - apply Hld.
  - rewrite <- A3. apply (struct_kept s G fls); [apply Hmm|done|]. intros c n a Hc Ha. apply Hm'. by apply (held_kept s G fls (su_tables e) _ c n a Hmm Hc).
  - intros r v. by rewrite Hpte.
  - intros i Hi. rewrite <- (A5 i Hi). apply (gr_upper _ _ _ _ _ Hg); [apply A1|done].
  - intros g Hgf. destruct (A6 g Hgf) as [K1 K2]. split; [|done]. cbn. rewrite Hfr. tauto.
  - intros a Ha. rewrite <- (A7 a Ha). by apply Hm', A6.
Qed.

(** *** The heap of the file system while an image is under construction *)

Program Definition image_heap (e : surroundings) (He : su_struct e ∈ su_blocks e) : ObjHeap (mm_state P) := {|
  oh_malloc := kmalloc;
  oh_free := kfree;
  oh_rep s L := ∃ G fls, ambient e s G fls ∧ (∀ b, live G fls b ↔ L b ∨ b ∈ su_blocks e) ∧ ∀ b, b ∈ su_blocks e → ¬ L b;
|}.
Next Obligation. done. Qed.
Next Obligation.
  intros e He s L size p s' (G & fls & Ha & HL & HR) Hs Hrun.
  destruct (ambient_kmalloc e s G fls size p s' Ha ltac:(apply HL; by right) Hs Hrun) as (G' & fls' & Ha' & Hp0 & Hnl & Hl & _).
  assert (¬ L p ∧ (p ∉ su_blocks e)) as [HnL HnR] by (rewrite HL in Hnl; tauto).
  split; [done|]. split; [done|]. exists G', fls'. split; [done|]. split; [intros b; rewrite Hl, HL; tauto|].
  intros b Hb [?| ->]; [by apply (HR b)|done].
Qed.
Next Obligation.
  intros e He s L size (G & fls & Ha & _) Hs. eapply kmalloc_safe; [apply (mi_heap _ _ _ _ (vp_mm _ _ _ _ _ (am_inv _ _ _ _ Ha)))|done].
Qed.
Next Obligation. done. Qed.
Next Obligation.
  intros e He s L p (G & fls & Ha & HL & HR) Hp.
  destruct (ambient_kfree e s G fls p Ha) as (s' & G' & fls' & Hrun & Ha' & Hl); [apply HL; by right|apply HL; by left|intros ->; by apply (HR (su_struct e))|].
  exists s'. split; [done|]. exists G', fls'. split; [done|]. split.
  - intros b. rewrite Hl, HL. split; [tauto|]. intros [[??]|Hb]; [tauto|]. split; [by right|]. intros ->. by apply (HR p).
  - intros b Hb [? _]. by apply (HR b).
Qed.
Next Obligation.
  intros e He s L L' (G & fls & Ha & HL & HR) HLL. exists G, fls. split; [done|]. split; [intros b; by rewrite HL, HLL|].
  intros b Hb. rewrite <- HLL. by apply HR.
Qed.

(** *** The thread *)

Lemma push_words_run vs : ∀ (s : mm_state P) sp, ∃ m', push_words sp vs s = Ret (sp - 8 * Z.of_nat (length vs), set_mem m' s) ∧
  ∀ a, ¬ (sp - 8 * Z.of_nat (length vs) ≤ a < sp) → load8 m' a = load8 (mm_mem s) a.
Proof.
  induction vs as [|v vs IH]; intros s sp; cbn [push_words length].
  - exists (mm_mem s). split; [|done]. unfold ret. do 2 f_equal; [lia|by destruct s].
  - unfold wr64, upd_mem. rewrite bind_modify. destruct (IH (set_mem (store64 (mm_mem s) (sp - 8) v) s) (sp - 8)) as (m' & -> & Hm). exists m'. split.
    + do 2 f_equal. lia.
    + intros a Ha. rewrite Hm by lia. cbn [mm_mem set_mem]. unfold store64. by rewrite load8_store_le, decide_False by lia.
Qed.

Lemma k_mm_wp {A} (m : M (mm_state P) A) (k : kernel P) (Q : A → kernel P → Prop) :
  wp (m (vm_mm (k_vm k))) (λ a h, Q a (set_vm (set_vm_mm h (k_vm k)) k)) → wp (k_mm m k) Q.
Proof. intros H. by apply wp_zoom, wp_zoom. Qed.

Lemma alloc_thread_wp e (k : kernel P) G fls msg1 msg2 (frame : Z → list Z) :
  ambient e (vm_mm (k_vm k)) G fls → live G fls (su_struct e) → (∀ t, (length (frame t) ≤ 2048)%nat) →
  wp (alloc_thread msg1 msg2 frame k) (λ r k', ∃ th stack sp h' G' fls', r = (th, stack, sp) ∧ k' = set_vm (set_vm_mm h' (k_vm k)) k ∧
    ambient e h' G' fls' ∧ th ≠ 0 ∧ ¬ live G fls th ∧ (∀ b, live G' fls' b ↔ live G fls b ∨ b = th) ∧
    ∀ a, (frame_of a ∉ fa_free (mm_pg (vm_mm (k_vm k)))) → load8 (mm_mem h') a = load8 (mm_mem (vm_mm (k_vm k))) a).
Proof.
  intros Ha Hl Hlen. unfold alloc_thread, SIZEOF_THREAD, KERNEL_STACK_SIZE. change (4096 * 4) with 16384. apply wp_bind, k_mm_wp.
  apply wp_safe; [eapply kmalloc_safe; [apply (mi_heap _ _ _ _ (vp_mm _ _ _ _ _ (am_inv _ _ _ _ Ha)))|lia]|]. intros th h1 Hmal.
  destruct (ambient_kmalloc e _ G fls 112 th h1 Ha Hl ltac:(lia) Hmal) as (G1 & fls1 & Ha1 & Hth0 & Hnl & Hl1 & Hfr1).
  destruct (Z.eqb_spec th 0) as [?|_]; [done|]. pose proof (vp_mm _ _ _ _ _ (am_inv _ _ _ _ Ha1)) as Hmm1. pose proof (hc_wf _ _ _ (proj1 (mi_heap _ _ _ _ Hmm1))) as Hwf1.
  pose proof (vt_hhdm _ _ (mi_tables _ _ _ _ Hmm1)) as Hh.
  apply wp_bind, k_mm_wp. cbn [vm_mm k_vm set_vm set_vm_mm]. unfold pg. apply wp_zoom. apply wp_safe; [apply fa_alloc_n_safe; [done|lia]|]. intros phys p' Hal.
  destruct (fa_alloc_n_ok (mm_pg h1) 4 _ _ Hwf1 ltac:(lia) Hal) as (f & -> & Hin & Hwf2 & Hcnt2 & Hfr2). destruct (Z.eqb_spec (f * 4096) 0) as [|_]; [done|].
  pose proof (fa_free_bound _ _ Hwf1 (Hin f ltac:(lia))). pose proof (fa_free_bound _ _ Hwf1 (Hin (f + 3) ltac:(lia))).
  rewrite (u64_small (f * 4096 + hhdm_offset)) by lia. set (stack := f * 4096 + hhdm_offset). unfold upd_mem.
  apply wp_bind, k_mm_wp. cbn [vm_mm k_vm set_vm set_vm_mm wp modify mm_mem set_pg]. set (m1 := memset (mm_mem h1) stack 0 16384).
  apply wp_bind, k_mm_wp. cbn [vm_mm k_vm set_vm set_vm_mm].
  destruct (push_words_run (frame (stack + 16384)) (set_mem m1 (set_pg p' h1)) (stack + 16384)) as (m2 & -> & Hm2). specialize (Hlen (stack + 16384)). cbn [wp ret].
  assert (∀ b, ¬ (f ≤ frame_of b < f + 4) → load8 m2 b = load8 (mm_mem h1) b) as Hm.
  { intros b Hb. assert (¬ (stack ≤ b < stack + 16384)) as Hout by (pose proof (frame_page_inv _ b eq_refl); unfold stack; lia).
    rewrite Hm2 by lia. cbn [mm_mem set_mem]. unfold m1. by rewrite load8_memset, decide_False by lia. }
  exists th, stack. do 2 eexists. exists G1, fls1. split; [done|]. split; [done|]. split_and!; [|done|done|done|].
  - apply (ambient_fresh e h1 G1 fls1 (λ g, f ≤ g < f + 4) p' m2 Ha1); try done; apply Hl1; by left.
  - intros a Hfa. cbn [mm_mem set_mem]. rewrite Hm; [by apply Hfr1|]. intros Hr. by apply Hfa, (af_free _ _ _ _ Hfr1), Hin.
Qed.

Lemma thread_create_user_wp e (k : kernel P) G fls addr garbage entry rsp :
  ambient e (vm_mm (k_vm k)) G fls → live G fls (su_struct e) →
  wp (thread_create_user addr garbage entry rsp k) (λ th k', ∃ t h' G' fls' c,
    k' = mkKernel (set_vm_mm h' (k_vm k)) c (k_procs k) ∧ ambient e h' G' fls' ∧ th ≠ 0 ∧ ¬ live G fls th ∧
    (∀ b, live G' fls' b ↔ live G fls b ∨ b = th) ∧
    (∀ a, (frame_of a ∉ fa_free (mm_pg (vm_mm (k_vm k)))) → load8 (mm_mem h') a = load8 (mm_mem (vm_mm (k_vm k))) a) ∧
    threads c = <[th := t]> (threads (k_sched k)) ∧ c = mkSched (threads c) (runqueue_head (k_sched k)) (curr_thread (k_sched k))
      (idle_thread (k_sched k)) (next_thread_id (k_sched k) +64 1) (cpu_kernel_rsp (k_sched k)) (tss_rsp0 (k_sched k)) ∧
    th_state t = THREAD_READY ∧ th_user_entry t = entry ∧ th_user_rsp t = rsp ∧ th_process t = 0 ∧ th_waiting_for t = W64 - 1 ∧ th_sleep_until t = 0).
Proof.
  intros Ha Hl. unfold thread_create_user. apply wp_bind. eapply wp_mono; [apply (alloc_thread_wp e k G fls); [done|done|cbn; lia]|].
  intros r k' (th & stack & sp & h' & G' & fls' & -> & -> & Ha' & Hth0 & Hnl & Hlive & Hmem). unfold install_thread. apply wp_bind, wp_zoom. cbn [wp modify ret].
  do 3 eexists. exists fls'. eexists. split; [reflexivity|]. cbn [threads]. split; [exact Ha'|]. by split_and!.
Qed.

(** ** The descriptors of the new process *)

(** The device directory of drive 1 has a device with the name, for which [n] is made. *)
Definition std_device {H} (s : fs_state H) (name : list Z) (n : fsnode) : Prop :=
  ∃ dr root, vfs_drives s !! 1%nat = Some dr ∧ dr_present dr = true ∧ fs_nodes s !! dr_root dr = Some root ∧
    nd_type root = NODE_DIR ∧ nd_ops root = Some devfs_root_ops ∧
    dev_node ∘ snd <$> list_find (λ e, dv_present e = true ∧ dv_name e = name) (take (Z.to_nat (entry_count s)) (entries s)) = Some n.

Lemma std_target {H} (s : fs_state H) hs path name n :
  parse_path path = Ret (Some (1, 47 :: name)) → components (47 :: name) = [name] → std_device s name n →
  (target s hs path).2 = WNode n.
Proof.
  intros Hp Hc (dr & root & Hd & Hpr & Hr & Hty & Hops & Hf). unfold target. rewrite Hp. change (Z.to_nat 1) with 1%nat. rewrite Hd, Hr, Hpr. cbn [andb].
  change (0 <=? 1) with true. cbn [andb snd]. rewrite Hc. cbn [walk]. rewrite decide_True by done. unfold child. rewrite Hops, Hf. done.
Qed.

(** The same devices, and one node more. *)
Lemma std_device_kept {H H'} (s : fs_state H) (s' : fs_state H') name n p x :
  vfs_drives s' = vfs_drives s → entries s' = entries s → entry_count s' = entry_count s → fs_nodes s' = <[p := x]> (fs_nodes s) →
  fs_nodes s !! p = None → std_device s name n → std_device s' name n.
Proof.
  intros E1 E2 E3 E4 Hp (dr & root & Hd & Hpr & Hr & Hty & Hops & Hf). exists dr, root. rewrite E1, E2, E3, E4. split_and!; try done.
  rewrite lookup_insert_ne by congruence. done.
Qed.

Context (e : surroundings) (He : su_struct e ∈ su_blocks e).
Local Abbreviation img := (image_heap e He).
Implicit Types s : os_state P.

(** The archive lies in frames that stay. *)
Definition archive_safe (s : os_state P) : Prop :=
  let t := fs_tar (sy_fs (os_sys s)) in ∀ a, tar_data t ≤ a < tar_data t + tar_size t → su_frames e (frame_of a).

(** The file system on the memory of the heap; [X] are the blocks of the ports. *)
Record files_ready s (X : gset Z) (hs : list header) : Prop := {
  fr_ok : @files_ok _ img (files_view s) X hs (mkProcess 0 [] 0 0 0 0 [] [] [] 0);
  fr_archive : archive_safe s;
}.

Lemma files_reread (v : sys_state (mm_state P)) X hs proc m :
  @files_ok _ img v X hs proc → (∀ a, tar_data (fs_tar (sy_fs v)) ≤ a < tar_data (fs_tar (sy_fs v)) + tar_size (fs_tar (sy_fs v)) → load8 m a = load8 (fs_mem (sy_fs v)) a) →
  @files_ok _ img (set_fs (set_fs_mem m (sy_fs v)) v) X hs proc.
Proof.
  intros [F1 F2 F3 F4] Hm. split; try done. destruct F1 as [G1 G2 G3 G4 G5 G6 G7 G8 G9 G10]. split; try done.
  cbn. apply (archive_ext _ (fs_mem (sy_fs v))); [lia|done|done|done].
Qed.

(** The bytes of the archive are the same in every heap of the interface. *)
Lemma archive_byte (v : sys_state (mm_state P)) X hs proc a :
  @files_ok _ img v X hs proc → su_frames e (frame_of a) → load8 (mm_mem (fs_heap (sy_fs v))) a = su_byte e a.
Proof. intros [F1 _ _ _] Ha. destruct (fo_heap _ _ _ F1) as (G & fls & Hamb & _). by apply (am_byte _ _ _ _ Hamb). Qed.

Lemma in_files_wp {A} (m : M (sys_state (mm_state P)) A) s X hs (R : A → sys_state (mm_state P) → Prop) :
  files_ready s X hs →
  wp (m (files_view s)) (λ a v, @files_ok _ img v X hs (mkProcess 0 [] 0 0 0 0 [] [] [] 0) ∧
    fs_mem (sy_fs v) = mm_mem (os_heap s) ∧ fs_tar (sy_fs v) = fs_tar (sy_fs (os_sys s)) ∧ R a v) →
  wp (in_files m s) (λ a s', files_ready s' X hs ∧ ∃ v, s' = put_heap v s ∧ R a v).
Proof.
  intros [Hok Hsafe] Hm. apply wp_zoom. eapply wp_mono; [exact Hm|]. intros a v (Hok' & Hmem & Htar & HR). split; [|eauto]. split.
  - assert (files_view (put_heap v s) = set_fs (set_fs_mem (mm_mem (fs_heap (sy_fs v))) (sy_fs v)) v) as -> by done.
    apply files_reread; [done|]. intros b Hb. rewrite Htar in Hb. rewrite (archive_byte v X hs _ b Hok' (Hsafe b Hb)), Hmem.
    symmetry. apply (archive_byte _ X hs _ b Hok (Hsafe b Hb)).
  - unfold archive_safe. cbn. by rewrite Htar.
Qed.

(** The state with other files, nodes and heap. *)
Definition files_to (h : mm_state P) (N : gmap Z fsnode) (F : gmap Z file) s : os_state P :=
  set_sys (set_files F (set_fs (set_nodes N (set_fs_heap h (sy_fs (os_sys s)))) (os_sys s))) s.

Lemma resolve_std_wp s X hs path name n :
  files_ready s X hs → parse_path path = Ret (Some (1, 47 :: name)) → components (47 :: name) = [name] → (∀ x, x ∈ path → 0 < x) →
  std_device (sy_fs (os_sys s)) name n →
  wp (in_files (in_fs (vfs_resolve path)) s) (λ nd s', files_ready s' X hs ∧ nd ≠ 0 ∧ os_nodes s !! nd = None ∧
    ∃ h, s' = files_to h (<[nd := n]> (os_nodes s)) (os_files s) s).
Proof.
  intros Hr Hp Hc Hpos Hdev. pose proof (fr_ok _ _ _ Hr) as Hok. set (fs := sy_fs (files_view s)).
  assert ((target fs hs path).2 = WNode n) as Ht by (apply (std_target fs hs path name n Hp Hc); exact Hdev).
  assert (wp (in_fs (vfs_resolve path) (files_view s)) (λ nd v, @files_ok _ img v X hs (mkProcess 0 [] 0 0 0 0 [] [] [] 0) ∧
    fs_mem (sy_fs v) = mm_mem (os_heap s) ∧ fs_tar (sy_fs v) = fs_tar (sy_fs (os_sys s)) ∧
    (nd ≠ 0 ∧ os_nodes s !! nd = None ∧ ∃ h, v = set_fs (set_nodes (<[nd := n]> (os_nodes s)) (set_fs_heap h fs)) (files_view s)))) as Hw.
  { apply wp_zoom. eapply wp_mono; [apply (@vfs_resolve_wp _ img fs (X ∪ dom (os_files s)) hs path (fi_fs _ _ _ _ Hok) Hpos); by rewrite Hp|].
    intros nd fs1 [Hok1 Hres]. rewrite Ht in Hres. destruct Hres as (Hnd & Hfresh & Efs). cbn [sy_fs set_fs].
    split; [destruct Hok; by split|]. rewrite Efs. split_and!; try done. by eexists. }
  eapply wp_mono; [apply (in_files_wp _ s X hs _ Hr Hw)|]. intros nd s' (Hr' & v & -> & Hnd & Hfresh & h & ->). split_and!; try done.
  exists h. by destruct s as [[[] ? ? ? ? ? ?] ? ? ? ? ? ? ? ? ?].
Qed.

Lemma new_std_wp s X hs fl :
  files_ready s X hs →
  wp (in_files (new_file fl) s) (λ f s', files_ready s' X hs ∧ f ≠ 0 ∧ os_files s !! f = None ∧ (f ∉ X) ∧
    ∃ h, s' = files_to h (os_nodes s) (<[f := fl]> (os_files s)) s).
Proof.
  intros Hr. pose proof (fr_ok _ _ _ Hr) as Hok.
  assert (wp (new_file fl (files_view s)) (λ f v, @files_ok _ img v X hs (mkProcess 0 [] 0 0 0 0 [] [] [] 0) ∧
    fs_mem (sy_fs v) = mm_mem (os_heap s) ∧ fs_tar (sy_fs v) = fs_tar (sy_fs (os_sys s)) ∧
    (f ≠ 0 ∧ os_files s !! f = None ∧ (f ∉ X) ∧ ∃ h, v = set_files (<[f := fl]> (os_files s)) (set_fs (set_fs_heap h (sy_fs (files_view s))) (files_view s))))) as Hw.
  { eapply wp_mono; [apply (@new_file_wp _ img _ X hs _ fl Hok)|]. intros f v (Hf0 & Hfn & Ev & Hfs & Hd).
    assert (f ∉ X) as HfX by (rewrite Ev in Hd; cbn in Hd; rewrite dom_insert_L in Hd; set_solver).
    split; [split; [exact Hfs|exact Hd| |]|].
    - rewrite Ev. cbn. rewrite lookup_insert_ne by done. apply (fi_null _ _ _ _ Hok).
    - intros j g Hj. cbn [p_fds] in Hj. by rewrite lookup_nil in Hj.
    - rewrite Ev. split_and!; try done. by eexists. }
  eapply wp_mono; [apply (in_files_wp _ s X hs _ Hr Hw)|]. intros f s' (Hr' & v & -> & Hf0 & Hfn & HfX & h & ->). split_and!; try done.
  exists h. by destruct s as [[[] ? ? ? ? ? ?] ? ? ? ? ? ? ? ? ?].
Qed.

Definition procs_to (pr : gmap Z process) s : os_state P := set_sys (set_procs pr (os_sys s)) s.

Lemma files_ready_procs pr s X hs : files_ready s X hs → files_ready (procs_to pr s) X hs.
Proof. intros [[F1 F2 F3 F4] H2]. split; [by split|done]. Qed.

Lemma put_proc_run s p x : in_sys (put_proc p x) s = Ret (tt, procs_to (<[p := x]> (os_procs s)) s).
Proof. done. Qed.

(** One of the two descriptors. *)
Lemma open_std_wp s X hs proc pr i path name n flags :
  files_ready s X hs → parse_path path = Ret (Some (1, 47 :: name)) → components (47 :: name) = [name] → (∀ x, x ∈ path → 0 < x) →
  std_device (sy_fs (os_sys s)) name n → os_procs s !! proc = Some pr →
  wp (open_std proc i path flags s) (λ _ s', files_ready s' X hs ∧ ∃ nd f h, nd ≠ 0 ∧ os_nodes s !! nd = None ∧ f ≠ 0 ∧ os_files s !! f = None ∧ (f ∉ X) ∧
    s' = procs_to (<[proc := with_fds (<[i := f]> (p_fds pr)) pr]> (os_procs s)) (files_to h (<[nd := n]> (os_nodes s)) (<[f := mkFile nd 0 flags]> (os_files s)) s)).
Proof.
  intros Hr Hp Hc Hpos Hdev Hpr. unfold open_std. apply wp_bind. eapply wp_mono; [by apply (resolve_std_wp s X hs path name n)|].
  intros nd s1 (Hr1 & Hnd & Hfresh & h1 & ->). destruct (Z.eqb_spec nd 0) as [?|_]; [done|]. apply wp_bind. eapply wp_mono; [by apply new_std_wp|].
  intros f s2 (Hr2 & Hf0 & Hfn & HfX & h2 & ->). set (s2 := files_to h2 _ _ _) in *.
  rewrite (bind_Ret _ _ _ _ _ (os_get_proc s2 proc pr Hpr)), put_proc_run. cbn [wp]. split; [by apply files_ready_procs|].
  exists nd, f, h2. split_and!; try done.
Qed.

(** The struct of a new process, with its descriptors, at the head of the list. *)
Definition new_process (pid space thread : Z) (name cwd : list Z) (fd0 fd1 next : Z) : process :=
  mkProcess pid (take 63 name) space thread 0x10000000 0 (fd0 :: fd1 :: replicate 62 0) (replicate 64 0)
    (take 255 match cwd with [] => chars "0:/" | _ => cwd end) next.

Lemma fill_process_wp s X hs proc pid space thread name cwd n0 n1 :
  files_ready s X hs → std_device (sy_fs (os_sys s)) (chars "stdin") n0 → std_device (sy_fs (os_sys s)) (chars "stdout") n1 →
  wp (fill_process proc pid space thread name cwd s) (λ _ s', files_ready s' X hs ∧ ∃ nd0 nd1 fd0 fd1 h,
    nd0 ≠ 0 ∧ nd1 ≠ 0 ∧ nd0 ≠ nd1 ∧ os_nodes s !! nd0 = None ∧ os_nodes s !! nd1 = None ∧
    fd0 ≠ 0 ∧ fd1 ≠ 0 ∧ fd0 ≠ fd1 ∧ os_files s !! fd0 = None ∧ os_files s !! fd1 = None ∧
    s' = set_proc_list proc (procs_to (<[proc := new_process pid space thread name cwd fd0 fd1 (proc_list s)]> (os_procs s))
      (files_to h (<[nd1 := n1]> (<[nd0 := n0]> (os_nodes s))) (<[fd1 := mkFile nd1 0 VFS_WRITE]> (<[fd0 := mkFile nd0 0 VFS_READ]> (os_files s))) s))).
Proof.
  intros Hr Hd0 Hd1. unfold fill_process. cbv zeta. set (p0 := mkProcess pid _ _ _ _ _ _ _ _ _). rewrite (bind_Ret _ _ _ _ _ (put_proc_run s proc p0)). set (s0 := procs_to _ s).
  assert (os_procs s0 !! proc = Some p0) as Hp0 by apply lookup_insert_eq. pose proof (files_ready_procs (<[proc := p0]> (os_procs s)) s X hs Hr) as Hr0. fold s0 in Hr0.
  apply wp_bind. eapply wp_mono; [apply (open_std_wp s0 X hs proc p0 0 (chars "1:/stdin") (chars "stdin") n0 VFS_READ Hr0)|]; try done.
  { apply Forall_forall. repeat constructor. }
  intros [] s1 (Hr1 & nd0 & fd0 & h0 & Hnd0 & Hfr0 & Hfd0 & Hff0 & _ & Es1). set (p1 := with_fds (<[0%nat := fd0]> (p_fds p0)) p0) in *.
  assert (os_procs s1 !! proc = Some p1) as Hp1 by (rewrite Es1; apply lookup_insert_eq).
  apply wp_bind. eapply wp_mono; [apply (open_std_wp s1 X hs proc p1 1 (chars "1:/stdout") (chars "stdout") n1 VFS_WRITE Hr1)|]; try done.
  { apply Forall_forall. repeat constructor. }
  { rewrite Es1. by apply (std_device_kept (sy_fs (os_sys s)) _ _ _ nd0 n0). }
  intros [] s2 (Hr2 & nd1 & fd1 & h1 & Hnd1 & Hfr1 & Hfd1 & Hff1 & _ & Es2). set (p2 := with_fds (<[1%nat := fd1]> (p_fds p1)) p1) in *.
  assert (os_procs s2 !! proc = Some p2) as Hp2 by (rewrite Es2; apply lookup_insert_eq).
  rewrite (bind_Ret _ _ _ _ _ (os_get_proc s2 proc p2 Hp2)), (bind_Ret _ _ _ _ _ (put_proc_run s2 proc _)). set (p3 := with_ports _ p2). set (s3 := procs_to _ s2).
  assert (os_procs s3 !! proc = Some p3) as Hp3 by apply lookup_insert_eq. rewrite bind_gets.
  rewrite (bind_Ret _ _ _ _ _ (os_get_proc s3 proc p3 Hp3)), (bind_Ret _ _ _ _ _ (put_proc_run s3 proc _)). cbn [wp modify]. split.
  { destruct (files_ready_procs (<[proc := with_pnext (proc_list s3) p3]> (os_procs s3)) s3 X hs (files_ready_procs _ _ _ _ Hr2)) as [F1 F2]. by split. }
  exists nd0, nd1, fd0, fd1, h1.
  rewrite Es1 in Hfr1, Hff1. change (<[nd0 := n0]> (os_nodes s) !! nd1 = None) in Hfr1.
  change (<[fd0 := mkFile nd0 0 VFS_READ]> (os_files s) !! fd1 = None) in Hff1.
  apply lookup_insert_None in Hfr1 as [Hfr1 Hne], Hff1 as [Hff1 Hne']. split_and!; try done.
  unfold s3. rewrite Es2, Es1. unfold s0, procs_to, files_to. cbn. by rewrite !insert_insert_eq.
Qed.
End Ambient.
