(* ===== verification/CreateThms.v ===== *)
(** * proc_create as a whole

    From an executable and its arguments in kernel memory to a process that can be
    scheduled: the address space with segments and argv, the thread at the end of the
    run queue, the struct at the head of the process list, the descriptors of the
    console; everything else stays as it is, and the invariants of all components hold
    again. *)

From S2P Require Import Prelude ByteMem FrameAlloc Pmm Heap HeapThms Vmm VmmThms CStr Tar Vfs VfsThms Kbd Fbcon Thread Port Files FilesThms SysMem SysMemThms ElfLoader ElfThms Proc ProcThms Spawn ImageThms SpawnThms.

Section Create.
Context {P : Type} `{FA : FrameAllocator P} `{B : Boot}.
Implicit Types s : machine P.
Implicit Types o : os_state P.

(** ** From the image to its surroundings *)

(** A frame in use that is no page table and holds no part of the heap. *)
Definition private (h : mm_state P) (G : gmap Z (Z * Z)) (T : gmap (Z * Z * Z) Z) (g : Z) : Prop :=
  (g ∉ fa_free (mm_pg h)) ∧ (∀ k, T !! k ≠ Some g) ∧ ∀ b c n a, G !! b = Some (c, n) → b - 8 ≤ a < b - 8 + n → frame_of a ≠ g.

Definition around (v : vm_state P) (G : gmap Z (Z * Z)) (T : gmap (Z * Z * Z) Z) (kroot : Z) (v' : vm_state P) (T' : gmap (Z * Z * Z) Z)
    (f space : Z) (A : uspace) (R : gset Z) : surroundings :=
  mkSurr T' f space A (λ r x, pte_of (vm_mm v') T' r x) (λ i, load64 (mm_mem (vm_mm v)) (slot kroot i))
    (private (vm_mm v) G T) (λ a, load8 (mm_mem (vm_mm v)) a) R.

Lemma image_ambient v G fls T kroot data args space proc v' G' fls' T' f A R :
  image_post v G fls T kroot data args space proc v' G' fls' T' f → space_is (vm_mm v') T' f A → (∀ x g, A x = Some g → 0 ≤ up_flags g < 4096) →
  ambient (around v G T kroot v' T' f space A R) (vm_mm v') G' fls'.
Proof.
  intros [Hb (Hv & Hnew & Hst) _ _ _ _ Hup _ _] Hsp Hfl. split; try done; cbn [around su_frames su_byte].
  - intros g (H1 & H2 & H3). split; [intros Hin; by apply H1, (bt_free _ _ _ _ _ _ _ _ _ _ _ Hb)|].
    intros b c n a Hc Ha. destruct (bt_blocks _ _ _ _ _ _ _ _ _ _ _ Hb b c n a Hc Ha) as [?|Hin]; [by apply (H3 b c n)|]. by intros <-.
  - intros a (H1 & H2 & H3). apply (bt_kept _ _ _ _ _ _ _ _ _ _ _ Hb); [by split|]. intros Ha.
    destruct (proj2 (bt_live _ _ _ _ _ _ _ _ _ _ _ Hb space)) as [[[c n] Hc] _]; [right; by left|].
    destruct (block_min _ _ _ _ _ _ (proj1 (mi_heap _ _ _ _ (vp_mm _ _ _ _ _ Hv))) Hc) as [Hn _].
    destruct (bt_blocks _ _ _ _ _ _ _ _ _ _ _ Hb space c n a Hc ltac:(lia)) as [Hc'|Hin]; [|done]. by apply (H3 space c n a Hc' ltac:(lia)).
Qed.

(** What the program sees does not depend on the rest of memory. *)
Lemma image_stays e h G fls m0 data size m virt args :
  ambient e h G fls → su_space e = image_space m0 data m virt → args_at m virt stack_base (argv_off args) args → 16 ≤ argv_off args →
  image_ok m0 data size → segs_apart m0 data →
  (∀ ph x, ph ∈ phdrs m0 data → ph_type ph = PT_LOAD → in_pages ph x → ¬ stack_page x) →
  has_segments m0 data h (su_tables e) (su_root e) ∧ has_argv h (su_tables e) (su_root e) (stack_base + argv_off args) args.
Proof.
  intros [A1 A2 A3 A4 A5 A6 A8 A7] Es Hat Hroom Him Hap Hstk. rewrite Es in A2. pose proof (mi_tables _ _ _ _ (vp_mm _ _ _ _ _ A1)) as Ht.
  pose proof (argv_off_end args). split; [by apply (image_segments m0 data size _ _ _ m virt)|]. eapply stack_argv; [done|exact A2|lia|lia|done].
Qed.

(** ** The scheduler *)

(** A thread that is new to the table. *)
Lemma ring_insert (c c' : sched) l th t :
  ring c l → threads c !! th = None → threads c' = <[th := t]> (threads c) → runqueue_head c' = runqueue_head c → ring c' l.
Proof.
  intros Hr Hth Et Eh. assert (th ∉ l) as Hn by (intros Hin; destruct (ring_dom _ _ _ Hr Hin) as [_ [x Hx]]; congruence).
  unfold ring in *. rewrite Et, Eh. destruct Hr as [?|(H1 & H2 & H3)]; [by left|right]. split; [done|]. split; [done|].
  eapply chain_frame; [|exact H3]. intros x Hx. rewrite lookup_insert_ne by (intros ->; done). done.
Qed.

(** The thread gets its process and goes to the end of the queue. *)
Lemma enqueue_run (c : sched) l th t proc :
  ring c l → th ≠ 0 → th ∉ l → threads c !! th = Some t → th_state t = THREAD_READY →
  ∃ c', upd_thread th (with_process proc) c = Ret (tt, set_threads (<[th := with_process proc t]> (threads c)) c) ∧
    runqueue_push th (set_threads (<[th := with_process proc t]> (threads c)) c) = Ret (tt, c') ∧
    ring c' (l ++ [th]) ∧ same_core (<[th := with_process proc t]> (threads c)) (threads c') ∧
    c' = set_head (runqueue_head c') (set_threads (threads c') c).
Proof.
  intros Hr Hth0 Hth Ht Hrdy. set (c1 := set_threads (<[th := with_process proc t]> (threads c)) c).
  assert (ring c1 l) as Hr1 by (by apply (ring_same_next c l th t)).
  destruct (runqueue_push_spec c1 l th (with_process proc t) Hr1 Hth0 Hth (lookup_insert_eq _ _ _)) as (c' & Hrun & Hr' & Hsc & Ec).
  exists c'. split; [by rewrite (upd_thread_run _ _ _ _ Ht)|]. split; [done|]. split; [done|]. split; [|rewrite Ec at 1; done].
  replace (<[th := with_process proc t]> (threads c)) with (<[th := with_state THREAD_READY (with_process proc t)]> (threads c1)); [done|].
  cbn [c1 set_threads threads]. rewrite insert_insert_eq. f_equal. unfold with_state, with_process. cbn. by rewrite Hrdy.
Qed.

(** ** The statement *)

Definition port_blocks o : gset Z := dom (os_ports o) ∪ dom (os_msgs o) ∪ dom (os_bufs o).

(** An executable and its arguments on the heap of a kernel in order, with the
    console's devices registered; [X] are the blocks that are neither the file
    system's nor the ports': threads, processes, spaces, regions and buffers. *)
Record spawn_pre s (G : gmap Z (Z * Z)) (fls : list (list Z)) (T : gmap (Z * Z * Z) Z) (kroot : Z) (l : list Z) (X : gset Z)
    (Q C : gmap Z (list Z)) (hs : list header) (data size : Z) (ps : list Z) (args : list (list Z)) (n0 n1 : fsnode) : Prop := {
  sp_image : image_pre (k_vm (kernel_view (mc_os s))) G fls T kroot data size ps args;
  sp_sched : sched_ok (kernel_view (mc_os s)) l;
  sp_os : os_ok (mc_os s) X Q C;
  sp_live : ∀ b, live G fls b ↔ b ∈ X ∪ fs_blocks (mc_os s) ∪ port_blocks (mc_os s);
  sp_known : dom (threads (os_sched (mc_os s))) ⊆ X ∧ dom (os_procs (mc_os s)) ⊆ X;
  sp_files : fs_ok (sy_fs (files_view (mc_os s))) (X ∪ port_blocks (mc_os s) ∪ dom (os_files (mc_os s))) hs ∧ os_files (mc_os s) !! 0 = None;
  sp_archive : let t := fs_tar (sy_fs (os_sys (mc_os s))) in
    ∀ a, tar_data t ≤ a < tar_data t + tar_size t → private (os_heap (mc_os s)) G T (frame_of a);
  sp_std : std_device (sy_fs (os_sys (mc_os s))) (chars "stdin") n0 ∧ std_device (sy_fs (os_sys (mc_os s))) (chars "stdout") n1;
}.

(** The new process with its thread, descriptors and memory. *)
Record started s (G : gmap Z (Z * Z)) (T : gmap (Z * Z * Z) Z) (kroot : Z) (l : list Z) (X : gset Z) (Q C : gmap Z (list Z))
    (data : Z) (args : list (list Z)) (cwd : list Z) (n0 n1 : fsnode) s' (space proc th fd0 fd1 nd0 nd1 : Z) : Prop := {
  sd_procs : os_procs (mc_os s) !! proc = None ∧ proc_list (mc_os s') = proc ∧ os_procs (mc_os s') =
    <[proc := new_process (next_proc_id s) space th match args with [] => chars "unknown" | a :: _ => a end cwd fd0 fd1 (proc_list (mc_os s))]>
      (os_procs (mc_os s));
  sd_thread : ∃ t, threads (os_sched (mc_os s')) !! th = Some t ∧ th_state t = THREAD_READY ∧
    th_user_entry t = eh_entry (ehdr (mc_mem s) data) ∧ th_user_rsp t = stack_base + argv_off args - 16 ∧
    th_user_argc t = Z.of_nat (length args) ∧ th_user_argv t = stack_base + argv_off args ∧ th_process t = proc;
  sd_sched : sched_ok (kernel_view (mc_os s')) (l ++ [th]) ∧ curr_thread (os_sched (mc_os s')) = curr_thread (os_sched (mc_os s)) ∧
    threads (os_sched (mc_os s)) !! th = None ∧
    ∀ x, x ≠ th → core <$> threads (os_sched (mc_os s')) !! x = core <$> threads (os_sched (mc_os s)) !! x;
  sd_files : os_nodes (mc_os s') = <[nd1 := n1]> (<[nd0 := n0]> (os_nodes (mc_os s))) ∧
    os_files (mc_os s') = <[fd1 := mkFile nd1 0 VFS_WRITE]> (<[fd0 := mkFile nd0 0 VFS_READ]> (os_files (mc_os s))) ∧
    os_files (mc_os s) !! fd0 = None ∧ os_files (mc_os s) !! fd1 = None ∧ os_nodes (mc_os s) !! nd0 = None ∧ os_nodes (mc_os s) !! nd1 = None;
  sd_image : ∃ f T' G' fls', vspace (os_heap (mc_os s')) G' fls' T' f ∧ live G' fls' space ∧ read_space (mc_mem s') space = space_at f ∧
    has_segments (mc_mem s) data (os_heap (mc_os s')) T' f ∧ has_argv (os_heap (mc_os s')) T' f (stack_base + argv_off args) args ∧
    (∀ i, 256 ≤ i < 512 → load64 (mc_mem s') (slot f i) = load64 (mc_mem s) (slot kroot i)) ∧
    (∀ r v, r ≠ f → pte_of (os_heap (mc_os s')) T' r v = pte_of (os_heap (mc_os s)) T r v);
  sd_memory : ∀ a, private (os_heap (mc_os s)) G T (frame_of a) → load8 (mc_mem s') a = load8 (mc_mem s) a;
  sd_ok : os_ok (mc_os s') (X ∪ {[space; proc; th]}) Q C;
  sd_proc : ∀ pr, os_procs (mc_os s') !! proc = Some pr → proc_ok (mc_os s') proc pr;
}.

(** ** The file system before and after *)

Lemma files_start e (He : su_struct e ∈ su_blocks e) o o3 h G3 fls3 (X bs : gset Z) hs :
  fs_ok (sy_fs (files_view o)) (X ∪ port_blocks o ∪ dom (os_files o)) hs → os_files o !! 0 = None →
  X ## dom (os_files o) → X ## dom (os_nodes o) → port_blocks o ## X ∪ fs_blocks o →
  ambient e h G3 fls3 → su_blocks e = X ∪ bs → (∀ b, live G3 fls3 b ↔ b ∈ X ∪ fs_blocks o ∪ port_blocks o ∪ bs) → bs ## X ∪ fs_blocks o ∪ port_blocks o →
  (let t := fs_tar (sy_fs (os_sys o)) in ∀ a, tar_data t ≤ a < tar_data t + tar_size t → su_frames e (frame_of a) ∧ su_byte e a = load8 (mm_mem (os_heap o)) a) →
  sy_fs (os_sys o3) = set_fs_heap h (sy_fs (os_sys o)) → sy_files (os_sys o3) = os_files o →
  files_ready e He o3 (port_blocks o) hs.
Proof.
  intros [G1 G2 G3' G4 G5 G6 G7 G8 G9 G10] Hf0 Hd1 Hd2 Hd3 Ha HR Hl Hbs Har Efs Ef. unfold fs_blocks in *.
  assert (sy_fs (files_view o3) = set_fs_mem (mm_mem h) (set_fs_heap h (sy_fs (os_sys o)))) as Ev by (unfold files_view, os_heap; cbn; by rewrite Efs).
  split; [|unfold archive_safe; rewrite Efs; intros a Hin; apply (Har a Hin)].
  split; cbn [files_view set_fs sy_files p_fds]; rewrite ?Ef; [|set_solver|done|intros j g Hj; by rewrite lookup_nil in Hj].
  change (sy_fs (set_fs _ (os_sys o3))) with (sy_fs (files_view o3)). rewrite Ev. split; cbn [set_fs_mem set_fs_heap fs_heap fs_nodes fs_tar fs_mem entries entry_count vfs_drives]; try done.
  - exists G3, fls3. split; [done|]. fold (os_nodes o). split; [intros b; rewrite Hl, HR; set_solver|intros b; rewrite HR; set_solver].
  - change (fs_nodes (sy_fs (files_view o))) with (os_nodes o) in G2. change (fs_nodes (sy_fs (os_sys o))) with (os_nodes o). set_solver.
  - apply (archive_ext _ (mm_mem (os_heap o))); [lia| |done|done]. intros a Hin. destruct (Har a Hin) as [H1 H2].
    by rewrite (am_byte _ _ _ _ Ha a H1).
Qed.

Lemma blocks_apart (Y PB F N S : gset Z) :
  S ⊆ PB → (∀ b, b ∈ Y → ¬ (b ∈ PB ∪ F ∪ N)) → PB ## F → PB ∪ F ## N → Y ∪ (F ∪ N) ## S.
Proof. intros HS HY H1 H2 b Hb Hs. apply HS in Hs. set_solver. Qed.

(** The blocks [bs] more, and the nodes and files of the result. *)
Lemma os_ok_more e (He : su_struct e ∈ su_blocks e) o o' X bs Q C hs :
  os_ok o X Q C → files_ready e He o' (port_blocks o) hs → su_blocks e = X ∪ bs → (0 ∉ bs) →
  os_ports o' = os_ports o → os_msgs o' = os_msgs o → os_bufs o' = os_bufs o → os_table o' = os_table o → os_table_count o' = os_table_count o →
  (∀ p x, os_procs o !! p = Some x → os_procs o' !! p = Some x) → (∀ x, is_Some (threads (os_sched o) !! x) → is_Some (threads (os_sched o') !! x)) →
  os_ok o' (X ∪ bs) Q C.
Proof.
  intros [Hp Ht Hk (Hd1 & Hd2 & Hd3)] [[F1 F2 F3 _] _] HR H0 E1 E2 E3 E4 E5 Hpr Hth. destruct (fo_heap _ _ _ F1) as (G & fls & Ha & Hl & HRL).
  pose proof (fo_disj _ _ _ F1) as Hfd. pose proof (fo_null _ _ _ F1) as Hfn.
  change (sy_files (files_view o')) with (os_files o') in *. change (fs_nodes (sy_fs (files_view o'))) with (os_nodes o') in *.
  assert (0 ∉ dom (os_files o') ∪ dom (os_nodes o')) as H0' by (rewrite elem_of_union, !elem_of_dom, F3, Hfn; intros [[? ?]|[? ?]]; done).
  rewrite HR in HRL, Hl. split.
  - destruct Hp as [P1 P2 P3 P4 P5 P6 P7 P8 P9 P10].
    split; cbn [ports_view ps_heap ps_ports ps_msgs ps_bufs ps_procs ps_sched] in *; rewrite ?E1, ?E2, ?E3; try done; unfold fs_blocks in *.
    + exists G, fls. split; [apply (mi_heap _ _ _ _ (vp_mm _ _ _ _ _ (am_inv _ _ _ _ Ha)))|]. intros b. rewrite Hl. clear. unfold port_blocks. set_solver.
    + destruct P2 as (_ & _ & _ & M1 & M2 & M3). split_and!; try done; apply (blocks_apart _ (port_blocks o)); try done; clear; unfold port_blocks; set_solver.
    + clear -P3 H0 H0'. set_solver.
    + intros q pt Hq. destruct (P10 q pt Hq) as (x & Hx & Hxt). exists x. split; [by apply Hpr|by apply Hth].
  - destruct Ht as [T1 T2 T3 T4]. split; cbn [ports_view port_table port_table_count ps_ports] in *; rewrite ?E4, ?E5, ?E1; done.
  - unfold tokens_unique. cbn [ports_view ps_ports]. rewrite E1. exact Hk.
  - clear -HRL Hfd. set_solver.
Qed.

(** ** The run *)

Context (addr : Z) (garbage : Z → Z).

(** The machine with another heap and scheduler. *)
Definition with_kernel (h : mm_state P) (c : sched) (n : Z) s : machine P :=
  mkMachine (put_kernel (mkKernel (set_vm_mm h (k_vm (kernel_view (mc_os s)))) c (os_procs (mc_os s))) (mc_os s)) n (mc_regions s).

Lemma on_kernel_wp {A} (m : M (kernel P) A) s h c n (Q : A → machine P → Prop) :
  wp (m (mkKernel (set_vm_mm h (k_vm (kernel_view (mc_os s)))) c (os_procs (mc_os s))))
    (λ a k, ∃ h' c', k = mkKernel (set_vm_mm h' (k_vm (kernel_view (mc_os s)))) c' (os_procs (mc_os s)) ∧ Q a (with_kernel h' c' n s)) →
  wp (on_os (in_kernel m) (with_kernel h c n s)) Q.
Proof.
  intros H. apply wp_zoom, wp_zoom. eapply wp_mono; [exact H|]. intros a k (h' & c' & -> & HQ).
  by destruct s as [[[[] ? ? ? ? ? ?] ? ? ? ? ? ? ? ? ?] ? ?].
Qed.

Lemma on_sched_mc {A} (m : M sched A) s h c n a c' : m c = Ret (a, c') →
  on_os (on_sched m) (with_kernel h c n s) = Ret (a, with_kernel h c' n s).
Proof.
  intros H. unfold on_os, on_sched, in_kernel, in_sched, zoom. cbn [mc_os with_kernel kernel_view put_kernel set_core os_sys os_sched sy_sched k_sched]. rewrite H.
  by destruct s as [[[[] ? ? ? ? ? ?] ? ? ? ? ? ? ? ? ?] ? ?].
Qed.

(** The first half: the image, the thread and the name. *)
Record half_made s (G : gmap Z (Z * Z)) (fls : list (list Z)) (T : gmap (Z * Z * Z) Z) (kroot data : Z) (args : list (list Z))
    (space proc th : Z) (t : thread) (h : mm_state P) (c : sched) (m : mem) (virt : Z) (e : surroundings) (G' : gmap Z (Z * Z)) (fls' : list (list Z)) : Prop := {
  hm_ambient : ambient e h G' fls';
  hm_live : ∀ b, live G' fls' b ↔ live G fls b ∨ b = space ∨ b = proc ∨ b = th;
  hm_new : ¬ live G fls space ∧ ¬ live G fls proc ∧ ¬ live G fls th;
  hm_nonzero : space ≠ 0 ∧ proc ≠ 0 ∧ th ≠ 0 ∧ space ≠ proc ∧ space ≠ th ∧ proc ≠ th;
  hm_threads : threads c = <[th := t]> (threads (os_sched (mc_os s))) ∧ c = mkSched (threads c) (runqueue_head (os_sched (mc_os s)))
    (curr_thread (os_sched (mc_os s))) (idle_thread (os_sched (mc_os s))) (next_thread_id (os_sched (mc_os s)) +64 1)
    (cpu_kernel_rsp (os_sched (mc_os s))) (tss_rsp0 (os_sched (mc_os s)));
  hm_thread : th_state t = THREAD_READY ∧ th_user_entry t = eh_entry (ehdr (mc_mem s) data) ∧ th_user_rsp t = stack_base + argv_off args - 16 ∧
    th_user_argc t = Z.of_nat (length args) ∧ th_user_argv t = stack_base + argv_off args;
  hm_space : su_space e = image_space (mc_mem s) data m virt ∧ args_at m virt stack_base (argv_off args) args;
  hm_env : su_struct e = space ∧ su_frames e = private (os_heap (mc_os s)) G T ∧ su_byte e = load8 (mc_mem s) ∧
    (∀ i, su_upper e i = load64 (mc_mem s) (slot kroot i)) ∧ (∀ r v, r ≠ su_root e → su_pte e r v = pte_of (os_heap (mc_os s)) T r v);
}.

Lemma image_flags m0 data m virt x g : image_space m0 data m virt x = Some g → 0 ≤ up_flags g < 4096.
Proof.
  unfold image_space, stack_space. case_decide; [intros [= <-]; cbn; lia|]. by apply segment_flags.
Qed.

Lemma stack_rsp args : 16 ≤ argv_off args →
  stack_base +64 argv_off args = stack_base + argv_off args ∧ (stack_base +64 argv_off args) -64 16 = stack_base + argv_off args - 16.
Proof.
  intros H. pose proof (argv_off_end args). change stack_base with 140737471561728. rewrite (u64_small (_ + argv_off args)), u64_small by lia. done.
Qed.

Lemma image_step_wp s G fls T kroot data size ps args :
  image_pre (k_vm (kernel_view (mc_os s))) G fls T kroot data size ps args →
  wp (on_os (in_kernel (in_vm (build_image data size ps))) s) (λ r s1, ∃ h space proc G' fls' T' f,
    s1 = with_kernel h (os_sched (mc_os s)) (next_proc_id s) s ∧ r = inr (eh_entry (ehdr (mc_mem s) data), space, proc, argv_off args) ∧
    image_post (k_vm (kernel_view (mc_os s))) G fls T kroot data args space proc (set_vm_mm h (k_vm (kernel_view (mc_os s)))) G' fls' T' f).
Proof.
  intros Hpre. do 3 apply wp_zoom. eapply wp_mono; [by apply (build_image_wp _ G fls T kroot data size ps args)|].
  intros r v' (space & proc & G' & fls' & T' & f & -> & Hpost). rewrite (io_same _ _ _ _ _ _ _ _ _ _ _ _ _ _ Hpost).
  exists (vm_mm v'), space, proc, G', fls', T', f. split; [done|]. split; [done|]. by rewrite <- (io_same _ _ _ _ _ _ _ _ _ _ _ _ _ _ Hpost).
Qed.

Lemma thread_step_wp e s G fls h c n entry off argc :
  ambient e h G fls → live G fls (su_struct e) →
  wp (make_thread addr garbage entry off argc (with_kernel h c n s)) (λ th s1, ∃ h' c' t G' fls', s1 = with_kernel h' c' n s ∧
    ambient e h' G' fls' ∧ th ≠ 0 ∧ ¬ live G fls th ∧ (∀ b, live G' fls' b ↔ live G fls b ∨ b = th) ∧
    (∀ a, (frame_of a ∉ fa_free (mm_pg h)) → load8 (mm_mem h') a = load8 (mm_mem h) a) ∧
    threads c' = <[th := t]> (threads c) ∧
    c' = mkSched (threads c') (runqueue_head c) (curr_thread c) (idle_thread c) (next_thread_id c +64 1) (cpu_kernel_rsp c) (tss_rsp0 c) ∧
    th_state t = THREAD_READY ∧ th_user_entry t = entry ∧ th_user_rsp t = (stack_base +64 off) -64 16 ∧
    th_user_argc t = argc ∧ th_user_argv t = stack_base +64 off).
Proof.
  intros Ha Hl. unfold make_thread. cbv zeta. apply wp_bind, on_kernel_wp. set (k := mkKernel _ c _).
  eapply wp_mono; [apply (thread_create_user_wp e k G fls addr garbage entry ((stack_base +64 off) -64 16) Ha Hl)|].
  intros th k' (t & h' & G' & fls' & c1 & -> & Ha' & Hth0 & Hnl & Hlive & Hmem & Et & Ec & E1 & E2 & E3 & E4 & E5 & E6).
  exists h', c1. split; [done|]. assert (threads c1 !! th = Some t) as Ht by (rewrite Et; apply lookup_insert_eq).
  rewrite (bind_Ret _ _ _ _ _ (on_sched_mc _ s h' c1 n _ _ (upd_thread_run _ _ _ (with_args argc (stack_base +64 off)) Ht))). cbn [wp ret].
  exists h'. eexists. exists (with_args argc (stack_base +64 off) t), G', fls'. split; [reflexivity|]. split_and!; try done.
  - cbn [set_threads threads]. rewrite Et. by rewrite insert_insert_eq.
  - rewrite Ec. done.
Qed.

(** What both steps leave behind. *)
Lemma half_made_intro s G fls T kroot data args space proc h1 G1 fls1 T' f m virt th h2 c2 t G2 fls2 R :
  image_post (k_vm (kernel_view (mc_os s))) G fls T kroot data args space proc (set_vm_mm h1 (k_vm (kernel_view (mc_os s)))) G1 fls1 T' f →
  args_at m virt stack_base (argv_off args) args →
  let e := around (k_vm (kernel_view (mc_os s))) G T kroot (set_vm_mm h1 (k_vm (kernel_view (mc_os s)))) T' f space (image_space (mc_mem s) data m virt) R in
  ambient e h2 G2 fls2 → th ≠ 0 → ¬ live G1 fls1 th → (∀ b, live G2 fls2 b ↔ live G1 fls1 b ∨ b = th) →
  threads c2 = <[th := t]> (threads (os_sched (mc_os s))) →
  c2 = mkSched (threads c2) (runqueue_head (os_sched (mc_os s))) (curr_thread (os_sched (mc_os s))) (idle_thread (os_sched (mc_os s)))
    (next_thread_id (os_sched (mc_os s)) +64 1) (cpu_kernel_rsp (os_sched (mc_os s))) (tss_rsp0 (os_sched (mc_os s))) →
  (th_state t = THREAD_READY ∧ th_user_entry t = eh_entry (ehdr (mc_mem s) data) ∧ th_user_rsp t = stack_base + argv_off args - 16 ∧
    th_user_argc t = Z.of_nat (length args) ∧ th_user_argv t = stack_base + argv_off args) →
  half_made s G fls T kroot data args space proc th t h2 c2 m virt e G2 fls2.
Proof.
  intros [Hb (Hv & _ & _) _ _ _ _ _ _ [Hp0 Hne]] Hat e Ha Hth0 Hnl Hl Et Ec Ht.
  assert (∀ b, live G1 fls1 b ↔ live G fls b ∨ b = space ∨ b = proc) as Hl1 by (intros b; rewrite (bt_live _ _ _ _ _ _ _ _ _ _ _ Hb), elem_of_cons, list_elem_of_singleton; done).
  rewrite Hl1 in Hnl. split; try done.
  - intros b. rewrite Hl, Hl1. tauto.
  - split; [apply (bt_new _ _ _ _ _ _ _ _ _ _ _ Hb); by left|]. split; [apply (bt_new _ _ _ _ _ _ _ _ _ _ _ Hb); right; by left|tauto].
  - destruct (proj2 (Hl1 space) (or_intror (or_introl eq_refl))) as [[[c n] Hc] _].
    pose proof (block_addr _ _ _ _ _ _ (proj1 (mi_heap _ _ _ _ (vp_mm _ _ _ _ _ Hv))) Hc). split_and!; try done; [lia|intros ->; tauto|intros ->; tauto].
  - split_and!; try done. intros r v Hr. by apply (bt_others _ _ _ _ _ _ _ _ _ _ _ Hb).
Qed.

Lemma ambient_blocks v G T kroot v' T' f space A R R' h G1 fls1 :
  ambient (around v G T kroot v' T' f space A R) h G1 fls1 → ambient (around v G T kroot v' T' f space A R') h G1 fls1.
Proof. by intros [? ? ? ? ? ? ? ?]. Qed.

Lemma half_files s G fls T kroot l X Q C hs data size ps args n0 n1 space proc th t h c m virt e G' fls' n (He : su_struct e ∈ su_blocks e) :
  spawn_pre s G fls T kroot l X Q C hs data size ps args n0 n1 →
  half_made s G fls T kroot data args space proc th t h c m virt e G' fls' → su_blocks e = X ∪ {[space; proc; th]} →
  files_ready e He (mc_os (with_kernel h c n s)) (port_blocks (mc_os s)) hs.
Proof.
  intros [Him _ [Hp _ _ (D1 & D2 & D3)] Hlive _ [Hfs Hf0] Har _] [Ha Hl (N1 & N2 & N3) _ _ _ _ (_ & Efr & Eb & _)] HR.
  rewrite Hlive in N1, N2, N3. pose proof (po_disj _ _ _ _ Hp) as (Q1 & Q2 & Q3 & _). cbn [ports_view ps_ports ps_msgs ps_bufs] in Q1, Q2, Q3.
  apply (files_start e He (mc_os s) _ h G' fls' X {[space; proc; th]} hs Hfs Hf0 D1 D2); try done.
  - unfold port_blocks. set_solver.
  - intros b. rewrite Hl, Hlive. set_solver.
  - set_solver.
  - intros tt a Hin. rewrite Efr, Eb. split; [by apply Har|done].
Qed.

(** The thread is queued. *)
Lemma queue_sched s l c th t proc o' c' :
  sched_ok (kernel_view (mc_os s)) l → threads (os_sched (mc_os s)) !! th = None → threads c = <[th := t]> (threads (os_sched (mc_os s))) →
  c = mkSched (threads c) (runqueue_head (os_sched (mc_os s))) (curr_thread (os_sched (mc_os s))) (idle_thread (os_sched (mc_os s)))
    (next_thread_id (os_sched (mc_os s)) +64 1) (cpu_kernel_rsp (os_sched (mc_os s))) (tss_rsp0 (os_sched (mc_os s))) →
  th_state t = THREAD_READY → ring c' (l ++ [th]) → same_core (<[th := with_process proc t]> (threads c)) (threads c') →
  c' = set_head (runqueue_head c') (set_threads (threads c') c) → os_sched o' = c' → is_Some (os_procs o' !! proc) →
  (∀ p x, os_procs (mc_os s) !! p = Some x → is_Some (os_procs o' !! p)) →
  sched_ok (kernel_view o') (l ++ [th]) ∧ curr_thread c' = curr_thread (os_sched (mc_os s)) ∧
  (∃ t', threads c' !! th = Some t' ∧ core t' = core (with_process proc t)) ∧
  ∀ x, x ≠ th → core <$> threads c' !! x = core <$> threads (os_sched (mc_os s)) !! x.
Proof.
  intros [S1 S2 S3 S4 S5] Hth Et Ec Hst Hr Hsc Ec' Eo Hproc Hprocs. rewrite Et, insert_insert_eq in Hsc.
  assert (∀ x, x ≠ th → core <$> threads c' !! x = core <$> threads (os_sched (mc_os s)) !! x) as Hother by (intros x Hx; by rewrite (Hsc x), lookup_insert_ne).
  pose proof (Hsc th) as Hself. rewrite lookup_insert_eq in Hself. apply fmap_Some_1 in Hself as (t' & Ht' & Ecore).
  assert (curr_thread c' = curr_thread (os_sched (mc_os s)) ∧ idle_thread c' = idle_thread (os_sched (mc_os s))) as [Ecu Eid] by (rewrite Ec', Ec; done).
  assert (∀ x t0, threads c' !! x = Some t0 → x = th ∧ core t0 = core t' ∨ ∃ t1, x ≠ th ∧ threads (os_sched (mc_os s)) !! x = Some t1 ∧ core t0 = core t1) as Hcase.
  { intros x t0 Hx. destruct (decide (x = th)) as [->|Hne]; [left; split; [done|congruence]|right]. pose proof (Hother x Hne) as E. rewrite Hx in E. cbn in E.
    symmetry in E. apply fmap_Some_1 in E as (t1 & Ht1 & E). eauto. }
  assert (∀ x, is_Some (threads (os_sched (mc_os s)) !! x) → is_Some (threads c' !! x)) as Hdom.
  { intros x [t1 Hx]. assert (x ≠ th) as Hne by congruence. pose proof (Hother x Hne) as E. rewrite Hx in E. cbn in E. apply fmap_Some_1 in E as (t0 & ? & _). eauto. }
  assert (∀ u v, core u = core v → th_state u = th_state v ∧ th_process u = th_process v) as Hcore by (intros [] []; unfold core, with_next; cbn; by intros [= ]).
  split; [|split; [done|split; [eauto|done]]]. split; cbn [kernel_view k_sched k_procs]; rewrite ?Eo.
  - done.
  - rewrite Ecu. by apply Hdom.
  - rewrite Eid. by apply Hdom.
  - intros x t0 Hx Hrun. rewrite Ecu. destruct (Hcase x t0 Hx) as [[-> E]|(t1 & Hne & Ht1 & E)].
    + destruct (Hcore _ _ E) as [E1 _], (Hcore _ _ Ecore) as [E2 _]. cbn in E2. congruence.
    + destruct (Hcore _ _ E) as [E1 _]. apply (S4 x t1 Ht1). congruence.
  - intros x t0 Hx Hp. destruct (Hcase x t0 Hx) as [[-> E]|(t1 & Hne & Ht1 & E)].
    + destruct (Hcore _ _ E) as [_ E1], (Hcore _ _ Ecore) as [_ E2]. cbn in E2. by rewrite E1, <- E2.
    + destruct (Hcore _ _ E) as [_ E1]. rewrite E1 in *. destruct (S5 x t1 Ht1 Hp) as [y Hy]. by apply (Hprocs _ y).
Qed.

Lemma files_ready_sched e (He : su_struct e ∈ su_blocks e) c o X hs : files_ready e He o X hs → files_ready e He (put_sched c o) X hs.
Proof. intros [[F1 F2 F3 F4] H2]. split; [by split|done]. Qed.

Lemma started_intro s G fls T kroot l X Q C hs data size ps args cwd n0 n1 space proc th t h c m virt e G' fls' n (He : su_struct e ∈ su_blocks e)
    fd0 fd1 nd0 nd1 h4 c5 :
  spawn_pre s G fls T kroot l X Q C hs data size ps args n0 n1 →
  half_made s G fls T kroot data args space proc th t h c m virt e G' fls' → su_blocks e = X ∪ {[space; proc; th]} →
  let o3 := mc_os (with_kernel h c n s) in
  let o4 := set_proc_list proc (procs_to (<[proc := new_process (next_proc_id s) space th match args with [] => chars "unknown" | a :: _ => a end cwd fd0 fd1 (proc_list o3)]> (os_procs o3))
      (files_to h4 (<[nd1 := n1]> (<[nd0 := n0]> (os_nodes o3))) (<[fd1 := mkFile nd1 0 VFS_WRITE]> (<[fd0 := mkFile nd0 0 VFS_READ]> (os_files o3))) o3)) in
  files_ready e He o4 (port_blocks (mc_os s)) hs → os_nodes o3 !! nd0 = None → os_nodes o3 !! nd1 = None → os_files o3 !! fd0 = None → os_files o3 !! fd1 = None →
  fd0 ≠ 0 → fd1 ≠ 0 → ring c5 (l ++ [th]) → same_core (<[th := with_process proc t]> (threads c)) (threads c5) → c5 = set_head (runqueue_head c5) (set_threads (threads c5) c) →
  started s G T kroot l X Q C data args cwd n0 n1 (set_os (put_sched c5 o4) (with_kernel h c n s)) space proc th fd0 fd1 nd0 nd1.
Proof.
  intros Hpre Hhm HR o3 o4 Hr4 Hn0 Hn1 Hf0 Hf1 Hfd0 Hfd1 Hring Hsc Ec5. pose proof Hpre as [Him Hso Hos Hlive [Hkt Hkp] [_ Hfz] _ _].
  pose proof Hhm as [_ _ (N1 & N2 & N3) (Z1 & Z2 & Z3 & _) [Et Ec] (T1 & T2 & T3 & T4 & T5) [Esp Hat] (Est & Efr & Eb & Eup & Ept)].
  assert (os_procs (mc_os s) !! proc = None) as Hpn by (apply not_elem_of_dom; intros Hin; apply N2, Hlive; set_solver).
  assert (threads (os_sched (mc_os s)) !! th = None) as Htn by (apply not_elem_of_dom; intros Hin; apply N3, Hlive; set_solver).
  set (pr := new_process _ _ _ _ _ _ _ _) in *. set (o5 := put_sched c5 o4).
  assert (∀ p x, os_procs (mc_os s) !! p = Some x → os_procs o5 !! p = Some x) as Hprocs by (intros p x Hx; cbn; rewrite lookup_insert_ne by congruence; exact Hx).
  destruct (queue_sched s l c th t proc o5 c5 Hso Htn Et Ec T1 Hring Hsc Ec5 eq_refl) as (Hso5 & Ecu & (t5 & Ht5 & Ecore) & Hother); [exists pr; apply lookup_insert_eq|eauto|].
  assert (∀ x, is_Some (threads (os_sched (mc_os s)) !! x) → is_Some (threads (os_sched o5) !! x)) as Hth.
  { intros x [t1 Hx]. assert (x ≠ th) as Hne by congruence. pose proof (Hother x Hne) as E. rewrite Hx in E. cbn in E. apply fmap_Some_1 in E as (t0 & ? & _). by exists t0. }
  destruct (fo_heap _ _ _ (fi_fs _ _ _ _ (fr_ok _ _ _ _ _ Hr4))) as (G4 & fls4 & Ha4 & Hl4 & _). change (fs_heap (sy_fs (files_view o4))) with h4 in Ha4.
  destruct Him as [_ _ _ [Hiok Hap] _ Hstk _ _ _ Hroom].
  destruct (image_stays e h4 G4 fls4 (mc_mem s) data size m virt args Ha4 Esp Hat Hroom Hiok Hap Hstk) as [Hseg Hargv].
  split; try done.
  - exists t5. split; [done|]. assert (∀ u v, core u = core v → th_state u = th_state v ∧ th_user_entry u = th_user_entry v ∧ th_user_rsp u = th_user_rsp v ∧
      th_user_argc u = th_user_argc v ∧ th_user_argv u = th_user_argv v ∧ th_process u = th_process v) as Hcore by (intros [] []; unfold core, with_next; cbn; by intros [= ]).
    destruct (Hcore _ _ Ecore) as (-> & -> & -> & -> & -> & ->). done.
  - exists (su_root e), (su_tables e), G4, fls4. split; [apply Ha4|]. split; [apply Hl4; right; by rewrite <- Est|]. split_and!; try done.
    + rewrite <- Est. apply (am_struct _ _ _ _ Ha4).
    + intros i Hi. rewrite <- Eup. by apply (am_upper _ _ _ _ Ha4).
    + intros r v Hne. rewrite <- (Ept r v Hne). apply (am_pte _ _ _ _ Ha4).
  - intros a Hp. change (load8 (mm_mem h4) a = load8 (mc_mem s) a). rewrite (am_byte _ _ _ _ Ha4 a); [by rewrite Eb|by rewrite Efr].
  - apply (os_ok_more e He (mc_os s) o5 X {[space; proc; th]} Q C hs Hos (files_ready_sched e He c5 o4 _ hs Hr4) HR); try done. set_solver.
  - intros pr' Hpr. change (<[proc := pr]> (os_procs (mc_os s)) !! proc = Some pr') in Hpr. rewrite lookup_insert_eq in Hpr. injection Hpr as <-.
    split; [apply lookup_insert_eq|by exists t5|done|done| |].
    + split; [intros q Hq Hq0; by apply elem_of_replicate in Hq as [-> _]|intros i j q Hi Hj Hq0; by apply lookup_replicate in Hi as [-> _]].
    + split; [intros f Hf Hf0'; by apply elem_of_replicate in Hf as [-> _]|].
      intros i j f g fl gl Hi Hj Hfl. apply lookup_replicate in Hi as [-> _]. change (<[fd1 := mkFile nd1 0 VFS_WRITE]> (<[fd0 := mkFile nd0 0 VFS_READ]> (os_files (mc_os s))) !! 0 = Some fl) in Hfl.
      rewrite !lookup_insert_ne in Hfl by done. congruence.
Qed.

(** The name is read when the strings are still where they were. *)
Lemma name_read s G fls T kroot data size ps args space proc h1 G1 fls1 T1 f (h2 : mm_state P) :
  image_pre (k_vm (kernel_view (mc_os s))) G fls T kroot data size ps args →
  image_post (k_vm (kernel_view (mc_os s))) G fls T kroot data args space proc (set_vm_mm h1 (k_vm (kernel_view (mc_os s)))) G1 fls1 T1 f →
  (∀ a, (frame_of a ∉ fa_free (mm_pg h1)) → load8 (mm_mem h2) a = load8 (mm_mem h1) a) →
  match ps with [] => Ret (chars "unknown") | arg :: _ => str_at (mm_mem h2) arg end =
  Ret match args with [] => chars "unknown" | a :: _ => a end.
Proof.
  intros [Hmm _ _ _ _ _ _ Hargs Hstrs _] Hpost Hm. destruct Hargs as [|p arg ps args Hp _]; [done|]. apply Forall2_cons in Hstrs as [Hheld _].
  apply str_at_spec, (cstr_frame (mm_mem (vm_mm (k_vm (kernel_view (mc_os s)))))); [|done]. intros i Hi.
  destruct (Hheld i Hi) as (b & c & n & Hl & Hb & Hab). pose proof (io_built _ _ _ _ _ _ _ _ _ _ _ _ _ _ Hpost) as Hbt.
  destruct (bt_kept _ _ _ _ _ _ _ _ _ _ _ Hbt (p + i)) as [[Hk _] E]; [apply (held_kept _ _ _ _ b c n _ Hmm Hb); lia| |by rewrite Hm].
  intros Hin. pose proof (bt_old _ _ _ _ _ _ _ _ _ _ _ Hbt b _ Hl Hb) as Hb'. pose proof (io_space _ _ _ _ _ _ _ _ _ _ _ _ _ _ Hpost) as (Hv & _ & _).
  destruct (proj2 (bt_live _ _ _ _ _ _ _ _ _ _ _ Hbt space)) as [[[c' n'] Hc] _]; [right; by left|].
  pose proof (proj1 (mi_heap _ _ _ _ (vp_mm _ _ _ _ _ Hv))) as Hco. destruct (block_min _ _ _ _ _ _ Hco Hc) as [Hn' _].
  assert (b ≠ space) as Hne by (intros ->; apply (bt_new _ _ _ _ _ _ _ _ _ _ _ Hbt space); [by left|done]).
  destruct (hc_disj _ _ _ Hco _ _ _ _ _ _ Hb' Hc Hne); lia.
Qed.

Lemma proc_create_wp s G fls T kroot l X Q C hs data size ps args cwd n0 n1 :
  spawn_pre s G fls T kroot l X Q C hs data size ps args n0 n1 →
  wp (proc_create addr garbage data size ps cwd s) (λ r s', r = (next_proc_id s, []) ∧ next_proc_id s' = next_proc_id s +64 1 ∧ mc_regions s' = mc_regions s ∧
    ∃ space proc th fd0 fd1 nd0 nd1, started s G T kroot l X Q C data args cwd n0 n1 s' space proc th fd0 fd1 nd0 nd1).
Proof.
  intros Hpre. pose proof (sp_image _ _ _ _ _ _ _ _ _ _ _ _ _ _ _ _ Hpre) as Him. unfold proc_create. apply wp_bind. eapply wp_mono; [by apply (image_step_wp s G fls T kroot data size ps args)|].
  intros r s1 (h1 & space & proc & G1 & fls1 & T1 & f & -> & -> & Hpost). destruct (io_is _ _ _ _ _ _ _ _ _ _ _ _ _ _ Hpost) as (m & virt & Hsp & Hat).
  pose proof (image_ambient _ _ _ _ _ _ _ _ _ _ _ _ _ _ _ ∅ Hpost Hsp (image_flags _ _ _ _)) as Ha1. apply wp_bind. eapply wp_mono.
  { apply (thread_step_wp _ s G1 fls1 h1 (os_sched (mc_os s)) (next_proc_id s) _ _ (Z.of_nat (length ps)) Ha1).
    apply (bt_live _ _ _ _ _ _ _ _ _ _ _ (io_built _ _ _ _ _ _ _ _ _ _ _ _ _ _ Hpost)). right. by left. }
  intros th s2 (h2 & c2 & t & G2 & fls2 & -> & Ha2 & Hth0 & Hnl & Hl2 & Hm2 & Et & Ec & T1' & T2' & T3' & T4' & T5').
  destruct (stack_rsp args (ip_room _ _ _ _ _ _ _ _ _ Him)) as [E1 E2]. rewrite E1 in T5'. rewrite E2 in T3'.
  rewrite (Forall2_length _ _ _ (ip_args _ _ _ _ _ _ _ _ _ Him)) in T4'.
  pose proof (half_made_intro s G fls T kroot data args space proc h1 G1 fls1 T1 f m virt th h2 c2 t G2 fls2 (X ∪ {[space; proc; th]})
    Hpost Hat (ambient_blocks _ _ _ _ _ _ _ _ _ _ _ _ _ _ Ha2) Hth0 Hnl Hl2 Et Ec (conj T1' (conj T2' (conj T3' (conj T4' T5'))))) as Hhm.
  set (e := around _ _ _ _ _ _ _ _ _ _) in Hhm. assert (su_struct e ∈ su_blocks e) as He by (cbn; set_solver).
  rewrite bind_gets. change (mc_mem (with_kernel h2 c2 (next_proc_id s) s)) with (mm_mem h2).
  rewrite (bind_lift _ _ _ _ (name_read s G fls T kroot data size ps args space proc h1 G1 fls1 T1 f h2 Him Hpost Hm2)). rewrite bind_gets, bind_modify.
  change (mkMachine _ _ _) with (with_kernel h2 c2 (next_proc_id s +64 1) s). change (next_proc_id (with_kernel h2 c2 (next_proc_id s) s)) with (next_proc_id s).
  set (s3 := with_kernel h2 c2 (next_proc_id s +64 1) s).
  pose proof (half_files s G fls T kroot l X Q C hs data size ps args n0 n1 space proc th t h2 c2 m virt e G2 fls2 (next_proc_id s +64 1) He Hpre Hhm eq_refl) as Hr3.
  destruct (sp_std _ _ _ _ _ _ _ _ _ _ _ _ _ _ _ _ Hpre) as [Hd0 Hd1]. apply wp_bind, wp_zoom. eapply wp_mono; [by apply (fill_process_wp e He (mc_os s3) (port_blocks (mc_os s)) hs _ _ _ _ _ _ n0 n1)|].
  intros [] o4 (Hr4 & nd0 & nd1 & fd0 & fd1 & h4 & _ & _ & _ & Hn0 & Hn1 & Hfd0 & Hfd1 & _ & Hf0 & Hf1 & Eo4).
  assert (threads (os_sched (mc_os s)) !! th = None) as Htn.
  { apply not_elem_of_dom. intros Hin. apply (proj2 (proj2 (hm_new _ _ _ _ _ _ _ _ _ _ _ _ _ _ _ _ _ _ Hhm))), (sp_live _ _ _ _ _ _ _ _ _ _ _ _ _ _ _ _ Hpre).
    pose proof (proj1 (sp_known _ _ _ _ _ _ _ _ _ _ _ _ _ _ _ _ Hpre)). set_solver. }
  pose proof (so_ring _ _ (sp_sched _ _ _ _ _ _ _ _ _ _ _ _ _ _ _ _ Hpre)) as Hring. assert (ring c2 l) as Hr2 by (apply (ring_insert (os_sched (mc_os s)) c2 l th t Hring Htn Et); by rewrite Ec).
  assert (th ∉ l) as Hthl by (intros Hin; destruct (ring_dom _ _ _ Hring Hin) as [_ [x Hx]]; change (threads (os_sched (mc_os s)) !! th = Some x) in Hx; congruence).
  destruct (enqueue_run c2 l th t proc Hr2 Hth0 Hthl) as (c5 & Hu & Hpush & Hr5 & Hsc & Ec5); [rewrite Et; apply lookup_insert_eq|done|].
  assert (os_sched o4 = c2) as Eos by (rewrite Eo4; done).
  rewrite (bind_Ret _ _ _ _ _ (zoom_Ret mc_os set_os _ (set_os o4 s3) _ _ (on_sched_run _ o4 _ _ ltac:(rewrite Eos; exact Hu)))).
  rewrite (bind_Ret _ _ _ _ _ (zoom_Ret mc_os set_os _ (set_os _ (set_os o4 s3)) _ _ (on_sched_run _ (put_sched _ o4) _ _ Hpush))).
  set (s5 := set_os _ _). assert (os_procs (mc_os s5) !! proc = Some (new_process (next_proc_id s) space th match args with [] => chars "unknown" | a :: _ => a end cwd fd0 fd1 (proc_list (mc_os s)))) as Hp5.
  { unfold s5. rewrite Eo4. apply lookup_insert_eq. }
  rewrite (bind_Ret _ _ _ _ _ (zoom_Ret mc_os set_os _ s5 _ _ (os_get_proc (mc_os s5) proc _ Hp5))). cbn [wp ret p_pid new_process]. split; [done|]. split; [done|]. split; [done|].
  exists space, proc, th, fd0, fd1, nd0, nd1. rewrite Eo4 in Hr4.
  pose proof (started_intro s G fls T kroot l X Q C hs data size ps args cwd n0 n1 space proc th t h2 c2 m virt e G2 fls2 (next_proc_id s +64 1) He fd0 fd1 nd0 nd1 h4 c5
    Hpre Hhm eq_refl Hr4 Hn0 Hn1 Hf0 Hf1 Hfd0 Hfd1 Hr5 Hsc Ec5) as Hfin.
  unfold s5. rewrite Eo4. exact Hfin.
Qed.
End Create.
