(* ===== verification/CreateDemo.v ===== *)
(** * proc_create on a concrete machine

    A machine after boot: the kernel's tables, the devices of the console, the idle
    thread, and one block that holds a small executable (one segment of 4 bytes, 8 in
    memory) and the argument "init" behind it. *)

From S2P Require Import Prelude ByteMem FrameAlloc Pmm Heap HeapThms Vmm VmmThms CStr Tar Vfs VfsThms Kbd Fbcon Thread Port Files FilesThms SysMem SysMemThms ElfLoader ElfThms Proc ProcThms Spawn ImageThms SpawnThms CreateThms.

Section Created.
Context {P : Type} `{FA : FrameAllocator P} `{B : Boot}.

(** C9. proc_create starts a program: in a kernel in order, on a well-formed executable
    with arguments that fit on the stack, it never faults, and unless it panics for want
    of memory it returns the next pid; the new process, at the head of the process list,
    has an address space of its own in which the segments hold what the file says and
    argv holds the arguments, a ready thread at the end of the run queue that starts at
    the entry point with argc and argv, and descriptors 0 and 1 on the console. Every
    other process, thread, space and private frame stays as it is, and the invariants
    of the heap, the ports, the files and the scheduler hold again. *)
Theorem proc_create_correct addr garbage (s : machine P) G fls T kroot l X Q C hs data size ps args cwd n0 n1 :
  spawn_pre s G fls T kroot l X Q C hs data size ps args n0 n1 →
  wp (proc_create addr garbage data size ps cwd s) (λ r s', r = (next_proc_id s, []) ∧ next_proc_id s' = next_proc_id s +64 1 ∧ mc_regions s' = mc_regions s ∧
    ∃ space proc th fd0 fd1 nd0 nd1, started s G T kroot l X Q C data args cwd n0 n1 s' space proc th fd0 fd1 nd0 nd1).
Proof. apply proc_create_wp. Qed.

(** One more block on the heap. *)
Lemma demo_alloc (h h' : mm_state P) G fls T size b :
  mm_inv h G fls T → 0 < size ≤ 2 ^ 40 → kmalloc size h = Ret (b, h') →
  ∃ G' fls' c n, mm_inv h' G' fls' T ∧ G' !! b = Some (c, n) ∧ size + 8 ≤ n ∧ b ≠ 0 ∧ (∀ x, live G' fls' x ↔ live G fls x ∨ x = b) ∧
    (∀ x y, live G fls x → G !! x = Some y → G' !! x = Some y) ∧ fa_free (mm_pg h') ⊆ fa_free (mm_pg h).
Proof.
  intros Hmm Hs Hrun. destruct (kmalloc_spec h G fls size b h' (mi_heap _ _ _ _ Hmm) Hs Hrun) as (G' & fls' & c & n & Hh & Hb & Hn & _ & Hl & Hold & Hfr).
  destruct (tables_after_kmalloc h G fls T h' G' fls' Hmm Hh Hfr) as (Ht & _ & _ & Hsep). pose proof (block_addr _ _ _ _ _ _ (proj1 Hh) Hb).
  exists G', fls', c, n. split_and!; try done; [lia|apply Hfr].
Qed.

(** Writing into a block. *)
Lemma demo_fill (h : mm_state P) G fls T b c n m :
  mm_inv h G fls T → live G fls b → G !! b = Some (c, n) → (∀ a, ¬ (b ≤ a < b - 8 + n) → load8 m a = load8 (mm_mem h) a) →
  mm_inv (set_mem m h) G fls T.
Proof.
  intros [[Hc Hcnt] Ht Hsep] Hl Hb Hm. split; [split; [|done]| |done].
  - apply (core_write_live _ _ _ b c n); [done..|]. intros; by apply Hm.
  - apply tables_set_mem; [done|]. intros a k Hk. apply Hm. intros Ha. by apply (Hsep b c n a k Hb); [lia|].
Qed.

(** A kernel without ports. *)
Lemma no_ports (o : os_state P) (X N : gset Z) G fls :
  os_ports o = ∅ → os_msgs o = ∅ → os_bufs o = ∅ → os_table o = replicate 1024 0 → os_table_count o = 0 → os_files o = ∅ → dom (os_nodes o) = N →
  heap_inv (os_heap o) G fls → (∀ b, live G fls b ↔ b ∈ X ∪ N) → (0 ∉ X ∪ N) → X ## N → os_ok o X ∅ ∅.
Proof.
  intros E1 E2 E3 E4 E5 E6 E7 Hh Hl H0 Hd. assert (fs_blocks o = N) as Efs by (unfold fs_blocks; rewrite E6, E7; set_solver).
  assert (dom (os_ports o) = ∅ ∧ dom (os_msgs o) = ∅ ∧ dom (os_bufs o) = (∅ : gset Z)) as (D1 & D2 & D3) by (rewrite E1, E2, E3; by rewrite !dom_empty_L).
  split; [split|split| |]; unfold tokens_unique; cbn [ports_view ps_heap ps_ports ps_msgs ps_bufs port_table port_table_count].
  - rewrite Efs, D1, D2, D3. exists G, fls. split; [done|]. intros b. rewrite Hl. clear. set_solver.
  - rewrite Efs, D1, D2, D3. clear. set_solver.
  - rewrite Efs, D1, D2, D3. clear - H0. set_solver.
  - intros q. rewrite E1, !lookup_empty. split; by intros [? ?].
  - intros q pt ns Hq. by rewrite E1, lookup_empty in Hq.
  - intros q ns m Hq. by rewrite lookup_empty in Hq.
  - intros q ns Hq. by rewrite lookup_empty in Hq.
  - intros q r ns ms m Hq. by rewrite lookup_empty in Hq.
  - intros q r ns ms m1 m2 x1 x2 Hq. by rewrite lookup_empty in Hq.
  - intros q pt Hq. by rewrite E1, lookup_empty in Hq.
  - by rewrite E4.
  - rewrite E5. lia.
  - intros i q Hi _ Hq. rewrite E4 in Hi. by apply lookup_replicate in Hi as [-> _].
  - intros q. rewrite E1, lookup_empty. by intros [? ?].
  - intros i j q Hi _ Hq. rewrite E4 in Hi. by apply lookup_replicate in Hi as [-> _].
  - intros q r a b Hq. by rewrite E1, lookup_empty in Hq.
  - rewrite E6, E7, dom_empty_L. clear - Hd. set_solver.
Qed.
End Created.

(** ** The machine *)

Definition cr_h1 : mm_state pmm_state := state_of (vm_mm demo_vm2) (kmalloc 160 (vm_mm demo_vm2)).
Definition cr_h2 : mm_state pmm_state := state_of cr_h1 (kmalloc SIZEOF_THREAD cr_h1).
Definition cr_h3 : mm_state pmm_state := state_of cr_h2 (kmalloc SIZEOF_FSNODE cr_h2).
Definition cr_data : Z := 0xffff800000003e78.
Definition cr_idle : Z := 0xffff800000004f70.
Definition cr_root : Z := 0xffff800000005f80.

(** The executable, and "init" behind it. *)
Definition cr_mem : mem :=
  foldl (λ m '(n, o, v), store_le n m (cr_data + o) v) (mm_mem cr_h3) (demo_image 0x400000 ++ [(8%nat, 128, 0x74696e69)]).
Definition cr_h4 : mm_state pmm_state := set_mem cr_mem cr_h3.

Definition cr_sched : sched := mkSched {[cr_idle := mkThread 0 0 0x1000 0x4000 THREAD_READY 0 0 0 0 0 0 (W64 - 1) 0 cr_idle]} cr_idle cr_idle cr_idle 1 0 0.
Definition cr_stdin : devfs_entry := mkDev (chars "stdin") (Some stdin_ops) 0 true.
Definition cr_stdout : devfs_entry := mkDev (chars "stdout") (Some stdout_ops) 0 true.
Definition cr_fs : fs_state (mm_state pmm_state) :=
  mkFs cr_h4 ∅ (mkTar 4096 0) {[cr_root := mkNode NODE_DIR (Some devfs_root_ops) 0 0 1]}
    (<[1%nat := mkDrive cr_root (chars "DEV") true]> (replicate 8 (mkDrive 0 [] false))) 0 [cr_stdin; cr_stdout] 2 cr_root.
Definition cr_os : os_state pmm_state :=
  mkOs (mkSys cr_fs ∅ demo_screen kbd_boot [] cr_sched ∅) (space_at 2) 0 ∅ ∅ ∅ (replicate 1024 0) 0 0 false.
Definition cr_machine : machine pmm_state := mkMachine cr_os 1 ∅.

Lemma cr_run1 : kmalloc 160 (vm_mm demo_vm2) = Ret (cr_data, cr_h1).
Proof. apply run_value. vm_compute. reflexivity. Qed.
Lemma cr_run2 : kmalloc SIZEOF_THREAD cr_h1 = Ret (cr_idle, cr_h2).
Proof. apply run_value. vm_compute. reflexivity. Qed.
Lemma cr_run3 : kmalloc SIZEOF_FSNODE cr_h2 = Ret (cr_root, cr_h3).
Proof. apply run_value. vm_compute. reflexivity. Qed.

Lemma cr_mem_frame a : ¬ (cr_data ≤ a < cr_data + 160) → load8 cr_mem a = load8 (mm_mem cr_h3) a.
Proof.
  intros Ha. unfold cr_mem, demo_image. cbn [foldl app].
  assert (∀ n o m v, 0 ≤ o → o + Z.of_nat n ≤ 160 → load8 (store_le n m (cr_data + o) v) a = load8 m a) as H.
  { intros n o m v Ho Hn. rewrite load8_store_le, decide_False; [reflexivity|lia]. }
  rewrite !H by lia. reflexivity.
Qed.

Lemma cr_empty b : ¬ live (∅ : gmap Z (Z * Z)) (replicate 8 []) b.
Proof. intros [[x Hx] _]. by rewrite lookup_empty in Hx. Qed.

Lemma cr_inv : ∃ G fls c n, mm_inv cr_h4 G fls {[(2, 3, 0) := 2]} ∧ (∀ b, live G fls b ↔ b = cr_data ∨ b = cr_idle ∨ b = cr_root) ∧
  G !! cr_data = Some (c, n) ∧ 168 ≤ n.
Proof.
  destruct demo_vm2_ok as [_ H0]. destruct (demo_alloc _ _ _ _ _ 160 _ H0 ltac:(lia) cr_run1) as (G1 & fl1 & c & n & H1 & Hb & Hn & _ & Hl1 & _).
  destruct (demo_alloc _ _ _ _ _ SIZEOF_THREAD _ H1 ltac:(unfold SIZEOF_THREAD; lia) cr_run2) as (G2 & fl2 & c2 & n2 & H2 & _ & _ & _ & Hl2 & Ho2 & _).
  destruct (demo_alloc _ _ _ _ _ SIZEOF_FSNODE _ H2 ltac:(unfold SIZEOF_FSNODE; lia) cr_run3) as (G3 & fl3 & c3 & n3 & H3 & _ & _ & _ & Hl3 & Ho3 & _).
  assert (live G1 fl1 cr_data) as L1 by (apply Hl1; by right). assert (live G2 fl2 cr_data) as L2 by (apply Hl2; by left).
  assert (G3 !! cr_data = Some (c, n)) as Hb3 by (apply Ho3; [exact L2|]; apply Ho2; [exact L1|exact Hb]).
  exists G3, fl3, c, n. split; [|split; [|split; [exact Hb3|lia]]].
  - apply (demo_fill _ _ _ _ cr_data c n); [exact H3|apply Hl3; left; exact L2|exact Hb3|]. intros a Ha. apply cr_mem_frame. lia.
  - intros b. rewrite Hl3, Hl2, Hl1. pose proof (cr_empty b). tauto.
Qed.

#[local] Opaque cr_h1 cr_h2 cr_h3.

Lemma cr_phdrs : phdrs cr_mem cr_data = [mkPhdr PT_LOAD 7 120 0x400000 4 8].
Proof. vm_compute. reflexivity. Qed.

Lemma cr_image_ok : image_ok cr_mem cr_data 128.
Proof.
  split; try (vm_compute; intuition discriminate). intros ph. rewrite cr_phdrs. intros ->%list_elem_of_singleton _. split; vm_compute; intuition discriminate.
Qed.

Lemma cr_string : cstr cr_mem (cr_data + 128) (chars "init").
Proof. vm_compute. intuition discriminate. Qed.

Lemma cr_image G fls c n : mm_inv cr_h4 G fls {[(2, 3, 0) := 2]} → live G fls cr_data → G !! cr_data = Some (c, n) → 168 ≤ n →
  image_pre (k_vm (kernel_view cr_os)) G fls {[(2, 3, 0) := 2]} 2 cr_data 128 [cr_data + 128] [chars "init"].
Proof.
  intros Hmm Hl Hb Hn. assert (∀ a, cr_data ≤ a < cr_data + 160 → held G fls a) as Hheld by (intros a Ha; exists cr_data, c, n; split; [exact Hl|split; [exact Hb|lia]]).
  change (vm_mm (k_vm (kernel_view cr_os))) with cr_h4. split; change (vm_mm (k_vm (kernel_view cr_os))) with cr_h4; change (mm_mem cr_h4) with cr_mem.
  - exact Hmm.
  - split; [reflexivity|apply lookup_singleton_eq].
  - apply (bool_decide_unpack _). vm_compute. exact I.
  - split; [exact cr_image_ok|]. intros ph q v. rewrite cr_phdrs. intros ->%list_elem_of_singleton ->%list_elem_of_singleton _ _ _ _. reflexivity.
  - vm_compute. discriminate.
  - intros ph x. rewrite cr_phdrs. intros ->%list_elem_of_singleton _ [_ H1] [H2 _]. change (x < 1025) in H1. change (34359734268 ≤ x) in H2. lia.
  - intros a Ha. apply Hheld. lia.
  - constructor; [exact cr_string|constructor].
  - constructor; [|constructor]. intros i Hi. change (Z.of_nat (length (chars "init"))) with 4 in Hi. apply Hheld. lia.
  - vm_compute. discriminate.
Qed.

Lemma cr_sched_ok : sched_ok (kernel_view cr_os) [cr_idle].
Proof.
  split; change (k_sched (kernel_view cr_os)) with cr_sched; unfold cr_sched; cbn [threads curr_thread idle_thread].
  - right. split; [discriminate|]. split; [apply NoDup_singleton|]. repeat (split; [reflexivity|]; split; [discriminate|]; eexists; split; [reflexivity|]). reflexivity.
  - eexists. reflexivity.
  - eexists. reflexivity.
  - intros p t [<- _]%lookup_singleton_Some _. reflexivity.
  - intros p t [_ <-]%lookup_singleton_Some Hp. by destruct Hp.
Qed.

(** The blocks of this machine. *)
Lemma cr_blocks : fs_blocks cr_os = {[cr_root]} ∧ port_blocks cr_os = ∅ ∧ NoDup [0; cr_data; cr_idle; cr_root].
Proof.
  split; [|split; [|apply (bool_decide_unpack _); by vm_compute]].
  - unfold fs_blocks, os_files, os_nodes. cbn [cr_os os_sys sy_files sy_fs cr_fs fs_nodes]. by rewrite dom_empty_L, dom_singleton_L, union_empty_l_L.
  - unfold port_blocks. cbn [cr_os os_ports os_msgs os_bufs]. by rewrite !dom_empty_L, !union_empty_l_L.
Qed.

Lemma cr_os_ok G fls : mm_inv cr_h4 G fls {[(2, 3, 0) := 2]} → (∀ b, live G fls b ↔ b = cr_data ∨ b = cr_idle ∨ b = cr_root) →
  os_ok cr_os {[cr_data; cr_idle]} ∅ ∅.
Proof.
  intros Hmm Hl. apply (no_ports cr_os _ {[cr_root]} G fls); try reflexivity.
  - exact (mi_heap _ _ _ _ Hmm).
  - intros b. rewrite Hl. clear. set_solver.
  - apply (bool_decide_unpack _). vm_compute. exact I.
  - apply (bool_decide_unpack _). vm_compute. exact I.
Qed.

#[local] Opaque cr_h4 cr_mem.

Lemma cr_fs_ok G fls : mm_inv cr_h4 G fls {[(2, 3, 0) := 2]} → (∀ b, live G fls b ↔ b = cr_data ∨ b = cr_idle ∨ b = cr_root) →
  fs_ok (sy_fs (files_view cr_os)) ({[cr_data; cr_idle]} ∪ port_blocks cr_os ∪ dom (os_files cr_os)) [].
Proof.
  intros Hmm Hl. destruct cr_blocks as (_ & -> & Hnd). change (os_files cr_os) with (∅ : gmap Z file). rewrite dom_empty_L, !union_empty_r_L.
  apply NoDup_cons in Hnd as [N0 Hnd]. apply NoDup_cons in Hnd as [N1 Hnd]. apply NoDup_cons in Hnd as [N2 _]. rewrite !not_elem_of_cons in N0, N1, N2.
  assert (sy_fs (files_view cr_os) = set_fs_mem (mm_mem cr_h4) cr_fs) as -> by reflexivity. generalize (mm_mem cr_h4). intros m. unfold cr_fs.
  split; cbn [set_fs_mem fs_heap fs_mem fs_nodes fs_tar entries entry_count vfs_drives]; rewrite ?dom_singleton_L.
  - exists G, fls. split; [apply (mi_heap _ _ _ _ Hmm)|]. intros b. rewrite Hl. clear. set_solver.
  - clear - N1 N2. set_solver.
  - reflexivity.
  - cbn. lia.
  - left. reflexivity.
  - intros h Hh. by apply not_elem_of_nil in Hh.
  - cbn. lia.
  - intros e [->|[->|He]%elem_of_cons]%elem_of_cons; [| |by apply not_elem_of_nil in He]; (split; [intros o [= <-]; split; discriminate|]);
      apply Forall_forall; repeat constructor.
  - reflexivity.
  - intros i d Hd Hr. apply list_lookup_insert_Some in Hd as [(_ & <- & _)|[_ [-> _]%lookup_replicate]]; [|by destruct Hr].
    eexists. split; [apply lookup_singleton_eq|reflexivity].
Qed.

Lemma cr_ready : ∃ G fls, spawn_pre cr_machine G fls {[(2, 3, 0) := 2]} 2 [cr_idle] {[cr_data; cr_idle]} ∅ ∅ [] cr_data 128 [cr_data + 128] [chars "init"]
  (dev_node cr_stdin) (dev_node cr_stdout).
Proof.
  destruct cr_inv as (G & fls & c & n & Hmm & Hl & Hb & Hn). exists G, fls. destruct cr_blocks as (Efs & Epb & _).
  split; change (mc_os cr_machine) with cr_os.
  - apply (cr_image G fls c n Hmm); [apply Hl; by left|exact Hb|exact Hn].
  - exact cr_sched_ok.
  - exact (cr_os_ok G fls Hmm Hl).
  - intros b. rewrite Efs, Epb, Hl. clear. set_solver.
  - change (os_sched cr_os) with cr_sched. change (os_procs cr_os) with (∅ : gmap Z process). unfold cr_sched. cbn [threads]. rewrite dom_singleton_L, dom_empty_L. clear. set_solver.
  - split; [exact (cr_fs_ok G fls Hmm Hl)|reflexivity].
  - intros t a Ha. change (4096 ≤ a < 4096 + 0) in Ha. lia.
  - split; eexists _, _; (split; [reflexivity|]); (split; [reflexivity|]); (split; [apply lookup_singleton_eq|]); repeat (split; [reflexivity|]); reflexivity.
Qed.

Lemma proc_create_correct_witness : wp (proc_create 0 (λ _, 0) cr_data 128 [cr_data + 128] (chars "0:/") cr_machine) (λ r s', r.1 = 1 ∧
  ∃ proc th t, proc_list (mc_os s') = proc ∧ threads (os_sched (mc_os s')) !! th = Some t ∧ th_user_entry t = 0x400000 ∧ th_user_argc t = 1 ∧ th_process t = proc).
Proof.
  destruct cr_ready as (G & fls & Hpre).
  eapply wp_mono; [exact (proc_create_correct 0 (λ _, 0) cr_machine G fls _ _ _ _ _ _ _ _ _ _ _ (chars "0:/") _ _ Hpre)|].
  intros r s' (-> & _ & _ & space & proc & th & fd0 & fd1 & nd0 & nd1 & Hst). split; [reflexivity|].
  destruct Hst as [(_ & Ep & _) Hth _ _ _ _ _ _]. destruct Hth as (t & Ht & _ & E1 & _ & E2 & _ & E3). exists proc, th, t.
  split; [exact Ep|]. split; [exact Ht|]. split; [rewrite E1; vm_compute; reflexivity|]. split; [exact E2|exact E3].
Defined.
