(* ===== verification/CleanupThms.v ===== *)
(** * proc_cleanup

    The processes whose thread is dead leave the list: their struct, thread, kernel
    stack and regions are released, everything else stays; when nobody is left, init
    is started again. *)

From S2P Require Import Prelude ByteMem FrameAlloc Pmm Heap HeapThms Vmm VmmThms CStr Tar Vfs VfsThms Kbd Fbcon Thread Port Files FilesThms SysMem SysMemThms Proc ProcThms Spawn.

Section Cleanup.
Context {P : Type} `{FA : FrameAllocator P} `{B : Boot}.
Implicit Types s : machine P.
Implicit Types h : mm_state P.

(** ** Releasing memory *)

(** A frame without a block of the heap. *)
Definition unblocked_frame (G : gmap Z (Z * Z)) (g : Z) : Prop :=
  ∀ b c n a, G !! b = Some (c, n) → b - 8 ≤ a < b - 8 + n → frame_of a ≠ g.

(** From [h] to [h']: the blocks [bs] and the frames [F] are released, nothing else
    in memory or in the page tables has changed. *)
Record drained h (G : gmap Z (Z * Z)) (fls : list (list Z)) (T : gmap (Z * Z * Z) Z) (bs : list Z) (F : Z → Prop)
    h' (G' : gmap Z (Z * Z)) (fls' : list (list Z)) : Prop := {
  dr_mm : mm_inv h' G' fls' T;
  dr_sub : G' ⊆ G;
  dr_live : ∀ b, live G' fls' b ↔ live G fls b ∧ b ∉ bs;
  dr_count : fa_count (mm_pg h') = fa_count (mm_pg h);
  dr_freed : ∀ g, g ∈ fa_free (mm_pg h) ∨ F g → g ∈ fa_free (mm_pg h');
  dr_taken : ∀ g, (g ∉ fa_free (mm_pg h)) → ¬ F g → unblocked_frame G g → g ∉ fa_free (mm_pg h');
  dr_bytes : ∀ a, unblocked_frame G (frame_of a) → load8 (mm_mem h') a = load8 (mm_mem h) a;
  dr_pte : ∀ r v, pte_of h' T r v = pte_of h T r v;
}.

Lemma unblocked_sub G G' g : G' ⊆ G → unblocked_frame G g → unblocked_frame G' g.
Proof. intros Hs Hu b c n a Hb. apply (Hu b c n a). by eapply lookup_weaken. Qed.

Lemma drained_refl h G fls T : mm_inv h G fls T → drained h G fls T [] (λ _, False) h G fls.
Proof. intros Hmm. split; try done; [intros b; split; [intros ?; split; [done|apply not_elem_of_nil]|by intros [? _]]|by intros g [?|?]]. Qed.

Lemma drained_trans h G fls T bs1 F1 h1 G1 fls1 bs2 F2 h2 G2 fls2 :
  drained h G fls T bs1 F1 h1 G1 fls1 → drained h1 G1 fls1 T bs2 F2 h2 G2 fls2 →
  drained h G fls T (bs1 ++ bs2) (λ g, F1 g ∨ F2 g) h2 G2 fls2.
Proof.
  intros [A1 A2 A3 A4 A5 A6 A7 A8] [C1 C2 C3 C4 C5 C6 C7 C8]. split; try done.
  - by transitivity G1.
  - intros b. rewrite C3, A3, elem_of_app. tauto.
  - by rewrite C4.
  - intros g Hg. apply C5. destruct Hg as [?|[?|?]]; [left; apply A5; by left|left; apply A5; by right|by right].
  - intros g H1 H2 H3. apply C6; [apply A6; tauto|tauto|by eapply unblocked_sub].
  - intros a Ha. rewrite C7 by (by eapply unblocked_sub). by apply A7.
  - intros r v. by rewrite C8.
Qed.

Lemma table_unblocked h G fls T k f : mm_inv h G fls T → T !! k = Some f → (f ∉ fa_free (mm_pg h)) ∧ unblocked_frame G f.
Proof.
  intros Hmm Hk. split; [by destruct (vt_taken _ _ (mi_tables _ _ _ _ Hmm) _ _ Hk)|]. intros b c n a Hb Ha E.
  apply (mi_sep _ _ _ _ Hmm b c n a k Hb Ha). by rewrite E.
Qed.

(** kfree of one block. *)
Lemma drained_kfree h G fls T b : mm_inv h G fls T → live G fls b →
  ∃ h' G' fls', kfree b h = Ret (tt, h') ∧ drained h G fls T [b] (λ _, False) h' G' fls'.
Proof.
  intros Hmm Hl. destruct (kfree_live h G fls b (mi_heap _ _ _ _ Hmm) Hl) as (h' & Hrun & G' & fls' & Hh & Hlive & _ & _ & [F1 F2 F3 F4 _ F6]).
  exists h', G', fls'. split; [done|].
  assert (∀ g, (g ∉ fa_free (mm_pg h)) → unblocked_frame G g → g ∉ fa_free (mm_pg h')) as Hfree.
  { intros g Hg Hu Hin. destruct (F4 g Hin) as [?|(c & n & a & Hb & Ha & E)]; [done|]. by apply (Hu b c n a). }
  assert (∀ a, unblocked_frame G (frame_of a) → load8 (mm_mem h') a = load8 (mm_mem h) a) as Hm.
  { intros a Hu. apply F3. intros c n Hb Ha. by apply (Hu b c n a). }
  destruct (tables_frame_kept h h' T (mi_tables _ _ _ _ Hmm) (hc_wf _ _ _ (proj1 Hh)) F2) as (Ht & Hpte & _).
  { intros k f Hk. destruct (table_unblocked _ _ _ _ _ _ Hmm Hk). by apply Hfree. }
  { intros a k Hk. by apply Hm, (table_unblocked _ _ _ _ _ _ Hmm Hk). }
  split; try done.
  - split; [done|done|]. intros b' c n a k Hb. apply (mi_sep _ _ _ _ Hmm b' c n a k). by eapply lookup_weaken.
  - intros b'. by rewrite Hlive, list_elem_of_singleton.
  - intros g [Hg|[]]. by apply F6.
  - intros g H1 _ H2. by apply Hfree.
Qed.

(** The frames of a stack. *)
Lemma drained_frames h G fls T f n : mm_inv h G fls T → 0 < f → 0 ≤ n → f + n ≤ fa_count (mm_pg h) →
  (∀ g, f ≤ g < f + n → (g ∉ fa_free (mm_pg h)) ∧ unblocked_frame G g ∧ ∀ k, T !! k ≠ Some g) →
  ∃ h', pg (fa_free_n (f * 4096) n) h = Ret (tt, h') ∧ drained h G fls T [] (λ g, f ≤ g < f + n) h' G fls.
Proof.
  intros Hmm Hf Hn Hc Hst. pose proof (mi_heap _ _ _ _ Hmm) as [Hco Hcnt].
  destruct (fa_free_n_ok (mm_pg h) f n (hc_wf _ _ _ Hco) Hf Hn Hc) as (p' & Hrun & Hwf & Ecount & Hfree); [intros g Hg; by apply Hst|].
  exists (set_pg p' h). split; [by apply zoom_Ret|].
  destruct (tables_frame_kept h (set_pg p' h) T (mi_tables _ _ _ _ Hmm) Hwf Ecount) as (Ht & Hpte & _); [|done|].
  { intros k g Hk [Hg|Hg]%Hfree; [by destruct (table_unblocked _ _ _ _ _ _ Hmm Hk)|]. by apply (proj2 (proj2 (Hst g Hg)) k). }
  split; try done.
  - split; [|done|apply (mi_sep _ _ _ _ Hmm)]. split; [|exact Hcnt]. destruct Hco as [H1 H2 H3 H4 H5 H6 H7 H8 H9]. split; simpl; try done; [by rewrite Ecount|].
    intros b c m Hb. destruct (H8 _ _ _ Hb) as (Hh & Hx & Hr). split; [done|]. split; [|done]. intros x Hin. destruct (Hx x Hin) as (X1 & X2 & X3). simpl.
    rewrite Ecount. split; [done|]. split; [done|]. intros [?|Hg]%Hfree; [done|]. by apply (proj1 (proj2 (Hst _ Hg)) b c m x).
  - intros b. split; [intros ?; split; [done|apply not_elem_of_nil]|by intros [? _]].
  - intros g Hg. by apply Hfree.
  - intros g H1 H2 _ [?|?]%Hfree; done.
Qed.

Lemma drained_ext h G fls T bs F F' h' G' fls' : drained h G fls T bs F h' G' fls' → (∀ g, F g ↔ F' g) → drained h G fls T bs F' h' G' fls'.
Proof. intros [A1 A2 A3 A4 A5 A6 A7 A8] HF. split; try done; [intros g; rewrite <- HF; apply A5|intros g; rewrite <- HF; apply A6]. Qed.

(** ** The machine in the loop *)

(** [s] with another heap, other threads and processes and another head of the list. *)
Definition after s h (Th : gmap Z thread) (pr : gmap Z process) (pl : Z) (rs : gmap Z vm_region) : machine P :=
  let o := mc_os s in let y := os_sys o in
  mkMachine (mkOs (mkSys (set_fs_heap h (sy_fs y)) (sy_files y) (sy_con y) (sy_kbd y) (sy_pending y) (set_threads Th (sy_sched y)) pr)
    (os_kspace o) (os_cr3 o) (os_ports o) (os_msgs o) (os_bufs o) (os_table o) (os_table_count o) pl (proc_needs_cleanup o)) (next_proc_id s) rs.

Lemma after_same s : s = after s (os_heap (mc_os s)) (threads (os_sched (mc_os s))) (os_procs (mc_os s)) (proc_list (mc_os s)) (mc_regions s).
Proof. by destruct s as [[[[] ? ? ? ? [] ?] ? ? ? ? ? ? ? ? ?] ? ?]. Qed.

Lemma after_mm {A} (m : M (mm_state P) A) s h Th pr pl rs a h' :
  m h = Ret (a, h') → on_mm m (after s h Th pr pl rs) = Ret (a, after s h' Th pr pl rs).
Proof. intros E. unfold on_mm, on_os, in_kernel, k_mm, in_vm, in_mm, zoom. cbn. by rewrite E. Qed.

Fixpoint rchain (rs : gmap Z vm_region) (p : Z) (l : list Z) : Prop :=
  match l with
  | [] => p = 0
  | x :: l' => p = x ∧ x ≠ 0 ∧ ∃ r, rs !! x = Some r ∧ rchain rs (rg_next r) l'
  end.

Lemma rchain_ext rs rs' l : ∀ p, (∀ x, x ∈ l → rs' !! x = rs !! x) → rchain rs p l → rchain rs' p l.
Proof.
  induction l as [|x l IH]; intros p Hx; [done|]. intros (-> & H0 & r & Hr & Hc). split; [done|]. split; [done|]. exists r.
  split; [rewrite Hx; [done|by left]|]. apply IH; [|done]. intros y Hy. apply Hx. by right.
Qed.

(** The entries [l] deleted one after the other. *)
Definition without (l : list Z) (rs : gmap Z vm_region) : gmap Z vm_region := foldl (λ m x, delete x m) rs l.

Lemma without_lookup l : ∀ rs x, without l rs !! x = if decide (x ∈ l) then None else rs !! x.
Proof.
  induction l as [|y l IH]; intros rs x; [by rewrite decide_False by apply not_elem_of_nil|]. unfold without in *. cbn [foldl]. rewrite IH.
  destruct (decide (x = y)) as [->|Hne]; [rewrite lookup_delete_eq, (decide_True (P := y ∈ y :: l)) by left; by case_decide|].
  rewrite lookup_delete_ne by done. assert (x ∈ y :: l ↔ x ∈ l) as E by (rewrite elem_of_cons; tauto). by rewrite (decide_ext _ _ _ _ E).
Qed.

Lemma free_regions_run s Th pr pl T l : ∀ fuel p h G fls rs,
  rchain rs p l → NoDup l → (length l ≤ fuel)%nat → mm_inv h G fls T → (∀ b, b ∈ l → live G fls b) →
  ∃ h' G' fls', free_regions fuel p (after s h Th pr pl rs) = Ret (tt, after s h' Th pr pl (without l rs)) ∧
    drained h G fls T l (λ _, False) h' G' fls'.
Proof.
  induction l as [|x l IH]; intros fuel p h G fls rs Hc Hnd Hf Hmm Hl.
  - cbn in Hc. subst p. exists h, G, fls. split; [by destruct fuel|by apply drained_refl].
  - destruct Hc as (-> & Hx & r & Hr & Hc). apply NoDup_cons in Hnd as [Hxl Hnd]. destruct fuel as [|fuel]; [simpl in Hf; lia|].
    destruct (drained_kfree h G fls T x Hmm ltac:(apply Hl; by left)) as (h1 & G1 & fls1 & Hrun & Hd1).
    destruct (IH fuel (rg_next r) h1 G1 fls1 (delete x rs)) as (h2 & G2 & fls2 & Hrun2 & Hd2); [|done|simpl in Hf; lia|apply Hd1| |].
    + apply (rchain_ext rs); [|done]. intros y Hy. apply lookup_delete_ne. by intros ->.
    + intros b Hb. apply (dr_live _ _ _ _ _ _ _ _ _ Hd1). split; [apply Hl; by right|]. rewrite list_elem_of_singleton. by intros ->.
    + exists h2, G2, fls2. split; [|apply (drained_ext _ _ _ _ _ _ _ _ _ _ (drained_trans _ _ _ _ _ _ _ _ _ _ _ _ _ _ Hd1 Hd2)); tauto].
      cbn [free_regions]. destruct (Z.eqb_spec x 0); [done|]. rewrite bind_gets. cbn [mc_regions after]. rewrite Hr. cbn [of_opt]. rewrite bind_ret.
      rewrite (bind_Ret _ _ _ _ _ (after_mm _ _ _ _ _ _ _ _ _ Hrun)), bind_modify. exact Hrun2.
Qed.

(** ** One process *)

(** The frames of a thread's kernel stack. *)
Definition stack_frames (t : thread) (g : Z) : Prop :=
  (th_kernel_stack t - hhdm_offset) / 4096 ≤ g < (th_kernel_stack t - hhdm_offset) / 4096 + th_stack_size t / 4096.

Record stack_ok h (G : gmap Z (Z * Z)) (T : gmap (Z * Z * Z) Z) (t : thread) : Prop := {
  so_aligned : (th_kernel_stack t - hhdm_offset) mod 4096 = 0;
  so_first : 0 < (th_kernel_stack t - hhdm_offset) / 4096 ∧ 0 ≤ th_stack_size t;
  so_last : (th_kernel_stack t - hhdm_offset) / 4096 + th_stack_size t / 4096 ≤ fa_count (mm_pg h);
  so_frames : ∀ g, stack_frames t g → (g ∉ fa_free (mm_pg h)) ∧ unblocked_frame G g ∧ ∀ k, T !! k ≠ Some g;
}.

(** The list without the process behind [prev]. *)
Definition unlink (prev next : Z) (pr : gmap Z process) : gmap Z process := alter (with_pnext next) prev pr.

Lemma after_drop_thread s h Th pr pl rs th :
  on_os (on_sched (modify (drop_thread th))) (after s h Th pr pl rs) = Ret (tt, after s h (delete th Th) pr pl rs).
Proof. reflexivity. Qed.

Lemma after_set_plink s h Th pr pl rs prev next : (prev ≠ 0 → is_Some (pr !! prev)) →
  on_os (set_plink prev next) (after s h Th pr pl rs) =
  Ret (tt, after s h Th (if prev =? 0 then pr else unlink prev next pr) (if prev =? 0 then next else pl) rs).
Proof.
  intros Hprev. unfold set_plink. destruct (Z.eqb_spec prev 0) as [->|Hp]; [reflexivity|]. destruct (Hprev Hp) as [pp Hpp].
  unfold on_os, zoom. rewrite (bind_Ret _ _ _ _ _ (os_get_proc (mc_os (after s h Th pr pl rs)) prev pp Hpp)). unfold unlink. rewrite alter_alt, Hpp. reflexivity.
Qed.

Lemma reap_run s h G fls Th T pr pl rs R prev x proc t :
  mm_inv h G fls T → stack_ok h G T t → rchain rs (p_regions proc) R → NoDup (R ++ [p_thread proc; x]) →
  (∀ b, b ∈ R ++ [p_thread proc; x] → live G fls b) → (prev ≠ 0 → is_Some (pr !! prev)) → (length R ≤ size rs)%nat →
  ∃ h' G' fls', reap prev x proc t (after s h Th pr pl rs) =
      Ret (tt, after s h' (delete (p_thread proc) Th) (delete x (if prev =? 0 then pr else unlink prev (p_next proc) pr))
        (if prev =? 0 then p_next proc else pl) (without R rs)) ∧
    drained h G fls T (R ++ [p_thread proc; x]) (stack_frames t) h' G' fls'.
Proof.
  intros Hmm [K1 [K2 K3] K4 K5] Hc Hnd Hl Hprev Hsz. apply NoDup_app in Hnd as (HndR & HR & Hnd2). apply NoDup_cons in Hnd2 as [Hne _]. rewrite list_elem_of_singleton in Hne.
  unfold reap. rewrite bind_gets. cbn [mc_regions after].
  destruct (free_regions_run s Th pr pl T R (size rs) (p_regions proc) h G fls rs Hc HndR Hsz Hmm) as (h1 & G1 & fls1 & Hrun1 & D1); [intros b Hb; apply Hl, elem_of_app; by left|].
  rewrite (bind_Ret _ _ _ _ _ Hrun1). set (f := (th_kernel_stack t - hhdm_offset) / 4096) in *.
  assert (th_kernel_stack t -64 hhdm_offset = f * 4096) as Ef.
  { pose proof (Z.div_mod (th_kernel_stack t - hhdm_offset) 4096 ltac:(lia)) as E. rewrite K1 in E. fold f in E.
    pose proof (fa_bound _ (hc_wf _ _ _ (proj1 (mi_heap _ _ _ _ Hmm)))). pose proof (Z.div_pos (th_stack_size t) 4096 K3 ltac:(lia)). rewrite u64_small; lia. }
  destruct (drained_frames h1 G1 fls1 T f (th_stack_size t / 4096) (dr_mm _ _ _ _ _ _ _ _ _ D1)) as (h2 & Hrun2 & D2); [lia|apply Z.div_pos; lia| | |].
  { by rewrite (dr_count _ _ _ _ _ _ _ _ _ D1). }
  { intros g Hg. destruct (K5 g Hg) as (X1 & X2 & X3). split; [apply (dr_taken _ _ _ _ _ _ _ _ _ D1 g X1); [tauto|exact X2]|]. split; [|done]. apply (unblocked_sub G); [apply D1|done]. }
  rewrite Ef, (bind_Ret _ _ _ _ _ (after_mm _ _ _ _ _ _ _ _ _ Hrun2)). pose proof (drained_trans _ _ _ _ _ _ _ _ _ _ _ _ _ _ D1 D2) as D12. rewrite app_nil_r in D12.
  destruct (drained_kfree h2 G1 fls1 T (p_thread proc) (dr_mm _ _ _ _ _ _ _ _ _ D2)) as (h3 & G3 & fls3 & Hrun3 & D3).
  { apply (dr_live _ _ _ _ _ _ _ _ _ D12). split; [apply Hl; set_solver|]. intros Hin. apply (HR _ Hin). by left. }
  pose proof (drained_trans _ _ _ _ _ _ _ _ _ _ _ _ _ _ D12 D3) as D13.
  rewrite (bind_Ret _ _ _ _ _ (after_mm _ _ _ _ _ _ _ _ _ Hrun3)).
  destruct (drained_kfree h3 G3 fls3 T x (dr_mm _ _ _ _ _ _ _ _ _ D3)) as (h4 & G4 & fls4 & Hrun4 & D4).
  { apply (dr_live _ _ _ _ _ _ _ _ _ D13). split; [apply Hl; set_solver|]. rewrite elem_of_app, list_elem_of_singleton. intros [Hin| ->]; [|done]. apply (HR _ Hin). right. by left. }
  exists h4, G4, fls4. split.
  - rewrite (bind_Ret _ _ _ _ _ (after_drop_thread s h3 Th pr pl _ _)), (bind_Ret _ _ _ _ _ (after_set_plink s h3 _ pr pl _ prev (p_next proc) Hprev)).
    rewrite (bind_Ret _ _ _ _ _ (after_mm _ _ _ _ _ _ _ _ _ Hrun4)). reflexivity.
  - pose proof (drained_trans _ _ _ _ _ _ _ _ _ _ _ _ _ _ D13 D4) as D14. rewrite <- app_assoc in D14.
    apply (drained_ext _ _ _ _ _ _ _ _ _ _ D14). unfold stack_frames. fold f. intros g. tauto.
Qed.

(** ** The list of processes *)

Lemma plist_ext pr pr' l : ∀ p, (∀ x, x ∈ l → p_next <$> pr' !! x = p_next <$> pr !! x) → plist pr p l → plist pr' p l.
Proof.
  induction l as [|x l IH]; intros p Hx; [done|]. intros (-> & H0 & proc & Hp & Hc). split; [done|]. split; [done|].
  pose proof (Hx x ltac:(by left)) as E. rewrite Hp in E. cbn in E. apply fmap_Some_1 in E as (proc' & Hp' & E). exists proc'. split; [done|].
  rewrite <- E. apply IH; [|done]. intros y Hy. apply Hx. by right.
Qed.

(** Taking [x] out behind the processes [pa]. *)
Lemma plist_unlink pr x px l : ∀ pa p, pr !! x = Some px → plist pr p (pa ++ x :: l) → NoDup (pa ++ x :: l) →
  let prev := default 0 (last pa) in
  plist (delete x (if prev =? 0 then pr else unlink prev (p_next px) pr)) (if prev =? 0 then p_next px else p) (pa ++ l).
Proof.
  induction pa as [|y pa IH] using rev_ind; intros p Hx Hp Hnd.
  - cbn. destruct Hp as (-> & _ & px' & Hx' & Hp). rewrite Hx in Hx'. injection Hx' as <-. apply NoDup_cons in Hnd as [Hxl _].
    apply (plist_ext pr); [|done]. intros z Hz. rewrite lookup_delete_ne; [done|]. by intros ->.
  - clear IH. rewrite last_snoc. cbn [default from_option id]. rewrite <- !app_assoc in *. cbn [app] in *.
    assert (y ≠ 0) as Hy by (eapply (plist_dom pr); [exact Hp|]; set_solver). destruct (Z.eqb_spec y 0) as [?|_]; [done|].
    revert p Hp. induction pa as [|z pa IH]; intros p Hp; cbn [app] in *.
    + destruct Hp as (-> & _ & py & Hpy & Hp). destruct Hp as (Ey & H0 & px' & Hx' & Hp). rewrite Hx in Hx'. injection Hx' as <-.
      apply NoDup_cons in Hnd as [Hyl Hnd]. apply NoDup_cons in Hnd as [Hxl _]. rewrite elem_of_cons in Hyl. split; [done|]. split; [done|].
      exists (with_pnext (p_next px) py). split; [rewrite lookup_delete_ne by (intros ->; tauto); unfold unlink; by rewrite lookup_alter_eq, Hpy|].
      apply (plist_ext pr); [|done]. intros z Hz. rewrite lookup_delete_ne by (intros ->; done). unfold unlink. rewrite lookup_alter_ne; [done|]. intros ->. tauto.
    + destruct Hp as (-> & Hz & pz & Hpz & Hp). apply NoDup_cons in Hnd as [Hzl Hnd]. rewrite elem_of_app, !elem_of_cons in Hzl. split; [done|]. split; [done|].
      exists pz. split; [|by apply IH]. rewrite lookup_delete_ne by (intros ->; tauto). unfold unlink. rewrite lookup_alter_ne by (intros ->; tauto). done.
Qed.

Definition unlinked : process → process := with_pnext 0.

Lemma unlink_same prev next (pr : gmap Z process) x : unlinked <$> unlink prev next pr !! x = unlinked <$> pr !! x.
Proof.
  unfold unlink. destruct (decide (prev = x)) as [->|]; [|by rewrite lookup_alter_ne]. rewrite lookup_alter_eq. by destruct (pr !! x).
Qed.

(** ** The loop *)

Definition thread_of (pr : gmap Z process) (Th : gmap Z thread) (x : Z) : option thread := pr !! x ≫= λ p, Th !! p_thread p.
Definition dead s (x : Z) : Prop := th_state <$> thread_of (os_procs (mc_os s)) (threads (os_sched (mc_os s))) x = Some THREAD_DEAD.
#[global] Instance dead_dec s x : Decision (dead s x).
Proof. unfold dead. apply _. Defined.

(** The blocks a dead process leaves behind: its regions, thread and struct. *)
Definition estate s (R : Z → list Z) (x : Z) : list Z :=
  match os_procs (mc_os s) !! x with Some p => R x ++ [p_thread p; x] | None => [] end.
Definition own_thread s (x : Z) : list Z := match os_procs (mc_os s) !! x with Some p => [p_thread p] | None => [] end.
Definition estates s (R : Z → list Z) (ds : list Z) : list Z := ds ≫= estate s R.
Definition stacks s (ds : list Z) (g : Z) : Prop :=
  ∃ x t, x ∈ ds ∧ thread_of (os_procs (mc_os s)) (threads (os_sched (mc_os s))) x = Some t ∧ stack_frames t g.

(** The processes [l] of the list all have a thread; a dead one still has its
    kernel stack and the regions [R], none of it shared. *)
Record graveyard s (G : gmap Z (Z * Z)) (fls : list (list Z)) (T : gmap (Z * Z * Z) Z) (l : list Z) (R : Z → list Z) : Prop := {
  gy_mm : mm_inv (os_heap (mc_os s)) G fls T;
  gy_list : plist (os_procs (mc_os s)) (proc_list (mc_os s)) l ∧ NoDup l;
  gy_threads : ∀ x, x ∈ l → is_Some (thread_of (os_procs (mc_os s)) (threads (os_sched (mc_os s))) x);
  gy_regions : ∀ x p, x ∈ l → dead s x → os_procs (mc_os s) !! x = Some p → rchain (mc_regions s) (p_regions p) (R x);
  gy_blocks : NoDup (estates s R (filter (dead s) l)) ∧ ∀ b, b ∈ estates s R (filter (dead s) l) → live G fls b;
  gy_stack : ∀ x t, x ∈ l → dead s x → thread_of (os_procs (mc_os s)) (threads (os_sched (mc_os s))) x = Some t → stack_ok (os_heap (mc_os s)) G T t;
  gy_apart : ∀ x y t u g, x ∈ l → y ∈ l → dead s x → dead s y → x ≠ y →
    thread_of (os_procs (mc_os s)) (threads (os_sched (mc_os s))) x = Some t →
    thread_of (os_procs (mc_os s)) (threads (os_sched (mc_os s))) y = Some u → stack_frames t g → ¬ stack_frames u g;
}.

(** The dead processes [ds] are gone with all they had. *)
Record buried s (G : gmap Z (Z * Z)) (fls : list (list Z)) (T : gmap (Z * Z * Z) Z) (R : Z → list Z) (ds : list Z)
    h (G' : gmap Z (Z * Z)) (fls' : list (list Z)) (Th : gmap Z thread) (pr : gmap Z process) (rs : gmap Z vm_region) : Prop := {
  bu_memory : drained (os_heap (mc_os s)) G fls T (estates s R ds) (stacks s ds) h G' fls';
  bu_threads : ∀ th, Th !! th = if decide (th ∈ ds ≫= own_thread s) then None else threads (os_sched (mc_os s)) !! th;
  bu_procs : ∀ x, unlinked <$> pr !! x = if decide (x ∈ ds) then None else unlinked <$> os_procs (mc_os s) !! x;
  bu_regions : ∀ r, rs !! r = if decide (r ∈ ds ≫= R) then None else mc_regions s !! r;
}.

Section Loop.
Context (s : machine P) (G : gmap Z (Z * Z)) (fls : list (list Z)) (T : gmap (Z * Z * Z) Z) (l : list Z) (R : Z → list Z).
Context (Hgy : graveyard s G fls T l R).

Lemma rchain_size rs p rl : NoDup rl → rchain rs p rl → (length rl ≤ size rs)%nat.
Proof.
  intros Hnd Hc. rewrite <- size_dom, <- (size_list_to_set (C := gset Z)) by done. apply subseteq_size. intros x Hx%elem_of_list_to_set. apply elem_of_dom. clear Hnd.
  revert p Hc. induction rl as [|y rl IH]; intros p Hc; [by apply not_elem_of_nil in Hx|]. destruct Hc as (-> & _ & r & Hr & Hc).
  apply elem_of_cons in Hx as [->|Hx]; [eauto|by eapply IH].
Qed.

Lemma estates_split pre x post : l = pre ++ x :: post → dead s x →
  NoDup (estate s R x) ∧ ∀ b, b ∈ estate s R x → (b ∉ estates s R (filter (dead s) pre)) ∧ live G fls b.
Proof.
  intros -> Hx. destruct (gy_blocks _ _ _ _ _ _ Hgy) as [Hnd Hl]. unfold estates in *. rewrite filter_app, filter_cons_True, bind_app, bind_cons in Hnd, Hl by done.
  apply NoDup_app in Hnd as (_ & Hd & Hnd). apply NoDup_app in Hnd as (Hnd & _). split; [done|]. intros b Hb. split; [|apply Hl; set_solver].
  intros Hin. apply (Hd b Hin), elem_of_app. by left.
Qed.

Lemma estate_elem ds r : (r ∈ ds ≫= R) → (∀ x, x ∈ ds → is_Some (os_procs (mc_os s) !! x)) → r ∈ estates s R ds.
Proof.
  intros (x & Hr & Hx)%list_elem_of_bind Hds. apply list_elem_of_bind. exists x. split; [|done]. unfold estate. destruct (Hds x Hx) as [p ->]. set_solver.
Qed.

Lemma in_list x : x ∈ l → is_Some (os_procs (mc_os s) !! x).
Proof. intros Hx. by destruct (plist_dom _ _ _ _ (proj1 (gy_list _ _ _ _ _ _ Hgy)) Hx). Qed.

Lemma bury_step pre x post p t prev px h G' fls' Th pr pl rs :
  l = pre ++ x :: post → dead s x → os_procs (mc_os s) !! x = Some p → threads (os_sched (mc_os s)) !! p_thread p = Some t →
  buried s G fls T R (filter (dead s) pre) h G' fls' Th pr rs → pr !! x = Some px → unlinked px = unlinked p → (prev ≠ 0 → is_Some (pr !! prev)) →
  ∃ h1 G1 fls1, let pr1 := delete x (if prev =? 0 then pr else unlink prev (p_next px) pr) in
    reap prev x px t (after s h Th pr pl rs) =
      Ret (tt, after s h1 (delete (p_thread p) Th) pr1 (if prev =? 0 then p_next px else pl) (without (R x) rs)) ∧
    buried s G fls T R (filter (dead s) pre ++ [x]) h1 G1 fls1 (delete (p_thread p) Th) pr1 (without (R x) rs).
Proof.
  intros El Hdead Hp Ht [D B1 B2 B3] Hpx Eu Hprev. set (ds := filter (dead s) pre) in *.
  assert (p_thread px = p_thread p ∧ p_regions px = p_regions p) as [Eth Erg] by (destruct px, p; by injection Eu).
  assert (x ∈ l) as Hxl by (rewrite El; set_solver). destruct (estates_split pre x post El Hdead) as [Hnd Hbl].
  assert (thread_of (os_procs (mc_os s)) (threads (os_sched (mc_os s))) x = Some t) as Hto by (unfold thread_of; rewrite Hp; exact Ht).
  assert (∀ y, y ∈ ds → y ∈ l ∧ dead s y ∧ x ≠ y) as Hds.
  { intros y Hy. apply list_elem_of_filter in Hy as [Hy1 Hy2]. split; [rewrite El; set_solver|]. split; [done|].
    destruct (gy_list _ _ _ _ _ _ Hgy) as [_ Hn]. rewrite El in Hn. apply NoDup_app in Hn as (_ & Hn & _). intros <-. apply (Hn x Hy2). by left. }
  assert (estate s R x = R x ++ [p_thread p; x]) as Ee by (unfold estate; by rewrite Hp). rewrite Ee in Hnd, Hbl.
  pose proof (gy_regions _ _ _ _ _ _ Hgy x p Hxl Hdead Hp) as Hrc.
  assert (rchain rs (p_regions px) (R x)) as Hrc'.
  { rewrite Erg. apply (rchain_ext (mc_regions s)); [|done]. intros r Hr. rewrite B3, decide_False; [done|]. intros Hin.
    apply (proj1 (Hbl r ltac:(set_solver))), estate_elem; [done|]. intros y Hy. by apply in_list, Hds. }
  destruct (reap_run s h G' fls' Th T pr pl rs (R x) prev x px t (dr_mm _ _ _ _ _ _ _ _ _ D)) as (h1 & G1 & fls1 & Hrun & D1); try done; rewrite ?Eth; try done.
  - pose proof (gy_stack _ _ _ _ _ _ Hgy x t Hxl Hdead Hto) as [K1 K2 K3 K4]. split; [done|done|by rewrite (dr_count _ _ _ _ _ _ _ _ _ D)|].
    intros g Hg. destruct (K4 g Hg) as (X1 & X2 & X3). split; [|split; [apply (unblocked_sub G); [apply D|done]|done]].
    apply (dr_taken _ _ _ _ _ _ _ _ _ D g X1); [|done]. intros (y & u & Hy & Hu & Hgu). destruct (Hds y Hy) as (Hyl & Hyd & Hne).
    by apply (gy_apart _ _ _ _ _ _ Hgy x y t u g).
  - intros b Hb. apply (dr_live _ _ _ _ _ _ _ _ _ D). destruct (Hbl b Hb). done.
  - eapply rchain_size; [|exact Hrc']. by apply NoDup_app in Hnd as [? _].
  - exists h1, G1, fls1. cbv zeta. split; [rewrite Hrun, Eth; done|]. rewrite Eth in D1. split.
    + pose proof (drained_trans _ _ _ _ _ _ _ _ _ _ _ _ _ _ D D1) as D2. unfold estates. rewrite bind_app, bind_singleton, Ee. fold (estates s R ds).
      apply (drained_ext _ _ _ _ _ _ _ _ _ _ D2). intros g. unfold stacks. split.
      * intros [(y & u & Hy & Hu & Hg)|Hg]; [exists y, u|exists x, t]; set_solver.
      * intros (y & u & [Hy|Hy%list_elem_of_singleton]%elem_of_app & Hu & Hg); [left; eauto|right]. subst y. rewrite Hto in Hu. by injection Hu as <-.
    + intros th. assert (own_thread s x = [p_thread p]) as Eo by (unfold own_thread; by rewrite Hp). rewrite bind_app, bind_singleton, Eo. destruct (decide (p_thread p = th)) as [<-|Hne].
      * rewrite lookup_delete_eq, decide_True; [done|]. set_solver.
      * rewrite lookup_delete_ne, B1 by done. apply decide_ext. set_solver.
    + intros y. destruct (decide (x = y)) as [<-|Hne]; [rewrite lookup_delete_eq, decide_True; [done|set_solver]|].
      rewrite lookup_delete_ne by done. transitivity (unlinked <$> pr !! y); [destruct (prev =? 0); [done|apply unlink_same]|]. rewrite B2. apply decide_ext. set_solver.
    + intros r. rewrite without_lookup, B3, bind_app, bind_singleton. destruct (decide (r ∈ R x)) as [Hr|Hr]; [by rewrite decide_True by set_solver|]. apply decide_ext. set_solver.
Qed.

Lemma plist_next pr x post : ∀ pa p, plist pr p (pa ++ x :: post) → ∃ px, pr !! x = Some px ∧ p_next px = default 0 (head post).
Proof.
  induction pa as [|y pa IH]; intros p Hp; cbn [app] in Hp; destruct Hp as (_ & _ & px & Hx & Hp); [|by eapply IH]. exists px. split; [done|].
  destruct post; [done|]. by destruct Hp as (-> & _).
Qed.

Lemma get_plink_run h Th pr pl rs pa post : plist pr pl (pa ++ post) →
  on_os (get_plink (default 0 (last pa))) (after s h Th pr pl rs) = Ret (default 0 (head post), after s h Th pr pl rs).
Proof.
  destruct pa as [|y pa _] using rev_ind; intros Hp.
  - cbn [last default from_option id]. unfold get_plink, on_os, zoom. cbn. destruct post as [|x post]; [by rewrite Hp|]. by destruct Hp as (-> & _).
  - rewrite last_snoc. cbn [default from_option id]. rewrite <- app_assoc in Hp. cbn [app] in Hp.
    assert (y ≠ 0) as Hy by (eapply (plist_dom pr); [exact Hp|]; set_solver). destruct (plist_next pr y post pa pl Hp) as (py & Hpy & E).
    unfold get_plink. destruct (Z.eqb_spec y 0); [done|]. apply (zoom_Ret mc_os set_os _ (after s h Th pr pl rs) _ (mc_os (after s h Th pr pl rs))).
    rewrite (bind_Ret _ _ _ _ _ (os_get_proc (mc_os (after s h Th pr pl rs)) y py Hpy)). by rewrite E.
Qed.

(** A process still on the list has its thread. *)
Lemma thread_kept pre x post p h G' fls' Th pr rs : l = pre ++ x :: post → os_procs (mc_os s) !! x = Some p →
  buried s G fls T R (filter (dead s) pre) h G' fls' Th pr rs → Th !! p_thread p = threads (os_sched (mc_os s)) !! p_thread p.
Proof.
  intros El Hp HB. rewrite (bu_threads _ _ _ _ _ _ _ _ _ _ _ _ HB), decide_False; [done|]. intros (y & Hy & [Hyd Hyl]%list_elem_of_filter)%list_elem_of_bind.
  assert (y ∈ l) as Hyl' by (rewrite El; set_solver). destruct (in_list y Hyl') as [py Hpy]. unfold own_thread in Hy. rewrite Hpy in Hy. apply list_elem_of_singleton in Hy.
  assert (dead s x) as Hx by (unfold dead, thread_of in *; rewrite Hp; rewrite Hpy in Hyd; cbn in *; by rewrite Hy).
  destruct (estates_split pre x post El Hx) as [_ Hb]. apply (proj1 (Hb (p_thread p) ltac:(unfold estate; rewrite Hp; set_solver))).
  apply list_elem_of_bind. exists y. split; [unfold estate; rewrite Hpy, Hy; set_solver|]. by apply list_elem_of_filter.
Qed.

Lemma alive_nodup pre post : l = pre ++ post → NoDup (filter (λ x, ¬ dead s x) pre ++ post).
Proof.
  intros El. destruct (gy_list _ _ _ _ _ _ Hgy) as [_ Hn]. rewrite El in Hn. apply NoDup_app in Hn as (H1 & H2 & H3). apply NoDup_app.
  split; [by apply NoDup_filter|]. split; [|done]. intros x [_ Hx]%list_elem_of_filter. by apply H2.
Qed.

(** What the loop reads of the process it has come to. *)
Lemma current_run pre x post h G' fls' Th pr pl rs : l = pre ++ x :: post → buried s G fls T R (filter (dead s) pre) h G' fls' Th pr rs →
  is_Some (pr !! x) → ∃ p px t, os_procs (mc_os s) !! x = Some p ∧ pr !! x = Some px ∧ unlinked px = unlinked p ∧
    threads (os_sched (mc_os s)) !! p_thread p = Some t ∧ (dead s x ↔ th_state t = THREAD_DEAD) ∧
    on_os (in_sys (get_proc x)) (after s h Th pr pl rs) = Ret (px, after s h Th pr pl rs) ∧
    on_os (on_sched (get_thread (p_thread px))) (after s h Th pr pl rs) = Ret (t, after s h Th pr pl rs).
Proof.
  intros El HB [px Hpx]. assert (x ∈ l) as Hxl by (rewrite El; set_solver). destruct (in_list x Hxl) as [p Hp]. assert (x ∉ filter (dead s) pre) as Hxd.
  { intros [_ Hin]%list_elem_of_filter. destruct (gy_list _ _ _ _ _ _ Hgy) as [_ Hn]. rewrite El in Hn. apply NoDup_app in Hn as (_ & Hn & _). apply (Hn x Hin). by left. }
  pose proof (bu_procs _ _ _ _ _ _ _ _ _ _ _ _ HB x) as Eu. rewrite decide_False, Hpx, Hp in Eu by done. apply (inj Some) in Eu.
  assert (p_thread px = p_thread p) as Eth by (destruct px, p; by injection Eu).
  destruct (gy_threads _ _ _ _ _ _ Hgy x Hxl) as [t Ht]. assert (threads (os_sched (mc_os s)) !! p_thread p = Some t) as Ht0 by (unfold thread_of in Ht; by rewrite Hp in Ht).
  assert (Th !! p_thread px = Some t) as HT by (by rewrite Eth, (thread_kept pre x post p h G' fls' Th pr rs El Hp HB)).
  exists p, px, t. split_and!; try done.
  - unfold dead. rewrite Ht. cbn. split; [by intros [= ?]|by intros ->].
  - apply (zoom_Ret mc_os set_os _ (after s h Th pr pl rs) _ _ (os_get_proc (mc_os (after s h Th pr pl rs)) x px Hpx)).
  - apply (zoom_Ret mc_os set_os _ (after s h Th pr pl rs) _ _ (on_sched_run _ (mc_os (after s h Th pr pl rs)) _ _
      (get_thread_run (set_threads Th (os_sched (mc_os s))) _ _ HT))).
Qed.

Lemma cleanup_loop_run post : ∀ pre fuel h G' fls' Th pr pl rs,
  l = pre ++ post → (length post ≤ fuel)%nat → buried s G fls T R (filter (dead s) pre) h G' fls' Th pr rs →
  plist pr pl (filter (λ x, ¬ dead s x) pre ++ post) →
  ∃ h1 G1 fls1 Th1 pr1 pl1 rs1,
    cleanup_loop fuel (default 0 (last (filter (λ x, ¬ dead s x) pre))) (after s h Th pr pl rs) = Ret (tt, after s h1 Th1 pr1 pl1 rs1) ∧
    buried s G fls T R (filter (dead s) l) h1 G1 fls1 Th1 pr1 rs1 ∧ plist pr1 pl1 (filter (λ x, ¬ dead s x) l).
Proof.
  induction post as [|x post IH]; intros pre fuel h G' fls' Th pr pl rs El Hf HB Hpl.
  - rewrite app_nil_r in El. rewrite <- El in *. exists h, G', fls', Th, pr, pl, rs. split; [|by rewrite app_nil_r in Hpl].
    destruct fuel; cbn [cleanup_loop]; rewrite (bind_Ret _ _ _ _ _ (get_plink_run h Th pr pl rs _ [] Hpl)); done.
  - destruct fuel as [|fuel]; [simpl in Hf; lia|]. cbn [cleanup_loop]. rewrite (bind_Ret _ _ _ _ _ (get_plink_run h Th pr pl rs _ _ Hpl)). cbn [head default from_option id].
    destruct (plist_dom _ _ _ x Hpl ltac:(set_solver)) as [Hx0 Hpx0]. destruct (Z.eqb_spec x 0); [done|].
    destruct (current_run pre x post h G' fls' Th pr pl rs El HB Hpx0) as (p & px & t & Hp & Hpx & Eu & Ht & Hdt & Hrun1 & Hrun2).
    rewrite (bind_Ret _ _ _ _ _ Hrun1), (bind_Ret _ _ _ _ _ Hrun2). assert (l = (pre ++ [x]) ++ post) as El' by (rewrite <- app_assoc; exact El).
    simpl in Hf. case_bool_decide as Hd; rewrite <- Hdt in Hd.
    + set (prev := default 0 _). assert (prev ≠ 0 → is_Some (pr !! prev)) as Hprev.
      { intros Hn. unfold prev in *. destruct (last _) as [y|] eqn:Ey; [|done]. cbn. apply last_Some_elem_of in Ey. eapply (plist_dom pr); [exact Hpl|]. set_solver. }
      destruct (bury_step pre x post p t prev px h G' fls' Th pr pl rs El Hd Hp Ht HB Hpx Eu Hprev) as (h1 & G1 & fls1 & Hrun & HB1).
      rewrite (bind_Ret _ _ _ _ _ Hrun).
      assert (filter (λ y, ¬ dead s y) (pre ++ [x]) = filter (λ y, ¬ dead s y) pre) as Efl by (rewrite filter_app, filter_cons_False, filter_nil by tauto; apply app_nil_r).
      specialize (IH (pre ++ [x]) fuel h1 G1 fls1). rewrite Efl in IH. apply IH; [done|lia| |].
      * rewrite filter_app, filter_cons_True by done. exact HB1.
      * apply (plist_unlink pr x px post _ pl Hpx Hpl). by apply alive_nodup.
    + specialize (IH (pre ++ [x]) fuel h G' fls' Th pr pl rs El' ltac:(lia)). rewrite !filter_app, (filter_cons_False (dead s)), filter_cons_True, !filter_nil, app_nil_r, last_snoc, <- app_assoc in IH by done.
      by apply IH.
Qed.

(** A process that is not dead keeps its fields and its thread. *)
Lemma survivor h G1 fls1 Th pr rs x p : buried s G fls T R (filter (dead s) l) h G1 fls1 Th pr rs → os_procs (mc_os s) !! x = Some p →
  (x ∉ filter (dead s) l) → (∀ y py, y ∈ l → dead s y → os_procs (mc_os s) !! y = Some py → p_thread py ≠ p_thread p) →
  ∃ px, pr !! x = Some px ∧ unlinked px = unlinked p ∧ Th !! p_thread px = threads (os_sched (mc_os s)) !! p_thread p.
Proof.
  intros HB Hp Hx Hth. pose proof (bu_procs _ _ _ _ _ _ _ _ _ _ _ _ HB x) as Eu. rewrite decide_False, Hp in Eu by done.
  apply fmap_Some_1 in Eu as (px & Hpx & Eu). exists px. split; [done|]. split; [done|]. assert (p_thread px = p_thread p) as -> by (destruct px, p; by injection Eu).
  rewrite (bu_threads _ _ _ _ _ _ _ _ _ _ _ _ HB), decide_False; [done|]. intros (y & Hy & [Hyd Hyl]%list_elem_of_filter)%list_elem_of_bind.
  destruct (in_list y Hyl) as [py Hpy]. unfold own_thread in Hy. rewrite Hpy in Hy. apply list_elem_of_singleton in Hy. by apply (Hth y py).
Qed.

Lemma count_alive_run (o : os_state P) q : ∀ fuel p n, plist (os_procs o) p q → (length q ≤ fuel)%nat →
  (∀ x px, x ∈ q → os_procs o !! x = Some px → ∃ t, threads (os_sched o) !! p_thread px = Some t ∧ th_state t ≠ THREAD_DEAD) →
  count_alive fuel p n o = Ret (n + Z.of_nat (length q), o).
Proof.
  induction q as [|x q IH]; intros fuel p n Hp Hf Ht.
  - cbn in Hp. subst p. destruct fuel; cbn; by rewrite Z.add_0_r.
  - destruct Hp as (-> & Hx & px & Hpx & Hp). destruct fuel as [|fuel]; [simpl in Hf; lia|]. cbn [count_alive]. destruct (Z.eqb_spec x 0); [done|].
    destruct (Ht x px ltac:(by left) Hpx) as (t & Htt & Hs). rewrite (bind_Ret _ _ _ _ _ (os_get_proc o x px Hpx)).
    rewrite (bind_Ret _ _ _ t o).
    + rewrite bool_decide_eq_false_2 by done. cbn [negb]. rewrite IH; [|done|simpl in Hf; lia|].
      * f_equal. f_equal. simpl. lia.
      * intros y py Hy. apply Ht. by right.
    + rewrite (on_sched_run _ o _ _ (get_thread_run _ _ _ Htt)). by destruct o as [[[] ? ? ? ? ? ?] ? ? ? ? ? ? ? ? ?].
Qed.

Lemma alive_counted h G1 fls1 Th pr pl rs : buried s G fls T R (filter (dead s) l) h G1 fls1 Th pr rs → plist pr pl (filter (λ x, ¬ dead s x) l) →
  on_os (count_alive (size pr) pl 0) (after s h Th pr pl rs) = Ret (Z.of_nat (length (filter (λ x, ¬ dead s x) l)), after s h Th pr pl rs).
Proof.
  intros HB Hpl. set (o := mc_os (after s h Th pr pl rs)).
  apply (zoom_Ret mc_os set_os _ (after s h Th pr pl rs) _ o). apply (count_alive_run o (filter (λ x, ¬ dead s x) l) (size pr) pl 0).
  - exact Hpl.
  - rewrite <- size_dom, <- (size_list_to_set (C := gset Z)) by (apply NoDup_filter, (gy_list _ _ _ _ _ _ Hgy)). apply subseteq_size.
    intros x Hx%elem_of_list_to_set. apply elem_of_dom. by eapply plist_dom.
  - intros x px [Hx Hxl]%list_elem_of_filter Hpx. destruct (in_list x Hxl) as [p Hp]. destruct (gy_threads _ _ _ _ _ _ Hgy x Hxl) as [t Ht].
    assert (threads (os_sched (mc_os s)) !! p_thread p = Some t) as Ht0 by (unfold thread_of in Ht; by rewrite Hp in Ht).
    destruct (survivor h G1 fls1 Th pr rs x p HB Hp) as (px' & Hpx' & _ & E).
    + rewrite list_elem_of_filter. tauto.
    + intros y py Hyl Hyd Hpy Eth. apply Hx. unfold dead, thread_of in *. rewrite Hp. rewrite Hpy in Hyd. cbn in *. by rewrite <- Eth.
    + change (pr !! x = Some px) in Hpx. rewrite Hpx in Hpx'. injection Hpx' as <-. exists t. split; [change (threads (os_sched o)) with Th; congruence|].
      intros Hs. apply Hx. unfold dead. rewrite Ht. cbn. by rewrite Hs.
Qed.

(** ** The rest of the kernel *)

(** Nothing that stays refers to a dead process: [q] is the run queue, [X] are the
    blocks that are neither the file system's nor the ports'. *)
Record unused (q : list Z) (X : gset Z) : Prop := {
  un_blocks : ∀ b, b ∈ estates s R (filter (dead s) l) → b ∈ X;
  un_ports : ∀ a pt, os_ports (mc_os s) !! a = Some pt → pt_owner pt ∉ filter (dead s) l;
  un_threads : ∀ x p, x ∈ l → dead s x → os_procs (mc_os s) !! x = Some p →
    (p_thread p ∉ q) ∧ p_thread p ≠ curr_thread (os_sched (mc_os s)) ∧ p_thread p ≠ idle_thread (os_sched (mc_os s));
  un_owner : ∀ x p th t, x ∈ l → dead s x → os_procs (mc_os s) !! x = Some p → threads (os_sched (mc_os s)) !! th = Some t → th_process t = x → th = p_thread p;
  un_shared : ∀ x y p py, x ∈ l → dead s x → os_procs (mc_os s) !! x = Some p → os_procs (mc_os s) !! y = Some py → p_thread py = p_thread p → y = x;
}.
End Loop.

Lemma buried_sched s G fls T l R q X h G1 fls1 Th pr pl rs : graveyard s G fls T l R → unused s l R q X →
  buried s G fls T R (filter (dead s) l) h G1 fls1 Th pr rs → sched_ok (kernel_view (mc_os s)) q → sched_ok (kernel_view (mc_os (after s h Th pr pl rs))) q.
Proof.
  intros Hgy [_ _ U3 U4 _] HB [S1 S2 S3 S4 S5]. cbn [kernel_view k_sched k_procs] in *.
  assert (∀ th, (∀ x p, x ∈ l → dead s x → os_procs (mc_os s) !! x = Some p → p_thread p ≠ th) → Th !! th = threads (os_sched (mc_os s)) !! th) as Hkeep.
  { intros th Hth. rewrite (bu_threads _ _ _ _ _ _ _ _ _ _ _ _ HB), decide_False; [done|]. intros (y & Hy & [Hyd Hyl]%list_elem_of_filter)%list_elem_of_bind.
    destruct (in_list _ _ _ _ _ _ Hgy y Hyl) as [py Hpy]. unfold own_thread in Hy. rewrite Hpy in Hy. apply list_elem_of_singleton in Hy. by apply (Hth y py). }
  assert (∀ th t, Th !! th = Some t → threads (os_sched (mc_os s)) !! th = Some t ∧ (th ∉ filter (dead s) l ≫= own_thread s)) as Hold.
  { intros th t Ht. rewrite (bu_threads _ _ _ _ _ _ _ _ _ _ _ _ HB) in Ht. by case_decide. }
  split; cbn [kernel_view k_sched k_procs after mc_os os_sched os_sys sy_sched sy_procs os_procs set_threads curr_thread idle_thread threads].
  - destruct S1 as [?|(H1 & H2 & H3)]; [by left|right]. split; [done|]. split; [done|]. eapply chain_frame; [|exact H3].
    intros x Hx. cbn. rewrite Hkeep; [done|]. intros y p Hy Hd Hp <-. by destruct (U3 y p Hy Hd Hp) as (? & ? & ?).
  - rewrite Hkeep; [done|]. intros y p Hy Hd Hp E. by destruct (U3 y p Hy Hd Hp) as (? & ? & ?).
  - rewrite Hkeep; [done|]. intros y p Hy Hd Hp E. by destruct (U3 y p Hy Hd Hp) as (? & ? & ?).
  - intros x t Hx Hs. apply (S4 x t); [by apply Hold|done].
  - intros x t Hx Hp. destruct (Hold x t Hx) as [Hx0 Hnd]. destruct (S5 x t Hx0 Hp) as [p Hpp]. pose proof (bu_procs _ _ _ _ _ _ _ _ _ _ _ _ HB (th_process t)) as Eu.
    rewrite decide_False, Hpp in Eu; [apply fmap_Some_1 in Eu as (px & ? & _); eauto|]. intros [Hd Hl]%list_elem_of_filter. apply Hnd, list_elem_of_bind. exists (th_process t).
    split; [|by apply list_elem_of_filter]. unfold own_thread. rewrite Hpp. apply list_elem_of_singleton. by apply (U4 (th_process t) p x t).
Qed.

Lemma buried_os_ok s G fls T l R q X Q C h G1 fls1 Th pr pl rs : graveyard s G fls T l R → unused s l R q X →
  buried s G fls T R (filter (dead s) l) h G1 fls1 Th pr rs → os_ok (mc_os s) X Q C →
  (∀ b, live G fls b ↔ b ∈ X ∪ fs_blocks (mc_os s) ∪ dom (os_ports (mc_os s)) ∪ dom (os_msgs (mc_os s)) ∪ dom (os_bufs (mc_os s))) →
  os_ok (mc_os (after s h Th pr pl rs)) (X ∖ list_to_set (estates s R (filter (dead s) l))) Q C.
Proof.
  intros Hgy [U1 U2 _ _ U5] HB [Hp Ht Hk (Hd1 & Hd2 & Hd3)] Hlive. set (E := estates s R (filter (dead s) l)) in *.
  set (o := mc_os (after s h Th pr pl rs)). split; [|destruct Ht; by split|exact Hk|change (os_files o) with (os_files (mc_os s)); change (os_nodes o) with (os_nodes (mc_os s)); set_solver].
  change (fs_blocks o) with (fs_blocks (mc_os s)). destruct Hp as [P1 P2 P3 P4 P5 P6 P7 P8 P9 P10]. split; try done.
  - exists G1, fls1. split; [apply (mi_heap _ _ _ _ (dr_mm _ _ _ _ _ _ _ _ _ (bu_memory _ _ _ _ _ _ _ _ _ _ _ _ HB)))|]. intros b.
    rewrite (dr_live _ _ _ _ _ _ _ _ _ (bu_memory _ _ _ _ _ _ _ _ _ _ _ _ HB)), Hlive. fold E.
    change (ps_ports (ports_view o)) with (os_ports (mc_os s)). change (ps_msgs (ports_view o)) with (os_msgs (mc_os s)). change (ps_bufs (ports_view o)) with (os_bufs (mc_os s)).
    cbn [ports_view ps_ports ps_msgs ps_bufs] in P2. rewrite !elem_of_union, elem_of_difference, elem_of_list_to_set. unfold fs_blocks in *. rewrite !elem_of_union in *.
    split; [tauto|]. specialize (U1 b). clear - U1 Hd1 Hd2 P2. set_solver.
  - cbn [ports_view ps_ports ps_msgs ps_bufs] in *. clear - P2. set_solver.
  - cbn [ports_view ps_ports ps_msgs ps_bufs] in *. clear - P3. set_solver.
  - intros a pt Ha. destruct (P10 a pt Ha) as (w & Hw & Hwt). cbn [ports_view ps_procs ps_sched] in Hw, Hwt.
    destruct (survivor _ _ _ _ _ _ Hgy h G1 fls1 Th pr rs (pt_owner pt) w HB Hw) as (px & Hpx & _ & Eth); [by apply (U2 a pt)| |].
    + intros y py Hyl Hyd Hpy Ey. pose proof (U5 y (pt_owner pt) py w Hyl Hyd Hpy Hw (eq_sym Ey)) as E1. apply (U2 a pt Ha), list_elem_of_filter. by rewrite E1.
    + exists px. split; [done|]. change (is_Some (Th !! p_thread px)). by rewrite Eth.
Qed.

Lemma proc_cleanup_run addr garbage init_name s G fls T l R q X Q C :
  graveyard s G fls T l R → unused s l R q X → sched_ok (kernel_view (mc_os s)) q → os_ok (mc_os s) X Q C →
  (∀ b, live G fls b ↔ b ∈ X ∪ fs_blocks (mc_os s) ∪ dom (os_ports (mc_os s)) ∪ dom (os_msgs (mc_os s)) ∪ dom (os_bufs (mc_os s))) →
  ∃ h G' fls' Th pr pl rs, let s' := after s h Th pr pl rs in
    proc_cleanup addr garbage init_name s =
      (if decide (filter (λ x, ¬ dead s x) l = []) then restart_init addr garbage init_name s' else Ret (Some tt, s')) ∧
    buried s G fls T R (filter (dead s) l) h G' fls' Th pr rs ∧ plist pr pl (filter (λ x, ¬ dead s x) l) ∧
    sched_ok (kernel_view (mc_os s')) q ∧ os_ok (mc_os s') (X ∖ list_to_set (estates s R (filter (dead s) l))) Q C.
Proof.
  intros Hgy Hun Hso Hos Hlive. destruct (gy_list _ _ _ _ _ _ Hgy) as [Hpl Hnd].
  destruct (cleanup_loop_run s G fls T l R Hgy l [] (size (os_procs (mc_os s))) (os_heap (mc_os s)) G fls (threads (os_sched (mc_os s)))
    (os_procs (mc_os s)) (proc_list (mc_os s)) (mc_regions s)) as (h & G1 & fls1 & Th & pr & pl & rs & Hrun & HB & Hpl'); try done.
  { rewrite <- size_dom, <- (size_list_to_set (C := gset Z)) by done. apply subseteq_size. intros x Hx%elem_of_list_to_set. apply elem_of_dom. by eapply plist_dom. }
  { split; [|intros; by rewrite decide_False by apply not_elem_of_nil..].
    apply (drained_ext _ _ _ _ _ _ _ _ _ _ (drained_refl _ _ _ _ (gy_mm _ _ _ _ _ _ Hgy))). intros g. split; [done|]. by intros (x & t & Hx%not_elem_of_nil & _). }
  exists h, G1, fls1, Th, pr, pl, rs. cbv zeta. split; [|split; [done|split; [done|split; [by eapply buried_sched|by eapply buried_os_ok]]]].
  unfold proc_cleanup. rewrite bind_gets. cbn [filter list_filter last default from_option id] in Hrun. rewrite <- after_same in Hrun. rewrite (bind_Ret _ _ _ _ _ Hrun), !bind_gets.
  change (proc_list (mc_os (after s h Th pr pl rs))) with pl. change (os_procs (mc_os (after s h Th pr pl rs))) with pr.
  rewrite (bind_Ret _ _ _ _ _ (alive_counted s G fls T l R Hgy h G1 fls1 Th pr pl rs HB Hpl')).
  destruct (filter (λ x, ¬ dead s x) l) as [|y k]; [rewrite decide_True by done|rewrite decide_False by done]; done.
Qed.

(** C10. proc_cleanup: of the processes on the list exactly those with a dead thread
    disappear; their struct, thread, regions and kernel stack are released, and no
    other block, frame, byte or translation changes. The others stay on the list in
    their order with all their fields, the invariants of heap, page tables, ports,
    files and scheduler hold again, and init is started again exactly when nobody is
    left. *)
Theorem proc_cleanup_correct addr garbage init_name s G fls T l R q X Q C :
  graveyard s G fls T l R → unused s l R q X → sched_ok (kernel_view (mc_os s)) q → os_ok (mc_os s) X Q C →
  (∀ b, live G fls b ↔ b ∈ X ∪ fs_blocks (mc_os s) ∪ dom (os_ports (mc_os s)) ∪ dom (os_msgs (mc_os s)) ∪ dom (os_bufs (mc_os s))) →
  ∃ h G' fls' Th pr pl rs, let s' := after s h Th pr pl rs in
    proc_cleanup addr garbage init_name s =
      (if decide (filter (λ x, ¬ dead s x) l = []) then restart_init addr garbage init_name s' else Ret (Some tt, s')) ∧
    buried s G fls T R (filter (dead s) l) h G' fls' Th pr rs ∧ plist pr pl (filter (λ x, ¬ dead s x) l) ∧
    sched_ok (kernel_view (mc_os s')) q ∧ os_ok (mc_os s') (X ∖ list_to_set (estates s R (filter (dead s) l))) Q C.
Proof. apply proc_cleanup_run. Qed.
End Cleanup.
