(* ===== verification/CleanupDemo.v ===== *)
(** * proc_cleanup on a concrete machine

    The machine of CreateDemo.v with two processes: one, at [cl_A], has ended and
    leaves a thread, a kernel stack of four frames and one region behind; the other,
    at [cl_B], is alive. *)

From S2P Require Import Prelude ByteMem FrameAlloc Pmm Heap HeapThms Vmm VmmThms CStr Tar Vfs VfsThms Kbd Fbcon Thread Port Files FilesThms SysMem SysMemThms ElfThms Proc ProcThms Spawn CreateDemo CleanupThms.

Section Frames.
Context {P : Type} `{FA : FrameAllocator P} `{B : Boot}.

(** Frames for a stack. *)
Lemma demo_frames (h : mm_state P) G fls T n a p' :
  mm_inv h G fls T → 1 ≤ n < W64 → (0 ∉ fa_free (mm_pg h)) → fa_alloc_n n (mm_pg h) = Ret (a, p') →
  ∃ f, a = f * 4096 ∧ mm_inv (set_pg p' h) G fls T ∧ 0 < f ∧ f + n ≤ fa_count p' ∧
    ∀ g, f ≤ g < f + n → (g ∉ fa_free p') ∧ unblocked_frame G g ∧ ∀ k, T !! k ≠ Some g.
Proof.
  intros Hmm Hn H0 Hrun. pose proof (mi_heap _ _ _ _ Hmm) as [Hc Hcnt]. destruct (fa_alloc_n_ok _ _ _ _ (hc_wf _ _ _ Hc) Hn Hrun) as (f & -> & Hin & Hwf & Ecnt & Hfr).
  assert (∀ g, f ≤ g < f + n → 0 ≤ g < fa_count (mm_pg h)) as Hb by (intros g Hg; apply fa_free_bound; [apply Hc|by apply Hin]).
  exists f. split; [done|]. split; [split; [split; [|exact Hcnt]| |apply (mi_sep _ _ _ _ Hmm)]|].
  - apply core_set_pg; [done|done|done|]. intros g Hg. by apply Hfr.
  - apply (tables_frame_kept h (set_pg p' h) T (mi_tables _ _ _ _ Hmm) Hwf Ecnt); [|done]. intros k g Hk [Hg _]%Hfr. by destruct (vt_taken _ _ (mi_tables _ _ _ _ Hmm) _ _ Hk).
  - split; [destruct (Z.eq_dec f 0) as [->|]; [|specialize (Hb f); lia]; by destruct H0; apply Hin; lia|]. split; [specialize (Hb (f + n - 1)); lia|].
    intros g Hg. split; [intros [_ ?]%Hfr; tauto|]. split.
    + intros b c m x Hbl Hx E. destruct (hc_block _ _ _ Hc _ _ _ Hbl) as (_ & Ht & _). destruct (Ht x Hx) as (_ & _ & Hno). apply Hno. rewrite E. by apply Hin.
    + intros k Hk. destruct (vt_taken _ _ (mi_tables _ _ _ _ Hmm) _ _ Hk) as [_ Hno]. by apply Hno, Hin.
Qed.
End Frames.

(** ** The machine *)

Definition cl_h1 : mm_state pmm_state := state_of cr_h4 (kmalloc SIZEOF_PROCESS cr_h4).
Definition cl_h2 : mm_state pmm_state := state_of cl_h1 (kmalloc SIZEOF_THREAD cl_h1).
Definition cl_h3 : mm_state pmm_state := state_of cl_h2 (kmalloc SIZEOF_VM_REGION cl_h2).
Definition cl_h4 : mm_state pmm_state := state_of cl_h3 (kmalloc SIZEOF_PROCESS cl_h3).
Definition cl_p5 : pmm_state := state_of (mm_pg cl_h4) (fa_alloc_n 4 (mm_pg cl_h4)).
Definition cl_A : Z := 0xffff800000006008.
Definition cl_thread : Z := 0xffff800000004ee8.
Definition cl_region : Z := 0xffff800000007fd0.
Definition cl_B : Z := 0xffff800000008008.

Definition cl_sched : sched :=
  mkSched (<[cl_thread := mkThread 0 0xffff800000009000 0xffff80000000d000 0x4000 THREAD_DEAD 1 0x400000 0 0 0 cl_A (W64 - 1) 0 0]> (threads cr_sched)) cr_idle cr_idle cr_idle 2 0 0.
Definition cl_procA : process := mkProcess 1 (chars "a") 0 cl_thread 0x10000000 cl_region (replicate 64 0) (replicate 64 0) (chars "0:/") cl_B.
Definition cl_procB : process := mkProcess 2 (chars "b") 0 cr_idle 0x10000000 0 (replicate 64 0) (replicate 64 0) (chars "0:/") 0.
Definition cl_procs : gmap Z process := <[cl_A := cl_procA]> {[cl_B := cl_procB]}.
Definition cl_os : os_state pmm_state :=
  mkOs (mkSys (set_fs_heap (set_pg cl_p5 cl_h4) cr_fs) ∅ (sy_con (os_sys cr_os)) kbd_boot [] cl_sched cl_procs) (space_at 2) 0 ∅ ∅ ∅ (replicate 1024 0) 0 cl_A false.
Definition cl_machine : machine pmm_state := mkMachine cl_os 3 {[cl_region := mkRegion 0x10000000 4096 0]}.
Definition cl_R (x : Z) : list Z := if decide (x = cl_A) then [cl_region] else [].

Lemma cl_run1 : kmalloc SIZEOF_PROCESS cr_h4 = Ret (cl_A, cl_h1).
Proof. apply run_value. vm_compute. reflexivity. Qed.
Lemma cl_run2 : kmalloc SIZEOF_THREAD cl_h1 = Ret (cl_thread, cl_h2).
Proof. apply run_value. vm_compute. reflexivity. Qed.
Lemma cl_run3 : kmalloc SIZEOF_VM_REGION cl_h2 = Ret (cl_region, cl_h3).
Proof. apply run_value. vm_compute. reflexivity. Qed.
Lemma cl_run4 : kmalloc SIZEOF_PROCESS cl_h3 = Ret (cl_B, cl_h4).
Proof. apply run_value. vm_compute. reflexivity. Qed.
Lemma cl_run5 : fa_alloc_n 4 (mm_pg cl_h4) = Ret (0x9000, cl_p5).
Proof. apply run_value. vm_compute. reflexivity. Qed.
Lemma cl_zero : 0 ∉ fa_free (mm_pg cl_h4).
Proof. apply (bool_decide_unpack _). vm_compute. exact I. Qed.

#[local] Opaque cr_h4 cl_h1 cl_h2 cl_h3 cl_h4 cl_p5.

Definition cl_blocks : gset Z := {[cr_data; cr_idle; cl_A; cl_thread; cl_region; cl_B]}.

Lemma cl_inv : ∃ G fls, mm_inv (set_pg cl_p5 cl_h4) G fls {[(2, 3, 0) := 2]} ∧ (∀ b, live G fls b ↔ b ∈ cl_blocks ∨ b = cr_root) ∧ 13 ≤ fa_count cl_p5 ∧
  ∀ g, 9 ≤ g < 13 → (g ∉ fa_free cl_p5) ∧ unblocked_frame G g ∧ ∀ k, ({[(2, 3, 0) := 2]} : gmap (Z * Z * Z) Z) !! k ≠ Some g.
Proof.
  destruct cr_inv as (G0 & fl0 & c0 & n0 & H0 & Hl0 & _).
  destruct (demo_alloc _ _ _ _ _ SIZEOF_PROCESS _ H0 ltac:(unfold SIZEOF_PROCESS; lia) cl_run1) as (G1 & fl1 & c1 & n1 & H1 & _ & _ & _ & Hl1 & _).
  destruct (demo_alloc _ _ _ _ _ SIZEOF_THREAD _ H1 ltac:(unfold SIZEOF_THREAD; lia) cl_run2) as (G2 & fl2 & c2 & n2 & H2 & _ & _ & _ & Hl2 & _).
  destruct (demo_alloc _ _ _ _ _ SIZEOF_VM_REGION _ H2 ltac:(unfold SIZEOF_VM_REGION; lia) cl_run3) as (G3 & fl3 & c3 & n3 & H3 & _ & _ & _ & Hl3 & _).
  destruct (demo_alloc _ _ _ _ _ SIZEOF_PROCESS _ H3 ltac:(unfold SIZEOF_PROCESS; lia) cl_run4) as (G4 & fl4 & c4 & n4 & H4 & _ & _ & _ & Hl4 & _).
  destruct (demo_frames cl_h4 G4 fl4 _ 4 0x9000 cl_p5 H4 ltac:(lia) cl_zero cl_run5) as (f & Ef & H5 & _ & Hc & Hfr). assert (f = 9) as -> by lia.
  exists G4, fl4. split; [exact H5|]. split; [|split; [exact Hc|exact Hfr]].
  intros b. rewrite Hl4, Hl3, Hl2, Hl1, Hl0. unfold cl_blocks. clear. set_solver.
Qed.

Lemma cl_addresses : NoDup [0; cr_data; cr_idle; cl_A; cl_thread; cl_region; cl_B; cr_root].
Proof. apply (bool_decide_unpack _). by vm_compute. Qed.

Lemma cl_dead x : x ∈ [cl_A; cl_B] → dead cl_machine x → x = cl_A.
Proof. intros [->|[->|Hx%not_elem_of_nil]%elem_of_cons]%elem_of_cons Hd; [reflexivity| |done]. vm_compute in Hd. discriminate Hd. Qed.

Lemma cl_filter : filter (dead cl_machine) [cl_A; cl_B] = [cl_A] ∧ filter (λ x, ¬ dead cl_machine x) [cl_A; cl_B] = [cl_B].
Proof. split; vm_compute; reflexivity. Qed.

Lemma cl_graveyard G fls : mm_inv (set_pg cl_p5 cl_h4) G fls {[(2, 3, 0) := 2]} → (∀ b, live G fls b ↔ b ∈ cl_blocks ∨ b = cr_root) → 13 ≤ fa_count cl_p5 →
  (∀ g, 9 ≤ g < 13 → (g ∉ fa_free cl_p5) ∧ unblocked_frame G g ∧ ∀ k, ({[(2, 3, 0) := 2]} : gmap (Z * Z * Z) Z) !! k ≠ Some g) →
  graveyard cl_machine G fls {[(2, 3, 0) := 2]} [cl_A; cl_B] cl_R.
Proof.
  intros Hmm Hl Hc Hfr. destruct cl_filter as [Ef _]. assert (estates cl_machine cl_R [cl_A] = [cl_region; cl_thread; cl_A]) as Ee by reflexivity.
  split; rewrite ?Ef, ?Ee.
  - exact Hmm.
  - split; [|apply (bool_decide_unpack _); by vm_compute]. repeat (split; [reflexivity|]; split; [discriminate|]; eexists; split; [reflexivity|]). reflexivity.
  - intros x [->|[->|Hx%not_elem_of_nil]%elem_of_cons]%elem_of_cons; [eexists; reflexivity..|done].
  - intros x p Hx Hd Hp. rewrite (cl_dead x Hx Hd) in *. change (Some cl_procA = Some p) in Hp. injection Hp as <-.
    split; [reflexivity|]. split; [discriminate|]. eexists. split; reflexivity.
  - split; [apply (bool_decide_unpack _); by vm_compute|]. intros b Hb. apply Hl. unfold cl_blocks. clear - Hb. set_solver.
  - intros x t Hx Hd Ht. rewrite (cl_dead x Hx Hd) in Ht. injection Ht as <-. split; [reflexivity|split; [reflexivity|discriminate]|exact Hc|].
    intros g Hg. apply Hfr. exact Hg.
  - intros x y t u g Hx Hy Hdx Hdy Hne. destruct Hne. rewrite (cl_dead x Hx Hdx), (cl_dead y Hy Hdy). reflexivity.
Qed.

Lemma cl_unused : unused cl_machine [cl_A; cl_B] cl_R [cr_idle] cl_blocks.
Proof.
  destruct cl_filter as [Ef _]. assert (∀ x p, x ∈ [cl_A; cl_B] → dead cl_machine x → os_procs (mc_os cl_machine) !! x = Some p → x = cl_A ∧ p = cl_procA) as Hone.
  { intros x p Hx Hd Hp. rewrite (cl_dead x Hx Hd) in *. change (Some cl_procA = Some p) in Hp. injection Hp as <-. split; reflexivity. }
  split; rewrite ?Ef.
  - change (estates cl_machine cl_R [cl_A]) with [cl_region; cl_thread; cl_A]. intros b Hb. unfold cl_blocks. clear - Hb. set_solver.
  - intros a pt Ha. discriminate Ha.
  - intros x p Hx Hd Hp. destruct (Hone x p Hx Hd Hp) as [_ ->]. split; [apply (bool_decide_unpack _); by vm_compute|]. split; discriminate.
  - intros x p th t Hx Hd Hp Ht Ex. destruct (Hone x p Hx Hd Hp) as [-> ->]. change (threads cl_sched !! th = Some t) in Ht. unfold cl_sched in Ht. cbn [threads cr_sched] in Ht.
    apply lookup_insert_Some in Ht as [[<- _]|[_ [_ <-]%lookup_singleton_Some]]; [reflexivity|discriminate Ex].
  - intros x y p py Hx Hd Hp Hy Eth. destruct (Hone x p Hx Hd Hp) as [-> ->]. change (cl_procs !! y = Some py) in Hy. unfold cl_procs in Hy.
    apply lookup_insert_Some in Hy as [[<- _]|[_ [_ <-]%lookup_singleton_Some]]; [reflexivity|discriminate Eth].
Qed.

Lemma cl_sched_ok : sched_ok (kernel_view cl_os) [cr_idle].
Proof.
  split; change (k_sched (kernel_view cl_os)) with cl_sched; change (k_procs (kernel_view cl_os)) with cl_procs; unfold cl_sched; cbn [threads curr_thread idle_thread cr_sched].
  - right. split; [discriminate|]. split; [apply NoDup_singleton|]. repeat (split; [reflexivity|]; split; [discriminate|]; eexists; split; [reflexivity|]). reflexivity.
  - eexists. reflexivity.
  - eexists. reflexivity.
  - intros p t [[_ <-]|[_ [<- _]%lookup_singleton_Some]]%lookup_insert_Some Hr; [discriminate Hr|reflexivity].
  - intros p t [[_ <-]|[_ [_ <-]%lookup_singleton_Some]]%lookup_insert_Some Hp; [eexists; reflexivity|by destruct Hp].
Qed.

Lemma cl_os_ok G fls : mm_inv (set_pg cl_p5 cl_h4) G fls {[(2, 3, 0) := 2]} → (∀ b, live G fls b ↔ b ∈ cl_blocks ∨ b = cr_root) →
  os_ok cl_os cl_blocks ∅ ∅.
Proof.
  intros Hmm Hl. apply (no_ports cl_os _ {[cr_root]} G fls); try reflexivity.
  - exact (mi_heap _ _ _ _ Hmm).
  - intros b. rewrite Hl. clear. set_solver.
  - apply (bool_decide_unpack _). vm_compute. exact I.
  - apply (bool_decide_unpack _). vm_compute. exact I.
Qed.

(** The blocks in use are those of the structures. *)
Lemma cl_live G fls : (∀ b, live G fls b ↔ b ∈ cl_blocks ∨ b = cr_root) →
  ∀ b, live G fls b ↔ b ∈ cl_blocks ∪ fs_blocks cl_os ∪ dom (os_ports cl_os) ∪ dom (os_msgs cl_os) ∪ dom (os_bufs cl_os).
Proof.
  intros Hl b. unfold fs_blocks. change (os_files cl_os) with (∅ : gmap Z file). change (os_nodes cl_os) with (fs_nodes cr_fs). unfold cr_fs. cbn [fs_nodes].
  change (os_ports cl_os) with (∅ : gmap Z port). change (os_msgs cl_os) with (∅ : gmap Z msg_node). change (os_bufs cl_os) with (∅ : gmap Z (list Z)).
  rewrite Hl, !dom_empty_L, dom_singleton_L. clear. set_solver.
Qed.

Lemma proc_cleanup_correct_witness : ∃ s', proc_cleanup 0 (λ _, 0) 0 cl_machine = Ret (Some tt, s') ∧
  os_procs (mc_os s') !! cl_A = None ∧ 9 ∈ fa_free (mm_pg (os_heap (mc_os s'))).
Proof.
  destruct cl_inv as (G & fls & Hmm & Hl & Hc & Hfr). pose proof (cl_os_ok G fls Hmm Hl) as Hok.
  destruct (proc_cleanup_correct 0 (λ _, 0) 0 cl_machine G fls {[(2, 3, 0) := 2]} [cl_A; cl_B] cl_R [cr_idle] cl_blocks ∅ ∅)
    as (h & G' & fls' & Th & pr & pl & rs & Hrun & HB & _).
  - exact (cl_graveyard G fls Hmm Hl Hc Hfr).
  - exact cl_unused.
  - exact cl_sched_ok.
  - exact Hok.
  - exact (cl_live G fls Hl).
  - destruct cl_filter as [E1 E2]. rewrite E2 in Hrun. rewrite E1 in HB. eexists. split; [exact Hrun|]. split.
    + change (pr !! cl_A = None). pose proof (bu_procs _ _ _ _ _ _ _ _ _ _ _ _ HB cl_A) as E. rewrite decide_True in E by left. by destruct (pr !! cl_A).
    + change (9 ∈ fa_free (mm_pg h)). apply (dr_freed _ _ _ _ _ _ _ _ _ (bu_memory _ _ _ _ _ _ _ _ _ _ _ _ HB)). right.
      exists cl_A. eexists. split; [by left|]. split; [reflexivity|]. split; [discriminate|reflexivity].
Defined.
