(* ===== verification/Hw.v ===== *)
(** * Hardware: ports, registers and descriptor tables (src/arch/gdt.c, tss.c, src/userspace/cpu.c, src/serial/serial.c)

    The processor and its devices are not part of the program.  What the code does to
    them is a list of accesses, oldest first; what it reads is a function of the
    accesses so far, so that any device is allowed.  The descriptor tables lie in byte
    memory, where the code writes them field by field; what the processor finds there
    is stated with the field layout of its manual ([seg_base] and so on). *)

From S2P Require Import Prelude ByteMem CStr.

Inductive io :=
| Out (port v : Z)
| In (port : Z)
| MmioWrite (a v : Z)
| MmioRead (a : Z)
| Wrmsr (msr v : Z)
| Rdmsr (msr : Z)
| Lgdt (limit base : Z)
| Lidt (limit base : Z)
| Ltr (sel : Z)
| Sti.
#[export] Instance io_eq_dec : EqDecision io.
Proof. solve_decision. Defined.

Record hw_state := mkHw { hw_mem : mem; hw_io : list io }.
Abbreviation HM := (M hw_state).

Definition set_hw_mem (m : mem) (s : hw_state) : hw_state := mkHw m (hw_io s).
Definition note (e : io) : HM unit := modify (λ s, mkHw (hw_mem s) (hw_io s ++ [e])).
Definition put (n : nat) (a v : Z) : HM unit := modify (λ s, set_hw_mem (store_le n (hw_mem s) a v) s).

Section Ports.
Context (port_in : list io → Z → Z).

Definition outb (port v : Z) : HM unit := note (Out port (u8 v)).
Definition inb (port : Z) : HM Z := t <- gets hw_io ;; note (In port) ;;; ret (u8 (port_in t port)).

(** ** serial.c *)

Definition COM1 : Z := 0x3f8.

Definition serial_init : HM unit :=
  outb (COM1 + 1) 0x00 ;;;
  outb (COM1 + 3) 0x80 ;;;
  outb (COM1 + 0) 0x03 ;;;
  outb (COM1 + 1) 0x00 ;;;
  outb (COM1 + 3) 0x03 ;;;
  outb (COM1 + 2) 0xc7 ;;;
  outb (COM1 + 4) 0x0b.

Definition serial_ready : HM Z := v <- inb (COM1 + 5) ;; ret (Z.land v 0x20).

(** [while (!serial_ready());] *)
Fixpoint serial_wait (fuel : nat) : HM unit :=
  match fuel with
  | O => diverge
  | S f => r <- serial_ready ;; if r =? 0 then serial_wait f else ret tt
  end.

Definition serial_putchar (fuel : nat) (c : Z) : HM unit := serial_wait fuel ;;; outb COM1 c.

Fixpoint serial_write (fuel : nat) (str : list Z) : HM unit :=
  match str with
  | [] => ret tt
  | c :: str' => serial_putchar fuel c ;;; serial_write fuel str'
  end.

(** The bytes sent through the serial port. *)
Definition sent (t : list io) : list Z := omap (λ e, match e with Out p v => if p =? COM1 then Some v else None | _ => None end) t.

(** The transmitter gets ready while it is polled, after fewer than [k] turns. *)
Definition gets_ready (k : nat) : Prop := ∀ t, ∃ n, (n < k)%nat ∧ Z.land (u8 (port_in (t ++ replicate n (In (COM1 + 5))) (COM1 + 5))) 0x20 ≠ 0.

Lemma serial_ready_run s : serial_ready s = Ret (Z.land (u8 (port_in (hw_io s) (COM1 + 5))) 0x20, mkHw (hw_mem s) (hw_io s ++ [In (COM1 + 5)])).
Proof. reflexivity. Qed.

Lemma serial_wait_run k : gets_ready k → ∀ s, ∃ n, serial_wait k s = Ret (tt, mkHw (hw_mem s) (hw_io s ++ replicate n (In (COM1 + 5)))).
Proof.
  intros Hr s. destruct (Hr (hw_io s)) as (n & Hn & Hbit). clear Hr.
  revert s k Hn Hbit. induction n as [|n IH]; intros s k Hn Hbit; (destruct k as [|k]; [lia|]); cbn [serial_wait]; rewrite (bind_Ret _ _ _ _ _ (serial_ready_run s)).
  - exists 1%nat. cbn [replicate] in Hbit. rewrite app_nil_r in Hbit. by destruct (Z.eqb_spec (Z.land (u8 (port_in (hw_io s) (COM1 + 5))) 32) 0).
  - destruct (Z.eqb_spec (Z.land (u8 (port_in (hw_io s) (COM1 + 5))) 32) 0); [|exists 1%nat; done].
    destruct (IH (mkHw (hw_mem s) (hw_io s ++ [In (COM1 + 5)])) k) as (n' & Hrun); [lia|cbn [hw_io]; by rewrite <- app_assoc|].
    exists (S n'). rewrite Hrun. cbn [hw_mem hw_io replicate]. by rewrite <- app_assoc.
Qed.

(** serial_write: when the transmitter gets ready again and again, every byte of
    the string goes out, in order and once, and nothing else is sent. *)
Theorem serial_write_correct k str s : gets_ready k → Forall (λ c, 0 ≤ c < 256) str →
  ∃ t, serial_write k str s = Ret (tt, mkHw (hw_mem s) (hw_io s ++ t)) ∧ sent t = str.
Proof.
  intros Hr Hs. revert s. induction Hs as [|c str Hc _ IH]; intros s.
  - exists []. rewrite app_nil_r. by destruct s.
  - destruct (serial_wait_run k Hr s) as (n & Hw). cbn [serial_write]. unfold serial_putchar. rewrite bind_assoc, (bind_Ret _ _ _ _ _ Hw).
    unfold outb, note. rewrite bind_modify. cbn [hw_mem hw_io]. destruct (IH (mkHw (hw_mem s) ((hw_io s ++ replicate n (In (COM1 + 5))) ++ [Out COM1 (u8 c)]))) as (t & Hrun & Ht).
    exists (replicate n (In (COM1 + 5)) ++ Out COM1 (u8 c) :: t). rewrite Hrun. cbn [hw_mem hw_io]. rewrite <- !app_assoc. split; [done|].
    unfold sent. rewrite omap_app. cbn [omap list_omap]. fold (sent t). rewrite u8_small, Ht by lia.
    assert (omap (λ e, match e with Out p v => if p =? COM1 then Some v else None | _ => None end) (replicate n (In (COM1 + 5))) = ([] : list Z)) as -> by (clear; by induction n).
    done.
Qed.

End Ports.

Section Tables.
Context (msr_in : list io → Z → Z) (gdt tss cpu_local syscall_entry : Z).

Definition wrmsr (msr v : Z) : HM unit := note (Wrmsr msr (u64 v)).
Definition rdmsr (msr : Z) : HM Z := t <- gets hw_io ;; note (Rdmsr msr) ;;; ret (u64 (msr_in t msr)).

(** ** gdt.c *)

Definition GDT_ENTRIES : Z := 9.
Definition SIZEOF_TSS : Z := 104.

Definition gdt_set_entry (i base limit access gran : Z) : HM unit :=
  let e := gdt + i * 8 in
  put 2 (e + 2) (Z.land base 0xffff) ;;;
  put 1 (e + 4) (Z.land (Z.shiftr base 16) 0xff) ;;;
  put 1 (e + 7) (Z.land (Z.shiftr base 24) 0xff) ;;;
  put 2 (e + 0) (Z.land limit 0xffff) ;;;
  put 1 (e + 6) (Z.lor (Z.land (Z.shiftr limit 16) 0x0f) (Z.land gran 0xf0)) ;;;
  put 1 (e + 5) access.

Definition gdt_load_tss : HM unit :=
  let base := tss in
  let limit := SIZEOF_TSS - 1 in
  let tss_entry := gdt + 5 * 8 in
  put 2 (tss_entry + 0) (Z.land limit 0xffff) ;;;
  put 2 (tss_entry + 2) (Z.land base 0xffff) ;;;
  put 1 (tss_entry + 4) (Z.land (Z.shiftr base 16) 0xff) ;;;
  put 1 (tss_entry + 5) 0x89 ;;;
  put 1 (tss_entry + 6) (Z.land (Z.shiftr limit 16) 0x0f) ;;;
  put 1 (tss_entry + 7) (Z.land (Z.shiftr base 24) 0xff) ;;;
  put 4 (tss_entry + 8) (Z.land (Z.shiftr base 32) 0xffffffff) ;;;
  put 4 (tss_entry + 12) 0 ;;;
  note (Lgdt (GDT_ENTRIES * 8 - 1) gdt) ;;;
  note (Ltr 0x28).

Definition gdt_init : HM unit :=
  gdt_set_entry 0 0 0 0x00 0x00 ;;;
  gdt_set_entry 1 0 0xffffffff 0x9a 0x20 ;;;
  gdt_set_entry 2 0 0xffffffff 0x92 0xa0 ;;;
  gdt_set_entry 3 0 0xffffffff 0xf2 0xa0 ;;;
  gdt_set_entry 4 0 0xffffffff 0xfa 0x20 ;;;
  note (Lgdt (GDT_ENTRIES * 8 - 1) gdt).

(** ** tss.c *)

Definition tss_init : HM unit := put 2 (tss + 102) SIZEOF_TSS.
Definition tss_set_rsp0 (rsp : Z) : HM unit := put 8 (tss + 4) rsp.

(** ** cpu.c *)

Definition MSR_EFER : Z := 0xc0000080.
Definition MSR_STAR : Z := 0xc0000081.
Definition MSR_LSTAR : Z := 0xc0000082.
Definition MSR_SFMASK : Z := 0xc0000084.
Definition MSR_GS_BASE : Z := 0xc0000101.
Definition MSR_KERNEL_GS : Z := 0xc0000102.

Definition cpu_local_init : HM unit :=
  put 8 (cpu_local + 0) cpu_local ;;;
  put 8 (cpu_local + 8) 0 ;;;
  put 8 (cpu_local + 16) 0 ;;;
  wrmsr MSR_GS_BASE cpu_local ;;;
  wrmsr MSR_KERNEL_GS cpu_local.

Definition syscall_init : HM unit :=
  e <- rdmsr MSR_EFER ;;
  wrmsr MSR_EFER (Z.lor e 1) ;;;
  wrmsr MSR_STAR (Z.lor (Z.shiftl 0x08 32) (Z.shiftl 0x10 48)) ;;;
  wrmsr MSR_LSTAR syscall_entry ;;;
  wrmsr MSR_SFMASK (Z.shiftl 1 9).

Definition cpu_init : HM unit := cpu_local_init ;;; syscall_init.

(** ** What the processor finds *)

(** A descriptor at [a]: the fields as the manual lays them out. *)
Definition seg_limit (m : mem) (a : Z) : Z := load_le 2 m a + load8 m (a + 6) mod 16 * 2 ^ 16.
Definition seg_base (m : mem) (a : Z) : Z := load_le 2 m (a + 2) + load8 m (a + 4) * 2 ^ 16 + load8 m (a + 7) * 2 ^ 24.
Definition seg_access (m : mem) (a : Z) : Z := load8 m (a + 5).
Definition seg_flags (m : mem) (a : Z) : Z := load8 m (a + 6) / 16.

(** The last value written to a register. *)
Fixpoint last_msr (msr : Z) (t : list io) : option Z :=
  match t with
  | [] => None
  | Wrmsr r v :: t' => match last_msr msr t' with Some w => Some w | None => if r =? msr then Some v else None end
  | _ :: t' => last_msr msr t'
  end.

(** ** Descriptors *)

Record segment (m : mem) (a base limit access flags : Z) : Prop := {
  sg_base : seg_base m a = base;
  sg_limit : seg_limit m a = limit;
  sg_access : seg_access m a = access;
  sg_flags : seg_flags m a = flags;
}.

Lemma segment_ext m m' a b l c f : segment m a b l c f → (∀ x, a ≤ x < a + 8 → load8 m' x = load8 m x) → segment m' a b l c f.
Proof.
  intros [H1 H2 H3 H4] Hx. split; [rewrite <- H1|rewrite <- H2|rewrite <- H3|rewrite <- H4]; unfold seg_base, seg_limit, seg_access, seg_flags;
    rewrite ?(load_le_ext 2 m' m) by (intros; apply Hx; lia); rewrite !Hx by lia; done.
Qed.

(** One descriptor as gdt_set_entry stores it. *)
Definition entry_mem (e base limit access gran : Z) (m : mem) : mem :=
  store_le 1 (store_le 1 (store_le 2 (store_le 1 (store_le 1 (store_le 2 m (e + 2) (Z.land base 0xffff))
    (e + 4) (Z.land (Z.shiftr base 16) 0xff)) (e + 7) (Z.land (Z.shiftr base 24) 0xff)) (e + 0) (Z.land limit 0xffff))
    (e + 6) (Z.lor (Z.land (Z.shiftr limit 16) 0x0f) (Z.land gran 0xf0))) (e + 5) access.

Lemma gdt_set_entry_run i base limit access gran s :
  gdt_set_entry i base limit access gran s = Ret (tt, set_hw_mem (entry_mem (gdt + i * 8) base limit access gran (hw_mem s)) s).
Proof. reflexivity. Qed.

Lemma entry_frame e base limit access gran m x : ¬ (e ≤ x < e + 8) → load8 (entry_mem e base limit access gran m) x = load8 m x.
Proof. intros Hx. unfold entry_mem. rewrite !load8_store_le, !decide_False by lia. done. Qed.

Lemma nibbles x g : 0 ≤ x < 16 → 0 ≤ g < 256 →
  0 ≤ Z.lor x (Z.land g 0xf0) < 256 ∧ Z.lor x (Z.land g 0xf0) mod 16 = x ∧ Z.lor x (Z.land g 0xf0) / 16 = g / 16.
Proof.
  intros Hx Hg. set (ok x g := let v := Z.lor x (Z.land g 0xf0) in bool_decide (0 ≤ v < 256 ∧ v mod 16 = x ∧ v / 16 = g / 16)).
  assert (forallb (λ x, forallb (ok x) (seqZ 0 256)) (seqZ 0 16) = true) as H by (vm_compute; reflexivity).
  rewrite forallb_forall in H. specialize (H x). rewrite <- list_elem_of_In, elem_of_seqZ in H. specialize (H ltac:(lia)).
  rewrite forallb_forall in H. specialize (H g). rewrite <- list_elem_of_In, elem_of_seqZ in H. specialize (H ltac:(lia)). by apply bool_decide_eq_true in H.
Qed.

Ltac bytes := rewrite ?load8_store_le; repeat (first [rewrite decide_True by lia|rewrite decide_False by lia]).

(** gdt_set_entry stores the base, the low 20 bits of the limit, the access byte and
    the flags where the processor looks for them. *)
Lemma entry_segment e base limit access gran m : 0 ≤ base < 2 ^ 32 → 0 ≤ limit < 2 ^ 32 → 0 ≤ access < 256 → 0 ≤ gran < 256 →
  segment (entry_mem e base limit access gran m) e base (limit mod 2 ^ 20) access (gran / 16).
Proof.
  intros Hb Hl Ha Hg. destruct (nibbles (limit / 2 ^ 16 mod 16) gran ltac:(apply Z.mod_pos_bound; lia) Hg) as (N1 & N2 & N3).
  assert (Z.land base 0xffff = base mod 2 ^ 16 ∧ Z.land (Z.shiftr base 16) 0xff = base / 2 ^ 16 mod 2 ^ 8 ∧ Z.land (Z.shiftr base 24) 0xff = base / 2 ^ 24 mod 2 ^ 8 ∧
    Z.land limit 0xffff = limit mod 2 ^ 16 ∧ Z.land (Z.shiftr limit 16) 0x0f = limit / 2 ^ 16 mod 16) as (E1 & E2 & E3 & E4 & E5).
  { change 0xffff with (Z.ones 16). change 0xff with (Z.ones 8). change 0x0f with (Z.ones 4). rewrite !Z.land_ones, !Z.shiftr_div_pow2 by lia. done. }
  split; unfold seg_base, seg_limit, seg_access, seg_flags, entry_mem; rewrite E1, E2, E3, E4, E5; cbn [load_le]; bytes; unfold byte_of, u8; rewrite ?Z.sub_diag.
  - replace (e + 2 + 1 - (e + 2)) with 1 by lia. change (256 ^ 0) with 1. change (256 ^ 1) with 256. Z.to_euclidean_division_equations. lia.
  - replace (e + 1 - (e + 0)) with 1 by lia. replace (e - (e + 0)) with 0 by lia. change (256 ^ 0) with 1. change (256 ^ 1) with 256. rewrite !Z.div_1_r, (Z.mod_small (Z.lor _ _)), N2 by done.
    clear. Z.to_euclidean_division_equations. lia.
  - change (256 ^ 0) with 1. by rewrite Z.div_1_r, Z.mod_small.
  - change (256 ^ 0) with 1. by rewrite Z.div_1_r, Z.mod_small, N3 by done.
Qed.

(** The 16 bytes gdt_load_tss stores. *)
Definition tss_entry_mem (m : mem) : mem :=
  let e := gdt + 5 * 8 in
  store_le 4 (store_le 4 (store_le 1 (store_le 1 (store_le 1 (store_le 1 (store_le 2 (store_le 2 m (e + 0) (Z.land (SIZEOF_TSS - 1) 0xffff))
    (e + 2) (Z.land tss 0xffff)) (e + 4) (Z.land (Z.shiftr tss 16) 0xff)) (e + 5) 0x89) (e + 6) (Z.land (Z.shiftr (SIZEOF_TSS - 1) 16) 0x0f))
    (e + 7) (Z.land (Z.shiftr tss 24) 0xff)) (e + 8) (Z.land (Z.shiftr tss 32) 0xffffffff)) (e + 12) 0.

Lemma tss_entry_frame m x : ¬ (gdt + 40 ≤ x < gdt + 56) → load8 (tss_entry_mem m) x = load8 m x.
Proof. intros Hx. unfold tss_entry_mem. cbv zeta. rewrite !load8_store_le, !decide_False by lia. done. Qed.

Lemma tss_entry_segment m : 0 ≤ tss < W64 →
  segment (tss_entry_mem m) (gdt + 40) (tss mod 2 ^ 32) 103 0x89 0 ∧ load_le 4 (tss_entry_mem m) (gdt + 40 + 8) = tss / 2 ^ 32.
Proof.
  intros Ht. assert (Z.land tss 0xffff = tss mod 2 ^ 16 ∧ Z.land (Z.shiftr tss 16) 0xff = tss / 2 ^ 16 mod 2 ^ 8 ∧ Z.land (Z.shiftr tss 24) 0xff = tss / 2 ^ 24 mod 2 ^ 8 ∧
    Z.land (Z.shiftr tss 32) 0xffffffff = tss / 2 ^ 32 mod 2 ^ 32) as (E1 & E2 & E3 & E4).
  { change 0xffff with (Z.ones 16). change 0xff with (Z.ones 8). change 0xffffffff with (Z.ones 32). rewrite !Z.land_ones, !Z.shiftr_div_pow2 by lia. done. }
  unfold tss_entry_mem. cbv zeta. rewrite E1, E2, E3, E4. set (e := gdt + 40). replace (gdt + 5 * 8) with e by done. split.
  - split; unfold seg_base, seg_limit, seg_access, seg_flags; cbn [load_le]; bytes; unfold byte_of, u8; rewrite ?Z.sub_diag.
    + replace (e + 2 + 1 - (e + 2)) with 1 by lia. change (256 ^ 0) with 1. change (256 ^ 1) with 256. clear. Z.to_euclidean_division_equations. lia.
    + replace (e + 1 - (e + 0)) with 1 by lia. replace (e - (e + 0)) with 0 by lia. reflexivity.
    + reflexivity.
    + reflexivity.
  - change 0 with (0 mod 256 ^ 4) at 1. rewrite load_le_store_le_ne by lia. rewrite load_le_store_le_eq. rewrite Z.mod_small; [|apply Z.mod_pos_bound; lia].
    apply Z.mod_small. split; [apply Z.div_pos; lia|]. apply Z.div_lt_upper_bound; lia.
Qed.

Lemma last_msr_app r t t' : last_msr r (t ++ t') = match last_msr r t' with Some v => Some v | None => last_msr r t end.
Proof.
  induction t as [|e t IH]; cbn [app last_msr]; [by destruct (last_msr r t')|]. destruct e; rewrite ?IH; try done. by destruct (last_msr r t').
Qed.

(** The table with the five segments, and the whole of the set-up. *)
Definition gdt_mem (m : mem) : mem :=
  entry_mem (gdt + 4 * 8) 0 0xffffffff 0xfa 0x20 (entry_mem (gdt + 3 * 8) 0 0xffffffff 0xf2 0xa0 (entry_mem (gdt + 2 * 8) 0 0xffffffff 0x92 0xa0
    (entry_mem (gdt + 1 * 8) 0 0xffffffff 0x9a 0x20 (entry_mem (gdt + 0 * 8) 0 0 0x00 0x00 m)))).
Definition cpu_mem (m : mem) : mem := store_le 8 (store_le 8 (store_le 8 m (cpu_local + 0) cpu_local) (cpu_local + 8) 0) (cpu_local + 16) 0.
Definition star : Z := u64 (Z.lor (Z.shiftl 0x08 32) (Z.shiftl 0x10 48)).

Lemma put_run n a v s : put n a v s = Ret (tt, set_hw_mem (store_le n (hw_mem s) a v) s).
Proof. reflexivity. Qed.
Lemma note_run e s : note e s = Ret (tt, mkHw (hw_mem s) (hw_io s ++ [e])).
Proof. reflexivity. Qed.

Lemma gdt_init_run s : gdt_init s = Ret (tt, mkHw (gdt_mem (hw_mem s)) (hw_io s ++ [Lgdt (GDT_ENTRIES * 8 - 1) gdt])).
Proof. unfold gdt_init. do 5 rewrite (bind_Ret _ _ _ _ _ (gdt_set_entry_run _ _ _ _ _ _)). reflexivity. Qed.

Lemma gdt_load_tss_run s : gdt_load_tss s = Ret (tt, mkHw (tss_entry_mem (hw_mem s)) ((hw_io s ++ [Lgdt (GDT_ENTRIES * 8 - 1) gdt]) ++ [Ltr 0x28])).
Proof. unfold gdt_load_tss. cbv zeta. do 8 rewrite (bind_Ret _ _ _ _ _ (put_run _ _ _ _)). rewrite (bind_Ret _ _ _ _ _ (note_run _ _)). reflexivity. Qed.

(** The registers of the system call instruction, as syscall_init leaves them. *)
Definition msr_writes (e : Z) : list io :=
  [Wrmsr MSR_EFER e; Wrmsr MSR_STAR star; Wrmsr MSR_LSTAR (u64 syscall_entry); Wrmsr MSR_SFMASK (u64 (Z.shiftl 1 9))].

Lemma cpu_init_run s : ∃ t e, cpu_init s = Ret (tt, mkHw (cpu_mem (hw_mem s)) (hw_io s ++ t ++ msr_writes e)).
Proof.
  assert (∀ (t : list io) x y z a b c d, ((((((t ++ [x]) ++ [y]) ++ [z]) ++ [a]) ++ [b]) ++ [c]) ++ [d] = t ++ [x; y; z] ++ [a; b; c; d]) as E
    by (intros; by rewrite <- !app_assoc).
  eexists [_; _; _], _. unfold msr_writes. rewrite <- E. reflexivity.
Qed.

(** The memory after the whole set-up. *)
Definition tables_mem (m : mem) : mem := cpu_mem (tss_entry_mem (store_le 2 (gdt_mem m) (tss + 102) SIZEOF_TSS)).

Lemma setup_run s : ∃ t e, (gdt_init ;;; tss_init ;;; gdt_load_tss ;;; cpu_init) s =
  Ret (tt, mkHw (tables_mem (hw_mem s)) (t ++ msr_writes e)).
Proof.
  rewrite (bind_Ret _ _ _ _ _ (gdt_init_run s)). unfold tss_init. rewrite (bind_Ret _ _ _ _ _ (put_run _ _ _ _)), (bind_Ret _ _ _ _ _ (gdt_load_tss_run _)).
  match goal with |- context [cpu_init ?x] => destruct (cpu_init_run x) as (t & e & ->) end.
  eexists _, e. rewrite app_assoc. reflexivity.
Qed.

(** What the processor finds in the tables and registers: syscall loads the kernel's code and
    stack segments and sysret the user's, all present, of the right kind and privilege, from the
    value written to STAR; the task register names a descriptor with the base and size of the
    task state, which has no I/O bitmap; system calls start at syscall_entry with interrupts
    masked. *)
Definition descriptors_fit (m : mem) (t : list io) : Prop :=
  ∃ v, last_msr MSR_STAR t = Some v ∧ let desc sel := gdt + sel / 8 * 8 in
    let kernel_cs := v / 2 ^ 32 mod 2 ^ 16 in let user_base := v / 2 ^ 48 mod 2 ^ 16 in
    segment m (desc kernel_cs) 0 (2 ^ 20 - 1) 0x9a 0x2 ∧ segment m (desc (kernel_cs + 8)) 0 (2 ^ 20 - 1) 0x92 0xa ∧
    segment m (desc (user_base + 16)) 0 (2 ^ 20 - 1) 0xfa 0x2 ∧ segment m (desc (user_base + 8)) 0 (2 ^ 20 - 1) 0xf2 0xa ∧
    segment m (desc 0x28) (tss mod 2 ^ 32) 103 0x89 0 ∧ load_le 4 m (desc 0x28 + 8) = tss / 2 ^ 32 ∧ load_le 2 m (tss + 102) = 104 ∧
    last_msr MSR_LSTAR t = Some syscall_entry ∧ last_msr MSR_SFMASK t = Some (2 ^ 9).

(** The tables are in the way of neither each other nor the processor's own block. *)
Definition tables_apart : Prop :=
  (cpu_local + 24 ≤ gdt ∨ gdt + 72 ≤ cpu_local) ∧ (tss + 104 ≤ gdt ∨ gdt + 72 ≤ tss) ∧ (tss + 104 ≤ cpu_local ∨ cpu_local + 24 ≤ tss).

Lemma tables_fit m t e : 0 ≤ tss < W64 → 0 ≤ syscall_entry < W64 → tables_apart →
  descriptors_fit (tables_mem m) (t ++ msr_writes e).
Proof.
  intros Ht He (D1 & D2 & D3). exists star. rewrite !last_msr_app. split; [done|].
  set (m1 := gdt_mem m). unfold tables_mem. fold m1. set (m2 := tss_entry_mem (store_le 2 m1 (tss + 102) SIZEOF_TSS)). set (m3 := cpu_mem m2).
  assert (∀ x, gdt ≤ x < gdt + 40 → load8 m3 x = load8 m1 x) as Hf1.
  { intros x Hx. unfold m3, cpu_mem. bytes. unfold m2. rewrite tss_entry_frame by lia. by bytes. }
  assert (∀ x, gdt + 40 ≤ x < gdt + 56 → load8 m3 x = load8 m2 x) as Hf2 by (intros x Hx; unfold m3, cpu_mem; by bytes).
  destruct (tss_entry_segment (store_le 2 m1 (tss + 102) SIZEOF_TSS) Ht) as [Hts Htu]. fold m2 in Hts, Htu.
  cbv zeta. change (star / 2 ^ 32 mod 2 ^ 16) with 8. change (star / 2 ^ 48 mod 2 ^ 16) with 16.
  change (8 / 8 * 8) with 8. change ((8 + 8) / 8 * 8) with 16. change ((16 + 16) / 8 * 8) with 32. change ((16 + 8) / 8 * 8) with 24. change (0x28 / 8 * 8) with 40.
  assert (∀ i access gran m, 0 ≤ access < 256 → 0 ≤ gran < 256 → segment (entry_mem (gdt + i) 0 0xffffffff access gran m) (gdt + i) 0 (2 ^ 20 - 1) access (gran / 16)) as Hseg.
  { intros i a g m0 Ha Hg. apply (entry_segment (gdt + i) 0 0xffffffff a g m0); lia. }
  split_and!.
  - apply (segment_ext m1); [|intros; apply Hf1; lia]. eapply segment_ext; [apply (Hseg (1 * 8) 0x9a 0x20); lia|]. intros x Hx. unfold m1, gdt_mem. rewrite !entry_frame by lia. reflexivity.
  - apply (segment_ext m1); [|intros; apply Hf1; lia]. eapply segment_ext; [apply (Hseg (2 * 8) 0x92 0xa0); lia|]. intros x Hx. unfold m1, gdt_mem. rewrite !entry_frame by lia. reflexivity.
  - apply (segment_ext m1); [|intros; apply Hf1; lia]. apply (Hseg (4 * 8) 0xfa 0x20); lia.
  - apply (segment_ext m1); [|intros; apply Hf1; lia]. eapply segment_ext; [apply (Hseg (3 * 8) 0xf2 0xa0); lia|]. intros x Hx. unfold m1, gdt_mem. rewrite !entry_frame by lia. reflexivity.
  - apply (segment_ext m2); [done|]. intros; apply Hf2; lia.
  - rewrite <- Htu. apply load_le_ext. intros; apply Hf2; lia.
  - unfold m3, cpu_mem. rewrite !load_le_store_le_ne by lia. unfold m2. rewrite (load_le_ext 2 _ (store_le 2 m1 (tss + 102) SIZEOF_TSS)) by (intros; apply tss_entry_frame; lia).
    by rewrite load_le_store_le_eq.
  - cbn. by rewrite u64_small.
  - done.
Qed.

(** The four steps of the set-up, one after the other. *)
Theorem segments_correct s : 0 ≤ tss < W64 → 0 ≤ syscall_entry < W64 → tables_apart →
  ∃ s', (gdt_init ;;; tss_init ;;; gdt_load_tss ;;; cpu_init) s = Ret (tt, s') ∧ descriptors_fit (hw_mem s') (hw_io s').
Proof.
  intros Ht He Hd. destruct (setup_run s) as (t & e & Hrun). eexists. split; [exact Hrun|]. by apply tables_fit.
Qed.
End Tables.

(** A line that is ready after three polls. *)
Definition slow_line (t : list io) (port : Z) : Z := if decide (length (filter (λ e, e = In 0x3fd) t) mod 3 = 2)%nat then 0x20 else 0.

Lemma serial_write_correct_witness : ∃ t, serial_write slow_line 3 [72; 105] (mkHw ∅ []) = Ret (tt, mkHw ∅ t) ∧ sent t = [72; 105].
Proof.
  destruct (serial_write_correct slow_line 3 [72; 105] (mkHw ∅ [])) as (t & H1 & H2).
  - intros t. assert (∀ n, filter (λ e, e = In 0x3fd) (t ++ replicate n (In (COM1 + 5))) = filter (λ e, e = In 0x3fd) t ++ replicate n (In 0x3fd)) as E.
    { intros n. rewrite filter_app. f_equal. induction n as [|n IH]; [done|]. cbn [replicate]. rewrite filter_cons_True by done. by rewrite IH. }
    set (k := length (filter (λ e, e = In 0x3fd) t)). exists ((2 + 2 * k) mod 3)%nat. split; [apply Nat.mod_upper_bound; lia|].
    unfold slow_line. rewrite E, length_app, length_replicate. fold k. rewrite decide_True; [done|]. clear E.
    pose proof (Nat.mod_upper_bound k 3 ltac:(lia)). pose proof (Nat.div_mod k 3 ltac:(lia)). rewrite Nat.Div0.add_mod_idemp_r.
    replace (k + (2 + 2 * k))%nat with (2 + k * 3)%nat by lia. by rewrite Nat.Div0.mod_add.
  - repeat constructor; lia.
  - exists t. split; [exact H1|exact H2].
Defined.

Lemma segments_correct_witness : ∃ s' v, (gdt_init 0x1000 ;;; tss_init 0x2000 ;;; gdt_load_tss 0x1000 0x2000 ;;; cpu_init (λ _ _, 0) 0x3000 0x4000) (mkHw ∅ []) = Ret (tt, s') ∧
  last_msr MSR_STAR (hw_io s') = Some v ∧ segment (hw_mem s') (0x1000 + (v / 2 ^ 48 mod 2 ^ 16 + 16) / 8 * 8) 0 (2 ^ 20 - 1) 0xfa 0x2.
Proof.
  destruct (segments_correct (λ _ _, 0) 0x1000 0x2000 0x3000 0x4000 (mkHw ∅ [])) as (s' & H1 & v & H2 & _ & _ & H3 & _); [lia|lia|unfold tables_apart; lia|].
  exists s', v. split; [exact H1|]. split; [exact H2|exact H3].
Defined.
