(* ===== verification/Irq.v ===== *)
(** * Interrupts (src/arch/idt.c)

    The interrupt table, the set-up of the local APIC, its timer and the I/O APIC, and
    the two handlers the assembly stubs call.  Accesses to the hardware are recorded as
    in Hw.v; a message for the console is a format with its arguments.  The handlers
    end where the switch to another thread happens. *)

From S2P Require Import Prelude ByteMem FrameAlloc Heap Vmm CStr Hw Rtc Kbd Fbcon Thread Files Proc Spawn.

Definition IDT_ENTRIES : Z := 256.
Definition PIC1_DATA : Z := 0x21.
Definition PIC2_DATA : Z := 0xa1.
Definition LAPIC_ID : Z := 0x020.
Definition LAPIC_EOI : Z := 0x0b0.
Definition LAPIC_SPURIOUS : Z := 0x0f0.
Definition LAPIC_SIVR_ENABLE : Z := Z.shiftl 1 8.
Definition LAPIC_SPURIOUS_VECTOR : Z := 0xff.
Definition LAPIC_TPR : Z := 0x080.
Definition LAPIC_LVT_LINT0 : Z := 0x350.
Definition LAPIC_LVT_LINT1 : Z := 0x360.
Definition LAPIC_LVT_ERROR : Z := 0x370.
Definition LAPIC_LVT_MASKED : Z := Z.shiftl 1 16.
Definition LAPIC_LVT_TIMER : Z := 0x320.
Definition LAPIC_TIMER_ICR : Z := 0x380.
Definition LAPIC_TIMER_CCR : Z := 0x390.
Definition LAPIC_TIMER_DCR : Z := 0x3e0.
Definition LAPIC_TIMER_PERIODIC : Z := Z.shiftl 1 17.
Definition LAPIC_TIMER_VECTOR : Z := 0x20.
Definition PIT_CHANNEL2 : Z := 0x42.
Definition PIT_CMD : Z := 0x43.
Definition PIT_CTRL : Z := 0x61.
Definition IOAPIC_BASE : Z := 0xfec00000.
Definition IOAPIC_REGSEL : Z := 0x00.
Definition IOAPIC_REGWIN : Z := 0x10.
Definition PS2_DATA_PORT : Z := 0x60.
Definition KEYBOARD_VECTOR : Z := 32 + 1.

Record idt_entry := mkGate {
  offset_low : Z; selector : Z; ist : Z; type_attr : Z; offset_mid : Z; offset_high : Z; gate_zero : Z }.
Definition no_gate : idt_entry := mkGate 0 0 0 0 0 0 0.

(** int_frame_t. *)
Record int_frame := mkFrame {
  if_cr4 : Z; if_cr3 : Z; if_cr2 : Z; if_cr0 : Z;
  if_r15 : Z; if_r14 : Z; if_r13 : Z; if_r12 : Z; if_r11 : Z; if_r10 : Z; if_r9 : Z; if_r8 : Z;
  if_rbp : Z; if_rdi : Z; if_rsi : Z; if_rdx : Z; if_rcx : Z; if_rbx : Z; if_rax : Z;
  if_vector : Z; if_error : Z; if_rip : Z; if_cs : Z; if_rflags : Z; if_rsp : Z; if_ss : Z }.

Definition exception_names : list string := [
  "division by zero"; "debug"; "NMI"; "breakpoint"; "overflow"; "bound range exceeded"; "invalid opcode";
  "device not available"; "double fault"; "coprocessor segment overrun"; "invalid TSS"; "segment not present";
  "stack fault"; "general protection fault"; "page fault"; "reserved"; "x87 floating point"; "alignment check";
  "machine check"; "SIMD floating point"]%string.

(** A message: the format, and its arguments (strings and numbers). *)
Record message := mkMsg { msg_format : string; msg_strings : list string; msg_args : list Z }.

Record irq_state (P : Type) := mkIrq {
  ir_mc : machine P; ir_io : list io; lapic_timer_ticks : Z; ir_rtc : rtc_state; ir_cmos : nat;
  threads_enabled : bool; lapic_base : Z; lapic_timer_tpm : Z; ioapic_base : Z; idt : list idt_entry;
  ir_log : list message }.
Arguments mkIrq {P} _ _ _ _ _ _ _ _ _ _ _.
Arguments ir_mc {P} _.
Arguments ir_io {P} _.
Arguments lapic_timer_ticks {P} _.
Arguments ir_rtc {P} _.
Arguments ir_cmos {P} _.
Arguments threads_enabled {P} _.
Arguments lapic_base {P} _.
Arguments lapic_timer_tpm {P} _.
Arguments ioapic_base {P} _.
Arguments idt {P} _.
Arguments ir_log {P} _.

Section Irq.
Context {P : Type} `{FA : FrameAllocator P} `{B : Boot}.
Context (port_in mmio_in msr_in : list io → Z → Z) (cmos : nat → Z → Z).
Implicit Types s : irq_state P.
Abbreviation IM := (M (irq_state P)).

Definition set_mc (v : machine P) s : irq_state P :=
  mkIrq v (ir_io s) (lapic_timer_ticks s) (ir_rtc s) (ir_cmos s) (threads_enabled s) (lapic_base s) (lapic_timer_tpm s) (ioapic_base s) (idt s) (ir_log s).
Definition set_io (v : list io) s : irq_state P :=
  mkIrq (ir_mc s) v (lapic_timer_ticks s) (ir_rtc s) (ir_cmos s) (threads_enabled s) (lapic_base s) (lapic_timer_tpm s) (ioapic_base s) (idt s) (ir_log s).
Definition set_ticks (v : Z) s : irq_state P :=
  mkIrq (ir_mc s) (ir_io s) v (ir_rtc s) (ir_cmos s) (threads_enabled s) (lapic_base s) (lapic_timer_tpm s) (ioapic_base s) (idt s) (ir_log s).
Definition set_rtc (v : rtc_state) (n : nat) s : irq_state P :=
  mkIrq (ir_mc s) (ir_io s) (lapic_timer_ticks s) v n (threads_enabled s) (lapic_base s) (lapic_timer_tpm s) (ioapic_base s) (idt s) (ir_log s).
Definition set_lapic (b t : Z) s : irq_state P :=
  mkIrq (ir_mc s) (ir_io s) (lapic_timer_ticks s) (ir_rtc s) (ir_cmos s) (threads_enabled s) b t (ioapic_base s) (idt s) (ir_log s).
Definition set_ioapic (b : Z) s : irq_state P :=
  mkIrq (ir_mc s) (ir_io s) (lapic_timer_ticks s) (ir_rtc s) (ir_cmos s) (threads_enabled s) (lapic_base s) (lapic_timer_tpm s) b (idt s) (ir_log s).
Definition set_idt (v : list idt_entry) s : irq_state P :=
  mkIrq (ir_mc s) (ir_io s) (lapic_timer_ticks s) (ir_rtc s) (ir_cmos s) (threads_enabled s) (lapic_base s) (lapic_timer_tpm s) (ioapic_base s) v (ir_log s).
Definition fbcon_message (m : message) : IM unit := modify (λ s,
  mkIrq (ir_mc s) (ir_io s) (lapic_timer_ticks s) (ir_rtc s) (ir_cmos s) (threads_enabled s) (lapic_base s) (lapic_timer_tpm s) (ioapic_base s) (idt s) (ir_log s ++ [m])).

Definition on_mc {A} (m : M (machine P) A) : IM A := zoom ir_mc set_mc m.
Definition on_hw {A} (m : M hw_state A) : IM A := zoom (λ s, mkHw ∅ (ir_io s)) (λ h, set_io (hw_io h)) m.

(** ** The devices *)

Definition lapic_read (reg : Z) : IM Z :=
  base <- gets lapic_base ;;
  t <- gets ir_io ;;
  on_hw (note (MmioRead (base +64 reg))) ;;;
  ret (u32 (mmio_in t (base +64 reg))).
Definition lapic_write (reg v : Z) : IM unit := base <- gets lapic_base ;; on_hw (note (MmioWrite (base +64 reg) (u32 v))).

Definition pic_disable : IM unit := on_hw (outb PIC1_DATA 0xff) ;;; on_hw (outb PIC2_DATA 0xff).

(** [while (!(inb(PIT_CTRL) & 0x20));] *)
Fixpoint pit_wait (fuel : nat) : IM unit :=
  match fuel with
  | O => diverge
  | S f => v <- on_hw (inb port_in PIT_CTRL) ;; if Z.land v 0x20 =? 0 then pit_wait f else ret tt
  end.

Definition pit_sleep_ms (fuel : nat) (ms : Z) : IM unit :=
  let count := u32 (1193 * ms) in
  ctrl <- on_hw (inb port_in PIT_CTRL) ;;
  on_hw (outb PIT_CTRL (Z.land ctrl (Z.lnot 0x01))) ;;;
  on_hw (outb PIT_CMD 0xb0) ;;;
  on_hw (outb PIT_CHANNEL2 (Z.land count 0xff)) ;;;
  on_hw (outb PIT_CHANNEL2 (Z.land (Z.shiftr count 8) 0xff)) ;;;
  v <- on_hw (inb port_in PIT_CTRL) ;;
  on_hw (outb PIT_CTRL (Z.lor v 0x01)) ;;;
  pit_wait fuel.

Definition lapic_timer_calibrate (fuel : nat) : IM unit :=
  lapic_write LAPIC_TIMER_DCR 0x3 ;;;
  lapic_write LAPIC_LVT_TIMER LAPIC_LVT_MASKED ;;;
  lapic_write LAPIC_TIMER_ICR 0xffffffff ;;;
  pit_sleep_ms fuel 10 ;;;
  ccr <- lapic_read LAPIC_TIMER_CCR ;;
  let ticks := u32 (0xffffffff - ccr) in
  modify (λ s, set_lapic (lapic_base s) (ticks / 10) s).

Definition lapic_timer_start (ms : Z) : IM unit :=
  lapic_write LAPIC_TIMER_DCR 0x3 ;;;
  lapic_write LAPIC_LVT_TIMER (Z.lor LAPIC_TIMER_VECTOR LAPIC_TIMER_PERIODIC) ;;;
  tpm <- gets lapic_timer_tpm ;;
  lapic_write LAPIC_TIMER_ICR (tpm * ms).

(** vmm_map_page into the kernel's space. *)
Definition map_kernel (virt phys flags : Z) : IM unit :=
  sp <- gets (λ s, os_kspace (mc_os (ir_mc s))) ;;
  on_mc (on_mm (vmm_map_page sp virt phys flags)).

Definition lapic_init (fuel : nat) : IM unit :=
  v <- on_hw (rdmsr msr_in 0x1b) ;;
  let lo := u32 v in
  let hi := u32 (v / 2 ^ 32) in
  let phys := Z.land (Z.lor (Z.shiftl hi 32) lo) (not64 0xfff) in
  let virt := phys +64 hhdm_offset in
  map_kernel virt phys (Z.lor (Z.lor PAGE_WRITE PAGE_PWT) PAGE_PCD) ;;;
  modify (λ s, set_lapic virt (lapic_timer_tpm s) s) ;;;
  let lo := Z.lor lo (Z.shiftl 1 11) in
  on_hw (wrmsr 0x1b (Z.lor (Z.shiftl hi 32) lo)) ;;;
  lapic_write LAPIC_TPR 0 ;;;
  lapic_write LAPIC_LVT_LINT0 LAPIC_LVT_MASKED ;;;
  lapic_write LAPIC_LVT_LINT1 LAPIC_LVT_MASKED ;;;
  lapic_write LAPIC_LVT_ERROR (Z.lor 0x20 LAPIC_LVT_MASKED) ;;;
  sp <- lapic_read LAPIC_SPURIOUS ;;
  lapic_write LAPIC_SPURIOUS (Z.lor (Z.lor sp LAPIC_SIVR_ENABLE) 0xff) ;;;
  lapic_timer_calibrate fuel ;;;
  lapic_timer_start 10.

Definition ioapic_write (reg v : Z) : IM unit :=
  base <- gets ioapic_base ;;
  on_hw (note (MmioWrite (base +64 IOAPIC_REGSEL) (u32 reg))) ;;;
  on_hw (note (MmioWrite (base +64 IOAPIC_REGWIN) (u32 v))).

Definition ioapic_read (reg : Z) : IM Z :=
  base <- gets ioapic_base ;;
  on_hw (note (MmioWrite (base +64 IOAPIC_REGSEL) (u32 reg))) ;;;
  t <- gets ir_io ;;
  on_hw (note (MmioRead (base +64 IOAPIC_REGWIN))) ;;;
  ret (u32 (mmio_in t (base +64 IOAPIC_REGWIN))).

Definition ioapic_init : IM unit :=
  let phys := IOAPIC_BASE in
  let virt := phys +64 hhdm_offset in
  map_kernel virt phys (Z.lor (Z.lor PAGE_WRITE PAGE_PWT) PAGE_PCD) ;;;
  modify (set_ioapic virt).

Definition ioapic_set_irq (irq vector lapic_id : Z) : IM unit :=
  let low := vector in
  let high := u32 (Z.shiftl lapic_id 24) in
  ioapic_write (0x10 + irq * 2) low ;;;
  ioapic_write (0x10 + irq * 2 + 1) high.

Definition idt_enable (fuel : nat) : IM unit :=
  pic_disable ;;;
  lapic_init fuel ;;;
  ioapic_init ;;;
  id <- lapic_read LAPIC_ID ;;
  ioapic_set_irq 1 (32 + 1) (Z.shiftr id 24) ;;;
  on_hw (note Sti).

(** ** The table *)

Definition gate (handler attr : Z) : idt_entry :=
  mkGate (Z.land handler 0xffff) 0x08 0 attr (Z.land (Z.shiftr handler 16) 0xffff) (Z.land (Z.shiftr handler 32) 0xffffffff) 0.

Definition idt_set_entry (i handler attr : Z) : IM unit :=
  if (0 <=? i) && (i <? IDT_ENTRIES) then modify (λ s, set_idt (<[Z.to_nat i := gate handler attr]> (idt s)) s) else fault.

(** [for (i = 0; ...; i++) idt_set_entry(first + i, table[i], 0x8e)] *)
Fixpoint set_entries (first : Z) (table : list Z) : IM unit :=
  match table with
  | [] => ret tt
  | h :: table' => idt_set_entry first h 0x8e ;;; set_entries (first + 1) table'
  end.

(** [isr_table] and [irq_table] are the addresses of the stubs, [idt_addr] of the table. *)
Definition idt_init (isr_table irq_table : list Z) (idt_addr : Z) : IM unit :=
  set_entries 0 isr_table ;;;
  set_entries 32 irq_table ;;;
  on_hw (note (Lidt (IDT_ENTRIES * 16 - 1) idt_addr)).

(** ** The handlers *)

Definition lapic_eoi : IM unit := lapic_write LAPIC_EOI 0.
Definition apic_timer_ticks : IM Z := gets lapic_timer_ticks.

Definition frame_args (f : int_frame) : list Z :=
  [if_cr4 f; if_cr3 f; if_cr2 f; if_cr0 f; if_r15 f; if_r14 f; if_r13 f; if_r12 f; if_r11 f; if_r10 f; if_r9 f; if_r8 f;
   if_rbp f; if_rdi f; if_rsi f; if_rdx f; if_rcx f; if_rbx f; if_rax f; if_rsp f; if_cs f].
Definition frame_format : string := "  cr4=%lx cr3=%lx cr2=%lx cr0=%lx\n  r15=%lx r14=%lx r13=%lx r12=%lx\n  r11=%lx r10=%lx r9=%lx r8=%lx\n  rbp=%lx rdi=%lx rsi=%lx rdx=%lx\n  rcx=%lx rbx=%lx rax=%lx rsp=%lx cs=%lx\n".

(** [curr_thread->process ? curr_thread->process->pid : -1] *)
Definition curr_pid : IM Z :=
  p <- on_mc (on_os (in_sys curr_process)) ;;
  if p =? 0 then ret (W64 - 1) else pr <- on_mc (on_os (in_sys (get_proc p))) ;; ret (p_pid pr).

(** Where the handler ends: in another thread, or in the halt loop.  schedule must
    not come back to a dead thread. *)
Inductive isr_end := Switched | Halted.

Definition isr_handler (frame : int_frame) : IM isr_end :=
  if Z.land (if_cs frame) 3 =? 3 then
    let name := if if_vector frame <? 20 then default "unknown"%string (exception_names !! Z.to_nat (if_vector frame)) else "unknown"%string in
    pid <- curr_pid ;;
    fbcon_message (mkMsg "[E] userspace exception: pid=%d (%s) rip=%p\n" [name] [pid; if_rip frame]) ;;;
    fbcon_message (mkMsg frame_format [] (frame_args frame)) ;;;
    curr <- gets (λ s, curr_thread (os_sched (mc_os (ir_mc s)))) ;;
    on_mc (on_os (on_sched (runqueue_remove curr))) ;;;
    on_mc (on_os (on_sched (upd_thread curr (with_state THREAD_DEAD)))) ;;;
    ticks <- apic_timer_ticks ;;
    on_mc (on_os (in_kernel (schedule ticks))) ;;;
    curr' <- gets (λ s, curr_thread (os_sched (mc_os (ir_mc s)))) ;;
    if curr' =? curr then fault else ret Switched
  else
    fbcon_message (mkMsg "[EXCEPTION] vector=%d error=%x rip=%p rflags=%p\n" []
      [if_vector frame; if_error frame; if_rip frame; if_rflags frame]) ;;;
    fbcon_message (mkMsg frame_format [] (frame_args frame)) ;;;
    ret Halted.

(** boot_time, boot_epoch and boot_ticks read again. *)
Definition read_clock (fuel : nat) : IM unit :=
  n <- gets ir_cmos ;;
  r <- lift (rtc_read cmos fuel n) ;;
  let '(t, n') := r in
  e <- lift (rtc_to_epoch t) ;;
  ticks <- apic_timer_ticks ;;
  modify (set_rtc (mkRtc t e ticks) n').

(** The two system calls on this state: the time (stored at the caller's pointer) and the
    screen. *)
Definition sys_gettime : IM rtc_time :=
  ticks <- apic_timer_ticks ;;
  r <- gets ir_rtc ;;
  lift (rtc_now ticks r).
Definition sys_print (str : list Z) : IM unit := on_mc (on_os (in_sys (in_con (fbcon_write str)))).

Context (enter_addr : Z) (garbage : Z → Z) (init_name : Z).

(** [None] if proc_cleanup were to wait for a device. *)
Definition irq_handler (fuel : nat) (vector : Z) : IM (option unit) :=
  if vector =? LAPIC_SPURIOUS_VECTOR then fbcon_message (mkMsg "[W] spurious IRQ received\n" [] []) ;;; ret (Some tt)
  else if vector =? LAPIC_TIMER_VECTOR then
    lapic_eoi ;;;
    modify (λ s, set_ticks (lapic_timer_ticks s +64 1) s) ;;;
    ticks <- gets lapic_timer_ticks ;;
    (if ticks mod 6000 =? 0 then read_clock fuel else ret tt) ;;;
    cleanup <- gets (λ s, proc_needs_cleanup (mc_os (ir_mc s))) ;;
    r <- (if cleanup then
            on_mc (on_os (modify (set_cleanup false))) ;;;
            on_mc (proc_cleanup enter_addr garbage init_name)
          else ret (Some tt)) ;;
    match r with
    | None => ret None
    | Some _ =>
        enabled <- gets threads_enabled ;;
        (if enabled then ticks <- apic_timer_ticks ;; on_mc (on_os (in_kernel (schedule ticks))) else ret tt) ;;;
        ret (Some tt)
    end
  else if vector =? KEYBOARD_VECTOR then
    scancode <- on_hw (inb port_in PS2_DATA_PORT) ;;
    on_mc (on_os (in_sys (zoom sy_kbd (λ k y, set_kbd k (sy_pending y) y) (kbd_handle_scancode scancode)))) ;;;
    lapic_eoi ;;;
    ret (Some tt)
  else
    fbcon_message (mkMsg "[I] vector=%d\n" [] [vector]) ;;;
    lapic_eoi ;;;
    ret (Some tt).
End Irq.
