(* ===== verification/IrqThms.v ===== *)
(** * The interrupt handlers, proved

    A fault in user mode ends the thread and nothing else; the timer reaps and
    schedules; the keyboard interrupt feeds the event queue; the interrupt table leads
    to the stubs. *)

From S2P Require Import Prelude ByteMem FrameAlloc Pmm Heap HeapThms Vmm VmmThms CStr Tar Vfs VfsThms Kbd Fbcon Thread Port Files FilesThms SysMem Proc ProcThms Spawn CleanupThms Hw Rtc Irq.

(** What the processor finds in a gate. *)
Definition gate_target (e : idt_entry) : Z := offset_low e + offset_mid e * 2 ^ 16 + offset_high e * 2 ^ 32.
Definition gate_present (e : idt_entry) : bool := Z.testbit (type_attr e) 7.

Section IrqThms.
Context {P : Type} `{FA : FrameAllocator P} `{B : Boot}.
Implicit Types s : irq_state P.

Definition os_of s : os_state P := mc_os (ir_mc s).
Definition put_os (o : os_state P) s : irq_state P := set_mc (set_os o (ir_mc s)) s.

Lemma on_os_run {A} (m : M (os_state P) A) s a o : m (os_of s) = Ret (a, o) → on_mc (on_os m) s = Ret (a, put_os o s).
Proof. intros E. apply (zoom_Ret ir_mc set_mc _ s _ (set_os o (ir_mc s))). by apply (zoom_Ret mc_os set_os). Qed.
Lemma on_os_read {A} (m : M (os_state P) A) s a : m (os_of s) = Ret (a, os_of s) → on_mc (on_os m) s = Ret (a, s).
Proof. intros E. rewrite (on_os_run _ _ _ _ E). by destruct s as [[]]. Qed.

(** ** The table *)

Lemma gate_target_gate h attr : 0 ≤ h < W64 → gate_target (gate h attr) = h.
Proof.
  intros Hh. unfold gate_target, gate. cbn [offset_low offset_mid offset_high]. change 0xffff with (Z.ones 16). change 0xffffffff with (Z.ones 32).
  rewrite !Z.land_ones, !Z.shiftr_div_pow2 by lia. Z.to_euclidean_division_equations. lia.
Qed.

Lemma set_entries_run table : ∀ first s, 0 ≤ first → first + Z.of_nat (length table) ≤ 256 → length (idt s) = 256%nat →
  ∃ l, set_entries first table s = Ret (tt, set_idt l s) ∧ length l = 256%nat ∧
    (∀ i h, table !! i = Some h → l !! (Z.to_nat first + i)%nat = Some (gate h 0x8e)) ∧
    (∀ k, (k < Z.to_nat first)%nat ∨ (Z.to_nat first + length table ≤ k)%nat → l !! k = idt s !! k).
Proof.
  induction table as [|h table IH]; intros first s H0 Hle Hlen.
  - exists (idt s). split; [by destruct s|]. split; [done|]. split; [|done]. intros i h Hi. by rewrite lookup_nil in Hi.
  - cbn [set_entries length] in *. unfold idt_set_entry. destruct (Z.leb_spec 0 first); [|lia]. destruct (Z.ltb_spec first IDT_ENTRIES) as [_|Hf]; [|unfold IDT_ENTRIES in Hf; lia].
    cbn [andb]. rewrite bind_modify. set (s1 := set_idt _ s). destruct (IH (first + 1) s1) as (l & Hrun & Hl & Hin & Hout); [lia|lia|cbn; by rewrite length_insert|].
    exists l. split; [exact Hrun|]. split; [done|]. split.
    + intros i x Hi. destruct i as [|i]; cbn in Hi.
      * injection Hi as <-. rewrite Hout by lia. cbn. replace (Z.to_nat first + 0)%nat with (Z.to_nat first) by lia. apply list_lookup_insert_eq. lia.
      * specialize (Hin i x Hi). by replace (Z.to_nat first + S i)%nat with (Z.to_nat (first + 1) + i)%nat by lia.
    + intros k Hk. rewrite Hout by lia. cbn. apply list_lookup_insert_ne. lia.
Qed.

(** idt_init: vector 0 to 31 lead to the exception stubs and 32 to 47 to the
    interrupt stubs, each present and with the stub's full address; no other vector
    gets a gate, in particular not the vector the local APIC uses for spurious
    interrupts. *)
Theorem idt_init_correct isr irq addr s :
  length isr = 32%nat → length irq = 16%nat → Forall (λ h, 0 ≤ h < W64) (isr ++ irq) → length (idt s) = 256%nat →
  ∃ l, idt_init isr irq addr s = Ret (tt, set_io (ir_io s ++ [Lidt 4095 addr]) (set_idt l s)) ∧ length l = 256%nat ∧
    (∀ v h, (isr ++ irq) !! v = Some h → ∃ e, l !! v = Some e ∧ gate_target e = h ∧ gate_present e = true ∧ selector e = 0x08) ∧
    (∀ v, (48 ≤ v)%nat → l !! v = idt s !! v) ∧ l !! Z.to_nat LAPIC_SPURIOUS_VECTOR = idt s !! 255%nat.
Proof.
  intros H1 H2 Hr Hlen. destruct (set_entries_run isr 0 s) as (l1 & Hrun1 & Hl1 & Hin1 & Hout1); [lia|lia|done|].
  destruct (set_entries_run irq 32 (set_idt l1 s)) as (l2 & Hrun2 & Hl2 & Hin2 & Hout2); [lia|lia|done|]. change (Z.to_nat 0) with 0%nat in *. change (Z.to_nat 32) with 32%nat in *.
  exists l2. split; [unfold idt_init; by rewrite (bind_Ret _ _ _ _ _ Hrun1), (bind_Ret _ _ _ _ _ Hrun2)|]. split; [done|].
  assert (∀ v, (48 ≤ v)%nat → l2 !! v = idt s !! v) as Hout by (intros v Hv; rewrite Hout2 by lia; cbn; apply Hout1; lia).
  split; [|split; [done|apply Hout; vm_compute; lia]]. intros v h Hv. exists (gate h 0x8e).
  assert (0 ≤ h < W64) as Hh by (rewrite Forall_forall in Hr; by apply Hr, list_elem_of_lookup_2 with v). split; [|split; [by apply gate_target_gate|done]].
  apply lookup_app_Some in Hv as [Hv|[Hge Hv]].
  - pose proof (lookup_lt_Some _ _ _ Hv). rewrite Hout2 by lia. cbn. by apply (Hin1 v).
  - rewrite H1 in *. specialize (Hin2 _ _ Hv). by replace (32 + (v - 32))%nat with v in Hin2 by lia.
Qed.

(** ** Exceptions *)

Lemma put_os_put o o' s : put_os o' (put_os o s) = put_os o' s.
Proof. done. Qed.
Lemma os_of_put o s : os_of (put_os o s) = o.
Proof. done. Qed.

Lemma curr_pid_run s p : th_process <$> threads (os_sched (os_of s)) !! curr_thread (os_sched (os_of s)) = Some p →
  (p ≠ 0 → is_Some (os_procs (os_of s) !! p)) → ∃ n, curr_pid s = Ret (n, s).
Proof.
  intros Hp Hproc. unfold curr_pid. rewrite (bind_Ret _ _ _ _ _ (on_os_read _ _ _ (curr_process_os (os_of s) p Hp))).
  destruct (Z.eqb_spec p 0) as [->|Hne]; [eexists; done|]. destruct (Hproc Hne) as [pr Hpr].
  rewrite (bind_Ret _ _ _ _ _ (on_os_read _ _ _ (os_get_proc (os_of s) p pr Hpr))). eexists; done.
Qed.

(** The messages of the handler change nothing else. *)
Definition logged (ms : list message) s : irq_state P :=
  mkIrq (ir_mc s) (ir_io s) (lapic_timer_ticks s) (ir_rtc s) (ir_cmos s) (threads_enabled s) (lapic_base s) (lapic_timer_tpm s) (ioapic_base s) (idt s) (ir_log s ++ ms).

Lemma fbcon_message_run m s : fbcon_message m s = Ret (tt, logged [m] s).
Proof. reflexivity. Qed.

(** C12. A fault in user mode: the thread is dead and out of the run queue, and another
    thread of the queue is running.  That is all: unlike sys_exit, the handler closes
    no port and no file, does not ask for proc_cleanup, and a thread that waits for
    the process still waits. *)
Theorem isr_user_fault frame s l1 l2 th t :
  Z.land (if_cs frame) 3 = 3 → sched_ok (kernel_view (os_of s)) (l1 ++ th :: l2) → curr_thread (os_sched (os_of s)) = th →
  threads (os_sched (os_of s)) !! th = Some t → idle_thread (os_sched (os_of s)) ∈ l1 ++ l2 →
  ∃ s' l', isr_handler frame s = Ret (Switched, s') ∧ l' ≡ₚ l1 ++ l2 ∧ sched_ok (kernel_view (os_of s')) l' ∧
    curr_thread (os_sched (os_of s')) ∈ l1 ++ l2 ∧ th_state <$> threads (os_sched (os_of s')) !! th = Some THREAD_DEAD ∧
    (∀ x, x ≠ th → x ≠ curr_thread (os_sched (os_of s')) → core <$> threads (os_sched (os_of s')) !! x = core <$> threads (os_sched (os_of s)) !! x) ∧
    os_ports (os_of s') = os_ports (os_of s) ∧ os_procs (os_of s') = os_procs (os_of s) ∧ os_files (os_of s') = os_files (os_of s) ∧
    os_nodes (os_of s') = os_nodes (os_of s) ∧ proc_list (os_of s') = proc_list (os_of s) ∧ proc_needs_cleanup (os_of s') = proc_needs_cleanup (os_of s).
Proof.
  intros Hcs Hso Ecur Ht Hidle. unfold isr_handler. rewrite Hcs. change (3 =? 3) with true. cbv iota zeta.
  destruct (curr_pid_run s (th_process t)) as (n & Hpid); [by rewrite Ecur, Ht|intros Hp; by apply (so_proc _ _ Hso th t)|].
  rewrite (bind_Ret _ _ _ _ _ Hpid), !(bind_Ret _ _ _ _ _ (fbcon_message_run _ _)), bind_gets. set (s1 := logged _ (logged _ s)).
  change (mc_os (ir_mc s1)) with (os_of s). rewrite Ecur.
  destruct (retire_run (os_of s) l1 th l2 t Hso Ht) as (c & Hrun & Hso2 & [(td & Htd & Ed) Hoth Ecu2 Eid2]).
  apply bind_Ret_inv in Hrun as ([] & o1 & Hr1 & Hr2).
  rewrite (bind_Ret _ _ _ _ _ (on_os_run _ s1 _ _ Hr1)), (bind_Ret _ _ _ _ _ (on_os_run _ (put_os o1 s1) _ _ Hr2)). unfold apic_timer_ticks. rewrite put_os_put, bind_gets.
  set (o2 := put_sched c (os_of s)) in *. set (ticks := lapic_timer_ticks _).
  assert (th ∉ l1 ++ l2) as Hthl.
  { destruct (so_ring _ _ Hso) as [[E _]|(_ & Hnd & _)]; [by destruct l1|]. apply NoDup_app in Hnd as (_ & Hd & Hnd). apply NoDup_cons in Hnd as [Hnd _].
    intros [Hin|Hin]%elem_of_app; [by apply (Hd th Hin); left|done]. }
  destruct (schedule_run o2 (l1 ++ l2) ticks Hso2) as (c' & c1 & o' & l' & Hrun & Hp & Hperm & Hso' & Ec & Hsw).
  change (os_sched o2) with c in *. rewrite Ecu2, Ecur in Hsw.
  assert (c' ≠ th ∧ c' ∈ l1 ++ l2) as [Hne Hin].
  { destruct Hp as [(E & _ & _)|(_ & [(_ & -> & _)|(la & lb & t' & E & _)])]; [rewrite E in Hidle; by apply not_elem_of_nil in Hidle| |].
    - rewrite Eid2. split; [intros E; by rewrite <- E in Hthl|done].
    - rewrite E. split; [intros ->; apply Hthl; rewrite E; set_solver|set_solver]. }
  destruct (Hsw Hne) as [_ [S1 S2 S3 S4 S5 (F1 & F2 & F3 & F4)]].
  rewrite (bind_Ret _ _ _ _ _ (on_os_run _ (put_os o2 s1) _ _ Hrun)), put_os_put, bind_gets. change (mc_os (ir_mc (put_os o' s1))) with o'. rewrite Ec.
  destruct (Z.eqb_spec c' th); [done|]. exists (put_os o' s1), l'. change (os_of (put_os o' s1)) with o'. rewrite Ec.
  split_and!; try done.
  - rewrite S3. change (threads (os_sched o2)) with (threads c). rewrite Htd. cbn [fmap option_fmap option_map]. unfold preempted. rewrite bool_decide_eq_false_2; [|by rewrite (f_equal th_state Ed : th_state td = THREAD_DEAD)].
    f_equal. exact (f_equal th_state Ed).
  - intros x Hx Hxc. rewrite S2 by done. by apply Hoth.
  - exact (f_equal ps_ports S5).
  - exact (f_equal ps_procs S5).
Qed.

(** ** The timer *)

Lemma lapic_eoi_run s : lapic_eoi s = Ret (tt, set_io (ir_io s ++ [MmioWrite (lapic_base s +64 LAPIC_EOI) 0]) s).
Proof. reflexivity. Qed.

(** The state in which the timer's handler decides: acknowledged, one tick later. *)
Definition ticked s : irq_state P := set_ticks (lapic_timer_ticks s +64 1) (set_io (ir_io s ++ [MmioWrite (lapic_base s +64 LAPIC_EOI) 0]) s).

(** The scheduler only sees its part of the state. *)
Lemma schedule_rest (o o' : os_state P) ticks : in_kernel (schedule ticks) o = Ret (tt, o') →
  os_ports o' = os_ports o ∧ os_files o' = os_files o ∧ os_nodes o' = os_nodes o ∧ proc_list o' = proc_list o ∧
  proc_needs_cleanup o' = proc_needs_cleanup o ∧ os_procs o' = os_procs o.
Proof. intros Hrun. apply zoom_Ret_inv in Hrun as (k & Hk & ->). split_and!; done. Qed.

Context (port_in : list io → Z → Z) (cmos : nat → Z → Z) (addr : Z) (garbage : Z → Z) (init_name : Z).

(** The handler up to the decision about cleaning up. *)
Lemma timer_start fuel s : (lapic_timer_ticks s +64 1) mod 6000 ≠ 0 →
  irq_handler port_in cmos addr garbage init_name fuel LAPIC_TIMER_VECTOR s =
    (cleanup <- gets (λ s, proc_needs_cleanup (mc_os (ir_mc s))) ;;
     r <- (if cleanup then on_mc (on_os (modify (set_cleanup false))) ;;; on_mc (proc_cleanup addr garbage init_name) else ret (Some tt)) ;;
     match r with
     | None => ret None
     | Some _ =>
        enabled <- gets threads_enabled ;;
        (if enabled then ticks <- apic_timer_ticks ;; on_mc (on_os (in_kernel (schedule ticks))) else ret tt) ;;; ret (Some tt)
     end) (ticked s).
Proof.
  intros Hm. unfold irq_handler. change (LAPIC_TIMER_VECTOR =? LAPIC_SPURIOUS_VECTOR) with false. change (LAPIC_TIMER_VECTOR =? LAPIC_TIMER_VECTOR) with true. cbv iota.
  rewrite (bind_Ret _ _ _ _ _ (lapic_eoi_run s)), bind_modify, bind_gets. change (lapic_timer_ticks (set_ticks _ _)) with (lapic_timer_ticks s +64 1).
  destruct (Z.eqb_spec ((lapic_timer_ticks s +64 1) mod 6000) 0); [done|]. by rewrite bind_ret.
Qed.

(** A timer interrupt with nothing to clean up: it is acknowledged at the local
    APIC, the tick counter advances by one, and the thread runqueue_next picks at the
    new tick is the one that runs; nothing but the scheduler has changed. *)
Theorem timer_tick_correct fuel s l :
  (lapic_timer_ticks s +64 1) mod 6000 ≠ 0 → threads_enabled s = true → proc_needs_cleanup (os_of s) = false → sched_ok (kernel_view (os_of s)) l →
  ∃ s' l' c' c1, irq_handler port_in cmos addr garbage init_name fuel LAPIC_TIMER_VECTOR s = Ret (Some tt, s') ∧
    lapic_timer_ticks s' = lapic_timer_ticks s +64 1 ∧ ir_io s' = ir_io s ++ [MmioWrite (lapic_base s +64 LAPIC_EOI) 0] ∧
    picks (os_sched (os_of s)) (lapic_timer_ticks s +64 1) l c' c1 ∧ curr_thread (os_sched (os_of s')) = c' ∧ l' ≡ₚ l ∧ sched_ok (kernel_view (os_of s')) l' ∧
    os_ports (os_of s') = os_ports (os_of s) ∧ os_files (os_of s') = os_files (os_of s) ∧ os_procs (os_of s') = os_procs (os_of s).
Proof.
  intros Hm Hen Hcl Hso. destruct (schedule_run (os_of s) l (lapic_timer_ticks s +64 1) Hso) as (c' & c1 & o' & l' & Hrun & Hp & Hperm & Hso' & Ec & _).
  destruct (schedule_rest _ _ _ Hrun) as (R1 & R2 & _ & _ & _ & R6). exists (put_os o' (ticked s)), l', c', c1. split; [|split_and!; done].
  rewrite timer_start by done. rewrite bind_gets. change (proc_needs_cleanup (mc_os (ir_mc (ticked s)))) with (proc_needs_cleanup (os_of s)). rewrite Hcl, bind_ret, bind_gets.
  change (threads_enabled (ticked s)) with (threads_enabled s). rewrite Hen. unfold apic_timer_ticks. rewrite bind_assoc, bind_gets. change (lapic_timer_ticks (ticked s)) with (lapic_timer_ticks s +64 1).
  by rewrite (bind_Ret _ _ _ _ _ (on_os_run _ (ticked s) _ _ Hrun)).
Qed.

(** C11. A timer interrupt after a process has ended: the request is taken back, the dead
    processes are off the list with everything proc_cleanup releases, and the scheduler
    goes on with the others. *)
Theorem timer_reaps fuel s G fls T l R q X Q C : let mc := set_os (set_cleanup false (os_of s)) (ir_mc s) in
  (lapic_timer_ticks s +64 1) mod 6000 ≠ 0 → threads_enabled s = true → proc_needs_cleanup (os_of s) = true →
  graveyard mc G fls T l R → unused mc l R q X → sched_ok (kernel_view (mc_os mc)) q → os_ok (mc_os mc) X Q C →
  (∀ b, live G fls b ↔ b ∈ X ∪ fs_blocks (mc_os mc) ∪ dom (os_ports (mc_os mc)) ∪ dom (os_msgs (mc_os mc)) ∪ dom (os_bufs (mc_os mc))) →
  filter (λ x, ¬ dead mc x) l ≠ [] →
  ∃ s' q', irq_handler port_in cmos addr garbage init_name fuel LAPIC_TIMER_VECTOR s = Ret (Some tt, s') ∧
    lapic_timer_ticks s' = lapic_timer_ticks s +64 1 ∧ proc_needs_cleanup (os_of s') = false ∧ q' ≡ₚ q ∧ sched_ok (kernel_view (os_of s')) q' ∧
    plist (os_procs (os_of s')) (proc_list (os_of s')) (filter (λ x, ¬ dead mc x) l) ∧
    (∀ x, unlinked <$> os_procs (os_of s') !! x = if decide (x ∈ filter (dead mc) l) then None else unlinked <$> os_procs (os_of s) !! x).
Proof.
  intros mc Hm Hen Hcl Hgy Hun Hso Hos Hlive Hal.
  destruct (proc_cleanup_run addr garbage init_name mc G fls T l R q X Q C Hgy Hun Hso Hos Hlive) as (h & G' & fls' & Th & pr & pl & rs & Hrun & HB & Hpl & Hso1 & _).
  rewrite decide_False in Hrun by done. set (mc1 := after mc h Th pr pl rs) in *.
  destruct (schedule_run (mc_os mc1) q (lapic_timer_ticks s +64 1) Hso1) as (c' & c1 & o' & q' & Hrun2 & _ & Hperm & Hso' & _).
  destruct (schedule_rest _ _ _ Hrun2) as (_ & _ & _ & R4 & R5 & R6). exists (put_os o' (set_mc mc1 (ticked s))), q'. change (os_of (put_os o' _)) with o'. rewrite R4, R5, R6.
  split; [|split_and!; try done; apply (bu_procs _ _ _ _ _ _ _ _ _ _ _ _ HB)].
  rewrite timer_start by done. rewrite bind_gets. change (proc_needs_cleanup (mc_os (ir_mc (ticked s)))) with (proc_needs_cleanup (os_of s)). rewrite Hcl, bind_assoc.
  rewrite (bind_Ret _ _ _ _ _ (on_os_run _ (ticked s) tt (set_cleanup false (os_of s)) eq_refl)).
  assert (on_mc (proc_cleanup addr garbage init_name) (put_os (set_cleanup false (os_of s)) (ticked s)) = Ret (Some tt, set_mc mc1 (ticked s))) as Hc.
  { exact (zoom_Ret ir_mc set_mc _ (put_os (set_cleanup false (os_of s)) (ticked s)) _ _ Hrun). }
  rewrite (bind_Ret _ _ _ _ _ Hc), bind_gets. change (threads_enabled (set_mc mc1 (ticked s))) with (threads_enabled s). rewrite Hen. unfold apic_timer_ticks. rewrite bind_assoc, bind_gets.
  change (lapic_timer_ticks (set_mc mc1 (ticked s))) with (lapic_timer_ticks s +64 1). by rewrite (bind_Ret _ _ _ _ _ (on_os_run _ (set_mc mc1 (ticked s)) _ _ Hrun2)).
Qed.

(** The keyboard interrupt: the scan code the controller holds is translated, and
    the queue of events, the modifiers and the acknowledgement are as they should be. *)
Theorem keyboard_irq_correct fuel s q :
  kbd_rep (sy_kbd (os_sys (os_of s))) q → let sc := u8 (port_in (ir_io s) PS2_DATA_PORT) in
  ∃ s', irq_handler port_in cmos addr garbage init_name fuel KEYBOARD_VECTOR s = Ret (Some tt, s') ∧
    mods (sy_kbd (os_sys (os_of s'))) = (kbd_step (mods (sy_kbd (os_sys (os_of s))), q) sc).1 ∧
    kbd_rep (sy_kbd (os_sys (os_of s'))) (kbd_step (mods (sy_kbd (os_sys (os_of s))), q) sc).2 ∧
    ir_io s' = ir_io s ++ [In PS2_DATA_PORT; MmioWrite (lapic_base s +64 LAPIC_EOI) 0].
Proof.
  intros Hq sc. destruct (handle_spec _ q sc Hq (u8_range _)) as (k & Hrun & Hm & Hk). set (s1 := set_io (ir_io s ++ [In PS2_DATA_PORT]) s).
  assert (on_hw (inb port_in PS2_DATA_PORT) s = Ret (sc, s1)) as Hin by done.
  set (o := set_sys (set_kbd k (sy_pending (os_sys (os_of s))) (os_sys (os_of s))) (os_of s)).
  assert (on_mc (on_os (in_sys (zoom sy_kbd (λ k y, set_kbd k (sy_pending y) y) (kbd_handle_scancode sc)))) s1 = Ret (tt, put_os o s1)) as Hkb.
  { apply on_os_run. apply (in_sys_run _ (os_of s1) tt). change (os_sys (os_of s1)) with (os_sys (os_of s)).
    apply (zoom_Ret sy_kbd (λ k y, set_kbd k (sy_pending y) y) _ (os_sys (os_of s)) tt k Hrun). }
  eexists. split; [|split; [|split]].
  - unfold irq_handler. change (KEYBOARD_VECTOR =? LAPIC_SPURIOUS_VECTOR) with false. change (KEYBOARD_VECTOR =? LAPIC_TIMER_VECTOR) with false.
    change (KEYBOARD_VECTOR =? KEYBOARD_VECTOR) with true. cbv iota. by rewrite (bind_Ret _ _ _ _ _ Hin), (bind_Ret _ _ _ _ _ Hkb), (bind_Ret _ _ _ _ _ (lapic_eoi_run _)).
  - exact Hm.
  - exact Hk.
  - cbn. by rewrite <- app_assoc.
Qed.

(** ** Switching the devices on *)

Context (mmio_in msr_in : list io → Z → Z).

(** The interval timer fires while it is polled, after fewer than [k] turns. *)
Definition pit_fires (k : nat) : Prop := ∀ t, ∃ n, (n < k)%nat ∧ Z.land (u8 (port_in (t ++ replicate n (In PIT_CTRL)) PIT_CTRL)) 0x20 ≠ 0.

Lemma pit_read_run s : on_hw (inb port_in PIT_CTRL) s = Ret (u8 (port_in (ir_io s) PIT_CTRL), set_io (ir_io s ++ [In PIT_CTRL]) s).
Proof. reflexivity. Qed.

Lemma pit_wait_run k : pit_fires k → ∀ s, ∃ t, pit_wait port_in k s = Ret (tt, set_io (ir_io s ++ t) s).
Proof.
  intros Hr s. destruct (Hr (ir_io s)) as (n & Hn & Hbit). clear Hr.
  revert s k Hn Hbit. induction n as [|n IH]; intros s k Hn Hbit; (destruct k as [|k]; [lia|]); cbn [pit_wait]; rewrite (bind_Ret _ _ _ _ _ (pit_read_run s)).
  - exists [In PIT_CTRL]. cbn [replicate] in Hbit. rewrite app_nil_r in Hbit. by destruct (Z.eqb_spec (Z.land (u8 (port_in (ir_io s) PIT_CTRL)) 32) 0).
  - destruct (Z.eqb_spec (Z.land (u8 (port_in (ir_io s) PIT_CTRL)) 32) 0); [|by exists [In PIT_CTRL]].
    destruct (IH (set_io (ir_io s ++ [In PIT_CTRL]) s) k) as (t & Hrun); [lia|cbn [ir_io set_io]; by rewrite <- app_assoc|].
    exists (In PIT_CTRL :: t). rewrite Hrun. unfold set_io. cbn [ir_io ir_mc lapic_timer_ticks ir_rtc ir_cmos threads_enabled lapic_base lapic_timer_tpm ioapic_base idt ir_log]. by rewrite <- app_assoc.
Qed.

(** pit_sleep_ms lets channel 2 count [1193 * ms]: the two bytes are that number as
    long as it fits 16 bits. *)
Lemma pit_sleep_run k ms s : pit_fires k → 0 ≤ ms ≤ 54 →
  ∃ t lo hi t', pit_sleep_ms port_in k ms s = Ret (tt, set_io (ir_io s ++ t ++ [Out PIT_CHANNEL2 lo; Out PIT_CHANNEL2 hi] ++ t') s) ∧ lo + 256 * hi = 1193 * ms.
Proof.
  intros Hr Hms. assert (u32 (1193 * ms) = 1193 * ms) as Ec by (apply u32_small; lia).
  set (lo := u8 (Z.land (1193 * ms) 0xff)). set (hi := u8 (Z.land (Z.shiftr (1193 * ms) 8) 0xff)).
  set (w := u8 (Z.land (u8 (port_in (ir_io s) PIT_CTRL)) (Z.lnot 1))).
  set (io1 := ((((ir_io s ++ [In PIT_CTRL]) ++ [Out PIT_CTRL w]) ++ [Out PIT_CMD 0xb0]) ++ [Out PIT_CHANNEL2 lo]) ++ [Out PIT_CHANNEL2 hi]). set (v := u8 (Z.lor (u8 (port_in io1 PIT_CTRL)) 1)).
  destruct (pit_wait_run k Hr (set_io ((io1 ++ [In PIT_CTRL]) ++ [Out PIT_CTRL v]) s)) as (t' & Hrun).
  exists [In PIT_CTRL; Out PIT_CTRL w; Out PIT_CMD 0xb0], lo, hi, ([In PIT_CTRL; Out PIT_CTRL v] ++ t'). split.
  - transitivity (pit_wait port_in k (set_io ((io1 ++ [In PIT_CTRL]) ++ [Out PIT_CTRL v]) s)); [unfold pit_sleep_ms; rewrite Ec; reflexivity|].
    rewrite Hrun. unfold set_io, io1. cbn [ir_io ir_mc lapic_timer_ticks ir_rtc ir_cmos threads_enabled lapic_base lapic_timer_tpm ioapic_base idt ir_log]. by rewrite <- !app_assoc.
  - unfold lo, hi. change 0xff with (Z.ones 8). rewrite !Z.land_ones, Z.shiftr_div_pow2 by lia. unfold u8. Z.to_euclidean_division_equations. lia.
Qed.

Lemma lapic_write_run reg v s : lapic_write reg v s = Ret (tt, set_io (ir_io s ++ [MmioWrite (lapic_base s +64 reg) (u32 v)]) s).
Proof. reflexivity. Qed.
Lemma lapic_read_run reg s : lapic_read mmio_in reg s = Ret (u32 (mmio_in (ir_io s) (lapic_base s +64 reg)), set_io (ir_io s ++ [MmioRead (lapic_base s +64 reg)]) s).
Proof. reflexivity. Qed.

(** The state with other memory and page allocator. *)
Definition with_mm (h : mm_state P) s : irq_state P :=
  let k := kernel_view (os_of s) in put_os (put_kernel (set_vm (set_vm_mm h (k_vm k)) k) (os_of s)) s.

Lemma map_kernel_wp virt phys flags s : fa_wf (mm_pg (os_heap (os_of s))) →
  wp (map_kernel virt phys flags s) (λ _ s', ∃ h, s' = with_mm h s ∧ shrinks (os_heap (os_of s)) h).
Proof.
  intros Hwf. unfold map_kernel. rewrite (bind_gets _ _ s). unfold on_mc, on_mm, on_os, in_kernel, k_mm, in_vm, in_mm. do 5 apply wp_zoom.
  eapply wp_mono; [apply map_page_shrinks; exact Hwf|]. intros [] h Hh. eexists. split; [reflexivity|exact Hh].
Qed.

Lemma io_set (v : list io) s : ir_io (set_io v s) = v.
Proof. reflexivity. Qed.
Lemma base_set (v : list io) s : lapic_base (set_io v s) = lapic_base s.
Proof. reflexivity. Qed.
Lemma io_io (v w : list io) s : set_io v (set_io w s) = set_io v s.
Proof. reflexivity. Qed.
Lemma io_lapic (v : list io) b t s : set_lapic b t (set_io v s) = set_io v (set_lapic b t s).
Proof. reflexivity. Qed.

(** The timer is measured and started: what lapic_init leaves, from the base on. *)
Lemma lapic_timer_run k s : pit_fires k → ∃ t tpm, (lapic_timer_calibrate port_in mmio_in k ;;; lapic_timer_start 10) s =
  Ret (tt, set_io (ir_io s ++ t ++ [MmioWrite (lapic_base s +64 LAPIC_TIMER_DCR) 3; MmioWrite (lapic_base s +64 LAPIC_LVT_TIMER) 0x20020;
    MmioWrite (lapic_base s +64 LAPIC_TIMER_ICR) (u32 (tpm * 10))]) (set_lapic (lapic_base s) tpm s)).
Proof.
  intros Hr. set (w reg v := MmioWrite (lapic_base s +64 reg) v). unfold lapic_timer_calibrate.
  rewrite !bind_assoc, (bind_Ret _ _ _ _ _ (lapic_write_run _ _ s)), bind_assoc, (bind_Ret _ _ _ _ _ (lapic_write_run _ _ _)), bind_assoc, (bind_Ret _ _ _ _ _ (lapic_write_run _ _ _)).
  rewrite !io_set, !base_set, !io_io. set (io1 := (_ ++ [MmioWrite (lapic_base s +64 LAPIC_TIMER_ICR) _])).
  destruct (pit_sleep_run k 10 (set_io io1 s) Hr ltac:(lia)) as (t & lo & hi & t' & Hrun & _). rewrite io_set, io_io in Hrun. set (io2 := io1 ++ t ++ _ ++ t') in Hrun.
  rewrite bind_assoc, (bind_Ret _ _ _ _ _ Hrun), bind_assoc, (bind_Ret _ _ _ _ _ (lapic_read_run _ _)). cbv zeta. rewrite bind_modify, !io_set, !base_set, !io_io, io_lapic.
  set (tpm := u32 _ / 10). exists ([w LAPIC_TIMER_DCR 3; w LAPIC_LVT_TIMER 0x10000; w LAPIC_TIMER_ICR 0xffffffff] ++
    (t ++ [Out PIT_CHANNEL2 lo; Out PIT_CHANNEL2 hi] ++ t') ++ [MmioRead (lapic_base s +64 LAPIC_TIMER_CCR)]), tpm.
  unfold lapic_timer_start. rewrite (bind_Ret _ _ _ _ _ (lapic_write_run _ _ _)), (bind_Ret _ _ _ _ _ (lapic_write_run _ _ _)), bind_gets, lapic_write_run, !io_set, !base_set, !io_io.
  f_equal. f_equal. f_equal. unfold io2, io1. rewrite <- !app_assoc. reflexivity.
Qed.

(** The three accesses that start the timer. *)
Definition timer_writes (b tpm : Z) : list io :=
  [MmioWrite (b +64 LAPIC_TIMER_DCR) 3; MmioWrite (b +64 LAPIC_LVT_TIMER) 0x20020; MmioWrite (b +64 LAPIC_TIMER_ICR) (u32 (tpm * 10))].

Lemma lapic_init_wp k s : pit_fires k → fa_wf (mm_pg (os_heap (os_of s))) →
  wp (lapic_init port_in mmio_in msr_in k s) (λ _ s', ∃ t h b tpm, s' = set_io (ir_io s ++ t ++ timer_writes b tpm) (set_lapic b tpm (with_mm h s)) ∧
    shrinks (os_heap (os_of s)) h).
Proof.
  intros Hr Hwf. unfold lapic_init. set (v := u64 (msr_in (ir_io s) 0x1b)). assert (on_hw (rdmsr msr_in 0x1b) s = Ret (v, set_io (ir_io s ++ [Rdmsr 0x1b]) s)) as E by done.
  rewrite (bind_Ret _ _ _ _ _ E). cbv zeta. set (phys := Z.land _ _). set (b := phys +64 hhdm_offset). apply wp_bind. eapply wp_mono; [apply map_kernel_wp; exact Hwf|].
  intros [] s1 (h & -> & Hwf1). rewrite bind_modify. set (s2 := set_lapic _ _ _). set (m := Z.lor (Z.shiftl _ _) (Z.lor _ _)).
  assert (on_hw (wrmsr 0x1b m) s2 = Ret (tt, set_io (ir_io s2 ++ [Wrmsr 0x1b (u64 m)]) s2)) as E2 by done. rewrite (bind_Ret _ _ _ _ _ E2). clear E E2.
  do 4 rewrite (bind_Ret _ _ _ _ _ (lapic_write_run _ _ _)). rewrite (bind_Ret _ _ _ _ _ (lapic_read_run _ _)), (bind_Ret _ _ _ _ _ (lapic_write_run _ _ _)).
  rewrite !io_set, !base_set, !io_io. match goal with |- context [set_io ?x s2] => set (io2 := x) end.
  destruct (lapic_timer_run k (set_io io2 s2) Hr) as (t & tpm & Hrun). rewrite Hrun. cbn [wp]. rewrite io_set, base_set, io_lapic, io_io.
  assert (∃ t0, io2 = ir_io s ++ t0) as (t0 & E0) by (eexists; unfold io2; change (ir_io s2) with (ir_io s ++ [Rdmsr 0x1b]); rewrite <- !app_assoc; reflexivity).
  exists (t0 ++ t), h, b, tpm. split; [|done]. change (lapic_base s2) with b. transitivity (set_io (io2 ++ t ++ timer_writes b tpm) (set_lapic b tpm (with_mm h s))); [reflexivity|].
  by rewrite E0, <- !app_assoc.
Qed.

(** The accesses that route the keyboard, and the one that lets interrupts in. *)
Definition keyboard_writes (b d id : Z) : list io :=
  [MmioRead (b +64 LAPIC_ID); MmioWrite (d +64 IOAPIC_REGSEL) 0x12; MmioWrite (d +64 IOAPIC_REGWIN) 33;
   MmioWrite (d +64 IOAPIC_REGSEL) 0x13; MmioWrite (d +64 IOAPIC_REGWIN) (u32 (u32 (Z.shiftl (Z.shiftr id 24) 24)))].

(** idt_enable as a whole: the accesses, the two bases and the measured count, and nothing else
    but the frames its two mappings take. *)
Lemma idt_enable_wp k s : pit_fires k → fa_wf (mm_pg (os_heap (os_of s))) →
  wp (idt_enable port_in mmio_in msr_in k s) (λ _ s', ∃ t h b tpm id, let d := IOAPIC_BASE +64 hhdm_offset in
    s' = set_io (ir_io s ++ [Out PIC1_DATA 0xff; Out PIC2_DATA 0xff] ++ t ++ timer_writes b tpm ++ keyboard_writes b d id ++ [Sti])
           (set_ioapic d (set_lapic b tpm (with_mm h s))) ∧ shrinks (os_heap (os_of s)) h).
Proof.
  intros Hr Hwf. unfold idt_enable. set (s1 := set_io ((ir_io s ++ [Out PIC1_DATA 0xff]) ++ [Out PIC2_DATA 0xff]) s).
  rewrite (bind_Ret _ _ _ tt s1 eq_refl). apply wp_bind. eapply wp_mono; [by apply lapic_init_wp|]. intros [] s2 (t & h & b & tpm & -> & Hwf2).
  set (s2 := set_io _ _). unfold ioapic_init. cbv zeta. rewrite bind_assoc. apply wp_bind. eapply wp_mono; [apply map_kernel_wp; exact (sh_wf _ _ Hwf2)|].
  intros [] s3 (h3 & -> & Hwf3). rewrite bind_modify, (bind_Ret _ _ _ _ _ (lapic_read_run _ _)). set (id := u32 _). set (d := IOAPIC_BASE +64 hhdm_offset).
  exists t, h3, b, tpm, id. cbv zeta. split; [|eapply shrinks_trans; [exact Hwf2|exact Hwf3]].
  transitivity (set_io ((((((ir_io s2 ++ [MmioRead (b +64 LAPIC_ID)]) ++ [MmioWrite (d +64 IOAPIC_REGSEL) 0x12]) ++ [MmioWrite (d +64 IOAPIC_REGWIN) 33]) ++
    [MmioWrite (d +64 IOAPIC_REGSEL) 0x13]) ++ [MmioWrite (d +64 IOAPIC_REGWIN) (u32 (u32 (Z.shiftl (Z.shiftr id 24) 24)))]) ++ [Sti])
    (set_ioapic d (set_lapic b tpm (with_mm h3 s)))); [reflexivity|].
  f_equal. clearbody id. unfold s2, s1. rewrite !io_set. unfold keyboard_writes. fold d. rewrite <- !app_assoc. reflexivity.
Qed.

(** Once idt_enable has returned, the old interrupt controllers are masked, the last
    things written to the local APIC start its timer in periodic mode at vector 32 with
    ten times the measured count, the I/O APIC sends the keyboard to vector 33 of this
    processor, and only then interrupts are on.  It ends when the interval timer
    fires, and can only panic for want of page tables. *)
Theorem idt_enable_correct k s : pit_fires k → fa_wf (mm_pg (os_heap (os_of s))) →
  wp (idt_enable port_in mmio_in msr_in k s) (λ _ s', ∃ t id, let b := lapic_base s' in let d := ioapic_base s' in
    d = IOAPIC_BASE +64 hhdm_offset ∧ ir_io s' = ir_io s ++ [Out PIC1_DATA 0xff; Out PIC2_DATA 0xff] ++ t ++ timer_writes b (lapic_timer_tpm s') ++
      keyboard_writes b d id ++ [Sti]).
Proof.
  intros Hr Hwf. eapply wp_mono; [by apply idt_enable_wp|]. intros [] s' (t & h & b & tpm & id & -> & _).
  exists t, id. by split.
Qed.
End IrqThms.
