(* ===== verification/IrqDemo.v ===== *)
(** * The interrupt handlers on concrete machines

    A page fault of the shell of ProcDemo.v, and the timer interrupt on the machine of
    CleanupDemo.v once the end of a process has been announced. *)

From S2P Require Import Prelude ByteMem FrameAlloc Pmm Heap HeapThms Vmm VmmThms CStr Tar Vfs VfsThms Kbd Fbcon FbconThms Thread Port PortThms Files FilesThms SysMem Proc ProcThms ProcDemo Spawn CreateDemo CleanupThms CleanupDemo Hw Rtc Irq IrqThms.

#[local] Opaque demo_heap demo_h1 os_h2 os_h3 cl_h4 cl_p5.

Definition irq_on (mc : machine pmm_state) : irq_state pmm_state :=
  mkIrq mc [] 5 (mkRtc (mkTime 0 0 0 1 1 2025) 0 0) 0 true 0xfee00000 1000 0xfec00000 [] [].

(** A page fault (vector 14) in user mode. *)
Definition fault_frame : int_frame := mkFrame 0x6b0 0x2000 0xdead 0x80010033 0 0 0 0 0 0 0 0 0 0 0 0 0 0 0 14 6 0x400000 0x23 0x202 0x7fff0000 0x1b.
Definition fault_machine : irq_state pmm_state := irq_on (mkMachine os_demo 9 ∅).

Lemma isr_user_fault_witness : ∃ s', isr_handler fault_frame fault_machine = Ret (Switched, s') ∧
  th_state <$> threads (os_sched (os_of s')) !! 16 = Some THREAD_DEAD ∧
  os_ports (os_of s') !! demo_port = Some (mkPort (port_token 1 2) 0 0 7000) ∧ proc_needs_cleanup (os_of s') = false.
Proof.
  destruct (isr_user_fault fault_frame fault_machine [] [32; 48] 16 (os_thread THREAD_RUNNING 7000 (W64 - 1) 32))
    as (s' & l' & Hrun & _ & _ & _ & Hd & _ & Hp & _ & _ & _ & _ & Hc).
  - reflexivity.
  - exact os_demo_sched_ok.
  - reflexivity.
  - reflexivity.
  - left.
  - exists s'. split; [exact Hrun|]. split; [exact Hd|]. rewrite Hp, Hc. split; reflexivity.
Defined.

(** The process of [cl_A] has announced its end. *)
Definition reap_machine : irq_state pmm_state := irq_on (set_os (set_cleanup true cl_os) cl_machine).

Lemma timer_reaps_witness : ∃ s',
  irq_handler (λ _ _, 0) (λ _ _, 0) 0 (λ _, 0) 0 0 LAPIC_TIMER_VECTOR reap_machine = Ret (Some tt, s') ∧
  plist (os_procs (os_of s')) (proc_list (os_of s')) [cl_B] ∧ os_procs (os_of s') !! cl_A = None.
Proof.
  destruct cl_inv as (G & fls & Hmm & Hl & Hc & Hfr). destruct cl_filter as [E1 E2].
  destruct (timer_reaps (λ _ _, 0) (λ _ _, 0) 0 (λ _, 0) 0 0 reap_machine G fls {[(2, 3, 0) := 2]} [cl_A; cl_B] cl_R [cr_idle] cl_blocks ∅ ∅)
    as (s' & q' & Hrun & _ & _ & _ & _ & Hpl & Hpr).
  - discriminate.
  - reflexivity.
  - reflexivity.
  - exact (cl_graveyard G fls Hmm Hl Hc Hfr).
  - exact cl_unused.
  - exact cl_sched_ok.
  - exact (cl_os_ok G fls Hmm Hl).
  - exact (cl_live G fls Hl).
  - change (filter (λ x, ¬ dead cl_machine x) [cl_A; cl_B] ≠ []). rewrite E2. discriminate.
  - exists s'. split; [exact Hrun|]. split.
    + rewrite <- E2. exact Hpl.
    + specialize (Hpr cl_A). rewrite decide_True in Hpr; [by destruct (os_procs (os_of s') !! cl_A)|].
      change (cl_A ∈ filter (dead cl_machine) [cl_A; cl_B]). rewrite E1. left.
Defined.
