(* ===== verification/Syscalls.v ===== *)
(** * System calls between program and kernel (src/userspace/syscall.c, userspace_stubs.s and the stubs of user/lib)

    A program's library function loads registers and executes syscall; syscall_entry
    passes them on as the arguments of syscall_dispatch, which converts them and calls
    the handler.  The handlers are the interface [Handlers]: what each takes and returns
    by its C type.  The theorem at the end is about the whole way: which handler a library
    function calls, with which arguments, and what it returns of the result, the functions
    that lose an argument or a result included. *)

From S2P Require Import Prelude.

(** ** The handlers *)

Definition is_int (r : Z) : Prop := - 2 ^ 31 ≤ r < 2 ^ 31.
Definition is_int64 (r : Z) : Prop := - 2 ^ 63 ≤ r < 2 ^ 63.
Definition is_u64 (r : Z) : Prop := 0 ≤ r < W64.

(** The results of [m] satisfy [R]. *)
Definition returns {S A} (R : A → Prop) (m : M S A) : Prop := ∀ s a s', m s = Ret (a, s') → R a.

(** The functions the dispatcher calls.  Pointers are addresses; [h_unknown] is the
    message about an unknown number. *)
Class Handlers (S : Type) := {
  sys_exit : Z → M S unit;
  sys_print : Z → M S unit;
  sys_mmap : Z → Z → M S Z;
  sys_munmap : Z → Z → M S Z;
  sys_spawn : Z → Z → Z → M S Z;
  sys_getpid : M S Z;
  sys_wait_pid : Z → M S unit;
  apic_timer_ticks : M S Z;
  sys_sleep : Z → M S unit;
  sys_kill : Z → M S Z;
  sys_open : Z → M S Z;
  sys_read : Z → Z → Z → M S Z;
  sys_close : Z → M S Z;
  sys_gettime : Z → M S unit;
  sys_listprocs : Z → Z → M S Z;
  sys_listdir : Z → Z → Z → M S Z;
  sys_write : Z → Z → Z → M S Z;
  sys_port_create : M S Z;
  port_forward : Z → Z → Z → M S Z;
  sys_port_receive : Z → Z → Z → M S Z;
  sys_port_destroy : Z → M S Z;
  sys_get_cwd : Z → Z → M S Z;
  sys_set_cwd : Z → Z → M S Z;
  fbcon_clear : M S unit;
  sys_listdrives : Z → Z → M S Z;
  sys_seek : Z → Z → Z → M S Z;
  h_unknown : Z → Z → M S unit;
  mmap_u64 a n : returns is_u64 (sys_mmap a n);
  munmap_int a n : returns is_int (sys_munmap a n);
  spawn_u64 a b c : returns is_u64 (sys_spawn a b c);
  getpid_u64 : returns is_u64 sys_getpid;
  ticks_u64 : returns is_u64 apic_timer_ticks;
  kill_int a : returns is_int (sys_kill a);
  open_int a : returns is_int (sys_open a);
  read_int64 a b c : returns is_int64 (sys_read a b c);
  close_int a : returns is_int (sys_close a);
  listprocs_int a b : returns is_int (sys_listprocs a b);
  listdir_int a b c : returns is_int (sys_listdir a b c);
  write_int64 a b c : returns is_int64 (sys_write a b c);
  port_create_u64 : returns is_u64 sys_port_create;
  port_forward_u64 a b c : returns is_u64 (port_forward a b c);
  port_receive_int a b c : returns is_int (sys_port_receive a b c);
  port_destroy_int a : returns is_int (sys_port_destroy a);
  get_cwd_int a b : returns is_int (sys_get_cwd a b);
  set_cwd_int a b : returns is_int (sys_set_cwd a b);
  listdrives_int a b : returns is_int (sys_listdrives a b);
  seek_int64 a b c : returns is_int64 (sys_seek a b c);
}.

(** ** The kernel's side *)

Definition SYS_EXIT : Z := 0.
Definition SYS_PRINT : Z := 1.
Definition SYS_MMAP : Z := 2.
Definition SYS_MUNMAP : Z := 3.
Definition SYS_SPAWN : Z := 4.
Definition SYS_GETPID : Z := 5.
Definition SYS_WAIT_PID : Z := 6.
Definition SYS_LISTDIR : Z := 7.
Definition SYS_UPTIME : Z := 8.
Definition SYS_SLEEP : Z := 9.
Definition SYS_KILL : Z := 10.
Definition SYS_OPEN : Z := 11.
Definition SYS_CLOSE : Z := 12.
Definition SYS_READ : Z := 13.
Definition SYS_GETTIME : Z := 14.
Definition SYS_LISTPROCS : Z := 15.
Definition SYS_WRITE : Z := 16.
Definition SYS_PORT_CREATE : Z := 17.
Definition SYS_PORT_FORWARD : Z := 18.
Definition SYS_PORT_RECEIVE : Z := 19.
Definition SYS_PORT_DESTROY : Z := 20.
Definition SYS_GET_CWD : Z := 21.
Definition SYS_SET_CWD : Z := 22.
Definition SYS_CLEAR_SCREEN : Z := 23.
Definition SYS_LISTDRIVES : Z := 24.
Definition SYS_SEEK : Z := 25.

Section Syscalls.
Context {S : Type} `{HS : Handlers S}.

(** [(uint64_t)] of a result. *)
Definition as_u64 (m : M S Z) : M S Z := r <- m ;; ret (u64 r).

Definition syscall_dispatch (number arg0 arg1 arg2 arg3 arg4 arg5 : Z) : M S Z :=
  if number =? SYS_EXIT then sys_exit arg0 ;;; ret 0
  else if number =? SYS_PRINT then sys_print arg0 ;;; ret 0
  else if number =? SYS_MMAP then as_u64 (sys_mmap arg0 arg1)
  else if number =? SYS_MUNMAP then as_u64 (sys_munmap arg0 arg1)
  else if number =? SYS_SPAWN then sys_spawn arg0 arg1 (s32 arg2)
  else if number =? SYS_GETPID then sys_getpid
  else if number =? SYS_WAIT_PID then sys_wait_pid arg0 ;;; ret 0
  else if number =? SYS_UPTIME then apic_timer_ticks
  else if number =? SYS_SLEEP then sys_sleep arg0 ;;; ret 0
  else if number =? SYS_KILL then as_u64 (sys_kill arg0)
  else if number =? SYS_OPEN then as_u64 (sys_open arg0)
  else if number =? SYS_READ then as_u64 (sys_read (s32 arg0) arg1 arg2)
  else if number =? SYS_CLOSE then as_u64 (sys_close (s32 arg0))
  else if number =? SYS_GETTIME then sys_gettime arg0 ;;; ret 0
  else if number =? SYS_LISTPROCS then as_u64 (sys_listprocs arg0 (s32 arg1))
  else if number =? SYS_LISTDIR then as_u64 (sys_listdir arg0 arg1 (s32 arg2))
  else if number =? SYS_WRITE then as_u64 (sys_write (s32 arg0) arg1 arg2)
  else if number =? SYS_PORT_CREATE then as_u64 sys_port_create
  else if number =? SYS_PORT_FORWARD then as_u64 (port_forward arg0 arg1 arg2)
  else if number =? SYS_PORT_RECEIVE then as_u64 (sys_port_receive arg0 arg1 arg2)
  else if number =? SYS_PORT_DESTROY then as_u64 (sys_port_destroy arg0)
  else if number =? SYS_GET_CWD then as_u64 (sys_get_cwd arg0 arg1)
  else if number =? SYS_SET_CWD then as_u64 (sys_set_cwd arg0 arg1)
  else if number =? SYS_CLEAR_SCREEN then fbcon_clear ;;; ret 0
  else if number =? SYS_LISTDRIVES then as_u64 (sys_listdrives arg0 (s32 arg1))
  else if number =? SYS_SEEK then as_u64 (sys_seek (s32 arg0) (s64 arg1) (s32 arg2))
  else h_unknown number arg0 ;;; ret (u64 (-1)).

(** The registers a system call uses. *)
Record regs := mkRegs { rax : Z; rdi : Z; rsi : Z; rdx : Z; r10 : Z; r8 : Z; r9 : Z }.

(** The registers an "r" operand can be in where rcx, r11 and rdi are clobbered; [in_other] is
    one that no system call reads (rbx, rbp, r12 to r15), not part of [regs]. *)
Variant operand := in_rax | in_rsi | in_rdx | in_r10 | in_r8 | in_r9 | in_other.

Definition set_rax (v : Z) (g : regs) : regs := mkRegs v (rdi g) (rsi g) (rdx g) (r10 g) (r8 g) (r9 g).
Definition set_rdi (v : Z) (g : regs) : regs := mkRegs (rax g) v (rsi g) (rdx g) (r10 g) (r8 g) (r9 g).

(** The registers when the compiler has put [v] into the operand. *)
Definition load_operand (r : operand) (v : Z) (g : regs) : regs :=
  match r with
  | in_rax => set_rax v g
  | in_rsi => mkRegs (rax g) (rdi g) v (rdx g) (r10 g) (r8 g) (r9 g)
  | in_rdx => mkRegs (rax g) (rdi g) (rsi g) v (r10 g) (r8 g) (r9 g)
  | in_r10 => mkRegs (rax g) (rdi g) (rsi g) (rdx g) v (r8 g) (r9 g)
  | in_r8 => mkRegs (rax g) (rdi g) (rsi g) (rdx g) (r10 g) v (r9 g)
  | in_r9 => mkRegs (rax g) (rdi g) (rsi g) (rdx g) (r10 g) (r8 g) v
  | in_other => g
  end.

(** What an instruction reads there; [v] is what was put into a register outside [regs]. *)
Definition operand_value (r : operand) (v : Z) (g : regs) : Z :=
  match r with
  | in_rax => rax g | in_rsi => rsi g | in_rdx => rdx g | in_r10 => r10 g
  | in_r8 => r8 g | in_r9 => r9 g | in_other => v
  end.

(** The syscall instruction and syscall_entry: rax on return. *)
Definition syscall (r : regs) : M S Z := syscall_dispatch (rax r) (rdi r) (rsi r) (rdx r) (r10 r) (r8 r) (r9 r).

(** ** The program's side

    [g] are the registers before the call: a stub loads those its constraints name. *)

Definition call0 (g : regs) (n : Z) : M S Z := syscall (mkRegs n (rdi g) (rsi g) (rdx g) (r10 g) (r8 g) (r9 g)).
Definition call1 (g : regs) (n a : Z) : M S Z := syscall (mkRegs n a (rsi g) (rdx g) (r10 g) (r8 g) (r9 g)).
Definition call2 (g : regs) (n a b : Z) : M S Z := syscall (mkRegs n a b (rdx g) (r10 g) (r8 g) (r9 g)).
Definition call3 (g : regs) (n a b c : Z) : M S Z := syscall (mkRegs n a b c (r10 g) (r8 g) (r9 g)).

(** [int ret], [int64_t ret]: the low part of rax, signed. *)
Definition as_int (m : M S Z) : M S Z := r <- m ;; ret (s32 r).
Definition as_int64 (m : M S Z) : M S Z := r <- m ;; ret (s64 r).
Definition no_result (m : M S Z) : M S unit := _ <- m ;; ret tt.

(** malloc.c *)
Definition mmap (g : regs) (addr size : Z) : M S Z := call2 g 2 addr size.
Definition munmap (g : regs) (addr size : Z) : M S Z := as_int (call2 g 3 addr size).
(** printf.c and crt0.s *)
Definition clear (g : regs) : M S unit := no_result (call0 g 23).
Definition exit (g : regs) (code : Z) : M S unit := no_result (call1 g 0 code).
(** proc.c; kill has no return statement. *)
Definition spawn_call (g : regs) (name new_argv argc1 : Z) : M S Z := call3 g 4 name new_argv (u64 argc1).
Definition getpid (g : regs) : M S Z := call0 g 5.
Definition waitpid (g : regs) (pid : Z) : M S Z := as_int (call1 g 6 pid).
Definition kill (g : regs) (pid : Z) : M S unit := no_result (call1 g 10 pid).
Definition listprocs (g : regs) (buf max : Z) : M S Z := as_int (call2 g 15 buf (u64 max)).
(** sys.c; sleep has no return statement. *)
Definition getuptime (g : regs) : M S Z := call0 g 8.
Definition gettime (g : regs) (out : Z) : M S unit := no_result (call1 g 14 out).
Definition sleep (g : regs) (ms : Z) : M S unit := no_result (call1 g 9 ms).
(** port.c *)
Definition create_port (g : regs) : M S Z := call0 g 17.
Definition forward_port (g : regs) (dst msg len : Z) : M S Z := as_int (call3 g 18 dst msg len).
Definition receive_port (g : regs) (token buf len : Z) : M S Z := as_int (call3 g 19 token buf len).
(** destroy_port: "mov $20, %rax; mov %1, %rdi; syscall" with the token in a register of the
    compiler's choice (constraint "r", clobbers rcx, r11 and rdi), which may be the rax the
    first instruction overwrites. *)
Definition destroy_port (r : operand) (g : regs) (token : Z) : M S Z :=
  let g1 := load_operand r token g in
  let g2 := set_rax 20 g1 in
  as_int (syscall (set_rdi (operand_value r token g2) g2)).
(** fs.c; getcwd passes no size, setcwd has no return statement. *)
Definition open_call (g : regs) (path : Z) : M S Z := as_int (call1 g 11 path).
Definition read (g : regs) (fd buf size : Z) : M S Z := as_int64 (call3 g 13 (u64 fd) buf size).
Definition write (g : regs) (fd buf size : Z) : M S Z := as_int64 (call3 g 16 (u64 fd) buf size).
Definition close (g : regs) (fd : Z) : M S Z := as_int (call1 g 12 (u64 fd)).
Definition listdir_call (g : regs) (path entries max : Z) : M S Z := as_int (call3 g 7 path entries (u64 max)).
Definition listdrives (g : regs) (buf max : Z) : M S Z := as_int (call2 g 24 buf (u64 max)).
Definition getcwd (g : regs) (path : Z) : M S Z := as_int (call1 g 21 path).
Definition setcwd (g : regs) (path len : Z) : M S unit := no_result (call2 g 22 path (u64 len)).
Definition seek (g : regs) (fd offset whence : Z) : M S Z := as_int64 (call3 g 25 (u64 fd) (u64 offset) (u64 whence)).

(** ** The whole way *)

(** Two operations do the same in every state. *)
Definition same {A} (m m' : M S A) : Prop := ∀ s, m s = m' s.

Lemma s32_u64 r : is_int r → s32 (u64 r) = r.
Proof. unfold is_int, s32, u64. intros Hr. Z.to_euclidean_division_equations. lia. Qed.
Lemma s64_u64 r : is_int64 r → s64 (u64 r) = r.
Proof. unfold is_int64, s64, u64. intros Hr. Z.to_euclidean_division_equations. lia. Qed.
Lemma u64_u64 r : is_u64 r → u64 r = r.
Proof. unfold is_u64, u64. intros Hr. by apply Z.mod_small. Qed.

Section Results.
Variable m : M S Z.

Lemma u64_result : returns is_u64 m → same (as_u64 m) m.
Proof.
  intros Hr s. unfold as_u64, bind, ret. destruct (m s) as [[a s']| | |] eqn:E; try reflexivity.
  by rewrite (u64_u64 a (Hr _ _ _ E)).
Qed.
Lemma int_result : returns is_int m → same (as_int (as_u64 m)) m.
Proof.
  intros Hr s. unfold as_int, as_u64, bind, ret. destruct (m s) as [[a s']| | |] eqn:E; try reflexivity.
  by rewrite (s32_u64 a (Hr _ _ _ E)).
Qed.
Lemma int64_result : returns is_int64 m → same (as_int64 (as_u64 m)) m.
Proof.
  intros Hr s. unfold as_int64, as_u64, bind, ret. destruct (m s) as [[a s']| | |] eqn:E; try reflexivity.
  by rewrite (s64_u64 a (Hr _ _ _ E)).
Qed.
(** A count that the library returns as an int. *)
Lemma count_result : returns is_u64 m → same (as_int (as_u64 m)) (as_int m).
Proof.
  intros Hr s. unfold as_int, as_u64, bind, ret. destruct (m s) as [[a s']| | |] eqn:E; try reflexivity.
  by rewrite (u64_u64 a (Hr _ _ _ E)).
Qed.
Lemma dropped_result : same (no_result (as_u64 m)) (no_result m).
Proof. intros s. unfold no_result, as_u64, bind, ret. by destruct (m s) as [[a s']| | |]. Qed.
End Results.

(** What the library does with the result of a handler without one. *)
Lemma unit_result (m : M S unit) : same (no_result (m ;;; ret 0)) m.
Proof. intros s. unfold no_result, bind, ret. by destruct (m s) as [[[] s']| | |]. Qed.
Lemma unit_zero (m : M S unit) : same (as_int (m ;;; ret 0)) (m ;;; ret 0).
Proof. intros s. unfold as_int, bind, ret. by destruct (m s) as [[[] s']| | |]. Qed.

Variable g : regs.

Lemma memory_calls addr size :
  same (mmap g addr size) (sys_mmap addr size)
  ∧ same (munmap g addr size) (sys_munmap addr size)
  ∧ same (clear g) fbcon_clear.
Proof.
  split_and!; [apply (u64_result (sys_mmap addr size)), mmap_u64
    |apply (int_result (sys_munmap addr size)), munmap_int|apply (unit_result fbcon_clear)].
Qed.

Lemma process_calls name argv argc pid buf code :
  is_int argc →
  same (spawn_call g name argv argc) (sys_spawn name argv argc)
  ∧ same (exit g code) (sys_exit code)
  ∧ same (getpid g) sys_getpid
  ∧ same (waitpid g pid) (sys_wait_pid pid ;;; ret 0)
  ∧ same (kill g pid) (no_result (sys_kill pid))
  ∧ same (listprocs g buf argc) (sys_listprocs buf argc).
Proof.
  intros Hi. split_and!.
  - intros s. change (sys_spawn name argv (s32 (u64 argc)) s = sys_spawn name argv argc s). by rewrite s32_u64.
  - apply (unit_result (sys_exit code)).
  - intros s. reflexivity.
  - apply (unit_zero (sys_wait_pid pid)).
  - apply (dropped_result (sys_kill pid)).
  - intros s. change (as_int (as_u64 (sys_listprocs buf (s32 (u64 argc)))) s = sys_listprocs buf argc s).
    rewrite s32_u64 by done. apply int_result, listprocs_int.
Qed.

Lemma time_calls out ms :
  same (getuptime g) apic_timer_ticks ∧ same (gettime g out) (sys_gettime out) ∧ same (sleep g ms) (sys_sleep ms).
Proof.
  split_and!; [intros s; reflexivity|apply (unit_result (sys_gettime out))|apply (unit_result (sys_sleep ms))].
Qed.

Lemma port_calls token buf len :
  same (create_port g) sys_port_create
  ∧ same (forward_port g token buf len) (as_int (port_forward token buf len))
  ∧ same (receive_port g token buf len) (sys_port_receive token buf len)
  ∧ same (destroy_port in_rax g token) (sys_port_destroy 20)
  ∧ (∀ r, r ≠ in_rax → same (destroy_port r g token) (sys_port_destroy token)).
Proof.
  split_and!; [apply (u64_result sys_port_create), port_create_u64
    |apply (count_result (port_forward token buf len)), port_forward_u64
    |apply (int_result (sys_port_receive token buf len)), port_receive_int
    |apply (int_result (sys_port_destroy 20)), port_destroy_int|].
  intros [] Hr; [congruence|..];
    apply (int_result (sys_port_destroy token)), port_destroy_int.
Qed.

Lemma file_calls path fd buf size max offset whence :
  is_int fd → is_int max → is_int whence → is_int64 offset → is_u64 size →
  same (open_call g path) (sys_open path)
  ∧ same (read g fd buf size) (sys_read fd buf size)
  ∧ same (write g fd buf size) (sys_write fd buf size)
  ∧ same (close g fd) (sys_close fd)
  ∧ same (seek g fd offset whence) (sys_seek fd offset whence)
  ∧ same (listdir_call g path buf max) (sys_listdir path buf max)
  ∧ same (listdrives g buf max) (sys_listdrives buf max)
  ∧ same (setcwd g path size) (no_result (sys_set_cwd path size))
  ∧ same (getcwd g path) (sys_get_cwd path (rsi g)).
Proof.
  intros Hf Hm Hw Ho Hs. split_and!; intros s.
  - apply (int_result (sys_open path)), open_int.
  - change (as_int64 (as_u64 (sys_read (s32 (u64 fd)) buf size)) s = sys_read fd buf size s).
    rewrite s32_u64 by done. apply int64_result, read_int64.
  - change (as_int64 (as_u64 (sys_write (s32 (u64 fd)) buf size)) s = sys_write fd buf size s).
    rewrite s32_u64 by done. apply int64_result, write_int64.
  - change (as_int (as_u64 (sys_close (s32 (u64 fd)))) s = sys_close fd s).
    rewrite s32_u64 by done. apply int_result, close_int.
  - change (as_int64 (as_u64 (sys_seek (s32 (u64 fd)) (s64 (u64 offset)) (s32 (u64 whence)))) s
            = sys_seek fd offset whence s).
    rewrite !s32_u64, s64_u64 by done. apply int64_result, seek_int64.
  - change (as_int (as_u64 (sys_listdir path buf (s32 (u64 max)))) s = sys_listdir path buf max s).
    rewrite s32_u64 by done. apply int_result, listdir_int.
  - change (as_int (as_u64 (sys_listdrives buf (s32 (u64 max)))) s = sys_listdrives buf max s).
    rewrite s32_u64 by done. apply int_result, listdrives_int.
  - change (no_result (as_u64 (sys_set_cwd path (u64 size))) s = no_result (sys_set_cwd path size) s).
    rewrite u64_u64 by done. apply dropped_result.
  - apply (int_result (sys_get_cwd path (rsi g))), get_cwd_int.
Qed.

(** C13. Which handler a function of the user library runs, on which arguments, and what it
    returns of the result, whatever the other registers hold.  The number a stub loads selects the
    handler of its name in the dispatcher; an int is sign-extended into its register and cut back.
    mmap, munmap, clear, spawn, exit, getpid, listprocs, getuptime, gettime, create_port,
    receive_port, open, read, write, close, seek, listdir and listdrives are their handler: same
    arguments, same result.  The others are not, and the statement has what they are: waitpid always returns
    0; kill, sleep and setcwd drop the result; forward_port returns the low 32 bits of a
    size_t; getcwd passes as the size a register it never loads; destroy_port passes its token only
    when the compiler has not put it into rax, and else the number 20 for every token. *)
Theorem library_calls_correct path fd buf size max offset whence pid token name argv argc code :
  is_int fd → is_int max → is_int whence → is_int argc → is_int64 offset → is_u64 size →
  (same (mmap g buf size) (sys_mmap buf size)
   ∧ same (munmap g buf size) (sys_munmap buf size)
   ∧ same (clear g) fbcon_clear)
  ∧ (same (spawn_call g name argv argc) (sys_spawn name argv argc)
   ∧ same (exit g code) (sys_exit code)
   ∧ same (getpid g) sys_getpid
   ∧ same (waitpid g pid) (sys_wait_pid pid ;;; ret 0)
   ∧ same (kill g pid) (no_result (sys_kill pid))
   ∧ same (listprocs g buf argc) (sys_listprocs buf argc))
  ∧ (same (getuptime g) apic_timer_ticks
   ∧ same (gettime g buf) (sys_gettime buf)
   ∧ same (sleep g size) (sys_sleep size))
  ∧ (same (create_port g) sys_port_create
   ∧ same (forward_port g token buf size) (as_int (port_forward token buf size))
   ∧ same (receive_port g token buf size) (sys_port_receive token buf size)
   ∧ same (destroy_port in_rax g token) (sys_port_destroy 20)
   ∧ (∀ r, r ≠ in_rax → same (destroy_port r g token) (sys_port_destroy token)))
  ∧ (same (open_call g path) (sys_open path)
   ∧ same (read g fd buf size) (sys_read fd buf size)
   ∧ same (write g fd buf size) (sys_write fd buf size)
   ∧ same (close g fd) (sys_close fd)
   ∧ same (seek g fd offset whence) (sys_seek fd offset whence)
   ∧ same (listdir_call g path buf max) (sys_listdir path buf max)
   ∧ same (listdrives g buf max) (sys_listdrives buf max)
   ∧ same (setcwd g path size) (no_result (sys_set_cwd path size))
   ∧ same (getcwd g path) (sys_get_cwd path (rsi g))).
Proof.
  intros Hf Hm Hw Ha Ho Hs.
  exact (conj (memory_calls buf size) (conj (process_calls name argv argc pid buf code Ha)
    (conj (time_calls buf size) (conj (port_calls token buf size)
    (file_calls path fd buf size max offset whence Hf Hm Hw Ho Hs))))).
Qed.

(** A number the dispatcher does not know calls no handler: a message, and all ones in rax. *)
Theorem unknown_number n a b c d e f :
  SYS_SEEK < n →
  same (syscall_dispatch n a b c d e f) (h_unknown n a ;;; ret (2 ^ 64 - 1)).
Proof.
  unfold SYS_SEEK. intros Hn s. unfold syscall_dispatch.
  repeat match goal with |- context [n =? ?k] =>
    destruct (Z.eqb_spec n k); [exfalso; subst n; vm_compute in Hn; discriminate|] end.
  reflexivity.
Qed.
End Syscalls.

(** ** Handlers that record the calls they get *)


Definition called := list (string * list Z).
Definition record {A} (name : string) (args : list Z) (r : A) : M called A := λ t, Ret (r, t ++ [(name, args)]).

Lemma record_returns {A} (R : A → Prop) name args r : R r → returns R (record name args r).
Proof. intros Hr s a s' E. injection E as <- _. exact Hr. Qed.

#[export] Instance recorder : Handlers called.
Proof.
  refine {|
    sys_exit c := record "exit" [c] tt; sys_print a := record "print" [a] tt;
    sys_mmap a n := record "mmap" [a; n] 0x600000; sys_munmap a n := record "munmap" [a; n] 0;
    sys_spawn a b c := record "spawn" [a; b; c] 7; sys_getpid := record "getpid" [] 1;
    sys_wait_pid p := record "wait_pid" [p] tt; apic_timer_ticks := record "ticks" [] 100;
    sys_sleep m := record "sleep" [m] tt; sys_kill p := record "kill" [p] (-1);
    sys_open p := record "open" [p] 3; sys_read a b c := record "read" [a; b; c] (-1);
    sys_close a := record "close" [a] 0; sys_gettime a := record "gettime" [a] tt;
    sys_listprocs a b := record "listprocs" [a; b] 2; sys_listdir a b c := record "listdir" [a; b; c] (-1);
    sys_write a b c := record "write" [a; b; c] 5; sys_port_create := record "port_create" [] 9;
    port_forward a b c := record "port_forward" [a; b; c] (W64 - 1);
    sys_port_receive a b c := record "port_receive" [a; b; c] (-1);
    sys_port_destroy a := record "port_destroy" [a] 0; sys_get_cwd a b := record "get_cwd" [a; b] 0;
    sys_set_cwd a b := record "set_cwd" [a; b] 0; fbcon_clear := record "clear" [] tt;
    sys_listdrives a b := record "listdrives" [a; b] 2; sys_seek a b c := record "seek" [a; b; c] (-1);
    h_unknown n a := record "unknown" [n; a] tt |}; intros; apply record_returns; try (done || lia).
Defined.

Definition g0 : regs := mkRegs 0 1 2 3 4 5 6.

Lemma library_calls_correct_witness :
  read g0 (-1) 0x4000 10 [] = Ret (-1, [("read", [-1; 0x4000; 10])])
  ∧ seek g0 3 (-5) 1 [] = Ret (-1, [("seek", [3; -5; 1])])
  ∧ getcwd g0 0x4000 [] = Ret (0, [("get_cwd", [0x4000; 2])])
  ∧ destroy_port in_rax g0 9 [] = Ret (0, [("port_destroy", [20])])
  ∧ destroy_port in_rdx g0 9 [] = Ret (0, [("port_destroy", [9])]).
Proof.
  pose proof (library_calls_correct g0 0x4000 (-1) 0x4000 10 8 (-5) 1 1 9 0x5000 0x6000 2 0
    ltac:(split; lia) ltac:(split; lia) ltac:(split; lia) ltac:(split; lia) ltac:(split; lia)
    ltac:(split; [lia|reflexivity])) as (_ & _ & _ & (_ & _ & _ & Hx & Hd) & (_ & Hr & _ & _ & _ & _ & _ & _ & Hc)).
  pose proof (library_calls_correct g0 0x4000 3 0x4000 10 8 (-5) 1 1 9 0x5000 0x6000 2 0
    ltac:(split; lia) ltac:(split; lia) ltac:(split; lia) ltac:(split; lia) ltac:(split; lia)
    ltac:(split; [lia|reflexivity])) as (_ & _ & _ & _ & (_ & _ & _ & _ & Hs & _)).
  split_and!; [apply (Hr [])|apply (Hs [])|apply (Hc [])|apply (Hx [])|apply (Hd in_rdx ltac:(discriminate) [])].
Defined.
