(* ===== verification/Programs.v ===== *)
(** * The programs of user/bin, user/init/init.c and user/test.c

    A program is an interaction tree over the calls of the user library, with values
    for the buffers the calls fill: [Read] answers with the bytes read, [None] for a
    negative result.  Exit and undefined behaviour are events nobody answers.  The
    environment that answers the calls is the interface [Env]; its one law is that
    standard output collects what is written to descriptor 1. *)

From ITree Require Import ITree ITreeFacts Events.State Events.StateFacts.
From S2P Require Import Prelude ByteMem FrameAlloc Heap Vmm CStr Printf UserLib Vfs UserPath Rtc Thread Port Files Proc.
Import Monads.

Declare Scope prog_scope.
Delimit Scope prog_scope with prog.
Notation "x <- t ;; k" := (ITree.bind t (λ x, k)) : prog_scope.
Notation "t ;;; k" := (ITree.bind t (λ _, k)) : prog_scope.
#[local] Open Scope prog_scope.
#[local] Abbreviation Done r := (go (RetF r)).

Variant callE : Type → Type :=
| Getcwd : callE (option (list Z))
| Open (path : list Z) : callE Z
| Read (fd size : Z) : callE (option (list Z))
| Write (fd : Z) (bytes : list Z) : callE Z
| Seek (fd offset whence : Z) : callE Z
| Close (fd : Z) : callE Z
| Listdir (path : list Z) (max : Z) : callE (option (list dirent))
| Listdrives (max : Z) : callE (list (Z * list Z))
| Listprocs (max : Z) : callE (list proc_info)
| Kill (pid : Z) : callE Z
| Spawn (name : list Z) (argv : list (list Z)) : callE Z
| Getuptime : callE Z
| Gettime : callE rtc_time
| Clear : callE unit
| Malloc (size : Z) : callE Z
| Free (p : Z) : callE unit.

Variant stopE : Type → Type :=
| Exit (code : Z) : stopE void
| Undefined : stopE void.

Abbreviation prog := (itree (callE +' stopE)).

Definition call {T} (e : callE T) : prog T := ITree.trigger (inl1 e).
Definition undefined {T} : prog T := ITree.bind (ITree.trigger (inr1 Undefined)) (λ v : void, match v with end).

(** The value of a pure function of the library. *)
Definition pure {T} (o : outcome T) : prog T := match o with Ret r => Done r | _ => undefined end.

Definition STDOUT : Z := 1.

(** printf: at most one write, of the formatted text. *)
Definition printf (fmt : list Z) (args : list va) : prog Z :=
  r <- pure (UserPrintf.printf fmt args) ;;
  match r with
  | (len, Some bytes) => call (Write STDOUT bytes) ;;; Done len
  | (len, None) => Done len
  end.

(** The loop of a for statement over the elements of an array. *)
Fixpoint for_each {A S} (l : list A) (body : A → S → prog S) (s : S) : prog S :=
  match l with [] => Done s | x :: l' => s' <- body x s ;; for_each l' body s' end.

(** The string in an array of characters; without a terminator in the array the
    program reads on behind it. *)
Definition name_string (l : list Z) : outcome (list Z) :=
  match first_index 0 l with Some i => Ret (take i l) | None => Fault end.

(** A string argument for a function that takes a pointer. *)
Definition on_string {T} (f : mem → Z → outcome T) (s : list Z) : outcome T := f (put_string ∅ 4096 s) 4096.

(** ** user/bin *)

(** A uint64_t passed for %d: the conversion takes its low half. *)
Definition va_low (v : Z) : va := VaInt v.

Definition clear_main : prog Z := call Clear ;;; Done 0.

Definition echo_word (a : list Z) (_ : unit) : prog unit := printf (chars "%s ") [VaStr (Some a)] ;;; Done tt.
Definition echo_main (argv : list (list Z)) : prog Z :=
  for_each (drop 1 argv) echo_word tt ;;;
  printf [10] [] ;;;
  Done 0.

Definition uptime_main : prog Z :=
  ticks <- call Getuptime ;;
  printf (chars "%d ticks (%d ms)" ++ [10]) [va_low ticks; va_low (ticks *64 10)] ;;;
  Done 0.

Definition datetime_main : prog Z :=
  t <- call Gettime ;;
  printf (chars "%04d-%02d-%02d %02d:%02d:%02d" ++ [10])
    [VaInt (t_year t); VaInt (t_month t); VaInt (t_day t); VaInt (t_hours t); VaInt (t_minutes t); VaInt (t_seconds t)] ;;;
  Done 0.

Definition MAX_PROCS : Z := 64.

Definition state_name (state : Z) : list Z :=
  if state =? 0 then chars "ready" else if state =? 1 then chars "running"
  else if state =? 2 then chars "blocked" else if state =? 3 then chars "dead" else chars "unknown".

Definition ps_row (p : proc_info) (_ : unit) : prog unit :=
  name <- pure (name_string (pi_name p)) ;;
  printf (chars "%-4d %-8s %s" ++ [10]) [va_low (pi_pid p); VaStr (Some (state_name (pi_state p))); VaStr (Some name)] ;;;
  Done tt.

Definition ps_main : prog Z :=
  procs <- call (Listprocs MAX_PROCS) ;;
  printf (chars "PID  STATE    NAME" ++ [10]) [] ;;;
  printf (chars "---- -------- ----------------" ++ [10]) [] ;;;
  for_each procs ps_row tt ;;;
  Done 0.

Definition MAX_DRIVES : Z := 8.

Definition drives_row (d : Z * list Z) (_ : unit) : prog unit :=
  printf (chars "%-4d %s" ++ [10]) [VaInt d.1; VaStr (Some d.2)] ;;; Done tt.

Definition drives_main : prog Z :=
  drives <- call (Listdrives MAX_DRIVES) ;;
  if Z.of_nat (length drives) <=? 0 then printf (chars "no drives found" ++ [10]) [] ;;; Done 1
  else
    printf (chars "ID   LABEL" ++ [10]) [] ;;;
    printf (chars "---- ----------------" ++ [10]) [] ;;;
    for_each drives drives_row tt ;;;
    Done 0.

(** kill of the library has no return statement: its result is what the answer of the
    environment says. *)
Definition pkill_one (target : list Z) (p : proc_info) (killed : Z) : prog Z :=
  name <- pure (name_string (pi_name p)) ;;
  if str_diff name target =? 0 then
    r <- call (Kill (pi_pid p)) ;;
    if r =? 0 then
      printf (chars "killed %s (pid %d)" ++ [10]) [VaStr (Some name); va_low (pi_pid p)] ;;;
      Done (killed + 1)
    else Done killed
  else Done killed.

Definition pkill_main (argv : list (list Z)) : prog Z :=
  match argv with
  | _ :: target :: _ =>
      procs <- call (Listprocs MAX_PROCS) ;;
      digits <- pure (on_string isdigit target) ;;
      killed <- (if negb (digits =? 0) then
                   pid <- pure (on_string atoi target) ;;
                   r <- call (Kill (u64 pid)) ;;
                   if r =? 0 then printf (chars "killed pid %d" ++ [10]) [VaInt pid] ;;; Done 1 else Done 0
                 else
                   for_each procs (pkill_one target) 0) ;;
      (if killed =? 0 then printf (chars "no process named '%s'" ++ [10]) [VaStr (Some target)] ;;; Done tt else Done tt) ;;;
      Done 0
  | _ => printf (chars "usage: pkill <name>" ++ [10]) [] ;;; Done 1
  end.

(** The argument, or "." without one. *)
Definition target_arg (argv : list (list Z)) : list Z := default (chars ".") (argv !! 1%nat).

(** The condition and the body of the loop. *)
Definition cat_chunk (fd : Z) (_ : unit) : prog (unit + unit) :=
  n <- call (Read fd (256 - 1)) ;;
  match n with
  | Some ((_ :: _) as buf) => printf (chars "%s") [VaStr (Some (cstring buf))] ;;; Done (inl tt)
  | _ => Done (inr tt)
  end.

Definition cat_main (argv : list (list Z)) : prog Z :=
  cwd <- call Getcwd ;;
  match cwd with
  | None => printf (chars "ls: could not get cwd" ++ [10]) [] ;;; Done 1
  | Some cwd =>
      let input := target_arg argv in
      target <- pure (cat_path_join 256 cwd input) ;;
      match target with
      | None => printf (chars "cat: %s: invalid path" ++ [10]) [VaStr (Some input)] ;;; Done 1
      | Some target =>
          fd <- call (Open target) ;;
          if fd <? 0 then printf (chars "cat: %s: not found" ++ [10]) [VaStr (Some target)] ;;; Done 1
          else
            ITree.iter (cat_chunk fd) tt ;;;
            printf [10] [] ;;;
            call (Close fd) ;;;
            Done 0
      end
  end.

Definition MAX_ENTRIES : Z := 64.
Definition SIZEOF_DIRENT : Z := 272.

Definition ls_row (e : dirent) (_ : unit) : prog unit :=
  (if bool_decide (de_type e = NODE_DIR) then printf (chars "%s/" ++ [10]) [VaStr (Some (de_name e))]
   else printf (chars "%s" ++ [10]) [VaStr (Some (de_name e))]) ;;;
  Done tt.

Definition ls_main (argv : list (list Z)) : prog Z :=
  cwd <- call Getcwd ;;
  match cwd with
  | None => printf (chars "ls: could not get cwd" ++ [10]) [] ;;; Done 1
  | Some cwd =>
      let input := target_arg argv in
      target <- pure (ls_path_join 256 cwd input) ;;
      match target with
      | None => printf (chars "ls: %s: invalid path" ++ [10]) [VaStr (Some input)] ;;; Done 1
      | Some target =>
          entries <- call (Malloc (SIZEOF_DIRENT * MAX_ENTRIES)) ;;
          if entries =? 0 then printf (chars "ls: out of memory" ++ [10]) [] ;;; Done 1
          else
            count <- call (Listdir target MAX_ENTRIES) ;;
            match count with
            | None =>
                printf (chars "ls: %s: no such directory" ++ [10]) [VaStr (Some input)] ;;;
                call (Free entries) ;;;
                Done 1
            | Some es =>
                for_each es ls_row tt ;;;
                call (Free entries) ;;;
                Done 0
            end
      end
  end.

(** ** user/init/init.c *)

Definition init_main : prog Z :=
  fd <- call (Open (chars "0:/info.txt")) ;;
  if fd <? 0 then printf (chars "failed to open info.txt" ++ [10]) [] ;;; Done 1
  else
    n <- call (Read fd (512 - 1)) ;;
    match n with
    | Some ((_ :: _) as buf) => printf (chars "%s" ++ [10; 10]) [VaStr (Some (cstring buf))] ;;; Done tt
    | _ => Done tt
    end ;;;
    call (Close fd) ;;;
    call (Spawn (chars "0:/init/shell") [chars "--bindir"; chars "0:/bin"]) ;;;
    Done 0.

(** ** user/test.c *)

(** fb_info_t, of which the program uses the sizes. *)
Record fb_info_t := mkFbInfo { i_width : Z; i_height : Z; i_pitch : Z; i_bpp : Z }.

(** The number in the bytes, the lowest first. *)
Definition le_value (bs : list Z) : Z := foldr (λ b v, b + 256 * v) 0 bs.

(** The struct in the bytes read; with fewer bytes a field is what malloc left there. *)
Definition decode_info (bs : list Z) : outcome fb_info_t :=
  if bool_decide (length bs = 32%nat) then
    Ret (mkFbInfo (le_value (take 8 bs)) (le_value (take 8 (drop 8 bs))) (le_value (take 8 (drop 16 bs))) (le_value (take 2 (drop 24 bs))))
  else Fault.

(** The address of a pixel: y * pitch in 64 bits, x * (bpp / 8) in 32. *)
Definition pixel_offset (info : fb_info_t) (x y : Z) : Z := (32 +64 y *64 i_pitch info) +64 u32 (x * (i_bpp info / 8)).

Definition fb_putpixel (fd : Z) (info : fb_info_t) (x y color : Z) : prog unit :=
  call (Seek fd (s64 (pixel_offset info x y)) 0) ;;;
  bytes <- pure (if i_bpp info / 8 <=? 4 then Ret (take (Z.to_nat (i_bpp info / 8)) (le_bytes 4 color)) else Fault) ;;
  call (Write fd bytes) ;;;
  Done tt.

Definition test_main : prog Z :=
  fd <- call (Open (chars "1:/fb")) ;;
  if fd <? 0 then printf (chars "failed to open framebuffer device" ++ [10]) [] ;;; Done 1
  else
    p <- call (Malloc 32) ;;
    n <- call (Read fd 32) ;;
    match n with
    | Some ((_ :: _) as bs) =>
        info <- pure (if p =? 0 then Fault else decode_info bs) ;;
        printf (chars "test: %llux%llu %ubpp" ++ [10]) [va_low (i_width info); va_low (i_height info); VaInt (i_bpp info)] ;;;
        call (Seek fd 32 0) ;;;
        for_each (seqZ 0 100) (λ x _, for_each (seqZ 0 100) (λ y _, fb_putpixel fd info x y 0xffff0000) tt) tt ;;;
        call (Close fd) ;;;
        Done 0
    | _ =>
        printf (chars "failed to get fb_info" ++ [10]) [] ;;;
        call (Close fd) ;;;
        Done 1
    end.

(** crt0.s *)
Definition start (main : prog Z) : prog void := code <- main ;; ITree.trigger (inr1 (Exit code)).
