(* ===== verification/ProgThms.v ===== *)
(** * The programs, proved

    echo, ps, drives, ls, pkill, cat and init end in every environment that keeps its
    promises, and what they have printed and done then is stated for each.  The lemmas
    on [finishes] are the rules of a small program logic over the weak bisimulation of
    interaction trees. *)

From ITree Require Import ITree ITreeFacts Events.State Events.StateFacts.
From S2P Require Import Prelude ByteMem FrameAlloc Heap Vmm CStr Printf UserLib Vfs UserPath Rtc Thread Port Fbcon Files Proc Programs.
Import Monads.
#[local] Open Scope prog_scope.
#[local] Abbreviation Done r := (go (RetF r)).

(** ** The environment *)

(** A call, whatever its result is. *)
Inductive some_call : Type := | Made (T : Type) (e : callE T).
Arguments Made {T} e.

(** An environment answers calls; its history are the calls it has answered. *)
Class Env (W : Type) := {
  answer {T : Type} : callE T → W → W * T;
  history : W → list some_call;
  history_answer {T} (e : callE T) w : history (answer e w).1 = history w ++ [Made e];
}.

(** What a call adds to standard output, the processes it ends, the memory it gives
    back, the programs it starts. *)
Definition said (c : some_call) : list Z :=
  match c with Made e => match e with Write fd bytes => if fd =? STDOUT then bytes else [] | _ => [] end end.
Definition kills (c : some_call) : list Z := match c with Made e => match e with Kill pid => [pid] | _ => [] end end.
Definition frees (c : some_call) : list Z := match c with Made e => match e with Free p => [p] | _ => [] end end.
Definition spawns (c : some_call) : list (list Z * list (list Z)) :=
  match c with Made e => match e with Spawn name argv => [(name, argv)] | _ => [] end end.

Section Run.
Context {W : Type} `{EW : Env W}.

(** The world after a call, and its result. *)
Definition after {T} (e : callE T) (w : W) : W := (answer e w).1.
Definition result {T} (e : callE T) (w : W) : T := (answer e w).2.

(** All that the calls so far have done of a kind. *)
Definition total {A} (f : some_call → list A) (w : W) : list A := concat (f <$> history w).
Definition stdout : W → list Z := total said.

Lemma total_after {A T} (f : some_call → list A) (e : callE T) w : total f (after e w) = total f w ++ f (Made e).
Proof. unfold total, after. rewrite history_answer, fmap_app, concat_app. simpl. by rewrite app_nil_r. Qed.

Definition handler : (callE +' stopE) ~> stateT W (itree stopE) := λ T e w,
  match e with
  | inl1 e => Done (answer e w)
  | inr1 e => ITree.bind (ITree.trigger e) (λ r, Done (w, r))
  end.

(** The program ends, without undefined behaviour. *)
Definition finishes {A} (t : prog A) (w w' : W) (a : A) : Prop := eutt eq (interp_state handler t w) (Done (w', a)).

Lemma fin_done {A} (a : A) w : finishes (Done a) w w a.
Proof. unfold finishes. rewrite interp_state_ret. reflexivity. Qed.

Lemma fin_call {T} (e : callE T) w : finishes (call e) w (after e w) (result e w).
Proof. unfold finishes, call, after, result. rewrite interp_state_trigger. cbn. by destruct (answer e w). Qed.

Lemma fin_bind {A B} (t : prog A) (k : A → prog B) w w1 a w2 b :
  finishes t w w1 a → finishes (k a) w1 w2 b → finishes (ITree.bind t k) w w2 b.
Proof. unfold finishes. intros H1 H2. rewrite interp_state_bind, H1, bind_ret_l. exact H2. Qed.

Lemma fin_pure {A} (o : outcome A) a w : o = Ret a → finishes (pure o) w w a.
Proof. intros ->. apply fin_done. Qed.

(** One turn of a loop, and its end. *)
Lemma fin_again {I R} (body : I → prog (I + R)) i j w w1 w2 r :
  finishes (body i) w w1 (inl j) → finishes (ITree.iter body j) w1 w2 r → finishes (ITree.iter body i) w w2 r.
Proof.
  intros H1 H2. unfold finishes in *. rewrite unfold_iter, interp_state_bind, H1, bind_ret_l. cbn.
  rewrite interp_state_tau, tau_eutt. exact H2.
Qed.
Lemma fin_stop {I R} (body : I → prog (I + R)) i w w1 r :
  finishes (body i) w w1 (inr r) → finishes (ITree.iter body i) w w1 r.
Proof.
  intros H1. unfold finishes in *. rewrite unfold_iter, interp_state_bind, H1, bind_ret_l. cbn.
  rewrite interp_state_ret. reflexivity.
Qed.

(** A loop over an array keeps an invariant of the elements done. *)
Lemma fin_for {A S} (body : A → S → prog S) (I : list A → S → W → Prop) l : ∀ pre s w, I pre s w →
  (∀ pre x s w, x ∈ l → I pre s w → ∃ s' w', finishes (body x s) w w' s' ∧ I (pre ++ [x]) s' w') →
  ∃ s' w', finishes (for_each l body s) w w' s' ∧ I (pre ++ l) s' w'.
Proof.
  induction l as [|x l IH]; intros pre s w HI Hstep.
  - exists s, w. rewrite app_nil_r. split; [apply fin_done|done].
  - destruct (Hstep pre x s w) as (s1 & w1 & H1 & HI1); [left|done|].
    destruct (IH (pre ++ [x]) s1 w1 HI1) as (s2 & w2 & H2 & HI2); [intros; apply Hstep; [by right|done]|].
    exists s2, w2. rewrite <- app_assoc in HI2. split; [by eapply fin_bind|done].
Qed.

(** ** printf *)

(** The world after a write of [bytes] to standard output, if there is one. *)
Definition wrote (bytes : list Z) (w : W) : W := match bytes with [] => w | _ => after (Write STDOUT bytes) w end.

Lemma total_wrote {A} (f : some_call → list A) bytes w :
  (∀ b, f (Made (Write STDOUT b)) = []) → total f (wrote bytes w) = total f w.
Proof. intros Hf. destruct bytes; [done|]. unfold wrote. by rewrite total_after, Hf, app_nil_r. Qed.
Lemma stdout_wrote bytes w : stdout (wrote bytes w) = stdout w ++ bytes.
Proof. destruct bytes; [by rewrite app_nil_r|]. unfold wrote, stdout. by rewrite total_after. Qed.

Lemma fin_printf fmt args out w : vsnprintf 1024 fmt args = Ret out →
  finishes (printf fmt args) w (wrote out w) (Z.of_nat (length out)).
Proof.
  intros E. pose proof (vsnprintf_length 1024 fmt args out ltac:(lia) E) as Hl.
  assert (s32 (Z.of_nat (length out)) = Z.of_nat (length out)) as Es by (unfold s32; rewrite Z.mod_small by lia; lia).
  unfold printf. eapply fin_bind; [apply fin_pure; unfold UserPrintf.printf; change UserPrintf.vsnprintf with vsnprintf; rewrite E; reflexivity|].
  cbv beta iota zeta. rewrite Es. destruct out as [|c out]; [apply fin_done|].
  destruct (Z.ltb_spec 0 (Z.of_nat (length (c :: out)))); [|simpl in *; lia].
  rewrite Nat2Z.id, firstn_all. eapply fin_bind; [apply fin_call|apply fin_done].
Qed.
End Run.

(** ** What the formats of the programs give *)

(** A field of a width: the text, and the blanks or zeros that make it as wide. *)
Definition padded (sp : spec) (tmp : list Z) : list Z :=
  let pad := Z.to_nat (width sp - Z.of_nat (length tmp)) in
  if left_align sp then tmp ++ replicate pad 32 else replicate pad (if zero_pad sp then 48 else 32) ++ tmp.

Lemma PUT_fits size out c : Z.of_nat (length out) + 1 < size → size < W64 → PUT size out c = out ++ [c].
Proof. intros H1 H2. unfold PUT. rewrite u64_small by lia. destruct (Z.ltb_spec (Z.of_nat (length out)) (size - 1)); [done|lia]. Qed.

Lemma foldl_PUT_fits size tmp : ∀ out, Z.of_nat (length out) + Z.of_nat (length tmp) < size → size < W64 →
  foldl (PUT size) out tmp = out ++ tmp.
Proof.
  induction tmp as [|c tmp IH]; intros out H1 H2; cbn [foldl length] in *; [by rewrite app_nil_r|].
  rewrite PUT_fits, IH, <- app_assoc; [done|rewrite length_app; simpl; lia|done|lia|done].
Qed.

Lemma put_pad_fits size c n : ∀ out, Z.of_nat (length out) + Z.of_nat n < size → size < W64 →
  put_pad n size out c = out ++ replicate n c.
Proof.
  induction n as [|n IH]; intros out H1 H2; cbn [put_pad replicate]; [by rewrite app_nil_r|].
  rewrite PUT_fits, IH, <- app_assoc; [done|rewrite length_app; simpl; lia|done|lia|done].
Qed.

Section Fits.
Context (size : Z) (Hsize : 1 ≤ size ≤ 2 ^ 30).

Lemma PAD_AND_PUT_fits sp out tmp : 0 ≤ width sp →
  Z.of_nat (length out) + Z.of_nat (length (padded sp tmp)) < size →
  PAD_AND_PUT size sp out tmp = Ret (out ++ padded sp tmp).
Proof.
  intros Hw Hl. unfold PAD_AND_PUT, padded in *. cbv zeta in *. set (n := Z.to_nat (width sp - Z.of_nat (length tmp))) in *.
  assert (Z.of_nat (length out) + Z.of_nat n + Z.of_nat (length tmp) < size) as Hl'
    by (destruct (left_align sp); rewrite length_app, length_replicate in Hl; lia).
  assert (fits_int (width sp - Z.of_nat (length tmp)) = true) as -> by (unfold fits_int; lia). cbn [negb].
  destruct (left_align sp); cbn [negb].
  - rewrite foldl_PUT_fits, put_pad_fits, <- app_assoc by (rewrite ?length_app; lia). done.
  - rewrite put_pad_fits, foldl_PUT_fits, <- app_assoc by (rewrite ?length_app, ?length_replicate; lia). done.
Qed.

(** One character of the format that is no percent sign. *)
Lemma loop_char f c fmt args out : c ≠ 37 → Z.of_nat (length out) + 1 < size →
  vsnprintf_loop (S f) size (c :: fmt) args out = vsnprintf_loop f size fmt args (out ++ [c]).
Proof. intros Hc Hl. cbn [vsnprintf_loop]. rewrite (proj2 (Z.eqb_neq c 37) Hc). cbn [negb]. by rewrite PUT_fits by lia. Qed.

(** A string argument. *)
Lemma loop_str f fmt' sp fmt s args out : parse_spec fmt' (VaStr (Some s) :: args) = Ret (sp, 115 :: fmt, VaStr (Some s) :: args) →
  precision sp = -1 → 0 ≤ width sp → Z.of_nat (length out) + Z.of_nat (length (padded sp s)) < size →
  vsnprintf_loop (S f) size (37 :: fmt') (VaStr (Some s) :: args) out = vsnprintf_loop f size fmt args (out ++ padded sp s).
Proof.
  intros Hp Hpr Hw Hl. cbn [vsnprintf_loop]. change (negb (37 =? 37)) with false. cbv iota. rewrite Hp. cbn [obind].
  change (convert 115 size sp (VaStr (Some s) :: args) out) with (conv_s size sp (VaStr (Some s) :: args) out).
  unfold conv_s. cbn [va_str obind default from_option id]. rewrite Hpr. change (0 <=? -1) with false. cbn [andb].
  rewrite Nat2Z.id, firstn_all, PAD_AND_PUT_fits by done. reflexivity.
Qed.

(** The digits of a number. *)
Definition dec (v : Z) : list Z := match utoa_chars v 10 with Ret s => s | _ => [] end.

Lemma dec_spec v : 0 ≤ v < 2 ^ 31 → utoa_chars v 10 = Ret (dec v) ∧ (1 ≤ length (dec v) ≤ 10)%nat ∧ Forall (is_digit 10) (dec v) ∧ num_value 10 (dec v) = v.
Proof.
  intros Hv. destruct (utoa_chars_below 10 v 10) as (s & Hrun & Hlen & Hdig & Hval & _);
    [lia|change (10 ^ Z.of_nat 10) with 10000000000; lia|lia|].
  unfold dec. rewrite Hrun. split_and!; [done|lia|lia|done|done].
Qed.

(** A number that is not negative. *)
Lemma loop_dec f fmt' sp fmt v args out : parse_spec fmt' (VaInt v :: args) = Ret (sp, 100 :: fmt, VaInt v :: args) →
  precision sp = -1 → 0 ≤ width sp → 0 ≤ v < 2 ^ 31 → Z.of_nat (length out) + Z.of_nat (length (padded sp (dec v))) < size →
  vsnprintf_loop (S f) size (37 :: fmt') (VaInt v :: args) out = vsnprintf_loop f size fmt args (out ++ padded sp (dec v)).
Proof.
  intros Hp Hpr Hw Hv Hl. destruct (dec_spec v Hv) as (Hrun & Hlen & _). cbn [vsnprintf_loop]. change (negb (37 =? 37)) with false. cbv iota. rewrite Hp. cbn [obind].
  change (convert 100 size sp (VaInt v :: args) out) with (conv_d size sp (VaInt v :: args) out).
  unfold conv_d. cbn [va_int obind]. assert (s32 v = v) as -> by (unfold s32; rewrite Z.mod_small by lia; lia).
  rewrite (proj2 (Z.ltb_ge v 0)) by lia. cbn [andb]. rewrite u32_small by lia. rewrite Hrun. cbn [obind].
  unfold widen. rewrite Hpr. rewrite (proj2 (Z.ltb_ge (Z.of_nat (length (dec v))) (-1))) by lia. cbn [obind app].
  rewrite PAD_AND_PUT_fits by done. reflexivity.
Qed.
End Fits.

Definition left_field (n : nat) (s : list Z) : list Z := s ++ replicate (n - length s) 32.
Lemma padded_left n s : padded (mkSpec true false n (-1) false) s = left_field (Z.to_nat n) s.
Proof. unfold padded, left_field. cbn [left_align width]. f_equal. f_equal. lia. Qed.
Lemma padded_none s : padded (mkSpec false false 0 (-1) false) s = s.
Proof. unfold padded. cbn [left_align width]. by replace (Z.to_nat (0 - Z.of_nat (length s))) with 0%nat by lia. Qed.
Lemma length_left_field n s : length (left_field n s) = (length s `max` n)%nat.
Proof. unfold left_field. rewrite length_app, length_replicate. lia. Qed.

(** The output of a format, one conversion or character after the other. *)
Ltac fits := rewrite ?padded_none, ?padded_left, ?length_app, ?length_left_field, ?length_app; cbn [length app]; lia.
Ltac render_step :=
  first
  [ rewrite loop_char by first [done | fits]
  | erewrite loop_str; [|lia|reflexivity|reflexivity|cbn [width]; lia|fits]
  | erewrite loop_dec; [|lia|reflexivity|reflexivity|cbn [width]; lia|lia|fits] ].
Ltac render := unfold vsnprintf; cbn [length app chars]; repeat render_step; cbn [vsnprintf_loop];
  rewrite ?padded_none, ?padded_left, <- ?app_assoc; try reflexivity.

Lemma print_str s : Z.of_nat (length s) ≤ 1000 → vsnprintf 1024 (chars "%s") [VaStr (Some s)] = Ret s.
Proof. intros Hs. change (chars "%s") with [37; 115]. render. Qed.
Lemma print_arg s : Z.of_nat (length s) ≤ 1000 → vsnprintf 1024 (chars "%s ") [VaStr (Some s)] = Ret (s ++ [32]).
Proof. intros Hs. change (chars "%s ") with [37; 115; 32]. render. Qed.

(** The lines of ps, drives, ls and pkill. *)
Definition ps_line (pid : Z) (state name : list Z) : list Z :=
  left_field 4 (dec pid) ++ [32] ++ left_field 8 state ++ [32] ++ name ++ [10].

Lemma print_ps pid state name : 0 ≤ pid < 2 ^ 31 → (length state ≤ 10)%nat → Z.of_nat (length name) ≤ 900 →
  vsnprintf 1024 (chars "%-4d %-8s %s" ++ [10]) [va_low pid; VaStr (Some state); VaStr (Some name)] = Ret (ps_line pid state name).
Proof.
  intros Hp Hs Hn. destruct (dec_spec pid Hp) as (_ & Hl & _). unfold va_low.
  change (chars "%-4d %-8s %s" ++ [10]) with [37; 45; 52; 100; 32; 37; 45; 56; 115; 32; 37; 115; 10]. render.
Qed.
Lemma print_drive i label : 0 ≤ i < 256 → Z.of_nat (length label) ≤ 900 →
  vsnprintf 1024 (chars "%-4d %s" ++ [10]) [VaInt i; VaStr (Some label)] = Ret (left_field 4 (dec i) ++ [32] ++ label ++ [10]).
Proof.
  intros Hi Hn. destruct (dec_spec i ltac:(lia)) as (_ & Hl & _). change (chars "%-4d %s" ++ [10]) with [37; 45; 52; 100; 32; 37; 115; 10]. render.
Qed.
Lemma print_line s : Z.of_nat (length s) ≤ 900 → vsnprintf 1024 (chars "%s" ++ [10]) [VaStr (Some s)] = Ret (s ++ [10]).
Proof. intros Hs. change (chars "%s" ++ [10]) with [37; 115; 10]. render. Qed.
Lemma print_dir s : Z.of_nat (length s) ≤ 900 → vsnprintf 1024 (chars "%s/" ++ [10]) [VaStr (Some s)] = Ret (s ++ [47; 10]).
Proof. intros Hs. change (chars "%s/" ++ [10]) with [37; 115; 47; 10]. render. Qed.
Lemma print_missing s : Z.of_nat (length s) ≤ 900 →
  vsnprintf 1024 (chars "ls: %s: no such directory" ++ [10]) [VaStr (Some s)] = Ret (chars "ls: " ++ s ++ chars ": no such directory" ++ [10]).
Proof.
  intros Hs. change (chars "ls: %s: no such directory" ++ [10]) with (chars "ls: " ++ [37; 115] ++ chars ": no such directory" ++ [10]). render.
Qed.
Lemma print_none s : Z.of_nat (length s) ≤ 900 →
  vsnprintf 1024 (chars "no process named '%s'" ++ [10]) [VaStr (Some s)] = Ret (chars "no process named '" ++ s ++ chars "'" ++ [10]).
Proof.
  intros Hs. change (chars "no process named '%s'" ++ [10]) with (chars "no process named '" ++ [37; 115] ++ chars "'" ++ [10]). render.
Qed.
Lemma print_pid v : 0 ≤ v < 2 ^ 31 →
  vsnprintf 1024 (chars "killed pid %d" ++ [10]) [VaInt v] = Ret (chars "killed pid " ++ dec v ++ [10]).
Proof.
  intros Hv. destruct (dec_spec v Hv) as (_ & Hl & _). change (chars "killed pid %d" ++ [10]) with (chars "killed pid " ++ [37; 100; 10]). render.
Qed.
Lemma print_killed name pid : 0 ≤ pid < 2 ^ 31 → Z.of_nat (length name) ≤ 900 →
  vsnprintf 1024 (chars "killed %s (pid %d)" ++ [10]) [VaStr (Some name); va_low pid] = Ret (chars "killed " ++ name ++ chars " (pid " ++ dec pid ++ chars ")" ++ [10]).
Proof.
  intros Hp Hn. destruct (dec_spec pid Hp) as (_ & Hl & _). unfold va_low.
  change (chars "killed %s (pid %d)" ++ [10]) with (chars "killed " ++ [37; 115] ++ chars " (pid " ++ [37; 100] ++ chars ")" ++ [10]). render.
Qed.

(** ** The programs *)

Section Programs.
Context {W : Type} `{EW : Env W}.
Implicit Types w : W.

(** A printf whose text is known, at the head of a program. *)
Lemma fin_print {A} fmt args out (k : Z → prog A) w w' a : vsnprintf 1024 fmt args = Ret out →
  finishes (k (Z.of_nat (length out))) (wrote out w) w' a → finishes (ITree.bind (printf fmt args) k) w w' a.
Proof. intros E H. eapply fin_bind; [by apply fin_printf|done]. Qed.
Lemma fin_step {A T} (e : callE T) (k : T → prog A) w w' a :
  finishes (k (result e w)) (after e w) w' a → finishes (ITree.bind (call e) k) w w' a.
Proof. intros H. eapply fin_bind; [apply fin_call|done]. Qed.
Lemma fin_value {A B} (o : outcome B) b (k : B → prog A) w w' a : o = Ret b →
  finishes (k b) w w' a → finishes (ITree.bind (pure o) k) w w' a.
Proof. intros E H. eapply fin_bind; [by apply fin_pure|done]. Qed.

(** A loop that prints a text for every element. *)
Lemma fin_lines {A} (body : A → unit → prog unit) (f : A → list Z) l w :
  (∀ x w, x ∈ l → finishes (body x tt) w (wrote (f x) w) tt) →
  ∃ w', finishes (for_each l body tt) w w' tt ∧ stdout w' = stdout w ++ concat (f <$> l) ∧
    (∀ B (g : some_call → list B), (∀ b, g (Made (Write STDOUT b)) = []) → total g w' = total g w).
Proof.
  intros Hb. destruct (fin_for body (λ pre _ w', stdout w' = stdout w ++ concat (f <$> pre) ∧
    ∀ B (g : some_call → list B), (∀ b, g (Made (Write STDOUT b)) = []) → total g w' = total g w) l [] tt w) as ([] & w' & H1 & H2 & H3).
  - by rewrite app_nil_r.
  - intros pre x [] w1 Hx [H1 H2]. exists tt, (wrote (f x) w1). split; [by apply Hb|]. split.
    + rewrite stdout_wrote, H1, fmap_app, concat_app, <- app_assoc. simpl. by rewrite app_nil_r.
    + intros B g Hg. rewrite total_wrote by done. by apply H2.
  - by exists w'.
Qed.

(** echo prints its arguments, each with a blank behind it, and a newline. *)
Theorem echo_correct argv w : Forall (λ a, Z.of_nat (length a) ≤ 1000) argv →
  ∃ w', finishes (echo_main argv) w w' 0 ∧ stdout w' = stdout w ++ concat ((λ a, a ++ [32]) <$> drop 1 argv) ++ [10].
Proof.
  intros Ha. destruct (fin_lines echo_word (λ a, a ++ [32]) (drop 1 argv) w) as (w1 & H1 & H2 & _).
  { intros x w1 Hx. eapply fin_print; [apply print_arg|apply fin_done].
    rewrite Forall_forall in Ha. apply Ha. apply list_elem_of_lookup in Hx as (i & Hi). rewrite lookup_drop in Hi. by eapply list_elem_of_lookup_2. }
  exists (wrote [10] w1). split; [|by rewrite stdout_wrote, H2, <- app_assoc].
  unfold echo_main. eapply fin_bind; [exact H1|]. eapply fin_print; [reflexivity|apply fin_done].
Qed.

(** What ps shows of a process. *)
Definition ps_entry (p : proc_info) : list Z := ps_line (pi_pid p) (state_name (pi_state p)) (cstring (pi_name p)).
Definition shown_ok (p : proc_info) : Prop := 0 ≤ pi_pid p < 2 ^ 31 ∧ (length (pi_name p) ≤ 64)%nat ∧ 0 ∈ pi_name p.

Lemma name_string_ok l : 0 ∈ l → name_string l = Ret (cstring l) ∧ (length (cstring l) ≤ length l)%nat.
Proof.
  intros H. unfold name_string, cstring. destruct (first_index 0 l) as [i|] eqn:E.
  - split; [done|]. rewrite length_take. lia.
  - exfalso. by apply first_index_None in E.
Qed.

(** ps prints the headings and a line for every process, with its number, the name of
    its state and its name. *)
Theorem ps_correct w : let procs := result (Listprocs MAX_PROCS) w in Forall shown_ok procs →
  ∃ w', finishes ps_main w w' 0 ∧
    stdout w' = stdout w ++ chars "PID  STATE    NAME" ++ [10] ++ chars "---- -------- ----------------" ++ [10] ++ concat (ps_entry <$> procs).
Proof.
  intros procs Hp. set (w0 := wrote (chars "---- -------- ----------------" ++ [10]) (wrote (chars "PID  STATE    NAME" ++ [10]) (after (Listprocs MAX_PROCS) w))).
  destruct (fin_lines ps_row ps_entry procs w0) as (w1 & H1 & H2 & _); [|exists w1; split].
  2:{ unfold ps_main. apply fin_step. eapply fin_print; [reflexivity|]. eapply fin_print; [reflexivity|].
      eapply fin_bind; [exact H1|apply fin_done]. }
  - intros x w1 Hx. rewrite Forall_forall in Hp. destruct (Hp x Hx) as (Hpid & Hlen & H0). destruct (name_string_ok _ H0) as [En Hl]. unfold ps_row.
    eapply fin_value; [exact En|]. eapply fin_print; [apply print_ps; [done| |lia]|apply fin_done].
    unfold state_name. repeat case_match; cbn; lia.
  - rewrite H2. unfold w0. rewrite !stdout_wrote. unfold stdout at 1. rewrite total_after. cbn [said]. by rewrite <- !app_assoc.
Qed.

(** drives prints a line for every drive, or that there is none. *)
Theorem drives_correct w : let ds := result (Listdrives MAX_DRIVES) w in
  Forall (λ d, 0 ≤ d.1 < 256 ∧ (length d.2 ≤ 64)%nat) ds →
  ∃ w', finishes drives_main w w' (if decide (ds = []) then 1 else 0) ∧
    stdout w' = stdout w ++ (if decide (ds = []) then chars "no drives found" ++ [10]
      else chars "ID   LABEL" ++ [10] ++ chars "---- ----------------" ++ [10] ++
           concat ((λ d, left_field 4 (dec d.1) ++ [32] ++ d.2 ++ [10]) <$> ds)).
Proof.
  intros ds Hd. assert (stdout (after (Listdrives MAX_DRIVES) w) = stdout w) as E0 by (unfold stdout; rewrite total_after; cbn; by rewrite app_nil_r).
  destruct (decide (ds = [])) as [E|E].
  - eexists. split; [|rewrite stdout_wrote, E0; reflexivity]. unfold drives_main. apply fin_step.
    fold ds. rewrite E. cbn [length]. eapply fin_print; [reflexivity|apply fin_done].
  - set (w0 := wrote (chars "---- ----------------" ++ [10]) (wrote (chars "ID   LABEL" ++ [10]) (after (Listdrives MAX_DRIVES) w))).
    destruct (fin_lines drives_row (λ d, left_field 4 (dec d.1) ++ [32] ++ d.2 ++ [10]) ds w0) as (w1 & H1 & H2 & _).
    { intros x w1 Hx. rewrite Forall_forall in Hd. destruct (Hd x Hx). eapply fin_print; [apply print_drive; lia|apply fin_done]. }
    exists w1. split; [|rewrite H2; unfold w0; by rewrite !stdout_wrote, E0, <- !app_assoc].
    unfold drives_main. apply fin_step. fold ds. rewrite (proj2 (Z.leb_gt (Z.of_nat (length ds)) 0)) by (destruct ds; [done|simpl; lia]).
    eapply fin_print; [reflexivity|]. eapply fin_print; [reflexivity|]. eapply fin_bind; [exact H1|apply fin_done].
Qed.

(** What ls shows of an entry. *)
Definition ls_entry (e : dirent) : list Z := de_name e ++ (if decide (de_type e = NODE_DIR) then [47; 10] else [10]).

(** ls lists the directory that the argument means: a line for every entry the kernel
    gives, directories with a slash; the array it allocated is released, also when
    there is no such directory. *)
Theorem ls_correct argv cwd target w : let p := result (Malloc (SIZEOF_DIRENT * MAX_ENTRIES)) (after Getcwd w) in
  let w1 := after (Malloc (SIZEOF_DIRENT * MAX_ENTRIES)) (after Getcwd w) in
  let es := result (Listdir target MAX_ENTRIES) w1 in
  result Getcwd w = Some cwd → ls_path_join 256 cwd (target_arg argv) = Ret (Some target) → p ≠ 0 →
  (length (target_arg argv) ≤ 900)%nat → Forall (λ e, (length (de_name e) ≤ 255)%nat) (default [] es) →
  ∃ w', finishes (ls_main argv) w w' (match es with Some _ => 0 | None => 1 end) ∧ total frees w' = total frees w ++ [p] ∧
    stdout w' = stdout w ++ match es with Some es => concat (ls_entry <$> es)
      | None => chars "ls: " ++ target_arg argv ++ chars ": no such directory" ++ [10] end.
Proof.
  intros p w1 es Hcwd Hj Hp Hlen He. set (w2 := after (Listdir target MAX_ENTRIES) w1).
  assert (total frees w2 = total frees w ∧ stdout w2 = stdout w) as [Ef Eo] by (unfold w2, w1, stdout; rewrite !total_after; cbn; by rewrite !app_nil_r).
  destruct es as [l|] eqn:Ees.
  - destruct (fin_lines ls_row ls_entry l w2) as (w3 & H1 & H2 & H3).
    { intros x w3 Hx. rewrite Forall_forall in He. specialize (He x Hx). cbn in He. unfold ls_row, ls_entry. destruct (decide (de_type x = NODE_DIR)).
      - rewrite bool_decide_true by done. eapply fin_print; [apply print_dir; lia|apply fin_done].
      - rewrite bool_decide_false by done. eapply fin_print; [apply print_line; lia|apply fin_done]. }
    exists (after (Free p) w3). split; [|split].
    + unfold ls_main. apply fin_step. rewrite Hcwd. cbv zeta. eapply fin_value; [exact Hj|]. apply fin_step. fold p w1.
      rewrite (proj2 (Z.eqb_neq p 0) Hp). apply fin_step. fold w2 es. rewrite Ees. eapply fin_bind; [exact H1|]. apply fin_step, fin_done.
    + rewrite total_after, H3, Ef by done. done.
    + unfold stdout. rewrite total_after. cbn. rewrite app_nil_r. change (stdout w3 = stdout w ++ concat (ls_entry <$> l)). by rewrite H2, Eo.
  - set (w3 := wrote (chars "ls: " ++ target_arg argv ++ chars ": no such directory" ++ [10]) w2). exists (after (Free p) w3). split; [|split].
    + unfold ls_main. apply fin_step. rewrite Hcwd. cbv zeta. eapply fin_value; [exact Hj|]. apply fin_step. fold p w1.
      rewrite (proj2 (Z.eqb_neq p 0) Hp). apply fin_step. fold w2 es. rewrite Ees. eapply fin_print; [apply print_missing; lia|]. apply fin_step, fin_done.
    + unfold w3. rewrite total_after, total_wrote, Ef by done. done.
    + unfold stdout. rewrite total_after. cbn [said]. rewrite app_nil_r. fold (stdout w3). unfold w3. by rewrite stdout_wrote, Eo.
Qed.

(** A name from the command line that is no number. *)
Definition numeric (s : list Z) : Prop := s ≠ [] ∧ Forall (λ c, 48 ≤ c ≤ 57) s.
#[local] Instance numeric_dec s : Decision (numeric s) := and_dec _ _.

Lemma cstring_bytes l c : (∀ x, x ∈ l → 0 ≤ x < W8) → c ∈ cstring l → 0 < c < W8.
Proof.
  intros Hl Hc. unfold cstring in Hc. destruct (first_index 0 l) as [i|] eqn:E.
  - apply first_index_Some in E as [_ E]. apply list_elem_of_lookup in Hc as (j & Hj). apply lookup_take_Some in Hj as [Hj Hji].
    pose proof (Hl c (list_elem_of_lookup_2 _ _ _ Hj)). destruct (decide (c = 0)) as [->|]; [by destruct (E j)|lia].
  - apply first_index_None in E. pose proof (Hl c Hc). destruct (decide (c = 0)) as [->|]; [done|lia].
Qed.

Lemma numeric_digits s : Forall (λ c, 48 ≤ c ≤ 57) s → Forall (is_digit 10) s.
Proof. intros H. eapply Forall_impl; [exact H|]. intros c Hc. cbn in Hc. unfold is_digit, digit_value. destruct (Z.ltb_spec c 58); lia. Qed.

(** The loop of pkill over the processes. *)
Lemma pkill_loop target procs w :
  (∀ c, c ∈ target → 0 < c < W8) → Forall (λ p, shown_ok p ∧ ∀ c, c ∈ pi_name p → 0 ≤ c < W8) procs →
  ∃ n w', finishes (for_each procs (pkill_one target) 0) w w' n ∧
    total kills w' = total kills w ++ (pi_pid <$> filter (λ p, cstring (pi_name p) = target) procs).
Proof.
  intros Ht Hp. destruct (fin_for (pkill_one target) (λ pre _ w', total kills w' = total kills w ++ (pi_pid <$> filter (λ p, cstring (pi_name p) = target) pre)) procs [] 0 w)
    as (n & w' & H1 & H2); [by rewrite app_nil_r| |by exists n, w'].
  intros pre x k w1 Hx HI. rewrite Forall_forall in Hp. destruct (Hp x Hx) as [(Hpid & Hlen & H0) Hb]. destruct (name_string_ok _ H0) as [En Hl].
  rewrite filter_app, fmap_app, app_assoc, <- HI, filter_cons, filter_nil. set (name := cstring (pi_name x)) in *.
  assert ((str_diff name target =? 0) = bool_decide (name = target)) as Ed.
  { destruct (Z.eqb_spec (str_diff name target) 0) as [E|E]; symmetry; [apply bool_decide_eq_true|apply bool_decide_eq_false];
      [apply str_diff_zero in E; [done|]|intros ->; apply E, str_diff_zero; [|done]];
      intros c [Hc|Hc]%elem_of_app; try (apply Ht in Hc; lia); apply (cstring_bytes (pi_name x)) in Hc; (done || lia). }
  unfold pkill_one. destruct (decide (name = target)) as [Eq|Nq].
  - destruct (result (Kill (pi_pid x)) w1 =? 0) eqn:Er.
    + eexists _, _. split; [eapply fin_value; [exact En|]; rewrite Ed, bool_decide_true by done; apply fin_step; rewrite Er; eapply fin_print; [apply print_killed; [done|lia]|apply fin_done]|].
      rewrite total_wrote, total_after by done. done.
    + eexists _, _. split; [eapply fin_value; [exact En|]; rewrite Ed, bool_decide_true by done; apply fin_step; rewrite Er; apply fin_done|]. by rewrite total_after.
  - eexists _, _. split; [eapply fin_value; [exact En|]; rewrite Ed, bool_decide_false by done; apply fin_done|]. cbn. by rewrite app_nil_r.
Qed.

(** pkill: with a number it asks the kernel to end that process and no other; with a
    name it asks for every process of the list that has exactly this name, in the order
    of the list, and for no other. It always ends with 0. *)
Theorem pkill_correct argv0 target rest w : let procs := result (Listprocs MAX_PROCS) w in
  (∀ c, c ∈ target → 0 < c < W8) → (length target ≤ 900)%nat → num_value 10 target < 2 ^ 31 →
  Forall (λ p, shown_ok p ∧ ∀ c, c ∈ pi_name p → 0 ≤ c < W8) procs →
  ∃ w', finishes (pkill_main (argv0 :: target :: rest)) w w' 0 ∧
    total kills w' = total kills w ++
      (if decide (numeric target) then [num_value 10 target]
       else pi_pid <$> filter (λ p, cstring (pi_name p) = target) procs).
Proof.
  intros procs Ht Hlen Hnum Hp. pose proof (put_string_cstr ∅ 4096 target Ht) as Hc. set (w1 := after (Listprocs MAX_PROCS) w).
  assert (total kills w1 = total kills w) as Ek by (unfold w1; rewrite total_after; cbn; by rewrite app_nil_r).
  assert (∀ n w2, ∃ w', finishes ((if n =? 0 then printf (chars "no process named '%s'" ++ [10]) [VaStr (Some target)] ;;; Done tt else Done tt) ;;; Done 0) w2 w' 0 ∧ total kills w' = total kills w2) as Hend.
  { intros n w2. destruct (n =? 0).
    - eexists. split; [eapply fin_bind; [eapply fin_print; [apply print_none; lia|apply fin_done]|apply fin_done]|]. by rewrite total_wrote.
    - eexists. split; [eapply fin_bind; apply fin_done|done]. }
  assert (∃ n w2, finishes (if decide (numeric target) then pid <- pure (on_string atoi target) ;; r <- call (Kill (u64 pid)) ;;
        if r =? 0 then printf (chars "killed pid %d" ++ [10]) [VaInt pid] ;;; Done 1 else Done 0
      else for_each procs (pkill_one target) 0) w1 w2 n ∧ total kills w2 = total kills w ++
      (if decide (numeric target) then [num_value 10 target] else pi_pid <$> filter (λ p, cstring (pi_name p) = target) procs)) as (n & w2 & H1 & H2).
  { destruct (decide (numeric target)) as [[Hne Hd]|Hn]; [|rewrite <- Ek; by apply pkill_loop].
    apply numeric_digits in Hd. pose proof (num_from_ge 10 0 target ltac:(lia) ltac:(lia) Hd) as Hge. change (num_from 10 0 target) with (num_value 10 target) in Hge. set (v := num_value 10 target) in *.
    assert (on_string atoi target = Ret v) as Ea.
    { apply (atoi_decimal _ _ v target); [lia|done|done|unfold v; lia|]. by rewrite (proj2 (Z.ltb_ge v 0)) by lia. }
    assert (u64 v = v) as Eu by (apply u64_small; lia).
    destruct (result (Kill v) w1 =? 0) eqn:Er; eexists _, _; (split; [eapply fin_value; [exact Ea|]; rewrite Eu; apply fin_step; rewrite Er|]).
    - eapply fin_print; [apply print_pid; lia|apply fin_done].
    - rewrite total_wrote, total_after, Ek by done. done.
    - apply fin_done.
    - by rewrite total_after, Ek. }
  destruct (Hend n w2) as (w' & H3 & H4). exists w'. split; [|by rewrite H4].
  unfold pkill_main. apply fin_step. fold procs w1. eapply fin_value; [apply (isdigit_spec _ _ _ Hc)|].
  eapply fin_bind; [|exact H3]. destruct (decide (numeric target)) as [Hn|Hn].
  - rewrite decide_True by exact Hn. exact H1.
  - rewrite decide_False by exact Hn. exact H1.
Qed.
End Programs.

(** ** Programs that read files *)

(** What the kernel promises of an open file: reading gives the bytes at its offset and
    moves it, writing to standard output leaves it alone, closing ends it. *)
Class FileEnv (W : Type) `{EW : Env W} := {
  handle : W → Z → option (list Z * nat);
  handle_read w fd size c o : handle w fd = Some (c, o) → 0 ≤ size →
    result (Read fd size) w = Some (take (Z.to_nat size) (drop o c)) ∧
    handle (after (Read fd size) w) fd = Some (c, (o + length (take (Z.to_nat size) (drop o c)))%nat);
  handle_write w fd bytes : fd ≠ STDOUT → handle (after (Write STDOUT bytes) w) fd = handle w fd;
  handle_close w fd : handle (after (Close fd) w) fd = None;
}.

(** A file in pieces of at most [n] bytes; [fuel] pieces at most. *)
Fixpoint pieces (fuel n : nat) (l : list Z) : list (list Z) :=
  match fuel, l with
  | S f, _ :: _ => take n l :: pieces f n (drop n l)
  | _, _ => []
  end.
(** What printing the pieces as strings shows: each up to its first NUL. *)
Definition shown (l : list Z) : list Z := concat (cstring <$> pieces (length l) 255 l).

Lemma pieces_fuel n (Hn : (0 < n)%nat) : ∀ f1 f2 l, (length l ≤ f1)%nat → (length l ≤ f2)%nat → pieces f1 n l = pieces f2 n l.
Proof.
  induction f1 as [|f1 IH]; intros [|f2] [|c l] H1 H2; cbn [pieces length] in *; try done; try lia.
  f_equal. apply IH; rewrite length_drop; cbn [length]; lia.
Qed.

Lemma shown_step c l : shown (c :: l) = cstring (take 255 (c :: l)) ++ shown (drop 255 (c :: l)).
Proof.
  unfold shown. cbn [pieces length fmap list_fmap concat]. f_equal. f_equal. f_equal.
  apply pieces_fuel; [lia|rewrite length_drop; cbn [length]; lia|lia].
Qed.

Lemma shown_text l : (0 ∉ l) → shown l = l.
Proof.
  induction l as [l IH] using (induction_ltof1 _ (length (A := Z))); unfold ltof in IH. intros H0. destruct l as [|c l]; [done|].
  rewrite shown_step, IH; [|rewrite length_drop; cbn [length]; lia|].
  - unfold cstring. destruct (first_index 0 (take 255 (c :: l))) as [i|] eqn:E; [|by rewrite take_drop].
    apply first_index_Some in E as [E _]. apply lookup_take_Some in E as [E _]. by apply list_elem_of_lookup_2 in E.
  - intros Hin. apply H0. apply list_elem_of_lookup in Hin as (i & Hi). rewrite lookup_drop in Hi. by eapply list_elem_of_lookup_2.
Qed.

Section FilePrograms.
Context {W : Type} `{EW : Env W} `{!FileEnv W}.
Implicit Types w : W.

Lemma handle_wrote bytes w fd : fd ≠ STDOUT → handle (wrote bytes w) fd = handle w fd.
Proof. intros H. destruct bytes; [done|]. by apply handle_write. Qed.
Lemma stdout_after {T} (e : callE T) w : said (Made e) = [] → stdout (after e w) = stdout w.
Proof. intros E. unfold stdout. by rewrite total_after, E, app_nil_r. Qed.
Lemma length_cstring l : (length (cstring l) ≤ length l)%nat.
Proof. unfold cstring. destruct (first_index 0 l); [rewrite length_take; lia|done]. Qed.

Lemma cat_loop fd c (Hfd : fd ≠ STDOUT) : ∀ n o w, (length c - o < n)%nat → handle w fd = Some (c, o) →
  ∃ w' o', finishes (ITree.iter (cat_chunk fd) tt) w w' tt ∧ stdout w' = stdout w ++ shown (drop o c) ∧ handle w' fd = Some (c, o').
Proof.
  induction n as [|n IH]; intros o w Hn Hh; [lia|].
  destruct (handle_read w fd 255 c o Hh ltac:(lia)) as [Hr Hh1]. change (Z.to_nat 255) with 255%nat in *. set (w1 := after (Read fd 255) w) in *.
  assert (stdout w1 = stdout w) as Eo by by apply stdout_after. destruct (drop o c) as [|x l] eqn:Ed.
  - exists w1, (o + 0)%nat. rewrite app_nil_r. split; [|done]. apply fin_stop. unfold cat_chunk. apply fin_step. change (256 - 1) with 255. rewrite Hr. apply fin_done.
  - assert (length c - o = S (length l))%nat as Hl by (pose proof (length_drop c o) as E; rewrite Ed in E; exact (eq_sym E)). set (piece := take 255 (x :: l)) in *.
    assert (length piece = S (length l) `min` 255)%nat as Hp by (unfold piece; rewrite length_take; cbn [length]; lia).
    destruct (IH (o + length piece)%nat (wrote (cstring piece) w1)) as (w2 & o' & H1 & H2 & H3); [lia|by rewrite handle_wrote|].
    exists w2, o'. split; [|split; [|done]].
    + eapply fin_again; [|exact H1]. unfold cat_chunk. apply fin_step. change (256 - 1) with 255. rewrite Hr. fold w1 piece.

      eapply fin_print; [|apply fin_done]. apply print_str. pose proof (length_cstring piece). lia.
    + rewrite H2, stdout_wrote, Eo, <- app_assoc, shown_step, <- drop_drop, Ed. f_equal. f_equal. f_equal.
      rewrite Hp. destruct (decide (S (length l) ≤ 255)%nat); [rewrite !drop_ge by (cbn [length]; lia); done|]. by replace (S (length l) `min` 255)%nat with 255%nat by lia.
Qed.

(** C24. cat shows a file: it reads to the end of the file, whatever its size, prints every
    piece up to its first NUL, so a text as it is, then a newline, closes the file and
    ends with 0. *)
Theorem cat_correct argv cwd target data w : let w1 := after (Open target) (after Getcwd w) in
  let fd := result (Open target) (after Getcwd w) in
  result Getcwd w = Some cwd → cat_path_join 256 cwd (target_arg argv) = Ret (Some target) →
  0 ≤ fd → fd ≠ STDOUT → handle w1 fd = Some (data, 0%nat) →
  ∃ w', finishes (cat_main argv) w w' 0 ∧ handle w' fd = None ∧
    stdout w' = stdout w ++ shown data ++ [10] ∧ ((0 ∉ data) → stdout w' = stdout w ++ data ++ [10]).
Proof.
  intros w1 fd Hcwd Hj Hfd Hne Hh. destruct (cat_loop fd data Hne (S (length data)) 0 w1) as (w2 & o & H1 & H2 & H3); [lia|done|].
  assert (stdout w1 = stdout w) as Eo by (unfold w1; rewrite !stdout_after; done).
  assert (stdout (after (Close fd) (wrote [10] w2)) = stdout w ++ shown data ++ [10]) as E
    by (rewrite stdout_after, stdout_wrote, H2, Eo, drop_0, <- app_assoc; done).
  exists (after (Close fd) (wrote [10] w2)). split; [|split; [apply handle_close|split; [done|intros H0; by rewrite E, shown_text]]].
  unfold cat_main. apply fin_step. rewrite Hcwd. cbv zeta. eapply fin_value; [exact Hj|]. apply fin_step. fold w1 fd.
  rewrite (proj2 (Z.ltb_ge fd 0)) by lia. eapply fin_bind; [exact H1|]. eapply fin_print; [reflexivity|]. apply fin_step, fin_done.
Qed.

(** A file that does not open: cat says so, opens nothing and ends with 1. *)
Theorem cat_not_found argv cwd target w :
  result Getcwd w = Some cwd → cat_path_join 256 cwd (target_arg argv) = Ret (Some target) → (length target ≤ 900)%nat →
  result (Open target) (after Getcwd w) < 0 →
  ∃ w', finishes (cat_main argv) w w' 1 ∧ stdout w' = stdout w ++ chars "cat: " ++ target ++ chars ": not found" ++ [10].
Proof.
  intros Hcwd Hj Hl Hfd. exists (wrote (chars "cat: " ++ target ++ chars ": not found" ++ [10]) (after (Open target) (after Getcwd w))).
  split; [|rewrite stdout_wrote, !stdout_after; done].
  unfold cat_main. apply fin_step. rewrite Hcwd. cbv zeta. eapply fin_value; [exact Hj|]. apply fin_step.
  rewrite (proj2 (Z.ltb_lt _ 0) Hfd). eapply fin_print; [|apply fin_done].
  change (chars "cat: %s: not found" ++ [10]) with (chars "cat: " ++ [37; 115] ++ chars ": not found" ++ [10]). render.
Qed.

(** init shows the first 511 bytes of the information file and starts the shell with
    the directory of the programs, once and last; without the file it starts nothing. *)
Theorem init_correct w : let fd := result (Open (chars "0:/info.txt")) w in let w1 := after (Open (chars "0:/info.txt")) w in
  (fd < 0 → ∃ w', finishes init_main w w' 1 ∧ total spawns w' = total spawns w) ∧
  (∀ data, 0 ≤ fd → fd ≠ STDOUT → handle w1 fd = Some (data, 0%nat) → data ≠ [] →
    ∃ w', finishes init_main w w' 0 ∧ stdout w' = stdout w ++ cstring (take 511 data) ++ [10; 10] ∧
      total spawns w' = total spawns w ++ [(chars "0:/init/shell", [chars "--bindir"; chars "0:/bin"])]).
Proof.
  intros fd w1. split.
  - intros Hfd. eexists. split; [unfold init_main; apply fin_step; fold fd; rewrite (proj2 (Z.ltb_lt fd 0) Hfd); eapply fin_print; [reflexivity|apply fin_done]|].
    rewrite total_wrote, total_after by done. cbn. by rewrite app_nil_r.
  - intros data Hfd Hne Hh Hd. destruct (handle_read w1 fd 511 data 0 Hh ltac:(lia)) as [Hr _]. change (Z.to_nat 511) with 511%nat in Hr. rewrite drop_0 in Hr.
    set (piece := take 511 data) in *. set (w2 := wrote (cstring piece ++ [10; 10]) (after (Read fd 511) w1)).
    assert (length piece ≤ 511)%nat as Hp by (unfold piece; rewrite length_take; lia). pose proof (length_cstring piece) as Hc.
    exists (after (Spawn (chars "0:/init/shell") [chars "--bindir"; chars "0:/bin"]) (after (Close fd) w2)). split; [|split].
    + unfold init_main. apply fin_step. fold fd w1. rewrite (proj2 (Z.ltb_ge fd 0)) by lia. apply fin_step. change (512 - 1) with 511. rewrite Hr.
      destruct piece as [|x l] eqn:Ep; [unfold piece in Ep; destruct data; done|]. rewrite <- Ep in *.
      eapply fin_bind; [eapply fin_print; [|apply fin_done]|apply fin_step, fin_step, fin_done].
      change (chars "%s" ++ [10; 10]) with [37; 115; 10; 10]. render. by rewrite <- Ep.
    + rewrite !stdout_after by done. unfold w2. rewrite stdout_wrote. unfold w1. rewrite !stdout_after by done. done.
    + rewrite !total_after. unfold w2. rewrite total_wrote by done. unfold w1. rewrite !total_after. cbn. by rewrite !app_nil_r.
Qed.
End FilePrograms.

(** ** test.c and the frame buffer device *)

Lemma le_bytes_S n v : le_bytes (S n) v = u8 v :: le_bytes n (v / 256).
Proof.
  unfold le_bytes. rewrite Nat2Z.inj_succ, seqZ_cons by lia. cbn [fmap list_fmap]. change (256 ^ 0) with 1. rewrite Z.div_1_r. f_equal.
  rewrite Z.pred_succ. change (Z.succ 0) with (1 + 0).
  rewrite <- (fmap_add_seqZ 1 0 (Z.of_nat n)), <- list_fmap_compose. apply list_fmap_ext. intros i k Hk. apply lookup_seqZ in Hk as [-> Hk]. cbn.
  rewrite Zdiv_Zdiv by lia. do 2 f_equal. rewrite Z.pow_add_r by lia. lia.
Qed.
Lemma le_value_bytes n : ∀ v, 0 ≤ v < 256 ^ Z.of_nat n → le_value (le_bytes n v) = v.
Proof.
  induction n as [|n IH]; intros v Hv.
  - change (256 ^ Z.of_nat 0) with 1 in Hv. assert (v = 0) as -> by lia. reflexivity.
  - rewrite le_bytes_S. cbn [le_value foldr]. fold (le_value (le_bytes n (v / 256))). rewrite Nat2Z.inj_succ, Z.pow_succ_r in Hv by lia.
    rewrite IH by (split; [apply Z.div_pos; lia|apply Z.div_lt_upper_bound; lia]).
    pose proof (Z.div_mod v 256 ltac:(lia)). unfold u8. lia.
Qed.
Lemma length_le_bytes n v : length (le_bytes n v) = n.
Proof. unfold le_bytes. rewrite length_fmap, length_seqZ. lia. Qed.

Lemma four_fields (a b c d e : list Z) : length a = 8%nat → length b = 8%nat → length c = 8%nat → length d = 2%nat →
  let l := a ++ b ++ c ++ d ++ e in take 8 l = a ∧ take 8 (drop 8 l) = b ∧ take 8 (drop 16 l) = c ∧ take 2 (drop 24 l) = d.
Proof.
  intros Ha Hb Hc Hd l. assert (drop 8 l = b ++ c ++ d ++ e) as E1 by by apply drop_app_length'.
  assert (drop 16 l = c ++ d ++ e) as E2 by (change 16%nat with (8 + 8)%nat; rewrite <- drop_drop, E1; by apply drop_app_length').
  assert (drop 24 l = d ++ e) as E3 by (change 24%nat with (16 + 8)%nat; rewrite <- drop_drop, E2; by apply drop_app_length').
  rewrite E1, E2, E3. split_and!; by apply take_app_length'.
Qed.

(** The program finds the sizes where the device put them. *)
Theorem decode_info_correct (f : framebuffer) :
  0 ≤ fb_width f < W64 → 0 ≤ fb_height f < W64 → 0 ≤ fb_pitch f < W64 → 0 ≤ fb_bpp f < 65536 →
  decode_info (fb_info f) = Ret (mkFbInfo (fb_width f) (fb_height f) (fb_pitch f) (fb_bpp f)).
Proof.
  intros Hw Hh Hp Hb. unfold decode_info, fb_info. set (tl := [_; _; _; _; _; _]).
  destruct (four_fields (le_bytes 8 (fb_width f)) (le_bytes 8 (fb_height f)) (le_bytes 8 (fb_pitch f)) (le_bytes 2 (fb_bpp f)) tl) as (-> & -> & -> & ->);
    try apply length_le_bytes.
  rewrite bool_decide_true by (rewrite !length_app, !length_le_bytes; reflexivity). by rewrite !le_value_bytes.
Qed.

(** printf knows one l: "%llu" prints the u, and the next conversion takes the argument
    that was meant for it. *)
Lemma test_format : vsnprintf 1024 (chars "test: %llux%llu %ubpp" ++ [10]) [va_low 640; va_low 480; VaInt 32] =
  Ret (chars "test: uxu 640bpp" ++ [10]).
Proof. vm_compute. reflexivity. Qed.
