(* ===== verification/ProgDemo.v ===== *)
(** * A concrete environment for the programs

    One text file, two processes, an open-file table; the theorems about cat and pkill
    applied to it. *)

From ITree Require Import ITree ITreeFacts Events.State Events.StateFacts.
From S2P Require Import Prelude ByteMem FrameAlloc Heap Vmm CStr Printf UserLib Vfs UserPath Rtc Thread Port Files Proc Programs ProgThms.

Record world := mkWorld { w_history : list some_call; w_handles : gmap Z (list Z * nat) }.

Definition the_file : list Z := chars "hello".
Definition the_procs : list proc_info :=
  [mkInfo 1 (chars "shell" ++ replicate 58 0) 1; mkInfo 2 (chars "cat" ++ replicate 60 0) 0; mkInfo 3 (chars "shell" ++ replicate 58 0) 2].

Definition reply {T} (e : callE T) (h : gmap Z (list Z * nat)) : gmap Z (list Z * nat) * T :=
  match e in callE T return gmap Z (list Z * nat) * T with
  | Getcwd => (h, Some (chars "0:/"))
  | Open path => if decide (path = chars "0:/a.txt") then (<[2 := (the_file, 0%nat)]> h, 2) else (h, -1)
  | Read fd size =>
      match h !! fd with
      | Some (c, o) => let bs := take (Z.to_nat size) (drop o c) in (<[fd := (c, (o + length bs)%nat)]> h, Some bs)
      | None => (h, None)
      end
  | Write fd bytes => (h, Z.of_nat (length bytes))
  | Seek fd offset whence => (h, -1)
  | Close fd => (delete fd h, 0)
  | Listdir path max => (h, None)
  | Listdrives max => (h, [])
  | Listprocs max => (h, the_procs)
  | Kill pid => (h, 0)
  | Spawn name argv => (h, 4)
  | Getuptime => (h, 0)
  | Gettime => (h, mkTime 0 0 0 1 1 2025)
  | Clear => (h, tt)
  | Malloc size => (h, 4096)
  | Free p => (h, tt)
  end.

#[export] Program Instance world_env : Env world := {
  answer T e w := (mkWorld (w_history w ++ [Made e]) (reply e (w_handles w)).1, (reply e (w_handles w)).2);
  history := w_history;
}.
Next Obligation. done. Qed.

#[export] Program Instance world_files : FileEnv world := { handle w fd := w_handles w !! fd }.
Next Obligation.
  intros w fd size c o Hh Hs. unfold result, after. cbn [answer world_env w_handles reply fst snd]. rewrite Hh. cbn [fst snd].
  split; [done|apply lookup_insert_eq].
Qed.
Next Obligation. done. Qed.
Next Obligation. intros w fd. unfold after. cbn [answer world_env w_handles reply fst]. apply lookup_delete_eq. Qed.

Definition w0 : world := mkWorld [] ∅.

(** cat a.txt *)
Lemma cat_correct_witness : ∃ w', finishes (cat_main [chars "cat"; chars "a.txt"]) w0 w' 0 ∧ stdout w' = chars "hello" ++ [10].
Proof.
  destruct (cat_correct [chars "cat"; chars "a.txt"] (chars "0:/") (chars "0:/a.txt") the_file w0) as (w' & H1 & _ & _ & H2).
  - reflexivity.
  - vm_compute. reflexivity.
  - vm_compute. discriminate.
  - vm_compute. discriminate.
  - vm_compute. reflexivity.
  - exists w'. split; [exact H1|]. apply H2. apply (bool_decide_unpack _). vm_compute. exact I.
Defined.

(** pkill shell, and pkill 2 *)
Lemma pkill_correct_witness :
  (∃ w', finishes (pkill_main [chars "pkill"; chars "shell"]) w0 w' 0 ∧ total kills w' = [1; 3]) ∧
  (∃ w', finishes (pkill_main [chars "pkill"; chars "2"]) w0 w' 0 ∧ total kills w' = [2]).
Proof.
  assert (Forall (λ p, shown_ok p ∧ ∀ c, c ∈ pi_name p → 0 ≤ c < W8) (result (Listprocs MAX_PROCS) w0)) as Hp.
  { apply Forall_forall. intros p Hin. change (p ∈ the_procs) in Hin. unfold the_procs in Hin. rewrite !elem_of_cons, elem_of_nil in Hin.
    assert (∀ l : list Z, forallb (λ c, (0 <=? c) && (c <? W8)) l = true → ∀ c, c ∈ l → 0 ≤ c < W8) as Hb.
    { intros l H c Hc. rewrite forallb_forall in H. apply list_elem_of_In in Hc. specialize (H c Hc). lia. }
    destruct Hin as [->|[->|[->|[]]]]; (split; [split; [vm_compute; split; congruence|split; [vm_compute; lia|apply (bool_decide_unpack _); vm_compute; exact I]]|apply Hb; vm_compute; reflexivity]). }
  split.
  - destruct (pkill_correct (chars "pkill") (chars "shell") [] w0) as (w' & H1 & H2).
    + intros c Hc. apply list_elem_of_In in Hc. vm_compute in Hc. vm_compute. intuition (subst; congruence).
    + vm_compute. lia.
    + vm_compute. reflexivity.
    + exact Hp.
    + exists w'. split; [exact H1|]. rewrite H2. vm_compute. reflexivity.
  - destruct (pkill_correct (chars "pkill") (chars "2") [] w0) as (w' & H1 & H2).
    + intros c Hc. apply list_elem_of_In in Hc. vm_compute in Hc. vm_compute. intuition (subst; congruence).
    + vm_compute. lia.
    + vm_compute. reflexivity.
    + exact Hp.
    + exists w'. split; [exact H1|]. rewrite H2. vm_compute. reflexivity.
Defined.
