(* ===== verification/Boot.v ===== *)
(** * The way up (src/main.c)

    kmain checks what the boot loader answered and calls the components' set-up in its
    order; kidle, the first thread, mounts the file systems, loads the font and starts
    init.  The state is that of the interrupt handlers with the memory the descriptor
    tables are in. *)

From S2P Require Import Prelude ByteMem FrameAlloc Pmm Heap HeapThms Vmm CStr Hw Rtc Tar Vfs Kbd Fbcon Thread Files Proc Spawn Irq.

(** The answers of the boot loader; [None] is a NULL response.  The offset of the direct
    map is that of [Boot]. *)
Record responses := mkResponses {
  mmap_response : option (list memmap_entry);
  hhdm_response : bool;
  exec_addr_response : option Z;
  mod_response : option (list (Z * Z));
  fb_response : option (list framebuffer) }.

Record boot_state := mkBoot { bt_irq : irq_state pmm_state; bt_mem : mem; initrd : Z * Z }.

(** The addresses the linker fixes. *)
Record layout := mkLayout {
  kernel_start : Z; kernel_end : Z; gdt_addr : Z; idt_addr : Z; tss_addr : Z; cpu_local_addr : Z;
  syscall_entry_addr : Z; isr_table : list Z; irq_table : list Z; trampoline : Z; user_enter : Z;
  kidle_addr : Z; init_name : Z }.

Section BootUp.
Context `{B : Boot}.
Context (port_in mmio_in msr_in : list io → Z → Z) (cmos : nat → Z → Z) (garbage unsequenced : Z → Z) (lay : layout).

Abbreviation BM := (M boot_state).
Abbreviation IM := (M (irq_state pmm_state)).

Definition set_irq (v : irq_state pmm_state) (s : boot_state) : boot_state := mkBoot v (bt_mem s) (initrd s).
Definition set_initrd (v : Z * Z) (s : boot_state) : boot_state := mkBoot (bt_irq s) (bt_mem s) v.
Definition in_irq {A} (m : IM A) : BM A := zoom bt_irq set_irq m.
Definition in_hw {A} (m : M hw_state A) : BM A :=
  zoom (λ s, mkHw (bt_mem s) (ir_io (bt_irq s))) (λ h s, mkBoot (set_io (hw_io h) (bt_irq s)) (hw_mem h) (initrd s)) m.
Definition in_os {A} (m : M (os_state pmm_state) A) : IM A := on_mc (on_os m).
Definition set_threads_enabled (s : irq_state pmm_state) : irq_state pmm_state :=
  mkIrq (ir_mc s) (ir_io s) (lapic_timer_ticks s) (ir_rtc s) (ir_cmos s) true (lapic_base s) (lapic_timer_tpm s) (ioapic_base s) (idt s) (ir_log s).
Definition upd_con (f : con_state → con_state) : IM unit := in_os (in_sys (in_con (modify f))).

(** ** kmain *)

Definition absent {A} (r : option (list A)) : bool := match r with Some (_ :: _) => false | _ => true end.
Definition wrong_depth (r : option (list framebuffer)) : bool :=
  match r with Some (f :: _) => negb (fb_bpp f =? 32) | _ => false end.

(** The checks in their order. *)
Definition check_responses (r : responses) : BM unit :=
  if absent (mmap_response r) then panic "main.c: kmain() -> no memory map"
  else if negb (hhdm_response r) then panic "main.c: kmain() -> no hhdm"
  else if bool_decide (exec_addr_response r = None) then panic "main.c: kmain() -> no executable address"
  else if absent (mod_response r) then panic "main.c: kmain() -> no initrd loaded"
  else if absent (fb_response r) then panic "main.c: kmain() -> no framebuffer found"
  else if wrong_depth (fb_response r) then panic "main.c: kmain() -> 32-bit color not supported"
  else ret tt.

(** rtc_init with the clock of the interrupt handlers. *)
Definition init_clock (fuel : nat) : IM unit :=
  n <- gets ir_cmos ;;
  ticks <- apic_timer_ticks ;;
  r <- lift (rtc_init cmos fuel ticks n) ;;
  let '(c, n') := r in
  clock <- lift c ;;
  modify (set_rtc clock n').

Definition kmain (fuel : nat) (r : responses) : BM unit :=
  in_hw serial_init ;;;
  check_responses r ;;;
  match mmap_response r, exec_addr_response r, mod_response r, fb_response r with
  | Some mmap, Some base, Some (m :: _), Some (f :: _) =>
      modify (set_initrd m) ;;;
      in_irq (upd_con (λ c, mkCon (con_mem c) f (curr_font c) (bg_color c) (fg_color c) (con_cx c) (con_cy c))) ;;;
      in_hw (gdt_init (gdt_addr lay)) ;;;
      in_irq (idt_init (isr_table lay) (irq_table lay) (idt_addr lay)) ;;;
      in_hw (tss_init (tss_addr lay)) ;;;
      in_hw (gdt_load_tss (gdt_addr lay) (tss_addr lay)) ;;;
      in_irq (in_os (in_kernel (k_mm (pg (pmm_init (kernel_start lay) (kernel_end lay) hhdm_offset mmap base (m.1 -64 hhdm_offset) m.2))))) ;;;
      in_irq (in_os (in_kernel (in_vm vmm_init))) ;;;
      in_irq (idt_enable port_in mmio_in msr_in fuel) ;;;
      in_hw (cpu_init msr_in (cpu_local_addr lay) (syscall_entry_addr lay)) ;;;
      in_irq (init_clock fuel) ;;;
      in_irq (in_os (in_kernel (k_mm slab_init))) ;;;
      in_irq (in_os (in_kernel (thread_init (trampoline lay) unsequenced garbage (kidle_addr lay))))
  | _, _, _, _ => fault
  end.

(** ** kidle *)

(** Where kidle ends: in its halt loop with init started, or in that of a failure. *)
Inductive idle_end := Idle | Stuck.

Definition fill_screen (color : Z) : IM unit := in_os (in_files_write (in_con (fb_clear color))).

(** kfree of init's file in memory. *)
Definition start_init (node elf size : Z) : IM unit :=
  in_os (in_files (in_fs (release node))) ;;;
  _ <- on_mc (proc_create (user_enter lay) garbage elf size [init_name lay] []) ;;
  on_mc (on_mm (kfree elf)).

Definition kidle_init : IM idle_end :=
  in_os (in_files (in_fs devfs_init)) ;;;
  in_os (in_files console_dev_init) ;;;
  in_os (in_files fb_dev_init) ;;;
  r <- on_mc (load_file (chars "0:/init/init")) ;;
  match r with
  | NotFound => panic "main.c: kidle() -> init not found"
  | ReadFailed => panic "main.c: kidle() -> unable to read init binary"
  | Waiting => diverge
  | Loaded node elf size => start_init node elf size ;;; ret Idle
  end.

Definition kidle (initrd : Z * Z) : IM idle_end :=
  modify set_threads_enabled ;;;
  fill_screen 0xff000000 ;;;
  in_os (in_files (in_fs (modify (λ s, mkFs (fs_heap s) (fs_mem s) (tar_init initrd.1 initrd.2) (fs_nodes s) (vfs_drives s) (tarfs_root s) (entries s) (entry_count s) (devfs_root s))))) ;;;
  in_os (in_files (in_fs tarfs_init)) ;;;
  r <- on_mc (load_file (chars "0:/etc/Lat2-Terminus16.psf")) ;;
  match r with
  | NotFound => fill_screen 0xffff0000 ;;; ret Stuck
  | ReadFailed => fill_screen 0xff00ffff ;;; ret Stuck
  | Waiting => diverge
  | Loaded node buf size =>
      m <- on_mc (gets mc_mem) ;;
      match font_load_psf m buf size with
      | None => fill_screen 0xff00ff00 ;;; ret Stuck
      | Some f =>
          upd_con (λ c, mkCon (con_mem c) (con_fb c) f (bg_color c) (fg_color c) (con_cx c) (con_cy c)) ;;;
          kidle_init
      end
  end.

(** ** What kmain asks of the boot loader *)

(** The requirements, in the order in which they are checked. *)
Definition requirements (r : responses) : list (bool * string) :=
  [(bool_decide (default [] (mmap_response r) ≠ []), "main.c: kmain() -> no memory map");
   (hhdm_response r, "main.c: kmain() -> no hhdm");
   (bool_decide (is_Some (exec_addr_response r)), "main.c: kmain() -> no executable address");
   (bool_decide (default [] (mod_response r) ≠ []), "main.c: kmain() -> no initrd loaded");
   (bool_decide (default [] (fb_response r) ≠ []), "main.c: kmain() -> no framebuffer found");
   (bool_decide (fb_bpp <$> head (default [] (fb_response r)) = Some 32), "main.c: kmain() -> 32-bit color not supported")]%string.
Definition unmet (r : responses) : list string := (filter (λ x, x.1 = false) (requirements r)).*2.

Lemma serial_ready_to_go s : ∃ s', in_hw serial_init s = Ret (tt, s').
Proof. unfold in_hw, zoom, serial_init, outb, note, modify, bind. eexists. reflexivity. Qed.

(** With an unmet requirement kmain panics with the message of the first one, whatever
    the machine, after nothing but setting up the serial port; with all of them met the
    checks change nothing. *)
Theorem kmain_checks fuel r s :
  match unmet r with
  | msg :: _ => kmain fuel r s = Panic msg
  | [] => check_responses r s = Ret (tt, s) ∧
      ∃ mmap base m ms f fs, mmap_response r = Some mmap ∧ exec_addr_response r = Some base ∧ mod_response r = Some (m :: ms) ∧
        fb_response r = Some (f :: fs) ∧ fb_bpp f = 32
  end.
Proof.
  assert (∀ msg, (∀ s, check_responses r s = Panic msg) → kmain fuel r s = Panic msg) as Hp.
  { intros msg H. unfold kmain. destruct (serial_ready_to_go s) as (s' & E).
    rewrite (bind_Ret _ _ _ _ _ E). unfold bind. by rewrite H. }
  destruct r as [mm hh ex mo fb]. unfold unmet, requirements, check_responses in *. cbn [mmap_response hhdm_response exec_addr_response mod_response fb_response] in *.
  destruct mm as [[|e mm]|]; [by apply Hp| |by apply Hp]. destruct hh; [|by apply Hp].
  destruct ex as [base|]; [|by apply Hp]. destruct mo as [[|m mo]|]; [by apply Hp| |by apply Hp].
  destruct fb as [[|f fb]|]; [by apply Hp| |by apply Hp]. cbn [absent negb wrong_depth default from_option id fmap option_fmap option_map head] in *.
  destruct (Z.eqb_spec (fb_bpp f) 32) as [E|E].
  - rewrite E. cbn. split; [done|]. by exists (e :: mm), base, m, mo, f, fb.
  - assert (bool_decide (Some (fb_bpp f) = Some 32) = false) as -> by (apply bool_decide_false; clear -E; intros [= ?]; done).
    by apply Hp.
Qed.
End BootUp.
