(* ===== verification/BootDemo.v ===== *)
(** * A boot from the boot loader's answers to the first instruction of init

    A machine with 128 frames, a 16 by 32 pixel screen and an archive with the font
    and an init of one page.  kmain, kidle and the first timer interrupts run on it
    by evaluation. *)

From S2P Require Import Prelude ByteMem FrameAlloc Pmm Heap HeapThms Vmm VmmThms CStr Hw Rtc Tar Vfs Kbd Fbcon Thread Files Proc Spawn Irq ElfThms Boot.

Definition bd_archive : Z := hhdm_offset + 0x60000.
Definition bd_header (m : mem) (off : Z) (name : list Z) (type : Z) (size : list Z) : mem :=
  store8 (put_string (put_string m (bd_archive + off) name) (bd_archive + off + 124) size) (bd_archive + off + 156) type.

(** etc/, the font (36 bytes), init/, and init (128 bytes). *)
Definition bd_files : mem :=
  bd_header (bd_header (bd_header (bd_header ∅ 0 (chars "etc/") 53 (chars "0"))
    512 (chars "etc/Lat2-Terminus16.psf") 48 (chars "00000000044"))
    1536 (chars "init/") 53 (chars "0"))
    2048 (chars "init/init") 48 (chars "00000000200").
Definition bd_font : mem := store_le 4 bd_files (bd_archive + 1024) 0x10000436.
Definition bd_mem : mem :=
  put_string (foldl (λ m '(n, o, v), store_le n m (bd_archive + 2560 + o) v) bd_font (demo_image 0x400000)) 0x3000 (chars "0:/init/init").

Definition bd_fb : framebuffer := mkFb 0x200000 16 32 64 32 8 16 8 8 8 0.
Definition bd_responses : responses :=
  mkResponses (Some [Pmm.mkEntry 0x1000 0x5f000 0; Pmm.mkEntry 0x60000 0x20000 1; Pmm.mkEntry 0x90000 0x10000 0]) true (Some 0x80000) (Some [(bd_archive, 3072)]) (Some [bd_fb]).

Definition bd_os : os_state pmm_state :=
  mkOs (mkSys (mkFs (mkMm pmm_boot bd_mem (replicate 8 (mkCache 0 0 0 0))) ∅ (mkTar 0 0) ∅ (replicate 8 (mkDrive 0 [] false)) 0 (replicate 16 (mkDev [] None 0 false)) 0 0)
      ∅ (mkCon ∅ (mkFb 0 0 0 0 0 0 0 0 0 0 0) (mkFont 0 0 0 0 0) 0 0xffffffff 0 0) kbd_boot [] (mkSched ∅ 0 0 0 0 0 0) ∅)
    (mkSpace 0 0) 0x70000 ∅ ∅ ∅ (replicate 1024 0) 0 0 false.
Definition bd_boot : boot_state :=
  mkBoot (mkIrq (mkMachine bd_os 0 ∅) [] 0 (mkRtc (mkTime 0 0 0 1 1 2000) 0 0) 0 false 0 0 0 (replicate 256 no_gate) []) ∅ (0, 0).

Definition bd_layout : layout :=
  mkLayout 0xffffffff80000000 0xffffffff80004000 0x5000 0x6000 0x7000 0x8000 0x9000
    (replicate 32 0x10000) (replicate 16 0x20000) 0x30000 0x31000 0x32000 0x3000.

(** Ports that are always ready; a clock that stands at 1 January 2025. *)
Definition bd_port (t : list io) (p : Z) : Z := 0x20.
Definition bd_cmos (n : nat) (r : Z) : Z :=
  if r =? RTC_STATUS_A then 0 else if r =? RTC_STATUS_B then 6 else if r =? RTC_YEAR then 25 else if r =? RTC_MONTH then 1 else if r =? RTC_DAY then 1 else 0.

Definition bd_kmain : outcome (unit * boot_state) :=
  kmain bd_port (λ _ _, 0) (λ _ _, 0xfee00900) bd_cmos (λ _, 0) id bd_layout 100 bd_responses bd_boot.
Definition bd_tick (s : irq_state pmm_state) : outcome (option unit * irq_state pmm_state) :=
  irq_handler bd_port bd_cmos 0x31000 (λ _, 0) 0x3000 100 LAPIC_TIMER_VECTOR s.

(** What can be told of the running machine: the interrupt ticks, whether a thread may be
    switched, the process of the current thread with its number, name, working directory
    and descriptors, where its thread starts and with how many arguments, and what the
    process reads at its entry point. *)
Record report := mkReport {
  re_ticks : Z; re_enabled : bool; re_pid : Z; re_name : list Z; re_cwd : list Z; re_fds : list bool;
  re_entry : Z; re_argc : Z; re_code : Z }.

Definition bd_report (s : irq_state pmm_state) : option report :=
  let o := mc_os (ir_mc s) in let m := mm_mem (os_heap o) in
  t ← threads (sy_sched (os_sys o)) !! curr_thread (sy_sched (os_sys o));
  p ← sy_procs (os_sys o) !! th_process t;
  match vmm_get_mapping (read_space m (p_addr_space p)) (th_user_entry t) (os_heap o) with
  | Ret (Some (phys, _), _) =>
      Some (mkReport (lapic_timer_ticks s) (threads_enabled s) (p_pid p) (p_name p) (p_cwd p)
        ((λ f, negb (f =? 0)) <$> take 4 (p_fds p)) (th_user_entry t) (th_user_argc t) (load_le 4 m (phys + hhdm_offset)))
  | _ => None
  end.

Definition bd_run : outcome (option report) :=
  match bd_kmain with
  | Ret (_, s0) =>
      match kidle (λ _, 0) bd_layout (initrd s0) (bt_irq s0) with
      | Ret (Idle, s1) => match bd_tick s1 with Ret (_, s2) => Ret (bd_report s2) | _ => Fault end
      | _ => Fault
      end
  | _ => Fault
  end.

(** Ten milliseconds after the boot init runs: process 0, named after its file, in the
    root of drive 0, with standard input and output open, at the entry point of its
    executable and with one argument. *)
Example boot_reaches_init : bd_run =
  Ret (Some (mkReport 1 true 0 (chars "0:/init/init") (chars "0:/") [true; true; false; false] 0x400000 1 0x55667788)).
Proof. vm_compute. reflexivity. Qed.

(** Without the archive's font kidle fills the screen with red and stays there. *)
Definition bd_no_font : outcome (idle_end * irq_state pmm_state) :=
  match bd_kmain with Ret (_, s0) => kidle (λ _, 0) bd_layout (bd_archive + 1536, 1536) (bt_irq s0) | _ => Fault end.
Lemma boot_without_font : match bd_no_font with
  | Ret (Stuck, s) => load_le 4 (mm_mem (os_heap (mc_os (ir_mc s)))) 0x200000 = 0xffff0000
  | _ => False
  end.
Proof. vm_compute. reflexivity. Qed.
