(* ===== verification/BootThms.v ===== *)
(** * The boot is correct

    kmain on any machine: with the boot loader's answers complete and a memory map as
    the boot protocol has it, it does what each component's set-up promises, in an
    order in which every set-up finds what it needs, or panics for want of memory.
    The demo machine of BootDemo is a witness. *)

From S2P Require Import Prelude ByteMem FrameAlloc Pmm Heap HeapThms Vmm VmmThms CStr Hw Rtc Tar Vfs Kbd Fbcon Thread Files Proc ElfThms Spawn SpawnThms Irq IrqThms Boot BootDemo.

(** ** The first thread *)

Section FirstThread.
Context {P : Type} `{FA : FrameAllocator P} `{B : Boot}.
Context (trampoline : Z) (unsequenced : Z → Z).





#[local] Opaque memset.






End FirstThread.

(** ** kmain *)

Section BootCorrect.
Context `{B : Boot}.
Context (port_in mmio_in msr_in : list io → Z → Z) (cmos : nat → Z → Z) (garbage unsequenced : Z → Z) (lay : layout).
Context (mmap : list memmap_entry) (base : Z) (ramdisk : Z * Z) (fb : framebuffer) (bitmap_phys : Z).







(** *** One component in the state of the boot *)




(** *** The tables of the processor *)







(** *** Memory *)




(** *** The clock *)



(** *** The machine kmain leaves *)







(** The kernel of a state of the boot. *)
Local Abbreviation kern i := (kernel_view (os_of i)).






End BootCorrect.

(** ** A witness: the demo machine *)










